(* ===== verification/_CoqProject ===== *)
-Q . S2P
Prelude.v
RustStr.v
RustNum.v
RustUtf8.v
BashArity.v
ShellExpand.v
DenyMatch.v
PathScope.v
ExecPolicy.v
ExecPolicyFacts.v
ShellQuoting.v
ProviderRegistry.v
Providers.v
NetworkPolicy.v
Outbox.v
OutboxFacts.v
Admission.v
CommandSafety.v
CommandSafetyFacts.v
CommandGrammar.v
WgModel.v
WgValidate.v
WgSearch.v
WgSpec.v
WgReducer.v
WgFacts.v
WgPlan.v
WgTheorems.v
WgProjection.v
WgLegacy.v
WgImport.v
WgRuntime.v
WgRuntimeFacts.v
WgSession.v
WgRestore.v
WgWrites.v
WgSessionTheorems.v
WgDigest.v
WfReview.v
WfGates.v
WfGatesFacts.v
TelEvent.v
TelConsent.v
TelBuffer.v
TelSession.v
TelFacts.v
TelFlush.v
Redact.v
RedactFacts.v
RedactKeeps.v
SetupTx.v
PathFs.v
Confine.v
ConfineFacts.v
Authority.v
Transcript.v
HistoryRepair.v
HistoryRepairTheorems.v
SessionTree.v
SessionTreeFacts.v
SavedSession.v
JournalTheorems.v
SessionRender.v
WfNodes.v
WfExec.v
WfExecTheorems.v
WfFleet.v
WfPhases.v
WfPhasesTheorems.v
WfElevation.v
WfLower.v
WfLowerTheorems.v
ApprovalLog.v
ApprovalLogTheorems.v
WfSelect.v
WfSelectTheorems.v
WfSearch.v
WfSearchTheorems.v
WfReplay.v
WfReplayTheorems.v
