(* ===== verification/Prelude.v ===== *)
(** * Verification of the GhostyCode policy, session, work-ledger, workflow and telemetry core

    GhostyCode is a terminal coding agent written in Rust. A model proposes tool
    invocations; the program decides which of them may run, runs them, and keeps a
    ledger of the work. This library models the parts of it that carry that
    decision logic and states what makes them correct.

    ** The program and its models

    - _Execution policy_ (crates/execpolicy). [ExecPolicyEngine::check] decides
      whether an invocation is allowed, must be approved, or is forbidden. It calls
      the arity dictionary for allow rules, the shell expander and the deny matcher
      for denied prefixes, and path normalisation for rules about files.
      - [BashArity]: bash_arity.rs, the whole table, [classify] and
        [allow_rule_matches].
      - [ShellExpand]: shell_expand.rs. The loop of [Expander::expand] is split into
        [scan] (one [scan_step] per iteration, one reader per inner loop) and the
        recursion [expand]; [record] is [record_emit] and [payload].
      - [DenyMatch]: the token normalisation and the stack search
        [denied_prefix_matches] of lib.rs.
      - [PathScope]: [normalize_workspace_relative_path], [normalize_workspace_scope]
        and their helpers of lib.rs. Whether the platform folds case is the argument
        [case_insensitive], as in the code.
      - [ExecPolicy]: rulesets, typed rules, session approvals, [check] with all its
        branches and messages; and approval_mode.rs.
      - [ExecPolicyFacts]: the theorems on the engine.
      - [ShellQuoting]: the spellings of a command line, and that the scanner and the
        engine do not depend on the one that is chosen.
    - _Provider identity_ (crates/config, and crates/tui/src/config.rs). Names of
      model vendors, where their credentials are looked up, and which endpoints
      count as a vendor's own.
      - [ProviderRegistry]: [ProviderKind], its serde names, the default models and
        endpoints, and one record per entry of [PROVIDER_REGISTRY].
      - [Providers]: name resolution, the tables between [ProviderKind] and
        [ApiProvider], and the exact-route predicates.
    - _Network policy_ (crates/tui/src/network_policy.rs). Which hosts a tool may
      contact: the configured lists, the answers of the session, the audit log and
      the addresses trusted as proxy placeholders.
      - [NetworkPolicy]: policy, cache, auditor and decider, with their theorems. The
        appended log lines are a field of the auditor.
    - _Command safety_ (crates/tui/src/command_safety.rs). A second opinion on shell
      commands, in front of the engine: which ones run in parallel or in a read-only
      agent without being asked, and which are safe, fit for the workspace, in need of
      approval, or dangerous and blocked.
      - [CommandSafety]: the whole file, its tables included. [unwrap_round] is one
        iteration of [unwrap_to_effective_tokens], [analyze_segment] one of the loop
        of [analyze_destructive_patterns], [options_loop] and [filter_loop] are the
        two loops over options, and the rows of [readonly_options_lit] the arms of
        [readonly_options_are_allowed].
      - [CommandSafetyFacts]: what a stage runs behind prefixes and wrappers, as
        relations, and the theorems on the analysis. [CommandGrammar]: argument lists
        as a grammar, and the theorems on the read-only classifiers.
    - _Resource admission_ (crates/tui/src/tools/resource_admission.rs). Heavy build
      commands of all processes share a few lock files.
      - [Admission]: which commands are heavy, the memory probes applied to what the
        host tools print, and the permit protocol. A state holds the tasks of all
        processes and the locked slots; one label is one step of one task, so a list
        of labels is an interleaving. [f64] is IEEE binary64 ([SpecFloat]).
    - _Lifecycle outbox_ (crates/hooks/src/lifecycle_outbox.rs). A queue, a writer
      task and an append-only file of numbered events, with a webhook beside it.
      - [Outbox]: [emit], the lazily spawned writer, [deliver], [append_line],
        [recover_last_seq], [bounded_text] and the retry loop of the webhook. Each
        file or network operation takes its outcome as an argument; an append may
        fail as a whole or be torn by a crash. A label is an emit, a turn of the
        writer, a restart or the loss of the runtime.
      - [OutboxFacts]: the invariant of the file and the theorems.
    - _Work graph_ (crates/tui/src/work_graph). A ledger of objectives, plan steps
      and operations, changed only through a reducer that validates the outcome, and
      a runtime that owns the ledger of the active session.
      - [WgModel]: model.rs, ids.rs and events.rs.
      - [WgValidate]: validate.rs. Messages are a structured type, one constructor
        per format string.
      - [WgReducer]: reducer.rs and the wrapper of mod.rs.
      - [WgProjection]: compat.rs and liveness.rs, with theorems on the views,
        evidence references and activity receipts.
      - [WgSearch], [WgSpec]: the two graph searches, the invariants as
        propositions, and that validation decides them.
      - [WgFacts], [WgPlan], [WgTheorems]: what a change preserves, the simulation
        between preview and acceptance, and the theorems on the reducer.
      - [WgLegacy]: the plan and To-do states of tools/plan.rs and tools/todo.rs that
        the runtime publishes into.
      - [WgImport]: migration.rs, the import of such states into a new graph.
      - [WgRuntime]: runtime.rs. An operation maps the runtime to the runtime it
        leaves and a result; whether the two legacy locks are obtained, the readings
        of the clock, and the fleet and lane stores are arguments. Graph edits run in
        a small monad that counts clock readings.
      - [WgEdits], [WgRuntimeFacts]: what every sequence of reducer changes keeps, and
        which changes each operation makes. [WgSession]: operations as data, sessions
        as sequences of them, and the invariant. [WgStale], [WgRestore], [WgWrites]:
        marking lost operations, restores, and what an update writes.
        [WgSessionTheorems]: the theorems on sessions.
      - [WgDigest]: digest.rs, the rendered digest of operations.
    - _Workflows_ (crates/workflow, and the driver in crates/tui/src/tools/workflow).
      - [WfReview]: review_repair.rs, the bounded loop of reviews and repairs, with its
        theorems. An operation returns the loop it leaves beside its result.
      - [WfGates]: gates.rs and the part of the driver that evaluates gates when a role
        completes, refuses or admits a task and hands artifacts over. The identifiers
        and times of new artifacts, and the outcome of the spawn behind the gates, are
        arguments. [WfGatesFacts]: traces of completed and spawned tasks, and the
        theorems.
      - [WfNodes]: the node tree of lib.rs, its validation, isolation and the estimate of
        the agents it launches, with the role tokens of role_resolve.rs.
      - [WfExec]: [MockWorkflowExecutor] of lib.rs, the reference semantics of the tree.
        [execute_branch_set], [execute_loop_until], [execute_cond] and [execute_expand]
        are the branches of [execute_node]. [WfExecFacts]: a relation that every step keeps
        is kept by a run, and fuel. [WfExecTheorems], [WfFleet]: the theorems.
      - [WfPhases]: [WorkflowPlan::from_config] of lib.rs. [WfPhasesFacts]: the search for
        an order against the relation of dependencies. [WfPhasesTheorems]: the theorems.
      - [WfElevation]: elevation.rs and the summary of workflow_plan_approval.rs. The
        flags that the walk sets are a record. [WfLower]: the lowering of a declarative
        workflow to a script in the driver; statements first, then their text.
        [WfLowerTheorems]: the card against the script.
      - [WfSelect]: the tournament, the frontier, the teacher candidates and the promotion
        gate of lib.rs. [WfSelectTheorems]: the theorems.
      - [WfSearch]: experimental_search.rs. [WfSearchTheorems]: the theorems.
      - [WfReplay]: replay.rs. [leaf_answer] and [replay_leaf] are [execute_leaf],
        [replay_node] is [execute_node] with the other methods as its branches; the children
        that a record selects are chosen among the runs of the children.
        [WfReplayTheorems]: what every step keeps a replay keeps, levels of expansion, and
        the theorem.
    - _Conversations and sessions_ (crates/core, and crates/tui).
      - [Transcript]: roles and messages of core/src/role.rs and request.rs, and the
        placement of roles in the dialects of the providers.
      - [HistoryRepair]: tool_history_repair.rs and the preparation of a request in
        client.rs. [scan_message] is one iteration of the first loop, [rebuild_message] of
        the second. [HistoryRepairFacts]: histories as events, what makes one paired, and
        the repair as a function of the turn. [HistoryRepairTheorems]: the theorems.
      - [SessionTree]: session_tree.rs, the journal of a session, and the journal of
        protocol/src/journal.rs. The id and time of a new entry are a [Stamp].
        [SessionTreeFacts]: journals as trees that grow.
      - [SavedSession]: the part of session_manager.rs that keeps a session and its journal
        in step, and the fork command. [SavedSessionFacts], [JournalTheorems]: sessions as
        sequences of operations, and the theorems. [SessionRender]: the rendered tree.
      - [ApprovalLog]: approval_log.rs, the receipts of approvals beside a session. How a
        write to the log ends is an argument. [ApprovalLogFacts]: the protocol of receipts.
        [ApprovalLogTheorems]: the theorems, and a codec for receipts.
    - _Telemetry_ (crates/telemetry, and its settings in crates/config). What may leave
      the machine, who decides it, and the shared directory the processes write to.
      - [TelEvent]: event.rs and counters.rs, the reducers of envelope.rs and lib.rs and
        the batch builder of actor.rs, with their theorems.
      - [TelConsent]: decision.rs up to [evaluate_in_home], and the resolution of the
        environment, the configuration file and the recorded notice in crates/config.
      - [TelBuffer]: buffer.rs. An operation is a program ([prog]): a tree of lock-free
        looks and of critical sections. [enter] is [with_lock] and [try_with_lock];
        what the operating system answers in a step is an [Io].
      - [TelSession]: the decisions that touch the disk, envelope.rs, client.rs,
        actor.rs and lib.rs as programs, and a [World] in which the programs of any
        number of processes interleave step by step.
      - [TelFacts], [TelFlush]: the theorems on interleavings and on single runs.
    - _Authority of a turn_ (crates/tui/src/core, and the tools).
      - [PathFs]: Unix paths and a file system with symbolic links, as the standard
        library and the system give them: [canonicalize], [create_dir_all], a rename.
      - [Confine]: [resolve_path] of crates/tui/src/tools/spec.rs and the writes without
        approval of authority.rs. [ConfineFacts]: where a resolved write lands.
      - [Authority]: the rest of authority.rs with the modes of crates/config, the calls
        in the engine and the terminal's answer to approval requests, and its theorems.
    - _Persistence of the configuration_ (crates/config/src/persistence.rs).
      - [Redact]: the scrubber of logs, previews and text bound for the model, with the
        exact-value pass of crates/tui/src/client.rs. [RedactFacts]: texts that differ
        in secrets only, as an inductive relation, and noninterference. [RedactKeeps]:
        what a redaction leaves as it is. [RedactKeys]: spellings of keys.
      - [SetupTx]: staged writes of several files, their commit and rollback. Which
        directory entry a path names, and which calls fail, are arguments.
    - [Prelude] (this file), [RustStr], [RustNum] and [RustUtf8] hold the shared
      vocabulary: results, list and sorting lemmas, and the part of Rust's [str],
      [char], number parsing and UTF-8 the code uses.

    A module has a file of its name, but for those that hold lemmas for one other module:
    [WgEdits] is in WgRuntimeFacts.v, [WgStale] in WgRestore.v, [WfExecFacts] in
    WfExecTheorems.v, [WfPhasesFacts] in WfPhasesTheorems.v, [HistoryRepairFacts] in
    HistoryRepairTheorems.v, [SavedSessionFacts] in JournalTheorems.v, [ApprovalLogFacts] in
    ApprovalLogTheorems.v and [RedactKeys] in RedactKeeps.v.

    [CommandSafety] has an arity table and a wrapper list of its own, as the code has, and
    shares only strings with [BashArity] and [ShellExpand].

    The activity receipts of the work graph are validated with the exact-route
    predicates of [Providers], and the runtime composes the reducer, the validator,
    the projections, the legacy states and the import. The provider names of telemetry
    are the registry ids of [Providers], and a turn's authority uses the approval modes of
    [ExecPolicy] and the write check of [Confine]. Requests pass the repair and then [Redact];
    a resumed session is repaired and its journal branched, and what it loads of its approvals
    comes from [ApprovalLog]. The lowering of a workflow uses
    the scopes of [WfPhases] and the tools of [WfElevation]; selection and replay work on the
    results of [WfExec]. Apart from that the parts are
    independent.

    ** Conventions

    A Rust string is the list of its Unicode scalar values ([list N]). Where the
    code indexes bytes, or compares byte lengths, the model uses [str_len] or a
    prefix of ASCII characters, which is the same. Case folding is ASCII only, as in
    the code. [Result] is [result], written with [let?]; a [u64] is an [N] with its
    wrap-around ([u64_add]) or saturation written out; HashSet and HashMap used for
    membership are [gset] and [gmap]. Vectors are lists. Mutation of a cloned
    snapshot is a function from the old snapshot to the new one.

    Code outside the repository is a parameter: SHA-256 ([Digest]) for derived ids,
    the URL and RFC 3339 parsers ([Parsers]) for evidence, and [serde_json] for the
    import ([LegacyCodec]) and the outbox ([EnvelopeCodec]); the [shlex] crate
    ([Shlex]) and the lower case of Unicode ([UnicodeCase]) for command safety. Nothing
    is assumed of the first three; in particular ids may collide, and the theorems on the reducer
    and the runtime hold all the same. The theorems on the outbox file assume
    [EnvelopeCodecLaws]: an encoded envelope is one line of text that is not blank and
    decodes with the same sequence number; and that the emitted events respect the
    bound the code documents, an encoding shorter than the recovery window. The
    theorems on command safety hold for every splitter; the ones that judge literal
    commands assume [ShlexLaws], that words written plainly or in quotes and one space
    apart are read back, and [UnicodeCaseLaws], that lower case is the usual one on
    ASCII text. [posix_split] is a splitter with these laws. For telemetry the URL parser
    ([UrlParser]) and the JSON, UUID and timestamp codecs ([TelCodec]) are parameters of
    which nothing is assumed, but that a batch can be encoded where a theorem says that
    one is sent. [sample_urls] and [sample_codec] are instances. The JSON strings of a
    script ([JsonText]), the JSON of a frozen search ([FreezeCodec]) and the hash of a leaf's
    input ([LeafHash]) are parameters of which nothing is assumed; what the hash of a frozen
    search fixes is stated up to a collision. The approval log assumes [ReceiptCodecLaws]:
    the JSON of a receipt is one line, does not end in a carriage return and is read back.

    A session ([session]) is any sequence of runtime operations in which every restored
    graph was saved by some session ([session_restore]), with two assumptions on the
    environment ([op_ok]): the import of a legacy state gives a plan with at most one step
    in progress, and the revision counter is not within the number of nodes of wrapping
    around. Without the first one [aliased_import_cannot_be_published] applies.

    The ids of new journal entries are random in the code; the theorems on journals assume
    that they are new ([fresh_stamps]). The approval receipts beside a saved session are
    read by an argument, which may fail; [hydrate_receipts] is that argument for a log.

    ** Theorems

    - _A denied command does not run._ [deny_always_wins], [typed_deny_wins],
      [wrapped_command_stays_denied] and [spelling_does_not_evade_deny] are the
      end-to-end statements; they rest on [expanded_commands_refines_runs] (the
      expander computes the relation [runs]), [spelling_roundtrip] (the scanner
      inverts every way of quoting) and [denied_prefix_matches_spec] (the search
      decides the relation [accepts]).
      [extra_words_do_not_evade_deny], [path_spelling_does_not_evade_deny] and
      [deny_is_anchored] say what that relation means. [auto_approved_iff] lists
      every case in which nobody is asked. [padding_evades_deny] shows the limit.
    - _Rules apply to what they name._ [typed_rule_precedence],
      [allow_rule_matches_sound], [classify_canonical], [ruleset_operations], and
      the path theorems [normalized_path_is_safe], [absolute_path_in_workspace] and
      the two round trips.
    - _The ledger stays valid._ [validate_decides_invariants], [apply_contract],
      [reachable_snapshots_are_valid], [terminal_states_are_final],
      [observations_never_verify], [replay_is_noop] and
      [accepted_plan_is_reviewed_plan].
    - _A session stays usable._ [session_invariant], [session_saves_never_fail],
      [saved_session_restores], [restored_operations_are_not_live],
      [session_loses_no_work], [plan_update_stores_request] and
      [todo_lists_are_well_formed].
    - _Events are logged once and in order._ [outbox_sequence_increases],
      [outbox_delivers_in_order], [bounded_text_spec] and
      [webhook_retries_bounded].
    - _Hosts and resources are bounded._ [network_policy_spec],
      [session_answers_refined] (the caches refine a log of answers),
      [audit_log_faithful], [fakeip_stays_in_benchmark_block],
      [admission_never_exceeds_limit] and [free_slot_admits].
    - _Commands are judged by what they run._ [readonly_command_spec] and
      [text_filter_spec] say which commands the read-only classifiers admit,
      [destructive_stage_is_flagged] which deletions are found behind which wrappers.
    - _Workflows stop and gates hold._ [verified_means_reviewed], [stop_is_final] and
      [review_loop_bounded] on the review loop; [gates_follow_reports] (the board is a
      function of the reports), [handoffs_delivered_once] and
      [explicit_gate_passes_iff] on gates. [plans_respect_dependencies] and
      [phase_cycles_are_refused] on plans of phases, [run_accounts_for_its_leaves] and
      [fleet_limit_bounds_agents] on the tree of nodes. [replay_invents_nothing] on replays,
      [selection_keeps_the_best] on tournaments and frontiers, [promoted_iff_proven] on the
      promotion gate, [search_admits_each_candidate_once] and [frozen_hash_fixes_inputs] on
      searches.
    - _The operator sees what will run._ [card_covers_the_script]: the approval card of a
      workflow against the tasks of its script.
    - _Conversations survive._ [repaired_history_is_paired] and
      [repair_keeps_the_conversation] on histories a crash has torn;
      [journal_is_a_growing_tree], [rebranch_switches_the_branch] and
      [journal_walk_terminates] on journals, [sessions_agree_with_their_journals] and
      [saved_messages_load_back] on sessions, [tree_shows_every_entry] on what is shown,
      [approvals_are_decided_once] on the receipts of approvals.
    - _Telemetry respects the answer._ [telemetry_permission_iff] is the emit predicate,
      [opt_out_is_a_boundary] the order between an opt-out and everything else, as long
      as it can be found out whether the tombstone is there,
      [wipe_outcomes] what a wipe leaves; [bounded_strings_spec],
      [session_report_is_exact] and [batch_is_bounded] say what is sent, and
      [sink_is_a_ring] what is kept.
    - _A turn does what its posture allows._ [file_writes_are_confined] and
      [carve_out_writes_are_confined] say what a file tool can change on the disk,
      [foreign_input_gains_nothing] that mail, transcripts, memory and the assistant run
      nothing unasked by the engine, [sandbox_follows_posture], [approval_disposition_spec] and
      [narrowing_recorded_iff] what the posture means.
    - _Secrets stay hidden and writes are whole._ [redaction_hides_secrets] and
      [json_redaction_hides_secrets] are noninterference,
      [spelling_does_not_hide_a_key] says that the case style of a key does not matter,
      [model_text_is_kept] and [redaction_keeps_lines] what is never changed;
      [commit_is_atomic] and [staging_spec] are the contract of setup transactions.
    - _Views and claims are truthful._ [projections_are_total], [digest_reads_back],
      [evidence_is_reference_only], [effort_claims_need_vendor_route],
      [exact_https_route_spec], [provider_identity_roundtrip] and
      [credentials_stay_with_vendor].
    - _Defects and divergences_: [padding_evades_deny], [flag_keys_unreachable],
      [config_spellings_diverge], [history_slack_wedges_ledger],
      [completion_refused_while_dependent_blocked], [two_rows_in_progress],
      [torn_line_wedges_outbox], [macos_probe_never_measures],
      [confined_find_masks_later_stages], [safe_by_leading_text],
      [agent_readonly_admits_writes], [remote_pipe_check_is_dead],
      [final_todo_row_blocks_updates], [emptied_import_cannot_be_restored],
      [aliased_import_cannot_be_published], [refused_receipts_are_not_counted],
      [ungranted_iteration_verifies], [role_start_gate_never_blocks],
      [failed_spawn_loses_handoffs], [buffered_events_are_never_sent],
      [flush_forgets_the_rest], [failed_wipe_leaves_everything],
      [unreadable_version_is_an_upgrade], [assigned_private_key_leaks],
      [inline_value_leaks], [winding_path_escapes], [missing_parent_is_kept],
      [auto_review_is_narrowed_silently], [terminal_undoes_narrowing],
      [doubled_ids_overflow_the_tree], [cyclic_journal_is_accepted], [wide_id_panics],
      [imported_order_resurrects_message], [branching_leaves_the_count],
      [protocol_walk_diverges], [reused_call_id_is_not_repaired],
      [expansion_exceeds_its_estimate], [reductions_are_not_counted],
      [starred_scopes_are_accepted], [unreadable_log_locks_the_session],
      [torn_receipt_is_unreadable], [cancelled_run_replays_as_success],
      [failure_hides_divergence], [self_expansion_never_ends], [foreign_replay_promotes],
      [truncated_evidence_is_longer], [dot_root_is_accepted],
      [unseen_tombstone_is_ignored], [scp_repo_is_admitted], [padded_path_evades_carve_out]
      and [bash_is_not_on_the_card].

    ** Bounds and fuel

    Loops that are not structural take fuel, and it is proved to be enough. [scan]
    and [read_dquote] get the length of the input, since each step consumes a
    character. [expand] recurses on the nesting levels that are left: the code
    enters depths 0 to [MAX_DEPTH] and returns at once beyond, so [S MAX_DEPTH]
    levels is exact. [deny_search] gets [deny_fuel], two more than three times the
    number of index pairs, since each visited pair pushes at most three others. The
    depth-first search of V1 gets the number of edges plus two, since the nodes in
    progress other than the first are distinct edge targets; the ancestry walk of
    V2 the same number, since it pushes one entry per [Contains] edge at most once.
    [visit] returns [None] when out of fuel, and [validate_decides_invariants] would
    be false if that happened. The webhook loop gets three rounds, and
    [webhook_retries_bounded] says that this always gives its result. The polling
    loop of admission and the loop of the writer task are steps of a transition
    system and need no fuel; [free_slot_admits] and [outbox_delivers_in_order] give
    the number of steps that is enough. The wrapper loop of command safety is bounded in
    the code by [MAX_WRAPPER_DEPTH], and running out is one of its answers. The programs
    of telemetry are finite trees, so [exec] is structural; [review_loop_bounded] bounds
    the rounds of a review loop by its ceiling. [value_looks_like_credential] gets the
    length of its value, since each authorization scheme it skips is a part of it
    ([value_looks_like_credential_eq] is the equation of the code). [walk] follows at most
    as many links as Linux does, and running out is one of its answers; the theorems on
    confinement say what holds when no part of a path runs out ([within_links]), and
    [winding_path_escapes] what happens when one does. The walk up a journal gets one more
    than its entries, since no id comes twice ([journal_walk_terminates]); rendering takes
    fuel as an argument, and [tree_shows_every_entry] says how much is enough. A run of a
    workflow gets as many levels of expansion as there are recorded expansions, since each
    uses one up ([run_accounts_for_its_leaves] says that it never runs out). The search for
    an order of phases gets one more than there are phases, since those being visited are
    distinct ([phase_cycles_are_refused]). A replay takes levels of expansion as an argument:
    [replay_invents_nothing] says that ranks of the recorded expansions bound them, and
    [self_expansion_never_ends] that without ranks no number is enough. The chunks of a
    search get the number of its candidates, since each takes one at least.

    ** Not modelled

    Serialization, display strings of errors, and prose (credential help, labels)
    are left out. Of the network policy, TOML decoding and [host_from_url] are left
    out; of admission, where the lock files are and how long a command waited; of the
    hooks, the sinks that only write; of the plan and To-do tools, the JSON front
    ends; of command safety, absolute paths as Windows has them ([is_absolute] is the Unix
    one); of gates, saving the board and poisoned locks; of telemetry, the channel of the
    writer with its deadlines and the exit class; of redaction, where the exact values
    to hide come from; of setup transactions, file permissions and symbolic links in the
    last place of a path; of confinement, hard links, permissions, Windows paths and
    changes of the disk during a call; of messages, their JSON; of sessions, titles, costs,
    listings and file names; of the approval log, its lock files and the check of session
    ids; of workflows, the decoding of searches, goal loops, the resolution of fleets and the
    analysis of a plan before it is compiled. The two front ends of the workflow language,
    the tool-call parser and the pricing tables (floating point over large data) are not
    modelled. The terminal interface, HTTP client, server, key ring and database are input
    and output around this core and are not modelled. *)

From stdpp Require Import base list option gmap strings sorting.
From Stdlib Require Import Lia.

(** ** Results

    Rust's [Result<T, E>] and its [?] operator. *)
Inductive result (A E : Type) : Type :=
| Ok (a : A)
| Err (e : E).
Arguments Ok {A E} a.
Arguments Err {A E} e.

Definition result_bind {A B E : Type} (m : result A E) (k : A -> result B E) : result B E :=
  match m with
  | Ok a => k a
  | Err e => Err e
  end.

Definition is_ok {A E : Type} (m : result A E) : bool :=
  match m with Ok _ => true | Err _ => false end.

Definition get_ok {A E : Type} (d : A) (m : result A E) : A := match m with Ok a => a | Err _ => d end.

Declare Scope ghosty_scope.
Delimit Scope ghosty_scope with gh.
Notation "'let?' x ':=' m 'in' k" := (result_bind m (fun x => k))
  (at level 10, x binder, m at level 100, k at level 200,
   format "'let?'  x  ':='  m  'in' '//' k") : ghosty_scope.
Open Scope ghosty_scope.

(** ** Tactics of the development *)

(** Destructs the [if]s and [match]es of the goal and of the hypotheses one
    after the other, remembering each scrutinee. *)
Ltac break_match :=
  match goal with
  | H : context [match ?x with _ => _ end] |- _ =>
      lazymatch x with
      | context [match _ with _ => _ end] => fail
      | _ => destruct x eqn:?
      end
  | |- context [match ?x with _ => _ end] =>
      lazymatch x with
      | context [match _ with _ => _ end] => fail
      | _ => destruct x eqn:?
      end
  end.

(** Splits conjunctions and existentials of the hypotheses, and turns boolean
    connectives into propositions. *)
Ltac breakup :=
  repeat match goal with
  | H : _ /\ _ |- _ => destruct H
  | H : exists _, _ |- _ => destruct H
  | H : (_ && _)%bool = true |- _ => apply andb_true_iff in H
  | H : (_ || _)%bool = false |- _ => apply orb_false_iff in H
  | H : negb _ = true |- _ => apply negb_true_iff in H
  | H : negb _ = false |- _ => apply negb_false_iff in H
  | H : bool_decide _ = true |- _ => apply bool_decide_eq_true in H
  | H : bool_decide _ = false |- _ => apply bool_decide_eq_false in H
  end.

(** Solves a goal about [result_bind] by case analysis on each step. *)
Ltac result_cases :=
  repeat match goal with
  | H : result_bind ?m _ = Ok _ |- _ =>
      let E := fresh "E" in
      destruct m eqn:E; cbn [result_bind] in H; [ | discriminate H ]
  | H : Ok _ = Ok _ |- _ => injection H; clear H; intros
  | H : Err _ = Ok _ |- _ => discriminate H
  | H : Ok _ = Err _ |- _ => discriminate H
  end.

Create HintDb ghosty.

(** ** Shared list functions and lemmas *)

Section ListFunctions.
Context {A : Type}.
Implicit Types (l : list A) (p : A -> bool).

Fixpoint drop_while p l : list A :=
  match l with
  | [] => []
  | x :: l' => if p x then drop_while p l' else l
  end.

Fixpoint take_while p l : list A :=
  match l with
  | [] => []
  | x :: l' => if p x then x :: take_while p l' else []
  end.

(** [iter().position(p)]. *)
Fixpoint position p l : option nat :=
  match l with
  | [] => None
  | x :: l' => if p x then Some 0 else S <$> position p l'
  end.

Lemma take_drop_while p l : take_while p l ++ drop_while p l = l.
Proof. induction l as [|x l IH]; simpl; [done|]. destruct (p x); simpl; [by rewrite IH|done]. Qed.

Lemma take_while_forall p l : Forall (fun x => p x = true) (take_while p l).
Proof. induction l as [|x l IH]; simpl; [constructor|]. destruct (p x) eqn:E; by constructor. Qed.

Lemma drop_while_head p l x l' : drop_while p l = x :: l' -> p x = false.
Proof.
  induction l as [|y l IH]; simpl; [done|]. destruct (p y) eqn:E; [done|].
  intros [= -> _]. done.
Qed.

Lemma drop_while_none p l : Forall (fun x => p x = false) l -> drop_while p l = l.
Proof. destruct 1 as [|x l Hx _]; simpl; [done|]. by rewrite Hx. Qed.

Lemma drop_while_idemp p l : drop_while p (drop_while p l) = drop_while p l.
Proof. induction l as [|x l IH]; simpl; [done|]. destruct (p x) eqn:E; [done|]. simpl. by rewrite E. Qed.

Lemma drop_while_app_all p l k :
  Forall (fun x => p x = true) l -> drop_while p (l ++ k) = drop_while p k.
Proof. induction 1 as [|x l Hx _ IH]; simpl; [done|]. by rewrite Hx. Qed.

Lemma drop_while_Forall p (Q : A -> Prop) l : Forall Q l -> Forall Q (drop_while p l).
Proof. induction 1 as [|x l Hx Hl IH]; simpl; [constructor|]. destruct (p x); [done|by constructor]. Qed.

Lemma position_lt p l i : position p l = Some i -> i < length l.
Proof.
  revert i. induction l as [|x l IH]; intros i; simpl; [done|]. destruct (p x).
  - intros [= <-]. lia.
  - destruct (position p l) as [j|]; [|done]. intros [= <-]. specialize (IH j eq_refl). lia.
Qed.

Lemma filter_length_le (P : A -> Prop) `{!forall x, Decision (P x)} l :
  length (filter P l) <= length l.
Proof. induction l as [|x l IH]; simpl; [done|]. rewrite filter_cons. case_decide; simpl; lia. Qed.

End ListFunctions.

Lemma existsb_elem_of {A : Type} (p : A -> bool) (l : list A) :
  existsb p l = true <-> exists x, x ∈ l /\ p x = true.
Proof.
  rewrite existsb_exists. split; intros (x & Hx & Hp); exists x; split; [|done| |done];
  by apply list_elem_of_In.
Qed.

Lemma find_elem_of {A : Type} (p : A -> bool) (l : list A) (x : A) :
  List.find p l = Some x -> x ∈ l /\ p x = true.
Proof. intros H%find_some. destruct H. split; [by apply list_elem_of_In|done]. Qed.

Lemma find_is_some {A : Type} (p : A -> bool) (l : list A) (x : A) :
  x ∈ l -> p x = true -> is_Some (List.find p l).
Proof.
  intros Hx Hp. destruct (List.find p l) eqn:E; [eauto|].
  apply list_elem_of_In in Hx. pose proof (find_none _ _ E x Hx). congruence.
Qed.

Lemma filter_length_lt {A : Type} (P Q : A -> Prop) `{!forall x, Decision (P x)}
  `{!forall x, Decision (Q x)} (l : list A) (x : A) :
  (forall y, Q y -> P y) -> x ∈ l -> P x -> ~ Q x ->
  length (filter Q l) < length (filter P l).
Proof.
  intros HQP Hx HP HQ.
  assert (forall k, length (filter Q k) <= length (filter P k)) as Hle.
  { induction k as [|y k IH]; [done|]. rewrite !filter_cons.
    repeat case_decide; simpl; try lia. exfalso; auto. }
  induction l as [|y l IH]; [by apply not_elem_of_nil in Hx|].
  rewrite !filter_cons. apply elem_of_cons in Hx as [<-|Hx].
  - repeat case_decide; try done. simpl. specialize (Hle l). lia.
  - specialize (IH Hx). repeat case_decide; simpl; try lia. exfalso; auto.
Qed.

Lemma drop_S_lookup {A : Type} (l : list A) i x : l !! i = Some x -> drop i l = x :: drop (S i) l.
Proof. revert i. induction l as [|y l IH]; intros [|i]; simpl; try done; [by intros [= ->]|apply IH]. Qed.

Lemma drop_tl {A : Type} (l : list A) i : tl (drop i l) = drop (S i) l.
Proof. revert i. induction l as [|y l IH]; intros [|i]; simpl; done || apply IH. Qed.

Lemma exists_elem_nil {A : Type} (P : A -> Prop) : (exists q, q ∈ [] /\ P q) <-> False.
Proof. split; [intros (q & Hq & _); by apply not_elem_of_nil in Hq|done]. Qed.

Lemma exists_elem_cons {A : Type} (x : A) (l : list A) (P : A -> Prop) :
  (exists q, q ∈ x :: l /\ P q) <-> P x \/ exists q, q ∈ l /\ P q.
Proof. setoid_rewrite elem_of_cons. naive_solver. Qed.

#[export] Hint Resolve take_while_forall drop_while_Forall : ghosty.

(** ** Seen sets

    A loop that keeps the keys it has seen in a set accepts a list exactly when its
    keys are distinct and none of them is in the initial set. *)
Section Fresh.
Context {A K : Type} `{Countable K} (key : A -> K).

Definition fresh (seen : gset K) (l : list A) : Prop :=
  NoDup (key <$> l) /\ forall x, x ∈ l -> key x ∉ seen.

Lemma fresh_nil seen : fresh seen [].
Proof. split; [constructor|]. intros x Hx. by apply not_elem_of_nil in Hx. Qed.

Lemma fresh_cons seen x l : fresh seen (x :: l) <-> (key x ∉ seen) /\ fresh ({[key x]} ∪ seen) l.
Proof.
  unfold fresh. rewrite fmap_cons, NoDup_cons, list_elem_of_fmap.
  setoid_rewrite elem_of_cons. split.
  - intros ((H1 & H2) & H3). split; [auto|]. split; [done|]. intros y Hy.
    specialize (H3 y (or_intror Hy)). intros [Hk%elem_of_singleton|?]%elem_of_union; [|done]. apply H1. eauto.
  - intros (H1 & H2 & H3). split; [split; [|done]|].
    + intros (y & Hy & Hin). apply (H3 y Hin). rewrite Hy. set_solver.
    + intros y [->|Hy]; [done|]. specialize (H3 y Hy). set_solver.
Qed.

Lemma fresh_empty l : fresh ∅ l <-> NoDup (key <$> l).
Proof. unfold fresh. set_solver. Qed.

End Fresh.

(** ** Stable sorting

    [slice::sort_by_key] is a stable sort. It is modelled by an insertion sort
    that puts an element in front of the elements it does not exceed. *)
Section StableSort.
Context {A : Type} (key : A -> nat).

Fixpoint insert_by_key (x : A) (l : list A) : list A :=
  match l with
  | [] => [x]
  | y :: l' => if key x <=? key y then x :: l else y :: insert_by_key x l'
  end.

Fixpoint sort_by_key (l : list A) : list A :=
  match l with
  | [] => []
  | x :: l' => insert_by_key x (sort_by_key l')
  end.

Definition key_le (x y : A) : Prop := key x <= key y.

Lemma insert_by_key_perm x l : insert_by_key x l ≡ₚ x :: l.
Proof.
  induction l as [|y l IH]; simpl; [done|]. destruct (key x <=? key y); [done|].
  rewrite IH. apply Permutation_swap.
Qed.

Lemma sort_by_key_perm l : sort_by_key l ≡ₚ l.
Proof. induction l as [|x l IH]; simpl; [done|]. by rewrite insert_by_key_perm, IH. Qed.

Lemma insert_by_key_sorted x l :
  StronglySorted key_le l -> StronglySorted key_le (insert_by_key x l).
Proof.
  induction 1 as [|y l Hl IH Hy]; simpl; [repeat constructor|].
  destruct (key x <=? key y) eqn:E.
  - apply Nat.leb_le in E. constructor; [by constructor|]. constructor; [done|].
    eapply Forall_impl; [exact Hy|]. unfold key_le. lia.
  - apply Nat.leb_gt in E. constructor; [done|].
    rewrite insert_by_key_perm. constructor; [unfold key_le; lia|done].
Qed.

Lemma sort_by_key_sorted l : StronglySorted key_le (sort_by_key l).
Proof. induction l as [|x l IH]; simpl; [constructor|]. by apply insert_by_key_sorted. Qed.

Lemma sort_by_key_id l : StronglySorted key_le l -> sort_by_key l = l.
Proof.
  induction 1 as [|x l Hl IH Hx]; simpl; [done|]. rewrite IH.
  destruct l as [|y l]; simpl; [done|]. inversion Hx as [|?? Hxy _]; subst.
  by rewrite (proj2 (Nat.leb_le _ _) Hxy).
Qed.

(** Stability: the elements with one key keep their order. *)
Lemma insert_by_key_filter x l k :
  filter (fun y => key y = k) (insert_by_key x l) = filter (fun y => key y = k) (x :: l).
Proof.
  induction l as [|y l IH]; [done|]. simpl insert_by_key.
  destruct (key x <=? key y) eqn:E; [done|]. apply Nat.leb_gt in E.
  rewrite filter_cons, IH, !filter_cons. repeat case_decide; try done. lia.
Qed.

Lemma sort_by_key_filter l k :
  filter (fun y => key y = k) (sort_by_key l) = filter (fun y => key y = k) l.
Proof.
  induction l as [|x l IH]; [done|]. simpl sort_by_key.
  rewrite insert_by_key_filter, !filter_cons. by rewrite IH.
Qed.

Lemma elem_of_sort_by_key x l : x ∈ sort_by_key l <-> x ∈ l.
Proof. by rewrite sort_by_key_perm. Qed.

(** A stable sort is determined by the elements of each key, in their order. *)
Lemma sorted_key_eq l1 l2 :
  StronglySorted key_le l1 -> StronglySorted key_le l2 ->
  (forall k, filter (fun y => key y = k) l1 = filter (fun y => key y = k) l2) -> l1 = l2.
Proof.
  intros H1. revert l2. induction H1 as [|x l1 Hl1 IH Hx]; intros l2 H2 Hk.
  { destruct l2 as [|y l2]; [done|]. specialize (Hk (key y)).
    rewrite filter_nil, filter_cons_True in Hk by done. done. }
  assert (forall a l b k, filter (fun y => key y = key a) (a :: l) =
    filter (fun y => key y = key a) (b :: k) -> Forall (key_le b) k -> key b <= key a) as Hle.
  { intros a l b k E Hb. rewrite filter_cons_True in E by done.
    assert (a ∈ filter (fun y => key y = key a) (b :: k)) as Hin by (rewrite <-E; left).
    apply list_elem_of_filter in Hin as [_ [->|Hin]%elem_of_cons]; [done|].
    rewrite Forall_forall in Hb. by apply Hb. }
  destruct H2 as [|y l2 Hl2 Hy].
  { specialize (Hk (key x)). rewrite filter_nil, filter_cons_True in Hk by done. done. }
  assert (key x = key y) as E.
  { pose proof (Hle _ _ _ _ (Hk (key x)) Hy). pose proof (Hle _ _ _ _ (eq_sym (Hk (key y))) Hx). lia. }
  assert (x = y) as ->.
  { specialize (Hk (key x)). rewrite !filter_cons_True in Hk by done. congruence. }
  f_equal. apply IH; [done|]. intros k. specialize (Hk k). rewrite !filter_cons in Hk.
  case_decide; [by injection Hk|done].
Qed.

End StableSort.

(** Elements are told apart by a key without duplicates. *)

Lemma NoDup_omap_inj {A B} (f : A -> option B) l x y e :
  NoDup (omap f l) -> x ∈ l -> y ∈ l -> f x = Some e -> f y = Some e -> x = y.
Proof.
  induction l as [|a l IH]; [by intros _ ?%not_elem_of_nil|]. cbn [omap list_omap]. intros Hnd Hx Hy Ex Ey.
  apply elem_of_cons in Hx as [->|Hx], Hy as [->|Hy]; [done|..].
  - rewrite Ex in Hnd. apply NoDup_cons in Hnd as [Hnd _]. destruct Hnd. apply list_elem_of_omap. eauto.
  - rewrite Ey in Hnd. apply NoDup_cons in Hnd as [Hnd _]. destruct Hnd. apply list_elem_of_omap. eauto.
  - destruct (f a); [apply NoDup_cons in Hnd as [_ Hnd]|]; by apply IH.
Qed.

Lemma NoDup_fmap_elem {A B} (f : A -> B) l x y : NoDup (f <$> l) -> x ∈ l -> y ∈ l -> f x = f y -> x = y.
Proof.
  intros Hnd Hx Hy E. eapply (NoDup_omap_inj (fun a => Some (f a)) l x y (f y)); [|done|done|by rewrite E|done].
  replace (omap (fun a => Some (f a)) l) with (f <$> l); [done|]. clear. induction l as [|a l IH]; [done|]. cbn. by rewrite <-IH.
Qed.

#[export] Hint Resolve sort_by_key_sorted insert_by_key_sorted : ghosty.
