(* ===== verification/RustStr.v ===== *)
(** * Rust strings

    The sources handle Rust's [str]/[String]. A Rust string is modelled by the
    list of its Unicode scalar values ([chars()]), so that the Unicode-aware
    operations ([trim], [split_whitespace], [char::is_whitespace]) and the
    byte-level ones ([len]) are both definable. This file holds the part of the
    Rust standard library the modelled code uses, and the lemmas about it. *)

From stdpp Require Import base list option gmap strings pretty.
From Stdlib Require Import Lia NArith Ascii.
From S2P Require Import Prelude.

(** A Rust [char] and a Rust [str]. *)
Abbreviation rchar := N (only parsing).
Abbreviation rstr := (list N) (only parsing).

(** ASCII literals. *)
Fixpoint lit (s : string) : list N :=
  match s with
  | EmptyString => []
  | String c s' => N_of_ascii c :: lit s'
  end.
Arguments lit s%_string.

Abbreviation c_tab := 9%N.
Abbreviation c_nl := 10%N.
Abbreviation c_cr := 13%N.
Abbreviation c_space := 32%N.
Abbreviation c_dquote := 34%N.
Abbreviation c_dollar := 36%N.
Abbreviation c_amp := 38%N.
Abbreviation c_squote := 39%N.
Abbreviation c_lparen := 40%N.
Abbreviation c_rparen := 41%N.
Abbreviation c_dash := 45%N.
Abbreviation c_dot := 46%N.
Abbreviation c_slash := 47%N.
Abbreviation c_colon := 58%N.
Abbreviation c_semi := 59%N.
Abbreviation c_lt := 60%N.
Abbreviation c_eq := 61%N.
Abbreviation c_gt := 62%N.
Abbreviation c_backslash := 92%N.
Abbreviation c_underscore := 95%N.
Abbreviation c_backtick := 96%N.
Abbreviation c_lbrace := 123%N.
Abbreviation c_pipe := 124%N.
Abbreviation c_rbrace := 125%N.
Abbreviation c_tilde := 126%N.

(** ** Character classes *)

Definition between (lo hi c : N) : bool := (lo <=? c)%N && (c <=? hi)%N.

(** [char::is_whitespace]: the Unicode [White_Space] property. *)
Definition is_whitespace (c : N) : bool :=
  between 9 13 c || (c =? 32)%N || (c =? 133)%N || (c =? 160)%N || (c =? 5760)%N
  || between 8192 8202 c || (c =? 8232)%N || (c =? 8233)%N || (c =? 8239)%N
  || (c =? 8287)%N || (c =? 12288)%N.

(** [char::is_control]: general category [Cc]. *)
Definition is_control (c : N) : bool := (c <=? 31)%N || between 127 159 c.

Definition is_ascii_digit (c : N) : bool := between 48 57 c.
Definition is_ascii_uppercase (c : N) : bool := between 65 90 c.
Definition is_ascii_alphabetic (c : N) : bool := is_ascii_uppercase c || between 97 122 c.
Definition is_ascii_alphanumeric (c : N) : bool := is_ascii_alphabetic c || is_ascii_digit c.

Definition char_to_ascii_lowercase (c : N) : N :=
  if is_ascii_uppercase c then (c + 32)%N else c.

(** [char::len_utf8]. *)
Definition len_utf8 (c : N) : nat :=
  if (c <=? 127)%N then 1 else if (c <=? 2047)%N then 2 else if (c <=? 65535)%N then 3 else 4.

(** ** String operations *)

(** [str::len], in bytes. *)
Fixpoint str_len (s : list N) : nat :=
  match s with
  | [] => 0
  | c :: s' => len_utf8 c + str_len s'
  end.

Definition str_is_empty (s : list N) : bool :=
  match s with [] => true | _ => false end.

Definition str_eqb (a b : list N) : bool := bool_decide (a = b).

Definition to_ascii_lowercase (s : list N) : list N := char_to_ascii_lowercase <$> s.

Definition eq_ignore_ascii_case (a b : list N) : bool :=
  str_eqb (to_ascii_lowercase a) (to_ascii_lowercase b).

Definition trim_start_matches (p : N -> bool) (s : list N) : list N := drop_while p s.
Definition trim_end_matches (p : N -> bool) (s : list N) : list N :=
  reverse (drop_while p (reverse s)).
Definition trim (s : list N) : list N :=
  trim_end_matches is_whitespace (trim_start_matches is_whitespace s).

(** [str::split_whitespace]. *)
Fixpoint split_whitespace (s : list N) : list (list N) :=
  match s with
  | [] => []
  | c :: s' =>
      if is_whitespace c then split_whitespace s'
      else match s' with
           | [] => [[c]]
           | d :: _ =>
               if is_whitespace d then [c] :: split_whitespace s'
               else match split_whitespace s' with
                    | [] => [[c]]
                    | w :: ws => (c :: w) :: ws
                    end
           end
  end.

(** [slice::join]. *)
Fixpoint str_join (sep : list N) (l : list (list N)) : list N :=
  match l with
  | [] => []
  | [w] => w
  | w :: l' => w ++ sep ++ str_join sep l'
  end.

Fixpoint strip_prefix (p s : list N) : option (list N) :=
  match p, s with
  | [], _ => Some s
  | a :: p', b :: s' => if (a =? b)%N then strip_prefix p' s' else None
  | _ :: _, [] => None
  end.

Definition starts_with (p s : list N) : bool :=
  match strip_prefix p s with Some _ => true | None => false end.

Definition ends_with (p s : list N) : bool := starts_with (reverse p) (reverse s).

Definition starts_with_char (c : N) (s : list N) : bool :=
  match s with d :: _ => (d =? c)%N | [] => false end.

Definition contains_char (c : N) (s : list N) : bool := existsb (N.eqb c) s.

(** [str::contains] with a string pattern. *)
Fixpoint str_contains (pat s : list N) : bool :=
  starts_with pat s ||
  match s with
  | [] => false
  | _ :: s' => str_contains pat s'
  end.

(** [str::split_once] with a character pattern. *)
Fixpoint split_once (c : N) (s : list N) : option (list N * list N) :=
  match s with
  | [] => None
  | d :: s' =>
      if (d =? c)%N then Some ([], s')
      else match split_once c s' with
           | Some (a, b) => Some (d :: a, b)
           | None => None
           end
  end.

(** [str::split] with a character pattern: never empty. *)
Fixpoint split_char (c : N) (s : list N) : list (list N) :=
  match s with
  | [] => [[]]
  | d :: s' =>
      if (d =? c)%N then [] :: split_char c s'
      else match split_char c s' with
           | [] => [[d]]
           | w :: ws => (d :: w) :: ws
           end
  end.

(** [str::split] with a character class. *)
Fixpoint split_matches (p : N -> bool) (s : list N) : list (list N) :=
  match s with
  | [] => [[]]
  | d :: s' =>
      if p d then [] :: split_matches p s'
      else match split_matches p s' with
           | w :: ws => (d :: w) :: ws
           | [] => [[d]]
           end
  end.

(** [str::trim_matches] with a character class. *)
Definition trim_matches (p : N -> bool) (s : list N) : list N :=
  trim_end_matches p (trim_start_matches p s).

(** [rsplit(seps).next()]: the text after the last separator. *)
Definition rsplit_next (sep : N -> bool) (s : list N) : list N :=
  reverse (take_while (fun c => negb (sep c)) (reverse s)).

(** [str::replace] with a character-class pattern. *)
Definition replace_chars (p : N -> bool) (to : list N) (s : list N) : list N :=
  s ≫= (fun c => if p c then to else [c]).

(** [str::replace] with a non-empty string pattern: matches are found from the
    left and do not overlap; [skip] counts the characters of the current match
    that are still to be dropped. *)
Fixpoint replace_from (pat to s : list N) (skip : nat) : list N :=
  match s with
  | [] => []
  | c :: s' =>
      match skip with
      | S k => replace_from pat to s' k
      | O =>
          if starts_with pat s then to ++ replace_from pat to s' (length pat - 1)
          else c :: replace_from pat to s' 0
      end
  end.
Definition str_replace (pat to s : list N) : list N := replace_from pat to s 0.

(** One trailing carriage return removed, as [str::lines] does for a line that
    a newline ended. *)
Definition strip_suffix_cr (l : list N) : list N :=
  match reverse l with
  | c :: r => if (c =? c_cr)%N then reverse r else l
  | [] => l
  end.

Fixpoint lines_of_parts (parts : list (list N)) : list (list N) :=
  match parts with
  | [] => []
  | [last] => if str_is_empty last then [] else [last]
  | l :: rest => strip_suffix_cr l :: lines_of_parts rest
  end.

(** [str::lines]. *)
Definition str_lines (s : list N) : list (list N) := lines_of_parts (split_char c_nl s).

(** [str::split_once] with a string pattern. *)
Fixpoint split_once_str (pat s : list N) : option (list N * list N) :=
  match strip_prefix pat s with
  | Some rest => Some ([], rest)
  | None =>
      match s with
      | [] => None
      | d :: s' =>
          match split_once_str pat s' with
          | Some (a, b) => Some (d :: a, b)
          | None => None
          end
      end
  end.

(** [str::strip_suffix] with a character pattern. *)
Definition strip_suffix_char (c : N) (s : list N) : option (list N) :=
  match reverse s with
  | d :: r => if (d =? c)%N then Some (reverse r) else None
  | [] => None
  end.

(** The decimal [Display] of an unsigned integer. *)
Definition dec (n : N) : list N := lit (pretty n).

(** ** Words

    A word is a non-empty run of characters without whitespace: what
    [split_whitespace] yields. *)
Definition is_word (w : list N) : Prop := w <> [] /\ Forall (fun c => is_whitespace c = false) w.

#[export] Instance is_word_dec w : Decision (is_word w).
Proof. unfold is_word. apply _. Defined.

Lemma split_whitespace_cons_ws c s :
  is_whitespace c = true -> split_whitespace (c :: s) = split_whitespace s.
Proof. intros H. simpl. by rewrite H. Qed.

Lemma split_whitespace_single c s :
  is_whitespace c = false ->
  (s = [] \/ exists d s', s = d :: s' /\ is_whitespace d = true) ->
  split_whitespace (c :: s) = [c] :: split_whitespace s.
Proof.
  intros H [->|(d & s' & -> & Hd)]; simpl; rewrite H; [done|]. by rewrite Hd.
Qed.

Lemma split_whitespace_nonempty c s :
  is_whitespace c = false -> exists w ws, split_whitespace (c :: s) = (c :: w) :: ws.
Proof.
  revert c. induction s as [|d s IH]; intros c Hc; simpl; rewrite Hc; [eauto|].
  destruct (is_whitespace d) eqn:Hd; [eauto|]. destruct (IH d Hd) as (w & ws & E).
  simpl in E. rewrite Hd in E. rewrite E. eauto.
Qed.

Lemma split_whitespace_glue c d s :
  is_whitespace c = false -> is_whitespace d = false ->
  exists w ws, split_whitespace (d :: s) = w :: ws
    /\ split_whitespace (c :: d :: s) = (c :: w) :: ws.
Proof.
  intros Hc Hd. destruct (split_whitespace_nonempty d s Hd) as (w & ws & E).
  exists (d :: w), ws. split; [done|]. cbn [split_whitespace]. rewrite Hc, Hd.
  cbn [split_whitespace] in E. rewrite Hd in E. by rewrite E.
Qed.

Lemma split_whitespace_app_ws a c b :
  is_whitespace c = true ->
  split_whitespace (a ++ c :: b) = split_whitespace a ++ split_whitespace b.
Proof.
  intros Hc. induction a as [|x a IH]; [by apply split_whitespace_cons_ws|].
  change ((x :: a) ++ c :: b) with (x :: (a ++ c :: b)).
  destruct (is_whitespace x) eqn:Hx; [by rewrite !split_whitespace_cons_ws|].
  destruct a as [|y a].
  - rewrite (split_whitespace_single x []) by eauto.
    change ([] ++ c :: b) with (c :: b). rewrite split_whitespace_single by eauto.
    by rewrite split_whitespace_cons_ws.
  - change ((y :: a) ++ c :: b) with (y :: (a ++ c :: b)) in *.
    destruct (is_whitespace y) eqn:Hy.
    + rewrite (split_whitespace_single x (y :: a)), (split_whitespace_single x (y :: _)) by eauto.
      by rewrite IH.
    + destruct (split_whitespace_glue x y a Hx Hy) as (w & ws & E1 & E2).
      destruct (split_whitespace_glue x y (a ++ c :: b) Hx Hy) as (w' & ws' & E1' & E2').
      rewrite E2, E2'. rewrite IH, E1 in E1'. injection E1' as <- <-. done.
Qed.

Lemma split_whitespace_word w : is_word w -> split_whitespace w = [w].
Proof.
  intros [Hne Hw]. induction Hw as [|c w Hc Hw IH]; [done|].
  destruct w as [|d w]; [by apply split_whitespace_single; eauto|].
  inversion Hw as [|?? Hd _]; subst.
  destruct (split_whitespace_glue c d w Hc Hd) as (v & vs & E1 & E2).
  rewrite IH in E1 by done. injection E1 as <- <-. done.
Qed.

Lemma split_whitespace_is_word s : Forall is_word (split_whitespace s).
Proof.
  induction s as [|c s IH]; [constructor|].
  destruct (is_whitespace c) eqn:Hc; [by rewrite split_whitespace_cons_ws|].
  assert (Hc1 : is_word [c]) by (split; [done|repeat constructor; done]).
  destruct s as [|d s]; [rewrite split_whitespace_single by eauto; by constructor|].
  destruct (is_whitespace d) eqn:Hd.
  - rewrite split_whitespace_single by eauto. by constructor.
  - destruct (split_whitespace_glue c d s Hc Hd) as (w & ws & E1 & E2).
    rewrite E1 in IH. rewrite E2. inversion IH as [|?? [Hne Hw] Hws]; subst.
    constructor; [|done]. split; [done|by constructor].
Qed.

Lemma str_join_cons sep w v l : str_join sep (w :: v :: l) = w ++ sep ++ str_join sep (v :: l).
Proof. done. Qed.

Lemma split_whitespace_join l :
  Forall is_word l -> split_whitespace (str_join [c_space] l) = l.
Proof.
  induction 1 as [|w l Hw Hl IH]; [done|]. destruct l as [|v l]; [by apply split_whitespace_word|].
  rewrite str_join_cons. change (w ++ [c_space] ++ ?x) with (w ++ c_space :: x).
  rewrite split_whitespace_app_ws by done. by rewrite split_whitespace_word, IH.
Qed.

Lemma str_join_app sep l k :
  l <> [] -> k <> [] -> str_join sep (l ++ k) = str_join sep l ++ sep ++ str_join sep k.
Proof.
  intros Hl Hk. induction l as [|w l IH]; [done|]. destruct l as [|v l].
  - simpl. by destruct k.
  - change ((w :: v :: l) ++ k) with (w :: (v :: l) ++ k).
    change ((v :: l) ++ k) with (v :: (l ++ k)) in *.
    rewrite !str_join_cons, IH by done. by rewrite <-!(assoc_L (++)).
Qed.

Lemma is_whitespace_lower c : is_whitespace (char_to_ascii_lowercase c) = is_whitespace c.
Proof.
  unfold char_to_ascii_lowercase. destruct (is_ascii_uppercase c) eqn:E; [|done].
  unfold is_ascii_uppercase, between in E. apply andb_true_iff in E as [E1 E2].
  apply N.leb_le in E1, E2. unfold is_whitespace, between.
  repeat match goal with
  | |- context [(?a <=? ?b)%N] => destruct (N.leb_spec a b); try lia
  | |- context [(?a =? ?b)%N] => destruct (N.eqb_spec a b); try lia
  end; done.
Qed.

Lemma is_word_lower w : is_word w -> is_word (to_ascii_lowercase w).
Proof.
  intros [Hne Hw]. split; [by destruct w|]. unfold to_ascii_lowercase.
  apply Forall_fmap. eapply Forall_impl; [exact Hw|]. intros c Hc. simpl.
  by rewrite is_whitespace_lower.
Qed.

Lemma split_whitespace_lower s :
  split_whitespace (to_ascii_lowercase s) = to_ascii_lowercase <$> split_whitespace s.
Proof.
  unfold to_ascii_lowercase. induction s as [|c s IH]; [done|].
  rewrite fmap_cons. destruct (is_whitespace c) eqn:Hc.
  { rewrite !split_whitespace_cons_ws; [done|done|by rewrite is_whitespace_lower]. }
  destruct s as [|d s].
  { rewrite (split_whitespace_single c []), split_whitespace_single; eauto.
    by rewrite is_whitespace_lower. }
  destruct (is_whitespace d) eqn:Hd.
  - rewrite (split_whitespace_single c (d :: s)), split_whitespace_single.
    + rewrite IH. done.
    + by rewrite is_whitespace_lower.
    + right. eexists _, _. rewrite fmap_cons. split; [done|]. by rewrite is_whitespace_lower.
    + done.
    + eauto.
  - destruct (split_whitespace_glue c d s Hc Hd) as (w & ws & E1 & E2).
    rewrite fmap_cons in *.
    destruct (split_whitespace_glue (char_to_ascii_lowercase c) (char_to_ascii_lowercase d)
      (char_to_ascii_lowercase <$> s)) as (w' & ws' & E1' & E2');
      [by rewrite is_whitespace_lower..|].
    rewrite E2, E2'. rewrite IH, E1 in E1'. injection E1' as <- <-. done.
Qed.

(** ** Trimming *)

Lemma trim_end_matches_idemp p s :
  trim_end_matches p (trim_end_matches p s) = trim_end_matches p s.
Proof. unfold trim_end_matches. by rewrite reverse_involutive, drop_while_idemp. Qed.

Lemma trim_end_matches_prefix p s : exists k, s = trim_end_matches p s ++ k
  /\ Forall (fun c => p c = true) k.
Proof.
  exists (reverse (take_while p (reverse s))). split.
  - unfold trim_end_matches. rewrite <-reverse_app, take_drop_while. by rewrite reverse_involutive.
  - apply Forall_reverse, take_while_forall.
Qed.

Lemma split_whitespace_all_ws s :
  Forall (fun c => is_whitespace c = true) s -> split_whitespace s = [].
Proof. induction 1; [done|]. by rewrite split_whitespace_cons_ws. Qed.

Lemma split_whitespace_drop_ws s :
  split_whitespace (drop_while is_whitespace s) = split_whitespace s.
Proof.
  induction s as [|c s IH]; [done|]. cbn [drop_while]. destruct (is_whitespace c) eqn:E; [|done].
  by rewrite split_whitespace_cons_ws.
Qed.

Lemma split_whitespace_app_all_ws s k :
  Forall (fun c => is_whitespace c = true) k -> split_whitespace (s ++ k) = split_whitespace s.
Proof.
  destruct 1 as [|c k Hc Hk]; [by rewrite app_nil_r|].
  rewrite split_whitespace_app_ws by done. rewrite (split_whitespace_all_ws k) by done.
  by rewrite app_nil_r.
Qed.

Lemma split_whitespace_trim s : split_whitespace (trim s) = split_whitespace s.
Proof.
  rewrite <-(split_whitespace_drop_ws s). unfold trim, trim_start_matches.
  generalize (drop_while is_whitespace s). intros d.
  destruct (trim_end_matches_prefix is_whitespace d) as (k & E & Hk).
  rewrite E at 2. by rewrite split_whitespace_app_all_ws.
Qed.

Lemma drop_while_app_keep {A} (p : A -> bool) (l k : list A) x :
  x ∈ l -> p x = false -> drop_while p (l ++ k) = drop_while p l ++ k.
Proof.
  intros Hx Hp. induction l as [|y l IH]; [by apply not_elem_of_nil in Hx|]. simpl.
  destruct (p y) eqn:E; [|done]. apply IH. apply elem_of_cons in Hx as [->|]; [congruence|done].
Qed.

Lemma trim_id s :
  (forall c s', s = c :: s' -> is_whitespace c = false) ->
  (forall c s', s = s' ++ [c] -> is_whitespace c = false) -> trim s = s.
Proof.
  intros H1 H2. unfold trim, trim_start_matches, trim_end_matches.
  assert (drop_while is_whitespace s = s) as ->.
  { destruct s as [|c s]; [done|]. simpl. by rewrite (H1 c s eq_refl). }
  destruct s as [|c s _] using rev_ind; [done|]. rewrite reverse_snoc. simpl.
  rewrite (H2 c s eq_refl). rewrite <-reverse_snoc. by rewrite reverse_involutive.
Qed.

Lemma str_join_words_trim l : Forall is_word l -> trim (str_join [c_space] l) = str_join [c_space] l.
Proof.
  intros Hl. apply trim_id.
  - destruct Hl as [|w l [Hne Hw] Hl]; [done|]. intros c s' E.
    assert (exists w', w = c :: w') as [w' ->].
    { destruct l; simpl in E; [by rewrite E; eauto|]. destruct w; [done|].
      injection E as -> _. eauto. }
    by inversion Hw.
  - intros c s'. destruct l as [|w l _] using rev_ind; [by destruct s'|].
    apply Forall_app in Hl as [_ Hw]. inversion Hw as [|?? [Hne Hc] _]; subst.
    destruct w as [|d w _] using rev_ind; [done|]. apply Forall_app in Hc as [_ Hd].
    inversion Hd as [|?? Hd' _]; subst. intros E.
    assert (exists x, str_join [c_space] (l ++ [w ++ [d]]) = x ++ [d]) as [x Ex].
    { destruct l as [|v l]; [by exists w|]. rewrite str_join_app by done.
      exists (str_join [c_space] (v :: l) ++ [c_space] ++ w). simpl. by rewrite <-!(assoc_L (++)). }
    rewrite Ex in E. apply app_inj_2 in E as [_ [= ->]]; done.
Qed.

(** ** Prefixes *)

Lemma strip_prefix_spec p s r : strip_prefix p s = Some r <-> s = p ++ r.
Proof.
  revert s. induction p as [|a p IH]; intros s; simpl; [split; [by intros [= ->]|by intros ->]|].
  destruct s as [|b s]; [done|]. destruct (N.eqb_spec a b) as [->|Hne].
  - rewrite IH. split; [by intros ->|by intros [= ->]].
  - split; [done|]. intros [= E _]. by destruct Hne.
Qed.

Lemma starts_with_spec p s : starts_with p s = true <-> exists r, s = p ++ r.
Proof.
  unfold starts_with. destruct (strip_prefix p s) eqn:E.
  - apply strip_prefix_spec in E. split; eauto.
  - split; [done|]. intros [r Hr%strip_prefix_spec]. congruence.
Qed.

Lemma str_eqb_spec a b : str_eqb a b = true <-> a = b.
Proof. apply bool_decide_eq_true. Qed.

Lemma contains_char_spec c s : contains_char c s = true <-> c ∈ s.
Proof. unfold contains_char. rewrite existsb_elem_of. setoid_rewrite N.eqb_eq. naive_solver. Qed.

Lemma lower_preserves c d :
  is_ascii_alphabetic d = false -> char_to_ascii_lowercase c = d -> c = d.
Proof.
  unfold char_to_ascii_lowercase. intros Hd. destruct (is_ascii_uppercase c) eqn:E; [|done].
  intros <-. exfalso. revert Hd. unfold is_ascii_alphabetic, is_ascii_uppercase, between in *.
  apply andb_true_iff in E as [E1%N.leb_le E2%N.leb_le].
  destruct (N.leb_spec 97 (c + 32)), (N.leb_spec (c + 32) 122); lia.
Qed.

Lemma elem_of_lower d s :
  is_ascii_alphabetic d = false -> d ∈ to_ascii_lowercase s -> d ∈ s.
Proof.
  intros Hd (c & -> & Hc)%list_elem_of_fmap.
  by rewrite <-(lower_preserves c _ Hd eq_refl).
Qed.

Lemma split_once_none c s : c ∉ s -> split_once c s = None.
Proof.
  induction s as [|d s IH]; [done|]. intros H. cbn [split_once].
  destruct (N.eqb_spec d c) as [->|]; [set_solver|]. rewrite IH; [done|set_solver].
Qed.

Lemma split_once_some c s a b : split_once c s = Some (a, b) <-> s = a ++ c :: b /\ c ∉ a.
Proof.
  revert a b. induction s as [|d s IH]; intros a b; cbn [split_once].
  { split; [done|]. intros [E _]. by destruct a. }
  destruct (N.eqb_spec d c) as [->|Hd].
  - split.
    + intros [= <- <-]. split; [done|apply not_elem_of_nil].
    + intros [E Ha]. destruct a as [|x a]; [by injection E as ->|]. injection E as <- _. set_solver.
  - destruct (split_once c s) as [[a' b']|] eqn:E.
    + split.
      * intros [= <- <-]. destruct (proj1 (IH a' b') eq_refl) as [-> Ha]. set_solver.
      * intros [E' Ha]. destruct a as [|x a]; [by injection E' as -> _|]. injection E' as -> ->.
        assert (Some (a', b') = Some (a, b)) as H by (apply IH; set_solver). by injection H as -> ->.
    + split; [done|]. intros [E' Ha]. destruct a as [|x a]; [by injection E' as -> _|].
      injection E' as -> ->. assert (None = Some (a, b)); [apply IH; set_solver|done].
Qed.

Lemma trim_padded w pre post :
  is_word w -> Forall (fun c => is_whitespace c = true) pre ->
  Forall (fun c => is_whitespace c = true) post -> trim (pre ++ w ++ post) = w.
Proof.
  intros [Hne Hw] Hpre Hpost. unfold trim, trim_start_matches, trim_end_matches.
  rewrite drop_while_app_all by done.
  assert (drop_while is_whitespace (w ++ post) = w ++ post) as ->.
  { destruct Hw as [|c w Hc _]; [done|]. simpl. by rewrite Hc. }
  rewrite reverse_app, drop_while_app_all by (by apply Forall_reverse).
  rewrite drop_while_none by (by apply Forall_reverse). apply reverse_involutive.
Qed.

Lemma split_once_str_some pat s a b : split_once_str pat s = Some (a, b) -> s = a ++ pat ++ b.
Proof.
  revert a. induction s as [|d s IH]; intros a; cbn [split_once_str];
    (destruct (strip_prefix pat _) as [rest|] eqn:E;
      [intros [= <- <-]; by apply strip_prefix_spec in E|]); [done|].
  destruct (split_once_str pat s) as [[a' b']|]; [|done]. intros [= <- <-].
  by rewrite (IH a' eq_refl).
Qed.

(** The first occurrence of a pattern whose first character is not in [a]. *)
Lemma split_once_str_first c pat a b :
  c ∉ a -> split_once_str (c :: pat) (a ++ c :: pat ++ b) = Some (a, b).
Proof.
  intros Ha. induction a as [|d a IH].
  - cbn [app]. assert (strip_prefix (c :: pat) (c :: pat ++ b) = Some b) as E
      by by apply strip_prefix_spec.
    destruct pat; cbn [split_once_str]; by rewrite E.
  - assert (d <> c /\ c ∉ a) as [Hd Ha'] by set_solver.
    cbn [app split_once_str strip_prefix]. destruct (N.eqb_spec c d) as [->|]; [done|].
    by rewrite (IH Ha').
Qed.

(** The first occurrence of a pattern whose last character is in neither [a] nor the
    rest of the pattern. *)
Lemma split_once_str_last c pat a b :
  c ∉ a -> c ∉ pat -> split_once_str (pat ++ [c]) (a ++ pat ++ c :: b) = Some (a, b).
Proof.
  intros Ha Hp. induction a as [|d a IH].
  - cbn [app]. assert (strip_prefix (pat ++ [c]) (pat ++ c :: b) = Some b) as E
      by (apply strip_prefix_spec; by rewrite <-(assoc_L (++))).
    destruct (pat ++ c :: b) eqn:Ep; [by apply app_nil in Ep as [_ ?]|]. cbn [split_once_str]. by rewrite E.
  - assert (c ∉ a) as Ha' by set_solver. cbn [app split_once_str].
    destruct (strip_prefix (pat ++ [c]) (d :: a ++ pat ++ c :: b)) as [r|] eqn:E; [exfalso|by rewrite (IH Ha')].
    apply strip_prefix_spec in E. rewrite <-(assoc_L (++)) in E. cbn [app] in E.
    assert (split_once c (d :: a ++ pat ++ c :: b) = Some (d :: a ++ pat, b)) as E1
      by (apply split_once_some; split; [cbn [app]; by rewrite <-(assoc_L (++))|set_solver]).
    assert (split_once c (pat ++ c :: r) = Some (pat, r)) as E2 by by apply split_once_some.
    rewrite <-E, E1 in E2. injection E2 as Hl _. apply (f_equal length) in Hl. cbn [length] in Hl.
    rewrite length_app in Hl. lia.
Qed.

(** The order of strings: by their scalar values, which is the order of their bytes. *)
Fixpoint str_leb (a b : list N) : bool :=
  match a, b with
  | [], _ => true
  | _ :: _, [] => false
  | x :: a', y :: b' => (x <? y)%N || ((x =? y)%N && str_leb a' b')
  end.

Definition str_le (a b : list N) : Prop := str_leb a b = true.

#[export] Instance str_le_dec : RelDecision str_le.
Proof. intros a b. unfold str_le. apply _. Defined.

Lemma str_le_cons x y a b : str_le (x :: a) (y :: b) <-> (x < y)%N \/ (x = y /\ str_le a b).
Proof. unfold str_le. cbn [str_leb]. by rewrite orb_true_iff, andb_true_iff, N.ltb_lt, N.eqb_eq. Qed.

#[export] Instance str_le_total : Total str_le.
Proof.
  intros a. induction a as [|x a IH]; intros [|y b]; [by left..|by right|]. rewrite !str_le_cons.
  destruct (N.lt_trichotomy x y) as [?|[->|?]]; [by left; left| |by right; left]. destruct (IH b); auto.
Qed.

#[export] Instance str_le_trans : Transitive str_le.
Proof.
  intros a. induction a as [|x a IH]; intros [|y b] [|z c]; [done..|]. rewrite !str_le_cons.
  intros [?|[-> ?]] [?|[-> ?]]; [left; lia|by left|by left|right; eauto].
Qed.

#[export] Instance str_le_antisymm : AntiSymm (=) str_le.
Proof.
  intros a. induction a as [|x a IH]; intros [|y b]; [done..|]. rewrite !str_le_cons.
  intros [?|[-> ?]] [?|[? ?]]; [lia..|]. f_equal; eauto.
Qed.

Lemma pretty_go_digits x s :
  Forall (fun c => is_ascii_digit c = true) (lit s) -> Forall (fun c => is_ascii_digit c = true) (lit (pretty_N_go x s)).
Proof.
  revert s. induction (N.lt_wf_0 x) as [x _ IH]; intros s Hs.
  assert (x = 0 \/ 0 < x)%N as [->|Hx] by lia; [by rewrite pretty_N_go_0|].
  rewrite pretty_N_go_step by done. apply IH; [by apply N.div_lt|]. cbn [lit]. constructor; [|done].
  unfold pretty_N_char. by repeat case_match.
Qed.

Lemma dec_digits n : Forall (fun c => is_ascii_digit c = true) (dec n).
Proof.
  unfold dec, pretty, pretty_N. destruct (decide (n = 0)%N); [by repeat constructor|].
  apply pretty_go_digits. constructor.
Qed.

Lemma lit_nil s : lit s = [] -> s = EmptyString.
Proof. by destruct s. Qed.

Lemma pretty_go_nonempty x s : lit s <> [] -> lit (pretty_N_go x s) <> [].
Proof.
  revert s. induction (N.lt_wf_0 x) as [x _ IH]; intros s Hs.
  assert (x = 0 \/ 0 < x)%N as [->|Hx] by lia; [by rewrite pretty_N_go_0|].
  rewrite pretty_N_go_step by done. apply IH; [by apply N.div_lt|done].
Qed.

Lemma dec_nonempty n : dec n <> [].
Proof.
  unfold dec, pretty, pretty_N. destruct (decide (n = 0)%N) as [|Hn]; [done|].
  rewrite pretty_N_go_step by lia. by apply pretty_go_nonempty.
Qed.

Lemma strip_suffix_char_spec c s r : strip_suffix_char c s = Some r <-> s = r ++ [c].
Proof.
  unfold strip_suffix_char. destruct s as [|d s _] using rev_ind.
  { split; [done|]. intros E. by destruct r. }
  rewrite reverse_snoc, reverse_involutive. destruct (N.eqb_spec d c) as [->|Hd].
  - split; [by intros [= ->]|]. intros E. apply app_inj_2 in E as [-> _]; done.
  - split; [done|]. intros E. apply app_inj_2 in E as [_ E]; [|done]. by injection E.
Qed.

Lemma lowercase_idemp s : to_ascii_lowercase (to_ascii_lowercase s) = to_ascii_lowercase s.
Proof.
  unfold to_ascii_lowercase. rewrite <-list_fmap_compose. apply list_fmap_ext. intros _ c _.
  cbn. unfold char_to_ascii_lowercase. destruct (is_ascii_uppercase c) eqn:E; [|by rewrite E].
  destruct (is_ascii_uppercase (c + 32)) eqn:E2; [|done].
  unfold is_ascii_uppercase, between in *. breakup. rewrite !N.leb_le in *. lia.
Qed.

Lemma trim_end_matches_id p s :
  (forall c s', s = s' ++ [c] -> p c = false) -> trim_end_matches p s = s.
Proof.
  intros H. unfold trim_end_matches. destruct s as [|c s _] using rev_ind; [done|].
  rewrite reverse_snoc. cbn [drop_while]. rewrite (H c s eq_refl). by rewrite reverse_cons, reverse_involutive.
Qed.

Lemma trim_end_matches_last p s c s' : trim_end_matches p s = s' ++ [c] -> p c = false.
Proof.
  unfold trim_end_matches. intros E. destruct (drop_while p (reverse s)) as [|d l] eqn:Ed.
  - destruct s'; done.
  - rewrite reverse_cons in E. apply app_inj_2 in E as [_ [= ->]]; [|done].
    by eapply drop_while_head.
Qed.

Lemma trim_end_matches_Forall p (Q : N -> Prop) s : Forall Q s -> Forall Q (trim_end_matches p s).
Proof.
  intros H. unfold trim_end_matches. apply Forall_reverse, drop_while_Forall. by apply Forall_reverse.
Qed.

Lemma trim_no_ws s : Forall (fun c => is_whitespace c = false) s -> trim s = s.
Proof.
  intros H. apply trim_id; intros c s' ->; [by apply Forall_cons in H as []|].
  apply Forall_app in H as [_ H]. by apply Forall_cons in H as [].
Qed.

Lemma trim_idemp s : trim (trim s) = trim s.
Proof.
  apply trim_id; unfold trim.
  - intros c s' E. destruct (trim_end_matches_prefix is_whitespace (trim_start_matches is_whitespace s))
      as (k & Ek & _). rewrite E in Ek. by eapply drop_while_head.
  - intros c s'. apply trim_end_matches_last.
Qed.

(** ** Splitting at a character *)

Lemma split_char_no_sep c s : Forall (fun w => c ∉ w) (split_char c s).
Proof.
  induction s as [|d s IH]; cbn [split_char]; [repeat constructor; set_solver|].
  destruct (N.eqb_spec d c) as [->|Hne]; [constructor; [set_solver|done]|].
  destruct (split_char c s) as [|w ws]; [repeat constructor; set_solver|].
  inversion IH; subst. constructor; [set_solver|done].
Qed.

Lemma split_char_nonempty c s : split_char c s <> [].
Proof. destruct s as [|d s]; [done|]. cbn [split_char]. by repeat case_match. Qed.

Lemma split_char_app_sep c a b : split_char c (a ++ c :: b) = split_char c a ++ split_char c b.
Proof.
  induction a as [|d a IH]; cbn [app split_char].
  - by rewrite N.eqb_refl.
  - rewrite IH. destruct (d =? c)%N; [done|].
    pose proof (split_char_nonempty c a). by destruct (split_char c a).
Qed.

Lemma split_char_word c w : c ∉ w -> split_char c w = [w].
Proof.
  induction w as [|d w IH]; [done|]. intros H. cbn [split_char].
  destruct (N.eqb_spec d c) as [->|]; [set_solver|]. rewrite IH; [done|set_solver].
Qed.

Lemma split_char_join c l :
  l <> [] -> Forall (fun w => c ∉ w) l -> split_char c (str_join [c] l) = l.
Proof.
  intros Hne H. induction H as [|w l Hw Hl IH]; [done|]. destruct l as [|v l].
  - by apply split_char_word.
  - rewrite str_join_cons. change (w ++ [c] ++ ?x) with (w ++ c :: x).
    rewrite split_char_app_sep, IH by done. by rewrite split_char_word.
Qed.

Lemma join_split_char c s : str_join [c] (split_char c s) = s.
Proof.
  induction s as [|d s IH]; [done|]. cbn [split_char]. destruct (N.eqb_spec d c) as [->|].
  - pose proof (split_char_nonempty c s) as Hne. destruct (split_char c s) as [|w ws]; [done|].
    rewrite str_join_cons, IH. done.
  - pose proof (split_char_nonempty c s) as Hne. destruct (split_char c s) as [|w ws]; [done|].
    destruct ws as [|v ws]; [by rewrite <-IH|]. rewrite str_join_cons in *. by rewrite <-IH.
Qed.

Lemma ends_with_spec p s : ends_with p s = true <-> exists r, s = r ++ p.
Proof.
  unfold ends_with. rewrite starts_with_spec. split; intros [r Hr].
  - exists (reverse r). rewrite <-(reverse_involutive s), Hr, reverse_app. by rewrite reverse_involutive.
  - exists (reverse r). by rewrite Hr, reverse_app.
Qed.

#[export] Hint Resolve split_whitespace_is_word is_word_lower : ghosty.
