(* ===== verification/RustNum.v ===== *)
(** * Rust integers as text and as words

    Decimal parsing of unsigned integers and IPv4 addresses as the standard library
    of Rust does it, and 32-bit words. *)

From stdpp Require Import base list option numbers strings.
From Stdlib Require Import Lia NArith ZArith.
From S2P Require Import Prelude RustStr.

(** ** Unsigned decimal parsing *)

Definition digit_value (c : N) : N := (c - 48)%N.

(** The digits of [s] appended to the number [acc]; [None] on a character that is no
    digit and when the value exceeds [max]. *)
Fixpoint parse_digits (max acc : N) (s : list N) : option N :=
  match s with
  | [] => Some acc
  | c :: s' =>
      if is_ascii_digit c then
        let acc' := (10 * acc + digit_value c)%N in
        if (acc' <=? max)%N then parse_digits max acc' s' else None
      else None
  end.

(** [str::parse] for an unsigned type with maximum [max]: an optional plus sign and
    at least one digit. *)
Definition parse_unsigned (max : N) (s : list N) : option N :=
  let digits := match s with c :: s' => if (c =? 43)%N then s' else s | [] => s end in
  if str_is_empty digits then None else parse_digits max 0 digits.

Definition u8_max : N := 255.
Definition u32_max : N := 4294967295.

Definition parse_u8 : list N -> option N := parse_unsigned u8_max.
Definition parse_u32 : list N -> option N := parse_unsigned u32_max.

Lemma parse_digits_max max acc s n : (acc <= max)%N -> parse_digits max acc s = Some n -> (n <= max)%N.
Proof.
  revert acc. induction s as [|c s IH]; intros acc Ha; cbn; [by intros [= <-]|].
  destruct (is_ascii_digit c); [|done]. destruct (N.leb_spec (10 * acc + digit_value c) max); [|done].
  by apply IH.
Qed.

Lemma parse_unsigned_max max s n : parse_unsigned max s = Some n -> (n <= max)%N.
Proof.
  unfold parse_unsigned. destruct (str_is_empty _); [done|]. apply parse_digits_max. lia.
Qed.

(** ** IPv4 addresses *)

(** One octet: one to three digits, no superfluous leading zero, at most 255. *)
Definition parse_octet (s : list N) : option N :=
  match s with
  | [] => None
  | c :: rest =>
      if (3 <? length s) || ((c =? 48)%N && negb (str_is_empty rest)) then None
      else parse_digits u8_max 0 s
  end.

Record Ipv4Addr : Type := { octet_a : N; octet_b : N; octet_c : N; octet_d : N }.

Definition parse_ipv4 (s : list N) : option Ipv4Addr :=
  match split_char c_dot s with
  | [a; b; c; d] =>
      a ← parse_octet a; b ← parse_octet b; c ← parse_octet c; d ← parse_octet d;
      Some {| octet_a := a; octet_b := b; octet_c := c; octet_d := d |}
  | _ => None
  end.

Definition ipv4_ok (ip : Ipv4Addr) : Prop :=
  (octet_a ip < 256 /\ octet_b ip < 256 /\ octet_c ip < 256 /\ octet_d ip < 256)%N.

Lemma parse_octet_max s n : parse_octet s = Some n -> (n < 256)%N.
Proof.
  unfold parse_octet. destruct s as [|c s]; [done|]. break_match; [done|].
  intros H%parse_digits_max; [|lia]. unfold u8_max in *. lia.
Qed.

Lemma parse_ipv4_ok s ip : parse_ipv4 s = Some ip -> ipv4_ok ip.
Proof.
  unfold parse_ipv4. destruct (split_char c_dot s) as [|a [|b [|c [|d [|? ?]]]]]; try done.
  intros H. destruct (parse_octet a) eqn:Ea, (parse_octet b) eqn:Eb, (parse_octet c) eqn:Ec,
    (parse_octet d) eqn:Ed; try done. injection H as <-.
  unfold ipv4_ok. cbn. split_and!; eauto using parse_octet_max.
Qed.

(** [u32::from(Ipv4Addr)]: big endian. *)
Definition ipv4_to_u32 (ip : Ipv4Addr) : N :=
  (((octet_a ip * 256 + octet_b ip) * 256 + octet_c ip) * 256 + octet_d ip)%N.

Definition u32_modulus : N := 4294967296.

(** [u32::MAX << k] for [k < 32]: the bits beyond 32 are lost. *)
Definition u32_shl_max (k : N) : N := (N.shiftl u32_max k mod u32_modulus)%N.

Lemma ipv4_to_u32_bound ip : ipv4_ok ip -> (ipv4_to_u32 ip < u32_modulus)%N.
Proof. unfold ipv4_ok, ipv4_to_u32, u32_modulus. lia. Qed.

(** Masking with [u32::MAX << k] clears the lowest [k] bits. *)
Lemma u32_mask_spec x k :
  (x < u32_modulus)%N -> (k <= 32)%N ->
  N.land x (u32_shl_max k) = N.shiftl (N.shiftr x k) k.
Proof.
  intros Hx Hk. apply N.bits_inj. intros i. rewrite N.land_spec. unfold u32_shl_max, u32_modulus in *.
  change 4294967296%N with (2 ^ 32)%N in *. change u32_max with (N.ones 32).
  destruct (N.lt_ge_cases i 32) as [Hi|Hi].
  - rewrite N.mod_pow2_bits_low by done. destruct (N.lt_ge_cases i k) as [Hik|Hik].
    + rewrite !N.shiftl_spec_low by done. by rewrite andb_false_r.
    + rewrite !N.shiftl_spec_high' by done. rewrite N.shiftr_spec', N.sub_add by done.
      rewrite N.ones_spec_low by lia. by rewrite andb_true_r.
  - rewrite N.mod_pow2_bits_high by done. rewrite andb_false_r.
    rewrite N.shiftl_spec_high' by lia. rewrite N.shiftr_spec', N.sub_add by lia.
    symmetry. destruct (N.eq_dec x 0) as [->|Hne]; [apply N.bits_0|].
    apply N.bits_above_log2. apply N.log2_lt_pow2 in Hx; lia.
Qed.
