(* ===== verification/RustUtf8.v ===== *)
(** * UTF-8

    The encoding of a [str] as bytes and the strict decoder [str::from_utf8] of the
    standard library of Rust. Characters and bytes are numbers. *)

From stdpp Require Import base list option numbers.
From Stdlib Require Import Lia NArith ZArith.
From S2P Require Import Prelude RustStr.

(** A Unicode scalar value: a code point that is no surrogate. *)
Definition is_scalar (c : N) : bool := (c <? 55296)%N || between 57344 1114111 c.

(** [char::encode_utf8]. *)
Definition encode_char (c : N) : list N :=
  (if c <? 128 then [c]
   else if c <? 2048 then [192 + c / 64; 128 + c mod 64]
   else if c <? 65536 then [224 + c / 4096; 128 + c / 64 mod 64; 128 + c mod 64]
   else [240 + c / 262144; 128 + c / 4096 mod 64; 128 + c / 64 mod 64; 128 + c mod 64])%N.

(** [str::as_bytes]. *)
Definition as_bytes (s : list N) : list N := s ≫= encode_char.

Definition is_continuation (b : N) : bool := between 128 191 b.

(** [str::from_utf8]: shortest forms only, no surrogates. *)
Fixpoint from_utf8 (bs : list N) : option (list N) :=
  match bs with
  | [] => Some []
  | b0 :: r0 =>
      if (b0 <? 128)%N then cons b0 <$> from_utf8 r0
      else
        match r0 with
        | [] => None
        | b1 :: r1 =>
            if negb (is_continuation b1) then None
            else if between 194 223 b0 then cons ((b0 - 192) * 64 + (b1 - 128))%N <$> from_utf8 r1
            else
              match r1 with
              | [] => None
              | b2 :: r2 =>
                  if negb (is_continuation b2) then None
                  else if between 224 239 b0 then
                    let c := ((b0 - 224) * 4096 + (b1 - 128) * 64 + (b2 - 128))%N in
                    if (2048 <=? c)%N && is_scalar c then cons c <$> from_utf8 r2 else None
                  else
                    match r2 with
                    | [] => None
                    | b3 :: r3 =>
                        let c := ((b0 - 240) * 262144 + (b1 - 128) * 4096 + (b2 - 128) * 64 + (b3 - 128))%N in
                        if is_continuation b3 && between 240 244 b0 && (65536 <=? c)%N && is_scalar c
                        then cons c <$> from_utf8 r3
                        else None
                    end
              end
        end
  end.

(** [lia] with quotients and remainders as unknowns. *)
Ltac quotient_lia :=
  repeat match goal with
    | |- context [(?a mod ?b)%N] => let r := fresh "r" in set (r := (a mod b)%N) in *; clearbody r
    | _ : context [(?a mod ?b)%N] |- _ => let r := fresh "r" in set (r := (a mod b)%N) in *; clearbody r
    | _ : context [(?a / ?b)%N] |- _ => let q := fresh "q" in set (q := (a / b)%N) in *; clearbody q
    | |- context [(?a / ?b)%N] => let q := fresh "q" in set (q := (a / b)%N) in *; clearbody q
    end; lia.

Lemma between_spec lo hi c : between lo hi c = true <-> (lo <= c <= hi)%N.
Proof. unfold between. rewrite andb_true_iff, !N.leb_le. lia. Qed.

Lemma between_false lo hi c : between lo hi c = false <-> ~ (lo <= c <= hi)%N.
Proof. rewrite <-between_spec. by destruct (between lo hi c). Qed.

Lemma continuation_mod x : is_continuation (128 + x mod 64) = true.
Proof. apply between_spec. pose proof (N.mod_lt x 64 ltac:(done)). quotient_lia. Qed.

Lemma scalar_max c : is_scalar c = true -> (c < 1114112)%N.
Proof. unfold is_scalar. rewrite orb_true_iff, N.ltb_lt, between_spec. lia. Qed.

(** Digits of a code point in base 64. *)
Lemma base64_two c : (c / 64 * 64 + c mod 64 = c)%N.
Proof. pose proof (N.div_mod c 64 ltac:(done)). lia. Qed.

Lemma base64_three c : (c / 4096 * 4096 + c / 64 mod 64 * 64 + c mod 64 = c)%N.
Proof.
  pose proof (base64_two c). pose proof (base64_two (c / 64)) as H1.
  rewrite N.Div0.div_div in H1. change (64 * 64)%N with 4096%N in H1. lia.
Qed.

Lemma base64_four c :
  (c / 262144 * 262144 + c / 4096 mod 64 * 4096 + c / 64 mod 64 * 64 + c mod 64 = c)%N.
Proof.
  pose proof (base64_three c). pose proof (base64_two (c / 4096)) as H1.
  rewrite N.Div0.div_div in H1. change (4096 * 64)%N with 262144%N in H1. lia.
Qed.

Lemma from_utf8_encode_char c bs :
  is_scalar c = true -> from_utf8 (encode_char c ++ bs) = cons c <$> from_utf8 bs.
Proof.
  intros Hs. pose proof (scalar_max c Hs) as Hm. unfold encode_char.
  destruct (N.ltb_spec c 128) as [H1|H1].
  { cbn [app from_utf8]. by rewrite (proj2 (N.ltb_lt _ _) H1). }
  destruct (N.ltb_spec c 2048) as [H2|H2].
  { cbn [app from_utf8]. rewrite continuation_mod. cbn [negb].
    assert (2 <= c / 64 < 32)%N.
    { split; [apply N.div_le_lower_bound|apply N.Div0.div_lt_upper_bound]; lia. }
    rewrite (proj2 (N.ltb_ge _ _)), (proj2 (between_spec 194 223 _)) by quotient_lia.
    f_equal. f_equal. pose proof (base64_two c). quotient_lia. }
  destruct (N.ltb_spec c 65536) as [H3|H3]; cbn [app from_utf8]; rewrite !continuation_mod; cbn [negb andb].
  - assert (c / 4096 < 16)%N by (apply N.Div0.div_lt_upper_bound; lia).
    rewrite (proj2 (N.ltb_ge _ _)), (proj2 (between_false 194 223 _)), (proj2 (between_spec 224 239 _)) by quotient_lia.
    cbv zeta. replace (_ + _ + _)%N with c by (pose proof (base64_three c); quotient_lia).
    by rewrite Hs, (proj2 (N.leb_le _ _) H2).
  - assert (c / 262144 < 5)%N by (apply N.Div0.div_lt_upper_bound; lia).
    rewrite (proj2 (N.ltb_ge _ _)), (proj2 (between_false 194 223 _)), (proj2 (between_false 224 239 _)),
      (proj2 (between_spec 240 244 _)) by quotient_lia.
    cbv zeta. replace (_ + _ + _ + _)%N with c by (pose proof (base64_four c); quotient_lia).
    by rewrite Hs, (proj2 (N.leb_le _ _) H3).
Qed.

(** Decoding inverts encoding. *)
Lemma from_utf8_as_bytes s : Forall (fun c => is_scalar c = true) s -> from_utf8 (as_bytes s) = Some s.
Proof.
  induction 1 as [|c s Hc _ IH]; [done|]. unfold as_bytes in *. cbn [mbind list_bind].
  rewrite from_utf8_encode_char by done. by rewrite IH.
Qed.

(** The bytes of an ASCII character occur in the encoding only where it does. *)
Lemma encode_char_ascii a c : (a < 128)%N -> a ∈ encode_char c -> c = a.
Proof.
  intros Ha. unfold encode_char. repeat case_match; rewrite ?elem_of_cons, elem_of_nil; intros H';
    repeat (destruct H' as [H'|H']); try done; quotient_lia.
Qed.

Lemma as_bytes_ascii a s : (a < 128)%N -> a ∈ as_bytes s -> a ∈ s.
Proof.
  intros Ha. unfold as_bytes. rewrite list_elem_of_bind. intros (c & H & Hc).
  by apply encode_char_ascii in H as ->.
Qed.
