(* ===== verification/BashArity.v ===== *)
(** * The bash arity dictionary (crates/execpolicy/src/bash_arity.rs)

    [BashArityDict] maps a command prefix to the number of positional words
    that form the canonical prefix of a command; [allow_rule_matches] is the
    arity-aware matching of trusted prefixes and typed allow/ask rules. *)

From stdpp Require Import base list option strings sorting.
From Stdlib Require Import Lia NArith.
From S2P Require Import Prelude RustStr.

Module BashArity.

(** The static table, as string literals with their arity ([u8]). *)
Definition BASH_ARITY_TABLE_lit : list (string * nat) := [
  (* git *)
    ("git add", 2); ("git am", 2); ("git apply", 2); ("git bisect", 2); ("git blame", 2);
    ("git branch", 2); ("git cat-file", 2); ("git checkout", 2); ("git cherry-pick", 2);
    ("git clean", 2); ("git clone", 2); ("git commit", 2); ("git config", 2);
    ("git describe", 2); ("git diff", 2); ("git fetch", 2); ("git format-patch", 2);
    ("git grep", 2); ("git init", 2); ("git log", 2); ("git ls-files", 2); ("git merge", 2);
    ("git mv", 2); ("git notes", 2); ("git pull", 2); ("git push", 2); ("git rebase", 2);
    ("git reflog", 2); ("git remote", 2); ("git reset", 2); ("git restore", 2);
    ("git revert", 2); ("git rm", 2); ("git show", 2); ("git stash", 2); ("git status", 2);
    ("git submodule", 2); ("git switch", 2); ("git tag", 2); ("git worktree", 2);
  (* npm *)
    ("npm audit", 2); ("npm build", 2); ("npm cache", 2); ("npm ci", 2); ("npm dedupe", 2);
    ("npm fund", 2); ("npm help", 2); ("npm info", 2); ("npm init", 2); ("npm install", 2);
    ("npm link", 2); ("npm list", 2); ("npm ls", 2); ("npm outdated", 2); ("npm pack", 2);
    ("npm prune", 2); ("npm publish", 2); ("npm rebuild", 2); ("npm run", 3);
    ("npm start", 2); ("npm stop", 2); ("npm test", 2); ("npm uninstall", 2);
    ("npm update", 2); ("npm version", 2); ("npm view", 2);
  (* yarn *)
    ("yarn add", 2); ("yarn audit", 2); ("yarn build", 2); ("yarn install", 2);
    ("yarn run", 3); ("yarn start", 2); ("yarn test", 2); ("yarn upgrade", 2);
    ("yarn workspace", 3);
  (* pnpm *)
    ("pnpm add", 2); ("pnpm build", 2); ("pnpm install", 2); ("pnpm run", 3);
    ("pnpm start", 2); ("pnpm test", 2); ("pnpm update", 2);
  (* cargo *)
    ("cargo add", 2); ("cargo bench", 2); ("cargo build", 2); ("cargo check", 2);
    ("cargo clean", 2); ("cargo clippy", 2); ("cargo doc", 2); ("cargo fix", 2);
    ("cargo fmt", 2); ("cargo generate", 2); ("cargo install", 2); ("cargo metadata", 2);
    ("cargo package", 2); ("cargo publish", 2); ("cargo remove", 2); ("cargo run", 2);
    ("cargo search", 2); ("cargo test", 2); ("cargo tree", 2); ("cargo uninstall", 2);
    ("cargo update", 2); ("cargo yank", 2);
  (* docker *)
    ("docker build", 2); ("docker compose", 3); ("docker container", 3); ("docker cp", 2);
    ("docker exec", 2); ("docker image", 3); ("docker images", 2); ("docker inspect", 2);
    ("docker kill", 2); ("docker logs", 2); ("docker network", 3); ("docker ps", 2);
    ("docker pull", 2); ("docker push", 2); ("docker rm", 2); ("docker rmi", 2);
    ("docker run", 2); ("docker start", 2); ("docker stop", 2); ("docker system", 3);
    ("docker tag", 2); ("docker volume", 3);
  (* kubectl *)
    ("kubectl apply", 2); ("kubectl create", 3); ("kubectl delete", 3);
    ("kubectl describe", 3); ("kubectl exec", 2); ("kubectl explain", 2);
    ("kubectl get", 3); ("kubectl label", 2); ("kubectl logs", 2); ("kubectl patch", 2);
    ("kubectl port-forward", 2); ("kubectl rollout", 3); ("kubectl scale", 2);
    ("kubectl set", 2); ("kubectl top", 3);
  (* go *)
    ("go build", 2); ("go clean", 2); ("go env", 2); ("go fmt", 2); ("go generate", 2);
    ("go get", 2); ("go install", 2); ("go list", 2); ("go mod", 3); ("go run", 2);
    ("go test", 2); ("go vet", 2); ("go work", 3);
  (* python / pip *)
    ("pip install", 2); ("pip uninstall", 2); ("pip list", 2); ("pip show", 2);
    ("pip freeze", 2); ("pip3 install", 2); ("pip3 uninstall", 2); ("pip3 list", 2);
    ("pip3 show", 2); ("python -m", 3); ("python3 -m", 3);
  (* make / cmake *)
    ("make", 1); ("cmake", 1);
  (* gh (GitHub CLI) *)
    ("gh pr", 3); ("gh issue", 3); ("gh repo", 3); ("gh release", 3); ("gh workflow", 3);
    ("gh run", 3); ("gh secret", 3);
  (* rustup *)
    ("rustup default", 2); ("rustup install", 2); ("rustup show", 2); ("rustup target", 3);
    ("rustup toolchain", 3); ("rustup update", 2);
  (* deno / bun *)
    ("deno run", 2); ("deno test", 2); ("deno fmt", 2); ("deno lint", 2); ("bun add", 2);
    ("bun build", 2); ("bun install", 2); ("bun run", 3); ("bun test", 2); ("npx", 2);
  (* aws CLI *)
    ("aws s3", 3); ("aws ec2", 3); ("aws iam", 3); ("aws lambda", 3);
    ("aws cloudformation", 3); ("aws ecs", 3); ("aws eks", 3); ("aws rds", 3);
    ("aws sts", 3); ("aws configure", 2);
  (* terraform *)
    ("terraform init", 2); ("terraform plan", 2); ("terraform apply", 2);
    ("terraform destroy", 2); ("terraform validate", 2); ("terraform output", 2);
    ("terraform state", 3); ("terraform workspace", 3);
  (* helm *)
    ("helm install", 2); ("helm upgrade", 2); ("helm uninstall", 2); ("helm list", 2);
    ("helm repo", 3); ("helm status", 2); ("helm template", 2)
]%string.

Definition BASH_ARITY_TABLE : list (list N * nat) :=
  (fun e => (lit e.1, e.2)) <$> BASH_ARITY_TABLE_lit.

Record BashArityDict : Type := {
  entries : list (list N * nat)
}.

(** [entries.sort_by_key(Reverse(len))]: keys of at most 255 bytes, so that
    the reversed order is the order of [255 - len]. *)
Definition reverse_len (e : list N * nat) : nat := 255 - str_len e.1.

Definition new : BashArityDict := {| entries := sort_by_key reverse_len BASH_ARITY_TABLE |}.

Definition dict_len (d : BashArityDict) : nat := length (entries d).
Definition dict_is_empty (d : BashArityDict) : bool :=
  match entries d with [] => true | _ => false end.

(** Tokens starting with [-] are flags. *)
Definition is_flag (t : list N) : bool := starts_with_char c_dash t.

Definition positional_tokens (tokens : list (list N)) : list (list N) :=
  to_ascii_lowercase <$> List.filter (fun t => negb (is_flag t)) tokens.

Definition lookup_key (d : BashArityDict) (candidate : list N) : option (list N * nat) :=
  List.find (fun e => str_eqb e.1 candidate) (entries d).

(** The loop [for depth in (1..=max_depth).rev()]. *)
Fixpoint classify_depth (d : BashArityDict) (positional : list (list N)) (depth : nat)
  : option (list N) :=
  match depth with
  | O => None
  | S k =>
      match lookup_key d (str_join [c_space] (take depth positional)) with
      | Some (_, arity) =>
          Some (str_join [c_space] (take (min arity (length positional)) positional))
      | None => classify_depth d positional k
      end
  end.

Definition classify (d : BashArityDict) (tokens : list (list N)) : list N :=
  match tokens with
  | [] => []
  | _ =>
      match positional_tokens tokens with
      | [] => []
      | (base :: _) as positional =>
          match classify_depth d positional (min (length positional) 3) with
          | Some r => r
          | None => base
          end
      end
  end.

(** Whitespace normalisation used by the fallback. *)
Definition normalise_ws (s : list N) : list N := str_join [c_space] (split_whitespace s).

Definition allow_rule_matches (d : BashArityDict) (pattern command : list N) : bool :=
  let pattern_lower := to_ascii_lowercase (trim pattern) in
  let command_tokens := split_whitespace command in
  let canonical := classify d command_tokens in
  if str_eqb canonical pattern_lower then true
  else
    let command_lower := to_ascii_lowercase (trim command) in
    let pattern_norm := normalise_ws pattern_lower in
    let command_norm := normalise_ws command_lower in
    str_eqb command_norm pattern_norm
    || match strip_prefix pattern_norm command_norm with
       | Some rest => starts_with_char c_space rest
       | None => false
       end.

(** ** Lemmas *)

Definition command_words (s : list N) : list (list N) := split_whitespace (to_ascii_lowercase s).

(** The length of the canonical prefix: the arity of the longest table key (of
    at most three words) that starts the positional words, or one word. *)
Inductive canonical_length (d : BashArityDict) (p : list (list N)) : nat -> Prop :=
| canonical_key depth key arity :
    1 <= depth <= min (length p) 3 ->
    lookup_key d (str_join [c_space] (take depth p)) = Some (key, arity) ->
    (forall k, depth < k <= min (length p) 3 ->
       lookup_key d (str_join [c_space] (take k p)) = None) ->
    canonical_length d p (min arity (length p))
| canonical_base :
    (forall k, 1 <= k <= min (length p) 3 ->
       lookup_key d (str_join [c_space] (take k p)) = None) ->
    canonical_length d p 1.

Lemma classify_depth_some d p n r :
  classify_depth d p n = Some r ->
  exists depth key arity, 1 <= depth <= n
    /\ lookup_key d (str_join [c_space] (take depth p)) = Some (key, arity)
    /\ (forall k, depth < k <= n -> lookup_key d (str_join [c_space] (take k p)) = None)
    /\ r = str_join [c_space] (take (min arity (length p)) p).
Proof.
  induction n as [|n IH]; cbn [classify_depth]; [done|].
  destruct (lookup_key d (str_join [c_space] (take (S n) p))) as [[key arity]|] eqn:E.
  - intros [= <-]. exists (S n), key, arity. split; [lia|]. split; [done|]. split; [lia|done].
  - intros H. destruct (IH H) as (depth & key & arity & Hd & Hl & Hk & ->).
    exists depth, key, arity. split; [lia|]. split; [done|]. split; [|done].
    intros k Hk'. destruct (decide (k = S n)) as [->|]; [done|]. apply Hk. lia.
Qed.

Lemma classify_depth_none d p n :
  classify_depth d p n = None ->
  forall k, 1 <= k <= n -> lookup_key d (str_join [c_space] (take k p)) = None.
Proof.
  induction n as [|n IH]; cbn [classify_depth]; [lia|].
  destruct (lookup_key d (str_join [c_space] (take (S n) p))) as [[key arity]|] eqn:E; [done|].
  intros H k Hk. destruct (decide (k = S n)) as [->|]; [done|]. apply IH; [done|lia].
Qed.

Lemma positional_tokens_nil tokens : tokens = [] -> positional_tokens tokens = [].
Proof. by intros ->. Qed.

Lemma classify_alt d tokens :
  classify d tokens =
    default (hd [] (positional_tokens tokens))
      (classify_depth d (positional_tokens tokens) (min (length (positional_tokens tokens)) 3)).
Proof.
  unfold classify. destruct tokens as [|t l]; [done|].
  destruct (positional_tokens (t :: l)) as [|b p]; [done|]. cbn [hd].
  by destruct (classify_depth d (b :: p) _).
Qed.

Lemma positional_filter tokens :
  positional_tokens (List.filter (fun t => negb (is_flag t)) tokens) = positional_tokens tokens.
Proof.
  unfold positional_tokens. f_equal. induction tokens as [|t l IH]; [done|]. simpl.
  destruct (negb (is_flag t)) eqn:E; simpl; [|done]. rewrite E. by f_equal.
Qed.

Lemma positional_app a b : positional_tokens (a ++ b) = positional_tokens a ++ positional_tokens b.
Proof. unfold positional_tokens. rewrite List.filter_app. apply fmap_app. Qed.

Lemma positional_flag f : is_flag f = true -> positional_tokens [f] = [].
Proof. intros H. unfold positional_tokens. simpl. by rewrite H. Qed.

Lemma positional_words tokens : Forall is_word tokens -> Forall is_word (positional_tokens tokens).
Proof.
  intros H. unfold positional_tokens. apply Forall_fmap. apply List.Forall_forall.
  intros t Ht%List.filter_In. destruct Ht as [Ht _]. simpl. apply is_word_lower.
  by eapply List.Forall_forall in H.
Qed.

Lemma classify_prefix d tokens :
  exists k, classify d tokens = str_join [c_space] (take k (positional_tokens tokens)).
Proof.
  rewrite classify_alt. destruct (classify_depth _ _ _) as [r|] eqn:Er.
  - apply classify_depth_some in Er as (?&?&arity&_&_&_&->). by eexists.
  - exists 1. by destruct (positional_tokens tokens).
Qed.

Lemma normalise_ws_prefix a b :
  Forall is_word a -> Forall is_word b ->
  (str_join [c_space] b = str_join [c_space] a
   \/ exists r, strip_prefix (str_join [c_space] a) (str_join [c_space] b) = Some (c_space :: r)) ->
  a `prefix_of` b.
Proof.
  intros Ha Hb [E|[r E%strip_prefix_spec]].
  - exists []. rewrite app_nil_r. by rewrite <-(split_whitespace_join a), <-E, split_whitespace_join.
  - exists (split_whitespace r). rewrite <-(split_whitespace_join b), E by done.
    rewrite split_whitespace_app_ws by done. by rewrite split_whitespace_join.
Qed.

Lemma prefix_normalise_ws a b :
  a <> [] -> a `prefix_of` b ->
  str_join [c_space] b = str_join [c_space] a
   \/ exists r, strip_prefix (str_join [c_space] a) (str_join [c_space] b) = Some (c_space :: r).
Proof.
  intros Ha [k ->]. destruct k as [|w k]; [left; by rewrite app_nil_r|].
  right. rewrite str_join_app by done. eexists. by apply strip_prefix_spec.
Qed.

Lemma starts_with_char_cons c s : starts_with_char c s = true <-> exists r, s = c :: r.
Proof.
  destruct s as [|d s]; simpl; [split; [done|by intros []]|].
  rewrite N.eqb_eq. split; [intros ->; eauto|by intros [r [= -> _]]].
Qed.

(** What [allow_rule_matches] decides, on words. *)
Lemma allow_rule_matches_words d pattern command :
  allow_rule_matches d pattern command = true <->
    classify d (split_whitespace command) = to_ascii_lowercase (trim pattern)
    \/ (command_words pattern = [] /\ command_words command = [])
    \/ (command_words pattern <> [] /\ command_words pattern `prefix_of` command_words command).
Proof.
  assert (forall s, split_whitespace (to_ascii_lowercase (trim s)) = command_words s) as Hw.
  { intros s. unfold command_words. by rewrite !split_whitespace_lower, split_whitespace_trim. }
  assert (Forall is_word (command_words pattern)) as Hp by apply split_whitespace_is_word.
  assert (Forall is_word (command_words command)) as Hc by apply split_whitespace_is_word.
  unfold allow_rule_matches, normalise_ws. rewrite !Hw.
  destruct (str_eqb _ _) eqn:E; [apply str_eqb_spec in E; tauto|].
  assert (~ classify d (split_whitespace command) = to_ascii_lowercase (trim pattern)) as Hne.
  { intros H%str_eqb_spec. congruence. }
  rewrite orb_true_iff, str_eqb_spec. split.
  - intros H. right.
    assert (command_words pattern `prefix_of` command_words command) as Hpre.
    { apply normalise_ws_prefix; [done|done|]. destruct H as [H|H]; [by left|right].
      destruct (strip_prefix _ _) as [rest|]; [|done].
      apply starts_with_char_cons in H as [r ->]. eauto. }
    destruct (command_words pattern) as [|w ws] eqn:Ep; [left|by right].
    split; [done|]. destruct H as [H|H].
    + by rewrite <-(split_whitespace_join (command_words command)), H.
    + simpl in H. apply starts_with_char_cons in H as [r Er].
      exfalso. destruct (command_words command) as [|v vs]; [done|].
      inversion Hc as [|?? [Hv Hf] _]; subst. destruct v as [|x v]; [done|].
      inversion Hf as [|?? Hx _]; subst. destruct vs; simpl in Er; injection Er as -> _; discriminate Hx.
  - intros [?|[[E1 E2]|[H1 H2]]]; [done| |].
    + left. by rewrite E1, E2.
    + destruct (prefix_normalise_ws _ _ H1 H2) as [->|[r Hr]]; [by left|right].
      by rewrite Hr.
Qed.

(** ** Properties *)

(** [classify] returns exactly the canonical prefix: with no positional word
    the empty string, and otherwise the first [k >= 1] lowercased non-flag words,
    where [k] is the arity of the longest table key of at most three words that
    starts them (capped at their number), or 1 when no key does. *)
Theorem classify_canonical (tokens : list (list N)) :
  (positional_tokens tokens = [] /\ classify new tokens = [])
  \/ exists k, canonical_length new (positional_tokens tokens) k
       /\ classify new tokens = str_join [c_space] (take k (positional_tokens tokens)).
Proof.
  rewrite classify_alt. generalize new. intros d.
  destruct (positional_tokens tokens) as [|b p'] eqn:E; [by left|right]. rewrite <-E.
  destruct (classify_depth _ _ _) as [r|] eqn:Er.
  - apply classify_depth_some in Er as (depth & key & arity & H1 & H2 & H3 & ->).
    eexists. split; [by eapply canonical_key|done].
  - exists 1. split; [by apply canonical_base, classify_depth_none|]. by rewrite E.
Qed.

(** Flags never count toward arity: inserting flag tokens anywhere in a
    command leaves its canonical prefix unchanged. *)
Theorem classify_ignores_flags (d : BashArityDict) (a b flags : list (list N)) :
  Forall (fun f => is_flag f = true) flags -> classify d (a ++ flags ++ b) = classify d (a ++ b).
Proof.
  intros H. rewrite !classify_alt.
  assert (positional_tokens (a ++ flags ++ b) = positional_tokens (a ++ b)) as ->; [|done].
  rewrite !positional_app. f_equal. induction H as [|f l Hf _ IH]; [done|].
  change ((f :: l) ++ b) with ([f] ++ (l ++ b)). change (f :: l) with ([f] ++ l).
  by rewrite positional_app, positional_flag.
Qed.

(** Witness: `git --no-pager status -s` classifies like `git status`. *)
Lemma classify_ignores_flags_witness :
  classify new [lit "git"; lit "--no-pager"; lit "-q"; lit "status"] = lit "git status".
Proof.
  refine (eq_trans (classify_ignores_flags new [lit "git"] [lit "status"]
    [lit "--no-pager"; lit "-q"] _) _).
  - repeat constructor.
  - vm_compute. reflexivity.
Defined.

(** An allow rule authorises at word boundaries only: when a pattern matches
    a command, the pattern's lowercased words are a prefix of the command's
    lowercased words, or of its lowercased positional (non-flag) words. A rule for
    `git status` can match neither `git push` nor `git statusx`. *)
Theorem allow_rule_matches_sound (d : BashArityDict) (pattern command : list N) :
  allow_rule_matches d pattern command = true ->
  command_words pattern `prefix_of` command_words command
  \/ command_words pattern `prefix_of` positional_tokens (split_whitespace command).
Proof.
  intros H%allow_rule_matches_words. destruct H as [H|[[H1 H2]|[_ H]]]; [|by left; rewrite H1, H2|by left].
  right. destruct (classify_prefix d (split_whitespace command)) as [k Hk].
  exists (drop k (positional_tokens (split_whitespace command))).
  assert (command_words pattern = take k (positional_tokens (split_whitespace command))) as ->;
    [|by rewrite take_drop].
  unfold command_words. rewrite split_whitespace_lower, <-(split_whitespace_trim pattern).
  rewrite <-split_whitespace_lower, <-H, Hk. apply split_whitespace_join.
  apply Forall_take, positional_words, split_whitespace_is_word.
Qed.

Lemma allow_rule_matches_sound_witness :
  allow_rule_matches new (lit " Git  Status ") (lit "git status -s") = true
  /\ (command_words (lit " Git  Status ") `prefix_of` command_words (lit "git status -s")
      \/ command_words (lit " Git  Status ")
           `prefix_of` positional_tokens (split_whitespace (lit "git status -s")))
  /\ allow_rule_matches new (lit "git status") (lit "git push origin main") = false.
Proof.
  assert (allow_rule_matches new (lit " Git  Status ") (lit "git status -s") = true) as H
    by (vm_compute; reflexivity).
  split; [exact H|]. split; [|vm_compute; reflexivity].
  exact (allow_rule_matches_sound new _ _ H).
Defined.

(** A table key that contains a flag word is unreachable: whatever the command,
    the key that [classify] selects consists of non-flag words only. The entries
    `python -m` and `python3 -m` are therefore never used. *)
Theorem flag_keys_unreachable (tokens : list (list N)) (depth : nat) (key : list N) (arity : nat) :
  Forall is_word tokens ->
  lookup_key new (str_join [c_space] (take depth (positional_tokens tokens))) = Some (key, arity) ->
  Forall (fun w => is_flag w = false) (split_whitespace key).
Proof.
  intros Hw H. unfold lookup_key in H. apply find_elem_of in H as [_ H]. simpl in H.
  apply str_eqb_spec in H as ->.
  rewrite split_whitespace_join by by apply Forall_take, positional_words.
  apply Forall_take. unfold positional_tokens. apply Forall_fmap, List.Forall_forall.
  intros t [_ Ht]%List.filter_In. simpl. apply negb_true_iff in Ht.
  destruct t as [|c t]; [done|]. unfold is_flag in *. simpl in *.
  unfold char_to_ascii_lowercase, is_ascii_uppercase, between.
  destruct (N.leb_spec 65 c), (N.leb_spec c 90); simpl; try done.
  destruct (N.eqb_spec (c + 32) c_dash); [lia|done].
Qed.

Lemma flag_keys_unreachable_witness :
  lookup_key new (lit "git status") = Some (lit "git status", 2)
  /\ Forall (fun w => is_flag w = false) (split_whitespace (lit "git status"))
  /\ lookup_key new (lit "python -m") = Some (lit "python -m", 3)
  /\ classify new [lit "python"; lit "-m"; lit "pytest"] = lit "python".
Proof.
  assert (lookup_key new (str_join [c_space] (take 2 (positional_tokens
    [lit "git"; lit "-q"; lit "status"]))) = Some (lit "git status", 2)) as H
    by (vm_compute; reflexivity).
  split; [exact H|]. split; [|split; vm_compute; reflexivity].
  refine (flag_keys_unreachable [lit "git"; lit "-q"; lit "status"] 2 _ _ _ H).
  apply (bool_decide_unpack _). vm_compute. exact I.
Defined.

End BashArity.
