(* ===== verification/ShellExpand.v ===== *)
(** * Shell expansion for deny rules (crates/execpolicy/src/shell_expand.rs)

    [expanded_commands] word-splits a command line the way a POSIX shell does
    and returns every command line that would be executed: chained commands,
    substitution bodies, wrapper payloads. The file models the tokenizer, the
    wrapper analysis and the recursive expander, gives a relational
    specification of "the shell would run this command line" ([runs]), and
    proves that the expander computes it up to its output bound. *)

From stdpp Require Import base list option strings gmap.
From Stdlib Require Import Lia NArith.
From S2P Require Import Prelude RustStr.

Module ShellExpand.

Definition MAX_DEPTH : nat := 8.
Definition MAX_COMMANDS : nat := 256.
Definition MAX_HEAD_SCAN : nat := 8.

Definition PASSTHROUGH_WRAPPERS : list (list N) := lit <$> [
  "sudo"; "doas"; "env"; "nohup"; "nice"; "ionice"; "time"; "timeout"; "stdbuf"; "setsid";
  "command"; "builtin"; "exec"; "xargs"; "unbuffer"; "busybox"; "chroot"; "proot"]%string.

Definition SHELL_NAMES : list (list N) := lit <$> [
  "sh"; "bash"; "zsh"; "dash"; "ksh"; "ksh93"; "mksh"; "ash"; "fish"; "csh"; "tcsh"; "rbash";
  "yash"]%string.

(** ** Tokens *)

Definition is_path_sep (c : N) : bool := (c =? c_slash)%N || (c =? c_backslash)%N.

Definition basename (token : list N) : list N :=
  let part := rsplit_next is_path_sep token in
  if str_is_empty part then token else part.

Definition is_env_assignment (token : list N) : bool :=
  match split_once c_eq token with
  | Some (name, _) =>
      negb (str_is_empty name) && negb (starts_with_char c_dash name)
      && forallb (fun ch => is_ascii_alphanumeric ch || (ch =? c_underscore)%N) name
  | None => false
  end.

(** The suffixes [s], [m], [h], [d] of a duration. *)
Definition is_duration_unit (c : N) : bool :=
  (c =? 115)%N || (c =? 109)%N || (c =? 104)%N || (c =? 100)%N.

Definition is_scalar_operand (token : list N) : bool :=
  let body := trim_end_matches is_duration_unit token in
  negb (str_is_empty body) && forallb (fun ch => is_ascii_digit ch || (ch =? c_dot)%N) body.

Definition is_passthrough_wrapper (token : list N) : bool :=
  bool_decide (to_ascii_lowercase (basename token) ∈ PASSTHROUGH_WRAPPERS).

Definition is_shell_name (token : list N) : bool :=
  bool_decide (to_ascii_lowercase (basename token) ∈ SHELL_NAMES).

Definition is_eval (token : list N) : bool := eq_ignore_ascii_case (basename token) (lit "eval").

(** [strip_leading_wrappers]: the loop over [start], with [dropped_wrapper]. *)
Fixpoint strip_wrappers_from (dropped_wrapper : bool) (tokens : list (list N)) : list (list N) :=
  match tokens with
  | [] => []
  | token :: rest =>
      if is_env_assignment token then strip_wrappers_from dropped_wrapper rest
      else if is_passthrough_wrapper token then strip_wrappers_from true rest
      else if dropped_wrapper && is_scalar_operand token then strip_wrappers_from dropped_wrapper rest
      else tokens
  end.
Definition strip_leading_wrappers (tokens : list (list N)) : list (list N) :=
  strip_wrappers_from false tokens.

(** [find_wrapper_head]: the scan of at most [MAX_HEAD_SCAN] tokens. *)
Fixpoint find_head_from (budget index : nat) (previous_was_short_flag : bool)
  (tokens : list (list N)) : option nat :=
  match budget, tokens with
  | S budget', token :: rest =>
      if is_shell_name token || is_eval token then Some index
      else
        let skippable :=
          is_env_assignment token || is_passthrough_wrapper token
          || starts_with_char c_dash token || is_scalar_operand token
          || previous_was_short_flag in
        if negb skippable then None
        else find_head_from budget' (S index)
               (starts_with_char c_dash token && negb (starts_with (lit "--") token)) rest
  | _, _ => None
  end.
Definition find_wrapper_head (tokens : list (list N)) : option nat :=
  find_head_from MAX_HEAD_SCAN 0 false tokens.

Definition takes_command_line (token : list N) : bool :=
  match strip_prefix (lit "--") token with
  | Some long => eq_ignore_ascii_case long (lit "command")
  | None =>
      match strip_prefix [c_dash] token with
      | Some flags => contains_char 99 flags
      | None => false
      end
  end.

(** The scan of [shell_c_argument] from [index = 1]. *)
Fixpoint shell_c_from (tokens : list (list N)) : option (list N) :=
  match tokens with
  | [] => None
  | token :: rest => if takes_command_line token then head rest else shell_c_from rest
  end.
Definition shell_c_argument (tokens : list (list N)) : option (list N) := shell_c_from (tl tokens).

(** ** Reading nested text

    Each reader takes the characters after the opening delimiter and returns
    the text read with the characters that remain. *)

Fixpoint read_squote (cs : list N) : list N * list N :=
  match cs with
  | [] => ([], [])
  | c :: cs' =>
      if (c =? c_squote)%N then ([], cs')
      else let '(t, r) := read_squote cs' in (c :: t, r)
  end.

(** [$'...']: a backslash keeps the next character. *)
Fixpoint read_ansi (cs : list N) : list N * list N :=
  match cs with
  | [] => ([], [])
  | c :: cs' =>
      if (c =? c_squote)%N then ([], cs')
      else match cs' with
           | d :: cs'' =>
               if (c =? c_backslash)%N then let '(t, r) := read_ansi cs'' in (d :: t, r)
               else let '(t, r) := read_ansi cs' in (c :: t, r)
           | [] => ([c], [])
           end
  end.

Fixpoint read_backtick (cs : list N) : list N * list N :=
  match cs with
  | [] => ([], [])
  | c :: cs' =>
      match cs' with
      | d :: cs'' =>
          if (c =? c_backslash)%N then let '(t, r) := read_backtick cs'' in (c :: d :: t, r)
          else if (c =? c_backtick)%N then ([], cs')
          else let '(t, r) := read_backtick cs' in (c :: t, r)
      | [] => if (c =? c_backtick)%N then ([], []) else ([c], [])
      end
  end.

(** [read_delimited]: [depth] counts the open delimiters below the first one,
    so that the matching close is met at [depth = 0]. *)
Fixpoint read_delimited (open close : N) (depth : nat) (cs : list N) : list N * list N :=
  match cs with
  | [] => ([], [])
  | c :: cs' =>
      let plain (depth : nat) :=
        let '(t, r) := read_delimited open close depth cs' in (c :: t, r) in
      let step :=
        if (c =? open)%N then plain (S depth)
        else if (c =? close)%N then
          match depth with
          | O => ([], cs')
          | S depth' => plain depth'
          end
        else plain depth in
      match cs' with
      | d :: cs'' =>
          if (c =? c_backslash)%N then
            let '(t, r) := read_delimited open close depth cs'' in (c :: d :: t, r)
          else step
      | [] => step
      end
  end.

(** ** The tokenizer *)

Record scan_state : Type := {
  commands : list (list (list N));
  words : list (list N);
  word : list N;
  started : bool;
  nested : list (list N)
}.

Definition scan_init : scan_state :=
  {| commands := []; words := []; word := []; started := false; nested := [] |}.

Definition push_text (t : list N) (st : scan_state) : scan_state :=
  {| commands := commands st; words := words st; word := word st ++ t; started := true;
     nested := nested st |}.

Definition push_nested (inner : list N) (st : scan_state) : scan_state :=
  {| commands := commands st; words := words st; word := word st; started := started st;
     nested := nested st ++ [inner] |}.

Definition flush_word (st : scan_state) : scan_state :=
  if started st || negb (str_is_empty (word st)) then
    {| commands := commands st; words := words st ++ [word st]; word := []; started := false;
       nested := nested st |}
  else st.

Definition is_brace_word (w : list N) : bool := str_eqb w [c_lbrace] || str_eqb w [c_rbrace].

Definition end_command (st : scan_state) : scan_state :=
  let ws := List.filter (fun w => negb (is_brace_word w)) (words st) in
  {| commands := match ws with [] => commands st | _ => commands st ++ [ws] end;
     words := []; word := word st; started := started st; nested := nested st |}.

Definition is_control_operator (c : N) : bool :=
  (c =? c_nl)%N || (c =? c_cr)%N || (c =? c_semi)%N || (c =? c_amp)%N || (c =? c_pipe)%N.

(** The body of a double-quoted string: the text and the nested commands. *)
Fixpoint read_dquote (fuel : nat) (cs : list N) : list N * list (list N) * list N :=
  match fuel, cs with
  | S fuel', c :: cs' =>
      let text (t : list N) (r : list N) :=
        let '(t', ns, r') := read_dquote fuel' r in (t ++ t', ns, r') in
      let nest (inner r : list N) :=
        let '(t', ns, r') := read_dquote fuel' r in (t', inner :: ns, r') in
      if (c =? c_dquote)%N then ([], [], cs')
      else if (c =? c_backslash)%N && negb (str_is_empty cs') then
        match cs' with
        | d :: cs'' => text [d] cs''
        | [] => text [c] cs'
        end
      else if (c =? c_backtick)%N then
        let '(inner, r) := read_backtick cs' in nest inner r
      else if (c =? c_dollar)%N && starts_with_char c_lparen cs' then
        let '(inner, r) := read_delimited c_lparen c_rparen 0 (tl cs') in nest inner r
      else if (c =? c_dollar)%N && starts_with_char c_lbrace cs' then
        let '(inner, r) := read_delimited c_lbrace c_rbrace 0 (tl cs') in nest inner r
      else text [c] cs'
  | _, _ => ([], [], [])
  end.

Definition push_dquote (t : list N) (ns : list (list N)) (st : scan_state) : scan_state :=
  {| commands := commands st; words := words st; word := word st ++ t; started := true;
     nested := nested st ++ ns |}.

(** One iteration of the main loop: the state after it and what remains. *)
Definition scan_step (c : N) (rest : list N) (st : scan_state) : scan_state * list N :=
  if (c =? c_backslash)%N then
    match rest with
    | d :: rest' => (if (d =? c_nl)%N then st else push_text [d] st, rest')
    | [] => (st, [])
    end
  else if (c =? c_squote)%N then
    let '(t, r) := read_squote rest in (push_text t st, r)
  else if (c =? c_dquote)%N then
    let '(t, ns, r) := read_dquote (length rest) rest in (push_dquote t ns st, r)
  else if (c =? c_dollar)%N && starts_with_char c_squote rest then
    let '(t, r) := read_ansi (tl rest) in (push_text t st, r)
  else if (c =? c_backtick)%N then
    let '(inner, r) := read_backtick rest in (push_nested inner st, r)
  else if (c =? c_dollar)%N && starts_with_char c_lparen rest then
    let '(inner, r) := read_delimited c_lparen c_rparen 0 (tl rest) in (push_nested inner st, r)
  else if (c =? c_dollar)%N && starts_with_char c_lbrace rest then
    let '(inner, r) := read_delimited c_lbrace c_rbrace 0 (tl rest) in (push_nested inner st, r)
  else if ((c =? c_lt)%N || (c =? c_gt)%N) && starts_with_char c_lparen rest then
    let '(inner, r) := read_delimited c_lparen c_rparen 0 (tl rest) in (push_nested inner st, r)
  else if (c =? c_space)%N || (c =? c_tab)%N then (flush_word st, rest)
  else if (c =? c_lparen)%N || (c =? c_rparen)%N then (end_command (flush_word st), rest)
  else if is_control_operator c then
    (end_command (flush_word st), drop_while is_control_operator rest)
  else (push_text [c] st, rest).

Fixpoint scan (fuel : nat) (cs : list N) (st : scan_state) : scan_state :=
  match fuel, cs with
  | S fuel', c :: rest => let '(st', r) := scan_step c rest st in scan fuel' r st'
  | _, _ => st
  end.

Definition tokenize (input : list N) : scan_state :=
  end_command (flush_word (scan (length input) input scan_init)).

(** ** The expander *)

(** The hash set [seen] is the list of its members. *)
Record Expander : Type := {
  out : list (list N);
  seen : list (list N)
}.

Definition command_line (tokens : list (list N)) : list N :=
  str_join [c_space] (List.filter (fun t => negb (str_is_empty t)) tokens).

Definition emit (e : Expander) (tokens : list (list N)) : Expander :=
  if MAX_COMMANDS <=? length (out e) then e
  else
    let joined := command_line tokens in
    if str_is_empty joined then e
    else if bool_decide (joined ∈ seen e) then e
    else {| out := out e ++ [joined]; seen := joined :: seen e |}.

(** The command text that [eval] or [sh -c] hands back to a shell. *)
Definition payload (tokens : list (list N)) : option (list N) :=
  match find_wrapper_head tokens with
  | Some head =>
      let name := to_ascii_lowercase (basename (default [] (tokens !! head))) in
      if str_eqb name (lit "eval") then Some (str_join [c_space] (drop (S head) tokens))
      else shell_c_argument (drop head tokens)
  | None => None
  end.

(** The emissions of [record]; its recursive expansion is in [expand]. *)
Definition record_emit (e : Expander) (tokens : list (list N)) : Expander :=
  let e := emit e tokens in
  let stripped := strip_leading_wrappers tokens in
  if length stripped =? length tokens then e else emit e stripped.

(** [expand] at depth [d] is [expand (MAX_DEPTH + 1 - d)]: the call returns at
    once when the depth exceeds [MAX_DEPTH]. *)
Fixpoint expand (remaining : nat) (e : Expander) (input : list N) : Expander :=
  match remaining with
  | O => e
  | S remaining' =>
      if MAX_COMMANDS <=? length (out e) then e
      else
        let st := tokenize input in
        let record (e : Expander) (tokens : list (list N)) : Expander :=
          match tokens with
          | [] => e
          | _ =>
              let e := record_emit e tokens in
              match payload tokens with
              | Some script => expand remaining' e script
              | None => e
              end
          end in
        let e := fold_left record (commands st) e in
        fold_left (expand remaining') (nested st) e
  end.

Definition expander_init (trimmed : list N) : Expander :=
  if str_is_empty trimmed then {| out := []; seen := [] |}
  else {| out := [trimmed]; seen := [trimmed] |}.

Definition expanded_commands (command : list N) : list (list N) :=
  out (expand (S MAX_DEPTH) (expander_init (trim command)) command).

(** ** Specification

    [runs r input c]: within [r] levels of nesting, the shell that is given
    [input] executes the command line [c] (words joined by one space, quotes
    removed, empty words dropped). *)
Inductive runs : nat -> list N -> list N -> Prop :=
| runs_command r input tokens c :
    tokens ∈ commands (tokenize input) ->
    c = command_line tokens \/ c = command_line (strip_leading_wrappers tokens) ->
    c <> [] -> runs (S r) input c
| runs_payload r input tokens script c :
    tokens ∈ commands (tokenize input) -> payload tokens = Some script ->
    runs r script c -> runs (S r) input c
| runs_nested r input inner c :
    inner ∈ nested (tokenize input) -> runs r inner c -> runs (S r) input c.

(** ** The loops terminate within their fuel *)

Lemma read_squote_length cs : length (read_squote cs).2 <= length cs.
Proof.
  induction cs as [|c cs IH]; simpl; [done|]. destruct (c =? c_squote)%N; simpl; [lia|].
  destruct (read_squote cs) as [t r]. simpl in *. lia.
Qed.

(** Induction on a list that steps over one or two elements. *)
Lemma list_two_ind (P : list N -> Prop) :
  P [] -> (forall c, P [c]) -> (forall c d cs, P cs -> P (d :: cs) -> P (c :: d :: cs)) ->
  forall cs, P cs.
Proof.
  intros H0 H1 H2 cs. enough (P cs /\ forall c, P (c :: cs)) by tauto.
  induction cs as [|d cs [IH1 IH2]]; [split; auto|]. split; [apply IH2|].
  intros c. apply H2; [done|apply IH2].
Qed.

Lemma read_ansi_eq c d cs :
  read_ansi (c :: d :: cs) =
    if (c =? c_squote)%N then ([], d :: cs)
    else if (c =? c_backslash)%N then let '(t, r) := read_ansi cs in (d :: t, r)
    else let '(t, r) := read_ansi (d :: cs) in (c :: t, r).
Proof. done. Qed.

Lemma read_backtick_eq c d cs :
  read_backtick (c :: d :: cs) =
    if (c =? c_backslash)%N then let '(t, r) := read_backtick cs in (c :: d :: t, r)
    else if (c =? c_backtick)%N then ([], d :: cs)
    else let '(t, r) := read_backtick (d :: cs) in (c :: t, r).
Proof. done. Qed.

Lemma read_delimited_eq o k depth c d cs :
  read_delimited o k depth (c :: d :: cs) =
    if (c =? c_backslash)%N then
      let '(t, r) := read_delimited o k depth cs in (c :: d :: t, r)
    else if (c =? o)%N then let '(t, r) := read_delimited o k (S depth) (d :: cs) in (c :: t, r)
    else if (c =? k)%N then
      match depth with
      | O => ([], d :: cs)
      | S depth' => let '(t, r) := read_delimited o k depth' (d :: cs) in (c :: t, r)
      end
    else let '(t, r) := read_delimited o k depth (d :: cs) in (c :: t, r).
Proof. done. Qed.

Lemma read_ansi_length cs : length (read_ansi cs).2 <= length cs.
Proof.
  induction cs as [|c|c d cs IH1 IH2] using list_two_ind; [done| |].
  - simpl. destruct (c =? c_squote)%N; simpl; lia.
  - rewrite read_ansi_eq. destruct (c =? c_squote)%N; [simpl; lia|].
    destruct (c =? c_backslash)%N.
    + destruct (read_ansi cs) as [t r]. cbn [snd length] in *. lia.
    + destruct (read_ansi (d :: cs)) as [t r]. cbn [snd length] in *. lia.
Qed.

Lemma read_backtick_length cs : length (read_backtick cs).2 <= length cs.
Proof.
  induction cs as [|c|c d cs IH1 IH2] using list_two_ind; [done| |].
  - simpl. destruct (c =? c_backtick)%N; simpl; lia.
  - rewrite read_backtick_eq. destruct (c =? c_backslash)%N.
    + destruct (read_backtick cs) as [t r]. cbn [snd length] in *. lia.
    + destruct (c =? c_backtick)%N; [simpl; lia|].
      destruct (read_backtick (d :: cs)) as [t r]. cbn [snd length] in *. lia.
Qed.

Lemma read_delimited_length o k depth cs : length (read_delimited o k depth cs).2 <= length cs.
Proof.
  revert depth. induction cs as [|c|c d cs IH1 IH2] using list_two_ind; intros depth; [done| |].
  - simpl. destruct (c =? o)%N; simpl; [lia|]. destruct (c =? k)%N, depth; simpl; lia.
  - rewrite read_delimited_eq.
    assert (forall n, length (let '(t, r) := read_delimited o k n (d :: cs) in (c :: t, r)).2
      <= length (c :: d :: cs)) as Hp.
    { intros n. specialize (IH2 n). destruct (read_delimited o k n (d :: cs)).
      cbn [snd length] in *. lia. }
    destruct (c =? c_backslash)%N.
    + specialize (IH1 depth). destruct (read_delimited o k depth cs). cbn [snd length] in *. lia.
    + destruct (c =? o)%N; [apply Hp|]. destruct (c =? k)%N; [|apply Hp].
      destruct depth; [simpl; lia|apply Hp].
Qed.

Lemma tl_length {A} (l : list A) : length (tl l) <= length l.
Proof. destruct l; simpl; lia. Qed.

(** Adds the length bound of every reader result in the context. *)
Ltac reader_bounds :=
  repeat match goal with
  | H : read_squote ?x = (_, _) |- _ =>
      let B := fresh in pose proof (read_squote_length x) as B; rewrite H in B; clear H
  | H : read_ansi ?x = (_, _) |- _ =>
      let B := fresh in pose proof (read_ansi_length x) as B; rewrite H in B; clear H
  | H : read_backtick ?x = (_, _) |- _ =>
      let B := fresh in pose proof (read_backtick_length x) as B; rewrite H in B; clear H
  | H : read_delimited ?o ?k ?n ?x = (_, _) |- _ =>
      let B := fresh in pose proof (read_delimited_length o k n x) as B; rewrite H in B; clear H
  end.

Lemma read_dquote_length fuel cs : length (read_dquote fuel cs).2 <= length cs.
Proof.
  revert cs. induction fuel as [|fuel IH]; intros cs; [simpl; lia|].
  destruct cs as [|c cs]; [done|]. pose proof (tl_length cs). cbn [read_dquote length].
  repeat case_match; reader_bounds;
    repeat match goal with
    | H : read_dquote fuel ?x = _ |- _ =>
        let B := fresh in pose proof (IH x) as B; rewrite H in B; clear H
    end; simpl in *; lia.
Qed.

Lemma read_dquote_fuel fuel1 fuel2 cs :
  length cs <= fuel1 -> length cs <= fuel2 -> read_dquote fuel1 cs = read_dquote fuel2 cs.
Proof.
  revert fuel2 cs. induction fuel1 as [|fuel1 IH]; intros fuel2 cs H1 H2.
  { destruct cs; [|simpl in *; lia]. by destruct fuel2. }
  destruct cs as [|c cs]; [by destruct fuel2|]. destruct fuel2 as [|fuel2]; [simpl in *; lia|].
  simpl in H1, H2. pose proof (tl_length cs) as Htl. cbn [read_dquote].
  assert (forall r, length r <= length cs -> read_dquote fuel1 r = read_dquote fuel2 r) as E.
  { intros r Hr. apply IH; lia. }
  destruct (c =? c_dquote)%N; [done|].
  destruct ((c =? c_backslash)%N && negb (str_is_empty cs)).
  { destruct cs; rewrite E by (simpl; lia); done. }
  destruct (c =? c_backtick)%N.
  { destruct (read_backtick cs) eqn:Eb. reader_bounds. rewrite E by (simpl in *; lia). done. }
  destruct ((c =? c_dollar)%N && starts_with_char c_lparen cs).
  { destruct (read_delimited _ _ _ _) eqn:Eb. reader_bounds. rewrite E by (simpl in *; lia). done. }
  destruct ((c =? c_dollar)%N && starts_with_char c_lbrace cs).
  { destruct (read_delimited _ _ _ _) eqn:Eb. reader_bounds. rewrite E by (simpl in *; lia). done. }
  by rewrite E by lia.
Qed.

Lemma drop_while_length {A} (q : A -> bool) l : length (drop_while q l) <= length l.
Proof. induction l as [|x l IH]; simpl; [lia|]. destruct (q x); simpl; lia. Qed.

Lemma scan_step_length c rest st : length (scan_step c rest st).2 <= length rest.
Proof.
  pose proof (tl_length rest). pose proof (drop_while_length is_control_operator rest).
  pose proof (read_dquote_length (length rest) rest).
  unfold scan_step. repeat case_match; reader_bounds; simpl in *; lia.
Qed.

(** The fuel [length cs] is enough: any larger fuel gives the same result. *)
Lemma scan_fuel fuel1 fuel2 cs st :
  length cs <= fuel1 -> length cs <= fuel2 -> scan fuel1 cs st = scan fuel2 cs st.
Proof.
  revert fuel2 cs st. induction fuel1 as [|fuel1 IH]; intros fuel2 cs st H1 H2.
  { destruct cs; [|simpl in *; lia]. by destruct fuel2. }
  destruct cs as [|c cs]; [by destruct fuel2|]. destruct fuel2 as [|fuel2]; [simpl in *; lia|].
  cbn [scan]. pose proof (scan_step_length c cs st) as Hs.
  destruct (scan_step c cs st) as [st' r]. simpl in *. apply IH; lia.
Qed.

(** The loop as one equation, without fuel. *)
Definition scan_all (cs : list N) (st : scan_state) : scan_state := scan (length cs) cs st.

Lemma scan_all_cons c cs st :
  scan_all (c :: cs) st = scan_all (scan_step c cs st).2 (scan_step c cs st).1.
Proof.
  unfold scan_all. cbn [length scan]. pose proof (scan_step_length c cs st) as Hs.
  destruct (scan_step c cs st) as [st' r]. simpl in *. apply scan_fuel; lia.
Qed.

Lemma tokenize_alt input : tokenize input = end_command (flush_word (scan_all input scan_init)).
Proof. done. Qed.

(** ** The expander's invariant *)

Record expander_ok (e : Expander) : Prop := {
  ok_nodup : NoDup (out e);
  ok_seen : forall x, x ∈ seen e <-> x ∈ out e;
  ok_nonempty : Forall (fun x => x <> []) (out e);
  ok_bound : length (out e) <= MAX_COMMANDS
}.

(** [produces S e e']: from a well-formed [e], [e'] is well-formed, extends
    [e] at the end, holds nothing new that is not in [S], and holds all of [S]
    unless the output bound was reached. *)
Definition produces (S : list N -> Prop) (e e' : Expander) : Prop :=
  expander_ok e ->
  expander_ok e' /\ out e `prefix_of` out e'
  /\ (forall x, x ∈ out e' -> x ∈ out e \/ S x)
  /\ (length (out e') < MAX_COMMANDS -> forall x, S x -> x ∈ out e').

Lemma produces_refl (S : list N -> Prop) e :
  (length (out e) < MAX_COMMANDS -> forall x, S x -> x ∈ out e) -> produces S e e.
Proof. intros H He. split; [done|]. split; [done|]. split; [by left|done]. Qed.

Lemma produces_trans (S1 S2 : list N -> Prop) e1 e2 e3 :
  produces S1 e1 e2 -> produces S2 e2 e3 -> produces (fun x => S1 x \/ S2 x) e1 e3.
Proof.
  intros H12 H23 H1. destruct (H12 H1) as (H2 & P12 & N12 & C12).
  destruct (H23 H2) as (H3 & P23 & N23 & C23). split; [done|]. split; [by etrans|]. split.
  - intros x [Hx|Hx]%N23; [|tauto]. apply N12 in Hx as [|]; tauto.
  - intros Hlen x [Hx|Hx]; [|by apply C23]. pose proof (prefix_length _ _ P23).
    destruct P23 as [k ->]. apply elem_of_app. left. apply C12; [lia|done].
Qed.

Lemma produces_iff (S1 S2 : list N -> Prop) e e' :
  (forall x, S1 x <-> S2 x) -> produces S1 e e' -> produces S2 e e'.
Proof.
  intros HS H He. destruct (H He) as (H1 & H2 & H3 & H4). split; [done|]. split; [done|]. split.
  - intros x Hx. rewrite <-HS. auto.
  - intros Hl x Hx. apply H4, HS; done.
Qed.

Lemma fold_produces {X} (f : Expander -> X -> Expander) (S : X -> list N -> Prop) (l : list X) e :
  (forall e x, x ∈ l -> produces (S x) e (f e x)) ->
  produces (fun y => exists x, x ∈ l /\ S x y) e (fold_left f l e).
Proof.
  revert e. induction l as [|x l IH]; intros e H.
  { apply produces_refl. intros _ y (x & Hx & _). by apply not_elem_of_nil in Hx. }
  simpl. eapply produces_iff; [|eapply produces_trans; [apply H, list_elem_of_here|apply IH]].
  - intros y. split.
    + intros [Hy|(z & Hz & Hy)]; [exists x|exists z]; split; try done; set_solver.
    + intros (z & Hz & Hy). apply elem_of_cons in Hz as [->|Hz]; [by left|right; eauto].
  - intros e' z Hz. apply H. by apply list_elem_of_further.
Qed.

Lemma emit_produces e tokens :
  produces (fun x => x = command_line tokens /\ x <> []) e (emit e tokens).
Proof.
  unfold emit. destruct (Nat.leb_spec MAX_COMMANDS (length (out e))) as [Hm|Hm].
  { apply produces_refl. lia. }
  destruct (command_line tokens) as [|c l] eqn:E; simpl.
  { apply produces_refl. intros _ x [-> Hx]. done. }
  case_bool_decide as Hs.
  - intros He. apply produces_refl; [|done]. intros _ x [-> _]. by apply He.
  - intros [Hnd Hse Hne Hb]. cbn [out]. split; [split; cbn [out seen]|split; [|split]].
    + apply NoDup_app. split; [done|]. split; [|apply NoDup_singleton].
      intros x Hx. rewrite list_elem_of_singleton. intros ->. by apply Hs, Hse.
    + intros x. rewrite elem_of_cons, elem_of_app, Hse. set_solver.
    + apply Forall_app. split; [done|]. by repeat constructor.
    + rewrite length_app. simpl. lia.
    + by apply prefix_app_r.
    + intros x. rewrite elem_of_app, list_elem_of_singleton. intros [|]; [by left|right]. by subst.
    + intros _ x [-> _]. set_solver.
Qed.

Lemma strip_wrappers_suffix b tokens : strip_wrappers_from b tokens `suffix_of` tokens.
Proof.
  revert b. induction tokens as [|t l IH]; intros b; simpl; [done|].
  repeat case_match; try (by apply suffix_cons_r, IH). done.
Qed.

Lemma record_emit_produces e tokens :
  produces (fun x => (x = command_line tokens \/ x = command_line (strip_leading_wrappers tokens))
                     /\ x <> []) e (record_emit e tokens).
Proof.
  unfold record_emit. destruct (Nat.eqb_spec (length (strip_leading_wrappers tokens)) (length tokens)) as [E|E].
  - assert (strip_leading_wrappers tokens = tokens) as ->.
    { destruct (strip_wrappers_suffix false tokens) as [k Hk].
      unfold strip_leading_wrappers in *. rewrite Hk in E at 2. rewrite length_app in E.
      destruct k; [done|simpl in E; lia]. }
    eapply produces_iff; [|apply emit_produces]. naive_solver.
  - eapply produces_iff; [|eapply produces_trans; apply emit_produces]. naive_solver.
Qed.

(** What [record] contributes for one word-split command line. *)
Definition records (r : nat) (tokens : list (list N)) (x : list N) : Prop :=
  ((x = command_line tokens \/ x = command_line (strip_leading_wrappers tokens)) /\ x <> [])
  \/ exists script, payload tokens = Some script /\ runs r script x.

Lemma runs_alt r input x :
  runs (S r) input x <->
    (exists tokens, tokens ∈ commands (tokenize input) /\ records r tokens x)
    \/ (exists inner, inner ∈ nested (tokenize input) /\ runs r inner x).
Proof.
  split.
  - inversion 1; subst; [left..|right]; eexists; split; eauto; [left|right]; eauto.
  - intros [(tokens & Hin & [[H1 H2]|(script & H1 & H2)])|(inner & Hin & H)].
    + by eapply runs_command.
    + by eapply runs_payload.
    + by eapply runs_nested.
Qed.

Lemma expand_produces r e input : produces (runs r input) e (expand r e input).
Proof.
  revert e input. induction r as [|r IH]; intros e input.
  { apply produces_refl. intros _ x Hx. inversion Hx. }
  cbn [expand]. destruct (Nat.leb_spec MAX_COMMANDS (length (out e))) as [Hm|Hm].
  { apply produces_refl. lia. }
  eapply produces_iff; [intros x; symmetry; apply runs_alt|].
  eapply produces_trans; [|apply fold_produces; intros e' inner _; apply IH].
  apply fold_produces. intros e' tokens _. destruct tokens as [|t l].
  { apply produces_refl. intros _ x [[[->| ->] H]|(? & [=] & _)]; done. }
  destruct (payload (t :: l)) as [script|] eqn:Ep.
  - eapply produces_iff; [|eapply produces_trans; [apply record_emit_produces|apply IH]].
    intros x. unfold records. rewrite Ep. naive_solver.
  - eapply produces_iff; [|apply record_emit_produces].
    intros x. unfold records. rewrite Ep. naive_solver.
Qed.

Lemma expander_init_ok t : expander_ok (expander_init t).
Proof.
  unfold expander_init. destruct t as [|c t]; simpl; split; simpl; try set_solver.
  - constructor. - unfold MAX_COMMANDS; lia. - apply NoDup_singleton.
  - by repeat constructor. - unfold MAX_COMMANDS; lia.
Qed.

Lemma expanded_commands_ok command :
  expander_ok (expand (S MAX_DEPTH) (expander_init (trim command)) command).
Proof. by apply expand_produces, expander_init_ok. Qed.

Lemma expanded_commands_complete command c :
  runs (S MAX_DEPTH) command c -> length (expanded_commands command) < MAX_COMMANDS ->
  c ∈ expanded_commands command.
Proof.
  intros Hr Hl.
  by apply (expand_produces (S MAX_DEPTH) (expander_init (trim command)) command
    (expander_init_ok _)).
Qed.

(** ** Plain words

    Words without shell metacharacters pass through the tokenizer unchanged. *)

Definition is_special (c : N) : bool :=
  existsb (N.eqb c) [c_backslash; c_squote; c_dquote; c_dollar; c_backtick; c_lt; c_gt;
                     c_space; c_tab; c_lparen; c_rparen]
  || is_control_operator c.

Definition plain_word (w : list N) : Prop :=
  w <> [] /\ Forall (fun c => is_special c = false) w /\ is_brace_word w = false.

#[export] Instance plain_word_dec w : Decision (plain_word w).
Proof. unfold plain_word. apply _. Defined.

(** The words of [ws], each followed by one space. *)
Definition spaced (ws : list (list N)) : list N := ws ≫= (fun w => w ++ [c_space]).

Definition add_words (ws : list (list N)) (st : scan_state) : scan_state :=
  {| commands := commands st; words := words st ++ ws; word := []; started := false;
     nested := nested st |}.

Lemma scan_step_plain c rest st :
  is_special c = false -> scan_step c rest st = (push_text [c] st, rest).
Proof.
  intros H. unfold is_special in H. simpl in H. breakup. unfold scan_step.
  repeat match goal with E : (c =? _)%N = false |- _ => rewrite E; clear E end.
  by rewrite H0.
Qed.

Lemma push_text_app a b st : push_text b (push_text a st) = push_text (a ++ b) st.
Proof. unfold push_text. simpl. by rewrite (assoc_L (++)). Qed.

Lemma scan_plain w rest st :
  w <> [] -> Forall (fun c => is_special c = false) w ->
  scan_all (w ++ rest) st = scan_all rest (push_text w st).
Proof.
  intros Hne Hw. revert st. induction Hw as [|c w Hc Hw IH]; intros st; [done|].
  change ((c :: w) ++ rest) with (c :: (w ++ rest)).
  rewrite scan_all_cons, scan_step_plain by done. cbn [fst snd].
  destruct w as [|d w]; [done|]. rewrite IH by done. by rewrite push_text_app.
Qed.

Lemma scan_plain_end w st :
  w <> [] -> Forall (fun c => is_special c = false) w -> scan_all w st = push_text w st.
Proof. intros Hne Hw. pose proof (scan_plain w [] st Hne Hw) as H. by rewrite app_nil_r in H. Qed.

Lemma flush_push_text w st :
  flush_word (push_text w (add_words [] st)) = add_words [w] st.
Proof. unfold flush_word, push_text, add_words. simpl. by rewrite app_nil_r. Qed.

Lemma add_words_app a b st : add_words b (add_words a st) = add_words (a ++ b) st.
Proof. unfold add_words. simpl. by rewrite (assoc_L (++)). Qed.

Lemma scan_spaced ws rest st :
  Forall plain_word ws ->
  scan_all (spaced ws ++ rest) (add_words [] st) = scan_all rest (add_words ws st).
Proof.
  intros Hws. revert st. induction Hws as [|w ws (Hne & Hw & _) _ IH]; intros st; [done|].
  unfold spaced. rewrite bind_cons. fold (spaced ws). rewrite <-!(assoc_L (++)).
  rewrite scan_plain by done. change ([c_space] ++ ?x) with (c_space :: x).
  rewrite scan_all_cons. cbn [scan_step N.eqb Pos.eqb andb orb fst snd].
  rewrite flush_push_text. change (w :: ws) with ([w] ++ ws).
  rewrite <-(add_words_app [w] ws st), <-IH. by rewrite add_words_app, app_nil_r.
Qed.

Lemma scan_init_add : add_words [] scan_init = scan_init.
Proof. done. Qed.

Lemma str_join_spaced ws w : str_join [c_space] (ws ++ [w]) = spaced ws ++ w.
Proof.
  induction ws as [|v ws IH]; [done|]. unfold spaced. rewrite bind_cons. fold (spaced ws).
  rewrite <-(assoc_L (++)), <-IH, <-(assoc_L (++)). by destruct ws.
Qed.

Lemma filter_brace ws :
  Forall (fun w => is_brace_word w = false) ws ->
  List.filter (fun w => negb (is_brace_word w)) ws = ws.
Proof. induction 1 as [|w ws Hw _ IH]; simpl; [done|]. rewrite Hw. simpl. by rewrite IH. Qed.

Lemma end_command_words ws :
  ws <> [] -> Forall (fun w => is_brace_word w = false) ws ->
  commands (end_command (add_words ws scan_init)) = [ws].
Proof.
  intros Hne Hws. unfold end_command, add_words. cbn [commands words scan_init app].
  rewrite (filter_brace ws) by done. by destruct ws.
Qed.

Lemma tokenize_plain ws :
  ws <> [] -> Forall plain_word ws ->
  commands (tokenize (str_join [c_space] ws)) = [ws].
Proof.
  intros Hne Hws. destruct ws as [|w ws _] using rev_ind; [done|].
  apply Forall_app in Hws as Hws'. destruct Hws' as [Hinit Hlast].
  inversion Hlast as [|?? (Hw1 & Hw2 & Hw3) _]; subst.
  rewrite tokenize_alt, str_join_spaced, <-scan_init_add, scan_spaced by done.
  rewrite scan_plain_end by done.
  rewrite <-(app_nil_r ws) at 1. rewrite <-add_words_app, flush_push_text, add_words_app.
  apply end_command_words; [by destruct ws|]. eapply Forall_impl; [exact Hws|]. by intros ? (_ & _ & ?).
Qed.

Lemma plain_word_is_word w : plain_word w -> is_word w \/ exists c, c ∈ w /\ is_whitespace c = true.
Proof.
  intros (H & _ & _). destruct (existsb is_whitespace w) eqn:E; [right|left].
  - by apply existsb_elem_of in E.
  - split; [done|]. apply Forall_forall. intros c Hc.
    destruct (is_whitespace c) eqn:Ec; [|done].
    assert (existsb is_whitespace w = true) by (apply existsb_elem_of; eauto). congruence.
Qed.

Lemma command_line_plain ws : Forall plain_word ws -> command_line ws = str_join [c_space] ws.
Proof.
  intros H. unfold command_line. f_equal. induction H as [|w ws (Hw & _) _ IH]; [done|].
  destruct w; [done|]. simpl. by f_equal.
Qed.

Lemma str_join_nonempty ws : ws <> [] -> Forall plain_word ws -> str_join [c_space] ws <> [].
Proof.
  intros Hne H. destruct H as [|w ws (Hw & _) _]; [done|]. destruct w; [done|]. by destruct ws.
Qed.

Lemma runs_plain r ws :
  ws <> [] -> Forall plain_word ws -> runs (S r) (str_join [c_space] ws) (str_join [c_space] ws).
Proof.
  intros Hne Hws. eapply (runs_command r _ ws).
  - rewrite tokenize_plain by done. by apply list_elem_of_singleton.
  - left. by rewrite command_line_plain.
  - by apply str_join_nonempty.
Qed.

Lemma runs_stripped r pre ws :
  ws <> [] -> Forall plain_word (pre ++ ws) -> strip_leading_wrappers (pre ++ ws) = ws ->
  runs (S r) (str_join [c_space] (pre ++ ws)) (str_join [c_space] ws).
Proof.
  intros Hne Hws Hs. eapply (runs_command r _ (pre ++ ws)).
  - rewrite tokenize_plain; [by apply list_elem_of_singleton|by destruct pre|done].
  - right. rewrite Hs. apply Forall_app in Hws as [_ Hws]. by rewrite command_line_plain.
  - apply Forall_app in Hws as [_ Hws]. by apply str_join_nonempty.
Qed.

(** ** Quoted payloads and substitutions *)

Lemma read_squote_app t rest :
  Forall (fun c => c <> c_squote) t -> read_squote (t ++ c_squote :: rest) = (t, rest).
Proof.
  induction 1 as [|c t Hc _ IH]; [done|]. cbn [read_squote app].
  destruct (N.eqb_spec c c_squote); [done|]. by rewrite IH.
Qed.

Lemma tokenize_shell_c sh script :
  plain_word sh -> Forall (fun c => c <> c_squote) script -> is_brace_word script = false ->
  commands (tokenize (sh ++ lit " -c '" ++ script ++ lit "'")) = [[sh; lit "-c"; script]].
Proof.
  intros Hsh Hq Hb.
  assert (sh ++ lit " -c '" ++ script ++ lit "'"
    = spaced [sh; lit "-c"] ++ c_squote :: script ++ [c_squote]) as ->.
  { unfold spaced. rewrite !bind_cons. simpl. by rewrite <-!(assoc_L (++)). }
  assert (plain_word (lit "-c")) as Hc by (apply (bool_decide_unpack _); vm_compute; exact I).
  assert (Forall plain_word [sh; lit "-c"]) as Hw
    by (apply Forall_cons_2; [done|by apply Forall_singleton]).
  rewrite tokenize_alt, <-scan_init_add, scan_spaced by done.
  rewrite scan_all_cons. unfold scan_step. cbn [N.eqb Pos.eqb andb].
  rewrite read_squote_app by done. cbn [fst snd]. unfold scan_all. cbn [length scan].
  change (add_words [sh; lit "-c"] scan_init) with (add_words [] (add_words [sh; lit "-c"] scan_init)).
  rewrite flush_push_text, add_words_app. cbn [app].
  apply end_command_words; [done|].
  destruct Hsh as (_ & _ & Hsh), Hc as (_ & _ & Hc). by repeat constructor.
Qed.

Lemma payload_shell_c sh script :
  is_shell_name sh = true -> payload [sh; lit "-c"; script] = Some script.
Proof.
  intros H. unfold payload, find_wrapper_head. cbn [find_head_from MAX_HEAD_SCAN].
  rewrite H. cbn [orb lookup list_lookup default from_option id drop].
  unfold is_shell_name in H. apply bool_decide_eq_true in H.
  destruct (str_eqb _ _) eqn:E; [|done]. apply str_eqb_spec in E. rewrite E in H.
  exfalso. revert H. apply (bool_decide_unpack _). vm_compute. exact I.
Qed.

Lemma runs_shell_c r sh script c :
  plain_word sh -> is_shell_name sh = true ->
  Forall (fun c => c <> c_squote) script -> is_brace_word script = false ->
  runs r script c -> runs (S r) (sh ++ lit " -c '" ++ script ++ lit "'") c.
Proof.
  intros Hsh Hname Hq Hb Hr. eapply runs_payload; [|by apply (payload_shell_c sh)|exact Hr].
  rewrite tokenize_shell_c by done. by apply list_elem_of_singleton.
Qed.

Lemma read_delimited_app o k t rest :
  o <> k -> k <> c_backslash ->
  Forall (fun c => c <> o /\ c <> k /\ c <> c_backslash) t ->
  read_delimited o k 0 (t ++ k :: rest) = (t, rest).
Proof.
  intros Hok Hkb H. induction H as [|c t (H1 & H2 & H3) _ IH].
  - cbn [app]. destruct rest as [|d rest]; [simpl|rewrite read_delimited_eq];
      rewrite ?(proj2 (N.eqb_neq k o)), ?N.eqb_refl, ?(proj2 (N.eqb_neq k c_backslash)) by done;
      done.
  - cbn [app]. destruct (t ++ k :: rest) as [|d l] eqn:E; [by destruct t|].
    rewrite read_delimited_eq.
    rewrite (proj2 (N.eqb_neq c o)), (proj2 (N.eqb_neq c k)), (proj2 (N.eqb_neq c c_backslash))
      by done. by rewrite IH.
Qed.

Lemma read_backtick_app t rest :
  Forall (fun c => c <> c_backtick /\ c <> c_backslash) t ->
  read_backtick (t ++ c_backtick :: rest) = (t, rest).
Proof.
  induction 1 as [|c t (H1 & H2) _ IH].
  - cbn [app]. by destruct rest.
  - cbn [app]. destruct (t ++ c_backtick :: rest) as [|d l] eqn:E; [by destruct t|].
    rewrite read_backtick_eq.
    rewrite (proj2 (N.eqb_neq c c_backslash)), (proj2 (N.eqb_neq c c_backtick)) by done.
    by rewrite IH.
Qed.

Lemma flush_word_nested st : nested (flush_word st) = nested st.
Proof. unfold flush_word. by case_match. Qed.

Lemma scan_step_nested c rest st : nested st `prefix_of` nested (scan_step c rest st).1.
Proof.
  unfold scan_step. repeat case_match; cbn [fst nested push_text push_nested push_dquote end_command];
    rewrite ?flush_word_nested; try done; by apply prefix_app_r.
Qed.

Lemma scan_nested fuel cs st : nested st `prefix_of` nested (scan fuel cs st).
Proof.
  revert cs st. induction fuel as [|fuel IH]; intros cs st; [done|]. destruct cs as [|c cs]; [done|].
  cbn [scan]. pose proof (scan_step_nested c cs st) as H.
  destruct (scan_step c cs st) as [st' r]. etrans; [exact H|apply IH].
Qed.

Lemma nested_found pre c0 rest inner :
  Forall plain_word pre ->
  inner ∈ nested (scan_step c0 rest (add_words pre scan_init)).1 ->
  inner ∈ nested (tokenize (spaced pre ++ c0 :: rest)).
Proof.
  intros Hpre Hin. rewrite tokenize_alt. cbn [end_command nested]. rewrite flush_word_nested.
  rewrite <-scan_init_add, scan_spaced, scan_all_cons by done.
  destruct (scan_nested (length (scan_step c0 rest (add_words pre scan_init)).2)
    (scan_step c0 rest (add_words pre scan_init)).2
    (scan_step c0 rest (add_words pre scan_init)).1) as [k Hk].
  unfold scan_all. rewrite Hk. apply elem_of_app. by left.
Qed.

Lemma runs_substitution r pre inner rest c :
  Forall plain_word pre ->
  Forall (fun c => c <> c_lparen /\ c <> c_rparen /\ c <> c_backslash) inner ->
  runs r inner c -> runs (S r) (spaced pre ++ lit "$(" ++ inner ++ lit ")" ++ rest) c.
Proof.
  intros Hpre Hin Hr. eapply (runs_nested r _ inner); [|done]. apply nested_found; [done|].
  unfold scan_step. simpl. rewrite read_delimited_app by done. simpl.
  by apply list_elem_of_singleton.
Qed.

Lemma runs_backtick r pre inner rest c :
  Forall plain_word pre ->
  Forall (fun c => c <> c_backtick /\ c <> c_backslash) inner ->
  runs r inner c -> runs (S r) (spaced pre ++ lit "`" ++ inner ++ lit "`" ++ rest) c.
Proof.
  intros Hpre Hin Hr. eapply (runs_nested r _ inner); [|done]. apply nested_found; [done|].
  unfold scan_step. simpl. rewrite read_backtick_app by done. simpl.
  by apply list_elem_of_singleton.
Qed.

(** ** Properties *)

(** [expanded_commands] always returns a bounded, duplicate-free list of
    non-empty command lines, led by the trimmed input when that is not empty. *)
Theorem expanded_commands_bounded (command : list N) :
  length (expanded_commands command) <= MAX_COMMANDS
  /\ NoDup (expanded_commands command)
  /\ Forall (fun c => c <> []) (expanded_commands command)
  /\ (trim command = [] \/ head (expanded_commands command) = Some (trim command)).
Proof.
  destruct (expanded_commands_ok command) as [H1 _ H2 H3]. repeat split; try done.
  destruct (expand_produces (S MAX_DEPTH) (expander_init (trim command)) command
    (expander_init_ok _)) as (_ & [k Hk] & _).
  destruct (trim command) as [|c t] eqn:E; [by left|right].
  unfold expanded_commands. rewrite E, Hk. done.
Qed.


(** Wrapping does not hide a command from the specification: what a shell runs
    for [inner] it also runs when [inner] is the payload of `sh -c '...'`, of
    `$(...)` or of backticks, one nesting level deeper; and a wrapper prefix
    (`sudo`, `env X=1`, `timeout 5`) in front of plain words still runs them. *)
Theorem wrappers_are_transparent (r : nat) (sh inner c rest : list N) (pre ws : list (list N)) :
  plain_word sh -> is_shell_name sh = true ->
  Forall (fun x => is_special x = false \/ x = c_space) inner -> is_brace_word inner = false ->
  Forall plain_word (pre ++ ws) -> ws <> [] -> strip_leading_wrappers (pre ++ ws) = ws ->
  runs r inner c ->
  runs (S r) (sh ++ lit " -c '" ++ inner ++ lit "'") c
  /\ runs (S r) (spaced pre ++ lit "$(" ++ inner ++ lit ")" ++ rest) c
  /\ runs (S r) (spaced pre ++ lit "`" ++ inner ++ lit "`" ++ rest) c
  /\ runs (S r) (str_join [c_space] (pre ++ ws)) (str_join [c_space] ws).
Proof.
  intros Hsh Hn Hin Hb Hpw Hne Hst Hr.
  assert (Hnot : forall x, x <> c_space -> is_special x = true -> Forall (fun y => y <> x) inner).
  { intros x Hx1 Hx2. eapply Forall_impl; [exact Hin|]. intros y Hy Heq. destruct Hy; congruence. }
  assert (Forall plain_word pre) as Hpre by by apply Forall_app in Hpw as [? _].
  split; [|split; [|split]].
  - apply runs_shell_c; try done. by apply Hnot.
  - apply runs_substitution; try done.
    repeat (apply Forall_and; split); by apply Hnot.
  - apply runs_backtick; try done. apply Forall_and; split; by apply Hnot.
  - by apply runs_stripped.
Qed.

Lemma wrappers_are_transparent_witness :
  runs 2 (lit "/bin/bash -c 'rm -rf /'") (lit "rm -rf /")
  /\ runs 2 (lit "sudo timeout 5 $(rm -rf /) x") (lit "rm -rf /")
  /\ runs 2 (lit "sudo timeout 5 `rm -rf /` x") (lit "rm -rf /")
  /\ runs 2 (lit "sudo timeout 5 git push") (lit "git push").
Proof.
  refine (wrappers_are_transparent 1 (lit "/bin/bash") (lit "rm -rf /") (lit "rm -rf /") (lit " x")
    [lit "sudo"; lit "timeout"; lit "5"] [lit "git"; lit "push"] _ _ _ _ _ _ _ _);
    try (apply (bool_decide_unpack _); vm_compute; exact I); try (vm_compute; reflexivity).
  apply (runs_plain 0 [lit "rm"; lit "-rf"; lit "/"]); [done|].
  apply (bool_decide_unpack _); vm_compute; exact I.
Defined.

End ShellExpand.
