(* ===== verification/DenyMatch.v ===== *)
(** * Deny-rule matching (crates/execpolicy/src/lib.rs, [denied_prefix_matches])

    A denied prefix is matched against the positional tokens of a command line,
    skipping flags and leading environment assignments. The code explores
    (command index, rule index) pairs with an explicit stack and a visited set;
    this file models that search and proves it equivalent to an inductive
    description of the matches ([accepts]), from which the robustness of deny
    rules follows. *)

From stdpp Require Import base list option strings gmap.
From Stdlib Require Import Lia NArith.
From S2P Require Import Prelude RustStr.

Module DenyMatch.

(** ** The code *)

Definition is_path_sep (c : N) : bool := (c =? c_slash)%N || (c =? c_backslash)%N.

Definition command_word_matches (rule_token command_token : list N) : bool :=
  if str_eqb command_token rule_token then true
  else if contains_char c_slash rule_token || contains_char c_backslash rule_token then false
  else
    let basename := rsplit_next is_path_sep command_token in
    negb (str_is_empty basename) && str_eqb basename rule_token.

Definition is_env_assignment (token : list N) : bool :=
  match split_once c_eq token with
  | Some (name, _) =>
      negb (str_is_empty name) && negb (starts_with_char c_dash name)
      && forallb (fun ch => is_ascii_alphanumeric ch || (ch =? c_underscore)%N) name
  | None => false
  end.

(** [while let Some(rest) = token.strip_prefix("$(")]. *)
Fixpoint strip_dollar_parens (token : list N) : list N :=
  match token with
  | a :: ((b :: rest) as _tl) =>
      if (a =? c_dollar)%N && (b =? c_lparen)%N then strip_dollar_parens rest else token
  | _ => token
  end.

Definition is_opening (c : N) : bool := (c =? c_lparen)%N || (c =? c_lbrace)%N.
Definition is_closing (c : N) : bool := (c =? c_rparen)%N || (c =? c_rbrace)%N || (c =? c_semi)%N.

Definition sanitize_shell_wrappers (token : list N) : list N :=
  trim_end_matches is_closing (trim_start_matches is_opening (strip_dollar_parens token)).

Definition normalize_command (value : list N) : list N :=
  to_ascii_lowercase (str_join [c_space] (split_whitespace value)).

(** The token list both sides of the match are reduced to. *)
Definition deny_tokens (value : list N) : list (list N) :=
  List.filter (fun t => negb (str_is_empty t))
    (sanitize_shell_wrappers <$> split_whitespace (normalize_command value)).

Definition is_flag (t : list N) : bool := starts_with_char c_dash t.

(** The successors pushed for [(i, j)], the last pushed first. *)
Definition deny_successors (rule_tokens command_tokens : list (list N)) (i j : nat)
  : list (nat * nat) :=
  let token := default [] (command_tokens !! i) in
  let rule_token := default [] (rule_tokens !! j) in
  let matches_rule_token :=
    if j =? 0 then command_word_matches rule_token token else str_eqb token rule_token in
  (if is_flag token then
     (if negb (contains_char c_eq token) then [(i + 2, j)] else []) ++ [(i + 1, j)]
   else [])
  ++ (if matches_rule_token then [(i + 1, j + 1)] else []).

Fixpoint deny_search (rule_tokens command_tokens : list (list N)) (fuel : nat)
  (stack : list (nat * nat)) (seen : gset (nat * nat)) : bool :=
  match fuel, stack with
  | S fuel', (i, j) :: stack' =>
      if j =? length rule_tokens then true
      else if (length command_tokens <=? i) || bool_decide ((i, j) ∈ seen) then
        deny_search rule_tokens command_tokens fuel' stack' seen
      else
        deny_search rule_tokens command_tokens fuel'
          (deny_successors rule_tokens command_tokens i j ++ stack') ({[(i, j)]} ∪ seen)
  | _, _ => false
  end.

(** Each pair within bounds is expanded once and pushes at most three pairs. *)
Definition deny_fuel (rule_tokens command_tokens : list (list N)) : nat :=
  2 + 3 * (length command_tokens * length rule_tokens).

Definition denied_prefix_matches (rule command : list N) : bool :=
  let rule_tokens := deny_tokens rule in
  match rule_tokens with
  | [] => false
  | _ =>
      let command_tokens := deny_tokens command in
      let start :=
        default (length command_tokens)
          (position (fun t => negb (is_env_assignment t)) command_tokens) in
      deny_search rule_tokens command_tokens (deny_fuel rule_tokens command_tokens)
        [(start, 0)] ∅
  end.

(** ** Specification

    [accepts first rule cmd]: the rule tokens are found in order in the command
    tokens, where a flag may be skipped alone or, without an inline [=], with
    the token after it. The first rule token is matched as a command word. *)
Definition token_matches (first : bool) (r t : list N) : bool :=
  if first then command_word_matches r t else str_eqb t r.

Inductive accepts : bool -> list (list N) -> list (list N) -> Prop :=
| accepts_done first cmd : accepts first [] cmd
| accepts_token first r rule t cmd :
    token_matches first r t = true -> accepts false rule cmd -> accepts first (r :: rule) (t :: cmd)
| accepts_flag first rule t cmd :
    is_flag t = true -> accepts first rule cmd -> accepts first rule (t :: cmd)
| accepts_flag_value first rule t v cmd :
    is_flag t = true -> contains_char c_eq t = false -> accepts first rule cmd ->
    accepts first rule (t :: v :: cmd).

#[export] Hint Constructors accepts : ghosty.

Definition skip_env (cmd : list (list N)) : list (list N) := drop_while is_env_assignment cmd.

(** ** Correctness of the search *)

Lemma accepts_nil_r first r rule : ~ accepts first (r :: rule) [].
Proof. inversion 1. Qed.

Lemma accepts_cons_inv first r rule t cmd :
  accepts first (r :: rule) (t :: cmd) <->
    (token_matches first r t = true /\ accepts false rule cmd)
    \/ (is_flag t = true /\ accepts first (r :: rule) cmd)
    \/ (is_flag t = true /\ contains_char c_eq t = false /\ accepts first (r :: rule) (tl cmd)).
Proof.
  split.
  - inversion 1; subst; simpl; tauto.
  - intros [[]|[[]|(Hf & He & Ha)]]; eauto with ghosty.
    destruct cmd as [|v cmd]; [by apply accepts_nil_r in Ha|]. by apply accepts_flag_value.
Qed.

Section Search.
Context (rule cmd : list (list N)).

(** Acceptance from a pair of indices. *)
Definition accepts_at (p : nat * nat) : Prop :=
  accepts (p.2 =? 0) (drop p.2 rule) (drop p.1 cmd).

Lemma accepts_at_done i : accepts_at (i, length rule).
Proof. unfold accepts_at. simpl. rewrite drop_all. constructor. Qed.

Lemma accepts_at_step i j :
  j < length rule -> i < length cmd ->
  accepts_at (i, j) <-> exists q, q ∈ deny_successors rule cmd i j /\ accepts_at q.
Proof.
  intros Hj Hi. destruct (lookup_lt_is_Some_2 cmd i Hi) as [t Ht].
  destruct (lookup_lt_is_Some_2 rule j Hj) as [r Hr].
  unfold deny_successors, accepts_at. rewrite Ht, Hr. cbn [fst snd default from_option id].
  rewrite (drop_S_lookup cmd i t Ht), (drop_S_lookup rule j r Hr), accepts_cons_inv.
  rewrite <-(drop_S_lookup rule j r Hr), drop_tl.
  change (if j =? 0 then command_word_matches r t else str_eqb t r) with (token_matches (j =? 0) r t).
  replace (i + 1) with (S i) by lia. replace (j + 1) with (S j) by lia.
  replace (i + 2) with (S (S i)) by lia.
  destruct (token_matches (j =? 0) r t), (is_flag t), (contains_char c_eq t); cbn [app negb];
    rewrite ?exists_elem_cons, exists_elem_nil; cbn [fst snd]; simpl (S j =? 0); naive_solver.
Qed.

Lemma accepts_at_end i j : j < length rule -> length cmd <= i -> ~ accepts_at (i, j).
Proof.
  intros Hj Hi H. unfold accepts_at in H. cbn [fst snd] in H. rewrite (drop_ge cmd) in H by done.
  destruct (drop j rule) eqn:E; [|by apply accepts_nil_r in H].
  apply (f_equal length) in E. rewrite length_drop in E. simpl in E. lia.
Qed.

Lemma deny_successors_later i j q : q ∈ deny_successors rule cmd i j -> i < q.1.
Proof.
  unfold deny_successors. rewrite !elem_of_app. repeat case_match; set_unfold; naive_solver lia.
Qed.

Lemma deny_successors_bound i j q :
  j < length rule -> q ∈ deny_successors rule cmd i j -> q.2 <= length rule.
Proof.
  intros Hj. unfold deny_successors. rewrite !elem_of_app.
  repeat case_match; set_unfold; naive_solver lia.
Qed.

Lemma deny_successors_length i j : length (deny_successors rule cmd i j) <= 3.
Proof. unfold deny_successors. repeat case_match; simpl; lia. Qed.

(** The number of pairs that can still be expanded. *)
Definition remaining (seen : gset (nat * nat)) : nat :=
  length (filter (fun q => q ∉ seen) (list_prod (seq 0 (length cmd)) (seq 0 (length rule)))).

Lemma remaining_empty : remaining ∅ <= length cmd * length rule.
Proof.
  unfold remaining. etrans; [apply filter_length_le|]. by rewrite length_prod, !length_seq.
Qed.

Lemma remaining_insert i j seen :
  i < length cmd -> j < length rule -> (i, j) ∉ seen ->
  remaining ({[(i, j)]} ∪ seen) < remaining seen.
Proof.
  intros Hi Hj Hs. apply (filter_length_lt _ _ _ (i, j)); [set_solver| |done|set_solver].
  apply list_elem_of_In, in_prod; apply in_seq; lia.
Qed.

(** A pair that was expanded is accepted only if a later pair still on the
    stack is: the visited set loses no match. *)
Definition seen_covered (stack : list (nat * nat)) (seen : gset (nat * nat)) : Prop :=
  forall p, p ∈ seen -> accepts_at p -> exists q, q ∈ stack /\ accepts_at q /\ p.1 < q.1.

Lemma seen_covered_pop p stack seen :
  p ∈ seen -> seen_covered (p :: stack) seen -> seen_covered stack seen.
Proof.
  intros Hp H s Hs Ha. destruct (H s Hs Ha) as (q & Hq & Haq & Hlt).
  apply elem_of_cons in Hq as [->|Hq]; [|eauto].
  destruct (H p Hp Haq) as (q' & Hq' & Haq' & Hlt').
  apply elem_of_cons in Hq' as [->|Hq']; [lia|]. exists q'. split; [done|]. split; [done|lia].
Qed.

Lemma seen_covered_drop p stack seen :
  ~ accepts_at p -> seen_covered (p :: stack) seen -> seen_covered stack seen.
Proof.
  intros Hp H s Hs Ha. destruct (H s Hs Ha) as (q & Hq & Haq & Hlt).
  apply elem_of_cons in Hq as [->|Hq]; [done|eauto].
Qed.

Lemma seen_covered_expand i j stack seen :
  j < length rule -> i < length cmd ->
  seen_covered ((i, j) :: stack) seen ->
  seen_covered (deny_successors rule cmd i j ++ stack) ({[(i, j)]} ∪ seen).
Proof.
  intros Hj Hi H.
  assert (forall k, k <= i -> accepts_at (i, j) ->
    exists q, q ∈ deny_successors rule cmd i j ++ stack /\ accepts_at q /\ k < q.1) as Hstep.
  { intros k Hk (q & Hq & Ha)%accepts_at_step; [|done..]. exists q.
    split; [set_solver|]. split; [done|]. apply deny_successors_later in Hq. lia. }
  intros s Hs Ha. apply elem_of_union in Hs as [->%elem_of_singleton|Hs]; [by apply Hstep|].
  destruct (H s Hs Ha) as (q & Hq & Haq & Hlt).
  apply elem_of_cons in Hq as [->|Hq]; [apply Hstep; [simpl in *; lia|done]|].
  exists q. split; [set_solver|done].
Qed.

Lemma deny_search_correct fuel stack seen :
  Forall (fun p => p.2 <= length rule) stack -> seen_covered stack seen ->
  length stack + 3 * remaining seen < fuel ->
  deny_search rule cmd fuel stack seen = true <-> exists p, p ∈ stack /\ accepts_at p.
Proof.
  revert stack seen. induction fuel as [|fuel IH]; intros stack seen Hb Hc Hf; [lia|].
  destruct stack as [|[i j] stack]; cbn [deny_search].
  { split; [done|]. intros (p & Hp & _). by apply not_elem_of_nil in Hp. }
  apply Forall_cons in Hb as [Hj Hb]. cbn [snd] in Hj.
  destruct (Nat.eqb_spec j (length rule)) as [->|Hne].
  { split; [|done]. intros _. exists (i, length rule). split; [set_solver|apply accepts_at_done]. }
  assert (j < length rule) as Hj' by lia.
  destruct (Nat.leb_spec (length cmd) i) as [Hi|Hi]; cbn [orb].
  { assert (~ accepts_at (i, j)) as Hno by by apply accepts_at_end.
    rewrite IH; [|done|by eapply seen_covered_drop|simpl in *; lia].
    set_unfold. naive_solver. }
  case_bool_decide as Hs.
  - rewrite IH; [|done|by eapply seen_covered_pop|simpl in *; lia]. split; [set_solver|].
    intros (p & [->|Hp]%elem_of_cons & Ha); [|eauto].
    destruct (seen_covered_pop _ _ _ Hs Hc _ Hs Ha) as (q & Hq & Haq & _). eauto.
  - pose proof (remaining_insert i j seen Hi Hj' Hs) as Hr.
    pose proof (deny_successors_length i j) as Hl.
    rewrite IH; [| |by apply seen_covered_expand|rewrite length_app; simpl in *; lia].
    + setoid_rewrite elem_of_app. setoid_rewrite elem_of_cons. split.
      * intros (q & [Hq|Hq] & Ha); [|eauto]. exists (i, j). split; [by left|].
        apply accepts_at_step; eauto.
      * intros (q & [->|Hq] & Ha); [|eauto]. apply accepts_at_step in Ha as (q & ? & ?); eauto.
    + apply Forall_app. split; [|done]. apply Forall_forall. intros q Hq.
      by eapply deny_successors_bound.
Qed.

End Search.

Lemma drop_position {A} (q : A -> bool) (l : list A) :
  drop (default (length l) (position (fun x => negb (q x)) l)) l = drop_while q l.
Proof.
  induction l as [|x l IH]; [done|]. simpl. destruct (q x); simpl; [|done].
  destruct (position _ l); simpl in *; done.
Qed.

Lemma denied_prefix_matches_alt rule command :
  denied_prefix_matches rule command = true <->
    deny_tokens rule <> [] /\ accepts true (deny_tokens rule) (skip_env (deny_tokens command)).
Proof.
  unfold denied_prefix_matches, skip_env. destruct (deny_tokens rule) as [|r rs] eqn:Er.
  { split; [done|by intros []]. }
  rewrite <-Er. set (start := default _ _).
  pose proof (remaining_empty (deny_tokens rule) (deny_tokens command)) as Hr.
  rewrite (deny_search_correct (deny_tokens rule) (deny_tokens command)).
  - rewrite exists_elem_cons, exists_elem_nil. unfold accepts_at. cbn [fst snd].
    unfold start. rewrite drop_position, drop_0. simpl (0 =? 0). rewrite Er. naive_solver.
  - constructor; [simpl; lia|constructor].
  - intros p Hp. set_solver.
  - unfold deny_fuel. simpl length. lia.
Qed.

(** ** Tokens of a word list *)

Definition clean_tokens (ws : list (list N)) : list (list N) :=
  List.filter (fun t => negb (str_is_empty t))
    ((fun w => sanitize_shell_wrappers (to_ascii_lowercase w)) <$> ws).

Lemma clean_tokens_app a b : clean_tokens (a ++ b) = clean_tokens a ++ clean_tokens b.
Proof. unfold clean_tokens. by rewrite fmap_app, List.filter_app. Qed.

Lemma deny_tokens_join ws :
  Forall is_word ws -> deny_tokens (str_join [c_space] ws) = clean_tokens ws.
Proof.
  intros H. unfold deny_tokens, clean_tokens, normalize_command.
  rewrite split_whitespace_lower, split_whitespace_join.
  - rewrite split_whitespace_join by done. by rewrite <-list_fmap_compose.
  - by rewrite split_whitespace_join.
Qed.

(** Deny tokens of any text are the clean tokens of its words. *)
Lemma deny_tokens_words value : deny_tokens value = clean_tokens (split_whitespace value).
Proof.
  unfold deny_tokens, clean_tokens, normalize_command.
  rewrite split_whitespace_lower, split_whitespace_join by apply split_whitespace_is_word.
  by rewrite <-list_fmap_compose.
Qed.

(** ** Insertions *)

Lemma accepts_insert_flag first rule a b f :
  is_flag f = true -> contains_char c_eq f = false ->
  accepts first rule (a ++ b) -> accepts first rule (a ++ f :: b).
Proof.
  intros Hf He H. remember (a ++ b) as cmd eqn:E. revert a b E.
  induction H as [|? r rule t cmd Hm H IH|? rule t cmd Ht H IH|? rule t v cmd Ht Hte H IH];
    intros a b E; [constructor|..].
  all: destruct a as [|x a]; simpl in *; [subst b; apply accepts_flag; [done|]; eauto with ghosty|].
  all: injection E as <- E.
  - apply accepts_token; eauto.
  - apply accepts_flag; eauto.
  - destruct a as [|y a]; simpl in *.
    + subst b. apply accepts_flag; [done|]. by apply accepts_flag_value.
    + injection E as <- E. apply accepts_flag_value; eauto.
Qed.

Lemma accepts_append first rule cmd extra :
  accepts first rule cmd -> accepts first rule (cmd ++ extra).
Proof. induction 1; simpl; eauto with ghosty. Qed.

Lemma skip_env_app_keep a b t :
  t ∈ a -> is_env_assignment t = false -> skip_env (a ++ b) = skip_env a ++ b.
Proof. intros. by eapply drop_while_app_keep. Qed.

Lemma skip_env_nonempty cmd : skip_env cmd <> [] -> exists t, t ∈ cmd /\ is_env_assignment t = false.
Proof.
  intros H. unfold skip_env in H. destruct (drop_while _ cmd) as [|t l] eqn:E; [done|].
  exists t. split; [|by eapply drop_while_head].
  rewrite <-(take_drop_while is_env_assignment cmd), E. set_solver.
Qed.

Lemma trim_end_elem_of (q : N -> bool) s c : c ∈ trim_end_matches q s -> c ∈ s.
Proof. destruct (trim_end_matches_prefix q s) as (k & E & _). rewrite E at 2. set_solver. Qed.

Lemma drop_while_app_keep_last (q : N -> bool) l x :
  q x = false -> drop_while q (l ++ [x]) = drop_while q l ++ [x].
Proof.
  intros Hx. induction l as [|y l IH]; simpl; [by rewrite Hx|]. by destruct (q y).
Qed.

(** A flag token stays a flag when it is sanitised. *)
Lemma clean_tokens_flag f :
  is_flag f = true -> contains_char c_eq f = false ->
  exists f', clean_tokens [f] = [f'] /\ is_flag f' = true /\ contains_char c_eq f' = false.
Proof.
  destruct f as [|c f]; [done|]. intros Hc%N.eqb_eq He. simpl in Hc. subst c.
  set (f' := trim_end_matches is_closing (to_ascii_lowercase (c_dash :: f))).
  assert (sanitize_shell_wrappers (to_ascii_lowercase (c_dash :: f)) = f') as E.
  { unfold sanitize_shell_wrappers. by destruct f. }
  assert (exists g, f' = c_dash :: g) as [g Eg].
  { unfold f', trim_end_matches. unfold to_ascii_lowercase. rewrite fmap_cons, reverse_cons.
    rewrite (drop_while_app_keep_last is_closing) by done. rewrite reverse_app. simpl. eauto. }
  exists f'. unfold clean_tokens. cbn [fmap list_fmap]. rewrite E, Eg. split; [done|]. split; [done|].
  rewrite <-Eg. destruct (contains_char c_eq f') eqn:Ef; [|done].
  apply contains_char_spec, trim_end_elem_of, elem_of_lower, contains_char_spec in Ef; [|done].
  congruence.
Qed.

(** ** Command words spelled as paths *)

(** Characters that sanitising, assignments and splitting leave alone. *)
Definition inert (c : N) : bool :=
  negb (is_opening c || is_closing c || (c =? c_dollar)%N || (c =? c_eq)%N || is_whitespace c).

Lemma inert_lower c : inert c = true -> inert (char_to_ascii_lowercase c) = true.
Proof.
  unfold char_to_ascii_lowercase. destruct (is_ascii_uppercase c) eqn:E; [|done]. intros _.
  apply andb_true_iff in E as [E1%N.leb_le E2%N.leb_le].
  unfold inert, is_opening, is_closing, is_whitespace, between.
  repeat match goal with
  | |- context [(?a =? ?b)%N] => destruct (N.eqb_spec a b); try lia
  | |- context [(?a <=? ?b)%N] => destruct (N.leb_spec a b); try lia
  end; done.
Qed.

Lemma inert_sanitize s :
  Forall (fun c => inert c = true) s -> sanitize_shell_wrappers s = s.
Proof.
  intros H.
  assert (Hop : forall c, c ∈ s -> is_opening c = false /\ is_closing c = false
                          /\ (c =? c_dollar)%N = false).
  { intros c Hc. rewrite Forall_forall in H. specialize (H c Hc). unfold inert in H. breakup. tauto. }
  unfold sanitize_shell_wrappers.
  assert (strip_dollar_parens s = s) as ->.
  { destruct s as [|a [|b s]]; [done..|]. cbn [strip_dollar_parens].
    destruct (Hop a) as (_ & _ & ->); [set_solver|done]. }
  unfold trim_start_matches, trim_end_matches.
  rewrite (drop_while_none is_opening), (drop_while_none is_closing).
  - by rewrite reverse_involutive.
  - apply Forall_reverse, Forall_forall. intros c Hc. by apply Hop.
  - apply Forall_forall. intros c Hc. by apply Hop.
Qed.

Lemma clean_tokens_inert w ws :
  w <> [] -> Forall (fun c => inert c = true) w ->
  clean_tokens (w :: ws) = to_ascii_lowercase w :: clean_tokens ws.
Proof.
  intros Hne Hw. unfold clean_tokens. cbn [fmap list_fmap].
  rewrite inert_sanitize.
  - by destruct w.
  - unfold to_ascii_lowercase. apply Forall_fmap. eapply Forall_impl; [exact Hw|].
    intros c Hc. by apply inert_lower.
Qed.

Lemma inert_not_env w :
  Forall (fun c => inert c = true) w -> is_env_assignment (to_ascii_lowercase w) = false.
Proof.
  intros H. unfold is_env_assignment. rewrite split_once_none; [done|].
  intros Hin%elem_of_lower; [|done]. rewrite Forall_forall in H. specialize (H _ Hin). discriminate H.
Qed.

Lemma rsplit_next_bare s : Forall (fun c => is_path_sep c = false) s -> rsplit_next is_path_sep s = s.
Proof.
  intros H. unfold rsplit_next. rewrite <-(reverse_involutive s) at 2. f_equal.
  apply Forall_reverse in H. revert H. generalize (reverse s). intros l Hl.
  induction Hl as [|c l Hc _ IH]; simpl; [done|]. rewrite Hc. simpl. by rewrite IH.
Qed.

Lemma take_while_app_all {A} (q : A -> bool) l x k :
  Forall (fun y => q y = true) l -> q x = false -> take_while q (l ++ x :: k) = l.
Proof. intros Hl Hx. induction Hl as [|y l Hy _ IH]; simpl; [by rewrite Hx|]. by rewrite Hy, IH. Qed.

Lemma rsplit_next_path dir s :
  Forall (fun c => is_path_sep c = false) s -> rsplit_next is_path_sep (dir ++ c_slash :: s) = s.
Proof.
  intros H. unfold rsplit_next. rewrite reverse_app, reverse_cons, <-(assoc_L (++)).
  simpl ([c_slash] ++ _). rewrite take_while_app_all; [by rewrite reverse_involutive| |done].
  apply Forall_reverse. eapply Forall_impl; [exact H|]. simpl. by intros c ->.
Qed.

Lemma bare_no_sep r : Forall (fun c => is_path_sep c = false) r ->
  contains_char c_slash r || contains_char c_backslash r = false.
Proof.
  intros H. apply orb_false_iff. rewrite Forall_forall in H.
  split; apply not_true_iff_false; intros Hin%contains_char_spec;
    specialize (H _ Hin); discriminate H.
Qed.

Lemma command_word_matches_bare r w :
  Forall (fun c => is_path_sep c = false) w -> command_word_matches r w = true -> r = w.
Proof.
  intros Hw. unfold command_word_matches. rewrite rsplit_next_bare by done.
  destruct (str_eqb w r) eqn:E; [by apply str_eqb_spec in E|]. case_match; [done|].
  rewrite andb_false_r. done.
Qed.

Lemma command_word_matches_path dir w :
  w <> [] -> Forall (fun c => is_path_sep c = false) w ->
  command_word_matches w (dir ++ c_slash :: w) = true.
Proof.
  intros Hne Hw. unfold command_word_matches.
  destruct (str_eqb (dir ++ c_slash :: w) w); [done|].
  rewrite bare_no_sep, rsplit_next_path by done. rewrite (proj2 (str_eqb_spec w w)) by done.
  by destruct w.
Qed.

Lemma path_sep_lower c : is_path_sep c = false -> is_path_sep (char_to_ascii_lowercase c) = false.
Proof.
  intros H. apply not_true_iff_false. intros Hs. apply orb_true_iff in Hs.
  destruct Hs as [E%N.eqb_eq|E%N.eqb_eq]; apply lower_preserves in E; [|done|..|done]; subst; done.
Qed.

(** ** Properties *)

(** C4: [denied_prefix_matches] terminates and decides exactly the relation [accepts]:
    the stack search with its visited set finds a match if and only if the rule's
    tokens occur in order among the command's tokens after its leading environment
    assignments, flags being skippable alone or with a separate value. *)
Theorem denied_prefix_matches_spec (rule command : list N) :
  denied_prefix_matches rule command = true <->
    deny_tokens rule <> [] /\ accepts true (deny_tokens rule) (skip_env (deny_tokens command)).
Proof. apply denied_prefix_matches_alt. Qed.

(** No deny rule is evaded by extra words: when a rule matches a command made
    of the words [a ++ b], it still matches after any argument words are appended,
    and after a flag without an inline value is inserted anywhere behind the
    command word. *)
Theorem extra_words_do_not_evade_deny (rule f : list N) (a b extra : list (list N)) (t : list N) :
  Forall is_word (a ++ f :: b ++ extra) ->
  is_flag f = true -> contains_char c_eq f = false ->
  t ∈ clean_tokens a -> is_env_assignment t = false ->
  denied_prefix_matches rule (str_join [c_space] (a ++ b)) = true ->
  denied_prefix_matches rule (str_join [c_space] (a ++ f :: b ++ extra)) = true.
Proof.
  intros Hw Hf He Ht Hte. rewrite !denied_prefix_matches_alt. intros [Hne Ha]. split; [done|].
  rewrite Forall_app, Forall_cons, Forall_app in Hw. destruct Hw as (Hwa & Hwf & Hwb & Hwx).
  rewrite deny_tokens_join in Ha by by apply Forall_app.
  rewrite deny_tokens_join by (apply Forall_app; split; [|constructor; [|apply Forall_app]]; done).
  change (a ++ f :: b ++ extra) with (a ++ [f] ++ b ++ extra). rewrite !clean_tokens_app in *.
  rewrite (skip_env_app_keep _ _ t Ht Hte) in Ha. rewrite (skip_env_app_keep _ _ t Ht Hte).
  destruct (clean_tokens_flag f Hf He) as (f' & -> & Hf' & He').
  change ([f'] ++ ?x) with (f' :: x). apply accepts_insert_flag; [done|done|].
  rewrite (assoc_L (++) (skip_env (clean_tokens a))). by apply accepts_append.
Qed.

Lemma extra_words_do_not_evade_deny_witness :
  denied_prefix_matches (lit "git push") (lit "FOO=1 git --no-verify push origin") = true.
Proof.
  refine (extra_words_do_not_evade_deny (lit "git push") (lit "--no-verify")
    [lit "FOO=1"; lit "git"] [lit "push"] [lit "origin"] (lit "git") _ _ _ _ _ _);
    try (vm_compute; reflexivity); apply (bool_decide_unpack _); vm_compute; exact I.
Defined.

(** No deny rule is evaded by spelling the command word as a path: a rule that
    matches `w args` also matches `dir/w args`, for every directory prefix. *)
Theorem path_spelling_does_not_evade_deny (rule dir w : list N) (ws : list (list N)) :
  w <> [] -> Forall is_word ws ->
  Forall (fun c => inert c = true) (dir ++ w) -> Forall (fun c => is_path_sep c = false) w ->
  is_flag w = false ->
  denied_prefix_matches rule (str_join [c_space] (w :: ws)) = true ->
  denied_prefix_matches rule (str_join [c_space] ((dir ++ c_slash :: w) :: ws)) = true.
Proof.
  intros Hne Hws Hin Hbare Hnf. apply Forall_app in Hin as [Hdir Hw].
  assert (Hpath : Forall (fun c => inert c = true) (dir ++ c_slash :: w)).
  { apply Forall_app. split; [done|]. by constructor. }
  assert (Hword : forall s, s <> [] -> Forall (fun c => inert c = true) s -> is_word s).
  { intros s Hs Hi. split; [done|]. eapply Forall_impl; [exact Hi|]. unfold inert.
    intros c Hc. breakup. done. }
  rewrite !denied_prefix_matches_alt. intros [Hr Ha]. split; [done|].
  assert (dir ++ c_slash :: w <> []) as Hpne by by destruct dir.
  rewrite deny_tokens_join in Ha by (constructor; [by apply Hword|done]).
  rewrite deny_tokens_join by (constructor; [by apply Hword|done]).
  rewrite clean_tokens_inert in Ha |- * by done.
  unfold skip_env in *. cbn [drop_while] in *. rewrite inert_not_env in Ha |- * by done.
  destruct (deny_tokens rule) as [|r rs]; [done|].
  assert (is_flag (to_ascii_lowercase w) = false) as Hnf'.
  { destruct w as [|c w]; [done|]. unfold is_flag in *. simpl in *. apply N.eqb_neq in Hnf.
    apply N.eqb_neq. intros E%lower_preserves; done. }
  apply accepts_cons_inv in Ha. rewrite Hnf' in Ha.
  destruct Ha as [[Hm Ha]|[[? _]|[? _]]]; [|done..]. apply accepts_token; [|done].
  assert (Forall (fun c => is_path_sep c = false) (to_ascii_lowercase w)) as Hbl.
  { apply Forall_fmap. eapply Forall_impl; [exact Hbare|]. intros c. apply path_sep_lower. }
  apply command_word_matches_bare in Hm; [|done]. subst r. cbn [token_matches].
  unfold to_ascii_lowercase at 2. rewrite fmap_app, fmap_cons.
  apply command_word_matches_path; [by destruct w|done].
Qed.

Lemma path_spelling_does_not_evade_deny_witness :
  denied_prefix_matches (lit "rm -rf /") (lit "../bin/rm -rf /") = true.
Proof.
  refine (path_spelling_does_not_evade_deny (lit "rm -rf /") (lit "../bin") (lit "rm")
    [lit "-rf"; lit "/"] _ _ _ _ _ _);
    try (vm_compute; reflexivity); apply (bool_decide_unpack _); vm_compute; exact I.
Defined.

(** A deny rule is anchored at the command word: when the first token of a command
    after its environment assignments is not a flag, a matching rule's first token is
    that token or its basename, so `rm` blocks neither `rmdir` nor `echo rm`. *)
Theorem deny_is_anchored (rule command t : list N) (cmd : list (list N)) :
  skip_env (deny_tokens command) = t :: cmd -> is_flag t = false ->
  denied_prefix_matches rule command = true ->
  exists r rs, deny_tokens rule = r :: rs
    /\ (t = r \/ (rsplit_next is_path_sep t = r /\ contains_char c_slash r = false)).
Proof.
  intros Hc Hf [Hr Ha]%denied_prefix_matches_alt. rewrite Hc in Ha.
  destruct (deny_tokens rule) as [|r rs]; [done|]. exists r, rs. split; [done|].
  apply accepts_cons_inv in Ha. rewrite Hf in Ha. destruct Ha as [[Hm _]|[[? _]|[? _]]]; [|done..].
  cbn [token_matches] in Hm. unfold command_word_matches in Hm.
  destruct (str_eqb t r) eqn:E; [left; by apply str_eqb_spec|right].
  destruct (contains_char c_slash r) eqn:Es; [done|]. cbn [orb] in Hm.
  destruct (contains_char c_backslash r); [done|]. breakup. split; [|done]. by apply str_eqb_spec.
Qed.

Lemma deny_is_anchored_witness :
  (exists r rs, deny_tokens (lit "rm") = r :: rs
     /\ (lit "/bin/rm" = r \/ (rsplit_next is_path_sep (lit "/bin/rm") = r
                               /\ contains_char c_slash r = false)))
  /\ denied_prefix_matches (lit "rm") (lit "rmdir x") = false
  /\ denied_prefix_matches (lit "rm") (lit "echo rm") = false.
Proof.
  split; [|split; vm_compute; reflexivity].
  refine (deny_is_anchored (lit "rm") (lit "A=1 /bin/rm x") (lit "/bin/rm") [lit "x"] _ _ _);
    vm_compute; reflexivity.
Defined.

End DenyMatch.
