(* ===== verification/PathScope.v ===== *)
(** * Workspace-relative paths and workspace scopes (crates/execpolicy/src/lib.rs)

    The lexical path normalisation shared by typed-rule matching and rule
    persistence. The compile-time constant
    [platform_paths_are_case_insensitive] is the argument [case_insensitive]. *)

From stdpp Require Import base list option strings gmap.
From Stdlib Require Import Lia NArith.
From S2P Require Import Prelude RustStr.

Module PathScope.

Record PathForMatching : Type := {
  root : option (list N);
  components : list (list N)
}.

Definition is_windows_absolute_path (value : list N) : bool :=
  match value with
  | a :: b :: c :: _ => is_ascii_alphabetic a && (b =? c_colon)%N && (c =? c_slash)%N
  | _ => false
  end.

Definition has_windows_drive_prefix (value : list N) : bool :=
  match value with
  | a :: b :: _ => is_ascii_alphabetic a && (b =? c_colon)%N
  | _ => false
  end.

(** The loop over [components.split('/')]: empty and [.] components are
    dropped, a [..] component rejects the path. *)
Fixpoint normalized_components (parts : list (list N)) : option (list (list N)) :=
  match parts with
  | [] => Some []
  | component :: rest =>
      if str_is_empty component || str_eqb component (lit ".") then normalized_components rest
      else if str_eqb component (lit "..") then None
      else match normalized_components rest with
           | Some l => Some (component :: l)
           | None => None
           end
  end.

(** [value.trim().replace('\\', "/")]. *)
Definition slashed (value : list N) : list N :=
  replace_chars (N.eqb c_backslash) [c_slash] (trim value).

Definition fold_case (case_insensitive : bool) (value : list N) : list N :=
  if case_insensitive then to_ascii_lowercase value
  else if has_windows_drive_prefix value then
    to_ascii_lowercase (take 1 value) ++ drop 1 value
  else value.

Definition parse_path_for_matching_with_case (value : list N) (case_insensitive : bool)
  : option PathForMatching :=
  let value := fold_case case_insensitive (slashed value) in
  if str_is_empty value then None
  else
    let finish (root : option (list N)) (rest : list N) :=
      match normalized_components (split_char c_slash rest) with
      | Some l => Some {| root := root; components := l |}
      | None => None
      end in
    match strip_prefix [c_slash] value with
    | Some path => finish (Some (lit "/")) path
    | None =>
        if is_windows_absolute_path value then finish (Some (take 2 value)) (drop 3 value)
        else if has_windows_drive_prefix value then None
        else finish None value
    end.

(** [slice::strip_prefix]. *)
Fixpoint strip_components (prefix l : list (list N)) : option (list (list N)) :=
  match prefix, l with
  | [], _ => Some l
  | a :: prefix', b :: l' => if str_eqb a b then strip_components prefix' l' else None
  | _ :: _, [] => None
  end.

Definition normalize_workspace_relative_path_with_case
  (value workspace_root : list N) (case_insensitive : bool) : option (list N) :=
  match parse_path_for_matching_with_case value case_insensitive,
        parse_path_for_matching_with_case workspace_root case_insensitive with
  | Some path, Some workspace =>
      match root workspace with
      | None => None
      | Some workspace_root =>
          match root path with
          | Some path_root =>
              if negb (str_eqb path_root workspace_root) then None
              else match strip_components (components workspace) (components path) with
                   | Some rel => Some (str_join [c_slash] rel)
                   | None => None
                   end
          | None => Some (str_join [c_slash] (components path))
          end
      end
  | _, _ => None
  end.

Definition normalize_workspace_scope (value : list N) : option (list N) :=
  let value := slashed value in
  if str_is_empty value then None
  else
    let finish (root rest : list N) :=
      match normalized_components (split_char c_slash rest) with
      | Some ((_ :: _) as l) =>
          let separator := if str_eqb root (lit "/") then [] else lit "/" in
          Some (root ++ separator ++ str_join [c_slash] l)
      | _ => None
      end in
    match strip_prefix [c_slash] value with
    | Some path => finish (lit "/") path
    | None =>
        if is_windows_absolute_path value then
          let value := to_ascii_lowercase value in finish (take 2 value) (drop 3 value)
        else None
    end.

Definition workspace_scope_matches (rule_workspace cwd : list N) : bool :=
  match normalize_workspace_scope rule_workspace, normalize_workspace_scope cwd with
  | Some a, Some b => str_eqb a b
  | _, _ => false
  end.

(** ** Lemmas *)

(** A component that survives normalisation. *)
Definition clean_component (c : list N) : Prop :=
  c <> [] /\ c <> lit "." /\ c <> lit ".." /\ c_slash ∉ c.

Definition traversal (value : list N) : Prop := lit ".." ∈ split_char c_slash (slashed value).

Lemma normalized_components_app a b :
  normalized_components (a ++ b) =
    match normalized_components a, normalized_components b with
    | Some x, Some y => Some (x ++ y)
    | _, _ => None
    end.
Proof.
  induction a as [|c a IH]; cbn [normalized_components app];
    [by destruct (normalized_components b)|].
  destruct (str_is_empty c || str_eqb c (lit ".")); [done|].
  destruct (str_eqb c (lit "..")); [done|]. rewrite IH.
  destruct (normalized_components a), (normalized_components b); done.
Qed.

Lemma normalized_components_clean parts l :
  Forall (fun w => c_slash ∉ w) parts -> normalized_components parts = Some l ->
  Forall clean_component l.
Proof.
  intros H. revert l. induction H as [|c parts Hc _ IH]; intros l; cbn [normalized_components];
    [by intros [= <-]|].
  destruct (str_is_empty c || str_eqb c (lit ".")) eqn:E1; [apply IH|].
  destruct (str_eqb c (lit "..")) eqn:E2; [done|].
  destruct (normalized_components parts) as [l'|]; [|done]. intros [= <-]. constructor; [|by apply IH].
  apply orb_false_iff in E1 as [E0 E1]. unfold str_eqb in *. breakup.
  split; [by destruct c|]. split; [done|]. done.
Qed.

Lemma normalized_components_id l : Forall clean_component l -> normalized_components l = Some l.
Proof.
  induction 1 as [|c l (H1 & H2 & H3 & _) _ IH]; [done|]. cbn [normalized_components]. unfold str_eqb.
  rewrite !bool_decide_eq_false_2, IH by done. by destruct c.
Qed.

Lemma normalized_components_traversal parts :
  lit ".." ∈ parts -> normalized_components parts = None.
Proof.
  induction parts as [|c parts IH]; [by intros ?%not_elem_of_nil|].
  intros [<-|Hin]%elem_of_cons; simpl; [done|]. rewrite IH by done. by repeat case_match.
Qed.

Lemma strip_components_spec p l r : strip_components p l = Some r <-> l = p ++ r.
Proof.
  revert l. induction p as [|a p IH]; intros l; simpl; [split; [by intros [= ->]|by intros ->]|].
  destruct l as [|b l]; [done|]. destruct (str_eqb a b) eqn:E.
  - apply str_eqb_spec in E as ->. rewrite IH. split; [by intros ->|by intros [= ->]].
  - split; [done|]. intros [= -> ->]. by rewrite (proj2 (str_eqb_spec a a)) in E.
Qed.

Lemma parse_components_clean value ci p :
  parse_path_for_matching_with_case value ci = Some p -> Forall clean_component (components p).
Proof.
  unfold parse_path_for_matching_with_case. intros H.
  repeat case_match; simplify_eq; simpl;
    (eapply normalized_components_clean; [apply split_char_no_sep|eassumption]).
Qed.

Lemma Forall_clean_strip p l r :
  Forall clean_component l -> strip_components p l = Some r -> Forall clean_component r.
Proof. intros H ->%strip_components_spec. by apply Forall_app in H as [_ ?]. Qed.

Lemma normalize_relative_components value ws ci r :
  normalize_workspace_relative_path_with_case value ws ci = Some r ->
  exists l, Forall clean_component l /\ r = str_join [c_slash] l.
Proof.
  unfold normalize_workspace_relative_path_with_case. intros H.
  destruct (parse_path_for_matching_with_case value ci) as [p|] eqn:Ep; [|done].
  apply parse_components_clean in Ep.
  repeat case_match; simplify_eq; eexists; (split; [|reflexivity]);
    [by eapply Forall_clean_strip|done].
Qed.

Lemma lower_eq_iff c d :
  is_ascii_alphabetic d = false -> (char_to_ascii_lowercase c =? d)%N = (c =? d)%N.
Proof.
  intros Hd. unfold char_to_ascii_lowercase. destruct (is_ascii_uppercase c) eqn:E; [|done].
  unfold is_ascii_alphabetic, is_ascii_uppercase, between in *.
  apply andb_true_iff in E as [E1%N.leb_le E2%N.leb_le].
  apply orb_false_iff in Hd as [Hd1 Hd2]. rewrite andb_false_iff, !N.leb_gt in Hd1, Hd2.
  destruct (N.eqb_spec (c + 32) d), (N.eqb_spec c d); try done; lia.
Qed.

Lemma split_char_lower c s :
  is_ascii_alphabetic c = false ->
  split_char c (to_ascii_lowercase s) = to_ascii_lowercase <$> split_char c s.
Proof.
  intros Hc. unfold to_ascii_lowercase. induction s as [|d s IH]; [done|].
  rewrite fmap_cons. cbn [split_char]. rewrite lower_eq_iff, IH by done.
  destruct (d =? c)%N; [done|]. by destruct (split_char c s).
Qed.

Lemma fold_case_traversal ci value :
  lit ".." ∈ split_char c_slash value -> lit ".." ∈ split_char c_slash (fold_case ci value).
Proof.
  unfold fold_case. destruct ci.
  - intros H. rewrite split_char_lower by done. apply list_elem_of_fmap. by exists (lit "..").
  - destruct (has_windows_drive_prefix value) eqn:E; [|done].
    destruct value as [|a [|b value]]; [done..|]. simpl in E. apply andb_true_iff in E as [Ea Eb].
    apply N.eqb_eq in Eb as ->. cbn [take drop app to_ascii_lowercase fmap list_fmap].
    assert (Hs : forall x, (x =? c_slash)%N = false -> split_char c_slash (x :: c_colon :: value)
      = (x :: hd [] (split_char c_slash (c_colon :: value))) :: tl (split_char c_slash (c_colon :: value))).
    { intros x Hx. cbn [split_char]. rewrite Hx. cbn [N.eqb Pos.eqb].
      by destruct (split_char c_slash value). }
    assert ((a =? c_slash)%N = false) as Ha by (by destruct (N.eqb_spec a c_slash) as [->|]).
    rewrite !Hs by (rewrite ?lower_eq_iff; done).
    intros [Hd|Hin]%elem_of_cons; apply elem_of_cons; [|by right].
    injection Hd as <- _. done.
Qed.

Lemma parse_traversal value ci :
  traversal value -> parse_path_for_matching_with_case value ci = None.
Proof.
  unfold traversal. intros H%(fold_case_traversal ci). unfold parse_path_for_matching_with_case.
  generalize dependent (fold_case ci (slashed value)). intros v H.
  destruct v as [|a v]; [done|]. cbn [str_is_empty strip_prefix].
  destruct (N.eqb_spec c_slash a) as [<-|Hne].
  { cbn [split_char N.eqb Pos.eqb] in H. apply elem_of_cons in H as [?|H]; [done|].
    by rewrite normalized_components_traversal. }
  destruct (is_windows_absolute_path (a :: v)) eqn:E.
  - destruct v as [|b [|c v]]; [done..|]. simpl in E. breakup.
    repeat match goal with E : (_ =? _)%N = true |- _ => apply N.eqb_eq in E; subst end.
    cbn [drop]. change (a :: c_colon :: c_slash :: v) with ([a; c_colon] ++ c_slash :: v) in H.
    rewrite split_char_app_sep in H. apply elem_of_app in H as [H|H];
      [|by rewrite normalized_components_traversal].
    exfalso. rewrite split_char_word in H by set_solver. by apply list_elem_of_singleton in H.
  - destruct (has_windows_drive_prefix (a :: v)); [done|]. by rewrite normalized_components_traversal.
Qed.

Lemma normalize_traversal value ws ci :
  traversal value \/ traversal ws ->
  normalize_workspace_relative_path_with_case value ws ci = None.
Proof.
  intros H. unfold normalize_workspace_relative_path_with_case.
  destruct H as [H|H]; rewrite (parse_traversal _ ci H); [done|]. by case_match.
Qed.

Lemma str_join_head_slash l :
  Forall clean_component l -> strip_prefix [c_slash] (str_join [c_slash] l) = None.
Proof.
  destruct 1 as [|w l (Hw & _ & _ & Hs) _]; [done|]. destruct w as [|c w]; [done|].
  assert (exists t, str_join [c_slash] ((c :: w) :: l) = c :: t) as [t ->]
    by (destruct l; simpl; eauto).
  cbn [strip_prefix]. destruct (N.eqb_spec 47 c) as [<-|]; [set_solver|done].
Qed.

Lemma windows_absolute_drive v : is_windows_absolute_path v = true -> has_windows_drive_prefix v = true.
Proof. destruct v as [|a [|b [|c v]]]; try done. simpl. intros. breakup. by rewrite H, H1. Qed.

Lemma slashed_id v : trim v = v -> c_backslash ∉ v -> slashed v = v.
Proof.
  intros Ht Hb. unfold slashed. rewrite Ht. clear Ht. unfold replace_chars.
  induction v as [|c v IH]; [done|]. rewrite bind_cons, IH by set_solver.
  destruct (N.eqb_spec c_backslash c) as [<-|]; [set_solver|done].
Qed.

(** A clean relative path parses to its own components. *)
Lemma parse_relative l :
  l <> [] -> Forall clean_component l ->
  trim (str_join [c_slash] l) = str_join [c_slash] l -> c_backslash ∉ str_join [c_slash] l ->
  has_windows_drive_prefix (str_join [c_slash] l) = false ->
  parse_path_for_matching_with_case (str_join [c_slash] l) false
    = Some {| root := None; components := l |}.
Proof.
  intros Hne Hl Ht Hb Hd. unfold parse_path_for_matching_with_case.
  rewrite slashed_id by done. unfold fold_case. rewrite Hd, str_join_head_slash by done.
  assert (str_is_empty (str_join [c_slash] l) = false) as ->.
  { destruct Hl as [|w l' (Hw & _)]; [done|]. destruct w; [done|]. by destruct l'. }
  destruct (is_windows_absolute_path _) eqn:E; [apply windows_absolute_drive in E; congruence|].
  rewrite Hd, split_char_join, normalized_components_id; try done.
  eapply Forall_impl; [exact Hl|]. by intros ? (_ & _ & _ & ?).
Qed.

Lemma components_of_join l :
  Forall clean_component l ->
  normalized_components (split_char c_slash (str_join [c_slash] l)) = Some l.
Proof.
  intros Hl. destruct l as [|w l]; [done|].
  rewrite split_char_join; [by apply normalized_components_id|done|].
  eapply Forall_impl; [exact Hl|]. by intros ? (_ & _ & _ & ?).
Qed.

(** A clean POSIX absolute path parses to its own components. *)
Lemma parse_absolute l :
  Forall clean_component l ->
  trim (c_slash :: str_join [c_slash] l) = c_slash :: str_join [c_slash] l ->
  c_backslash ∉ str_join [c_slash] l ->
  parse_path_for_matching_with_case (c_slash :: str_join [c_slash] l) false
    = Some {| root := Some (lit "/"); components := l |}.
Proof.
  intros Hl Ht Hb. unfold parse_path_for_matching_with_case.
  rewrite slashed_id by (done || set_solver). unfold fold_case.
  assert (has_windows_drive_prefix (c_slash :: str_join [c_slash] l) = false) as ->
    by (by destruct (str_join [c_slash] l)).
  cbn [str_is_empty strip_prefix N.eqb Pos.eqb]. by rewrite components_of_join.
Qed.

(** The shape of a normalised scope: a POSIX root or a lowercased drive, and at
    least one clean component. *)
Lemma normalize_scope_shape value r :
  normalize_workspace_scope value = Some r ->
  exists rt l, l <> [] /\ Forall clean_component l /\
    ((rt = [] /\ r = c_slash :: str_join [c_slash] l)
     \/ (exists d, is_ascii_alphabetic d = true /\ rt = [d; c_colon]
          /\ r = rt ++ c_slash :: str_join [c_slash] l)).
Proof.
  unfold normalize_workspace_scope. generalize (slashed value). intros v.
  destruct v as [|a v]; [done|]. cbn [str_is_empty strip_prefix].
  destruct (N.eqb_spec c_slash a) as [<-|Hne].
  - destruct (normalized_components _) as [[|w l]|] eqn:E; try done. intros [= <-].
    exists [], (w :: l). split; [done|]. split; [|left; split; reflexivity].
    eapply normalized_components_clean; [apply split_char_no_sep|done].
  - destruct (is_windows_absolute_path (a :: v)) eqn:Ew; [|done].
    destruct v as [|b [|c v]]; [done..|]. simpl in Ew. breakup.
    repeat match goal with E : (_ =? _)%N = true |- _ => apply N.eqb_eq in E; subst end.
    cbn [to_ascii_lowercase fmap list_fmap take drop].
    destruct (normalized_components _) as [[|w l]|] eqn:E; try done. intros [= <-].
    eexists _, (w :: l). split; [done|].
    split; [eapply normalized_components_clean; [apply split_char_no_sep|done]|].
    right. exists (char_to_ascii_lowercase a).
    split; [|split; [reflexivity|unfold str_eqb; by rewrite bool_decide_eq_false_2]].
    unfold char_to_ascii_lowercase, is_ascii_alphabetic, is_ascii_uppercase, between in *.
    apply orb_true_iff. destruct ((65 <=? a)%N && (a <=? 90)%N) eqn:Eu; [|right; done].
    right. breakup. rewrite andb_true_iff, !N.leb_le in *. lia.
Qed.

(** ** Properties *)

(** Path normalisation is traversal-safe: when either path has a `..` component
    the result is [None], and every result is made of non-empty components that are
    neither `.` nor `..` and hold no slash. *)
Theorem normalized_path_is_safe (value ws : list N) (ci : bool) :
  (traversal value \/ traversal ws -> normalize_workspace_relative_path_with_case value ws ci = None)
  /\ (forall r, normalize_workspace_relative_path_with_case value ws ci = Some r ->
       exists l, Forall clean_component l /\ r = str_join [c_slash] l).
Proof. split; [apply normalize_traversal|apply normalize_relative_components]. Qed.

(** Persisted paths are stable: on a case-sensitive platform, normalising a
    normalised path again in the same workspace returns it unchanged, so a saved
    rule matches the invocation it was saved from. The side conditions exclude
    results that look like a drive path, or that start or end with whitespace. *)
Theorem normalized_path_roundtrip (value ws r : list N) :
  normalize_workspace_relative_path_with_case value ws false = Some r ->
  r <> [] -> trim r = r -> c_backslash ∉ r -> has_windows_drive_prefix r = false ->
  normalize_workspace_relative_path_with_case r ws false = Some r.
Proof.
  intros H Hne Ht Hb Hd. destruct (normalize_relative_components _ _ _ _ H) as (l & Hl & ->).
  assert (l <> []) as Hl' by by destruct l.
  unfold normalize_workspace_relative_path_with_case in *. rewrite parse_relative by done.
  simpl in *. destruct (parse_path_for_matching_with_case value false) as [p|]; [|done].
  destruct (parse_path_for_matching_with_case ws false) as [w|]; [|done].
  by destruct (root w).
Qed.

Lemma normalized_path_roundtrip_witness :
  normalize_workspace_relative_path_with_case (lit "/ws/app/./src//Main.rs") (lit "/ws/app") false
    = Some (lit "src/Main.rs")
  /\ normalize_workspace_relative_path_with_case (lit "src/Main.rs") (lit "/ws/app") false
    = Some (lit "src/Main.rs").
Proof.
  assert (normalize_workspace_relative_path_with_case (lit "/ws/app/./src//Main.rs")
    (lit "/ws/app") false = Some (lit "src/Main.rs")) as H by (vm_compute; reflexivity).
  split; [exact H|].
  refine (normalized_path_roundtrip _ _ _ H _ _ _ _); [done|vm_compute; reflexivity| |done].
  apply (bool_decide_unpack _). vm_compute. exact I.
Defined.

(** An absolute POSIX path is in a workspace exactly when the workspace's
    components are a whole-component prefix of its own, and it then normalises to
    the remaining components: `/ws/application/x` is not inside `/ws/app`. *)
Theorem absolute_path_in_workspace (path ws : list (list N)) (r : list N) :
  Forall clean_component path -> Forall clean_component ws ->
  trim (c_slash :: str_join [c_slash] path) = c_slash :: str_join [c_slash] path ->
  trim (c_slash :: str_join [c_slash] ws) = c_slash :: str_join [c_slash] ws ->
  c_backslash ∉ str_join [c_slash] path -> c_backslash ∉ str_join [c_slash] ws ->
  normalize_workspace_relative_path_with_case (c_slash :: str_join [c_slash] path)
    (c_slash :: str_join [c_slash] ws) false = Some r
  <-> exists rel, path = ws ++ rel /\ r = str_join [c_slash] rel.
Proof.
  intros Hp Hw Htp Htw Hbp Hbw. unfold normalize_workspace_relative_path_with_case.
  rewrite !parse_absolute by done. cbn [root components].
  rewrite (proj2 (str_eqb_spec _ _)) by done. cbn [negb].
  destruct (strip_components ws path) as [rel|] eqn:E.
  - apply strip_components_spec in E as ->. split; [intros [= <-]; eauto|].
    by intros (rel' & ->%app_inv_head & ->).
  - split; [done|]. intros (rel & Hrel%strip_components_spec & _). congruence.
Qed.

Lemma absolute_path_in_workspace_witness :
  normalize_workspace_relative_path_with_case (lit "/ws/app/src") (lit "/ws/app") false
    = Some (lit "src")
  /\ normalize_workspace_relative_path_with_case (lit "/ws/application/src") (lit "/ws/app") false
    = None.
Proof.
  split; [|vm_compute; reflexivity].
  refine (proj2 (absolute_path_in_workspace [lit "ws"; lit "app"; lit "src"] [lit "ws"; lit "app"]
    (lit "src") _ _ _ _ _ _) _); try (apply (bool_decide_unpack _); vm_compute; exact I);
    try (vm_compute; reflexivity).
  exists [lit "src"]. split; reflexivity.
Defined.

(** A persisted scope names one concrete directory and is stable: it is a POSIX
    root or a drive followed by at least one clean component (never a filesystem
    root, never relative), and normalising it again returns it unchanged. The side
    condition excludes scopes with surrounding whitespace or a backslash. *)
Theorem workspace_scope_roundtrip (value r : list N) :
  normalize_workspace_scope value = Some r -> trim r = r -> c_backslash ∉ r ->
  to_ascii_lowercase r = r \/ starts_with_char c_slash r = true ->
  normalize_workspace_scope r = Some r
  /\ r <> lit "/" /\ (exists c s, r = c :: s /\ (c = c_slash \/ is_ascii_alphabetic c = true)).
Proof.
  intros H Ht Hb Hlow. destruct (normalize_scope_shape _ _ H) as (rt & l & Hne & Hl & Hshape).
  assert (str_join [c_slash] l <> []) as Hj.
  { destruct Hl as [|w l' (Hw & _)]; [done|]. destruct w; [done|]. by destruct l'. }
  assert (exists w l', l = w :: l') as (w & l' & El) by (destruct l; [done|eauto]).
  unfold normalize_workspace_scope. rewrite slashed_id by done.
  destruct Hshape as [[-> ->]|(d & Hd & -> & ->)].
  - cbn [str_is_empty strip_prefix N.eqb Pos.eqb]. rewrite components_of_join by done.
    rewrite El. split; [done|]. rewrite <-El. split; [by intros [= ?]|eauto].
  - cbn [app] in *. cbn [str_is_empty strip_prefix].
    assert ((47 =? d)%N = false) as -> by (by destruct (N.eqb_spec 47 d) as [<-|]).
    assert (is_windows_absolute_path (d :: c_colon :: c_slash :: str_join [c_slash] l) = true) as ->
      by (simpl; by rewrite Hd).
    destruct Hlow as [->|Hlow]; [|simpl in Hlow; apply N.eqb_eq in Hlow as ->; done].
    cbn [take drop]. rewrite drop_0, components_of_join, El by done.
    split; [unfold str_eqb; by rewrite bool_decide_eq_false_2|]. split; [done|]. eexists _, _. split; [done|by right].
Qed.

Lemma workspace_scope_roundtrip_witness :
  normalize_workspace_scope (lit " C:\Users\.\Me ") = Some (lit "c:/users/me")
  /\ normalize_workspace_scope (lit "c:/users/me") = Some (lit "c:/users/me").
Proof.
  assert (normalize_workspace_scope (lit " C:\Users\.\Me ") = Some (lit "c:/users/me")) as H
    by (vm_compute; reflexivity).
  split; [exact H|].
  refine (proj1 (workspace_scope_roundtrip _ _ H _ _ _)); [vm_compute; reflexivity| |].
  - apply (bool_decide_unpack _). vm_compute. exact I.
  - left. vm_compute. reflexivity.
Defined.

End PathScope.
