(* ===== verification/ExecPolicy.v ===== *)
(** * The execution-policy engine (crates/execpolicy/src/lib.rs, approval_mode.rs)

    Layered rulesets of trusted and denied prefixes and typed ask rules, the
    session approvals, and the decision procedure [check] that every tool
    invocation passes. *)

From stdpp Require Import base list option strings gmap sorting.
From Stdlib Require Import Lia NArith.
From S2P Require Import Prelude RustStr BashArity ShellExpand DenyMatch PathScope.

Module ExecPolicy.

(** ** Data *)

Inductive RulesetLayer : Type := BuiltinDefault | Agent | User.

Definition layer_rank (l : RulesetLayer) : nat :=
  match l with BuiltinDefault => 0 | Agent => 1 | User => 2 end.

#[export] Instance RulesetLayer_eq_dec : EqDecision RulesetLayer.
Proof. solve_decision. Defined.

Inductive PermissionAction : Type := Allow | Ask | Deny.

Definition action_rank (a : PermissionAction) : nat :=
  match a with Allow => 0 | Ask => 1 | Deny => 2 end.

#[export] Instance PermissionAction_eq_dec : EqDecision PermissionAction.
Proof. solve_decision. Defined.

Definition default_rule_action : PermissionAction := Ask.

Record ToolAskRule : Type := {
  tool : list N;
  command : option (list N);
  command_exact : bool;
  path : option (list N);
  workspace : option (list N);
  action : PermissionAction
}.

#[export] Instance ToolAskRule_eq_dec : EqDecision ToolAskRule.
Proof. solve_decision. Defined.

Definition rule_new (t : list N) : ToolAskRule :=
  {| tool := t; command := None; command_exact := false; path := None; workspace := None;
     action := Ask |}.

Definition rule_exec_shell (c : list N) : ToolAskRule :=
  {| tool := lit "exec_shell"; command := Some c; command_exact := false; path := None;
     workspace := None; action := Ask |}.

Definition rule_file_path (t p : list N) : ToolAskRule :=
  {| tool := t; command := None; command_exact := false; path := Some p; workspace := None;
     action := Ask |}.

Definition is_some {A} (o : option A) : bool := match o with Some _ => true | None => false end.

Definition into_exact_workspace_allow (r : ToolAskRule) (ws : list N) : ToolAskRule :=
  {| tool := tool r; command := command r; command_exact := is_some (command r); path := path r;
     workspace := Some ws; action := Allow |}.

Definition label (r : ToolAskRule) : list N :=
  let parts := [lit "tool=" ++ tool r]
    ++ match command r with Some c => [lit "command=" ++ c] | None => [] end
    ++ (if command_exact r then [lit "command_exact=true"] else [])
    ++ match path r with Some p => [lit "path=" ++ p] | None => [] end
    ++ match workspace r with Some w => [lit "workspace=" ++ w] | None => [] end in
  str_join [c_space] parts.

Record Ruleset : Type := {
  layer : RulesetLayer;
  rs_trusted_prefixes : list (list N);
  rs_denied_prefixes : list (list N);
  ask_rules : list ToolAskRule
}.

Definition ruleset_builtin_default : Ruleset :=
  {| layer := BuiltinDefault; rs_trusted_prefixes := []; rs_denied_prefixes := []; ask_rules := [] |}.
Definition ruleset_agent (trusted denied : list (list N)) : Ruleset :=
  {| layer := Agent; rs_trusted_prefixes := trusted; rs_denied_prefixes := denied; ask_rules := [] |}.
Definition ruleset_user (trusted denied : list (list N)) : Ruleset :=
  {| layer := User; rs_trusted_prefixes := trusted; rs_denied_prefixes := denied; ask_rules := [] |}.
Definition with_ask_rules (r : Ruleset) (rules : list ToolAskRule) : Ruleset :=
  {| layer := layer r; rs_trusted_prefixes := rs_trusted_prefixes r;
     rs_denied_prefixes := rs_denied_prefixes r; ask_rules := rules |}.

Inductive AskForApproval : Type :=
| UnlessTrusted
| OnFailure
| OnRequest
| Reject (sandbox_approval rules mcp_elicitations : bool)
| Never.

#[export] Instance AskForApproval_eq_dec : EqDecision AskForApproval.
Proof. solve_decision. Defined.

Inductive NetworkPolicyRuleAction : Type := NetAllow | NetDeny.
Record NetworkPolicyAmendment : Type := {
  host : list N;
  net_action : NetworkPolicyRuleAction
}.
Record ExecPolicyAmendment : Type := { prefixes : list (list N) }.

Inductive ExecApprovalRequirement : Type :=
| Skip (bypass_sandbox : bool) (proposed_execpolicy_amendment : option ExecPolicyAmendment)
| NeedsApproval (reason : list N) (proposed_execpolicy_amendment : option ExecPolicyAmendment)
    (proposed_network_policy_amendments : list NetworkPolicyAmendment)
| Forbidden (reason : list N).

Definition requirement_reason (r : ExecApprovalRequirement) : list N :=
  match r with
  | Skip _ _ => lit "Execution allowed by policy."
  | NeedsApproval reason _ _ => reason
  | Forbidden reason => reason
  end.

Definition phase (r : ExecApprovalRequirement) : list N :=
  match r with
  | Skip _ _ => lit "allowed"
  | NeedsApproval _ _ _ => lit "needs_approval"
  | Forbidden _ => lit "forbidden"
  end.

Record ExecPolicyDecision : Type := {
  allow : bool;
  requires_approval : bool;
  requirement : ExecApprovalRequirement;
  matched_rule : option (list N);
  matched_action : option PermissionAction
}.

Record ExecPolicyContext : Type := {
  ctx_command : list N;
  cwd : list N;
  ctx_tool : option (list N);
  ctx_path : option (list N);
  ask_for_approval : AskForApproval;
  sandbox_mode : option (list N)
}.

Definition set_command (ctx : ExecPolicyContext) (c : list N) : ExecPolicyContext :=
  {| ctx_command := c; cwd := cwd ctx; ctx_tool := ctx_tool ctx; ctx_path := ctx_path ctx;
     ask_for_approval := ask_for_approval ctx; sandbox_mode := sandbox_mode ctx |}.

Record ExecPolicyEngine : Type := {
  rulesets : list Ruleset;
  trusted_prefixes : list (list N);
  denied_prefixes : list (list N);
  approved_for_session : gset (list N);
  arity_dict : BashArity.BashArityDict
}.

(** ** Building the engine *)

Definition ruleset_rank (r : Ruleset) : nat := layer_rank (layer r).

Definition engine_new (trusted denied : list (list N)) : ExecPolicyEngine :=
  {| rulesets := []; trusted_prefixes := trusted; denied_prefixes := denied;
     approved_for_session := ∅; arity_dict := BashArity.new |}.

Definition with_rulesets (rs : list Ruleset) : ExecPolicyEngine :=
  {| rulesets := sort_by_key ruleset_rank rs; trusted_prefixes := []; denied_prefixes := [];
     approved_for_session := ∅; arity_dict := BashArity.new |}.

Definition set_rulesets (e : ExecPolicyEngine) (rs : list Ruleset) : ExecPolicyEngine :=
  {| rulesets := rs; trusted_prefixes := trusted_prefixes e; denied_prefixes := denied_prefixes e;
     approved_for_session := approved_for_session e; arity_dict := arity_dict e |}.

Definition add_ruleset (e : ExecPolicyEngine) (r : Ruleset) : ExecPolicyEngine :=
  set_rulesets e (sort_by_key ruleset_rank (rulesets e ++ [r])).

Definition set_ruleset (e : ExecPolicyEngine) (r : Ruleset) : ExecPolicyEngine :=
  set_rulesets e (sort_by_key ruleset_rank
    (List.filter (fun existing => negb (bool_decide (layer existing = layer r))) (rulesets e) ++ [r])).

Definition remember_session_approval (e : ExecPolicyEngine) (key : list N) : ExecPolicyEngine :=
  {| rulesets := rulesets e; trusted_prefixes := trusted_prefixes e;
     denied_prefixes := denied_prefixes e; approved_for_session := {[key]} ∪ approved_for_session e;
     arity_dict := arity_dict e |}.

Definition is_session_approved (e : ExecPolicyEngine) (key : list N) : bool :=
  bool_decide (key ∈ approved_for_session e).

(** ** Deciding *)

Definition resolve_prefixes (e : ExecPolicyEngine) : list (list N) * list (list N) :=
  match rulesets e with
  | [] => (trusted_prefixes e, denied_prefixes e)
  | rs => ((rs ≫= rs_trusted_prefixes) ++ trusted_prefixes e,
           (rs ≫= rs_denied_prefixes) ++ denied_prefixes e)
  end.

Definition option_len (o : option (list N)) : nat :=
  match o with Some s => str_len s + 1000 | None => 0 end.

Definition ask_rule_specificity (r : ToolAskRule) : nat :=
  str_len (tool r) + option_len (command r) + option_len (path r) + option_len (workspace r)
  + (if command_exact r then 1 else 0).

Definition rule_key (lr : RulesetLayer * ToolAskRule) : nat * nat * nat :=
  (layer_rank lr.1, action_rank (action lr.2), ask_rule_specificity lr.2).

Definition key_leb (a b : nat * nat * nat) : bool :=
  let '(a1, a2, a3) := a in
  let '(b1, b2, b3) := b in
  (a1 <? b1) || ((a1 =? b1) && ((a2 <? b2) || ((a2 =? b2) && (a3 <=? b3)))).

(** [Iterator::max_by_key]: of several maximal elements, the last. *)
Fixpoint max_from (best : RulesetLayer * ToolAskRule) (l : list (RulesetLayer * ToolAskRule))
  : RulesetLayer * ToolAskRule :=
  match l with
  | [] => best
  | x :: l' => max_from (if key_leb (rule_key best) (rule_key x) then x else best) l'
  end.
Definition max_by_key (l : list (RulesetLayer * ToolAskRule)) : option (RulesetLayer * ToolAskRule) :=
  match l with
  | [] => None
  | x :: l' => Some (max_from x l')
  end.

Section Matching.
Context (case_insensitive : bool).

Definition normalize_path (value cwd : list N) : option (list N) :=
  PathScope.normalize_workspace_relative_path_with_case value cwd case_insensitive.

(** The four filters of [matching_ask_rule]. *)
Definition rule_applies (d : BashArity.BashArityDict) (ctx : ExecPolicyContext) (r : ToolAskRule)
  : bool :=
  str_eqb (tool r) (default (lit "exec_shell") (ctx_tool ctx))
  && match workspace r with
     | Some ws => PathScope.workspace_scope_matches ws (cwd ctx)
     | None => true
     end
  && match command r with
     | Some c =>
         if command_exact r then str_eqb (trim c) (trim (ctx_command ctx))
         else BashArity.allow_rule_matches d c (ctx_command ctx)
     | None => true
     end
  && match path r, ctx_path ctx with
     | Some pattern, Some p =>
         match normalize_path pattern (cwd ctx), normalize_path p (cwd ctx) with
         | Some a, Some b => str_eqb a b
         | _, _ => false
         end
     | Some _, None => false
     | None, _ => true
     end.

Definition layered_rules (e : ExecPolicyEngine) : list (RulesetLayer * ToolAskRule) :=
  rulesets e ≫= (fun rs => (fun r => (layer rs, r)) <$> ask_rules rs).

Definition matching_ask_rule (e : ExecPolicyEngine) (ctx : ExecPolicyContext) : option ToolAskRule :=
  snd <$> max_by_key
    (List.filter (fun lr => rule_applies (arity_dict e) ctx lr.2) (layered_rules e)).

Definition is_separator (c : N) : bool := (c =? c_amp)%N || (c =? c_pipe)%N || (c =? c_semi)%N.

Definition command_segments (command : list N) : list (list N) :=
  List.filter (fun s => negb (str_is_empty s))
    (trim <$> str_lines
      (replace_chars is_separator [c_nl]
        (str_replace (lit "||") [c_nl] (str_replace (lit "&&") [c_nl] command)))).

Definition command_is_chained (command : list N) : bool := 1 <? length (command_segments command).

(** The loop of [deny_scan_targets]: non-empty targets, first occurrence kept. *)
Fixpoint dedup_targets (seen : list (list N)) (l : list (list N)) : list (list N) :=
  match l with
  | [] => []
  | t :: l' =>
      if negb (str_is_empty t) && negb (bool_decide (t ∈ seen)) then
        t :: dedup_targets (t :: seen) l'
      else dedup_targets seen l'
  end.

Definition deny_scan_targets (command : list N) : list (list N) :=
  dedup_targets [] ([trim command] ++ command_segments command
                   ++ ShellExpand.expanded_commands command).

Definition first_token (command : list N) : list N := hd [] (split_whitespace command).

Definition skip_requirement : ExecApprovalRequirement := Skip false None.

Definition forbidden_decision (rule : option (list N)) (act : option PermissionAction)
  (reason : list N) : ExecPolicyDecision :=
  {| allow := false; requires_approval := false; requirement := Forbidden reason;
     matched_rule := rule; matched_action := act |}.

(** The loop over the scan targets other than the invocation as typed. *)
Fixpoint denied_segment (e : ExecPolicyEngine) (ctx : ExecPolicyContext) (targets : list (list N))
  : option ToolAskRule :=
  match targets with
  | [] => None
  | target :: rest =>
      match matching_ask_rule e (set_command ctx target) with
      | Some rule =>
          if bool_decide (action rule = Deny) then Some rule else denied_segment e ctx rest
      | None => denied_segment e ctx rest
      end
  end.

(** The mode-based resolution: the requirement and the typed rule it names. *)
Definition mode_requirement (ctx : ExecPolicyContext) (ask_rule : option ToolAskRule)
  (is_trusted : bool) : ExecApprovalRequirement * option (list N) :=
  let ask_rule_requirement :=
    match ask_for_approval ctx with
    | Never | Reject _ true _ => None
    | _ =>
        match ask_rule with
        | Some rule =>
            Some (NeedsApproval (lit "Typed ask rule '" ++ label rule ++ lit "' requires approval.")
                    None [], label rule)
        | None => None
        end
    end in
  match ask_rule_requirement with
  | Some (req, l) => (req, Some l)
  | None =>
      let needs_approval :=
        NeedsApproval
          (if is_trusted then lit "Approval requested by policy mode."
           else lit "Unmatched command prefix requires approval.")
          (if is_trusted || command_is_chained (ctx_command ctx) then None
           else Some {| prefixes := [first_token (ctx_command ctx)] |})
          [] in
      match ask_for_approval ctx with
      | Never =>
          match ask_rule with
          | Some rule =>
              (Forbidden (lit "Typed ask rule '" ++ label rule
                          ++ lit "' requires approval, but approval policy is never."),
               Some (label rule))
          | None => (skip_requirement, None)
          end
      | Reject _ true _ =>
          (Forbidden (lit "Policy is configured to reject rule-exceptions."), None)
      | UnlessTrusted => (if is_trusted then skip_requirement else needs_approval, None)
      | OnFailure => (skip_requirement, None)
      | _ => (needs_approval, None)
      end
  end.

Definition flags_of (r : ExecApprovalRequirement) : bool * bool :=
  match r with
  | Skip _ _ => (true, false)
  | NeedsApproval _ _ _ => (true, true)
  | Forbidden _ => (false, false)
  end.

Definition check (e : ExecPolicyEngine) (ctx : ExecPolicyContext)
  : result ExecPolicyDecision (list N) :=
  let '(trusted, denied) := resolve_prefixes e in
  let deny_targets := deny_scan_targets (ctx_command ctx) in
  match List.find (fun rule => existsb (DenyMatch.denied_prefix_matches rule) deny_targets) denied with
  | Some rule =>
      Ok (forbidden_decision (Some rule) None
            (lit "Command blocked by denied prefix rule '" ++ rule ++ lit "'"))
  | None =>
      let trusted_rule :=
        if command_is_chained (ctx_command ctx) then None
        else List.find (fun rule => BashArity.allow_rule_matches (arity_dict e) rule (ctx_command ctx))
               trusted in
      let is_trusted := is_some trusted_rule in
      let raw_command := trim (ctx_command ctx) in
      match denied_segment e ctx
              (List.filter (fun t => negb (str_eqb t raw_command)) deny_targets) with
      | Some rule =>
          Ok (forbidden_decision (Some (label rule)) (Some Deny)
                (lit "Permission rule '" ++ label rule
                 ++ lit "' explicitly denies a chained segment of this invocation."))
      | None =>
          let ask_rule := matching_ask_rule e ctx in
          let mode_decision :=
            let '(requirement, matched_ask_rule) := mode_requirement ctx ask_rule is_trusted in
            Ok {| allow := (flags_of requirement).1;
                  requires_approval := (flags_of requirement).2;
                  requirement := requirement;
                  matched_rule := match matched_ask_rule with Some l => Some l | None => trusted_rule end;
                  matched_action := action <$> ask_rule |} in
          match ask_rule with
          | Some rule =>
              match action rule with
              | Deny =>
                  Ok (forbidden_decision (Some (label rule)) (Some Deny)
                        (lit "Permission rule '" ++ label rule
                         ++ lit "' explicitly denies this invocation."))
              | Allow =>
                  if negb (command_is_chained (ctx_command ctx)) then
                    Ok {| allow := true; requires_approval := false; requirement := skip_requirement;
                          matched_rule := Some (label rule); matched_action := Some Allow |}
                  else mode_decision
              | Ask => mode_decision
              end
          | None => mode_decision
          end
      end
  end.

End Matching.

(** ** Approval posture (approval_mode.rs) *)

Inductive ApprovalMode : Type := Auto | Bypass | Suggest | NeverMode.

#[export] Instance ApprovalMode_eq_dec : EqDecision ApprovalMode.
Proof. solve_decision. Defined.

Definition PERMISSION_CYCLE : list ApprovalMode := [Suggest; Auto; Bypass].

Definition mode_label (m : ApprovalMode) : list N :=
  match m with
  | Auto => lit "AUTO" | Bypass => lit "BYPASS" | Suggest => lit "SUGGEST" | NeverMode => lit "NEVER"
  end.

Definition permission_chip_label (m : ApprovalMode) : list N :=
  match m with
  | Suggest => lit "Ask" | Auto => lit "Auto-Review" | Bypass => lit "Full Access" | NeverMode => lit "Never"
  end.

Definition one_of (v : list N) (names : list string) : bool := existsb (fun n => str_eqb v (lit n)) names.

Definition from_config_value (value : list N) : option ApprovalMode :=
  let v := to_ascii_lowercase (trim value) in
  if one_of v ["auto"; "auto-review"; "auto_review"]%string then Some Auto
  else if one_of v ["bypass"; "yolo"; "dontask"; "dont_ask"; "bypass-permissions";
    "bypasspermissions"; "full-access"; "full_access"; "full"]%string then Some Bypass
  else if one_of v ["suggest"; "suggested"; "on-request"; "untrusted"; "ask"]%string then Some Suggest
  else if one_of v ["never"; "deny"; "denied"]%string then Some NeverMode
  else None.

Definition cycle_permission_next (m : ApprovalMode) : ApprovalMode :=
  match position (fun x => bool_decide (x = m)) PERMISSION_CYCLE with
  | None => Suggest
  | Some index => default Suggest (PERMISSION_CYCLE !! ((index + 1) mod length PERMISSION_CYCLE))
  end.

End ExecPolicy.
