(* ===== verification/ExecPolicyFacts.v ===== *)
(** * Properties of the execution-policy engine

    What [ExecPolicy.check] guarantees: deny rules hold in every approval mode
    and against every command the shell would run, typed rules are selected by
    layer, action and specificity, and nothing is approved automatically except
    in the cases listed by [auto_approved_iff]. *)

From stdpp Require Import base list option strings gmap sorting.
From Stdlib Require Import Lia NArith.
From S2P Require Import Prelude RustStr BashArity ShellExpand DenyMatch PathScope ExecPolicy.

Module ExecPolicyFacts.
Import ExecPolicy.

(** ** Vocabulary of the properties *)

(** A denied prefix configured in some layer or in the legacy list. *)
Definition configured_denied (e : ExecPolicyEngine) (d : list N) : Prop :=
  d ∈ denied_prefixes e \/ exists rs, rs ∈ rulesets e /\ d ∈ rs_denied_prefixes rs.

(** The command lines a deny rule is held against: the invocation, its naive
    segments, and what the shell runs for it when the expansion is complete. *)
Definition shell_target (command t : list N) : Prop :=
  t <> [] /\
  (t = trim command \/ t ∈ command_segments command
   \/ (ShellExpand.runs (S ShellExpand.MAX_DEPTH) command t
       /\ length (ShellExpand.expanded_commands command) < ShellExpand.MAX_COMMANDS)).

Definition is_forbidden (r : result ExecPolicyDecision (list N)) : Prop :=
  exists reason rule act, r = Ok (forbidden_decision rule act reason).

(** Allowed without asking anybody. *)
Definition auto_approved (r : result ExecPolicyDecision (list N)) : Prop :=
  exists d, r = Ok d /\ allow d = true /\ requires_approval d = false.

Definition applicable (ci : bool) (e : ExecPolicyEngine) (ctx : ExecPolicyContext)
  (l : RulesetLayer) (r : ToolAskRule) : Prop :=
  (l, r) ∈ layered_rules e /\ rule_applies ci (arity_dict e) ctx r = true.

(** ** Targets *)

Lemma elem_of_dedup seen l x : x ∈ dedup_targets seen l <-> x ∈ l /\ x <> [] /\ x ∉ seen.
Proof.
  revert seen. induction l as [|t l IH]; intros seen; cbn [dedup_targets].
  { split; [by intros ?%not_elem_of_nil|by intros [?%not_elem_of_nil _]]. }
  destruct t as [|c t]; cbn [str_is_empty negb andb].
  { rewrite IH, elem_of_cons. naive_solver. }
  case_bool_decide as Hs; cbn [negb].
  - rewrite IH, elem_of_cons. naive_solver.
  - rewrite !elem_of_cons, IH, elem_of_cons. destruct (decide (x = c :: t)); naive_solver.
Qed.

Lemma elem_of_deny_scan_targets command x :
  x ∈ deny_scan_targets command <->
    x <> [] /\ (x = trim command \/ x ∈ command_segments command
                \/ x ∈ ShellExpand.expanded_commands command).
Proof.
  unfold deny_scan_targets. rewrite elem_of_dedup, !elem_of_app, list_elem_of_singleton.
  split; [|intros [??]; split; [done|split; [done|apply not_elem_of_nil]]]. tauto.
Qed.

Lemma shell_target_scanned command t : shell_target command t -> t ∈ deny_scan_targets command.
Proof.
  intros [Hne H]. apply elem_of_deny_scan_targets. split; [done|].
  destruct H as [?|[?|[Hr Hl]]]; [tauto..|]. right. right.
  by apply ShellExpand.expanded_commands_complete.
Qed.

Lemma elem_of_denied e d : d ∈ (resolve_prefixes e).2 <-> configured_denied e d.
Proof.
  unfold resolve_prefixes, configured_denied. destruct (rulesets e) as [|r rs] eqn:E.
  - simpl. split; [by left|]. intros [?|(x & Hx & _)]; [done|]. by apply not_elem_of_nil in Hx.
  - cbn [snd]. rewrite elem_of_app, list_elem_of_bind. naive_solver.
Qed.

(** ** The shape of [check] *)

(** What [check] does once no denied prefix and no denied segment matched. *)
Definition after_deny (ci : bool) (e : ExecPolicyEngine) (ctx : ExecPolicyContext)
  : ExecPolicyDecision :=
  let trusted_rule :=
    if command_is_chained (ctx_command ctx) then None
    else List.find (fun rule => BashArity.allow_rule_matches (arity_dict e) rule (ctx_command ctx))
           (resolve_prefixes e).1 in
  let ask_rule := matching_ask_rule ci e ctx in
  let req := mode_requirement ctx ask_rule (is_some trusted_rule) in
  let mode_decision :=
    {| allow := (flags_of req.1).1; requires_approval := (flags_of req.1).2; requirement := req.1;
       matched_rule := match req.2 with Some l => Some l | None => trusted_rule end;
       matched_action := action <$> ask_rule |} in
  match ask_rule with
  | Some rule =>
      match action rule with
      | Deny => forbidden_decision (Some (label rule)) (Some Deny)
                  (lit "Permission rule '" ++ label rule ++ lit "' explicitly denies this invocation.")
      | Allow =>
          if negb (command_is_chained (ctx_command ctx)) then
            {| allow := true; requires_approval := false; requirement := skip_requirement;
               matched_rule := Some (label rule); matched_action := Some Allow |}
          else mode_decision
      | Ask => mode_decision
      end
  | None => mode_decision
  end.

Definition prefix_denied (e : ExecPolicyEngine) (ctx : ExecPolicyContext) : Prop :=
  exists d t, configured_denied e d /\ t ∈ deny_scan_targets (ctx_command ctx)
    /\ DenyMatch.denied_prefix_matches d t = true.

Definition segment_targets (command : list N) : list (list N) :=
  List.filter (fun t => negb (str_eqb t (trim command))) (deny_scan_targets command).

Lemma check_cases ci e ctx :
  (prefix_denied e ctx /\ is_forbidden (check ci e ctx))
  \/ (~ prefix_denied e ctx /\ exists r,
        denied_segment ci e ctx (segment_targets (ctx_command ctx)) = Some r
        /\ is_forbidden (check ci e ctx))
  \/ (~ prefix_denied e ctx /\ denied_segment ci e ctx (segment_targets (ctx_command ctx)) = None
      /\ check ci e ctx = Ok (after_deny ci e ctx)).
Proof.
  unfold check, after_deny. pose proof (elem_of_denied e) as Hd.
  destruct (resolve_prefixes e) as [trusted denied] eqn:Er. cbn [fst snd] in *.
  destruct (List.find _ denied) as [rule|] eqn:Ef.
  - left. apply find_elem_of in Ef as [Hin Hm]. apply existsb_elem_of in Hm as (t & Ht & Hm).
    split; [exists rule, t; rewrite <-Hd; done|]. unfold is_forbidden. eauto.
  - assert (~ prefix_denied e ctx) as Hno.
    { intros (d & t & Hc & Ht & Hm). apply Hd in Hc.
      destruct (find_is_some (fun rule => existsb (DenyMatch.denied_prefix_matches rule)
        (deny_scan_targets (ctx_command ctx))) denied d Hc) as [x Hx]; [|congruence].
      apply existsb_elem_of. eauto. }
    right. unfold segment_targets.
    destruct (denied_segment ci e ctx _) as [r|] eqn:Es.
    + left. split; [done|]. exists r. split; [done|]. unfold is_forbidden. eauto.
    + right. split; [done|]. split; [done|].
      destruct (mode_requirement ctx _ _) as [req l].
      destruct (matching_ask_rule ci e ctx) as [rule|]; [|done].
      destruct (action rule); [|done..]. by destruct (negb _).
Qed.

Lemma denied_segment_some ci e ctx targets r :
  denied_segment ci e ctx targets = Some r ->
  exists t, t ∈ targets /\ matching_ask_rule ci e (set_command ctx t) = Some r /\ action r = Deny.
Proof.
  induction targets as [|t l IH]; cbn [denied_segment]; [done|].
  destruct (matching_ask_rule ci e (set_command ctx t)) as [rule|] eqn:E.
  - case_bool_decide; [intros [= <-]; exists t; set_solver|].
    intros H'. destruct (IH H') as (t' & ? & ?). exists t'. set_solver.
  - intros H'. destruct (IH H') as (t' & ? & ?). exists t'. set_solver.
Qed.

Lemma denied_segment_none ci e ctx targets t r :
  denied_segment ci e ctx targets = None -> t ∈ targets ->
  matching_ask_rule ci e (set_command ctx t) = Some r -> action r <> Deny.
Proof.
  induction targets as [|t' l IH]; cbn [denied_segment]; [by intros _ ?%not_elem_of_nil|].
  intros H [->|Hin]%elem_of_cons Hr.
  - rewrite Hr in H. case_bool_decide; [done|]. done.
  - apply IH; [|done|done]. repeat case_match; done.
Qed.

(** ** Selection of the typed rule *)

Definition key_le (a b : nat * nat * nat) : Prop := key_leb a b = true.

Lemma key_leb_spec a b :
  key_leb a b = true <->
    a.1.1 < b.1.1 \/ (a.1.1 = b.1.1 /\ (a.1.2 < b.1.2 \/ (a.1.2 = b.1.2 /\ a.2 <= b.2))).
Proof.
  destruct a as [[a1 a2] a3], b as [[b1 b2] b3]. cbn [key_leb fst snd].
  rewrite !orb_true_iff, !andb_true_iff, !orb_true_iff, !andb_true_iff.
  by rewrite !Nat.ltb_lt, !Nat.eqb_eq, Nat.leb_le.
Qed.

Lemma key_le_trans a b c : key_le a b -> key_le b c -> key_le a c.
Proof. unfold key_le. rewrite !key_leb_spec. lia. Qed.

Lemma key_le_refl a : key_le a a.
Proof. unfold key_le. rewrite key_leb_spec. lia. Qed.

Lemma key_leb_total a b : key_leb a b = false -> key_le b a.
Proof.
  unfold key_le. intros H. apply not_true_iff_false in H. rewrite key_leb_spec in *. lia.
Qed.

Lemma max_from_spec best l :
  max_from best l ∈ best :: l
  /\ forall x, x ∈ best :: l -> key_le (rule_key x) (rule_key (max_from best l)).
Proof.
  revert best. induction l as [|y l IH]; intros best; cbn [max_from].
  { split; [set_solver|]. intros x ->%list_elem_of_singleton. apply key_le_refl. }
  destruct (key_leb (rule_key best) (rule_key y)) eqn:E.
  - destruct (IH y) as [Hin Hmax]. split; [set_solver|].
    intros x [->|Hx]%elem_of_cons; [|by apply Hmax].
    eapply key_le_trans; [exact E|]. apply Hmax. set_solver.
  - destruct (IH best) as [Hin Hmax]. split; [set_solver|].
    intros x [->|[->|Hx]%elem_of_cons]%elem_of_cons; [apply Hmax; set_solver| |apply Hmax; set_solver].
    apply key_leb_total in E. eapply key_le_trans; [exact E|]. apply Hmax. set_solver.
Qed.

Lemma matching_ask_rule_some ci e ctx r :
  matching_ask_rule ci e ctx = Some r ->
  exists l, applicable ci e ctx l r /\
    forall l' r', applicable ci e ctx l' r' -> key_le (rule_key (l', r')) (rule_key (l, r)).
Proof.
  unfold matching_ask_rule, applicable. destruct (List.filter _ _) as [|x xs] eqn:E; [done|].
  cbn [max_by_key fmap option_fmap option_map]. intros [= <-].
  destruct (max_from_spec x xs) as [Hin Hmax].
  rewrite <-E in Hin. destruct (max_from x xs) as [l r]. exists l.
  apply list_elem_of_In, List.filter_In in Hin as [Hin Ha]. split.
  - split; [by apply list_elem_of_In|done].
  - intros l' r' [H1 H2]. apply (Hmax (l', r')). rewrite <-E.
    apply list_elem_of_In, List.filter_In. split; [by apply list_elem_of_In|done].
Qed.

Lemma matching_ask_rule_is_some ci e ctx l r :
  applicable ci e ctx l r -> is_Some (matching_ask_rule ci e ctx).
Proof.
  intros [H1 H2]. unfold matching_ask_rule.
  destruct (List.filter _ _) as [|x xs] eqn:E; [|by eexists].
  assert ((l, r) ∈ []) as H; [|by apply not_elem_of_nil in H].
  rewrite <-E. apply list_elem_of_In, List.filter_In. split; [by apply list_elem_of_In|done].
Qed.

(** A deny rule of the highest applicable layer is selected. *)
Lemma top_deny_selected ci e ctx l r :
  applicable ci e ctx l r -> action r = Deny ->
  (forall l' r', applicable ci e ctx l' r' -> layer_rank l' <= layer_rank l) ->
  exists r', matching_ask_rule ci e ctx = Some r' /\ action r' = Deny.
Proof.
  intros Ha Hd Htop. destruct (matching_ask_rule_is_some _ _ _ _ _ Ha) as [r' Hr'].
  exists r'. split; [done|]. destruct (matching_ask_rule_some _ _ _ _ Hr') as (l' & Ha' & Hmax).
  specialize (Hmax l r Ha). specialize (Htop l' r' Ha').
  unfold key_le in Hmax. rewrite key_leb_spec in Hmax. cbn [rule_key fst snd] in Hmax.
  rewrite Hd in Hmax. destruct (action r'); [exfalso; simpl in Hmax; lia..|done].
Qed.

Lemma forbidden_not_auto r : is_forbidden r -> ~ auto_approved r.
Proof. intros (x & y & z & ->) (d & [= <-] & H & _). done. Qed.

Lemma denied_prefix_forbidden ci e ctx d t :
  configured_denied e d -> t ∈ deny_scan_targets (ctx_command ctx) ->
  DenyMatch.denied_prefix_matches d t = true -> is_forbidden (check ci e ctx).
Proof.
  intros Hd Ht Hm. destruct (check_cases ci e ctx) as [[_ H]|[(H & _)|(H & _)]]; [done|..];
    exfalso; apply H; by exists d, t.
Qed.

(** A typed deny rule selected for some scan target forbids the invocation. *)
Lemma selected_deny_forbidden ci e ctx t r :
  t ∈ deny_scan_targets (ctx_command ctx) -> t <> trim (ctx_command ctx) ->
  matching_ask_rule ci e (set_command ctx t) = Some r -> action r = Deny ->
  is_forbidden (check ci e ctx).
Proof.
  intros Ht Hne Hr Ha. destruct (check_cases ci e ctx) as [[_ H]|[(_ & x & _ & H)|(_ & Hn & _)]];
    [done..|]. exfalso. eapply denied_segment_none; [exact Hn| |exact Hr|exact Ha].
  unfold segment_targets. apply list_elem_of_In, List.filter_In. rewrite <-list_elem_of_In.
  split; [done|]. apply negb_true_iff, not_true_iff_false. by rewrite str_eqb_spec.
Qed.

Lemma selected_deny_whole ci e ctx r :
  matching_ask_rule ci e ctx = Some r -> action r = Deny -> is_forbidden (check ci e ctx).
Proof.
  intros Hr Ha. destruct (check_cases ci e ctx) as [[_ H]|[(_ & x & _ & H)|(_ & _ & ->)]]; [done..|].
  unfold after_deny. rewrite Hr, Ha. unfold is_forbidden. eauto.
Qed.

Lemma denied_segment_none_iff ci e ctx targets :
  denied_segment ci e ctx targets = None <->
  forall t r, t ∈ targets -> matching_ask_rule ci e (set_command ctx t) = Some r -> action r <> Deny.
Proof.
  split; [intros H t r ??; by eapply denied_segment_none|].
  intros H. destruct (denied_segment ci e ctx targets) as [r|] eqn:E; [|done].
  apply denied_segment_some in E as (t & ? & ? & ?). by destruct (H t r).
Qed.

(** Reduces the flags of a decision without touching its messages. *)
Ltac decision_simpl :=
  cbn [allow requires_approval requirement forbidden_decision skip_requirement flags_of fst snd
       negb is_some].

(** When what follows the deny gates approves automatically. *)
Lemma auto_after_deny ci e ctx :
  auto_approved (Ok (after_deny ci e ctx)) <->
  match matching_ask_rule ci e ctx with
  | Some r => action r = Allow /\ command_is_chained (ctx_command ctx) = false
  | None =>
      match ask_for_approval ctx with
      | Never | OnFailure => True
      | UnlessTrusted =>
          command_is_chained (ctx_command ctx) = false
          /\ exists p, p ∈ (resolve_prefixes e).1
               /\ BashArity.allow_rule_matches (arity_dict e) p (ctx_command ctx) = true
      | OnRequest | Reject _ _ _ => False
      end
  end.
Proof.
  trans (allow (after_deny ci e ctx) = true /\ requires_approval (after_deny ci e ctx) = false).
  { unfold auto_approved. split; [intros (d & [= <-] & ?); done|eauto]. }
  unfold after_deny, mode_requirement. destruct (matching_ask_rule ci e ctx) as [rule|].
  { destruct (action rule), (command_is_chained _), (ask_for_approval ctx) as [| | |? [] ?|];
      decision_simpl; intuition congruence. }
  destruct (ask_for_approval ctx) as [| | |? [] ?|]; decision_simpl; [|intuition congruence..].
  destruct (command_is_chained (ctx_command ctx)); [decision_simpl; intuition congruence|].
  destruct (List.find _ _) as [p|] eqn:Ef; decision_simpl.
  - apply find_elem_of in Ef as [??]. split; [|done]. intros _. split; [done|]. by exists p.
  - split; [by intros []|]. intros (_ & p & Hp & Hm).
    destruct (find_is_some (fun rule => BashArity.allow_rule_matches (arity_dict e) rule
      (ctx_command ctx)) _ p Hp Hm) as [x Hx]. congruence.
Qed.

(** ** Joined plain words *)

Lemma join_plain_chars ws :
  Forall ShellExpand.plain_word ws ->
  Forall (fun c => ShellExpand.is_special c = false \/ c = c_space) (str_join [c_space] ws).
Proof.
  induction 1 as [|w ws (_ & Hw & _) Hws IH]; [constructor|].
  assert (Forall (fun c => ShellExpand.is_special c = false \/ c = c_space) w) as Hw'
    by (eapply Forall_impl; [exact Hw|]; tauto).
  destruct ws as [|w' ws']; [done|]. cbn [str_join]. apply Forall_app. split; [done|].
  apply Forall_app. split; [|exact IH]. constructor; [by right|constructor].
Qed.

Lemma join_plain_not_brace ws :
  ws <> [] -> Forall ShellExpand.plain_word ws ->
  ShellExpand.is_brace_word (str_join [c_space] ws) = false.
Proof.
  intros Hne Hws. destruct ws as [|w ws]; [done|]. apply Forall_cons in Hws as [(H0 & _ & Hw) Hws].
  destruct ws as [|w' ws']; [done|]. cbn [str_join].
  destruct w as [|c w]; [done|]. unfold ShellExpand.is_brace_word.
  apply orb_false_iff. split; apply not_true_iff_false; rewrite str_eqb_spec; intros E;
    apply (f_equal length) in E; rewrite !length_app in E; simpl in E; lia.
Qed.

Lemma join_plain_avoids ws x :
  Forall ShellExpand.plain_word ws -> ShellExpand.is_special x = true -> x <> c_space ->
  Forall (fun c => c <> x) (str_join [c_space] ws).
Proof.
  intros Hws Hx Hs. eapply Forall_impl; [by apply join_plain_chars|].
  intros c Hc Heq. destruct Hc; congruence.
Qed.

(** ** Properties *)


Definition shell_ctx (mode : AskForApproval) (c : list N) : ExecPolicyContext :=
  {| ctx_command := c; cwd := lit "/work"; ctx_tool := None; ctx_path := None;
     ask_for_approval := mode; sandbox_mode := None |}.


(** Wrapping does not evade a denied prefix end to end: a denied command that is
    the script of a shell's `-c`, the body of a substitution, or that follows a
    wrapper prefix (`sudo`, `env X=1`, `timeout 5`) is forbidden, as long as the
    expansion stays below its command bound. *)
Theorem wrapped_command_stays_denied (ci : bool) (e : ExecPolicyEngine) (ctx : ExecPolicyContext)
    (d sh rest : list N) (pre ws : list (list N)) :
  configured_denied e d -> DenyMatch.denied_prefix_matches d (str_join [c_space] ws) = true ->
  ShellExpand.plain_word sh -> ShellExpand.is_shell_name sh = true ->
  ws <> [] -> Forall ShellExpand.plain_word (pre ++ ws) ->
  ShellExpand.strip_leading_wrappers (pre ++ ws) = ws ->
  length (ShellExpand.expanded_commands (ctx_command ctx)) < ShellExpand.MAX_COMMANDS ->
  ctx_command ctx ∈ [ sh ++ lit " -c '" ++ str_join [c_space] ws ++ lit "'";
                      ShellExpand.spaced pre ++ lit "$(" ++ str_join [c_space] ws ++ lit ")" ++ rest;
                      ShellExpand.spaced pre ++ lit "`" ++ str_join [c_space] ws ++ lit "`" ++ rest;
                      str_join [c_space] (pre ++ ws) ] ->
  is_forbidden (check ci e ctx).
Proof.
  intros Hd Hm Hsh Hn Hne Hpw Hst Hl Hin.
  pose proof Hpw as Hpw'. apply Forall_app in Hpw' as [Hpre Hws].
  pose proof (ShellExpand.runs_plain 7 ws Hne Hws) as Hr.
  eapply denied_prefix_forbidden; [exact Hd| |exact Hm]. apply shell_target_scanned.
  split; [by apply ShellExpand.str_join_nonempty|]. right. right. split; [|done].
  revert Hin. rewrite !elem_of_cons. intros [->|[->|[->|[->|Hin]]]].
  - apply ShellExpand.runs_shell_c; try done; [by apply join_plain_avoids|by apply join_plain_not_brace].
  - apply ShellExpand.runs_substitution; try done.
    repeat (apply Forall_and; split); by apply join_plain_avoids.
  - apply ShellExpand.runs_backtick; try done.
    apply Forall_and; split; by apply join_plain_avoids.
  - by apply ShellExpand.runs_stripped.
  - by apply not_elem_of_nil in Hin.
Qed.

Lemma wrapped_command_stays_denied_witness :
  is_forbidden (check false (engine_new [] [lit "rm -rf /"])
    (shell_ctx Never (lit "sudo timeout 5 $(rm -rf / --no-preserve-root) x"))).
Proof.
  apply (wrapped_command_stays_denied _ _ _ (lit "rm -rf /") (lit "bash") (lit " x")
    [lit "sudo"; lit "timeout"; lit "5"] [lit "rm"; lit "-rf"; lit "/"; lit "--no-preserve-root"]).
  - left. vm_compute. constructor.
  - vm_compute. reflexivity.
  - apply (bool_decide_unpack _). vm_compute. exact I.
  - vm_compute. reflexivity.
  - done.
  - apply (bool_decide_unpack _). vm_compute. exact I.
  - vm_compute. reflexivity.
  - apply Nat.ltb_lt. vm_compute. reflexivity.
  - right. left.
Defined.

(** [check] never fails, and its decision is consistent: the two flags are those
    of its requirement, no decision proposes a network amendment or leaves the
    sandbox, and an approval rule is proposed only for an unchained command that
    no typed rule matched, as the one prefix that is its first word. *)
Theorem check_total_consistent (ci : bool) (e : ExecPolicyEngine) (ctx : ExecPolicyContext) :
  exists dec, check ci e ctx = Ok dec
    /\ flags_of (requirement dec) = (allow dec, requires_approval dec)
    /\ match requirement dec with
       | Skip bypass amendment => bypass = false /\ amendment = None
       | NeedsApproval _ amendment network =>
           network = [] /\
           (amendment = None \/
            (amendment = Some {| prefixes := [first_token (ctx_command ctx)] |}
             /\ command_is_chained (ctx_command ctx) = false
             /\ matching_ask_rule ci e ctx = None))
       | Forbidden _ => True
       end.
Proof.
  destruct (check_cases ci e ctx) as [[_ H]|[(_ & _ & _ & H)|(_ & _ & ->)]].
  1,2: destruct H as (reason & rule & act & ->); eexists; split; [reflexivity|done].
  eexists. split; [reflexivity|]. unfold after_deny, mode_requirement.
  destruct (matching_ask_rule ci e ctx) as [rule|]; destruct (command_is_chained (ctx_command ctx));
    try destruct (action rule); try destruct (is_some _); destruct (ask_for_approval ctx) as [| | |a [] c|];
    decision_simpl; auto 10.
Qed.

(** C2: The complete list of the cases in which an invocation runs without anybody
    being asked: no denied prefix matches a scan target, no typed deny rule is
    selected for one, and either the selected typed rule allows an unchained
    command, or no typed rule applies and the mode is [Never] or [OnFailure], or
    [UnlessTrusted] with a trusted prefix that matches an unchained command. *)
Theorem auto_approved_iff (ci : bool) (e : ExecPolicyEngine) (ctx : ExecPolicyContext) :
  auto_approved (check ci e ctx) <->
    ~ prefix_denied e ctx
    /\ (forall t r, t ∈ deny_scan_targets (ctx_command ctx) -> t <> trim (ctx_command ctx) ->
          matching_ask_rule ci e (set_command ctx t) = Some r -> action r <> Deny)
    /\ match matching_ask_rule ci e ctx with
       | Some r => action r = Allow /\ command_is_chained (ctx_command ctx) = false
       | None =>
           match ask_for_approval ctx with
           | Never | OnFailure => True
           | UnlessTrusted =>
               command_is_chained (ctx_command ctx) = false
               /\ exists p, p ∈ (resolve_prefixes e).1
                    /\ BashArity.allow_rule_matches (arity_dict e) p (ctx_command ctx) = true
           | OnRequest | Reject _ _ _ => False
           end
       end.
Proof.
  assert (forall t, t ∈ segment_targets (ctx_command ctx) <->
    t ∈ deny_scan_targets (ctx_command ctx) /\ t <> trim (ctx_command ctx)) as Hseg.
  { intros t. unfold segment_targets. rewrite !list_elem_of_In, List.filter_In, negb_true_iff,
      <-not_true_iff_false, str_eqb_spec. done. }
  destruct (check_cases ci e ctx) as [[Hp H]|[(Hp & r & Hr & H)|(Hp & Hn & ->)]].
  - split; [by intros ?%forbidden_not_auto|tauto].
  - split; [by intros ?%forbidden_not_auto|]. intros (_ & Hall & _). exfalso.
    apply denied_segment_some in Hr as (t & Ht & Hm & Ha). apply Hseg in Ht as [??].
    by apply (Hall t r).
  - rewrite auto_after_deny. rewrite denied_segment_none_iff in Hn. setoid_rewrite Hseg in Hn.
    split; [intros ?; split; [done|]; split; [intros t r ??; by apply Hn|done]|tauto].
Qed.

(** The typed rule that decides is one that applies, and among the applicable
    rules it is greatest by layer first, then by action (deny over ask over
    allow), then by specificity; a rule is selected whenever one applies. *)
Theorem typed_rule_precedence (ci : bool) (e : ExecPolicyEngine) (ctx : ExecPolicyContext) :
  match matching_ask_rule ci e ctx with
  | Some r =>
      exists l, applicable ci e ctx l r
      /\ forall l' r', applicable ci e ctx l' r' ->
           layer_rank l' < layer_rank l
           \/ (layer_rank l' = layer_rank l
               /\ (action_rank (action r') < action_rank (action r)
                   \/ (action_rank (action r') = action_rank (action r)
                       /\ ask_rule_specificity r' <= ask_rule_specificity r)))
  | None => forall l r, ~ applicable ci e ctx l r
  end.
Proof.
  destruct (matching_ask_rule ci e ctx) as [r|] eqn:E.
  - destruct (matching_ask_rule_some _ _ _ _ E) as (l & Ha & Hmax). exists l. split; [done|].
    intros l' r' Ha'. specialize (Hmax _ _ Ha'). unfold key_le in Hmax.
    by rewrite key_leb_spec in Hmax.
  - intros l r Ha. destruct (matching_ask_rule_is_some _ _ _ _ _ Ha) as [x Hx]. congruence.
Qed.

(** A typed deny rule of the highest layer that applies to a command the shell
    runs forbids the whole invocation in every approval mode, so a benign leading
    command does not shield a denied one. *)
Theorem typed_deny_wins (ci : bool) (e : ExecPolicyEngine) (ctx : ExecPolicyContext) (t : list N)
    (l : RulesetLayer) (r : ToolAskRule) :
  shell_target (ctx_command ctx) t -> t <> trim (ctx_command ctx) ->
  applicable ci e (set_command ctx t) l r -> action r = Deny ->
  (forall l' r', applicable ci e (set_command ctx t) l' r' -> layer_rank l' <= layer_rank l) ->
  is_forbidden (check ci e ctx).
Proof.
  intros Ht Hne Ha Hd Htop. destruct (top_deny_selected _ _ _ _ _ Ha Hd Htop) as (r' & Hr & Hd').
  eapply selected_deny_forbidden; [by apply shell_target_scanned|done..].
Qed.

Definition deny_publish : ToolAskRule :=
  {| tool := lit "exec_shell"; command := Some (lit "npm publish"); command_exact := false;
     path := None; workspace := None; action := Deny |}.

Definition publish_engine : ExecPolicyEngine :=
  with_rulesets [with_ask_rules (ruleset_user [] []) [deny_publish]].

Lemma typed_deny_wins_witness :
  is_forbidden (check false publish_engine (shell_ctx OnFailure (lit "ls && npm publish --tag x"))).
Proof.
  apply (typed_deny_wins _ _ _ (lit "npm publish --tag x") User deny_publish).
  - split; [done|]. right. left. apply (bool_decide_unpack _). vm_compute. exact I.
  - apply (bool_decide_unpack _). vm_compute. exact I.
  - split; [vm_compute; constructor|vm_compute; reflexivity].
  - reflexivity.
  - intros l' r' [H _]. vm_compute in H. apply list_elem_of_singleton in H. by injection H as -> ->.
Defined.

(** Session approvals do not take part in the decision. *)
Lemma check_ignores_session ci e key ctx :
  check ci (remember_session_approval e key) ctx = check ci e ctx.
Proof.
  assert (forall c, matching_ask_rule ci (remember_session_approval e key) c = matching_ask_rule ci e c)
    as Hm by done.
  assert (forall l, denied_segment ci (remember_session_approval e key) ctx l = denied_segment ci e ctx l)
    as Hd by (induction l as [|t l IH]; cbn [denied_segment]; [done|]; by rewrite Hm, IH).
  unfold check. rewrite Hd, Hm. reflexivity.
Qed.

(** ** The layers of the engine *)

Definition engine_sorted (e : ExecPolicyEngine) : Prop :=
  StronglySorted (Prelude.key_le ruleset_rank) (rulesets e).

Definition same_but_rulesets (e e' : ExecPolicyEngine) : Prop :=
  trusted_prefixes e' = trusted_prefixes e /\ denied_prefixes e' = denied_prefixes e
  /\ approved_for_session e' = approved_for_session e /\ arity_dict e' = arity_dict e.

Lemma elem_of_set_ruleset e r x :
  x ∈ rulesets (set_ruleset e r) <-> (x ∈ rulesets e /\ layer x <> layer r) \/ x = r.
Proof.
  cbn [set_ruleset set_rulesets rulesets].
  rewrite elem_of_sort_by_key, elem_of_app, list_elem_of_singleton.
  rewrite !list_elem_of_In, List.filter_In, negb_true_iff, bool_decide_eq_false. done.
Qed.

Lemma layer_rank_inj l l' : layer_rank l = layer_rank l' -> l = l'.
Proof. by destruct l, l'. Qed.

Lemma filter_rank_kept (l : list Ruleset) (a : RulesetLayer) k :
  filter (fun y => ruleset_rank y = k)
    (List.filter (fun x => negb (bool_decide (layer x = a))) l)
  = if decide (k = layer_rank a) then [] else filter (fun y => ruleset_rank y = k) l.
Proof.
  induction l as [|x l IH]; [by case_decide|]. cbn [List.filter]. rewrite (filter_cons _ x).
  case_bool_decide as Ha; cbn [negb]; [|rewrite filter_cons]; rewrite IH; unfold ruleset_rank in *;
    repeat case_decide; subst; try done.
  match goal with H : layer_rank _ = layer_rank _ |- _ => by apply layer_rank_inj in H end.
Qed.

Lemma set_ruleset_twice e r r2 :
  layer r2 = layer r -> set_ruleset (set_ruleset e r) r2 = set_ruleset e r2.
Proof.
  intros E. unfold set_ruleset at 1 3, set_rulesets. cbn [rulesets trusted_prefixes denied_prefixes
    approved_for_session arity_dict set_ruleset set_rulesets]. f_equal.
  apply (sorted_key_eq ruleset_rank); [apply sort_by_key_sorted..|]. intros k.
  rewrite !sort_by_key_filter, !filter_app, !filter_rank_kept, sort_by_key_filter, filter_app,
    filter_rank_kept. f_equal. rewrite E. case_decide as Hk; [done|].
  rewrite filter_cons_False by (unfold ruleset_rank; congruence). by rewrite filter_nil, app_nil_r.
Qed.

(** The ruleset operations keep the layers in order of precedence. [add_ruleset]
    keeps every ruleset there was; [set_ruleset] leaves exactly the new one in its
    layer and every other ruleset as it was, and setting a layer again replaces
    the first setting; both leave the rest of the engine alone. *)
Theorem ruleset_operations (e : ExecPolicyEngine) (r : Ruleset) :
  (engine_sorted (add_ruleset e r) /\ engine_sorted (set_ruleset e r))
  /\ (same_but_rulesets e (add_ruleset e r) /\ same_but_rulesets e (set_ruleset e r))
  /\ (forall x, x ∈ rulesets (add_ruleset e r) <-> x ∈ rulesets e \/ x = r)
  /\ (forall x, x ∈ rulesets (set_ruleset e r) <-> (x ∈ rulesets e /\ layer x <> layer r) \/ x = r)
  /\ filter (fun x => layer x = layer r) (rulesets (set_ruleset e r)) = [r]
  /\ (forall r2, layer r2 = layer r -> set_ruleset (set_ruleset e r) r2 = set_ruleset e r2).
Proof.
  split; [split; apply sort_by_key_sorted|]. split; [done|]. split; [|split; [|split]].
  - intros x. cbn [add_ruleset set_rulesets rulesets].
    by rewrite elem_of_sort_by_key, elem_of_app, list_elem_of_singleton.
  - apply elem_of_set_ruleset.
  - rewrite (list_filter_iff _ (fun x => ruleset_rank x = layer_rank (layer r))).
    + cbn [set_ruleset set_rulesets rulesets].
      rewrite sort_by_key_filter, filter_app, filter_rank_kept.
      case_decide; [|done]. by rewrite filter_cons_True.
    + intros x. unfold ruleset_rank. split; [congruence|apply layer_rank_inj].
  - intros r2. apply set_ruleset_twice.
Qed.

(** Session approvals are a set of keys that no ruleset operation touches:
    remembering a key approves it and leaves the answer for every other key. *)
Theorem session_approvals (e : ExecPolicyEngine) (key other : list N) (r : Ruleset) :
  is_session_approved (remember_session_approval e key) key = true
  /\ (other <> key ->
      is_session_approved (remember_session_approval e key) other = is_session_approved e other)
  /\ is_session_approved (set_ruleset e r) other = is_session_approved e other
  /\ is_session_approved (add_ruleset e r) other = is_session_approved e other
  /\ forall ci ctx, check ci (remember_session_approval e key) ctx = check ci e ctx.
Proof.
  unfold is_session_approved. cbn [approved_for_session remember_session_approval].
  split; [apply bool_decide_eq_true; set_solver|]. split; [intros ?; apply bool_decide_ext; set_solver|].
  split; [done|]. split; [done|]. intros ci ctx. apply check_ignores_session.
Qed.

(** ** The bound of the expansion *)

Definition letters : list (list N) := lit <$> ["a"; "b"; "c"; "d"; "e"; "f"; "g"; "h"; "i"; "j"; "k";
  "l"; "m"; "n"; "o"; "p"]%string.

(** 256 two-letter commands, separated by semicolons. *)
Definition padding : list N := (letters ≫= (fun a => (fun b => a ++ b ++ lit "; ") <$> letters)) ≫= id.

(** The bound on the expansion is a bound on what is denied: behind 256 distinct
    commands, a denied command under a wrapper is allowed without approval in
    mode [Never], although the shell runs it and although it is forbidden alone. *)
Theorem padding_evades_deny (ci : bool) :
  let e := engine_new [] [lit "rm -rf /"] in
  is_forbidden (check ci e (shell_ctx Never (lit "sudo rm -rf /")))
  /\ ShellExpand.runs (S ShellExpand.MAX_DEPTH) (padding ++ lit "sudo rm -rf /") (lit "rm -rf /")
  /\ auto_approved (check ci e (shell_ctx Never (padding ++ lit "sudo rm -rf /"))).
Proof.
  intros e. split; [|split].
  - destruct ci; (eexists _, _, _; vm_compute; reflexivity).
  - eapply (ShellExpand.runs_command _ _ [lit "sudo"; lit "rm"; lit "-rf"; lit "/"]).
    + apply (bool_decide_unpack _). vm_compute. exact I.
    + right. vm_compute. reflexivity.
    + done.
  - destruct ci; (eexists; split; [vm_compute; reflexivity|split; reflexivity]).
Qed.

(** ** The approval posture *)

(** The approval postures survive the configuration file: the label of a posture,
    in either case and with any surrounding white space, parses back to it.
    Cycling through the postures visits all three of the cycle and returns to the
    first, never selects [NeverMode], and leaves [NeverMode] in one step. *)
Theorem approval_mode_roundtrip (m : ApprovalMode) (pre post : list N) :
  Forall (fun c => is_whitespace c = true) pre -> Forall (fun c => is_whitespace c = true) post ->
  from_config_value (pre ++ mode_label m ++ post) = Some m
  /\ from_config_value (pre ++ to_ascii_lowercase (mode_label m) ++ post) = Some m
  /\ cycle_permission_next m <> NeverMode
  /\ (m = NeverMode
      \/ ([m; cycle_permission_next m; cycle_permission_next (cycle_permission_next m)]
            ≡ₚ PERMISSION_CYCLE
         /\ cycle_permission_next (cycle_permission_next (cycle_permission_next m)) = m)).
Proof.
  intros Hpre Hpost. unfold from_config_value.
  rewrite !trim_padded by
    (try done; destruct m; apply (bool_decide_unpack _); vm_compute; exact I).
  destruct m; (split; [vm_compute; reflexivity|]; split; [vm_compute; reflexivity|];
    split; [vm_compute; congruence|]); [right..|left; done];
    (split; [apply (bool_decide_unpack _); vm_compute; exact I|vm_compute; reflexivity]).
Qed.

Lemma approval_mode_roundtrip_witness :
  from_config_value (lit "  " ++ mode_label Bypass ++ lit " ") = Some Bypass.
Proof.
  apply (approval_mode_roundtrip Bypass (lit "  ") (lit " "));
    apply (bool_decide_unpack _); vm_compute; exact I.
Defined.

End ExecPolicyFacts.
