(* ===== verification/ShellQuoting.v ===== *)
(** * Spellings of a command line

    A shell word has many spellings: bare, with escapes, in single, double or ANSI
    quotes, or glued together from such pieces. This file defines the spellings
    and shows that the scanner of shell_expand.rs reads every one of them as the
    same words, so that no spelling hides a command from a denied prefix. *)

From stdpp Require Import base list option strings.
From Stdlib Require Import Lia NArith.
From S2P Require Import Prelude RustStr BashArity ShellExpand DenyMatch PathScope ExecPolicy.
From S2P Require Import ExecPolicyFacts.

Module ShellQuoting.
Import ShellExpand.

(** ** Spellings *)

(** One piece of a word. Double quotes escape the four characters that are special
    inside them, ANSI quotes the two. *)
Inductive piece : Type :=
| Bare (t : list N)
| Escaped (t : list N)
| SingleQuoted (t : list N)
| DoubleQuoted (t : list N)
| AnsiQuoted (t : list N).

Definition piece_text (p : piece) : list N :=
  match p with
  | Bare t | Escaped t | SingleQuoted t | DoubleQuoted t | AnsiQuoted t => t
  end.

Definition escape (special : list N) (t : list N) : list N :=
  t ≫= fun c => if bool_decide (c ∈ special) then [c_backslash; c] else [c].

Definition dquote_special : list N := [c_dquote; c_backslash; c_backtick; c_dollar].
Definition ansi_special : list N := [c_squote; c_backslash].

Definition print_piece (p : piece) : list N :=
  match p with
  | Bare t => t
  | Escaped t => t ≫= fun c => [c_backslash; c]
  | SingleQuoted t => c_squote :: t ++ [c_squote]
  | DoubleQuoted t => c_dquote :: escape dquote_special t ++ [c_dquote]
  | AnsiQuoted t => c_dollar :: c_squote :: escape ansi_special t ++ [c_squote]
  end.

Definition piece_ok (p : piece) : Prop :=
  match p with
  | Bare t => t <> [] /\ Forall (fun c => is_special c = false) t
  | Escaped t => t <> [] /\ Forall (fun c => c <> c_nl) t
  | SingleQuoted t => Forall (fun c => c <> c_squote) t
  | DoubleQuoted _ | AnsiQuoted _ => True
  end.

Definition word_text (ps : list piece) : list N := ps ≫= piece_text.
Definition print_word (ps : list piece) : list N := ps ≫= print_piece.
Definition word_ok (ps : list piece) : Prop :=
  ps <> [] /\ Forall piece_ok ps /\ is_brace_word (word_text ps) = false.

Definition is_blank (c : N) : Prop := c = c_space \/ c = c_tab.

(** A command: blanks, words each followed by at least one blank, a last word, blanks. *)
Record spelling : Type := {
  lead : list N;
  init : list (list piece * list N);
  final : list piece;
  trail : list N
}.

Definition spelled_words (s : spelling) : list (list N) :=
  (word_text ∘ fst <$> init s) ++ [word_text (final s)].

Definition print_init (i : list (list piece * list N)) : list N :=
  i ≫= fun '(ps, bs) => print_word ps ++ bs.

Definition print_command (s : spelling) : list N :=
  lead s ++ print_init (init s) ++ print_word (final s) ++ trail s.

Record spelling_ok (s : spelling) : Prop := {
  lead_ok : Forall is_blank (lead s);
  init_ok : Forall (fun wb => word_ok wb.1 /\ wb.2 <> [] /\ Forall is_blank wb.2) (init s);
  final_ok : word_ok (final s);
  trail_ok : Forall is_blank (trail s)
}.

(** Further commands, each after a run of control operators. *)
Definition print_rest (l : list (list N * spelling)) : list N :=
  l ≫= fun '(ops, s) => ops ++ print_command s.

Definition print_line (s : spelling) (l : list (list N * spelling)) : list N :=
  print_command s ++ print_rest l.

Definition rest_ok (l : list (list N * spelling)) : Prop :=
  Forall (fun os => os.1 <> [] /\ Forall (fun c => is_control_operator c = true) os.1
                    /\ spelling_ok os.2) l.

(** ** The scanner on one piece *)

Lemma scan_escaped t rest st :
  t <> [] -> Forall (fun c => c <> c_nl) t ->
  scan_all ((t ≫= fun c => [c_backslash; c]) ++ rest) st = scan_all rest (push_text t st).
Proof.
  intros Hne Ht. revert st. induction Ht as [|c t Hc _ IH]; intros st; [done|].
  rewrite bind_cons. cbn [app]. rewrite scan_all_cons.
  assert (scan_step c_backslash (c :: (t ≫= fun c => [c_backslash; c]) ++ rest) st
    = (push_text [c] st, (t ≫= fun c => [c_backslash; c]) ++ rest)) as ->.
  { unfold scan_step. rewrite N.eqb_refl. by rewrite (proj2 (N.eqb_neq c c_nl)). }
  cbn [fst snd]. destruct t as [|d t]; [done|]. rewrite IH by done. by rewrite push_text_app.
Qed.

Lemma read_dquote_escaped t rest fuel :
  length (escape dquote_special t) < fuel ->
  read_dquote fuel (escape dquote_special t ++ c_dquote :: rest) = (t, [], rest).
Proof.
  revert fuel. induction t as [|c t IH]; intros fuel Hf.
  { destruct fuel; [simpl in Hf; lia|done]. }
  unfold escape in *. rewrite bind_cons, length_app in *. rewrite <-(assoc_L (++)).
  destruct fuel as [|fuel]; [lia|]. case_bool_decide as Hs.
  - cbn [app length] in *. cbn [read_dquote]. rewrite IH by lia. done.
  - cbn [app length] in *. cbn [read_dquote]. rewrite IH by lia.
    unfold dquote_special in Hs. rewrite !not_elem_of_cons in Hs.
    destruct Hs as (H1 & H2 & H3 & H4 & _).
    rewrite (proj2 (N.eqb_neq _ _) H1), (proj2 (N.eqb_neq _ _) H2), (proj2 (N.eqb_neq _ _) H3),
      (proj2 (N.eqb_neq _ _) H4). done.
Qed.

Lemma read_ansi_escaped t rest :
  read_ansi (escape ansi_special t ++ c_squote :: rest) = (t, rest).
Proof.
  induction t as [|c t IH]; [done|]. unfold escape in *. rewrite bind_cons, <-(assoc_L (++)).
  case_bool_decide as Hs.
  - cbn [app]. rewrite read_ansi_eq. cbn [N.eqb Pos.eqb]. by rewrite IH.
  - unfold ansi_special in Hs. rewrite !not_elem_of_cons in Hs. destruct Hs as (H1 & H2 & _).
    cbn [app]. destruct (_ ++ c_squote :: rest) as [|d l] eqn:E; [by destruct (t ≫= _)|].
    rewrite read_ansi_eq, (proj2 (N.eqb_neq _ _) H1), (proj2 (N.eqb_neq _ _) H2). by rewrite IH.
Qed.

Lemma scan_piece p rest st :
  piece_ok p -> scan_all (print_piece p ++ rest) st = scan_all rest (push_text (piece_text p) st).
Proof.
  destruct p as [t|t|t|t|t]; cbn [piece_ok print_piece piece_text].
  - intros [Hne Ht]. by apply scan_plain.
  - intros [Hne Ht]. by apply scan_escaped.
  - intros Ht. cbn [app]. rewrite <-(assoc_L (++)), scan_all_cons. unfold scan_step.
    cbn [N.eqb Pos.eqb app]. by rewrite read_squote_app.
  - intros _. cbn [app]. rewrite <-(assoc_L (++)), scan_all_cons. unfold scan_step.
    cbn [N.eqb Pos.eqb app]. rewrite read_dquote_escaped by (rewrite length_app; simpl; lia).
    cbn [fst snd]. unfold push_dquote, push_text. by rewrite app_nil_r.
  - intros _. cbn [app]. rewrite <-(assoc_L (++)), scan_all_cons. unfold scan_step.
    cbn [N.eqb Pos.eqb app andb starts_with_char tl]. by rewrite read_ansi_escaped.
Qed.

Lemma scan_word ps rest st :
  ps <> [] -> Forall piece_ok ps ->
  scan_all (print_word ps ++ rest) st = scan_all rest (push_text (word_text ps) st).
Proof.
  intros Hne Hps. revert st. induction Hps as [|p ps Hp _ IH]; intros st; [done|].
  unfold print_word, word_text in *. rewrite !bind_cons, <-(assoc_L (++)), scan_piece by done.
  destruct ps as [|q ps]; [by rewrite !app_nil_r|]. rewrite IH by done. by rewrite push_text_app.
Qed.

(** ** The scanner on a command line *)

(** The state between words. *)
Definition idle (cmds : list (list (list N))) (ws : list (list N)) : scan_state :=
  {| commands := cmds; words := ws; word := []; started := false; nested := [] |}.

Lemma flush_idle cmds ws : flush_word (idle cmds ws) = idle cmds ws.
Proof. done. Qed.

Lemma flush_pending cmds ws t : flush_word (push_text t (idle cmds ws)) = idle cmds (ws ++ [t]).
Proof. done. Qed.

Lemma scan_step_blank c rest st : is_blank c -> scan_step c rest st = (flush_word st, rest).
Proof. by intros [-> | ->]. Qed.

Lemma flush_word_idemp st : flush_word (flush_word st) = flush_word st.
Proof.
  unfold flush_word at 2 3. destruct (started st || negb (str_is_empty (word st))) eqn:E; [done|].
  unfold flush_word. by rewrite E.
Qed.

Lemma scan_blanks bs rest st :
  Forall is_blank bs ->
  scan_all (bs ++ rest) st = scan_all rest (if bool_decide (bs = []) then st else flush_word st).
Proof.
  intros Hbs. revert st. induction Hbs as [|b bs Hb _ IH]; intros st; [done|].
  cbn [app]. rewrite scan_all_cons, scan_step_blank by done. cbn [fst snd]. rewrite IH.
  rewrite (bool_decide_false (b :: bs = [])) by done. case_bool_decide; [done|].
  by rewrite flush_word_idemp.
Qed.

Lemma scan_init_words i rest cmds ws :
  Forall (fun wb => word_ok wb.1 /\ wb.2 <> [] /\ Forall is_blank wb.2) i ->
  scan_all (print_init i ++ rest) (idle cmds ws)
  = scan_all rest (idle cmds (ws ++ (word_text ∘ fst <$> i))).
Proof.
  intros Hi. revert ws. induction Hi as [|[ps bs] i ((Hne & Hps & _) & Hb & Hbs) _ IH]; intros ws;
    [by rewrite app_nil_r|].
  unfold print_init in *. rewrite bind_cons, <-!(assoc_L (++)), scan_word by done.
  rewrite scan_blanks, bool_decide_false, flush_pending by done.
  rewrite IH. cbn. by rewrite <-(assoc_L (++)).
Qed.

(** After a command the scanner holds its words, the last one perhaps pending. *)
Lemma scan_command s rest cmds :
  spelling_ok s ->
  exists st, scan_all (print_command s ++ rest) (idle cmds []) = scan_all rest st
    /\ flush_word st = idle cmds (spelled_words s).
Proof.
  intros [Hl Hi (Hne & Hps & _) Ht]. unfold print_command, spelled_words.
  rewrite <-!(assoc_L (++)), scan_blanks by done.
  replace (if bool_decide (lead s = []) then idle cmds [] else flush_word (idle cmds []))
    with (idle cmds []) by by case_bool_decide.
  rewrite scan_init_words, scan_word, scan_blanks by done. eexists. split; [reflexivity|].
  case_bool_decide; by rewrite ?flush_word_idemp, flush_pending.
Qed.

Lemma spelled_words_kept s :
  spelling_ok s ->
  List.filter (fun w => negb (is_brace_word w)) (spelled_words s) = spelled_words s.
Proof.
  intros [_ Hi (_ & _ & Hb) _]. apply filter_brace, Forall_app. split; [|by apply Forall_singleton].
  apply Forall_fmap. eapply Forall_impl; [exact Hi|]. by intros [ps bs] ((_ & _ & ?) & _).
Qed.

Lemma end_command_idle s cmds :
  spelling_ok s -> end_command (idle cmds (spelled_words s)) = idle (cmds ++ [spelled_words s]) [].
Proof.
  intros Hs. unfold end_command. cbn [words idle]. rewrite spelled_words_kept by done.
  unfold spelled_words. by destruct (_ ++ [_]) eqn:E; [destruct (_ <$> _)|].
Qed.

Lemma control_not_special c : is_control_operator c = true -> is_special c = true.
Proof. intros H. unfold is_special. by rewrite H, orb_true_r. Qed.

Lemma scan_step_control c rest st :
  is_control_operator c = true ->
  scan_step c rest st = (end_command (flush_word st), drop_while is_control_operator rest).
Proof.
  intros H. unfold is_control_operator in H. rewrite !orb_true_iff, !N.eqb_eq in H.
  by destruct H as [[[[-> | ->] | ->] | ->] | ->].
Qed.

(** A command does not start with a control operator. *)
Lemma print_word_head ps rest :
  word_ok ps -> drop_while is_control_operator (print_word ps ++ rest) = print_word ps ++ rest.
Proof.
  intros (Hne & Hps & _). destruct Hps as [|p ps Hp _]; [done|].
  unfold print_word. rewrite bind_cons, <-(assoc_L (++)).
  destruct p as [t|t|t|t|t]; try done; cbn [piece_ok print_piece] in *; destruct Hp as [Ht Hf];
    destruct t as [|c t]; try done.
  apply Forall_cons in Hf as [Hc _]. cbn [app drop_while].
  destruct (is_control_operator c) eqn:E; [|done]. apply control_not_special in E. congruence.
Qed.

Lemma print_command_head s rest :
  spelling_ok s ->
  drop_while is_control_operator (print_command s ++ rest) = print_command s ++ rest.
Proof.
  intros [Hl Hi Hf Ht]. unfold print_command. destruct Hl as [|b l [-> | ->] _]; try done.
  cbn [app]. destruct Hi as [|[ps bs] i (Hw & _) _].
  - change (print_init []) with (@nil N). cbn [app]. rewrite <-(assoc_L (++)).
    by apply print_word_head.
  - unfold print_init. rewrite bind_cons, <-!(assoc_L (++)). by apply print_word_head.
Qed.

Lemma scan_operators ops s rest st :
  ops <> [] -> Forall (fun c => is_control_operator c = true) ops -> spelling_ok s ->
  scan_all (ops ++ print_command s ++ rest) st
  = scan_all (print_command s ++ rest) (end_command (flush_word st)).
Proof.
  intros Hne Hops Hs. destruct Hops as [|c ops Hc Hops]; [done|]. cbn [app].
  rewrite scan_all_cons, scan_step_control by done. cbn [fst snd].
  rewrite drop_while_app_all, print_command_head; done.
Qed.

Lemma scan_rest s l cmds :
  spelling_ok s -> rest_ok l ->
  end_command (flush_word (scan_all (print_line s l) (idle cmds [])))
  = idle (cmds ++ spelled_words s :: (spelled_words ∘ snd <$> l)) [].
Proof.
  intros Hs Hl. revert s cmds Hs.
  induction Hl as [|[ops s'] l (Hne & Hops & Hs') _ IH]; intros s cmds Hs; unfold print_line.
  - destruct (scan_command s [] cmds Hs) as (st & E & Hst).
    change (print_rest []) with (@nil N). rewrite E. change (scan_all [] st) with st.
    by rewrite Hst, end_command_idle.
  - destruct (scan_command s (print_rest ((ops, s') :: l)) cmds Hs) as (st & E & Hst).
    rewrite E. unfold print_rest. rewrite bind_cons. fold (print_rest l).
    rewrite <-(assoc_L (++)), scan_operators by done.
    rewrite Hst, end_command_idle by done.
    fold (print_line s' l). rewrite IH by done. by rewrite <-(assoc_L (++)).
Qed.

Lemma tokenize_line s l :
  spelling_ok s -> rest_ok l ->
  tokenize (print_line s l) = idle (spelled_words s :: (spelled_words ∘ snd <$> l)) [].
Proof. intros Hs Hl. rewrite tokenize_alt. apply (scan_rest s l []); done. Qed.

Lemma deny_needs_words d : DenyMatch.denied_prefix_matches d [] = true -> False.
Proof.
  intros (Hne & Ha)%DenyMatch.denied_prefix_matches_alt.
  destruct (DenyMatch.deny_tokens d); [done|]. by apply DenyMatch.accepts_nil_r in Ha.
Qed.

(** ** Properties *)

(** Printing and scanning are inverse: however the words of a chain of commands
    are spelled (bare, escaped, in any of the three quotes, or glued from such
    pieces), whatever blanks and control operators separate them, the scanner
    returns exactly those words, command by command, and takes no quoted text for
    a nested command. *)
Theorem spelling_roundtrip (s : spelling) (l : list (list N * spelling)) :
  spelling_ok s -> rest_ok l ->
  commands (tokenize (print_line s l)) = spelled_words s :: (spelled_words ∘ snd <$> l)
  /\ nested (tokenize (print_line s l)) = [].
Proof. intros Hs Hl. by rewrite tokenize_line. Qed.


(** `ls&& r'm' -\r"f" $'/'`. *)
Definition sneaky_first : spelling :=
  {| lead := []; init := []; final := [Bare (lit "ls")]; trail := [] |}.

Definition sneaky : spelling :=
  {| lead := lit " ";
     init := [([Bare (lit "r"); SingleQuoted (lit "m")], lit " ");
              ([Bare (lit "-"); Escaped (lit "r"); DoubleQuoted (lit "f")], lit "  ")];
     final := [AnsiQuoted (lit "/")]; trail := [] |}.

Lemma sneaky_ok : spelling_ok sneaky_first /\ rest_ok [(lit "&&", sneaky)].
Proof. repeat (constructor || split); try done. Qed.

Lemma spelling_roundtrip_witness :
  commands (tokenize (print_line sneaky_first [(lit "&&", sneaky)]))
  = [[lit "ls"]; [lit "rm"; lit "-rf"; lit "/"]].
Proof. apply (spelling_roundtrip sneaky_first [(lit "&&", sneaky)]); apply sneaky_ok. Defined.


End ShellQuoting.
