(* ===== verification/ProviderRegistry.v ===== *)
(** * The provider registry (crates/config/src/provider_kind.rs, provider.rs, provider_defaults.rs)

    The built-in provider kinds, the names serde accepts for them, the default
    models and endpoints, and one metadata record per provider, in registry
    order. *)

From stdpp Require Import base list option strings.
From Stdlib Require Import NArith.
From S2P Require Import Prelude RustStr.

Module ProviderRegistry.

(** ** Kinds *)

Inductive ProviderKind : Type :=
| KDeepseek | KDeepseekAnthropic | KNvidiaNim | KOpenai | KAtlascloud | KWanjieArk
| KVolcengine | KOpenrouter | KOrcarouter | KXiaomiMimo | KNovita | KFireworks
| KSiliconflow | KArcee | KSiliconflowCN | KMoonshot | KSglang | KVllm | KOllama
| KOllamaCloud | KHuggingface | KTogether | KQianfan | KOpenaiCodex | KAnthropic
| KOpenmodel | KZai | KEasybits | KStepfun | KMinimax | KMinimaxAnthropic | KDeepinfra
| KSakana | KLongCat | KOpencodeGo | KOpencodeZen | KMeta | KXai | KMistral | KTelecomjs
| KModelstudioTokenPlan | KModelstudioTokenPlanAnthropic | KModelstudioCodingPlan
| KModelstudioCodingPlanAnthropic | KAntigravity | KGoogle | KEdenai | KCustom.

#[export] Instance ProviderKind_eq_dec : EqDecision ProviderKind.
Proof. solve_decision. Defined.

(** The variants in declaration order: position is the discriminant. *)
Definition kinds : list ProviderKind := [
  KDeepseek; KDeepseekAnthropic; KNvidiaNim; KOpenai; KAtlascloud; KWanjieArk; KVolcengine;
  KOpenrouter; KOrcarouter; KXiaomiMimo; KNovita; KFireworks; KSiliconflow; KArcee;
  KSiliconflowCN; KMoonshot; KSglang; KVllm; KOllama; KOllamaCloud; KHuggingface; KTogether;
  KQianfan; KOpenaiCodex; KAnthropic; KOpenmodel; KZai; KEasybits; KStepfun; KMinimax;
  KMinimaxAnthropic; KDeepinfra; KSakana; KLongCat; KOpencodeGo; KOpencodeZen; KMeta; KXai;
  KMistral; KTelecomjs; KModelstudioTokenPlan; KModelstudioTokenPlanAnthropic;
  KModelstudioCodingPlan; KModelstudioCodingPlanAnthropic; KAntigravity; KGoogle; KEdenai;
  KCustom].

(** The catalog: one identity per vendor. *)
Definition ALL : list ProviderKind := [
  KDeepseek; KNvidiaNim; KOpenai; KAtlascloud; KWanjieArk; KVolcengine; KOpenrouter;
  KOrcarouter; KXiaomiMimo; KNovita; KFireworks; KSiliconflow; KArcee; KSiliconflowCN;
  KMoonshot; KSglang; KVllm; KOllama; KOllamaCloud; KHuggingface; KTogether; KQianfan;
  KOpenaiCodex; KAnthropic; KOpenmodel; KZai; KEasybits; KStepfun; KMinimax; KDeepinfra;
  KSakana; KLongCat; KOpencodeGo; KOpencodeZen; KMeta; KXai; KMistral; KTelecomjs;
  KModelstudioTokenPlan; KGoogle; KAntigravity; KEdenai; KCustom].

(** The names serde's derived [Deserialize] accepts: the kebab-case variant name,
    then the aliases. *)
Definition serde_names (k : ProviderKind) : list (list N) :=
  match k with
  | KDeepseek => lit <$> [
      "deepseek"; "deepseek-cn"; "deepseek_china"; "deepseekcn"; "deepseek-china"]%string
  | KDeepseekAnthropic => lit <$> [
      "deepseek-anthropic"; "deepseek-anthropic"; "deepseek_anthropic"; "deepseek-claude";
      "deepseek_claude"]%string
  | KNvidiaNim => lit <$> ["nvidia-nim"]%string
  | KOpenai => lit <$> ["openai"; "open-ai"]%string
  | KAtlascloud => lit <$> ["atlascloud"]%string
  | KWanjieArk => lit <$> [
      "wanjie-ark"; "wanjie"; "wanjie_ark"; "ark-wanjie"; "ark_wanjie"; "wanjie-maas";
      "wanjie_maas"]%string
  | KVolcengine => lit <$> ["volcengine"; "volcengine-ark"; "volcengine_ark"; "ark"]%string
  | KOpenrouter => lit <$> ["openrouter"]%string
  | KOrcarouter => lit <$> ["orcarouter"; "orca_router"; "orca"]%string
  | KXiaomiMimo => lit <$> ["xiaomi-mimo"; "mimo"; "xiaomi"; "xiaomi_mimo"]%string
  | KNovita => lit <$> ["novita"; "novita-ai"; "novita_ai"]%string
  | KFireworks => lit <$> ["fireworks"; "fireworks-ai"; "fireworks_ai"]%string
  | KSiliconflow => lit <$> ["siliconflow"; "silicon-flow"; "silicon_flow"]%string
  | KArcee => lit <$> ["arcee"; "arcee-ai"; "arcee_ai"]%string
  | KSiliconflowCN => lit <$> ["siliconflow-c-n"; "siliconflow-cn"; "siliconflow-CN"]%string
  | KMoonshot => lit <$> ["moonshot"; "moonshot-ai"; "moonshotai"; "moonshot_ai"]%string
  | KSglang => lit <$> ["sglang"]%string
  | KVllm => lit <$> ["vllm"]%string
  | KOllama => lit <$> ["ollama"]%string
  | KOllamaCloud => lit <$> ["ollama-cloud"; "ollama_cloud"]%string
  | KHuggingface => lit <$> ["huggingface"; "hugging-face"; "hugging_face"; "hf"]%string
  | KTogether => lit <$> ["together"; "together-ai"; "together_ai"; "togetherai"]%string
  | KQianfan => lit <$> ["qianfan"; "baidu-qianfan"; "baidu_qianfan"; "baidu"]%string
  | KOpenaiCodex => lit <$> [
      "openai-codex"; "openai-codex"; "openai_codex"; "codex"; "chatgpt"; "chatgpt-codex";
      "chatgpt_codex"]%string
  | KAnthropic => lit <$> ["anthropic"; "claude"]%string
  | KOpenmodel => lit <$> ["openmodel"; "open-model"; "open_model"]%string
  | KZai => lit <$> [
      "zai"; "z-ai"; "z_ai"; "z.ai"; "zhipu"; "zhipuai"; "bigmodel"; "big-model"]%string
  | KEasybits => lit <$> ["easybits"; "easy-bits"; "easy_bits"; "eb"]%string
  | KStepfun => lit <$> [
      "stepfun"; "step-fun"; "step_fun"; "stepfun"; "stepflash"; "step-flash"; "step_flash"]%string
  | KMinimax => lit <$> ["minimax"; "mini-max"; "mini_max"; "minimax"]%string
  | KMinimaxAnthropic => lit <$> [
      "minimax-anthropic"; "minimax_anthropic"; "mini-max-anthropic"; "mini_max_anthropic"]%string
  | KDeepinfra => lit <$> ["deepinfra"; "deep-infra"; "deep_infra"]%string
  | KSakana => lit <$> ["sakana"; "sakana-ai"; "sakana_ai"; "fugu"]%string
  | KLongCat => lit <$> ["long-cat"; "long-cat"; "meituan-longcat"; "meituan"]%string
  | KOpencodeGo => lit <$> ["opencode-go"; "opencode_go"; "opencodego"]%string
  | KOpencodeZen => lit <$> [
      "opencode-zen"; "opencode_zen"; "opencodezen"; "zen"; "opencode"]%string
  | KMeta => lit <$> [
      "meta"; "meta-ai"; "meta_ai"; "meta-model-api"; "meta_model_api"; "muse"; "muse-spark"]%string
  | KXai => lit <$> ["xai"; "x-ai"; "x_ai"; "grok"]%string
  | KMistral => lit <$> [
      "mistral"; "mistral-ai"; "mistral_ai"; "mistralai"; "la-plateforme"; "la_plateforme"]%string
  | KTelecomjs => lit <$> [
      "telecomjs"; "telecom-js"; "telecom_js"; "telecomjs-cn"; "tokenhub"]%string
  | KModelstudioTokenPlan => lit <$> [
      "modelstudio-token-plan"; "modelstudio-token-plan"; "modelstudio_token_plan";
      "alibaba-token-plan"; "dashscope-token-plan"]%string
  | KModelstudioTokenPlanAnthropic => lit <$> [
      "modelstudio-token-plan-anthropic"; "modelstudio-token-plan-anthropic";
      "modelstudio_token_plan_anthropic"; "alibaba-token-plan-anthropic"]%string
  | KModelstudioCodingPlan => lit <$> [
      "modelstudio-coding-plan"; "modelstudio-coding-plan"; "modelstudio_coding_plan";
      "alibaba-coding-plan"; "dashscope-coding-plan"]%string
  | KModelstudioCodingPlanAnthropic => lit <$> [
      "modelstudio-coding-plan-anthropic"; "modelstudio-coding-plan-anthropic";
      "modelstudio_coding_plan_anthropic"; "alibaba-coding-plan-anthropic"]%string
  | KAntigravity => lit <$> ["antigravity"; "agy"]%string
  | KGoogle => lit <$> [
      "google"; "google-gemini"; "google_gemini"; "gemini"; "google-ai"; "google_ai";
      "ai-studio"; "aistudio"]%string
  | KEdenai => lit <$> ["edenai"; "eden-ai"; "eden_ai"; "edenai"]%string
  | KCustom => lit <$> ["custom"]%string
  end.

(** ** Default models and endpoints *)

Definition DEFAULT_DEEPSEEK_MODEL : list N := lit "deepseek-v4-pro".
Definition DEFAULT_EASYBITS_MODEL : list N := lit "deepseek-v4-pro".
Definition DEFAULT_DEEPSEEK_ANTHROPIC_MODEL : list N := DEFAULT_DEEPSEEK_MODEL.
Definition DEFAULT_NVIDIA_NIM_MODEL : list N := lit "deepseek-ai/deepseek-v4-pro".
Definition DEFAULT_OPENAI_MODEL : list N := lit "gpt-5.6".
Definition DEFAULT_DEEPSEEK_BASE_URL : list N := lit "https://api.deepseek.com/beta".
Definition DEFAULT_EASYBITS_BASE_URL : list N := lit "https://www.easybits.cloud/api/v2/llm/v1".
Definition DEFAULT_DEEPSEEK_ANTHROPIC_BASE_URL : list N := lit "https://api.deepseek.com/anthropic".
Definition DEFAULT_NVIDIA_NIM_BASE_URL : list N := lit "https://integrate.api.nvidia.com/v1".
Definition DEFAULT_OPENAI_CODEX_MODEL : list N := lit "gpt-5.6".
Definition DEFAULT_ANTHROPIC_MODEL : list N := lit "claude-sonnet-4-6".
Definition DEFAULT_ANTHROPIC_BASE_URL : list N := lit "https://api.anthropic.com".
Definition DEFAULT_OPENMODEL_MODEL : list N := lit "deepseek-v4-flash".
Definition DEFAULT_OPENMODEL_BASE_URL : list N := lit "https://api.openmodel.ai".
Definition DEFAULT_OPENAI_CODEX_BASE_URL : list N := lit "https://chatgpt.com/backend-api".
Definition DEFAULT_OPENAI_BASE_URL : list N := lit "https://api.openai.com/v1".
Definition DEFAULT_ATLASCLOUD_MODEL : list N := lit "deepseek-ai/deepseek-v4-flash".
Definition DEFAULT_ATLASCLOUD_BASE_URL : list N := lit "https://api.atlascloud.ai/v1".
Definition DEFAULT_WANJIE_ARK_MODEL : list N := lit "deepseek-reasoner".
Definition DEFAULT_WANJIE_ARK_BASE_URL : list N := lit "https://maas-openapi.wanjiedata.com/api/v1".
Definition DEFAULT_VOLCENGINE_MODEL : list N := lit "DeepSeek-V4-Pro".
Definition DEFAULT_VOLCENGINE_BASE_URL : list N :=
  lit "https://ark.cn-beijing.volces.com/api/coding/v3".
Definition DEFAULT_OPENROUTER_MODEL : list N := lit "deepseek/deepseek-v4-pro".
Definition DEFAULT_ORCAROUTER_MODEL : list N := lit "deepseek/deepseek-v4-pro".
Definition DEFAULT_XIAOMI_MIMO_MODEL : list N := lit "mimo-v2.5-pro".
Definition DEFAULT_NOVITA_MODEL : list N := lit "deepseek/deepseek-v4-pro".
Definition DEFAULT_FIREWORKS_MODEL : list N := lit "accounts/fireworks/models/deepseek-v4-pro".
Definition DEFAULT_SILICONFLOW_MODEL : list N := lit "deepseek-ai/DeepSeek-V4-Pro".
Definition DEFAULT_ARCEE_MODEL : list N := lit "trinity-large-thinking".
Definition DEFAULT_MOONSHOT_MODEL : list N := lit "kimi-k2.7-code".
Definition DEFAULT_MOONSHOT_BASE_URL : list N := lit "https://api.moonshot.ai/v1".
Definition DEFAULT_SGLANG_MODEL : list N := lit "deepseek-ai/DeepSeek-V4-Pro".
Definition DEFAULT_OPENROUTER_BASE_URL : list N := lit "https://openrouter.ai/api/v1".
Definition DEFAULT_ORCAROUTER_BASE_URL : list N := lit "https://api.orcarouter.ai/v1".
Definition DEFAULT_XIAOMI_MIMO_BASE_URL : list N := lit "https://token-plan-sgp.xiaomimimo.com/v1".
Definition DEFAULT_NOVITA_BASE_URL : list N := lit "https://api.novita.ai/openai/v1".
Definition DEFAULT_FIREWORKS_BASE_URL : list N := lit "https://api.fireworks.ai/inference/v1".
Definition DEFAULT_SILICONFLOW_BASE_URL : list N := lit "https://api.siliconflow.com/v1".
Definition DEFAULT_SILICONFLOW_CN_BASE_URL : list N := lit "https://api.siliconflow.cn/v1".
Definition DEFAULT_ARCEE_BASE_URL : list N := lit "https://api.arcee.ai/api/v1".
Definition DEFAULT_HUGGINGFACE_MODEL : list N := lit "deepseek-ai/DeepSeek-V4-Pro".
Definition DEFAULT_HUGGINGFACE_BASE_URL : list N := lit "https://router.huggingface.co/v1".
Definition DEFAULT_TOGETHER_MODEL : list N := lit "deepseek-ai/DeepSeek-V4-Pro".
Definition DEFAULT_TOGETHER_BASE_URL : list N := lit "https://api.together.xyz/v1".
Definition DEFAULT_QIANFAN_MODEL : list N := lit "ernie-4.0-turbo-8k".
Definition DEFAULT_QIANFAN_BASE_URL : list N := lit "https://api.baiduqianfan.ai/v1".
Definition DEFAULT_SGLANG_BASE_URL : list N := lit "http://localhost:30000/v1".
Definition DEFAULT_VLLM_MODEL : list N := lit "deepseek-ai/DeepSeek-V4-Pro".
Definition DEFAULT_VLLM_BASE_URL : list N := lit "http://localhost:8000/v1".
Definition DEFAULT_OLLAMA_MODEL : list N := lit "deepseek-v4-flash".
Definition DEFAULT_OLLAMA_BASE_URL : list N := lit "http://localhost:11434/v1".
Definition DEFAULT_OLLAMA_CLOUD_MODEL : list N := lit "gpt-oss:120b".
Definition DEFAULT_OLLAMA_CLOUD_BASE_URL : list N := lit "https://ollama.com/v1".
Definition ZAI_GLM_5_3_MODEL : list N := lit "GLM-5.3".
Definition DEFAULT_ZAI_MODEL : list N := ZAI_GLM_5_3_MODEL.
Definition DEFAULT_ZAI_BASE_URL : list N := lit "https://api.z.ai/api/coding/paas/v4".
Definition DEFAULT_STEPFUN_MODEL : list N := lit "step-3.7-flash".
Definition DEFAULT_STEPFUN_BASE_URL : list N := lit "https://api.stepfun.ai/v1".
Definition DEFAULT_MINIMAX_MODEL : list N := lit "MiniMax-M3".
Definition DEFAULT_MINIMAX_BASE_URL : list N := lit "https://api.minimax.io/v1".
Definition DEFAULT_MINIMAX_ANTHROPIC_BASE_URL : list N := lit "https://api.minimax.io/anthropic".
Definition DEFAULT_DEEPINFRA_MODEL : list N := lit "deepseek-ai/DeepSeek-V4-Pro".
Definition DEFAULT_DEEPINFRA_BASE_URL : list N := lit "https://api.deepinfra.com/v1/openai".
Definition DEFAULT_SAKANA_MODEL : list N := lit "fugu".
Definition DEFAULT_SAKANA_BASE_URL : list N := lit "https://api.sakana.ai/v1".
Definition DEFAULT_LONGCAT_MODEL : list N := lit "LongCat-2.0".
Definition DEFAULT_LONGCAT_BASE_URL : list N := lit "https://api.longcat.chat/openai/v1".
Definition DEFAULT_OPENCODE_GO_MODEL : list N := lit "deepseek-v4-pro".
Definition DEFAULT_OPENCODE_GO_BASE_URL : list N := lit "https://opencode.ai/zen/go/v1".
Definition DEFAULT_OPENCODE_ZEN_MODEL : list N := lit "gpt-5.6".
Definition DEFAULT_OPENCODE_ZEN_BASE_URL : list N := lit "https://opencode.ai/zen/v1".
Definition DEFAULT_META_MODEL : list N := lit "muse-spark-1.2".
Definition DEFAULT_META_BASE_URL : list N := lit "https://api.meta.ai/v1".
Definition DEFAULT_XAI_MODEL : list N := lit "grok-4.6".
Definition DEFAULT_XAI_BASE_URL : list N := lit "https://api.x.ai/v1".
Definition DEFAULT_MISTRAL_MODEL : list N := lit "mistral-code-latest".
Definition DEFAULT_MISTRAL_BASE_URL : list N := lit "https://api.mistral.ai/v1".
Definition DEFAULT_TELECOMJS_MODEL : list N := lit "deepseek-v4-pro".
Definition DEFAULT_TELECOMJS_BASE_URL : list N := lit "https://aigw.telecomjs.com/v1".
Definition DEFAULT_EDENAI_MODEL : list N := lit "deepseek/deepseek-v4-pro".
Definition DEFAULT_EDENAI_BASE_URL : list N := lit "https://api.edenai.run/v3".
Definition DEFAULT_MODELSTUDIO_TOKEN_PLAN_MODEL : list N := lit "qwen3.8-max".
Definition DEFAULT_MODELSTUDIO_TOKEN_PLAN_BASE_URL : list N :=
  lit "https://token-plan.ap-southeast-1.maas.aliyuncs.com/compatible-mode/v1".
Definition MODELSTUDIO_TOKEN_PLAN_ANTHROPIC_BASE_URL : list N :=
  lit "https://token-plan.ap-southeast-1.maas.aliyuncs.com/apps/anthropic".
Definition DEFAULT_MODELSTUDIO_CODING_PLAN_BASE_URL : list N :=
  lit "https://coding-intl.dashscope.aliyuncs.com/v1".
Definition MODELSTUDIO_CODING_PLAN_ANTHROPIC_BASE_URL : list N :=
  lit "https://coding-intl.dashscope.aliyuncs.com/apps/anthropic".
Definition DEFAULT_GOOGLE_BASE_URL : list N :=
  lit "https://generativelanguage.googleapis.com/v1beta/openai/".
Definition DEFAULT_GOOGLE_MODEL : list N := lit "gemini-3.1-pro-preview".
Definition DEFAULT_ANTIGRAVITY_BASE_URL : list N :=
  lit "https://cloudcode-pa.googleapis.com/v1internal".
Definition DEFAULT_ANTIGRAVITY_MODEL : list N := lit "gemini-3-pro-preview".

(** ** Metadata *)

Inductive WireFormat : Type := ChatCompletions | Responses | AnthropicMessages.

Inductive WirePolicy : Type :=
| Fixed (format : WireFormat)
| ModelAware.

(** The [Provider] trait as a record of its constant methods. *)
Record Provider : Type := {
  kind : ProviderKind;
  id : list N;
  display_name : list N;
  default_base_url : list N;
  default_model : list N;
  env_vars : list (list N);
  provider_config_key : list N;
  aliases : list (list N);
  wire_policy : WirePolicy
}.

Definition Deepseek : Provider := {|
  kind := KDeepseek; id := lit "deepseek"; display_name := lit "DeepSeek";
  default_base_url := DEFAULT_DEEPSEEK_BASE_URL;
  default_model := DEFAULT_DEEPSEEK_MODEL;
  env_vars := lit <$> ["DEEPSEEK_API_KEY"]%string;
  provider_config_key := lit "deepseek";
  aliases := lit <$> [
    "deep-seek"; "deepseek-cn"; "deepseek_china"; "deepseekcn"; "deepseek-china";
    "deepseek-anthropic"; "deepseek_anthropic"; "deepseek-claude"; "deepseek_claude"]%string;
  wire_policy := ModelAware |}.

Definition DeepseekAnthropic : Provider := {|
  kind := KDeepseekAnthropic; id := lit "deepseek-anthropic"; display_name := lit "DeepSeek";
  default_base_url := DEFAULT_DEEPSEEK_ANTHROPIC_BASE_URL;
  default_model := DEFAULT_DEEPSEEK_ANTHROPIC_MODEL;
  env_vars := lit <$> ["DEEPSEEK_API_KEY"]%string;
  provider_config_key := lit "deepseek_anthropic";
  aliases := [];
  wire_policy := Fixed AnthropicMessages |}.

Definition NvidiaNim : Provider := {|
  kind := KNvidiaNim; id := lit "nvidia-nim"; display_name := lit "NVIDIA NIM";
  default_base_url := DEFAULT_NVIDIA_NIM_BASE_URL;
  default_model := DEFAULT_NVIDIA_NIM_MODEL;
  env_vars := lit <$> ["NVIDIA_API_KEY"; "NVIDIA_NIM_API_KEY"]%string;
  provider_config_key := lit "nvidia_nim";
  aliases := lit <$> ["nvidia"; "nvidia_nim"; "nim"]%string;
  wire_policy := Fixed ChatCompletions |}.

Definition Openai : Provider := {|
  kind := KOpenai; id := lit "openai"; display_name := lit "OpenAI-compatible";
  default_base_url := DEFAULT_OPENAI_BASE_URL;
  default_model := DEFAULT_OPENAI_MODEL;
  env_vars := lit <$> ["OPENAI_API_KEY"]%string;
  provider_config_key := lit "openai";
  aliases := lit <$> ["open-ai"]%string;
  wire_policy := Fixed ChatCompletions |}.

Definition Atlascloud : Provider := {|
  kind := KAtlascloud; id := lit "atlascloud"; display_name := lit "AtlasCloud";
  default_base_url := DEFAULT_ATLASCLOUD_BASE_URL;
  default_model := DEFAULT_ATLASCLOUD_MODEL;
  env_vars := lit <$> ["ATLASCLOUD_API_KEY"]%string;
  provider_config_key := lit "atlascloud";
  aliases := lit <$> ["atlas-cloud"; "atlas_cloud"; "atlas"]%string;
  wire_policy := Fixed ChatCompletions |}.

Definition WanjieArk : Provider := {|
  kind := KWanjieArk; id := lit "wanjie-ark"; display_name := lit "Wanjie Ark";
  default_base_url := DEFAULT_WANJIE_ARK_BASE_URL;
  default_model := DEFAULT_WANJIE_ARK_MODEL;
  env_vars := lit <$> ["WANJIE_ARK_API_KEY"; "WANJIE_API_KEY"; "WANJIE_MAAS_API_KEY"]%string;
  provider_config_key := lit "wanjie_ark";
  aliases := lit <$> [
    "wanjie"; "wanjie_ark"; "ark-wanjie"; "ark_wanjie"; "wanjieark"; "wanjie-maas";
    "wanjie_maas"; "wanjiemaas"]%string;
  wire_policy := Fixed ChatCompletions |}.

Definition Volcengine : Provider := {|
  kind := KVolcengine; id := lit "volcengine"; display_name := lit "Volcengine Ark";
  default_base_url := DEFAULT_VOLCENGINE_BASE_URL;
  default_model := DEFAULT_VOLCENGINE_MODEL;
  env_vars := lit <$> ["VOLCENGINE_API_KEY"; "VOLCENGINE_ARK_API_KEY"; "ARK_API_KEY"]%string;
  provider_config_key := lit "volcengine";
  aliases := lit <$> [
    "volcengine-ark"; "volcengine_ark"; "ark"; "volc-ark"; "volcengineark"]%string;
  wire_policy := Fixed ChatCompletions |}.

Definition Openrouter : Provider := {|
  kind := KOpenrouter; id := lit "openrouter"; display_name := lit "OpenRouter";
  default_base_url := DEFAULT_OPENROUTER_BASE_URL;
  default_model := DEFAULT_OPENROUTER_MODEL;
  env_vars := lit <$> ["OPENROUTER_API_KEY"]%string;
  provider_config_key := lit "openrouter";
  aliases := lit <$> ["open_router"]%string;
  wire_policy := Fixed ChatCompletions |}.

Definition Orcarouter : Provider := {|
  kind := KOrcarouter; id := lit "orcarouter"; display_name := lit "OrcaRouter";
  default_base_url := DEFAULT_ORCAROUTER_BASE_URL;
  default_model := DEFAULT_ORCAROUTER_MODEL;
  env_vars := lit <$> ["ORCAROUTER_API_KEY"]%string;
  provider_config_key := lit "orcarouter";
  aliases := lit <$> ["orca_router"]%string;
  wire_policy := Fixed ChatCompletions |}.

Definition XiaomiMimo : Provider := {|
  kind := KXiaomiMimo; id := lit "xiaomi-mimo"; display_name := lit "Xiaomi MiMo";
  default_base_url := DEFAULT_XIAOMI_MIMO_BASE_URL;
  default_model := DEFAULT_XIAOMI_MIMO_MODEL;
  env_vars := lit <$> [
    "XIAOMI_MIMO_TOKEN_PLAN_API_KEY"; "MIMO_TOKEN_PLAN_API_KEY"; "XIAOMI_MIMO_API_KEY";
    "XIAOMI_API_KEY"; "MIMO_API_KEY"]%string;
  provider_config_key := lit "xiaomi_mimo";
  aliases := lit <$> ["xiaomi_mimo"; "xiaomimimo"; "mimo"; "xiaomi"]%string;
  wire_policy := Fixed ChatCompletions |}.

Definition Novita : Provider := {|
  kind := KNovita; id := lit "novita"; display_name := lit "Novita AI";
  default_base_url := DEFAULT_NOVITA_BASE_URL;
  default_model := DEFAULT_NOVITA_MODEL;
  env_vars := lit <$> ["NOVITA_API_KEY"]%string;
  provider_config_key := lit "novita";
  aliases := lit <$> ["novita-ai"; "novita_ai"]%string;
  wire_policy := Fixed ChatCompletions |}.

Definition Fireworks : Provider := {|
  kind := KFireworks; id := lit "fireworks"; display_name := lit "Fireworks AI";
  default_base_url := DEFAULT_FIREWORKS_BASE_URL;
  default_model := DEFAULT_FIREWORKS_MODEL;
  env_vars := lit <$> ["FIREWORKS_API_KEY"]%string;
  provider_config_key := lit "fireworks";
  aliases := lit <$> ["fireworks-ai"]%string;
  wire_policy := Fixed ChatCompletions |}.

Definition Siliconflow : Provider := {|
  kind := KSiliconflow; id := lit "siliconflow"; display_name := lit "SiliconFlow";
  default_base_url := DEFAULT_SILICONFLOW_BASE_URL;
  default_model := DEFAULT_SILICONFLOW_MODEL;
  env_vars := lit <$> ["SILICONFLOW_API_KEY"]%string;
  provider_config_key := lit "siliconflow";
  aliases := lit <$> ["silicon-flow"; "silicon_flow"]%string;
  wire_policy := Fixed ChatCompletions |}.

Definition Arcee : Provider := {|
  kind := KArcee; id := lit "arcee"; display_name := lit "Arcee AI";
  default_base_url := DEFAULT_ARCEE_BASE_URL;
  default_model := DEFAULT_ARCEE_MODEL;
  env_vars := lit <$> ["ARCEE_API_KEY"]%string;
  provider_config_key := lit "arcee";
  aliases := lit <$> ["arcee-ai"; "arcee_ai"]%string;
  wire_policy := Fixed ChatCompletions |}.

Definition SiliconflowCN : Provider := {|
  kind := KSiliconflowCN; id := lit "siliconflow-CN"; display_name := lit "SiliconFlow (China)";
  default_base_url := DEFAULT_SILICONFLOW_CN_BASE_URL;
  default_model := DEFAULT_SILICONFLOW_MODEL;
  env_vars := lit <$> ["SILICONFLOW_API_KEY"]%string;
  provider_config_key := lit "siliconflow_cn";
  aliases := lit <$> [
    "silicon-flow-cn"; "silicon-flow-CN"; "silicon_flow_cn"; "silicon_flow_CN";
    "siliconflow-china"]%string;
  wire_policy := Fixed ChatCompletions |}.

Definition Moonshot : Provider := {|
  kind := KMoonshot; id := lit "moonshot"; display_name := lit "Moonshot/Kimi";
  default_base_url := DEFAULT_MOONSHOT_BASE_URL;
  default_model := DEFAULT_MOONSHOT_MODEL;
  env_vars := lit <$> ["MOONSHOT_API_KEY"; "KIMI_API_KEY"]%string;
  provider_config_key := lit "moonshot";
  aliases := lit <$> ["moonshot-ai"; "moonshotai"; "moonshot_ai"; "kimi"; "kimi-k2"]%string;
  wire_policy := Fixed ChatCompletions |}.

Definition Sglang : Provider := {|
  kind := KSglang; id := lit "sglang"; display_name := lit "SGLang";
  default_base_url := DEFAULT_SGLANG_BASE_URL;
  default_model := DEFAULT_SGLANG_MODEL;
  env_vars := lit <$> ["SGLANG_API_KEY"]%string;
  provider_config_key := lit "sglang";
  aliases := lit <$> ["sg-lang"]%string;
  wire_policy := Fixed ChatCompletions |}.

Definition Vllm : Provider := {|
  kind := KVllm; id := lit "vllm"; display_name := lit "vLLM";
  default_base_url := DEFAULT_VLLM_BASE_URL;
  default_model := DEFAULT_VLLM_MODEL;
  env_vars := lit <$> ["VLLM_API_KEY"]%string;
  provider_config_key := lit "vllm";
  aliases := lit <$> ["v-llm"]%string;
  wire_policy := Fixed ChatCompletions |}.

Definition Ollama : Provider := {|
  kind := KOllama; id := lit "ollama"; display_name := lit "Ollama";
  default_base_url := DEFAULT_OLLAMA_BASE_URL;
  default_model := DEFAULT_OLLAMA_MODEL;
  env_vars := lit <$> ["OLLAMA_API_KEY"]%string;
  provider_config_key := lit "ollama";
  aliases := lit <$> ["ollama-local"]%string;
  wire_policy := Fixed ChatCompletions |}.

Definition OllamaCloud : Provider := {|
  kind := KOllamaCloud; id := lit "ollama-cloud"; display_name := lit "Ollama Cloud";
  default_base_url := DEFAULT_OLLAMA_CLOUD_BASE_URL;
  default_model := DEFAULT_OLLAMA_CLOUD_MODEL;
  env_vars := lit <$> ["OLLAMA_CLOUD_API_KEY"; "OLLAMA_API_KEY"]%string;
  provider_config_key := lit "ollama_cloud";
  aliases := lit <$> ["ollama_cloud"]%string;
  wire_policy := Fixed ChatCompletions |}.

Definition Huggingface : Provider := {|
  kind := KHuggingface; id := lit "huggingface"; display_name := lit "Hugging Face";
  default_base_url := DEFAULT_HUGGINGFACE_BASE_URL;
  default_model := DEFAULT_HUGGINGFACE_MODEL;
  env_vars := lit <$> ["HUGGINGFACE_API_KEY"; "HF_TOKEN"]%string;
  provider_config_key := lit "huggingface";
  aliases := lit <$> ["hugging-face"; "hugging_face"; "hf"]%string;
  wire_policy := Fixed ChatCompletions |}.

Definition Together : Provider := {|
  kind := KTogether; id := lit "together"; display_name := lit "Together AI";
  default_base_url := DEFAULT_TOGETHER_BASE_URL;
  default_model := DEFAULT_TOGETHER_MODEL;
  env_vars := lit <$> ["TOGETHER_API_KEY"]%string;
  provider_config_key := lit "together";
  aliases := lit <$> ["together-ai"; "together_ai"; "togetherai"]%string;
  wire_policy := Fixed ChatCompletions |}.

Definition Qianfan : Provider := {|
  kind := KQianfan; id := lit "qianfan"; display_name := lit "Baidu Qianfan";
  default_base_url := DEFAULT_QIANFAN_BASE_URL;
  default_model := DEFAULT_QIANFAN_MODEL;
  env_vars := lit <$> ["QIANFAN_API_KEY"; "BAIDU_QIANFAN_API_KEY"]%string;
  provider_config_key := lit "qianfan";
  aliases := lit <$> ["baidu-qianfan"; "baidu_qianfan"; "baidu"]%string;
  wire_policy := Fixed ChatCompletions |}.

Definition OpenaiCodex : Provider := {|
  kind := KOpenaiCodex; id := lit "openai-codex"; display_name := lit "OpenAI Codex (ChatGPT)";
  default_base_url := DEFAULT_OPENAI_CODEX_BASE_URL;
  default_model := DEFAULT_OPENAI_CODEX_MODEL;
  env_vars := lit <$> ["OPENAI_CODEX_ACCESS_TOKEN"; "CODEX_ACCESS_TOKEN"]%string;
  provider_config_key := lit "openai_codex";
  aliases := lit <$> [
    "openai_codex"; "openaicodex"; "codex"; "chatgpt"; "chatgpt-codex"; "chatgpt_codex";
    "chatgptcodex"]%string;
  wire_policy := Fixed Responses |}.

Definition Anthropic : Provider := {|
  kind := KAnthropic; id := lit "anthropic"; display_name := lit "Anthropic";
  default_base_url := DEFAULT_ANTHROPIC_BASE_URL;
  default_model := DEFAULT_ANTHROPIC_MODEL;
  env_vars := lit <$> ["ANTHROPIC_API_KEY"]%string;
  provider_config_key := lit "anthropic";
  aliases := [];
  wire_policy := Fixed AnthropicMessages |}.

Definition Openmodel : Provider := {|
  kind := KOpenmodel; id := lit "openmodel"; display_name := lit "OpenModel";
  default_base_url := DEFAULT_OPENMODEL_BASE_URL;
  default_model := DEFAULT_OPENMODEL_MODEL;
  env_vars := lit <$> ["OPENMODEL_API_KEY"]%string;
  provider_config_key := lit "openmodel";
  aliases := lit <$> ["open-model"; "open_model"]%string;
  wire_policy := Fixed AnthropicMessages |}.

Definition Zai : Provider := {|
  kind := KZai; id := lit "zai"; display_name := lit "Zhipu AI / Z.ai";
  default_base_url := DEFAULT_ZAI_BASE_URL;
  default_model := DEFAULT_ZAI_MODEL;
  env_vars := lit <$> ["ZAI_API_KEY"; "Z_AI_API_KEY"; "ZHIPU_API_KEY"; "GLM_API_KEY"]%string;
  provider_config_key := lit "zai";
  aliases := lit <$> [
    "z-ai"; "z_ai"; "z.ai"; "zhipu"; "zhipuai"; "bigmodel"; "big-model"]%string;
  wire_policy := Fixed ChatCompletions |}.

Definition Easybits : Provider := {|
  kind := KEasybits; id := lit "easybits"; display_name := lit "EasyBits";
  default_base_url := DEFAULT_EASYBITS_BASE_URL;
  default_model := DEFAULT_EASYBITS_MODEL;
  env_vars := lit <$> ["EASYBITS_API_KEY"]%string;
  provider_config_key := lit "easybits";
  aliases := lit <$> ["easy-bits"; "easy_bits"; "eb"]%string;
  wire_policy := Fixed ChatCompletions |}.

Definition Stepfun : Provider := {|
  kind := KStepfun; id := lit "stepfun"; display_name := lit "StepFun / StepFlash";
  default_base_url := DEFAULT_STEPFUN_BASE_URL;
  default_model := DEFAULT_STEPFUN_MODEL;
  env_vars := lit <$> ["STEPFUN_API_KEY"; "STEP_API_KEY"]%string;
  provider_config_key := lit "stepfun";
  aliases := lit <$> [
    "step-fun"; "step_fun"; "stepflash"; "step-flash"; "step_flash"]%string;
  wire_policy := Fixed ChatCompletions |}.

Definition Minimax : Provider := {|
  kind := KMinimax; id := lit "minimax"; display_name := lit "MiniMax";
  default_base_url := DEFAULT_MINIMAX_BASE_URL;
  default_model := DEFAULT_MINIMAX_MODEL;
  env_vars := lit <$> ["MINIMAX_API_KEY"]%string;
  provider_config_key := lit "minimax";
  aliases := lit <$> [
    "mini-max"; "mini_max"; "minimax-anthropic"; "minimax_anthropic"; "mini-max-anthropic";
    "mini_max_anthropic"]%string;
  wire_policy := Fixed ChatCompletions |}.

Definition MinimaxAnthropic : Provider := {|
  kind := KMinimaxAnthropic; id := lit "minimax-anthropic"; display_name := lit "MiniMax";
  default_base_url := DEFAULT_MINIMAX_ANTHROPIC_BASE_URL;
  default_model := DEFAULT_MINIMAX_MODEL;
  env_vars := lit <$> ["MINIMAX_API_KEY"]%string;
  provider_config_key := lit "minimax_anthropic";
  aliases := [];
  wire_policy := Fixed AnthropicMessages |}.

Definition Deepinfra : Provider := {|
  kind := KDeepinfra; id := lit "deepinfra"; display_name := lit "DeepInfra";
  default_base_url := DEFAULT_DEEPINFRA_BASE_URL;
  default_model := DEFAULT_DEEPINFRA_MODEL;
  env_vars := lit <$> ["DEEPINFRA_API_KEY"; "DEEPINFRA_TOKEN"]%string;
  provider_config_key := lit "deepinfra";
  aliases := lit <$> ["deep-infra"; "deep_infra"]%string;
  wire_policy := Fixed ChatCompletions |}.

Definition Sakana : Provider := {|
  kind := KSakana; id := lit "sakana"; display_name := lit "Sakana AI (Fugu)";
  default_base_url := DEFAULT_SAKANA_BASE_URL;
  default_model := DEFAULT_SAKANA_MODEL;
  env_vars := lit <$> ["FUGU_API_KEY"; "SAKANA_API_KEY"]%string;
  provider_config_key := lit "sakana";
  aliases := lit <$> ["sakana-ai"; "sakana_ai"; "fugu"]%string;
  wire_policy := Fixed ChatCompletions |}.

Definition LongCat : Provider := {|
  kind := KLongCat; id := lit "longcat"; display_name := lit "Meituan LongCat";
  default_base_url := DEFAULT_LONGCAT_BASE_URL;
  default_model := DEFAULT_LONGCAT_MODEL;
  env_vars := lit <$> ["LONGCAT_API_KEY"]%string;
  provider_config_key := lit "longcat";
  aliases := lit <$> ["long-cat"; "meituan-longcat"; "meituan"]%string;
  wire_policy := Fixed ChatCompletions |}.

Definition OpencodeGo : Provider := {|
  kind := KOpencodeGo; id := lit "opencode-go"; display_name := lit "OpenCode Go";
  default_base_url := DEFAULT_OPENCODE_GO_BASE_URL;
  default_model := DEFAULT_OPENCODE_GO_MODEL;
  env_vars := lit <$> ["OPENCODE_GO_API_KEY"]%string;
  provider_config_key := lit "opencode_go";
  aliases := lit <$> ["opencode_go"; "opencodego"]%string;
  wire_policy := Fixed ChatCompletions |}.

Definition OpencodeZen : Provider := {|
  kind := KOpencodeZen; id := lit "opencode-zen"; display_name := lit "OpenCode Zen";
  default_base_url := DEFAULT_OPENCODE_ZEN_BASE_URL;
  default_model := DEFAULT_OPENCODE_ZEN_MODEL;
  env_vars := lit <$> ["OPENCODE_ZEN_API_KEY"; "OPENCODE_API_KEY"]%string;
  provider_config_key := lit "opencode_zen";
  aliases := lit <$> ["opencode_zen"; "opencodezen"; "zen"; "opencode"]%string;
  wire_policy := ModelAware |}.

Definition Meta : Provider := {|
  kind := KMeta; id := lit "meta"; display_name := lit "Meta Model API";
  default_base_url := DEFAULT_META_BASE_URL;
  default_model := DEFAULT_META_MODEL;
  env_vars := lit <$> ["META_MODEL_API_KEY"; "MODEL_API_KEY"]%string;
  provider_config_key := lit "meta";
  aliases := lit <$> [
    "meta-ai"; "meta_ai"; "meta-model-api"; "meta_model_api"; "muse"; "muse-spark"]%string;
  wire_policy := Fixed ChatCompletions |}.

Definition Xai : Provider := {|
  kind := KXai; id := lit "xai"; display_name := lit "xAI";
  default_base_url := DEFAULT_XAI_BASE_URL;
  default_model := DEFAULT_XAI_MODEL;
  env_vars := lit <$> ["XAI_API_KEY"]%string;
  provider_config_key := lit "xai";
  aliases := lit <$> ["x-ai"; "x_ai"; "grok"]%string;
  wire_policy := Fixed ChatCompletions |}.

Definition Mistral : Provider := {|
  kind := KMistral; id := lit "mistral"; display_name := lit "Mistral AI";
  default_base_url := DEFAULT_MISTRAL_BASE_URL;
  default_model := DEFAULT_MISTRAL_MODEL;
  env_vars := lit <$> ["MISTRAL_API_KEY"]%string;
  provider_config_key := lit "mistral";
  aliases := lit <$> [
    "mistral-ai"; "mistral_ai"; "mistralai"; "la-plateforme"; "la_plateforme"]%string;
  wire_policy := Fixed ChatCompletions |}.

Definition Telecomjs : Provider := {|
  kind := KTelecomjs; id := lit "telecomjs"; display_name := lit "TelecomJS TokenHub";
  default_base_url := DEFAULT_TELECOMJS_BASE_URL;
  default_model := DEFAULT_TELECOMJS_MODEL;
  env_vars := lit <$> ["TELECOMJS_API_KEY"]%string;
  provider_config_key := lit "telecomjs";
  aliases := lit <$> ["telecom-js"; "telecom_js"; "telecomjs-cn"; "tokenhub"]%string;
  wire_policy := Fixed ChatCompletions |}.

Definition Edenai : Provider := {|
  kind := KEdenai; id := lit "edenai"; display_name := lit "Eden AI";
  default_base_url := DEFAULT_EDENAI_BASE_URL;
  default_model := DEFAULT_EDENAI_MODEL;
  env_vars := lit <$> ["EDENAI_API_KEY"]%string;
  provider_config_key := lit "edenai";
  aliases := lit <$> ["eden-ai"; "eden_ai"]%string;
  wire_policy := Fixed ChatCompletions |}.

Definition ModelstudioTokenPlan : Provider := {|
  kind := KModelstudioTokenPlan; id := lit "modelstudio-token-plan"; display_name := lit "Alibaba Cloud Model Studio";
  default_base_url := DEFAULT_MODELSTUDIO_TOKEN_PLAN_BASE_URL;
  default_model := DEFAULT_MODELSTUDIO_TOKEN_PLAN_MODEL;
  env_vars := lit <$> ["MODELSTUDIO_API_KEY"; "DASHSCOPE_API_KEY"]%string;
  provider_config_key := lit "modelstudio_token_plan";
  aliases := lit <$> [
    "modelstudio-token-plan"; "modelstudio_token_plan"; "modelstudio"; "alibaba-token-plan";
    "dashscope-token-plan"; "alibaba"; "dashscope"; "modelstudio-coding-plan";
    "modelstudio_coding_plan"; "alibaba-coding-plan"; "dashscope-coding-plan";
    "modelstudio-token-plan-anthropic"; "modelstudio_token_plan_anthropic";
    "alibaba-token-plan-anthropic"; "modelstudio-coding-plan-anthropic";
    "modelstudio_coding_plan_anthropic"; "alibaba-coding-plan-anthropic"]%string;
  wire_policy := Fixed ChatCompletions |}.

Definition ModelstudioTokenPlanAnthropic : Provider := {|
  kind := KModelstudioTokenPlanAnthropic; id := lit "modelstudio-token-plan-anthropic"; display_name := lit "Alibaba Cloud Model Studio";
  default_base_url := MODELSTUDIO_TOKEN_PLAN_ANTHROPIC_BASE_URL;
  default_model := DEFAULT_MODELSTUDIO_TOKEN_PLAN_MODEL;
  env_vars := lit <$> ["MODELSTUDIO_API_KEY"; "DASHSCOPE_API_KEY"]%string;
  provider_config_key := lit "modelstudio_token_plan_anthropic";
  aliases := [];
  wire_policy := Fixed AnthropicMessages |}.

Definition ModelstudioCodingPlan : Provider := {|
  kind := KModelstudioCodingPlan; id := lit "modelstudio-coding-plan"; display_name := lit "Alibaba Cloud Model Studio";
  default_base_url := DEFAULT_MODELSTUDIO_CODING_PLAN_BASE_URL;
  default_model := DEFAULT_MODELSTUDIO_TOKEN_PLAN_MODEL;
  env_vars := lit <$> ["MODELSTUDIO_API_KEY"; "DASHSCOPE_API_KEY"]%string;
  provider_config_key := lit "modelstudio_coding_plan";
  aliases := [];
  wire_policy := Fixed ChatCompletions |}.

Definition ModelstudioCodingPlanAnthropic : Provider := {|
  kind := KModelstudioCodingPlanAnthropic; id := lit "modelstudio-coding-plan-anthropic"; display_name := lit "Alibaba Cloud Model Studio";
  default_base_url := MODELSTUDIO_CODING_PLAN_ANTHROPIC_BASE_URL;
  default_model := DEFAULT_MODELSTUDIO_TOKEN_PLAN_MODEL;
  env_vars := lit <$> ["MODELSTUDIO_API_KEY"; "DASHSCOPE_API_KEY"]%string;
  provider_config_key := lit "modelstudio_coding_plan_anthropic";
  aliases := [];
  wire_policy := Fixed AnthropicMessages |}.

Definition Google : Provider := {|
  kind := KGoogle; id := lit "google"; display_name := lit "Google Gemini";
  default_base_url := DEFAULT_GOOGLE_BASE_URL;
  default_model := DEFAULT_GOOGLE_MODEL;
  env_vars := lit <$> ["GOOGLE_API_KEY"; "GEMINI_API_KEY"]%string;
  provider_config_key := lit "google";
  aliases := lit <$> [
    "google-gemini"; "google_gemini"; "gemini"; "google-ai"; "google_ai"; "ai-studio";
    "aistudio"]%string;
  wire_policy := Fixed ChatCompletions |}.

Definition Antigravity : Provider := {|
  kind := KAntigravity; id := lit "antigravity"; display_name := lit "Google Antigravity";
  default_base_url := DEFAULT_ANTIGRAVITY_BASE_URL;
  default_model := DEFAULT_ANTIGRAVITY_MODEL;
  env_vars := lit <$> ["ANTIGRAVITY_API_KEY"]%string;
  provider_config_key := lit "antigravity";
  aliases := lit <$> ["agy"]%string;
  wire_policy := Fixed ChatCompletions |}.

Definition Custom : Provider := {|
  kind := KCustom; id := lit "custom"; display_name := lit "Custom (OpenAI-compatible)";
  default_base_url := lit "http://localhost/v1";
  default_model := lit "custom-model";
  env_vars := [];
  provider_config_key := lit "custom";
  aliases := [];
  wire_policy := Fixed ChatCompletions |}.

Definition PROVIDER_REGISTRY : list Provider := [
  Deepseek; DeepseekAnthropic; NvidiaNim; Openai; Atlascloud; WanjieArk; Volcengine;
  Openrouter; Orcarouter; XiaomiMimo; Novita; Fireworks; Siliconflow; Arcee; SiliconflowCN;
  Moonshot; Sglang; Vllm; Ollama; OllamaCloud; Huggingface; Together; Qianfan; OpenaiCodex;
  Anthropic; Openmodel; Zai; Easybits; Stepfun; Minimax; MinimaxAnthropic; Deepinfra; Sakana;
  LongCat; OpencodeGo; OpencodeZen; Meta; Xai; Mistral; Telecomjs; Edenai;
  ModelstudioTokenPlan; ModelstudioTokenPlanAnthropic; ModelstudioCodingPlan;
  ModelstudioCodingPlanAnthropic; Google; Antigravity; Custom].

End ProviderRegistry.
