(* ===== verification/Providers.v ===== *)
(** * Provider identities and exact routes (crates/config/src/provider*.rs, crates/tui/src/config.rs)

    Resolution of a provider name to its kind, the two-way translation between
    the configuration's kinds and the terminal's [ApiProvider], and the predicates
    that say when an endpoint is exactly a vendor's own. *)

From stdpp Require Import base list option gmap strings.
From Stdlib Require Import Lia NArith.
From S2P Require Import Prelude RustStr ProviderRegistry.

Module Providers.
Import ProviderRegistry.

(** ** Resolution of names (provider_kind.rs, provider.rs) *)

Definition all_providers : list Provider := PROVIDER_REGISTRY.

(** [None] stands for the panic of a kind missing from the registry. *)
Definition provider_for_kind (k : ProviderKind) : option Provider :=
  List.find (fun p => bool_decide (kind p = k)) PROVIDER_REGISTRY.

Definition kind_as_str (k : ProviderKind) : option (list N) := id <$> provider_for_kind k.

Definition named (trimmed : list N) (p : Provider) : bool :=
  eq_ignore_ascii_case trimmed (id p) || existsb (eq_ignore_ascii_case trimmed) (aliases p).

Definition parse (value : list N) : option ProviderKind :=
  kind <$> List.find (named (trim value)) all_providers.

Definition config_named (trimmed : list N) (p : Provider) : bool :=
  eq_ignore_ascii_case trimmed (id p) || eq_ignore_ascii_case trimmed (provider_config_key p).

Definition parse_config_identity (value : list N) : option ProviderKind :=
  match List.find (config_named (trim value)) all_providers with
  | Some p => Some (kind p)
  | None => parse (trim value)
  end.

Definition lookup_provider (name : list N) : option Provider :=
  List.find (fun p => str_eqb (id p) (trim name)) all_providers.

Definition resolve_provider (name : list N) : option Provider :=
  match parse name with Some k => provider_for_kind k | None => None end.

Definition is_siliconflow (k : ProviderKind) : bool :=
  match k with KSiliconflow | KSiliconflowCN => true | _ => false end.

Definition secret_store_slot (k : ProviderKind) : option (list N) :=
  match k with
  | KSiliconflowCN => Some (lit "siliconflow")
  | KModelstudioTokenPlan | KModelstudioTokenPlanAnthropic | KModelstudioCodingPlan
  | KModelstudioCodingPlanAnthropic => Some (lit "modelstudio-token-plan")
  | _ => kind_as_str k
  end.

Definition policy_fixed (w : WirePolicy) : option WireFormat :=
  match w with Fixed f => Some f | ModelAware => None end.

Definition policy_resolve (w : WirePolicy) (endpoint_key : list N) : option WireFormat :=
  match w with
  | Fixed f => Some f
  | ModelAware =>
      let key := to_ascii_lowercase (trim endpoint_key) in
      if existsb (str_eqb key) (lit <$> ["chat"; "chat_completions"; "chat-completions"]%string)
      then Some ChatCompletions
      else if str_eqb key (lit "responses") then Some Responses
      else if existsb (str_eqb key)
                (lit <$> ["messages"; "anthropic_messages"; "anthropic-messages"]%string)
      then Some AnthropicMessages
      else None
  end.

(** ** The terminal's providers (crates/tui/src/config.rs) *)

Inductive ApiProvider : Type :=
| Deepseek | DeepseekCN | DeepseekAnthropic | NvidiaNim | Openai | Atlascloud | WanjieArk
| Volcengine | Openrouter | Orcarouter | XiaomiMimo | Novita | Fireworks | Siliconflow
| SiliconflowCn | Arcee | Moonshot | Sglang | Vllm | Ollama | OllamaCloud | Huggingface
| Together | Qianfan | OpenaiCodex | Anthropic | Openmodel | Zai | Easybits | Stepfun
| Minimax | MinimaxAnthropic | Deepinfra | Sakana | LongCat | OpencodeGo | OpencodeZen
| Meta | Xai | Mistral | Google | Antigravity | Telecomjs | Edenai | ModelstudioTokenPlan
| ModelstudioTokenPlanAnthropic | ModelstudioCodingPlan | ModelstudioCodingPlanAnthropic
| Custom.

#[export] Instance ApiProvider_eq_dec : EqDecision ApiProvider.
Proof. solve_decision. Defined.

(** The variants in declaration order: position is the discriminant. *)
Definition api_providers : list ApiProvider := [
  Deepseek; DeepseekCN; DeepseekAnthropic; NvidiaNim; Openai; Atlascloud; WanjieArk;
  Volcengine; Openrouter; Orcarouter; XiaomiMimo; Novita; Fireworks; Siliconflow;
  SiliconflowCn; Arcee; Moonshot; Sglang; Vllm; Ollama; OllamaCloud; Huggingface; Together;
  Qianfan; OpenaiCodex; Anthropic; Openmodel; Zai; Easybits; Stepfun; Minimax;
  MinimaxAnthropic; Deepinfra; Sakana; LongCat; OpencodeGo; OpencodeZen; Meta; Xai; Mistral;
  Google; Antigravity; Telecomjs; Edenai; ModelstudioTokenPlan; ModelstudioTokenPlanAnthropic;
  ModelstudioCodingPlan; ModelstudioCodingPlanAnthropic; Custom].

(** [self as usize]. *)
Definition discriminant {A : Type} `{EqDecision A} (variants : list A) (x : A) : option nat :=
  position (fun y => bool_decide (y = x)) variants.

Definition KIND_LOOKUP : list (option ProviderKind) := [
  Some KDeepseek; None; Some KDeepseekAnthropic; Some KNvidiaNim; Some KOpenai;
  Some KAtlascloud; Some KWanjieArk; Some KVolcengine; Some KOpenrouter; Some KOrcarouter;
  Some KXiaomiMimo; Some KNovita; Some KFireworks; Some KSiliconflow; Some KSiliconflowCN;
  Some KArcee; Some KMoonshot; Some KSglang; Some KVllm; Some KOllama; Some KOllamaCloud;
  Some KHuggingface; Some KTogether; Some KQianfan; Some KOpenaiCodex; Some KAnthropic;
  Some KOpenmodel; Some KZai; Some KEasybits; Some KStepfun; Some KMinimax;
  Some KMinimaxAnthropic; Some KDeepinfra; Some KSakana; Some KLongCat; Some KOpencodeGo;
  Some KOpencodeZen; Some KMeta; Some KXai; Some KMistral; Some KGoogle; Some KAntigravity;
  Some KTelecomjs; Some KEdenai; Some KModelstudioTokenPlan;
  Some KModelstudioTokenPlanAnthropic; Some KModelstudioCodingPlan;
  Some KModelstudioCodingPlanAnthropic; Some KCustom].

Definition FROM_KIND_LOOKUP : list ApiProvider := [
  Deepseek; DeepseekAnthropic; NvidiaNim; Openai; Atlascloud; WanjieArk; Volcengine;
  Openrouter; Orcarouter; XiaomiMimo; Novita; Fireworks; Siliconflow; Arcee; SiliconflowCn;
  Moonshot; Sglang; Vllm; Ollama; OllamaCloud; Huggingface; Together; Qianfan; OpenaiCodex;
  Anthropic; Openmodel; Zai; Easybits; Stepfun; Minimax; MinimaxAnthropic; Deepinfra; Sakana;
  LongCat; OpencodeGo; OpencodeZen; Meta; Xai; Mistral; Telecomjs; ModelstudioTokenPlan;
  ModelstudioTokenPlanAnthropic; ModelstudioCodingPlan; ModelstudioCodingPlanAnthropic;
  Antigravity; Google; Edenai; Custom].

(** Table lookup by discriminant; the outer [None] stands for an index out of
    range, a panic in the code. *)
Definition api_kind (p : ApiProvider) : option (option ProviderKind) :=
  match discriminant api_providers p with Some i => KIND_LOOKUP !! i | None => None end.

Definition from_kind (k : ProviderKind) : option ApiProvider :=
  match discriminant kinds k with Some i => FROM_KIND_LOOKUP !! i | None => None end.

Definition as_str (p : ApiProvider) : option (list N) :=
  match api_kind p with
  | Some (Some k) => kind_as_str k
  | Some None => Some (lit "deepseek-cn")
  | None => None
  end.

Definition catalog_identity (p : ApiProvider) : ApiProvider :=
  match p with
  | DeepseekAnthropic => Deepseek
  | MinimaxAnthropic => Minimax
  | ModelstudioTokenPlanAnthropic | ModelstudioCodingPlan | ModelstudioCodingPlanAnthropic =>
      ModelstudioTokenPlan
  | other => other
  end.

Definition is_self_hosted (p : ApiProvider) : bool :=
  match p with Sglang | Vllm | Ollama => true | _ => false end.

Definition api_parse (value : list N) : option ApiProvider :=
  let trimmed := trim value in
  let is_any names := existsb (fun n => eq_ignore_ascii_case trimmed (lit n)) names in
  if is_any ["deepseek-cn"; "deepseek_china"; "deepseekcn"; "deepseek-china"]%string
  then Some DeepseekCN
  else if is_any ["deepseek-anthropic"; "deepseek_anthropic"; "deepseek-claude";
                  "deepseek_claude"]%string
  then Some DeepseekAnthropic
  else if is_any ["minimax-anthropic"; "minimax_anthropic"; "mini-max-anthropic";
                  "mini_max_anthropic"]%string
  then Some MinimaxAnthropic
  else match parse value with Some k => from_kind k | None => None end.

(** ** Exact routes *)

Definition is_exact_https_route (base_url expected_authority expected_path : list N) : bool :=
  let trimmed := trim base_url in
  let normalized := default trimmed (strip_suffix_char c_slash trimmed) in
  match split_once_str (lit "://") normalized with
  | None => false
  | Some (scheme, authority_and_path) =>
      match split_once c_slash authority_and_path with
      | None => false
      | Some (authority, path) =>
          eq_ignore_ascii_case scheme (lit "https")
          && eq_ignore_ascii_case authority expected_authority
          && str_eqb path expected_path
      end
  end.

Definition is_exact_kimi_code_route (k : ProviderKind) (base_url : list N) : bool :=
  if negb (bool_decide (k = KMoonshot)) then false
  else is_exact_https_route base_url (lit "api.kimi.com") (lit "coding/v1").

Definition is_exact_ollama_cloud_route (k : ProviderKind) (base_url : list N) : bool :=
  match k with KOllama | KOllamaCloud => true | _ => false end
  && is_exact_https_route base_url (lit "ollama.com") (lit "v1").

Definition migrates_legacy_ollama_cloud_route (k : ProviderKind) (base_url : list N) : bool :=
  bool_decide (k = KOllama) && is_exact_ollama_cloud_route k base_url.

Definition is_exact_moonshot_platform_route (k : ProviderKind) (base_url : list N) : bool :=
  bool_decide (k = KMoonshot) && is_exact_https_route base_url (lit "api.moonshot.ai") (lit "v1").

Definition is_exact_xai_platform_route (k : ProviderKind) (base_url : list N) : bool :=
  bool_decide (k = KXai) && is_exact_https_route base_url (lit "api.x.ai") (lit "v1").

Definition is_exact_zai_chat_kind_route (k : ProviderKind) (base_url : list N) : bool :=
  bool_decide (k = KZai)
  && (is_exact_https_route base_url (lit "api.z.ai") (lit "api/coding/paas/v4")
      || is_exact_https_route base_url (lit "api.z.ai") (lit "api/paas/v4")).

Definition is_exact_minimax_chat_route (k : ProviderKind) (base_url : list N) : bool :=
  bool_decide (k = KMinimax)
  && (is_exact_https_route base_url (lit "api.minimax.io") (lit "v1")
      || is_exact_https_route base_url (lit "api.minimaxi.com") (lit "v1")).

Definition is_exact_minimax_anthropic_route (k : ProviderKind) (base_url : list N) : bool :=
  bool_decide (k = KMinimaxAnthropic)
  && (is_exact_https_route base_url (lit "api.minimax.io") (lit "anthropic")
      || is_exact_https_route base_url (lit "api.minimaxi.com") (lit "anthropic")).

(** ** Exact model routes (crates/tui/src/config.rs, config/models.rs) *)

Definition MOONSHOT_KIMI_K3_MODEL : list N := lit "kimi-k3".
Definition KIMI_CODE_K3_MODEL : list N := lit "k3".
Definition KIMI_CODE_K3_256K_MODEL : list N := lit "k3-256k".
Definition ZAI_GLM_5_1_MODEL : list N := lit "GLM-5.1".
Definition ZAI_GLM_5_2_MODEL : list N := lit "GLM-5.2".
Definition ZAI_GLM_5_3_FLASH_MODEL : list N := lit "GLM-5.3-Flash".
Definition ZAI_GLM_5_TURBO_MODEL : list N := lit "GLM-5-Turbo".

Definition is_model (model name : list N) : bool := eq_ignore_ascii_case (trim model) name.

Definition moonshot_base_url_is_exact_kimi_code (base_url : list N) : bool :=
  is_exact_kimi_code_route KMoonshot base_url.

Definition moonshot_base_url_is_exact_direct_platform (base_url : list N) : bool :=
  is_exact_moonshot_platform_route KMoonshot base_url.

Definition is_exact_direct_moonshot_k3_route (p : ApiProvider) (base_url model : list N) : bool :=
  bool_decide (p = Moonshot) && moonshot_base_url_is_exact_direct_platform base_url
  && is_model model MOONSHOT_KIMI_K3_MODEL.

Definition is_exact_kimi_code_k3_route (p : ApiProvider) (base_url model : list N) : bool :=
  bool_decide (p = Moonshot) && moonshot_base_url_is_exact_kimi_code base_url
  && existsb (is_model model) [KIMI_CODE_K3_MODEL; KIMI_CODE_K3_256K_MODEL].

Definition is_exact_zai_chat_route (p : ApiProvider) (base_url : list N) : bool :=
  bool_decide (p = Zai) && is_exact_zai_chat_kind_route KZai base_url.

Definition is_exact_zai_tiered_effort_route (p : ApiProvider) (base_url model : list N) : bool :=
  is_exact_zai_chat_route p base_url
  && (is_model model ZAI_GLM_5_2_MODEL || is_model model ZAI_GLM_5_3_MODEL
      || is_model model ZAI_GLM_5_3_FLASH_MODEL).

Definition is_exact_zai_glm_5_turbo_route (p : ApiProvider) (base_url model : list N) : bool :=
  is_exact_zai_chat_route p base_url && is_model model ZAI_GLM_5_TURBO_MODEL.

Definition is_exact_known_zai_reasoning_route (p : ApiProvider) (base_url model : list N) : bool :=
  is_exact_zai_tiered_effort_route p base_url model
  || is_exact_zai_glm_5_turbo_route p base_url model
  || (is_exact_zai_chat_route p base_url && is_model model ZAI_GLM_5_1_MODEL).

Definition is_exact_minimax_m3_route (p : ApiProvider) (base_url model : list N) : bool :=
  bool_decide (p = Minimax) && is_exact_minimax_chat_route KMinimax base_url
  && is_model model DEFAULT_MINIMAX_MODEL.

Definition is_exact_minimax_anthropic_m3_route (p : ApiProvider) (base_url model : list N) : bool :=
  bool_decide (p = MinimaxAnthropic) && is_exact_minimax_anthropic_route KMinimaxAnthropic base_url
  && is_model model DEFAULT_MINIMAX_MODEL.

(** ** Lemmas *)

Lemma kinds_complete (k : ProviderKind) : k ∈ kinds.
Proof. apply (bool_decide_unpack _). by destruct k. Qed.

Lemma api_providers_complete (p : ApiProvider) : p ∈ api_providers.
Proof. apply (bool_decide_unpack _). by destruct p. Qed.

(** Matching by name depends on the value only up to case and outer space. *)
Lemma config_named_lower a b p :
  to_ascii_lowercase a = to_ascii_lowercase b -> config_named a p = config_named b p.
Proof. unfold config_named, eq_ignore_ascii_case. by intros ->. Qed.

Lemma find_ext {A} (f g : A -> bool) l :
  (forall x, f x = g x) -> List.find f l = List.find g l.
Proof. intros H. induction l as [|x l IH]; simpl; [done|]. by rewrite H, IH. Qed.

(** A registered kind is the first whose id or table key its own id names. *)
Lemma registry_ids_first (k : ProviderKind) :
  exists s, kind_as_str k = Some s
    /\ kind <$> List.find (config_named s) all_providers = Some k.
Proof. destruct k; (eexists; split; [vm_compute; reflexivity|vm_compute; reflexivity]). Qed.

Lemma trailing_slash_normalized u :
  exists t, (t = [] \/ t = [c_slash]) /\
    u = default u (strip_suffix_char c_slash u) ++ t.
Proof.
  destruct (strip_suffix_char c_slash u) as [r|] eqn:E; simpl.
  - apply strip_suffix_char_spec in E as ->. eauto.
  - exists []. rewrite app_nil_r. auto.
Qed.

(** ** Properties *)

(** An endpoint counts as a vendor's own exactly when, up to outer white space
    and one trailing slash, it is the vendor's path on the vendor's host over
    https; scheme and host are compared without case, the path with case. *)
Theorem exact_https_route_spec (u auth path : list N) (c : N) :
  c_slash ∉ auth -> c <> c_slash ->
  is_exact_https_route u auth (path ++ [c]) = true <->
  exists scheme a t,
    trim u = scheme ++ lit "://" ++ a ++ c_slash :: path ++ [c] ++ t
    /\ (t = [] \/ t = [c_slash])
    /\ to_ascii_lowercase scheme = lit "https"
    /\ to_ascii_lowercase a = to_ascii_lowercase auth.
Proof.
  intros Hauth Hc. unfold is_exact_https_route. split.
  - destruct (trailing_slash_normalized (trim u)) as (t & Ht & E). revert E.
    generalize (default (trim u) (strip_suffix_char c_slash (trim u))). intros n ->.
    destruct (split_once_str (lit "://") n) as [[s r]|] eqn:E1; [|done].
    apply split_once_str_some in E1 as ->.
    destruct (split_once c_slash r) as [[a p]|] eqn:E2; [|done].
    apply split_once_some in E2 as [-> _]. unfold eq_ignore_ascii_case.
    rewrite !andb_true_iff, !str_eqb_spec. intros [[Hs Ha] ->].
    exists s, a, t. split; [by rewrite <-!app_assoc, <-app_comm_cons, <-app_assoc|done].
  - intros (s & a & t & E & Ht & Hs & Ha).
    assert (default (trim u) (strip_suffix_char c_slash (trim u))
            = s ++ lit "://" ++ a ++ c_slash :: path ++ [c]) as ->.
    { rewrite E. destruct Ht as [->| ->].
      - destruct (strip_suffix_char c_slash _) as [r|] eqn:Er; [|by rewrite app_nil_r].
        apply strip_suffix_char_spec in Er. apply (f_equal last) in Er.
        rewrite app_nil_r, app_comm_cons, !app_assoc, !last_snoc in Er. congruence.
      - rewrite (proj2 (strip_suffix_char_spec c_slash _ (s ++ lit "://" ++ a ++ c_slash :: path ++ [c])));
          [done|].
        rewrite <-!app_assoc. do 3 f_equal. cbn [app]. by rewrite <-app_assoc. }
    change (lit "://") with (58%N :: lit "//"). rewrite <-app_comm_cons, split_once_str_first.
    + rewrite (proj2 (split_once_some c_slash _ a (path ++ [c]))).
      * unfold eq_ignore_ascii_case. rewrite Hs, Ha. rewrite !andb_true_iff, !str_eqb_spec. done.
      * split; [done|]. intros Hin. apply Hauth. apply elem_of_lower; [done|]. rewrite <-Ha.
        by apply (list_elem_of_fmap_2 char_to_ascii_lowercase _ c_slash).
    + intros Hin. apply (list_elem_of_fmap_2 char_to_ascii_lowercase) in Hin.
      change (char_to_ascii_lowercase <$> s) with (to_ascii_lowercase s) in Hin. rewrite Hs in Hin.
      apply (bool_decide_pack _) in Hin. by vm_compute in Hin.
Qed.

Lemma exact_https_route_spec_witness :
  is_exact_https_route (lit " HTTPS://API.z.ai/api/paas/v4/ ") (lit "api.z.ai") (lit "api/paas/v4") = true.
Proof.
  apply (exact_https_route_spec _ (lit "api.z.ai") (lit "api/paas/v") 52%N).
  - apply (bool_decide_unpack _). vm_compute. exact I.
  - done.
  - exists (lit "HTTPS"), (lit "API.z.ai"), [c_slash]. vm_compute. auto.
Defined.

(** Provider identity survives the configuration and the two enumerations: the
    canonical name of a kind, in any case and with outer white space, resolves to
    that kind as a configuration identity, and the translation tables between
    kinds and terminal providers are total and inverse to each other, with the
    legacy DeepSeek China entry as the only provider without a kind. *)
Theorem provider_identity_roundtrip (k : ProviderKind) (p : ApiProvider) :
  (exists s, kind_as_str k = Some s /\
     forall value, to_ascii_lowercase (trim value) = to_ascii_lowercase s ->
       parse_config_identity value = Some k)
  /\ (exists p', from_kind k = Some p' /\ api_kind p' = Some (Some k))
  /\ match api_kind p with
     | Some (Some k') => from_kind k' = Some p
     | Some None => p = DeepseekCN
     | None => False
     end.
Proof.
  split; [|split].
  - destruct (registry_ids_first k) as (s & Hs & Hf). exists s. split; [done|]. intros value Hv.
    unfold parse_config_identity.
    rewrite (find_ext _ (config_named s)) by (intros x; by apply config_named_lower).
    destruct (List.find (config_named s) all_providers) as [x|]; [|done]. by injection Hf as ->.
  - destruct k; (eexists; split; reflexivity).
  - destruct p; reflexivity.
Qed.

(** The vendor of a kind: the wire and plan variants of one account are one vendor. *)
Definition vendor (k : ProviderKind) : ProviderKind :=
  match k with
  | KDeepseekAnthropic => KDeepseek
  | KMinimaxAnthropic => KMinimax
  | KSiliconflowCN => KSiliconflow
  | KOllamaCloud => KOllama
  | KModelstudioTokenPlanAnthropic | KModelstudioCodingPlan | KModelstudioCodingPlanAnthropic =>
      KModelstudioTokenPlan
  | k => k
  end.

Definition registry_pair_ok (p q : Provider) : bool :=
  bool_decide (vendor (kind p) = vendor (kind q))
  || forallb (fun v => negb (bool_decide (v ∈ env_vars q))) (env_vars p).

Definition transport_ok (p : Provider) : bool :=
  starts_with (lit "https://") (default_base_url p)
  || (match kind p with KSglang | KVllm | KOllama | KCustom => true | _ => false end
      && starts_with (lit "http://localhost") (default_base_url p)).

Lemma registry_facts :
  forallb (fun p => forallb (registry_pair_ok p) PROVIDER_REGISTRY) PROVIDER_REGISTRY = true
  /\ forallb transport_ok PROVIDER_REGISTRY = true.
Proof. split; vm_compute; reflexivity. Qed.

(** A credential does not leave its vendor: two registered providers that read
    the same environment variable belong to one vendor, and the default endpoint
    a credential is sent to is https, or a local address for the self-hosted and
    custom kinds. *)
Theorem credentials_stay_with_vendor (p q : Provider) (v : list N) :
  p ∈ PROVIDER_REGISTRY -> q ∈ PROVIDER_REGISTRY -> v ∈ env_vars p ->
  (v ∈ env_vars q -> vendor (kind p) = vendor (kind q))
  /\ ((exists r, default_base_url p = lit "https://" ++ r)
      \/ (kind p ∈ [KSglang; KVllm; KOllama; KCustom]
          /\ exists r, default_base_url p = lit "http://localhost" ++ r)).
Proof.
  destruct registry_facts as [H1 H2]. rewrite !forallb_forall in H1, H2.
  intros Hp Hq Hv. apply list_elem_of_In in Hp, Hq. split.
  - intros Hvq. specialize (H1 p Hp). rewrite forallb_forall in H1. specialize (H1 q Hq).
    unfold registry_pair_ok in H1. apply orb_true_iff in H1 as [H1|H1].
    { by apply bool_decide_eq_true in H1. }
    rewrite forallb_forall in H1. apply list_elem_of_In in Hv. specialize (H1 v Hv).
    apply negb_true_iff, bool_decide_eq_false in H1. done.
  - specialize (H2 p Hp). unfold transport_ok in H2. apply orb_true_iff in H2 as [H2|H2].
    { left. by apply starts_with_spec in H2. }
    right. apply andb_true_iff in H2 as [H2 H3]. apply starts_with_spec in H3. split; [|done].
    destruct (kind p); try done; apply (bool_decide_unpack _); reflexivity.
Qed.

Lemma credentials_stay_with_vendor_witness :
  vendor (kind ProviderRegistry.Ollama) = vendor (kind ProviderRegistry.OllamaCloud).
Proof.
  refine (proj1 (credentials_stay_with_vendor ProviderRegistry.Ollama ProviderRegistry.OllamaCloud
    (lit "OLLAMA_API_KEY") _ _ _) _);
    [apply list_elem_of_In; vm_compute; tauto..| |]; apply (bool_decide_unpack _); vm_compute; exact I.
Defined.

(** The configuration file and the environment do not agree on every provider
    name: for these spellings the file's deserializer selects the kind on the
    left, while the same spelling as a configuration identity resolves to another
    kind of the vendor or to none. *)
Theorem config_spellings_diverge :
  forall k name other, (k, name, other) ∈
    [(KDeepseekAnthropic, lit "deepseek-claude", Some KDeepseek);
     (KMinimaxAnthropic, lit "mini-max-anthropic", Some KMinimax);
     (KModelstudioCodingPlan, lit "alibaba-coding-plan", Some KModelstudioTokenPlan);
     (KAnthropic, lit "claude", None);
     (KOrcarouter, lit "orca", None);
     (KFireworks, lit "fireworks_ai", None);
     (KSiliconflowCN, lit "siliconflow-c-n", None)] ->
  name ∈ serde_names k /\ parse_config_identity name = other.
Proof.
  intros k name other H. repeat (apply elem_of_cons in H as [[= -> -> ->]|H]);
    [..|by apply not_elem_of_nil in H];
    (split; [apply (bool_decide_unpack _); vm_compute; exact I|vm_compute; reflexivity]).
Qed.

Lemma config_spellings_diverge_witness :
  lit "claude" ∈ serde_names KAnthropic /\ parse_config_identity (lit "claude") = None.
Proof. apply config_spellings_diverge. do 3 right. left. Defined.

End Providers.
