(* ===== verification/NetworkPolicy.v ===== *)
(** * The network policy (crates/tui/src/network_policy.rs)

    Which hosts a tool may contact: allow and deny lists with wildcard entries, the
    answers of the session, the audit log, and the fake-IP ranges of a trusted proxy. *)

From stdpp Require Import base list option gmap strings.
From Stdlib Require Import Lia NArith.
From S2P Require Import Prelude RustStr RustNum.

Module NetworkPolicy.

(** ** Data *)

Inductive Decision : Type := Allow | Deny | Prompt.

#[export] Instance Decision_eq_dec : EqDecision Decision.
Proof. solve_decision. Defined.

Definition decision_as_str (d : Decision) : list N :=
  match d with Allow => lit "Allow" | Deny => lit "Deny" | Prompt => lit "Prompt" end.

Definition decision_parse (value : list N) : Decision :=
  let v := to_ascii_lowercase (trim value) in
  if str_eqb v (lit "allow") then Allow
  else if str_eqb v (lit "deny") || str_eqb v (lit "block") then Deny
  else Prompt.

(** [DecisionToml] has the constructors of [Decision], and the conversions between
    the two are the identity on them. *)
Record NetworkPolicy : Type := {
  default_decision : Decision;
  allow : list (list N);
  deny : list (list N);
  proxy : list (list N);
  proxy_fake_ip_cidrs : list (list N);
  audit : bool
}.

Definition policy_default : NetworkPolicy :=
  {| default_decision := Prompt; allow := []; deny := []; proxy := []; proxy_fake_ip_cidrs := [];
     audit := true |}.

(** ** Hosts *)

Definition normalize_host (host : list N) : list N :=
  let trimmed := to_ascii_lowercase (trim_end_matches (N.eqb c_dot) (trim host)) in
  match strip_prefix (lit "*.") trimmed with
  | Some rest => c_dot :: rest
  | None => trimmed
  end.

Definition host_matches (entry normalized_host : list N) : bool :=
  let entry_norm := normalize_host entry in
  match strip_prefix [c_dot] entry_norm with
  | Some suffix =>
      if str_is_empty suffix then false else ends_with (c_dot :: suffix) normalized_host
  | None => str_eqb entry_norm normalized_host
  end.

Definition any_matches (entries : list (list N)) (normalized : list N) : bool :=
  existsb (fun entry => host_matches entry normalized) entries.

Definition decide_host (p : NetworkPolicy) (host : list N) : Decision :=
  let normalized := normalize_host host in
  if str_is_empty normalized then default_decision p
  else if any_matches (deny p) normalized then Deny
  else if any_matches (allow p) normalized then Allow
  else default_decision p.

Definition with_allow (p : NetworkPolicy) (l : list (list N)) : NetworkPolicy :=
  {| default_decision := default_decision p; allow := l; deny := deny p; proxy := proxy p;
     proxy_fake_ip_cidrs := proxy_fake_ip_cidrs p; audit := audit p |}.

Definition add_allow (p : NetworkPolicy) (host : list N) : NetworkPolicy :=
  let normalized := normalize_host host in
  if str_is_empty normalized then p
  else if existsb (fun existing => str_eqb (normalize_host existing) normalized) (allow p) then p
  else with_allow p (allow p ++ [normalized]).

Definition trusts_proxy_fakeip_host (p : NetworkPolicy) (host : list N) : bool :=
  let normalized := normalize_host host in
  if str_is_empty normalized then false
  else if any_matches (deny p) normalized then false
  else any_matches (proxy p) normalized.

(** ** Fake-IP ranges *)

Definition parse_ipv4_cidr (cidr : list N) : option (Ipv4Addr * N) :=
  match split_once c_slash cidr with
  | None => None
  | Some (addr, prefix) =>
      base ← parse_ipv4 (trim addr);
      prefix ← parse_u8 (trim prefix);
      if (32 <? prefix)%N then None else Some (base, prefix)
  end.

Definition parse_trusted_fakeip_cidr (cidr : list N) : option (Ipv4Addr * N) :=
  match parse_ipv4_cidr cidr with
  | None => None
  | Some (base, prefix) =>
      if (15 <=? prefix)%N && (octet_a base =? 198)%N && between 18 19 (octet_b base)
      then Some (base, prefix) else None
  end.

Definition ipv4_in_cidr (ip base : Ipv4Addr) (prefix : N) : bool :=
  if (prefix =? 0)%N then true
  else
    let mask := u32_shl_max (32 - prefix) in
    (N.land (ipv4_to_u32 ip) mask =? N.land (ipv4_to_u32 base) mask)%N.

Inductive IpAddr : Type :=
| V4 (ip : Ipv4Addr)
| V6 (segments : list N).

(** ** The audit log

    The file is the list of its lines; a device that cannot be written to drops them. *)

Record NetworkAuditor : Type := { enabled : bool; writable : bool; log : list (list N) }.

Definition sanitize_field (s : list N) : list N :=
  (fun c => if is_whitespace c then c_underscore else c) <$> s.

Definition audit_line (ts host tool label : list N) : list N :=
  ts ++ lit " network " ++ sanitize_field host ++ lit " " ++ sanitize_field tool ++ lit " " ++ label.

Definition record (a : NetworkAuditor) (ts host tool label : list N) : NetworkAuditor :=
  if negb (enabled a) then a
  else if writable a then
    {| enabled := true; writable := true; log := log a ++ [audit_line ts host tool label] |}
  else a.

(** ** The session cache *)

Record NetworkSessionCache : Type := { approved : gset (list N); denied : gset (list N) }.

Definition cache_new : NetworkSessionCache := {| approved := ∅; denied := ∅ |}.

Definition is_approved (c : NetworkSessionCache) (host : list N) : bool :=
  bool_decide (normalize_host host ∈ approved c).
Definition is_denied (c : NetworkSessionCache) (host : list N) : bool :=
  bool_decide (normalize_host host ∈ denied c).

Definition cache_approve (c : NetworkSessionCache) (host : list N) : NetworkSessionCache :=
  let normalized := normalize_host host in
  {| approved := {[normalized]} ∪ approved c; denied := denied c ∖ {[normalized]} |}.
Definition cache_deny (c : NetworkSessionCache) (host : list N) : NetworkSessionCache :=
  let normalized := normalize_host host in
  {| approved := approved c ∖ {[normalized]}; denied := {[normalized]} ∪ denied c |}.

(** ** The decider *)

Record NetworkPolicyDecider : Type := {
  policy : NetworkPolicy;
  cache : NetworkSessionCache;
  auditor : option NetworkAuditor;
  trusted_fakeip_cidrs : list (Ipv4Addr * N)
}.

Definition decider_new (p : NetworkPolicy) (a : option NetworkAuditor) : NetworkPolicyDecider :=
  {| policy := p; cache := cache_new; auditor := a;
     trusted_fakeip_cidrs := omap parse_trusted_fakeip_cidr (proxy_fake_ip_cidrs p) |}.

Definition with_trusted_fakeip_cidrs (d : NetworkPolicyDecider) (cidrs : list (list N))
  : NetworkPolicyDecider :=
  {| policy := policy d; cache := cache d; auditor := auditor d;
     trusted_fakeip_cidrs := trusted_fakeip_cidrs d ++ omap parse_trusted_fakeip_cidr cidrs |}.

Definition is_trusted_fakeip_addr (d : NetworkPolicyDecider) (ip : IpAddr) : bool :=
  match ip with
  | V4 v4 => existsb (fun '(base, prefix) => ipv4_in_cidr v4 base prefix) (trusted_fakeip_cidrs d)
  | V6 _ => false
  end.

Definition with_cache (d : NetworkPolicyDecider) (c : NetworkSessionCache) : NetworkPolicyDecider :=
  {| policy := policy d; cache := c; auditor := auditor d;
     trusted_fakeip_cidrs := trusted_fakeip_cidrs d |}.
Definition with_policy (d : NetworkPolicyDecider) (p : NetworkPolicy) : NetworkPolicyDecider :=
  {| policy := p; cache := cache d; auditor := auditor d;
     trusted_fakeip_cidrs := trusted_fakeip_cidrs d |}.

Definition audit_record (d : NetworkPolicyDecider) (ts host tool label : list N)
  : NetworkPolicyDecider :=
  {| policy := policy d; cache := cache d;
     auditor := (fun a => record a ts host tool label) <$> auditor d;
     trusted_fakeip_cidrs := trusted_fakeip_cidrs d |}.

Definition evaluate (d : NetworkPolicyDecider) (ts host tool : list N)
  : NetworkPolicyDecider * Decision :=
  let normalized := normalize_host host in
  if str_is_empty normalized then (d, default_decision (policy d))
  else if is_denied (cache d) normalized then
    (audit_record d ts normalized tool (lit "Deny"), Deny)
  else if is_approved (cache d) normalized then
    (audit_record d ts normalized tool (lit "Allow"), Allow)
  else
    let decision := decide_host (policy d) normalized in
    (match decision with
     | Allow => audit_record d ts normalized tool (lit "Allow")
     | Deny => audit_record d ts normalized tool (lit "Deny")
     | Prompt => d
     end, decision).

Definition approve_session (d : NetworkPolicyDecider) (ts host tool : list N) : NetworkPolicyDecider :=
  audit_record (with_cache d (cache_approve (cache d) host)) ts host tool (lit "Prompt-Approved").

Definition deny_session (d : NetworkPolicyDecider) (ts host tool : list N) : NetworkPolicyDecider :=
  audit_record (with_cache d (cache_deny (cache d) host)) ts host tool (lit "Prompt-Denied").

Definition approve_persistent (d : NetworkPolicyDecider) (ts host tool : list N)
  : NetworkPolicyDecider :=
  let d1 := with_policy d (add_allow (policy d) host) in
  audit_record (with_cache d1 (cache_approve (cache d1) host)) ts host tool (lit "Prompt-Approved").

Definition record_trusted_proxy_fakeip_allow (d : NetworkPolicyDecider) (ts host tool : list N)
  : NetworkPolicyDecider :=
  audit_record d ts host tool (lit "TrustedProxyFakeIp-Allow").

(** ** What an entry covers

    An exact entry covers one host; an entry with a leading dot covers the hosts that
    have at least one label in front of its labels. *)

Definition entry_covers (entry host : list N) : Prop :=
  let e := normalize_host entry in
  (starts_with_char c_dot e = false /\ e = host)
  \/ exists suffix pre, e = c_dot :: suffix /\ suffix <> [] /\ pre <> []
       /\ split_char c_dot host = pre ++ split_char c_dot suffix.

Definition covered (entries : list (list N)) (host : list N) : Prop :=
  exists entry, entry ∈ entries /\ entry_covers entry host.

Lemma subdomain_labels suffix host :
  ends_with (c_dot :: suffix) host = true <->
  exists pre, pre <> [] /\ split_char c_dot host = pre ++ split_char c_dot suffix.
Proof.
  rewrite ends_with_spec. split.
  - intros [r ->]. exists (split_char c_dot r). split; [apply split_char_nonempty|].
    apply split_char_app_sep.
  - intros (pre & Hne & E). exists (str_join [c_dot] pre).
    rewrite <-(join_split_char c_dot host), E, str_join_app, join_split_char; [done..|].
    apply split_char_nonempty.
Qed.

Lemma host_matches_spec entry host : host_matches entry host = true <-> entry_covers entry host.
Proof.
  unfold host_matches, entry_covers. cbv zeta.
  destruct (normalize_host entry) as [|c e]; cbn [strip_prefix].
  - rewrite str_eqb_spec. split; [by left|]. by intros [[_ ?]|(s & ? & ? & _)].
  - destruct (N.eqb_spec c_dot c) as [<-|Hne].
    + destruct e as [|d e]; cbn [str_is_empty].
      * split; [done|]. intros [[? _]|(s & pre & [= <-] & ? & _)]; done.
      * rewrite subdomain_labels. split; [intros (pre & ? & ?); right; eauto 6|].
        intros [[? _]|(s & pre & [= <-] & _ & ? & ?)]; [done|eauto].
    + rewrite str_eqb_spec. cbn [starts_with_char].
      split; [intros ->; left; split; [by apply N.eqb_neq|done]|].
      intros [[_ ?]|(s & ? & [= ? ?] & _)]; [done|congruence].
Qed.

Lemma any_matches_spec entries host : any_matches entries host = true <-> covered entries host.
Proof.
  unfold any_matches. rewrite existsb_elem_of. unfold covered.
  by setoid_rewrite host_matches_spec.
Qed.

Lemma any_matches_false entries host : any_matches entries host = false <-> ~ covered entries host.
Proof. rewrite <-any_matches_spec. by destruct (any_matches entries host). Qed.

(** ** Normalisation is stable *)

Definition no_whitespace (s : list N) : Prop := Forall (fun c => is_whitespace c = false) s.

(** What [normalize_host] yields for a host without white space. *)
Lemma normalize_host_shape h :
  no_whitespace h -> no_whitespace (normalize_host h)
  /\ to_ascii_lowercase (normalize_host h) = normalize_host h
  /\ (forall c s, normalize_host h = s ++ [c] -> c <> c_dot)
  /\ strip_prefix (lit "*.") (normalize_host h) = None.
Proof.
  intros Hh. unfold normalize_host. rewrite trim_no_ws by done.
  set (t := to_ascii_lowercase (trim_end_matches (N.eqb c_dot) h)).
  assert (no_whitespace t) as Ht.
  { apply Forall_fmap. eapply Forall_impl; [by apply trim_end_matches_Forall|].
    intros c Hc. cbn. by rewrite is_whitespace_lower. }
  assert (to_ascii_lowercase t = t) as Hl by apply lowercase_idemp.
  assert (forall c s, t = s ++ [c] -> c <> c_dot) as Hd.
  { intros c s E ->. unfold t, to_ascii_lowercase in E. apply fmap_app_inv in E as (s1 & s2 & _ & E2 & E).
    destruct s2 as [|d [|]]; try done. injection E2 as E2. symmetry in E2.
    apply lower_preserves in E2; [subst d|done]. by apply trim_end_matches_last in E. }
  destruct (strip_prefix (lit "*.") t) as [rest|] eqn:E; [|by split_and!].
  apply strip_prefix_spec in E. change (lit "*.") with [42%N; c_dot] in E.
  rewrite E in Ht, Hl. split_and!.
  - by apply Forall_cons in Ht as [_ Ht].
  - cbn in Hl |- *. by injection Hl as ->.
  - intros c s Es. apply (Hd c (42%N :: s)). rewrite E. cbn. by f_equal.
  - done.
Qed.

Lemma normalize_host_idemp h : no_whitespace h -> normalize_host (normalize_host h) = normalize_host h.
Proof.
  intros (Hw & Hl & Hd & Hs)%normalize_host_shape. unfold normalize_host at 1.
  rewrite trim_no_ws by done. rewrite trim_end_matches_id.
  - by rewrite Hl, Hs.
  - intros c s E. apply N.eqb_neq. intros <-. by apply (Hd _ _ E).
Qed.

(** ** The session as a log of answers *)

Inductive event : Type :=
| Asked (ts host tool : list N)
| Approved (ts host tool : list N)
| Refused (ts host tool : list N)
| Pinned (ts host tool : list N).

Definition step (d : NetworkPolicyDecider) (e : event) : NetworkPolicyDecider :=
  match e with
  | Asked ts host tool => (evaluate d ts host tool).1
  | Approved ts host tool => approve_session d ts host tool
  | Refused ts host tool => deny_session d ts host tool
  | Pinned ts host tool => approve_persistent d ts host tool
  end.

(** The user's last answer about a normalised host. *)
Definition answer (n : list N) (e : event) (before : option bool) : option bool :=
  match e with
  | Asked _ _ _ => before
  | Approved _ host _ | Pinned _ host _ =>
      if decide (normalize_host host = n) then Some true else before
  | Refused _ host _ => if decide (normalize_host host = n) then Some false else before
  end.

Definition last_answer (n : list N) (evs : list event) : option bool :=
  fold_left (fun b e => answer n e b) evs None.

Definition cache_says (c : NetworkSessionCache) (n : list N) (b : option bool) : Prop :=
  (n ∈ approved c <-> b = Some true) /\ (n ∈ denied c <-> b = Some false).

Lemma evaluate_cache d ts host tool : cache (evaluate d ts host tool).1 = cache d.
Proof. unfold evaluate. repeat (case_match || case_bool_decide); done. Qed.

Lemma step_cache_says n d e b :
  cache_says (cache d) n b -> cache_says (cache (step d e)) n (answer n e b).
Proof.
  intros [H1 H2].
  destruct e as [ts h t|ts h t|ts h t|ts h t]; cbn [step answer]; [by rewrite evaluate_cache|..];
    unfold cache_says; cbn; case_decide as E; set_solver.
Qed.

Lemma fold_cache_says n evs d b :
  cache_says (cache d) n b ->
  cache_says (cache (fold_left step evs d)) n (fold_left (fun b e => answer n e b) evs b).
Proof.
  revert d b. induction evs as [|e evs IH]; intros d b H; [done|].
  cbn. apply IH. by apply step_cache_says.
Qed.

Lemma evaluate_decision d ts host tool b :
  no_whitespace host -> normalize_host host <> [] -> cache_says (cache d) (normalize_host host) b ->
  (evaluate d ts host tool).2 =
    match b with Some true => Allow | Some false => Deny | None => decide_host (policy d) host end.
Proof.
  intros Hh Hne [H1 H2]. unfold evaluate, is_denied, is_approved.
  rewrite normalize_host_idemp by done. destruct (normalize_host host) as [|c n] eqn:E; [done|].
  cbn [str_is_empty]. case_bool_decide as Hd; [|case_bool_decide as Ha]; cbn [snd].
  - by rewrite (proj1 H2 Hd).
  - by rewrite (proj1 H1 Ha).
  - destruct b as [[]|]; [by destruct Ha; apply H1|by destruct Hd; apply H2|].
    unfold decide_host. rewrite E, <-E, normalize_host_idemp by done. by rewrite E.
Qed.

(** ** Audit lines *)

Lemma sanitize_word s : s <> [] -> is_word (sanitize_field s).
Proof.
  intros Hne. split; [by destruct s|]. apply Forall_fmap, Forall_forall. intros c _. cbn.
  by destruct (is_whitespace c) eqn:E.
Qed.

Lemma audit_line_words ts host tool label :
  is_word ts -> is_word label -> host <> [] -> tool <> [] ->
  split_whitespace (audit_line ts host tool label)
  = [ts; lit "network"; sanitize_field host; sanitize_field tool; label].
Proof.
  intros Hts Hl Hh Ht.
  assert (is_word (lit "network")) as Hn by (apply (bool_decide_unpack _); vm_compute; exact I).
  etrans; [|apply (split_whitespace_join [ts; lit "network"; sanitize_field host; sanitize_field tool; label]);
    repeat apply Forall_cons_2; auto using sanitize_word].
  f_equal.
Qed.

Definition appended (old new : option NetworkAuditor) (lines : list (list N)) : Prop :=
  match old, new with
  | None, None => True
  | Some a, Some b =>
      enabled b = enabled a /\ writable b = writable a
      /\ log b = log a ++ (if enabled a && writable a then lines else [])
  | _, _ => False
  end.

Lemma audit_record_appends d ts host tool label :
  appended (auditor d) (auditor (audit_record d ts host tool label)) [audit_line ts host tool label].
Proof.
  unfold appended, audit_record, record. cbn. destruct (auditor d) as [[[] [] l]|]; cbn;
    by rewrite ?app_nil_r.
Qed.

Lemma appended_nil a : appended a a [].
Proof. unfold appended. destruct a as [[[] [] l]|]; cbn; by rewrite ?app_nil_r. Qed.

(** ** Fake addresses *)

Lemma cidr_shift ip base prefix :
  ipv4_ok ip -> ipv4_ok base -> (15 <= prefix <= 32)%N -> ipv4_in_cidr ip base prefix = true ->
  N.shiftr (ipv4_to_u32 ip) 17 = N.shiftr (ipv4_to_u32 base) 17.
Proof.
  intros Hi Hb Hp. unfold ipv4_in_cidr. destruct (N.eqb_spec prefix 0); [lia|].
  rewrite N.eqb_eq, !u32_mask_spec by (try lia; by apply ipv4_to_u32_bound).
  intros E%(f_equal (fun x => N.shiftr x 17)).
  assert (forall x, N.shiftr (N.shiftl (N.shiftr x (32 - prefix)) (32 - prefix)) 17 = N.shiftr x 17) as H.
  { intros x. apply N.bits_inj. intros i. rewrite !N.shiftr_spec', N.shiftl_spec_high', N.shiftr_spec' by lia.
    f_equal. lia. }
  by rewrite !H in E.
Qed.

Lemma benchmark_octets ip base :
  ipv4_ok ip -> octet_a base = 198%N -> (18 <= octet_b base <= 19)%N -> ipv4_ok base ->
  N.shiftr (ipv4_to_u32 ip) 17 = N.shiftr (ipv4_to_u32 base) 17 ->
  octet_a ip = 198%N /\ (18 <= octet_b ip <= 19)%N.
Proof.
  rewrite !N.shiftr_div_pow2. change (2 ^ 17)%N with 131072%N.
  intros (A & B & C & D) Ha Hb (A' & B' & C' & D') E.
  assert ((ipv4_to_u32 base / 131072)%N = 25353%N) as Hq.
  { symmetry. apply (N.div_unique _ _ _ (ipv4_to_u32 base - 25353 * 131072)); unfold ipv4_to_u32; lia. }
  rewrite Hq in E. pose proof (N.div_mod (ipv4_to_u32 ip) 131072 ltac:(done)) as Hd.
  pose proof (N.mod_lt (ipv4_to_u32 ip) 131072 ltac:(done)) as Hm. rewrite E in Hd.
  remember (ipv4_to_u32 ip mod 131072)%N as r. unfold ipv4_to_u32 in Hd. lia.
Qed.

Lemma parse_trusted_cidr_ok cidr base prefix :
  parse_trusted_fakeip_cidr cidr = Some (base, prefix) ->
  ipv4_ok base /\ octet_a base = 198%N /\ (18 <= octet_b base <= 19)%N /\ (15 <= prefix <= 32)%N.
Proof.
  unfold parse_trusted_fakeip_cidr, parse_ipv4_cidr. destruct (split_once _ _) as [[a p]|]; [|done].
  destruct (parse_ipv4 (trim a)) as [b|] eqn:Eb; [|done]. cbn.
  destruct (parse_u8 (trim p)) as [q|]; [|done]. cbn.
  destruct (N.ltb_spec 32 q); [done|]. destruct (_ && _) eqn:E; [|done]. intros [= -> ->].
  unfold between in E. breakup. rewrite ?N.leb_le, ?N.eqb_eq in *.
  split; [by eapply parse_ipv4_ok|]. split; [done|]. lia.
Qed.

(** ** Properties *)

(** The host policy means what it says: a host is denied as soon as a deny entry
    covers it, otherwise allowed when an allow entry covers it, otherwise the
    default decides; a wildcard entry covers exactly the hosts with at least one
    more label in front, never the apex nor a longer word; and the proxy list
    trusts a host only when no deny entry covers it. *)
Theorem network_policy_spec (p : NetworkPolicy) (host : list N) :
  let n := normalize_host host in
  (n = [] -> decide_host p host = default_decision p /\ trusts_proxy_fakeip_host p host = false)
  /\ (n <> [] -> covered (deny p) n ->
      decide_host p host = Deny /\ trusts_proxy_fakeip_host p host = false)
  /\ (n <> [] -> ~ covered (deny p) n ->
      (covered (allow p) n -> decide_host p host = Allow)
      /\ (~ covered (allow p) n -> decide_host p host = default_decision p)
      /\ (trusts_proxy_fakeip_host p host = true <-> covered (proxy p) n)).
Proof.
  cbv zeta. unfold decide_host, trusts_proxy_fakeip_host.
  destruct (normalize_host host) as [|c n]; cbn [str_is_empty]; [by split_and!|].
  split; [done|]. split.
  - intros _ Hd. by rewrite (proj2 (any_matches_spec _ _) Hd).
  - intros _ Hd. rewrite (proj2 (any_matches_false _ _) Hd). split_and!.
    + intros Ha. by rewrite (proj2 (any_matches_spec _ _) Ha).
    + intros Ha. by rewrite (proj2 (any_matches_false _ _) Ha).
    + apply any_matches_spec.
Qed.

(** The decider refines a log of answers: after any sequence of evaluations,
    approvals, refusals and persistent approvals, a host is decided by the user's
    last answer about it, and by the policy when there is none. *)
Theorem session_answers_refined (p : NetworkPolicy) (a : option NetworkAuditor) (evs : list event)
    (ts host tool : list N) :
  no_whitespace host -> normalize_host host <> [] ->
  let d := fold_left step evs (decider_new p a) in
  (evaluate d ts host tool).2 =
    match last_answer (normalize_host host) evs with
    | Some true => Allow
    | Some false => Deny
    | None => decide_host (policy d) host
    end.
Proof.
  intros Hh Hne d. apply evaluate_decision; [done|done|].
  apply fold_cache_says. split; set_solver.
Qed.

(** The audit log is complete and cannot be forged: a decision without a prompt
    appends exactly one line to a working log and a prompt appends none; and
    whatever host and tool names are logged, a line splits into its five fields. *)
Theorem audit_log_faithful (d : NetworkPolicyDecider) (ts host tool label : list N) :
  is_word ts -> is_word label -> host <> [] -> tool <> [] ->
  split_whitespace (audit_line ts host tool label)
  = [ts; lit "network"; sanitize_field host; sanitize_field tool; label]
  /\ (normalize_host host <> [] ->
     appended (auditor d) (auditor (evaluate d ts host tool).1)
       (match (evaluate d ts host tool).2 with
        | Prompt => []
        | decision => [audit_line ts (normalize_host host) tool (decision_as_str decision)]
        end)).
Proof.
  intros Hts Hl Hh Ht. split; [by apply audit_line_words|]. intros Hne. unfold evaluate.
  destruct (normalize_host host) as [|c n]; [done|]. cbn [str_is_empty].
  destruct (is_denied _ _); [apply audit_record_appends|].
  destruct (is_approved _ _); [apply audit_record_appends|]. cbn [fst snd].
  destruct (decide_host _ _); [apply audit_record_appends..|apply appended_nil].
Qed.

(** No configuration makes the program trust a real private address: an address
    accepted as a fake-IP placeholder lies in the benchmark block 198.18.0.0/15,
    whatever ranges are configured or added. *)
Theorem fakeip_stays_in_benchmark_block (p : NetworkPolicy) (a : option NetworkAuditor)
    (cidrs : list (list N)) (ip : Ipv4Addr) :
  ipv4_ok ip ->
  is_trusted_fakeip_addr (with_trusted_fakeip_cidrs (decider_new p a) cidrs) (V4 ip) = true ->
  octet_a ip = 198%N /\ (18 <= octet_b ip <= 19)%N.
Proof.
  intros Hip. cbn [is_trusted_fakeip_addr]. rewrite existsb_elem_of. intros ([base prefix] & Hin & Hc).
  assert (exists cidr, parse_trusted_fakeip_cidr cidr = Some (base, prefix)) as [cidr Hp].
  { cbn in Hin. apply elem_of_app in Hin as [Hin|Hin]; apply list_elem_of_omap in Hin as (x & _ & ?); eauto. }
  apply parse_trusted_cidr_ok in Hp as (Hb & Ha & Hbb & Hpre).
  eapply benchmark_octets; [done|exact Ha|exact Hbb|exact Hb|]. by eapply cidr_shift.
Qed.

(** ** Witnesses *)

Definition sample_policy : NetworkPolicy :=
  {| default_decision := Prompt; allow := [lit "*.Example.com"]; deny := [lit "evil.example.com."];
     proxy := []; proxy_fake_ip_cidrs := [lit " 198.18.0.0 / 15 "]; audit := true |}.

Definition sample_auditor : NetworkAuditor := {| enabled := true; writable := true; log := [] |}.

Lemma session_answers_refined_witness :
  (evaluate (fold_left step [Refused (lit "t") (lit "API.example.com.") (lit "web");
                             Asked (lit "t") (lit "x.org") (lit "web")]
     (decider_new sample_policy None)) (lit "t") (lit "api.example.com") (lit "web")).2 = Deny.
Proof.
  etrans; [apply session_answers_refined|vm_compute; reflexivity].
  - apply (bool_decide_unpack _). vm_compute. exact I.
  - done.
Defined.

Lemma audit_log_faithful_witness :
  split_whitespace (audit_line (lit "2026") (lit "a b") (lit "web fetch") (lit "Allow"))
  = [lit "2026"; lit "network"; lit "a_b"; lit "web_fetch"; lit "Allow"].
Proof.
  destruct (audit_log_faithful (decider_new sample_policy (Some sample_auditor)) (lit "2026")
    (lit "a b") (lit "web fetch") (lit "Allow")) as [H _];
    try (apply (bool_decide_unpack _); vm_compute; exact I); try done.
Defined.

Lemma fakeip_stays_in_benchmark_block_witness :
  octet_a {| octet_a := 198; octet_b := 19; octet_c := 7; octet_d := 1 |} = 198%N
  /\ (18 <= 19 <= 19)%N.
Proof.
  apply (fakeip_stays_in_benchmark_block sample_policy None []
    {| octet_a := 198; octet_b := 19; octet_c := 7; octet_d := 1 |}).
  - unfold ipv4_ok. cbn. lia.
  - vm_compute. reflexivity.
Defined.

End NetworkPolicy.
