(* ===== verification/Outbox.v ===== *)
(** * The lifecycle outbox

    [crates/hooks/src/lifecycle_outbox.rs], with the webhook transport of
    [crates/hooks/src/lib.rs] and the envelope of [crates/protocol/src/runtime/mod.rs].
    The outbox file is its list of bytes; the handle, its queue and the writer task
    are one state; the file system, the network, the clock and the scheduler are the
    labels of the steps. [serde_json] is a parameter. *)

From stdpp Require Import base list option numbers strings sorting.
From Stdlib Require Import Lia NArith.
From S2P Require Import Prelude RustStr RustUtf8.

Module Outbox.

Definition OUTBOX_HEADLINE_MAX_CHARS : nat := 80.
Definition OUTBOX_DETAIL_MAX_CHARS : nat := 120.
Definition OUTBOX_PREVIEW_MAX_CHARS : nat := 200.
Definition OUTBOX_TRUNCATION_MARKER : list N := [8230%N].
Definition SEQ_RECOVERY_TAIL_BYTES : nat := N.to_nat (64 * 1024).
Definition RUNTIME_EVENT_ENVELOPE_SCHEMA_VERSION : N := 1.

Definition u64_max : N := 18446744073709551615.
Definition u64_saturating_add (a b : N) : N := N.min (a + b) u64_max.

(** ** Bounded text *)

(** The truncation loop: characters are pushed while [char_count + 1 <= max_chars];
    the flag says that one did not fit. *)
Fixpoint push_chars (max_chars char_count : nat) (cleaned : list N) : list N * nat * bool :=
  match cleaned with
  | [] => ([], char_count, false)
  | ch :: rest =>
      if max_chars <? char_count + 1 then ([], char_count, true)
      else
        let '(out, n, truncated) := push_chars max_chars (char_count + 1) rest in
        (ch :: out, n, truncated)
  end.

(** The loop that makes room for the marker. [None] is the subtraction below zero of
    [char_count -= 1], which panics in a build with overflow checks. *)
Fixpoint pop_for_marker (marker_chars max_chars char_count : nat) (out_rev : list N) : option (list N) :=
  if max_chars <? char_count + marker_chars then
    match char_count with
    | O => None
    | S n => match out_rev with
             | [] => None
             | _ :: out_rev' => pop_for_marker marker_chars max_chars n out_rev'
             end
    end
  else Some (reverse out_rev).

Definition cleaned_text (text : list N) : list N :=
  str_join [c_space] (split_whitespace (filter (fun ch => is_control ch = false) text)).

Definition bounded_text (text : list N) (max_chars : nat) : option (list N) :=
  let '(out, char_count, truncated) := push_chars max_chars 0 (cleaned_text text) in
  if truncated then
    out ← pop_for_marker (length OUTBOX_TRUNCATION_MARKER) max_chars char_count (reverse out);
    Some (out ++ OUTBOX_TRUNCATION_MARKER)
  else Some out.

(** ** The webhook transport *)

(** What one HTTP attempt gives: a response with its status, or a transport error. *)
Inductive attempt : Type := Response (status : N) | SendError.

Definition is_success (status : N) : bool := between 200 299 status.

Inductive webhook_error : Type := NonSuccess (status : N) | RequestFailed.

(** [post_payload]: the result and the delays slept, in milliseconds. The loop body
    runs once per attempt; the third failure returns, which the fuel of the caller
    (three) makes structural. *)
Fixpoint post_loop (fuel retries : nat) (attempts : nat -> attempt) (slept : list nat)
    : option (result unit webhook_error * list nat) :=
  match fuel with
  | O => None
  | S fuel' =>
      let again := post_loop fuel' (retries + 1) attempts (slept ++ [200 * (retries + 1)]) in
      match attempts retries with
      | Response status =>
          if is_success status then Some (Ok tt, slept)
          else if 2 <=? retries then Some (Err (NonSuccess status), slept)
          else again
      | SendError => if 2 <=? retries then Some (Err RequestFailed, slept) else again
      end
  end.

Definition post_payload (fuel : nat) (attempts : nat -> attempt) := post_loop fuel 0 attempts [].

Record WebhookHookSink : Type := { url : list N; bearer_token : option (list N) }.

(** The token a request carries. *)
Definition request_token (w : WebhookHookSink) : option (list N) :=
  t ← bearer_token w; if str_is_empty t then None else Some t.

(** ** Events and envelopes *)

Section Outbox.
Context {Value : Type}.

Record LifecycleEvent : Type := {
  event : list N;
  kind : list N;
  thread_id : list N;
  turn_id : option (list N);
  item_id : option (list N);
  payload : Value }.

Record RuntimeEventEnvelope : Type := {
  schema_version : N;
  seq : N;
  env_event : list N;
  env_kind : list N;
  env_thread_id : list N;
  env_turn_id : option (list N);
  env_item_id : option (list N);
  timestamp : list N;
  created_at : option (list N);
  env_payload : Value;
  extra : list (list N * Value) }.

(** [serde_json]: encoding can fail, decoding rejects malformed text. *)
Class EnvelopeCodec : Type := {
  to_string : RuntimeEventEnvelope -> option (list N);
  from_str : list N -> option RuntimeEventEnvelope }.

(** What the outbox relies on: compact JSON is one line of Unicode text that is not
    blank, and decoding it finds the sequence number again. *)
Class EnvelopeCodecLaws `{!EnvelopeCodec} : Prop := {
  to_string_scalar e l : to_string e = Some l -> Forall (fun c => is_scalar c = true) l;
  to_string_one_line e l : to_string e = Some l -> c_nl ∉ l;
  to_string_not_blank e l : to_string e = Some l -> trim l <> [];
  from_to_string e l : extra e = [] -> to_string e = Some l -> seq <$> from_str l = Some (seq e) }.

Context `{!EnvelopeCodec}.

(** ** Sequence recovery *)

Inductive outbox_error : Type :=
  | DirFailed | OpenFailed | StatFailed | SeekFailed | ReadFailed | WriteFailed | FlushFailed
  | NotUtf8 | ParseFailed | EncodeFailed | WriterGone.

(** The outcome of the reads of [recover_last_seq]: [None] when all of them work. *)
Definition read_io : Type := option outbox_error.

(** The file on disk; [None] when it does not exist. *)
Definition file_state : Type := option (list N).

Fixpoint rposition (b : N) (l : list N) : option nat :=
  match l with
  | [] => None
  | x :: l' => match rposition b l' with
               | Some i => Some (S i)
               | None => if (x =? b)%N then Some 0 else None
               end
  end.

(** The last newline-terminated line of [tail]. *)
Definition last_complete_line (tail : list N) : option (list N) :=
  match rposition c_nl tail with
  | Some last_nl =>
      let body := take last_nl tail in
      match rposition c_nl body with
      | Some idx => Some (drop (idx + 1) body)
      | None => Some body
      end
  | None => None
  end.

Definition recover_last_seq (io : read_io) (file : file_state) : result N outbox_error :=
  match file with
  | None => Ok 1%N
  | Some bytes =>
      match io with
      | Some e => Err e
      | None =>
          if length bytes =? 0 then Ok 1%N
          else
            let start := length bytes - SEQ_RECOVERY_TAIL_BYTES in
            match last_complete_line (drop start bytes) with
            | None => Ok 1%N
            | Some line =>
                match from_utf8 line with
                | None => Err NotUtf8
                | Some line =>
                    if str_is_empty (trim line) then Ok 1%N
                    else match from_str line with
                         | None => Err ParseFailed
                         | Some envelope => Ok (u64_saturating_add (seq envelope) 1)
                         end
                end
            end
      end
  end.

(** ** The writer task *)

Record WriterState : Type := { next_seq : N; recovered : bool }.

(** The outcome of an append: a failure before any write, a write or flush that fails
    after [k] bytes of the record, or success. *)
Inductive append_io : Type :=
  | AppendDirFails | AppendOpenFails | AppendWriteFails (k : nat) | AppendFlushFails (k : nat) | AppendOk.

Definition append_bytes (file : file_state) (bytes : list N) : file_state :=
  Some (default [] file ++ bytes).

Definition append_line (io : append_io) (file : file_state) (line : list N)
    : file_state * result unit outbox_error :=
  let record := as_bytes line ++ [c_nl] in
  match io with
  | AppendDirFails => (file, Err DirFailed)
  | AppendOpenFails => (file, Err OpenFailed)
  | AppendWriteFails k => (append_bytes file (take k record), Err WriteFailed)
  | AppendFlushFails k => (append_bytes file (take k record), Err FlushFailed)
  | AppendOk => (append_bytes file record, Ok tt)
  end.

Record io : Type := {
  io_read : read_io;
  io_append : append_io;
  io_timestamp : list N;
  io_created_at : list N;
  io_attempts : nat -> attempt }.

Definition mk_envelope (ev : LifecycleEvent) (s : N) (now created : list N) : RuntimeEventEnvelope :=
  {| schema_version := RUNTIME_EVENT_ENVELOPE_SCHEMA_VERSION; seq := s; env_event := event ev;
     env_kind := kind ev; env_thread_id := thread_id ev; env_turn_id := turn_id ev;
     env_item_id := item_id ev; timestamp := now; created_at := Some created;
     env_payload := payload ev; extra := [] |}.

(** What the writer acts on: the file, and the webhook calls made so far (the
    envelope of each, and how it ended). *)
Record world : Type := {
  file : file_state;
  posted : list (RuntimeEventEnvelope * option (result unit webhook_error)) }.

Definition deliver (webhook : option WebhookHookSink) (st : WriterState) (w : world) (i : io)
    (ev : LifecycleEvent) : WriterState * world * result unit outbox_error :=
  match (if recovered st then Ok (next_seq st) else recover_last_seq (io_read i) (file w)) with
  | Err e => (st, w, Err e)
  | Ok s =>
      let st' := {| next_seq := u64_saturating_add s 1; recovered := true |} in
      let envelope := mk_envelope ev s (io_timestamp i) (io_created_at i) in
      match to_string envelope with
      | None => (st', w, Err EncodeFailed)
      | Some line =>
          let '(file', append_result) := append_line (io_append i) (file w) line in
          let posted' :=
            match webhook with
            | Some _ => posted w ++ [(envelope, fst <$> post_payload 3 (io_attempts i))]
            | None => posted w
            end in
          (st', {| file := file'; posted := posted' |}, append_result)
      end
  end.

(** ** The handle *)

(** The receive half of the channel: held by the handle, taken by the writer task, or
    dropped with it. *)
Inductive receiver_state : Type := Held | Taken | Dropped.

Record OutboxInner : Type := {
  path : list N;
  webhook : option WebhookHookSink;
  queue : list LifecycleEvent;
  receiver : receiver_state;
  writer_spawned : bool;
  writer : option WriterState }.

Definition LifecycleOutbox : Type := option OutboxInner.

Definition disabled : LifecycleOutbox := None.
Definition is_enabled (o : LifecycleOutbox) : bool := bool_decide (is_Some o).

Definition outbox_new (p : option (list N)) (webhook_url webhook_token : option (list N)) : LifecycleOutbox :=
  match p with
  | Some p =>
      if str_is_empty p then disabled
      else
        let webhook :=
          u ← webhook_url;
          if str_is_empty (trim u) then None
          else Some {| url := trim u; bearer_token := webhook_token |} in
        Some {| path := p; webhook := webhook; queue := []; receiver := Held;
                writer_spawned := false; writer := None |}
  | None => disabled
  end.

Definition ensure_writer_spawned (runtime : bool) (o : OutboxInner) : OutboxInner :=
  if writer_spawned o then o
  else if negb runtime then o
  else match receiver o with
       | Held => {| path := path o; webhook := webhook o; queue := queue o; receiver := Taken;
                    writer_spawned := true; writer := Some {| next_seq := 0; recovered := false |} |}
       | _ => o
       end.

Definition enqueue (runtime : bool) (o : OutboxInner) (ev : LifecycleEvent) : result OutboxInner outbox_error :=
  match receiver o with
  | Dropped => Err WriterGone
  | _ => Ok (ensure_writer_spawned runtime
               {| path := path o; webhook := webhook o; queue := queue o ++ [ev]; receiver := receiver o;
                  writer_spawned := writer_spawned o; writer := writer o |})
  end.

Definition emit (runtime : bool) (o : LifecycleOutbox) (ev : LifecycleEvent) : LifecycleOutbox :=
  match o with
  | None => None
  | Some inner => match enqueue runtime inner ev with Ok inner' => Some inner' | Err _ => Some inner end
  end.

(** One turn of the loop of [run]: the next queued event is delivered and an error is
    only logged. *)
Definition run_once (o : OutboxInner) (w : world) (i : io) : OutboxInner * world :=
  match writer o, queue o with
  | Some st, ev :: rest =>
      let '(st', w', _) := deliver (webhook o) st w i ev in
      ({| path := path o; webhook := webhook o; queue := rest; receiver := receiver o;
          writer_spawned := writer_spawned o; writer := Some st' |}, w')
  | _, _ => (o, w)
  end.

(** ** The outbox in its environment

    The configuration is fixed; a label is an [emit] by the program (with or without
    a runtime to spawn the writer on), one turn of the writer, the loss of the
    runtime, or a restart of the process. *)

Record config : Type := {
  cfg_path : option (list N);
  cfg_url : option (list N);
  cfg_token : option (list N) }.

Inductive label : Type :=
  | Emit (runtime : bool) (ev : LifecycleEvent)
  | Write (i : io)
  | RuntimeGone
  | Restart.

Record sys : Type := { handle : LifecycleOutbox; outside : world }.

(** The writer task is dropped with the receiver it owns. *)
Definition lose_runtime (o : OutboxInner) : OutboxInner :=
  match writer o with
  | None => o
  | Some _ => {| path := path o; webhook := webhook o; queue := []; receiver := Dropped;
                 writer_spawned := writer_spawned o; writer := None |}
  end.

Definition start (c : config) (w : world) : sys :=
  {| handle := outbox_new (cfg_path c) (cfg_url c) (cfg_token c); outside := w |}.

Definition exec (c : config) (s : sys) (l : label) : sys :=
  match l, handle s with
  | Restart, _ => start c (outside s)
  | Emit runtime ev, o => {| handle := emit runtime o ev; outside := outside s |}
  | Write i, Some o =>
      let '(o', w') := run_once o (outside s) i in {| handle := Some o'; outside := w' |}
  | RuntimeGone, Some o => {| handle := Some (lose_runtime o); outside := outside s |}
  | _, None => s
  end.

Definition run_labels (c : config) (s : sys) (ls : list label) : sys := fold_left (exec c) ls s.

End Outbox.

End Outbox.
