(* ===== verification/OutboxFacts.v ===== *)
(** * The lifecycle outbox: facts

    What a log file of the outbox is, the recovery of its last sequence number, the
    invariant of the running outbox, and the properties: strictly increasing sequence
    numbers across restarts, emission order, drainage, what a torn line does, the
    bounds of text fields and of webhook retries. *)

From stdpp Require Import base list option numbers strings sorting.
From Stdlib Require Import Lia NArith.
From S2P Require Import Prelude RustStr RustUtf8 Outbox.
Import Outbox.

Module OutboxFacts.

(** ** Bounded text *)

Lemma push_chars_spec max n l :
  n <= max ->
  push_chars max n l = (take (max - n) l, n + length (take (max - n) l), bool_decide (max - n < length l)).
Proof.
  revert n. induction l as [|c l IH]; intros n Hn; cbn [push_chars length].
  - rewrite take_nil, bool_decide_eq_false_2 by lia. by rewrite Nat.add_0_r.
  - destruct (Nat.ltb_spec max (n + 1)).
    + replace (max - n) with 0 by lia. cbn. by rewrite Nat.add_0_r.
    + rewrite IH by lia. replace (max - n) with (S (max - (n + 1))) by lia. cbn [take length].
      rewrite (bool_decide_ext (S (max - (n + 1)) < S (length l)) (max - (n + 1) < length l)) by lia.
      f_equal. f_equal. lia.
Qed.

Lemma bounded_text_fits text max :
  length (cleaned_text text) <= max -> bounded_text text max = Some (cleaned_text text).
Proof.
  intros H. unfold bounded_text. rewrite push_chars_spec by lia.
  rewrite Nat.sub_0_r, bool_decide_eq_false_2 by lia. by rewrite take_ge.
Qed.

Lemma bounded_text_truncates text max :
  0 < max -> max < length (cleaned_text text) ->
  bounded_text text max = Some (take (max - 1) (cleaned_text text) ++ OUTBOX_TRUNCATION_MARKER).
Proof.
  intros Hm H. unfold bounded_text. rewrite push_chars_spec by lia.
  rewrite Nat.sub_0_r, bool_decide_eq_true_2 by lia. rewrite length_take_le by lia. cbn [Nat.add].
  set (cl := cleaned_text text) in *. destruct max as [|max]; [lia|].
  destruct (lookup_lt_is_Some_2 cl max ltac:(lia)) as [x Hx].
  rewrite (take_S_r _ _ _ Hx), reverse_snoc. cbn [pop_for_marker length OUTBOX_TRUNCATION_MARKER].
  destruct (Nat.ltb_spec (S max) (S max + 1)); [|lia].
  destruct max as [|max]; cbn [pop_for_marker reverse].
  - done.
  - destruct (reverse (take (S max) cl)) as [|y r] eqn:E.
    { apply (f_equal length) in E. rewrite length_reverse, length_take_le in E by lia. done. }
    cbn [pop_for_marker]. destruct (Nat.ltb_spec (S (S max)) (S max + 1)); [lia|].
    cbn [mbind option_bind]. rewrite <-E, reverse_involutive. done.
Qed.

(** ** The last complete line *)

Lemma rposition_none b l : b ∉ l -> rposition b l = None.
Proof.
  induction l as [|x l IH]; [done|]. rewrite not_elem_of_cons. intros [H1 H2]. cbn.
  rewrite IH by done. by destruct (N.eqb_spec x b).
Qed.

Lemma rposition_last b a l : b ∉ l -> rposition b (a ++ b :: l) = Some (length a).
Proof.
  intros H. induction a as [|x a IH]; cbn.
  - by rewrite rposition_none, N.eqb_refl.
  - by rewrite IH.
Qed.

(** A text is whole when it is empty or ends with a newline. *)
Definition whole (bytes : list N) : Prop := bytes = [] \/ exists b, bytes = b ++ [c_nl].

Lemma whole_drop n bytes : whole bytes -> whole (drop n bytes).
Proof.
  intros [->|[b ->]]; [left; by rewrite drop_nil|].
  destruct (decide (n <= length b)).
  - right. exists (drop n b). by rewrite drop_app_le.
  - left. apply drop_ge. rewrite length_app. cbn. lia.
Qed.

Lemma last_complete_line_whole pre line torn :
  whole pre -> c_nl ∉ line -> c_nl ∉ torn ->
  last_complete_line (pre ++ (line ++ [c_nl]) ++ torn) = Some line.
Proof.
  intros Hp Hl Ht. unfold last_complete_line.
  replace (pre ++ (line ++ [c_nl]) ++ torn) with ((pre ++ line) ++ c_nl :: torn) by by rewrite <-!app_assoc.
  rewrite rposition_last, take_app_length by done.
  destruct Hp as [->|[b ->]]; cbn [app].
  - by rewrite rposition_none.
  - rewrite <-app_assoc. cbn [app]. rewrite rposition_last by done. f_equal.
    replace (length b + 1) with (length (b ++ [c_nl])) by by rewrite length_app.
    rewrite <-(drop_app_length (b ++ [c_nl]) line) at 2. by rewrite <-app_assoc.
Qed.

(** ** Log files *)

Section Log.
Context {Value : Type} `{!EnvelopeCodec (Value := Value)}.
Implicit Types (e : RuntimeEventEnvelope (Value := Value)) (es : list (RuntimeEventEnvelope (Value := Value))).

(** The bytes of one envelope's line. *)
Definition encodes e (bytes : list N) : Prop :=
  extra e = [] /\ exists l, to_string e = Some l /\ bytes = as_bytes l ++ [c_nl].

(** The file holds exactly the lines of [es], in order. *)
Definition file_log (f : file_state) es : Prop :=
  exists lines, Forall2 encodes es lines /\ default [] f = mjoin lines.

(** The line of the envelope fits the window of the recovery. *)
Definition short e : Prop :=
  forall l, to_string e = Some l -> length (as_bytes l) < SEQ_RECOVERY_TAIL_BYTES.

(** The sequence number of [e] is before that of [e'], unless the counter is
    saturated. *)
Definition seq_before e e' : Prop := (seq e < seq e' \/ seq e' = u64_max /\ seq e <= u64_max)%N.

Lemma file_log_nil : file_log None [].
Proof. by exists []. Qed.

Lemma file_log_append f es e l :
  file_log f es -> extra e = [] -> to_string e = Some l ->
  file_log (append_bytes f (as_bytes l ++ [c_nl])) (es ++ [e]).
Proof.
  intros (lines & H2 & Hf) Hx Hl. exists (lines ++ [as_bytes l ++ [c_nl]]). split.
  - apply Forall2_app; [done|]. constructor; [|done]. split; [done|]. by exists l.
  - unfold append_bytes. cbn [default]. rewrite Hf, join_app. cbn [mjoin list_join].
    by rewrite app_nil_r.
Qed.

Lemma lines_whole es lines : Forall2 encodes es lines -> whole (mjoin lines).
Proof.
  intros H. destruct lines as [|line lines _] using rev_ind; [by left|]. right.
  apply Forall2_app_inv_r in H as (es1 & es2 & _ & H & _).
  inversion H as [|e ? es' ? (_ & l & _ & ->) H']; subst. inversion H'; subst.
  exists (mjoin lines ++ as_bytes l). rewrite join_app. cbn [mjoin list_join].
  by rewrite app_nil_r, app_assoc.
Qed.

Context `{!EnvelopeCodecLaws (Value := Value)}.

Lemma encoded_one_line e l : to_string e = Some l -> c_nl ∉ as_bytes l.
Proof. intros Hl Hn%as_bytes_ascii; [|done]. by apply (to_string_one_line e l). Qed.

(** Recovery finds the number after the last complete line, whatever follows its
    newline, as long as both fit the window. *)
Lemma recover_torn lines l e torn :
  whole lines -> c_nl ∉ torn -> extra e = [] -> to_string e = Some l ->
  length (as_bytes l) + 1 + length torn <= SEQ_RECOVERY_TAIL_BYTES ->
  recover_last_seq None (Some (lines ++ (as_bytes l ++ [c_nl]) ++ torn)) = Ok (u64_saturating_add (seq e) 1).
Proof.
  intros Hw Ht Hx Hl Hlen. unfold recover_last_seq.
  set (rest := (as_bytes l ++ [c_nl]) ++ torn).
  assert (length rest = length (as_bytes l) + 1 + length torn) as Hr
    by (unfold rest; rewrite !length_app; done).
  rewrite length_app, (proj2 (Nat.eqb_neq _ _)) by lia. cbv zeta.
  rewrite drop_app_le by lia. unfold rest.
  rewrite last_complete_line_whole by (eauto using whole_drop, encoded_one_line).
  rewrite from_utf8_as_bytes by (by eapply to_string_scalar).
  destruct (trim l) as [|c t] eqn:E; [by destruct (to_string_not_blank e l Hl)|]. cbn [str_is_empty].
  pose proof (from_to_string e l Hx Hl) as Hs. destruct (from_str l) as [e'|]; [|done].
  injection Hs as ->. done.
Qed.

Lemma recover_log f es :
  file_log f es -> Forall short es ->
  recover_last_seq None f = Ok (match last es with None => 1%N | Some e => u64_saturating_add (seq e) 1 end).
Proof.
  intros (lines & H2 & Hf) Hs. destruct f as [bytes|]; cbn in Hf.
  2:{ destruct H2 as [|e line es lines (_ & l & _ & ->) _]; [done|].
      apply (f_equal length) in Hf. cbn in Hf. rewrite !length_app in Hf. cbn in Hf. lia. }
  destruct es as [|e es _] using rev_ind.
  - apply Forall2_nil_inv_l in H2 as ->. by subst bytes.
  - rewrite last_snoc. apply Forall2_app_inv_l in H2 as (ls & ls' & H2 & H1 & ->).
    inversion H1 as [|? line ?? (Hx & l & Hl & ->) Hnil]; subst. inversion Hnil; subst.
    apply Forall_app in Hs as [_ Hs]. inversion Hs as [|?? He _]; subst.
    rewrite join_app. cbn [mjoin list_join]. apply recover_torn; eauto using lines_whole.
    + apply not_elem_of_nil.
    + specialize (He l Hl). cbn. lia.
Qed.

End Log.

(** ** The invariant of the running outbox *)

Section Running.
Context {Value : Type} `{!EnvelopeCodec (Value := Value)} `{!EnvelopeCodecLaws (Value := Value)}.
Implicit Types (e : RuntimeEventEnvelope (Value := Value)) (es : list (RuntimeEventEnvelope (Value := Value))).
Implicit Types (ev : LifecycleEvent (Value := Value)) (w : world (Value := Value)).

(** Every envelope of the event, with an RFC 3339 time, fits the window: the contract
    of the emit sites. *)
Definition line_bounded ev : Prop :=
  forall s now created, (s <= u64_max)%N -> length now <= 64 -> length created <= 64 ->
    short (mk_envelope ev s now created).

(** A record is written whole or not at all. *)
Definition clean_append (a : append_io) : Prop :=
  match a with
  | AppendWriteFails k | AppendFlushFails k => k = 0 \/ SEQ_RECOVERY_TAIL_BYTES <= k
  | _ => True
  end.

Definition clean_io (i : io) : Prop :=
  length (io_timestamp i) <= 64 /\ length (io_created_at i) <= 64 /\ clean_append (io_append i).

Definition clean_label (l : label (Value := Value)) : Prop :=
  match l with
  | Emit _ ev => line_bounded ev
  | Write i => clean_io i
  | RuntimeGone | Restart => True
  end.

(** The number [s] comes after those of [es]. *)
Definition after (s : N) es : Prop :=
  (1 <= s <= u64_max)%N /\ Forall (fun e => seq e < s \/ s = u64_max)%N es.

Definition log_ok (f : file_state) es : Prop :=
  file_log f es /\ Forall short es /\ StronglySorted seq_before es
  /\ Forall (fun e => 1 <= seq e <= u64_max)%N es.

Definition writer_ok (st : WriterState) es : Prop := recovered st = true -> after (next_seq st) es.

Definition inner_ok (o : OutboxInner (Value := Value)) es : Prop :=
  Forall line_bounded (queue o) /\ forall st, writer o = Some st -> writer_ok st es.

Definition Inv (s : sys (Value := Value)) : Prop :=
  exists es, log_ok (file (outside s)) es /\ forall o, handle s = Some o -> inner_ok o es.

Lemma after_succ s es e :
  after s es -> seq e = s -> after (u64_saturating_add s 1) (es ++ [e]).
Proof.
  unfold after, u64_saturating_add. intros [H1 H2] <-. split; [lia|].
  apply Forall_app. split; [|apply Forall_singleton; lia].
  eapply Forall_impl; [exact H2|]. intros x. cbn. lia.
Qed.

Lemma sorted_after es : StronglySorted seq_before es -> Forall (fun e => 1 <= seq e <= u64_max)%N es ->
  after (match last es with None => 1 | Some e => u64_saturating_add (seq e) 1 end)%N es.
Proof.
  intros Hs Hb. destruct es as [|e es _] using rev_ind; [split; [cbn; unfold u64_max; lia|constructor]|].
  rewrite last_snoc. apply Forall_app in Hb as [Hb He]. inversion He as [|?? He' _]; subst.
  apply after_succ; [|done]. split; [done|]. apply Forall_forall. intros x Hx.
  apply StronglySorted_app_1_elem_of with (x1 := x) (x2 := e) in Hs; [|done|by apply list_elem_of_singleton].
  unfold seq_before in Hs. lia.
Qed.

Lemma deliver_seq st f i es s :
  log_ok f es -> writer_ok st es ->
  (if recovered st then Ok (next_seq st) else recover_last_seq (io_read i) f) = Ok s -> after s es.
Proof.
  intros (Hf & Hsh & Hs & Hb) Hw. destruct (recovered st) eqn:E; [intros [= <-]; by apply Hw|].
  assert (recover_last_seq (io_read i) f = Ok s -> recover_last_seq None f = Ok s) as Hio.
  { destruct f; [|done]. by destruct (io_read i). }
  intros H%Hio. rewrite (recover_log f es) in H by done. injection H as <-. by apply sorted_after.
Qed.

Lemma log_ok_append f es e l :
  log_ok f es -> after (seq e) es -> short e -> extra e = [] -> to_string e = Some l ->
  log_ok (append_bytes f (as_bytes l ++ [c_nl])) (es ++ [e]).
Proof.
  intros (Hf & Hsh & Hs & Hb) [Ha1 Ha2] He Hx Hl. split_and!.
  - by apply file_log_append.
  - apply Forall_app. split; [done|by apply Forall_singleton].
  - apply StronglySorted_app_2; [|done|by do 2 constructor].
    intros x y Hx' ->%list_elem_of_singleton. rewrite Forall_forall in Ha2, Hb.
    specialize (Ha2 x Hx'). specialize (Hb x Hx'). unfold seq_before. lia.
  - apply Forall_app. split; [done|by apply Forall_singleton].
Qed.

(** A clean append leaves the file as it was or adds the whole line. *)
Lemma append_line_clean a f l :
  clean_append a -> length (as_bytes l) < SEQ_RECOVERY_TAIL_BYTES ->
  default [] (append_line a f l).1 = default [] f
  \/ (append_line a f l).1 = append_bytes f (as_bytes l ++ [c_nl]).
Proof.
  intros Ha Hl.
  assert (forall k, k = 0 \/ SEQ_RECOVERY_TAIL_BYTES <= k ->
    default [] (append_bytes f (take k (as_bytes l ++ [c_nl]))) = default [] f
    \/ append_bytes f (take k (as_bytes l ++ [c_nl])) = append_bytes f (as_bytes l ++ [c_nl])) as H.
  { intros k [->|Hk]; [left; cbn; by rewrite app_nil_r|]. right. rewrite take_ge; [done|].
    rewrite length_app. cbn. lia. }
  destruct a; first [by apply H|by left|by right].
Qed.

Lemma log_ok_same f f' es : default [] f = default [] f' -> log_ok f es -> log_ok f' es.
Proof. unfold log_ok, file_log. by intros ->. Qed.

Lemma deliver_inv wh st w i ev es :
  log_ok (file w) es -> writer_ok st es -> line_bounded ev -> clean_io i ->
  let '(st', w', _) := deliver wh st w i ev in
  exists es', log_ok (file w') es' /\ writer_ok st' es'.
Proof.
  intros Hlog Hw Hev (Ht & Hc & Ha). unfold deliver.
  destruct (if recovered st then _ else _) as [s|err] eqn:Es; [|by exists es].
  pose proof (deliver_seq _ _ _ _ _ Hlog Hw Es) as Has.
  set (env := mk_envelope ev s (io_timestamp i) (io_created_at i)).
  assert (writer_ok {| next_seq := u64_saturating_add s 1; recovered := true |} (es ++ [env])) as Hw'.
  { intros _. by apply after_succ. }
  assert (writer_ok {| next_seq := u64_saturating_add s 1; recovered := true |} es) as Hw''.
  { intros _. destruct (Hw' eq_refl) as [H1 H2]. split; [done|]. by apply Forall_app in H2 as [? _]. }
  destruct (to_string env) as [l|] eqn:El; [|by exists es].
  assert (short env) as Hsh by (apply Hev; [apply Has|done|done]).
  destruct (append_line_clean (io_append i) (file w) l Ha (Hsh l El)) as [Hf|Hf];
    destruct (append_line _ _ _) as [f' r]; cbn in Hf |- *.
  - exists es. split; [|done]. by eapply log_ok_same.
  - subst f'. exists (es ++ [env]). split; [|done]. by apply log_ok_append.
Qed.

Lemma start_inner c w o : handle (start c w) = Some o ->
  queue o = [] /\ receiver o = Held /\ writer_spawned o = false /\ writer o = None.
Proof.
  unfold start, outbox_new. cbn. destruct (cfg_path c) as [p|]; [|done].
  destruct (str_is_empty p); [done|]. by intros [= <-].
Qed.

Lemma start_inner_ok c w o es : handle (start c w) = Some o -> inner_ok o es.
Proof. intros (Hq & _ & _ & Hw)%start_inner. unfold inner_ok. rewrite Hq, Hw. split; [constructor|done]. Qed.

(** What [emit] does to an enabled outbox: unless the receiver is gone the event is
    queued, and the writer can only be a fresh one. *)
Lemma emit_some runtime o ev o' :
  emit runtime (Some o) ev = Some o' ->
  o' = o \/ queue o' = queue o ++ [ev]
            /\ (writer o' = writer o \/ writer o' = Some {| next_seq := 0; recovered := false |}).
Proof.
  unfold emit, enqueue, ensure_writer_spawned.
  destruct (receiver o) eqn:E; cbn [writer_spawned receiver];
    [..|by intros [= <-]; left]; destruct (writer_spawned o), runtime; cbn; rewrite ?E; intros [= <-]; auto.
Qed.

Lemma emit_inner_ok runtime o ev o' es :
  inner_ok o es -> line_bounded ev -> emit runtime (Some o) ev = Some o' -> inner_ok o' es.
Proof.
  intros [Hq Hw] Hev [->|[Hq' Hw']]%emit_some; [done|]. split.
  - rewrite Hq'. apply Forall_app. split; [done|by apply Forall_singleton].
  - intros st Hst. destruct Hw' as [E|E]; rewrite E in Hst; [by apply Hw|]. by injection Hst as <-.
Qed.

Lemma run_once_inv o w i es :
  log_ok (file w) es -> inner_ok o es -> clean_io i ->
  exists es', log_ok (file (run_once o w i).2) es' /\ inner_ok (run_once o w i).1 es'.
Proof.
  intros Hlog Hok Hi. unfold run_once. destruct (writer o) as [st|] eqn:Est; [|by exists es].
  destruct (queue o) as [|ev rest] eqn:Eq; [by exists es|]. destruct Hok as [Hq Hw].
  rewrite Eq in Hq. inversion Hq as [|?? Hev Hrest]; subst.
  pose proof (deliver_inv (webhook o) st w i ev es Hlog (Hw _ Est) Hev Hi) as Hd.
  destruct (deliver _ _ _ _ _) as [[st' w'] r]. destruct Hd as (es' & H1 & H2).
  exists es'. split; [done|]. split; [done|]. cbn. by intros ? [= <-].
Qed.

Lemma exec_inv c s l : Inv s -> clean_label l -> Inv (exec c s l).
Proof.
  intros (es & Hlog & Ho) Hl. destruct s as [h w]; cbn [handle outside] in *.
  destruct l as [runtime ev|i| |]; unfold exec; cbn [handle outside].
  - exists es. split; [done|]. cbn. intros o' E. destruct h as [o|]; [|done].
    eapply emit_inner_ok; eauto.
  - destruct h as [o|]; [|by exists es].
    destruct (run_once_inv o w i es Hlog (Ho _ eq_refl) Hl) as (es' & H1 & H2).
    destruct (run_once o w i) as [o' w']. exists es'. split; [done|]. by intros ? [= <-].
  - destruct h as [o|]; [|by exists es]. exists es. split; [done|]. cbn. intros ? [= <-].
    unfold lose_runtime. destruct (writer o) eqn:E; [|by apply Ho]. split; [constructor|done].
  - exists es. split; [done|]. intros o. apply start_inner_ok.
Qed.

Lemma run_labels_inv c ls s : Inv s -> Forall clean_label ls -> Inv (run_labels c s ls).
Proof.
  intros H Hls. revert s H. unfold run_labels.
  induction Hls as [|l ls Hl _ IH]; intros s H; [done|]. cbn. apply IH. by apply exec_inv.
Qed.

Lemma start_inv c : Inv (start c {| file := None; posted := [] |}).
Proof.
  exists []. split; [|intros o; apply start_inner_ok].
  split; [apply file_log_nil|]. by repeat constructor.
Qed.

(** ** Runs without faults *)

Definition event_of e : LifecycleEvent :=
  {| event := env_event e; kind := env_kind e; thread_id := env_thread_id e; turn_id := env_turn_id e;
     item_id := env_item_id e; payload := env_payload e |}.

Definition good_event ev : Prop :=
  line_bounded ev /\ forall s now created, is_Some (to_string (mk_envelope ev s now created)).

Definition good_io (i : io) : Prop := clean_io i /\ io_read i = None /\ io_append i = AppendOk.

Definition good_label (l : label (Value := Value)) : Prop :=
  match l with
  | Emit _ ev => good_event ev
  | Write i => good_io i
  | RuntimeGone | Restart => False
  end.

Definition emitted (ls : list (label (Value := Value))) : list LifecycleEvent :=
  omap (fun l => match l with Emit _ ev => Some ev | _ => None end) ls.

(** The channel is intact: no writer yet, or one that holds the receiver. *)
Definition channel_ok (o : OutboxInner (Value := Value)) : Prop :=
  (receiver o = Held /\ writer_spawned o = false /\ writer o = None)
  \/ (receiver o = Taken /\ writer_spawned o = true /\ is_Some (writer o)).

(** The log and the queue together are what was emitted. *)
Definition Complete (s : sys (Value := Value)) (evs : list LifecycleEvent) : Prop :=
  exists es o, handle s = Some o /\ log_ok (file (outside s)) es /\ inner_ok o es /\ channel_ok o
    /\ Forall good_event (queue o) /\ (event_of <$> es) ++ queue o = evs.

Lemma deliver_good wh st w i ev es :
  log_ok (file w) es -> writer_ok st es -> good_event ev -> good_io i ->
  let '(st', w', _) := deliver wh st w i ev in
  exists e, event_of e = ev /\ log_ok (file w') (es ++ [e]) /\ writer_ok st' (es ++ [e]).
Proof.
  intros Hlog Hw [Hev Henc] ((Ht & Hc & _) & Hr & Ha). unfold deliver.
  destruct (if recovered st then _ else _) as [s|err] eqn:Es.
  2:{ destruct (recovered st); [done|]. rewrite Hr in Es. destruct Hlog as (Hf & Hsh & _).
      by rewrite (recover_log _ es) in Es. }
  pose proof (deliver_seq _ _ _ _ _ Hlog Hw Es) as Has.
  destruct (Henc s (io_timestamp i) (io_created_at i)) as [l Hl]. rewrite Hl, Ha. cbn [append_line file].
  exists (mk_envelope ev s (io_timestamp i) (io_created_at i)). split; [by destruct ev|]. split.
  - apply log_ok_append; try done. apply Hev; [apply Has|done|done].
  - intros _. by apply after_succ.
Qed.

Lemma emit_complete runtime o ev :
  channel_ok o -> exists o', emit runtime (Some o) ev = Some o' /\ channel_ok o' /\ queue o' = queue o ++ [ev]
    /\ (writer_spawned o = true \/ runtime = true -> writer_spawned o' = true).
Proof.
  unfold emit, enqueue, ensure_writer_spawned, channel_ok.
  intros [(Hr & Hs & Hw)|(Hr & Hs & Hw)]; rewrite Hr; cbn; rewrite Hs, ?Hr; cbn; [destruct runtime; cbn|];
    eexists; (split; [reflexivity|]); cbn; rewrite ?Hr, ?Hs, ?Hw; naive_solver.
Qed.

Lemma exec_complete c s l evs :
  Complete s evs -> good_label l -> Complete (exec c s l) (evs ++ emitted [l]).
Proof.
  intros (es & o & Ho & Hlog & Hok & Hch & Hq & Hevs) Hl. destruct s as [h w]; cbn in *; subst h.
  destruct l as [runtime ev|i| |]; [| |done..]; unfold exec; cbn [handle outside].
  - destruct (emit_complete runtime o ev Hch) as (o' & E & Hch' & Hq' & _). exists es, o'.
    split; [done|]. split; [done|]. split; [eapply emit_inner_ok; [done|apply Hl|done]|]. split; [done|].
    rewrite Hq'. split; [apply Forall_app; split; [done|by apply Forall_singleton]|].
    cbn. by rewrite app_assoc, Hevs.
  - cbn. rewrite app_nil_r. unfold run_once. destruct (writer o) as [st|] eqn:Est; [|by exists es, o].
    destruct (queue o) as [|ev rest] eqn:Eq; [exists es, o; by rewrite Eq|]. destruct Hok as [Hb Hw].
    rewrite Eq in Hb. inversion Hb as [|?? _ Hb']; subst. inversion Hq as [|?? Hev Hq']; subst.
    pose proof (deliver_good (webhook o) st w i ev es Hlog (Hw _ Est) Hev Hl) as Hd.
    destruct (deliver _ _ _ _ _) as [[st' w'] r]. destruct Hd as (e & He & H1 & H2).
    exists (es ++ [e]). eexists. split; [done|]. split; [done|]. cbn. split_and!.
    + split; [done|]. by intros ? [= <-].
    + destruct Hch as [(?&?&?)|(?&?&?)]; [congruence|]. right. by eauto.
    + done.
    + rewrite fmap_app. cbn. by rewrite He, <-app_assoc.
Qed.

Lemma run_labels_complete c ls s evs :
  Complete s evs -> Forall good_label ls -> Complete (run_labels c s ls) (evs ++ emitted ls).
Proof.
  intros H Hls. revert s evs H. unfold run_labels.
  induction Hls as [|l ls Hl _ IH]; intros s evs H; [by rewrite app_nil_r|].
  cbn [fold_left]. replace (evs ++ emitted (l :: ls)) with ((evs ++ emitted [l]) ++ emitted ls).
  - apply IH. by apply exec_complete.
  - rewrite <-app_assoc. f_equal. by destruct l.
Qed.

Definition spawned (s : sys (Value := Value)) : Prop := exists o, handle s = Some o /\ writer_spawned o = true.

Lemma run_once_spawned o w i : writer_spawned (run_once o w i).1 = writer_spawned o.
Proof.
  unfold run_once. destruct (writer o); [|done]. destruct (queue o); [done|].
  by destruct (deliver _ _ _ _ _) as [[??]?].
Qed.

Lemma exec_spawned c s l evs :
  Complete s evs -> good_label l -> (spawned s \/ exists ev, l = Emit true ev) -> spawned (exec c s l).
Proof.
  intros (es & o & Ho & _ & _ & Hch & _) Hl Hs.
  assert (writer_spawned o = true \/ exists ev, l = Emit true ev) as Hs'
    by (destruct Hs as [(? & ? & ?)|?]; [left; congruence|by right]).
  destruct s as [h w]; cbn in *; subst h. unfold exec; cbn [handle outside].
  destruct l as [runtime ev|i| |]; [| |done..].
  - destruct (emit_complete runtime o ev Hch) as (o' & E & _ & _ & Hsp). exists o'. split; [done|].
    apply Hsp. naive_solver.
  - destruct Hs' as [Hs'|(? & [=])]. pose proof (run_once_spawned o w i) as Hr.
    destruct (run_once o w i) as [o' w']. exists o'. cbn in *. by rewrite Hr.
Qed.

Lemma run_labels_spawned c ls s evs :
  Complete s evs -> Forall good_label ls -> (spawned s \/ exists ev, Emit true ev ∈ ls) ->
  spawned (run_labels c s ls).
Proof.
  intros H Hls. revert s evs H. unfold run_labels.
  induction Hls as [|l ls Hl _ IH]; intros s evs H Hs.
  { destruct Hs as [?|(ev & []%not_elem_of_nil)]. done. }
  cbn [fold_left]. eapply IH; [by apply exec_complete|]. destruct Hs as [Hs|(ev & [E|Hin]%elem_of_cons)].
  - left. eapply exec_spawned; eauto.
  - left. eapply exec_spawned; eauto.
  - right. by exists ev.
Qed.

Definition queue_of (s : sys (Value := Value)) : list LifecycleEvent :=
  match handle s with Some o => queue o | None => [] end.

Lemma write_drains c s i evs : Complete s evs -> spawned s -> queue_of (exec c s (Write i)) = drop 1 (queue_of s).
Proof.
  intros (es & o & Ho & _ & _ & Hch & _) (o' & Ho' & Hs). rewrite Ho in Ho'. injection Ho' as <-.
  unfold queue_of, exec. rewrite Ho. unfold run_once.
  destruct Hch as [(_ & ? & _)|(_ & _ & st & ->)]; [congruence|].
  destruct (queue o) as [|ev rest] eqn:Eq; [by cbn; rewrite Eq|].
  by destruct (deliver _ _ _ _ _) as [[??]?].
Qed.

Lemma writes_drain c ws s evs :
  Complete s evs -> spawned s -> Forall good_io ws ->
  queue_of (run_labels c s (Write <$> ws)) = drop (length ws) (queue_of s).
Proof.
  intros H Hs Hws. revert s evs H Hs. unfold run_labels.
  induction Hws as [|i ws Hi _ IH]; intros s evs H Hs; [done|].
  assert (good_label (Write i)) as Hl by done.
  cbn [fmap list_fmap fold_left length]. erewrite IH; [|by apply exec_complete|by eapply exec_spawned; eauto].
  erewrite write_drains by done. by rewrite drop_drop.
Qed.

Lemma start_complete c p :
  cfg_path c = Some p -> p <> [] -> Complete (start c {| file := None; posted := [] |}) [].
Proof.
  intros Hp Hne. unfold start, outbox_new, Complete. cbn [handle outside file]. rewrite Hp.
  destruct p as [|ch p]; [done|]. exists []. eexists. split; [reflexivity|].
  split; [split; [apply file_log_nil|by repeat constructor]|].
  split; [split; [constructor|done]|]. split; [by left|done].
Qed.

(** ** A log the recovery rejects *)

(** The outbox has no writer that knows its sequence number. *)
Definition unrecovered (s : sys (Value := Value)) : Prop :=
  forall o st, handle s = Some o -> writer o = Some st -> recovered st = false.

Lemma rejected_any_io f err io : recover_last_seq None f = Err err -> exists err', recover_last_seq io f = Err err'.
Proof. destruct f; [|done]. cbn. destruct io; eauto. Qed.

Lemma exec_rejected c s l err :
  recover_last_seq None (file (outside s)) = Err err -> unrecovered s ->
  outside (exec c s l) = outside s /\ unrecovered (exec c s l).
Proof.
  intros Hf Hu. destruct s as [h w]; cbn [handle outside] in *.
  destruct l as [runtime ev|i| |]; unfold exec; cbn [handle outside].
  - split; [done|]. intros o' st. cbn. destruct h as [o|]; [|done].
    intros [->|[_ [->| ->]]]%emit_some; [by apply Hu|by apply Hu|by intros [= <-]].
  - destruct h as [o|]; [|done]. unfold run_once. destruct (writer o) as [st|] eqn:Est; [|done].
    destruct (queue o) as [|ev rest]; [done|]. unfold deliver. rewrite (Hu o st) by done.
    destruct (rejected_any_io _ _ (io_read i) Hf) as [e' ->]. cbn. split; [done|].
    intros ?? [= <-] [= <-]. by eapply Hu.
  - destruct h as [o|]; [|done]. split; [done|]. intros ?? [= <-]. unfold lose_runtime.
    destruct (writer o) eqn:E; [done|]. cbn. congruence.
  - split; [done|]. intros o st Ho. by apply start_inner in Ho as (_ & _ & _ & ->).
Qed.

Lemma run_labels_rejected c ls s err :
  recover_last_seq None (file (outside s)) = Err err -> unrecovered s ->
  outside (run_labels c s ls) = outside s.
Proof.
  revert s. unfold run_labels. induction ls as [|l ls IH]; intros s Hf Hu; [done|]. cbn [fold_left].
  destruct (exec_rejected c s l err Hf Hu) as [E Hu']. by rewrite IH, E by (rewrite ?E; done).
Qed.

(** ** Properties of the log *)

(** C14: Sequence numbers of the outbox file are strictly increasing and start at one
    (until the counter saturates), whatever is emitted, however often the process
    restarts or loses its runtime, whatever reads fail, and whichever appends fail
    as a whole; the file is then always a list of complete lines. *)
Theorem outbox_sequence_increases (c : config) (ls : list (label (Value := Value))) :
  Forall clean_label ls ->
  exists es, file_log (file (outside (run_labels c (start c {| file := None; posted := [] |}) ls))) es
    /\ StronglySorted seq_before es /\ Forall (fun e => 1 <= seq e <= u64_max)%N es.
Proof.
  intros H. destruct (run_labels_inv c ls _ (start_inv c) H) as (es & (Hf & _ & Hs & Hb) & _).
  by exists es.
Qed.

(** Without faults no event is lost or reordered: at every moment the events of
    the file followed by the queue are the events emitted, and once one of them was
    emitted with a runtime available, as many turns of the writer as there were
    events put all of them in the file. *)
Theorem outbox_delivers_in_order (c : config) (p : list N) (ls : list (label (Value := Value))) (ws : list io) :
  cfg_path c = Some p -> p <> [] -> Forall good_label ls -> Forall good_io ws ->
  (exists ev, Emit true ev ∈ ls) -> length (emitted ls) <= length ws ->
  let s := run_labels c (start c {| file := None; posted := [] |}) ls in
  let s' := run_labels c s (Write <$> ws) in
  (exists es, file_log (file (outside s)) es /\ (event_of <$> es) ++ queue_of s = emitted ls)
  /\ (exists es, file_log (file (outside s')) es /\ event_of <$> es = emitted ls).
Proof.
  intros Hp Hne Hls Hws Hrun Hlen s s'. pose proof (start_complete c p Hp Hne) as H0.
  pose proof (run_labels_complete c ls _ _ H0 Hls) as H1. fold s in H1. cbn [app] in H1.
  pose proof (run_labels_spawned c ls _ _ H0 Hls (or_intror Hrun)) as Hsp. fold s in Hsp.
  assert (Forall good_label (Write <$> ws)) as Hws' by (by apply Forall_fmap).
  pose proof (run_labels_complete c _ _ _ H1 Hws') as H2. fold s' in H2.
  assert (emitted (Write <$> ws) = []) as E by (clear; by induction ws).
  rewrite E, app_nil_r in H2. pose proof (writes_drain c ws s _ H1 Hsp Hws) as Hq. fold s' in Hq.
  destruct H1 as (es & o & Ho & (Hf & _) & _ & _ & _ & Hevs).
  destruct H2 as (es' & o' & Ho' & (Hf' & _) & _ & _ & _ & Hevs').
  assert (queue_of s = queue o /\ queue_of s' = queue o') as [Q Q'].
  { unfold queue_of. by rewrite Ho, Ho'. }
  split; [exists es; by rewrite Q|]. exists es'. split; [done|].
  rewrite <-Q', Hq, drop_ge, app_nil_r in Hevs'; [done|].
  rewrite Q. apply (f_equal length) in Hevs. rewrite length_app in Hevs. lia.
Qed.

(** A line torn by a crash is never repaired: the next event is appended to the
    torn bytes and reported as written, and when the resulting line is not an
    envelope the outbox is dead from the next start on: no sequence of emits, writer
    turns and restarts changes the file or calls the webhook again. *)
Theorem torn_line_wedges_outbox (c : config) (es : list RuntimeEventEnvelope) (bytes torn l t : list N)
    (calls : list (RuntimeEventEnvelope (Value := Value) * option (result unit webhook_error))) :
  file_log (Some bytes) es -> c_nl ∉ torn -> c_nl ∉ as_bytes l ->
  length (torn ++ as_bytes l) < SEQ_RECOVERY_TAIL_BYTES ->
  from_utf8 (torn ++ as_bytes l) = Some t -> trim t <> [] -> from_str t = None ->
  let appended := append_line AppendOk (Some (bytes ++ torn)) l in
  let w := {| file := appended.1; posted := calls |} in
  appended.2 = Ok tt /\ forall ls, outside (run_labels c (start c w) ls) = w.
Proof.
  intros (lines & H2 & Hb) Ht Hl Hlen Hu Htr Hrej. split; [done|]. intros ls.
  cbn in Hb. subst bytes. apply (run_labels_rejected c ls (start c _) ParseFailed).
  2:{ intros o st Ho. by apply start_inner in Ho as (_ & _ & _ & ->). }
  cbn [outside start file append_line append_bytes fst]. unfold recover_last_seq, append_bytes. cbn [default from_option id].
  replace ((mjoin lines ++ torn) ++ as_bytes l ++ [c_nl]) with (mjoin lines ++ ((torn ++ as_bytes l) ++ [c_nl]) ++ [])
    by by rewrite app_nil_r, !app_assoc.
  rewrite length_app. rewrite !length_app in *. cbn [length]. rewrite (proj2 (Nat.eqb_neq _ _)) by lia. cbv zeta.
  rewrite drop_app_le by lia. rewrite last_complete_line_whole.
  - rewrite Hu. destruct (trim t); [done|]. cbn [str_is_empty]. by rewrite Hrej.
  - eapply whole_drop, lines_whole; eauto.
  - rewrite not_elem_of_app. auto.
  - apply not_elem_of_nil.
Qed.

End Running.

(** ** Properties of the text and retry bounds *)

Lemma filter_control_free text : Forall (fun ch => is_control ch = false) (cleaned_text text).
Proof.
  unfold cleaned_text. set (s := filter _ text).
  assert (Forall (fun ch => is_control ch = false) s) as Hs
    by (apply Forall_forall; intros x Hx; by apply list_elem_of_filter in Hx as [? _]).
  assert (Forall (Forall (fun ch => is_control ch = false)) (split_whitespace s)) as Hw.
  { clearbody s. induction Hs as [|c s Hc Hs IH]; [constructor|]. cbn.
    repeat case_match; repeat (constructor || done); inversion IH; subst; by repeat constructor. }
  induction Hw as [|w ws H1 H2 IH]; [constructor|]. destruct ws as [|v ws]; [done|].
  rewrite str_join_cons. apply Forall_app. split; [done|]. by constructor.
Qed.

(** A bounded field never exceeds its ceiling and never holds a control
    character: text whose cleaned form fits is that form, longer text is its first
    [max - 1] characters and the marker; a ceiling of zero underflows the counter as
    soon as there is text. *)
Theorem bounded_text_spec (text : list N) (max : nat) :
  bounded_text text max =
    (if length (cleaned_text text) <=? max then Some (cleaned_text text)
     else if max =? 0 then None
     else Some (take (max - 1) (cleaned_text text) ++ OUTBOX_TRUNCATION_MARKER))
  /\ (forall out, bounded_text text max = Some out ->
      length out <= max /\ Forall (fun ch => is_control ch = false) out).
Proof.
  assert (bounded_text text max =
    (if length (cleaned_text text) <=? max then Some (cleaned_text text)
     else if max =? 0 then None
     else Some (take (max - 1) (cleaned_text text) ++ OUTBOX_TRUNCATION_MARKER))) as E.
  { destruct (Nat.leb_spec (length (cleaned_text text)) max) as [H|H]; [by apply bounded_text_fits|].
    destruct (Nat.eqb_spec max 0) as [->|Hm]; [|apply bounded_text_truncates; lia].
    unfold bounded_text. rewrite push_chars_spec, bool_decide_eq_true_2 by lia. done. }
  split; [done|]. intros out. rewrite E. pose proof (filter_control_free text) as Hc.
  destruct (Nat.leb_spec (length (cleaned_text text)) max) as [H|H]; [by intros [= <-]|].
  destruct (Nat.eqb_spec max 0) as [Hz|Hm]; [done|]. intros [= <-]. split.
  - rewrite length_app, length_take_le by lia. cbn. lia.
  - apply Forall_app. split; [by apply Forall_take|]. by repeat constructor.
Qed.

(** The webhook loop terminates: for every behaviour of the server it makes at most
    three requests and sleeps at most 200 and 400 milliseconds, it succeeds exactly
    when one of those three is answered with a success status, and otherwise reports
    the third failure. *)
Theorem webhook_retries_bounded (attempts : nat -> attempt) :
  let ok n := match attempts n with Response s => is_success s | SendError => false end in
  exists r slept, post_payload 3 attempts = Some (r, slept)
    /\ slept `prefix_of` [200; 400]
    /\ (r = Ok tt <-> ok 0 = true \/ ok 1 = true \/ ok 2 = true)
    /\ (r <> Ok tt -> slept = [200; 400] /\
        r = Err (match attempts 2 with Response s => NonSuccess s | SendError => RequestFailed end)).
Proof.
  cbv zeta. unfold post_payload. cbn [post_loop].
  destruct (attempts 0) as [s0|]; [destruct (is_success s0) eqn:E0|]; cbn;
  [do 2 eexists; split; [done|]; split; [apply prefix_nil|]; by split; [rewrite ?E0; split; auto|]|..];
  (destruct (attempts 1) as [s1|]; [destruct (is_success s1) eqn:E1|]; cbn;
  [do 2 eexists; split; [done|]; split; [by exists [400]|]; by split; [rewrite ?E0, ?E1; split; auto|]|..]);
  (destruct (attempts 2) as [s2|]; [destruct (is_success s2) eqn:E2|]; cbn; do 2 eexists;
    (split; [done|]); (split; [by exists []|]); rewrite ?E0, ?E1, ?E2; naive_solver).
Qed.

(** ** Witnesses

    A small codec that satisfies the laws: the sequence number in binary, least
    significant bit first, in braces. *)

Fixpoint bits (p : positive) : list N :=
  match p with
  | xH => [49%N]
  | xO p => 48%N :: bits p
  | xI p => 49%N :: bits p
  end.

Fixpoint parse_bits (s : list N) : option positive :=
  match s with
  | [] => None
  | [c] => if (c =? 49)%N then Some xH else None
  | c :: s => if (c =? 49)%N then xI <$> parse_bits s
              else if (c =? 48)%N then xO <$> parse_bits s else None
  end.

Definition bits_N (n : N) : list N := match n with N0 => [] | Npos p => bits p end.
Definition parse_bits_N (s : list N) : option N := if str_is_empty s then Some 0%N else Npos <$> parse_bits s.

Definition sample_event : LifecycleEvent (Value := unit) :=
  {| event := lit "turn_start"; kind := lit "turn.started"; thread_id := lit "s"; turn_id := None;
     item_id := None; payload := tt |}.

#[local] Instance binary_codec : EnvelopeCodec (Value := unit) := {|
  to_string e := Some (123%N :: bits_N (seq e) ++ [125%N]);
  from_str s :=
    match s with
    | c :: r => if (c =? 123)%N then
                  b ← strip_suffix_char 125 r; n ← parse_bits_N b; Some (mk_envelope sample_event n [] [])
                else None
    | [] => None
    end |}.

Lemma bits_cons p : exists c s, bits p = c :: s.
Proof. destruct p; cbn; eauto. Qed.

Lemma parse_bits_bits p : parse_bits (bits p) = Some p.
Proof.
  induction p as [p IH|p IH|]; [..|done]; destruct (bits_cons p) as (c & s & E); cbn [bits];
    rewrite E in *; cbn [parse_bits] in IH |- *; by rewrite IH.
Qed.

Lemma bits_N_digits n : Forall (fun c => c = 48 \/ c = 49)%N (bits_N n).
Proof. destruct n as [|p]; [constructor|]. cbn. induction p; cbn; constructor; auto. Qed.

Lemma bits_N_length n : (n <= u64_max)%N -> length (bits_N n) <= 64.
Proof.
  unfold u64_max. intros H. destruct n as [|p]; [cbn; lia|]. cbn [bits_N].
  assert (length (bits p) = Pos.size_nat p) as -> by (clear; induction p; cbn; congruence).
  assert (forall q, (N.pos p <= N.pos q)%N -> Pos.size_nat p <= Pos.size_nat q) as Hm.
  { intros q Hq. destruct (Pos.eq_dec p q) as [->|Hne]; [done|]. apply Pos.size_nat_monotone. lia. }
  exact (Hm _ H).
Qed.

#[local] Instance binary_codec_laws : EnvelopeCodecLaws (Value := unit).
Proof.
  assert (forall n (P : N -> Prop), P 123%N -> P 125%N -> P 48%N -> P 49%N ->
    Forall P (123%N :: bits_N n ++ [125%N])) as Hall.
  { intros n P H1 H2 H3 H4. constructor; [done|]. apply Forall_app. split; [|by apply Forall_singleton].
    eapply Forall_impl; [apply bits_N_digits|]. by intros c [->| ->]. }
  split.
  - intros e l [= <-]. by apply Hall.
  - intros e l [= <-] Hin. assert (Forall (fun c => c <> c_nl) (123%N :: bits_N (seq e) ++ [125%N])) as H
      by by apply Hall. rewrite Forall_forall in H. by apply (H c_nl).
  - intros e l [= <-]. by rewrite trim_no_ws by by apply Hall.
  - intros e l _ [= <-]. cbn. rewrite (proj2 (strip_suffix_char_spec _ _ _)) by done. cbn.
    unfold parse_bits_N. destruct (seq e) as [|p]; [done|]. cbn [bits_N].
    destruct (bits_cons p) as (c & s & E). rewrite E. cbn [str_is_empty]. rewrite <-E, parse_bits_bits. done.
Qed.

Lemma tail_bytes_value n : (N.of_nat n < 65536)%N -> n < SEQ_RECOVERY_TAIL_BYTES.
Proof. unfold SEQ_RECOVERY_TAIL_BYTES. lia. Qed.

Lemma sample_event_bounded : line_bounded sample_event.
Proof.
  intros s now created Hs _ _ l [= <-]. apply tail_bytes_value. unfold as_bytes.
  assert (forall t, Forall (fun c => c = 48 \/ c = 49)%N t -> length (t ≫= encode_char) = length t) as Hb.
  { clear. induction 1 as [|c t [->| ->] _ IH]; cbn; [done|..]; by rewrite IH. }
  cbn. rewrite bind_app, length_app, Hb by apply bits_N_digits. cbn.
  pose proof (bits_N_length s Hs). lia.
Qed.

Definition sample_config : config := {| cfg_path := Some (lit "o.jsonl"); cfg_url := None; cfg_token := None |}.

Definition sample_io (a : append_io) : io :=
  {| io_read := None; io_append := a; io_timestamp := lit "2026"; io_created_at := lit "2026";
     io_attempts := fun _ => SendError |}.

Lemma sample_io_clean a : clean_append a -> clean_io (sample_io a).
Proof. intros H. split; [|split; [|done]]; cbn; lia. Qed.

(** Two events, a failed append, a restart and a third event. *)
Definition sample_labels : list label :=
  [Emit true sample_event; Emit true sample_event; Write (sample_io AppendOk);
   Write (sample_io AppendOpenFails); Restart; Emit true sample_event; Write (sample_io AppendOk)].

Lemma outbox_sequence_increases_witness :
  file (outside (run_labels sample_config (start sample_config {| file := None; posted := [] |}) sample_labels))
    = Some (lit "{1}" ++ [c_nl] ++ lit "{01}" ++ [c_nl])
  /\ exists es, file_log (file (outside
       (run_labels sample_config (start sample_config {| file := None; posted := [] |}) sample_labels))) es
    /\ StronglySorted seq_before es /\ Forall (fun e => 1 <= seq e <= u64_max)%N es.
Proof.
  split; [vm_compute; reflexivity|]. apply outbox_sequence_increases.
  repeat apply Forall_cons_2; [..|apply Forall_nil_2]; cbn [clean_label];
    first [exact I|apply sample_event_bounded|by apply sample_io_clean].
Defined.

Lemma outbox_delivers_in_order_witness :
  exists es, file_log (file (outside (run_labels sample_config (run_labels sample_config
      (start sample_config {| file := None; posted := [] |}) [Emit false sample_event; Emit true sample_event])
      (Write <$> [sample_io AppendOk; sample_io AppendOk])))) es
    /\ event_of <$> es = [sample_event; sample_event].
Proof.
  assert (good_event sample_event) as Hev by (split; [apply sample_event_bounded|cbn; eauto]).
  assert (good_io (sample_io AppendOk)) as Hio by (split; [by apply sample_io_clean|done]).
  apply (outbox_delivers_in_order sample_config (lit "o.jsonl")
    [Emit false sample_event; Emit true sample_event] [sample_io AppendOk; sample_io AppendOk]);
    [done|done|by repeat apply Forall_cons_2|by repeat apply Forall_cons_2| |cbn; lia].
  exists sample_event. right. left.
Defined.

Lemma torn_line_wedges_outbox_witness :
  outside (run_labels sample_config (start sample_config
      {| file := Some (lit "{1}" ++ [c_nl] ++ lit "{0" ++ lit "{01}" ++ [c_nl]); posted := [] |}) sample_labels)
  = {| file := Some (lit "{1}" ++ [c_nl] ++ lit "{0" ++ lit "{01}" ++ [c_nl]); posted := [] |}.
Proof.
  apply (torn_line_wedges_outbox (Value := unit) sample_config [mk_envelope sample_event 1 [] []]
    (lit "{1}" ++ [c_nl]) (lit "{0") (lit "{01}") (lit "{0{01}")).
  - exists [lit "{1}" ++ [c_nl]]. split; [|done]. constructor; [|constructor]. split; [done|]. by eexists.
  - by apply (bool_decide_unpack _).
  - by apply (bool_decide_unpack _).
  - apply tail_bytes_value. vm_compute. reflexivity.
  - reflexivity.
  - done.
  - reflexivity.
Defined.

End OutboxFacts.
