(* ===== verification/Admission.v ===== *)
(** * Admission of expensive commands

    [crates/tui/src/tools/resource_admission.rs]: which shell commands are expensive,
    the host memory probe, and the file-lock permits several processes compete for.
    The processes, the lock files they share and every interleaving of their steps
    are one labelled transition function. [f64] is the specification of IEEE 754
    binary64 numbers of the Standard Library. *)

From stdpp Require Import base list option numbers strings gmap.
From Stdlib Require Import Lia NArith ZArith Floats.SpecFloat.
From S2P Require Import Prelude RustStr RustNum.

Module Admission.

Definition DEFAULT_HEAVY_COMMAND_LIMIT : nat := 2.
Definition MAX_HEAVY_COMMAND_LIMIT : nat := 16.
Definition ADMISSION_POLL_INTERVAL_MS : nat := 50.

(** ** Binary64 numbers *)

Definition f64 : Type := spec_float.
(** [n as f64] for an unsigned integer: rounded to nearest, ties to even. *)
Definition as_f64 (n : N) : f64 := binary_normalize 53 1024 (Z.of_N n) 0 false.
Definition f64_div : f64 -> f64 -> f64 := SFdiv 53 1024.
Definition f64_le : f64 -> f64 -> bool := SFleb.
Definition f64_zero : f64 := S754_zero false.
Definition f64_one : f64 := S754_finite false 4503599627370496 (-52).

(** [f64::clamp(0.0, 1.0)]. *)
Definition clamp01 (x : f64) : f64 :=
  if SFltb x f64_zero then f64_zero else if SFltb f64_one x then f64_one else x.

(** The doubles nearest to 0.30 and 0.15. *)
Definition CONSTRAINED_FREE_FRACTION : f64 := S754_finite false 5404319552844595 (-54).
Definition CRITICAL_FREE_FRACTION : f64 := S754_finite false 5404319552844595 (-55).

(** ** Memory pressure *)

Inductive CommandExpense : Type := Normal | Heavy.
Inductive MemoryPressure : Type := Unknown | Nominal | Constrained | Critical.

#[export] Instance CommandExpense_eq_dec : EqDecision CommandExpense.
Proof. solve_decision. Defined.
#[export] Instance MemoryPressure_eq_dec : EqDecision MemoryPressure.
Proof. solve_decision. Defined.

Definition classify_memory_pressure (free_fraction : option f64) : MemoryPressure :=
  match free_fraction with
  | None => Unknown
  | Some fraction =>
      if f64_le fraction CRITICAL_FREE_FRACTION then Critical
      else if f64_le fraction CONSTRAINED_FREE_FRACTION then Constrained
      else Nominal
  end.

(** [usize::div_ceil] by two. *)
Definition div_ceil2 (n : nat) : nat := n / 2 + n mod 2.

Definition effective_admission_limit (configured : nat) (pressure : MemoryPressure) : nat :=
  match pressure with
  | Critical => 0
  | Constrained => Nat.max (div_ceil2 configured) 1
  | Nominal | Unknown => configured
  end.

(** ** The host probe *)

Definition u64_max : N := 18446744073709551615.
Definition parse_u64 : list N -> option N := parse_unsigned u64_max.

Definition fraction_of (available total : N) : option f64 :=
  if (0 <? total)%N then Some (clamp01 (f64_div (as_f64 available) (as_f64 total))) else None.

Definition parse_meminfo_kb (meminfo prefix : list N) : option N :=
  line ← List.find (starts_with prefix) (str_lines meminfo);
  value ← split_whitespace line !! 1;
  parse_u64 value.

(** Linux; [meminfo] is what reading [/proc/meminfo] gives. *)
Definition linux_free_fraction (meminfo : option (list N)) : option f64 :=
  meminfo ← meminfo;
  total ← parse_meminfo_kb meminfo (lit "MemTotal:");
  available ← parse_meminfo_kb meminfo (lit "MemAvailable:");
  fraction_of available total.

Definition checked_add (a b : N) : option N := if (a + b <=? u64_max)%N then Some (a + b)%N else None.
Definition checked_mul (a b : N) : option N := if (a * b <=? u64_max)%N then Some (a * b)%N else None.

Definition vm_stat_pages (vm_stat prefix : list N) : option N :=
  line ← List.find (fun line => starts_with prefix (trim_start_matches is_whitespace line)) (str_lines vm_stat);
  rest ← split_char c_dot line !! 1;
  parse_u64 (trim rest).

Fixpoint memory_pages_loop (vm_stat : list N) (total : N) (prefixes : list (list N)) : option N :=
  match prefixes with
  | [] => Some total
  | prefix :: rest =>
      pages ← vm_stat_pages vm_stat prefix;
      total ← checked_add total pages;
      memory_pages_loop vm_stat total rest
  end.

Definition memory_pages_from_vm_stat (vm_stat : list N) (prefixes : list (list N)) : option N :=
  memory_pages_loop vm_stat 0 prefixes.

(** macOS; the arguments are what the three programs print, when they succeed. *)
Definition macos_free_fraction (memsize pagesize vm_stat : option (list N)) : option f64 :=
  total ← memsize ≫= (fun bytes => parse_u64 (trim bytes));
  page_size ← pagesize ≫= (fun out => parse_u64 (trim out));
  stats ← vm_stat;
  free_pages ← memory_pages_from_vm_stat stats [lit "Pages free:"; lit "Pages inactive:"];
  free_bytes ← checked_mul free_pages page_size;
  fraction_of free_bytes total.

Fixpoint find_map {A B : Type} (f : A -> option B) (l : list A) : option B :=
  match l with
  | [] => None
  | x :: l' => match f x with Some y => Some y | None => find_map f l' end
  end.

Definition wmic_value (output key : list N) : option N :=
  value ← find_map (fun line => strip_prefix key (trim line)) (str_lines output);
  parse_u64 (trim value).

(** Windows; [out] is what [wmic] prints. *)
Definition windows_free_fraction (out : option (list N)) : option f64 :=
  out ← out;
  free_kb ← wmic_value out (lit "FreePhysicalMemory=");
  total_kb ← wmic_value out (lit "TotalVisibleMemorySize=");
  fraction_of free_kb total_kb.

(** ** Expensive commands *)

(** [Path::file_name] on Unix: the last component, unless it is a parent directory. *)
Definition file_name (path : list N) : option (list N) :=
  name ← last (filter (fun c => str_is_empty c = false /\ str_eqb c (lit ".") = false) (split_char c_slash path));
  if str_eqb name (lit "..") then None else Some name.

(** [Path::file_stem]: the name up to its last dot, all of it when there is none or
    only a leading one. *)
Definition file_stem (path : list N) : option (list N) :=
  name ← file_name path;
  match split_once c_dot (reverse name) with
  | Some (_, before) => if str_is_empty before then Some name else Some (reverse before)
  | None => Some name
  end.

Definition is_quote (c : N) : bool := (c =? c_dquote)%N || (c =? c_squote)%N.

Definition is_separator (c : N) : bool :=
  (c =? c_nl)%N || (c =? c_cr)%N || (c =? c_semi)%N || (c =? c_pipe)%N || (c =? c_amp)%N.

Definition is_heavy_subcommand (s : list N) : bool :=
  existsb (str_eqb s) [lit "build"; lit "test"; lit "check"; lit "clippy"; lit "rustc"].

Definition segment_is_heavy (segment : list N) : bool :=
  let tokens := trim_matches is_quote <$> split_whitespace segment in
  match position (fun token => negb (contains_char c_eq token) && negb (str_eqb token (lit "env"))) tokens with
  | None => false
  | Some index =>
      let executable :=
        to_ascii_lowercase (default [] (file_stem (default [] (tokens !! index)))) in
      if negb (str_eqb executable (lit "cargo") || str_eqb executable (lit "rustc")) then false
      else if str_eqb executable (lit "rustc") then true
      else
        match List.find
          (fun arg => negb (str_is_empty arg) && negb (starts_with_char c_dash arg) && negb (contains_char c_eq arg))
          ((fun arg => to_ascii_lowercase (trim arg)) <$> drop (index + 1) tokens)
        with
        | Some subcommand => is_heavy_subcommand subcommand
        | None => false
        end
  end.

Definition infer_command_expense (command : list N) : CommandExpense :=
  if existsb segment_is_heavy (split_matches is_separator command) then Heavy else Normal.

(** [GHOSTY_HEAVY_COMMAND_LIMIT]; [usize] has 64 bits. *)
Definition configured_heavy_command_limit (env : option (list N)) : nat :=
  let limit := value ← env; limit ← parse_u64 (trim value); if (0 <? limit)%N then Some limit else None in
  N.to_nat (N.min (default (N.of_nat DEFAULT_HEAVY_COMMAND_LIMIT) limit) (N.of_nat MAX_HEAVY_COMMAND_LIMIT)).

(** ** Permits *)

Record HeavyCommandPermit : Type := { slot : nat; limit : nat; memory_pressure : MemoryPressure }.

Inductive admission_error : Type := DirectoryFailed | Cancelled | LockFailed.

(** Where a command stands in [acquire_heavy_command_permit_at]: before an iteration
    of its loop, inside the loop over the slots, or returned. *)
Inductive task : Type :=
  | Queued (lim : nat)
  | Scanning (lim : nat) (pressure : MemoryPressure) (next : nat)
  | Granted (permit : HeavyCommandPermit)
  | Refused (error : admission_error).

(** The tasks of all processes and the slots whose lock file is locked. *)
Record state : Type := { tasks : gmap nat task; locked : gset nat }.

Definition initial : state := {| tasks := ∅; locked := ∅ |}.

Inductive label : Type :=
  | Submit (t : nat) (command : list N) (env : option (list N)) (dir_ok : bool)
  | Poll (t : nat) (cancelled : bool) (free : option f64)
  | TryLock (t : nat) (io_ok : bool)
  | Release (t : nat).

Definition set_task (s : state) (t : nat) (k : task) : state :=
  {| tasks := <[t := k]> (tasks s); locked := locked s |}.

(** [acquire_heavy_command_permit] up to its loop: a normal command needs no permit. *)
Definition submit (s : state) (t : nat) (command : list N) (env : option (list N)) (dir_ok : bool) : state :=
  match tasks s !! t with
  | Some _ => s
  | None =>
      match infer_command_expense command with
      | Normal => s
      | Heavy => if dir_ok then set_task s t (Queued (configured_heavy_command_limit env))
                 else set_task s t (Refused DirectoryFailed)
      end
  end.

(** The head of an iteration: the cancellation test, then the probe. *)
Definition poll (s : state) (t : nat) (cancelled : bool) (free : option f64) : state :=
  match tasks s !! t with
  | Some (Queued lim) =>
      if cancelled then set_task s t (Refused Cancelled)
      else set_task s t (Scanning lim (classify_memory_pressure free) 0)
  | _ => s
  end.

(** One turn of the loop over the slots, with [try_lock_slot] inlined; after the last
    slot the task sleeps. *)
Definition try_lock (s : state) (t : nat) (io_ok : bool) : state :=
  match tasks s !! t with
  | Some (Scanning lim pressure next) =>
      if effective_admission_limit lim pressure <=? next then set_task s t (Queued lim)
      else if negb io_ok then set_task s t (Refused LockFailed)
      else if bool_decide (next ∈ locked s) then set_task s t (Scanning lim pressure (next + 1))
      else {| tasks := <[t := Granted {| slot := next; limit := lim; memory_pressure := pressure |}]> (tasks s);
              locked := {[next]} ∪ locked s |}
  | _ => s
  end.

(** A permit is dropped, or the process of the command dies. *)
Definition release (s : state) (t : nat) : state :=
  match tasks s !! t with
  | Some (Granted p) => {| tasks := delete t (tasks s); locked := locked s ∖ {[slot p]} |}
  | _ => {| tasks := delete t (tasks s); locked := locked s |}
  end.

Definition exec (s : state) (l : label) : state :=
  match l with
  | Submit t command env dir_ok => submit s t command env dir_ok
  | Poll t cancelled free => poll s t cancelled free
  | TryLock t io_ok => try_lock s t io_ok
  | Release t => release s t
  end.

Definition run (s : state) (ls : list label) : state := fold_left exec ls s.

(** ** The invariant: locks and permits match *)

(** Every task was configured with at most [L] permits. *)
Definition task_limit (k : task) : nat :=
  match k with Queued lim => lim | Scanning lim _ _ => lim | Granted p => limit p | Refused _ => 0 end.

Record Inv (L : nat) (s : state) : Prop := {
  inv_limit t k : tasks s !! t = Some k -> task_limit k <= L;
  inv_slot t p : tasks s !! t = Some (Granted p) ->
    slot p ∈ locked s /\ slot p < effective_admission_limit (limit p) (memory_pressure p);
  inv_excl t t' p p' : tasks s !! t = Some (Granted p) -> tasks s !! t' = Some (Granted p') ->
    slot p = slot p' -> t = t' }.

Lemma effective_limit_le lim p : 0 < lim -> effective_admission_limit lim p <= lim.
Proof.
  intros H. destruct p; cbn [effective_admission_limit]; try lia. unfold div_ceil2.
  pose proof (Nat.div_mod_eq lim 2). generalize dependent (lim mod 2). generalize dependent (lim / 2). lia.
Qed.

Lemma configured_limit_bounds env :
  1 <= configured_heavy_command_limit env <= MAX_HEAVY_COMMAND_LIMIT.
Proof.
  unfold configured_heavy_command_limit. set (o := mbind _ env).
  assert (forall n, o = Some n -> 0 < n)%N as Ho.
  { subst o. destruct env as [v|]; cbn; [|done]. destruct (parse_u64 (trim v)) as [m|]; cbn; [|done].
    destruct (N.ltb_spec 0 m); [|done]. by intros n [= <-]. }
  unfold MAX_HEAVY_COMMAND_LIMIT, DEFAULT_HEAVY_COMMAND_LIMIT.
  destruct o as [n|]; cbn [default from_option id]; [specialize (Ho n eq_refl)|]; lia.
Qed.

(** Replacing a task that holds no permit by one that holds none. *)
Lemma set_task_inv L s t k :
  Inv L s -> task_limit k <= L -> (forall p, tasks s !! t <> Some (Granted p)) ->
  (forall p, k <> Granted p) -> Inv L (set_task s t k).
Proof.
  intros [H1 H2 H3] Hk Ht Hn. split; cbn; intros *; rewrite ?lookup_insert_Some; [naive_solver..|].
  intros [[-> ?]|[Hne Ha]] [[-> ?]|[Hne' Ha']] E; naive_solver.
Qed.

Lemma delete_task_inv L s t lk :
  Inv L s -> (forall t' p, t' <> t -> tasks s !! t' = Some (Granted p) -> slot p ∈ lk) ->
  Inv L {| tasks := delete t (tasks s); locked := lk |}.
Proof.
  intros [H1 H2 H3] Hlk. split; cbn; intros *; rewrite ?lookup_delete_Some; [naive_solver| |naive_solver].
  intros [Hne Ha]. split; [eauto|]. by apply (H2 t0).
Qed.

Lemma try_lock_inv L s t ok : Inv L s -> Inv L (try_lock s t ok).
Proof.
  intros H. unfold try_lock. destruct (tasks s !! t) as [[|lim pr next| |]|] eqn:E; try done.
  assert (lim <= L) as Hl by apply (inv_limit _ _ H _ _ E).
  assert (forall p, tasks s !! t <> Some (Granted p)) as Hn by (rewrite E; done).
  destruct (Nat.leb_spec (effective_admission_limit lim pr) next); [by apply set_task_inv|].
  destruct ok; cbn; [|apply set_task_inv; cbn; by try lia].
  case_bool_decide as Hin; [by apply set_task_inv|].
  destruct H as [H1 H2 H3]. split; cbn; intros *; rewrite ?lookup_insert_Some.
  - intros [[-> <-]|[_ Ha]]; [done|by eapply H1].
  - intros [[-> [= <-]]|[_ Ha]]; cbn; [set_solver|]. destruct (H2 _ _ Ha). set_solver.
  - intros [[-> [= <-]]|[Hne Ha]] [[-> [= <-]]|[Hne' Ha']]; cbn; [done|..].
    + destruct (H2 _ _ Ha'). intros ->. done.
    + destruct (H2 _ _ Ha). intros <-. done.
    + by apply H3.
Qed.

Definition label_limit (L : nat) (l : label) : Prop :=
  match l with Submit _ _ env _ => configured_heavy_command_limit env <= L | _ => True end.

Lemma step_inv L s l : Inv L s -> label_limit L l -> Inv L (exec s l).
Proof.
  intros H Hl. destruct l as [t command env ok|t c f|t ok|t]; cbn [exec].
  - unfold submit. destruct (tasks s !! t) eqn:E; [done|]. destruct (infer_command_expense command); [done|].
    destruct ok; apply set_task_inv; try done; rewrite ?E; cbn; by try lia.
  - unfold poll. destruct (tasks s !! t) as [[lim| | |]|] eqn:E; try done.
    pose proof (inv_limit _ _ H _ _ E) as Hlim.
    destruct c; apply set_task_inv; try done; rewrite ?E; cbn; by try lia.
  - by apply try_lock_inv.
  - unfold release. destruct (tasks s !! t) as [[| |p|]|] eqn:E; apply delete_task_inv; try done;
      intros t' p' Hne Ha; destruct (inv_slot _ _ H _ _ Ha) as [Hin _]; try done.
    apply elem_of_difference. split; [done|]. intros Es%elem_of_singleton.
    apply Hne. by eapply (inv_excl _ _ H).
Qed.

Lemma run_inv L ls s : Inv L s -> Forall (label_limit L) ls -> Inv L (run s ls).
Proof.
  intros H Hls. revert s H. unfold run. induction Hls as [|l ls Hl _ IH]; intros s H; [done|].
  cbn. apply IH. by apply step_inv.
Qed.

Lemma initial_inv L : Inv L initial.
Proof. split; cbn; intros *; by rewrite ?lookup_empty. Qed.

(** Distinct holders hold distinct slots below the limit, so there are few of them. *)
Lemma holders_bounded L s ts :
  Inv L s -> (forall t p, tasks s !! t = Some (Granted p) -> 0 < limit p) -> NoDup ts ->
  Forall (fun t => exists p, tasks s !! t = Some (Granted p)) ts -> length ts <= L.
Proof.
  intros H Hpos Hnd Hts.
  assert (exists slots, Forall2 (fun t i => exists p, tasks s !! t = Some (Granted p) /\ slot p = i) ts slots)
    as [slots H2].
  { clear Hnd. induction Hts as [|t ts (p & Hp) _ (slots & IH)]; [by exists []|].
    exists (slot p :: slots). constructor; eauto. }
  rewrite (Forall2_length _ _ _ H2).
  assert (NoDup slots) as Hs.
  { clear Hts. induction H2 as [|t i ts slots (p & Hp & <-) H2 IH]; [constructor|].
    apply NoDup_cons in Hnd as [Ht Hnd]. apply NoDup_cons. split; [|by apply IH].
    intros (j & Hj)%list_elem_of_lookup_1.
    destruct (Forall2_lookup_r _ _ _ _ _ H2 Hj) as (t' & Ht' & p' & Hp' & E).
    apply Ht. rewrite (inv_excl _ _ H _ _ _ _ Hp Hp' (eq_sym E)). by eapply list_elem_of_lookup_2. }
  assert (forall i, i ∈ slots -> i ∈ seq 0 L) as Hin.
  { intros i (j & Hj)%list_elem_of_lookup_1.
    destruct (Forall2_lookup_r _ _ _ _ _ H2 Hj) as (t & _ & p & Hp & <-).
    destruct (inv_slot _ _ H _ _ Hp) as [_ Hlt]. pose proof (inv_limit _ _ H _ _ Hp) as Hl. cbn in Hl.
    pose proof (effective_limit_le (limit p) (memory_pressure p) (Hpos _ _ Hp)). apply elem_of_seq. lia. }
  pose proof (submseteq_length _ _ (NoDup_submseteq _ _ Hs Hin)) as Hlen. by rewrite length_seq in Hlen.
Qed.

(** Every configured limit is at least one. *)
Definition positive_limits (s : state) : Prop :=
  forall t k, tasks s !! t = Some k -> (forall e, k <> Refused e) -> 0 < task_limit k.

Lemma exec_positive s l : positive_limits s -> positive_limits (exec s l).
Proof.
  intros H. destruct l as [t command env ok|t c f|t ok|t]; cbn [exec];
    unfold submit, poll, try_lock, release, set_task; repeat case_match; try done;
    intros t' k; cbn; rewrite ?lookup_insert_Some, ?lookup_delete_Some; intros Hk Hr; destruct_or?; destruct_and?;
    subst; cbn; try (by eapply H); try (by edestruct Hr);
    first [apply configured_limit_bounds
          |match goal with E : tasks s !! _ = Some (Queued ?n) |- _ => by apply (H _ _ E) end
          |match goal with E : tasks s !! _ = Some (Scanning ?n _ _) |- _ => by apply (H _ _ E) end].
Qed.

Lemma run_positive ls s : positive_limits s -> positive_limits (run s ls).
Proof.
  revert s. unfold run. induction ls as [|l ls IH]; intros s H; [done|]. cbn. apply IH. by apply exec_positive.
Qed.

(** ** The scan of a queued command *)

Lemma run_cons s l ls : run s (l :: ls) = run (exec s l) ls.
Proof. done. Qed.

Lemma try_lock_scan s t lim pr k i :
  tasks s !! t = Some (Scanning lim pr k) -> k <= i -> i < effective_admission_limit lim pr -> i ∉ locked s ->
  exists p, tasks (run s (replicate (i + 1 - k) (TryLock t true))) !! t = Some (Granted p)
    /\ slot p <= i /\ limit p = lim /\ memory_pressure p = pr.
Proof.
  intros Ht Hk Hi Hfree. remember (i - k) as n eqn:Hn. revert s k Ht Hk Hfree Hn.
  assert (forall n s p, tasks s !! t = Some (Granted p) ->
    tasks (run s (replicate n (TryLock t true))) !! t = Some (Granted p)) as Hstay.
  { clear. induction n as [|n IH]; intros s p H; [done|]. cbn. apply IH. unfold try_lock. by rewrite H. }
  assert (forall s k, tasks s !! t = Some (Scanning lim pr k) -> k <= i ->
    exec s (TryLock t true) =
      if bool_decide (k ∈ locked s) then set_task s t (Scanning lim pr (k + 1))
      else {| tasks := <[t := Granted {| slot := k; limit := lim; memory_pressure := pr |}]> (tasks s);
              locked := {[k]} ∪ locked s |}) as Hstep.
  { intros s k Ht Hk. cbn [exec]. unfold try_lock. by rewrite Ht, (proj2 (Nat.leb_gt _ _)) by lia. }
  induction n as [|n IH]; intros s k Ht Hk Hfree Hn; replace (i + 1 - k) with (S (i - k)) by lia;
    cbn [replicate]; rewrite run_cons, (Hstep s k) by done.
  - assert (k = i) as -> by lia. rewrite bool_decide_eq_false_2 by done.
    eexists. split; [apply Hstay; cbn; apply lookup_insert_eq|done].
  - case_bool_decide.
    + replace (i - k) with (i + 1 - (k + 1)) by lia. apply IH; cbn; [apply lookup_insert_eq|lia|done|lia].
    + eexists. split; [apply Hstay; cbn; apply lookup_insert_eq|]. cbn. split; [lia|done].
Qed.

(** ** What [vm_stat] prints *)

(** A line of [vm_stat]: at most one full stop, and that at the end. *)
Definition vm_stat_line (line : list N) : Prop :=
  c_dot ∉ line \/ exists a, line = a ++ [c_dot] /\ c_dot ∉ a.

Lemma vm_stat_pages_none vm_stat prefix :
  Forall vm_stat_line (str_lines vm_stat) -> vm_stat_pages vm_stat prefix = None.
Proof.
  intros H. unfold vm_stat_pages. destruct (List.find _ _) as [line|] eqn:E; [|done]. cbn.
  apply find_elem_of in E as [Hin _]. rewrite Forall_forall in H.
  destruct (H line Hin) as [Hd|(a & -> & Hd)].
  - by rewrite split_char_word.
  - rewrite split_char_app_sep, split_char_word by done. done.
Qed.

(** ** Properties *)

(** C16: However many processes compete and however their steps interleave, no more
    commands hold a permit than the largest limit configured, and never more than
    sixteen; a command is never admitted under critical memory pressure, and under
    constrained pressure only into the lower half of the slots. *)
Theorem admission_never_exceeds_limit (L : nat) (ls : list label) :
  Forall (label_limit L) ls ->
  let s := run initial ls in
  (forall ts, NoDup ts -> Forall (fun t => exists p, tasks s !! t = Some (Granted p)) ts ->
     length ts <= L /\ length ts <= MAX_HEAVY_COMMAND_LIMIT)
  /\ (forall t p, tasks s !! t = Some (Granted p) ->
     memory_pressure p <> Critical
     /\ (memory_pressure p = Constrained -> slot p < Nat.max (div_ceil2 (limit p)) 1)).
Proof.
  intros Hls s. pose proof (run_inv L ls initial (initial_inv L) Hls) as H. fold s in H.
  assert (Inv MAX_HEAVY_COMMAND_LIMIT s) as H16.
  { apply run_inv; [apply initial_inv|]. apply Forall_forall. intros [] _; try done. apply configured_limit_bounds. }
  assert (forall t p, tasks s !! t = Some (Granted p) -> 0 < limit p) as Hpos.
  { intros t p Hp. assert (positive_limits s) as Hs by (apply run_positive; intros ??; cbn; by rewrite lookup_empty). by apply (Hs _ _ Hp). }
  split; [intros ts Hnd Hts; split; by eapply holders_bounded|].
  intros t p Hp. destruct (inv_slot _ _ H _ _ Hp) as [_ Hlt].
  split; [intros E; rewrite E in Hlt; cbn in Hlt; lia|]. intros E. by rewrite E in Hlt.
Qed.

(** A queued command gets in: when a slot is free among those the measured
    pressure leaves, the next poll of the command admits it within as many lock
    attempts as that slot's number, whatever state the other processes left. *)
Theorem free_slot_admits (s : state) (t lim i : nat) (free : option f64) :
  tasks s !! t = Some (Queued lim) -> i ∉ locked s ->
  i < effective_admission_limit lim (classify_memory_pressure free) ->
  exists p, tasks (run s (Poll t false free :: replicate (i + 1) (TryLock t true))) !! t = Some (Granted p)
    /\ slot p <= i /\ limit p = lim /\ memory_pressure p = classify_memory_pressure free.
Proof.
  intros Ht Hfree Hi. unfold run. cbn [fold_left exec]. unfold poll. rewrite Ht.
  pose proof (try_lock_scan (set_task s t (Scanning lim (classify_memory_pressure free) 0)) t lim
    (classify_memory_pressure free) 0 i) as H.
  rewrite Nat.sub_0_r in H. apply H; [apply lookup_insert_eq|lia|done|done].
Qed.

(** On macOS the probe measures nothing: the page counts of [vm_stat] stand before
    the full stop of their line and the parser reads what follows it, so on every
    output of that form the pressure is unknown and the limit never tightens. *)
Theorem macos_probe_never_measures (memsize pagesize : option (list N)) (stats : list N) (configured : nat) :
  Forall vm_stat_line (str_lines stats) ->
  macos_free_fraction memsize pagesize (Some stats) = None
  /\ effective_admission_limit configured
       (classify_memory_pressure (macos_free_fraction memsize pagesize (Some stats))) = configured.
Proof.
  intros H. assert (macos_free_fraction memsize pagesize (Some stats) = None) as ->; [|done].
  unfold macos_free_fraction. destruct (memsize ≫= _); [|done]. cbn [mbind option_bind].
  destruct (pagesize ≫= _); [|done]. cbn [mbind option_bind].
  unfold memory_pages_from_vm_stat. cbn [memory_pages_loop]. by rewrite !vm_stat_pages_none.
Qed.

(** ** Witnesses *)

Definition sample_labels : list label :=
  [Submit 1 (lit "cargo test") None true; Submit 2 (lit "env A=1 /usr/bin/cargo build") None true;
   Submit 3 (lit "rustc x.rs") None true; Poll 1 false None; Poll 2 false None; TryLock 1 true; TryLock 2 true;
   Poll 3 false (Some f64_one); TryLock 2 true; TryLock 3 true; TryLock 3 true].

Lemma admission_never_exceeds_limit_witness :
  tasks (run initial sample_labels) !! 3 = Some (Scanning 2 Nominal 2)
  /\ (forall ts, NoDup ts -> Forall (fun t => exists p, tasks (run initial sample_labels) !! t = Some (Granted p)) ts ->
       length ts <= 2 /\ length ts <= MAX_HEAVY_COMMAND_LIMIT).
Proof.
  split; [vm_compute; reflexivity|].
  destruct (admission_never_exceeds_limit 2 sample_labels) as [H _]; [|exact H].
  repeat apply Forall_cons_2; [..|apply Forall_nil_2]; try exact I; apply Nat.leb_le; vm_compute; reflexivity.
Defined.

Lemma free_slot_admits_witness :
  exists p, tasks (run (run initial (sample_labels ++ [TryLock 3 true; Release 2]))
      (Poll 3 false None :: replicate 2 (TryLock 3 true))) !! 3 = Some (Granted p)
    /\ slot p <= 1 /\ limit p = 2 /\ memory_pressure p = Unknown.
Proof.
  apply (free_slot_admits (run initial (sample_labels ++ [TryLock 3 true; Release 2])) 3 2 1 None).
  - vm_compute. reflexivity.
  - apply (bool_decide_unpack _). vm_compute. exact I.
  - cbn. lia.
Defined.

Lemma macos_probe_never_measures_witness :
  macos_free_fraction (Some (lit "38654705664")) (Some (lit "16384"))
    (Some (lit "Pages free:          61000." ++ [c_nl] ++ lit "Pages inactive:     500000." ++ [c_nl])) = None.
Proof.
  refine (proj1 (macos_probe_never_measures _ _ _ 2 _)).
  assert (str_lines (lit "Pages free:          61000." ++ [c_nl] ++ lit "Pages inactive:     500000." ++ [c_nl])
    = [lit "Pages free:          61000" ++ [c_dot]; lit "Pages inactive:     500000" ++ [c_dot]]) as ->
    by (vm_compute; reflexivity).
  repeat apply Forall_cons_2; [..|apply Forall_nil_2]; right; eexists; (split; [reflexivity|]);
    apply (bool_decide_unpack _); vm_compute; exact I.
Defined.

End Admission.
