(* ===== verification/CommandSafety.v ===== *)
(** * Command safety (crates/tui/src/command_safety.rs)

    The classification of shell commands in front of the policy engine: the arity
    table with its allow rules, the read-only classifiers that let a command run
    without being asked, and the analysis that calls a command safe, fit for the
    workspace, in need of approval, or dangerous. *)

From stdpp Require Import base list option strings.
From Stdlib Require Import Lia NArith.
From S2P Require Import Prelude RustStr.

Module CommandSafety.

(** ** Parameters

    [shlex::split], and Unicode's [str::to_lowercase]. *)

Class Shlex : Type := shlex_split : list N -> option (list (list N)).
Class UnicodeCase : Type := to_lowercase : list N -> list N.

(** ** The arity table *)

Definition COMMAND_ARITY_lit : list (string * nat) := [
  (* git *)
    ("git add", 2); ("git am", 2); ("git apply", 2); ("git bisect", 2); ("git blame", 2);
    ("git branch", 2); ("git cat-file", 2); ("git checkout", 2); ("git cherry-pick", 2);
    ("git clean", 2); ("git clone", 2); ("git commit", 2); ("git config", 2);
    ("git describe", 2); ("git diff", 2); ("git fetch", 2); ("git format-patch", 2);
    ("git grep", 2); ("git init", 2); ("git log", 2); ("git ls-files", 2); ("git merge", 2);
    ("git mv", 2); ("git notes", 2); ("git pull", 2); ("git push", 2); ("git rebase", 2);
    ("git reflog", 2); ("git remote", 2); ("git reset", 2); ("git restore", 2);
    ("git revert", 2); ("git rm", 2); ("git show", 2); ("git stash", 2); ("git status", 2);
    ("git submodule", 2); ("git switch", 2); ("git tag", 2); ("git worktree", 2);
  (* npm *)
    ("npm audit", 2); ("npm build", 2); ("npm cache", 2); ("npm ci", 2); ("npm dedupe", 2);
    ("npm fund", 2); ("npm help", 2); ("npm info", 2); ("npm init", 2); ("npm install", 2);
    ("npm link", 2); ("npm list", 2); ("npm ls", 2); ("npm outdated", 2); ("npm pack", 2);
    ("npm prune", 2); ("npm publish", 2); ("npm rebuild", 2); ("npm run", 3);
    ("npm start", 2); ("npm stop", 2); ("npm test", 2); ("npm uninstall", 2);
    ("npm update", 2); ("npm version", 2); ("npm view", 2);
  (* yarn *)
    ("yarn add", 2); ("yarn audit", 2); ("yarn build", 2); ("yarn install", 2);
    ("yarn run", 3); ("yarn start", 2); ("yarn test", 2); ("yarn upgrade", 2);
    ("yarn workspace", 3);
  (* pnpm *)
    ("pnpm add", 2); ("pnpm build", 2); ("pnpm install", 2); ("pnpm run", 3);
    ("pnpm start", 2); ("pnpm test", 2); ("pnpm update", 2);
  (* cargo *)
    ("cargo add", 2); ("cargo bench", 2); ("cargo build", 2); ("cargo check", 2);
    ("cargo clean", 2); ("cargo clippy", 2); ("cargo doc", 2); ("cargo fix", 2);
    ("cargo fmt", 2); ("cargo generate", 2); ("cargo install", 2); ("cargo metadata", 2);
    ("cargo package", 2); ("cargo publish", 2); ("cargo remove", 2); ("cargo run", 2);
    ("cargo search", 2); ("cargo test", 2); ("cargo tree", 2); ("cargo uninstall", 2);
    ("cargo update", 2); ("cargo yank", 2);
  (* docker *)
    ("docker build", 2); ("docker compose", 3); ("docker container", 3); ("docker cp", 2);
    ("docker exec", 2); ("docker image", 3); ("docker images", 2); ("docker inspect", 2);
    ("docker kill", 2); ("docker logs", 2); ("docker network", 3); ("docker ps", 2);
    ("docker pull", 2); ("docker push", 2); ("docker rm", 2); ("docker rmi", 2);
    ("docker run", 2); ("docker start", 2); ("docker stop", 2); ("docker system", 3);
    ("docker tag", 2); ("docker volume", 3);
  (* kubectl *)
    ("kubectl apply", 2); ("kubectl create", 3); ("kubectl delete", 3);
    ("kubectl describe", 3); ("kubectl exec", 2); ("kubectl explain", 2);
    ("kubectl get", 3); ("kubectl label", 2); ("kubectl logs", 2); ("kubectl patch", 2);
    ("kubectl port-forward", 2); ("kubectl rollout", 3); ("kubectl scale", 2);
    ("kubectl set", 2); ("kubectl top", 3);
  (* go *)
    ("go build", 2); ("go clean", 2); ("go env", 2); ("go fmt", 2); ("go generate", 2);
    ("go get", 2); ("go install", 2); ("go list", 2); ("go mod", 3); ("go run", 2);
    ("go test", 2); ("go vet", 2); ("go work", 3);
  (* python / pip *)
    ("pip install", 2); ("pip uninstall", 2); ("pip list", 2); ("pip show", 2);
    ("pip freeze", 2); ("pip3 install", 2); ("pip3 uninstall", 2); ("pip3 list", 2);
    ("pip3 show", 2); ("python", 2); ("python3", 2);
  (* make / cmake *)
    ("make", 1);
  (* gh (GitHub CLI) *)
    ("gh pr", 3); ("gh issue", 3); ("gh repo", 3); ("gh release", 3); ("gh workflow", 3);
    ("gh run", 3); ("gh secret", 3);
  (* rustup *)
    ("rustup default", 2); ("rustup install", 2); ("rustup show", 2); ("rustup target", 3);
    ("rustup toolchain", 3); ("rustup update", 2);
  (* deno / bun / node *)
    ("deno run", 2); ("deno test", 2); ("deno fmt", 2); ("deno lint", 2); ("bun add", 2);
    ("bun build", 2); ("bun install", 2); ("bun run", 3); ("bun test", 2); ("npx", 2)
  ]%string.

Definition COMMAND_ARITY : list (list N * nat) := (fun e => (lit e.1, e.2)) <$> COMMAND_ARITY_lit.

Definition is_flag (t : list N) : bool := starts_with_char c_dash t.

Definition positional_tokens (tokens : list (list N)) : list (list N) :=
  to_ascii_lowercase <$> List.filter (fun t => negb (is_flag t)) tokens.

(** The loop [for depth in (1..=max_depth).rev()]. *)
Fixpoint classify_depth (positional : list (list N)) (depth : nat) : option (list N) :=
  match depth with
  | O => None
  | S d =>
      match List.find (fun e => str_eqb e.1 (str_join [c_space] (take depth positional))) COMMAND_ARITY with
      | Some (_, arity) => Some (str_join [c_space] (take (min arity (length positional)) positional))
      | None => classify_depth positional d
      end
  end.

Definition classify_command (tokens : list (list N)) : list N :=
  match positional_tokens tokens with
  | [] => []
  | base :: rest => default base (classify_depth (base :: rest) (min (length (base :: rest)) 3))
  end.

(** [trim().to_ascii_lowercase().split_whitespace().join(" ")]. *)
Definition normalise (s : list N) : list N := str_join [c_space] (split_whitespace (to_ascii_lowercase (trim s))).

Definition prefix_allow_matches (pattern command : list N) : bool :=
  let pattern_norm := normalise pattern in
  let tokens := split_whitespace command in
  match tokens with
  | [] => str_is_empty pattern_norm
  | _ =>
      if str_eqb (classify_command tokens) pattern_norm then true
      else
        let command_norm := normalise command in
        str_eqb command_norm pattern_norm || starts_with (pattern_norm ++ [c_space]) command_norm
  end.

(** ** Windows paths *)

Definition is_ascii_whitespace (c : N) : bool :=
  (c =? 32)%N || (c =? 9)%N || (c =? 10)%N || (c =? 12)%N || (c =? 13)%N.

Definition is_quote (c : N) : bool := (c =? c_squote)%N || (c =? c_dquote)%N.

Definition looks_like_windows_absolute_path (word : list N) : bool :=
  let word := trim_start_matches is_quote word in
  match word with a :: b :: _ => is_ascii_alphabetic a && (b =? c_colon)%N | _ => false end
  || starts_with (lit "\\?\") word || starts_with (lit "\\.\") word || starts_with (lit "\\") word.

Definition normalize_word (word : list N) : list N :=
  if looks_like_windows_absolute_path word
  then replace_chars (N.eqb c_backslash) [c_backslash; c_backslash] word else word.

(** The loop over the text; [word] is [stripped[word_start..i]]. *)
Fixpoint normalize_words (word s : list N) : list N :=
  match s with
  | [] => normalize_word word
  | c :: s' =>
      if is_ascii_whitespace c then normalize_word word ++ [c] ++ normalize_words [] s'
      else normalize_words (word ++ [c]) s'
  end.

Definition normalize_windows_command_paths (command : list N) : list N :=
  normalize_words [] (str_replace (lit "\\?\") [] command).

(** ** Tokens *)

Section CommandSafety.
Context `{Shlex} `{UnicodeCase}.

Definition shell_words (segment : list N) : list (list N) :=
  match shlex_split segment with
  | Some words => words
  | None => trim_matches is_quote <$> split_whitespace segment
  end.

Definition is_env_assignment (token : list N) : bool :=
  match split_once c_eq token with
  | None => false
  | Some (name, _) =>
      negb (str_is_empty name)
      && forallb (fun ch => (ch =? c_underscore)%N || is_ascii_alphanumeric ch) name
      && match name with ch :: _ => (ch =? c_underscore)%N || is_ascii_alphabetic ch | [] => false end
  end.

(** [primary_token_index] from [idx] on; [in_env] says that the inner loop after an
    [env] token is running. *)
Fixpoint primary_from (in_env : bool) (idx : nat) (tokens : list (list N)) : option nat :=
  match tokens with
  | [] => None
  | token :: rest =>
      if in_env && (is_flag token || is_env_assignment token) then primary_from true (S idx) rest
      else if str_eqb token (lit "env") then primary_from true (S idx) rest
      else if is_env_assignment token then primary_from false (S idx) rest
      else Some idx
  end.

Definition primary_token_index (tokens : list (list N)) : option nat := primary_from false 0 tokens.

(** ** Read-only commands *)

Definition PARALLEL_READONLY_PREFIXES : list (list N) := lit <$> [
    "git status"; "git log"; "git diff"; "git show"; "git ls-files"; "git blame"; "git grep"; "ls";
    "pwd"; "cat"; "head"; "tail"; "wc"; "which"; "stat"; "file"; "du"; "df"; "grep"; "rg"; "fd"]%string.

Definition GITHUB_READONLY_PREFIXES : list (list N) := lit <$> [
    "gh issue list"; "gh issue status"; "gh issue view"; "gh pr checks"; "gh pr diff"; "gh pr list";
    "gh pr status"; "gh pr view"; "gh release list"; "gh release view"; "gh repo view";
    "gh run list"; "gh run view"; "gh workflow list"; "gh workflow view"]%string.

(** The rows of [readonly_options_are_allowed]: first option position, switches, and
    options with a value. *)
Definition readonly_options_lit : list (string * nat * string * string) := [
    ("git status", 2, "-s --short -b --branch --ignored --porcelain",
     "--untracked-files");
    ("git diff", 2, "--cached --staged --stat --numstat --shortstat --name-only --name-status --check --no-renames --color --no-color --word-diff",
     "-U --unified --diff-filter");
    ("git log", 2, "--oneline --decorate --graph --stat --numstat --shortstat --name-only --name-status --no-patch --all --branches --tags --remotes --first-parent --reverse --color --no-color",
     "-n --max-count --since --until --author --grep");
    ("git show", 2, "--stat --numstat --shortstat --name-only --name-status --no-patch -s --color --no-color",
     "-U --unified");
    ("git ls-files", 2, "-c --cached -d --deleted -m --modified -o --others -i --ignored --stage --unmerged --killed --exclude-standard --deduplicate",
     "--exclude --exclude-from");
    ("git blame", 2, "-w --line-porcelain --porcelain --show-stats --show-name --show-number --reverse --first-parent",
     "-L --since");
    ("git grep", 2, "-n --line-number -i --ignore-case -I -l --files-with-matches -L --files-without-match -w --word-regexp -F --fixed-strings -E --extended-regexp --cached --untracked --exclude-standard",
     "-e --max-depth");
    ("ls", 1, "-a -A -l -la -al -h -lh -hl -lah -alh -R -d -1 --all --almost-all --long --human-readable --recursive --directory",
     "");
    ("pwd", 1, "-L -P --logical --physical",
     "");
    ("cat", 1, "-n -b -s -v -E -T --number --number-nonblank --squeeze-blank --show-ends --show-tabs",
     "");
    ("head", 1, "-q -v --quiet --verbose",
     "-n --lines -c --bytes");
    ("tail", 1, "-q -v --quiet --verbose",
     "-n --lines -c --bytes");
    ("wc", 1, "-c -m -l -w -L --bytes --chars --lines --words --max-line-length",
     "");
    ("which", 1, "-a --all",
     "");
    ("stat", 1, "",
     "");
    ("file", 1, "-b --brief -L --dereference -h --no-dereference -i --mime --mime-type --mime-encoding",
     "");
    ("du", 1, "-a -c -h -s --all --total --human-readable --summarize --apparent-size",
     "-d --max-depth");
    ("df", 1, "-h -P -T -i --human-readable --portability --print-type --inodes",
     "");
    ("grep", 1, "-n -i -v -E -F -w -x -l -L -c --line-number --ignore-case --invert-match --extended-regexp --fixed-strings --word-regexp --line-regexp --files-with-matches --files-without-match --count",
     "-m --max-count -A --after-context -B --before-context -C --context");
    ("rg", 1, "-n --line-number -i --ignore-case -S --smart-case -F --fixed-strings -w --word-regexp -l --files-with-matches --hidden --no-ignore --no-heading --heading --stats --count --count-matches",
     "-g --glob -t --type -T --type-not -m --max-count -A --after-context -B --before-context -C --context --sort");
    ("fd", 1, "-H --hidden -I --no-ignore -s --case-sensitive -i --ignore-case --strip-cwd-prefix",
     "-e --extension -t --type -d --max-depth -E --exclude");
    ("gh issue list", 3, "",
     "--json --assignee --author --jq --label --limit --mention --milestone --search --state --template -R --repo");
    ("gh issue status", 3, "",
     "--json --jq --template -R --repo");
    ("gh issue view", 3, "--comments",
     "--json --jq --template -R --repo");
    ("gh pr view", 3, "--comments",
     "--json --jq --template -R --repo");
    ("gh pr checks", 3, "--fail-fast --required",
     "--json --jq --template -R --repo");
    ("gh pr diff", 3, "--name-only --patch",
     "--color -R --repo");
    ("gh pr list", 3, "--draft",
     "--json --app --assignee --author --base --head --jq --label --limit --search --state --template -R --repo");
    ("gh pr status", 3, "",
     "--json --conflict-status --jq --template -R --repo");
    ("gh release list", 3, "--exclude-drafts --exclude-pre-releases",
     "--json --jq --limit --order --template -R --repo");
    ("gh release view", 3, "",
     "--json --jq --template -R --repo");
    ("gh repo view", 3, "",
     "--json --branch --jq --template -R --repo");
    ("gh run list", 3, "",
     "--json --branch --commit --created --event --jq --limit --status --template --user --workflow -R --repo");
    ("gh run view", 3, "--exit-status --log --log-failed --verbose",
     "--json --attempt --job --jq --template -R --repo");
    ("gh workflow list", 3, "--all",
     "--json --jq --limit --template -R --repo");
    ("gh workflow view", 3, "--yaml",
     "--ref -R --repo")]%string.

Definition is_numeric_count_shorthand (token : list N) : bool :=
  match strip_prefix [c_dash] token with
  | Some digits => negb (str_is_empty digits) && forallb is_ascii_digit digits
  | None => false
  end.

Definition str_mem (l : list (list N)) (s : list N) : bool := existsb (fun name => str_eqb name s) l.

Fixpoint options_loop (switches values : list (list N)) (options : bool) (tokens : list (list N)) : bool :=
  match tokens with
  | [] => true
  | token :: rest =>
      if options && str_eqb token (lit "--") then options_loop switches values false rest
      else if options && is_flag token && negb (str_eqb token (lit "-")) then
        if str_mem switches token then options_loop switches values options rest
        else if is_numeric_count_shorthand token && (str_mem values (lit "-n") || str_mem values (lit "--lines"))
        then options_loop switches values options rest
        else if str_mem values token then
          match rest with
          | [] => false
          | value :: rest' => if is_flag value then false else options_loop switches values options rest'
          end
        else false
      else options_loop switches values options rest
  end.

(** [split_ascii_whitespace] of the two option strings is [split_whitespace]: they are
    ASCII. *)
Definition options_match_allowlist (tokens : list (list N)) (switches values : list N) : bool :=
  options_loop (split_whitespace switches) (split_whitespace values) true tokens.

Definition explicit_host_is_unsupported (value0 : list N) : bool :=
  let value := trim value0 in
  let qualified :=
    match split_char c_slash value with
    | first :: parts =>
        if (2 <=? length parts) && (contains_char c_dot first || contains_char c_colon first) then Some first else None
    | [] => None
    end in
  let host :=
    match (match strip_prefix (lit "https://") value with Some rest => Some rest | None => strip_prefix (lit "http://") value end) with
    | Some rest => head (split_char c_slash rest)
    | None => qualified
    end in
  match host with Some host => negb (eq_ignore_ascii_case host (lit "github.com")) | None => false end.

Fixpoint github_command_targets_unsupported_host (tokens : list (list N)) : bool :=
  match tokens with
  | [] => false
  | token :: rest =>
      if str_eqb token (lit "-R") || str_eqb token (lit "--repo") then
        match rest with
        | [] => true
        | value :: rest' => if explicit_host_is_unsupported value then true
                            else github_command_targets_unsupported_host rest'
        end
      else if match strip_prefix (lit "--repo=") token with
              | Some value => explicit_host_is_unsupported value
              | None => false
              end then true
      else if explicit_host_is_unsupported token then true
      else github_command_targets_unsupported_host rest
  end.

Definition readonly_row (canonical : list N) : option (nat * list N * list N) :=
  match List.find (fun r : string * nat * string * string => str_eqb (lit r.1.1.1) canonical) readonly_options_lit with
  | Some (_, start, switches, values) => Some (start, lit switches, lit values)
  | None => None
  end.

Definition readonly_options_are_allowed (canonical : list N) (tokens : list (list N)) : bool :=
  match readonly_row canonical with
  | None => false
  | Some (start, switches, values) =>
      options_match_allowlist (drop start tokens) switches values
      && (negb (starts_with (lit "gh ") canonical) || negb (github_command_targets_unsupported_host tokens))
  end.

Definition is_ghosty_readonly_invocation (tokens : list (list N)) : bool :=
  match tokens with
  | [command; arg] =>
      str_mem [lit "ghosty"; lit "ghosty-tui"] command
      && str_mem [lit "--version"; lit "-V"; lit "-v"; lit "--help"; lit "-h"] arg
  | _ => false
  end.

Definition readonly_tokens_admitted (trimmed : list N) : bool :=
  let tokens := shell_words trimmed in
  match primary_token_index tokens with
  | Some 0 =>
      if is_ghosty_readonly_invocation tokens then true
      else
        let canonical := classify_command tokens in
        let words := split_whitespace canonical in
        if negb (bool_decide (tokens !! 0 = words !! 0)) then false
        else if bool_decide (words !! 0 = Some (lit "git")) && negb (bool_decide (tokens !! 1 = words !! 1)) then false
        else if bool_decide (words !! 0 = Some (lit "gh"))
                && (negb (bool_decide (tokens !! 1 = words !! 1)) || negb (bool_decide (tokens !! 2 = words !! 2)))
        then false
        else if negb (readonly_options_are_allowed canonical tokens) then false
        else str_mem (PARALLEL_READONLY_PREFIXES ++ GITHUB_READONLY_PREFIXES) canonical
  | _ => false
  end.

(** The two character filters: newline, carriage return, and the listed ones. *)
Definition parallel_metachars : list N := [c_nl; c_cr] ++ lit ";&|><`$*?[]{}".
Definition agent_metachars : list N := [c_nl; c_cr] ++ lit ";&><`$?[]{}()".

Definition has_any (chars s : list N) : bool := existsb (fun ch => contains_char ch chars) s.

Definition is_parallel_readonly_command (command : list N) : bool :=
  let trimmed := trim (normalize_windows_command_paths command) in
  if str_is_empty trimmed then false
  else if has_any parallel_metachars trimmed then false
  else readonly_tokens_admitted trimmed.

Definition is_github_readonly_command (command : list N) : bool :=
  if negb (is_parallel_readonly_command command) then false
  else
    let tokens := shell_words (trim command) in
    match primary_token_index tokens with
    | None => false
    | Some start => str_mem GITHUB_READONLY_PREFIXES (classify_command (drop start tokens))
    end.

(** ** The read-only surface of agents *)

Fixpoint filter_loop (switches value_options : list (list N)) (max_operands : option nat) (options : bool)
    (operands : nat) (tokens : list (list N)) : bool :=
  match tokens with
  | [] => true
  | token :: rest =>
      if options && str_eqb token (lit "--") then filter_loop switches value_options max_operands false operands rest
      else if options && is_flag token && negb (str_eqb token (lit "-")) then
        if str_mem switches token then filter_loop switches value_options max_operands options operands rest
        else if str_mem value_options token then
          match rest with
          | [] => false
          | value :: rest' => if is_flag value then false
                              else filter_loop switches value_options max_operands options operands rest'
          end
        else false
      else if match max_operands with Some m => m <? S operands | None => false end then false
      else filter_loop switches value_options max_operands options (S operands) rest
  end.

(** [None] is [usize::MAX], which no count of tokens exceeds. *)
Definition agent_text_filter_options_match (tokens : list (list N)) (switches value_options : list (list N))
    (max_operands : option nat) : bool :=
  filter_loop switches value_options max_operands true 0 (drop 1 tokens).

(** The grammars of the five text filters: switches, options with a value, operands. *)
Definition text_filters_lit : list (string * string * string * option nat) := [
    ("sort", "-b -d -f -g -h -i -M -n -r -s -u -V --dictionary-order --general-numeric-sort --human-numeric-sort --ignore-case --ignore-leading-blanks --ignore-nonprinting --month-sort --numeric-sort --reverse --stable --unique --version-sort",
     "-k --key -t --field-separator", None);
    ("uniq", "-c -d -D -i -u -z --count --ignore-case --repeated --unique --zero-terminated",
     "-f --skip-fields -s --skip-chars -w --check-chars", Some 1);
    ("cut", "-n -s -z --complement --only-delimited --zero-terminated",
     "-b --bytes -c --characters -d --delimiter -f --fields --output-delimiter", None);
    ("tr", "-c -C -d -s -t --complement --delete --squeeze-repeats --truncate-set1",
     "", Some 2);
    ("comm", "-1 -2 -3 --check-order --nocheck-order --total --zero-terminated",
     "--output-delimiter", Some 2)]%string.

(** The preambles [--no-pager] and [-C dir]. *)
Fixpoint skip_git_preamble (rest : list (list N)) : list (list N) :=
  match rest with
  | [] => []
  | flag :: rest' =>
      if str_eqb flag (lit "--no-pager") then skip_git_preamble rest'
      else if str_eqb flag (lit "-C") then
        match rest' with _ :: rest'' => skip_git_preamble rest'' | [] => rest end
      else rest
  end.

Definition is_agent_readonly_git (tokens : list (list N)) : bool :=
  let rest := skip_git_preamble (drop 1 tokens) in
  match rest with
  | [] => false
  | subcommand :: _ =>
      if str_mem (lit <$> ["status"; "log"; "diff"; "show"; "ls-files"; "blame"; "grep"]%string) subcommand
      then readonly_tokens_admitted (str_join [c_space] (take 1 tokens ++ rest))
      else false
  end.

Definition MUTATING_PRIMARIES : list (list N) := lit <$>
  ["-delete"; "-exec"; "-execdir"; "-ok"; "-okdir"; "-fprintf"; "-fls"; "-fprint"; "-fprint0"; "-truncate"]%string.

Definition is_agent_readonly_find (tokens : list (list N)) : bool :=
  forallb (fun token => negb (str_mem MUTATING_PRIMARIES token)) (drop 1 tokens).

Definition is_numeric (part : list N) : bool := negb (str_is_empty part) && forallb is_ascii_digit part.

Definition is_range_script (script : list N) : bool :=
  match (match strip_suffix_char 112 script with Some head => Some head | None => strip_suffix_char 80 script end) with
  | None => false
  | Some head =>
      str_is_empty head || is_numeric head
      || match split_once 44 head with Some (a, b) => is_numeric a && is_numeric b | None => false end
  end.

Definition is_agent_readonly_sed (tokens : list (list N)) : bool :=
  match tokens with
  | _ :: flag :: script :: _ => str_eqb flag (lit "-n") && is_range_script script
  | _ => false
  end.

Definition is_agent_readonly_npm (tokens : list (list N)) : bool :=
  match tokens !! 1 with Some verb => str_mem [lit "view"; lit "show"; lit "info"] verb | None => false end.

Definition is_agent_readonly_segment (segment0 : list N) : bool :=
  let segment := trim segment0 in
  if str_is_empty segment then false
  else
    let tokens := shell_words segment in
    match tokens with
    | [] => false
    | program :: _ =>
        if negb (bool_decide (primary_token_index tokens = Some 0)) || contains_char c_eq program then false
        else if str_eqb program (lit "git") then is_agent_readonly_git tokens
        else if str_eqb program (lit "find") then is_agent_readonly_find tokens
        else if str_eqb program (lit "sed") then is_agent_readonly_sed tokens
        else if str_eqb program (lit "npm") then is_agent_readonly_npm tokens
        else match List.find (fun r : string * string * string * option nat => str_eqb (lit r.1.1.1) program) text_filters_lit with
             | Some (_, switches, values, max) =>
                 agent_text_filter_options_match tokens (split_whitespace (lit switches)) (split_whitespace (lit values)) max
             | None => readonly_tokens_admitted segment
             end
    end.

Definition is_agent_readonly_shell_command (command : list N) : bool :=
  let trimmed := trim (normalize_windows_command_paths command) in
  if str_is_empty trimmed then false
  else if has_any agent_metachars trimmed then false
  else forallb is_agent_readonly_segment (split_char c_pipe trimmed).

(** ** Safety levels *)

Inductive SafetyLevel : Type := Safe | WorkspaceSafe | RequiresApproval | Dangerous.

#[export] Instance SafetyLevel_eq_dec : EqDecision SafetyLevel.
Proof. solve_decision. Defined.

Record SafetyAnalysis : Type := { level : SafetyLevel; reasons : list (list N); suggestions : list (list N) }.

Definition safe : SafetyAnalysis := {| level := Safe; reasons := [lit "Command is read-only"]; suggestions := [] |}.
Definition workspace_safe (reason : list N) : SafetyAnalysis :=
  {| level := WorkspaceSafe; reasons := [reason]; suggestions := [] |}.
Definition requires_approval (rs : list (list N)) : SafetyAnalysis :=
  {| level := RequiresApproval; reasons := rs; suggestions := [] |}.
Definition dangerous (rs ss : list (list N)) : SafetyAnalysis :=
  {| level := Dangerous; reasons := rs; suggestions := ss |}.

Definition SAFE_COMMANDS : list (list N) := lit <$> [
    "ls"; "dir"; "pwd"; "cd"; "cat"; "head"; "tail"; "less"; "more"; "grep"; "rg"; "ag"; "find";
    "fd"; "which"; "whereis"; "type"; "echo"; "printf"; "date"; "cal"; "uptime"; "whoami"; "id";
    "hostname"; "uname"; "env"; "printenv"; "set"; "ps"; "top"; "htop"; "df"; "du"; "free";
    "vmstat"; "wc"; "sort"; "uniq"; "cut"; "tr"; "awk"; "sed"; "diff"; "file"; "stat"; "md5";
    "sha1sum"; "sha256sum"; "git status"; "git log"; "git diff"; "git show"; "git branch";
    "git remote"; "git tag"; "git stash list"; "npm list"; "npm ls"; "npm outdated"; "npm view";
    "cargo check"; "cargo test"; "cargo build"; "cargo doc"; "python --version"; "node --version";
    "rustc --version"; "man"; "help"; "info"]%string.

Definition WORKSPACE_SAFE_COMMANDS : list (list N) := lit <$> [
    "mkdir"; "touch"; "cp"; "mv"; "git add"; "git commit"; "git checkout"; "git switch";
    "git restore"; "git merge"; "git rebase"; "git cherry-pick"; "git reset --soft"; "npm install";
    "npm ci"; "npm update"; "cargo build"; "cargo run"; "cargo test"; "cargo fmt"; "pip install";
    "pip uninstall"; "make"; "cmake"; "ninja"]%string.

Definition DANGEROUS_PATTERNS : list (list N * list N) := [
  (lit "rm -rf /", lit "Attempts to recursively delete root filesystem");
  (lit "rm -rf /*", lit "Attempts to recursively delete all root directories");
  (lit "rm -rf ~", lit "Attempts to recursively delete home directory");
  (lit "rm -rf $HOME", lit "Attempts to recursively delete home directory");
  (lit ":(){ :|:& };:", lit "Fork bomb " ++ [8212%N] ++ lit " will crash the system")].

Definition PRIVILEGED_PATTERNS : list (list N) := lit <$> [
    "sudo"; "su "; "doas"; "pkexec"; "gksudo"; "kdesudo"]%string.

Definition NETWORK_COMMANDS : list (list N) := lit <$> [
    "curl"; "wget"; "fetch"; "nc"; "netcat"; "ncat"; "ssh"; "scp"; "sftp"; "rsync"; "ftp"; "ping";
    "traceroute"; "nslookup"; "dig"; "host"; "nmap"; "masscan"; "tcpdump"; "wireshark"]%string.

Definition ARGV_PASSTHROUGH_WRAPPERS : list (list N) := lit <$> [
    "sudo"; "doas"; "command"; "nice"; "ionice"; "nohup"; "stdbuf"; "setsid"; "time"; "timeout";
    "xargs"]%string.

Definition SHELL_WRAPPERS : list (list N) := lit <$> [
    "sh"; "bash"; "zsh"; "dash"; "ksh"; "ash"; "fish"]%string.

Definition KNOWN_SAFE_CHAIN_PREFIXES : list (list N) := lit <$> [
    "cargo"; "rustc"; "rustup"; "git"; "gh"; "hub"; "npm"; "yarn"; "pnpm"; "node"; "npx"; "zig";
    "go"; "deno"; "bun"; "make"; "cmake"; "ninja"; "meson"; "python"; "python3"; "pip"; "pip3";
    "uv"; "poetry"; "ls"; "pwd"; "cd"; "echo"; "cat"; "head"; "tail"; "grep"; "rg"; "find"; "fd";
    "wc"; "sort"; "uniq"; "which"; "env"; "true"; "false"]%string.

Definition MAX_WRAPPER_DEPTH : nat := 8.

(** ** Stages and wrappers *)

(** The loop of [split_command_segments]; [current] is the stage read so far. *)
Fixpoint segments_loop (current s : list N) : list (list N) :=
  match s with
  | [] => [current]
  | ch :: rest =>
      match rest with
      | next :: rest' =>
          if ((ch =? c_amp)%N || (ch =? c_pipe)%N) && (next =? ch)%N then current :: segments_loop [] rest'
          else if (ch =? c_pipe)%N || (ch =? c_semi)%N then current :: segments_loop [] rest
          else segments_loop (current ++ [ch]) rest
      | [] => if (ch =? c_pipe)%N || (ch =? c_semi)%N then current :: segments_loop [] rest
              else segments_loop (current ++ [ch]) rest
      end
  end.

Definition split_command_segments (command : list N) : list (list N) :=
  List.filter (fun s => negb (str_is_empty s)) (trim <$> segments_loop [] command).

Definition slashed (s : list N) : list N := replace_chars (N.eqb c_backslash) [c_slash] s.

Definition command_word (token : list N) : list N :=
  let base := rsplit_next (N.eqb c_slash) (slashed (trim_matches is_quote token)) in
  to_ascii_lowercase
    (if ends_with (lit ".exe") base then take (length base - 4) base else base).

Definition looks_like_numeric_operand (token : list N) : bool :=
  let trimmed := trim_end_matches is_ascii_alphabetic token in
  negb (str_is_empty trimmed) && forallb (fun b => is_ascii_digit b || (b =? c_dot)%N) trimmed.

Definition skip_passthrough_prefix (wrapper : list N) (args : list (list N)) : list (list N) :=
  let rest := drop_while is_flag args in
  match rest with
  | operand :: rest' =>
      if str_mem [lit "timeout"; lit "nice"; lit "ionice"] wrapper && looks_like_numeric_operand operand
      then rest' else rest
  | [] => []
  end.

(** One round of [unwrap_to_effective_tokens]: the final argv, or the argv the next
    round looks at. *)
Definition unwrap_round (current : list (list N)) : (list (list N)) + (list (list N)) :=
  match primary_token_index current with
  | None => inl current
  | Some start =>
      let word := command_word (default [] (current !! start)) in
      if str_mem SHELL_WRAPPERS word then
        match position (fun t => str_eqb t (lit "-c")) (drop (start + 1) current) with
        | Some flag_at =>
            match current !! (start + 1 + flag_at + 1) with
            | Some payload => inr (shell_words payload)
            | None => inl current
            end
        | None => inl current
        end
      else if str_mem ARGV_PASSTHROUGH_WRAPPERS word then
        match skip_passthrough_prefix word (drop (start + 1) current) with
        | [] => inl current
        | rest => inr rest
        end
      else inl (<[start := word]> current)
  end.

Fixpoint unwrap_loop (rounds : nat) (current : list (list N)) : option (list (list N)) :=
  match rounds with
  | O => None
  | S r => match unwrap_round current with inl tokens => Some tokens | inr next => unwrap_loop r next end
  end.

Definition unwrap_to_effective_tokens (tokens : list (list N)) : option (list (list N)) :=
  unwrap_loop MAX_WRAPPER_DEPTH tokens.

Definition primary_token (tokens : list (list N)) : option (list N) :=
  idx ← primary_token_index tokens; tokens !! idx.

Definition primary_shell_command_is (command expected : list N) : bool :=
  existsb (fun segment => match primary_token (shell_words segment) with
                          | Some token => str_eqb token expected
                          | None => false
                          end) (split_command_segments command).

(** [parts.windows(2).any(...)] over the pieces between pipes. *)
Fixpoint remote_window (parts : list (list N)) : bool :=
  match parts with
  | left0 :: (right0 :: _) as rest =>
      (let left := to_ascii_lowercase left0 in
       (str_contains (lit "curl") left || str_contains (lit "wget") left)
       && match primary_token (shell_words right0) with
          | Some token => str_mem [lit "sh"; lit "bash"; lit "zsh"] token
          | None => false
          end)
      || remote_window rest
  | _ => false
  end.

Definition pipes_remote_content_to_shell (command : list N) : bool :=
  existsb (fun segment =>
    let parts := split_char c_pipe segment in
    if length parts <? 2 then false else remote_window parts) (split_command_segments command).

(** ** Deletions *)

Definition is_root_delete_target (target : list N) : bool :=
  let normalized := slashed (trim_matches is_quote target) in
  str_eqb normalized (lit "/") || str_eqb normalized (lit "/*") || str_eqb normalized (lit "//")
  || starts_with (lit "/*/") normalized || starts_with (lit "/.") normalized.

Definition names_home (lower : list N) : bool :=
  str_eqb lower (lit "~") || starts_with (lit "~/") lower || str_eqb lower (lit "$home")
  || starts_with (lit "$home/") lower || str_eqb lower (lit "${home}") || starts_with (lit "${home}/") lower.

Definition is_home_delete_target (target : list N) : bool :=
  names_home (to_ascii_lowercase (slashed (trim_matches is_quote target))).

Definition target_is_unexpanded_variable (target : list N) : bool :=
  contains_char c_dollar (trim_matches is_quote target).

Definition target_contains_parent_escape (target : list N) : bool :=
  existsb (fun component => str_eqb component (lit "..")) (split_char c_slash (slashed target)).

(** The flags and targets of an [rm]: recursive, force, targets. *)
Definition rm_arg (st : bool * bool * list (list N)) (arg : list N) : bool * bool * list (list N) :=
  let '(recursive, force, targets) := st in
  if str_eqb arg (lit "--") then st
  else if str_eqb arg (lit "--recursive") || str_eqb arg (lit "--dir") then (true, force, targets)
  else if str_eqb arg (lit "--force") then (recursive, true, targets)
  else if is_flag arg && negb (starts_with (lit "--") arg) then
    (recursive || existsb (fun ch => (ch =? 114)%N || (ch =? 82)%N) arg, force || contains_char 102 arg, targets)
  else (recursive, force, targets ++ [arg]).

Definition rm_args (args : list (list N)) : bool * bool * list (list N) := fold_left rm_arg args (false, false, []).

Definition target_reason (target : list N) : option (list N) :=
  if target_is_unexpanded_variable target
  then Some (lit "Deletion target is an unexpanded variable; its value cannot be checked")
  else if is_root_delete_target target then Some (lit "Recursive or forced deletion targets the root filesystem")
  else if is_home_delete_target target then Some (lit "Recursive or forced deletion targets the home directory")
  else if target_contains_parent_escape target then Some (lit "Recursive or forced deletion may escape the workspace")
  else None.

Definition dangerous_rm_reason (args : list (list N)) : option (list N) :=
  let '(recursive, force, targets) := rm_args args in
  if negb (recursive || force) then None else head (omap target_reason targets).

Fixpoint execs_rm (args : list (list N)) : bool :=
  match args with
  | a :: (b :: _) as rest => (str_eqb a (lit "-exec") && str_eqb b (lit "rm")) || execs_rm rest
  | _ => false
  end.

Definition analyze_find_mutation (args : list (list N)) : option SafetyAnalysis :=
  if negb (str_mem args (lit "-delete") || execs_rm args) then None
  else
    let targets := take_while (fun arg => negb (is_flag arg)) args in
    if existsb (fun target => is_root_delete_target target || is_home_delete_target target
                              || target_contains_parent_escape target) targets
    then Some (dangerous [lit "find mutation targets a broad or external path"]
                 [lit "Restrict the find root to a workspace-relative path"])
    else Some (requires_approval [lit "find command may delete files"]).

Definition analyze_segment (segment : list N) : option SafetyAnalysis :=
  match unwrap_to_effective_tokens (shell_words segment) with
  | None => Some (dangerous [lit "Command nests wrappers too deeply to classify"]
                    [lit "Run the underlying command directly so it can be checked"])
  | Some tokens =>
      match primary_token_index tokens with
      | None => None
      | Some start =>
          let word := default [] (tokens !! start) in
          if str_eqb word (lit "rm") then
            match dangerous_rm_reason (drop (start + 1) tokens) with
            | Some reason => Some (dangerous [reason] [lit "Review the deletion target before retrying"])
            | None => None
            end
          else if str_eqb word (lit "find") then analyze_find_mutation (drop (start + 1) tokens)
          else None
      end
  end.

Definition analyze_destructive_patterns (command : list N) : option SafetyAnalysis :=
  if primary_shell_command_is command (lit "eval") then
    Some (dangerous [lit "Command invokes shell eval"] [lit "Avoid evaluating dynamically generated shell input"])
  else if pipes_remote_content_to_shell command then
    Some (dangerous [lit "Piping remote content directly to shell is dangerous"]
            [lit "Download the script first and review it before execution"])
  else head (omap analyze_segment (split_command_segments command)).

(** ** Commands that are known *)

Definition contains_shell_composition (command : list N) : bool :=
  has_any (lit "|&><`") (str_replace (lit "||") [] (str_replace (lit "&&") [] command))
  || str_contains (lit "$(") command.

Definition is_safe_command (command : list N) : bool :=
  let command_lower := to_lowercase command in
  let tokens := shell_words command in
  if match primary_token_index tokens with
     | Some start => is_ghosty_readonly_invocation (drop start tokens)
     | None => false
     end then true
  else if contains_shell_composition command then false
  else existsb (fun safe_cmd => starts_with safe_cmd command_lower) SAFE_COMMANDS.

Definition all_segments_known_safe (command : list N) : bool :=
  let normalized := replace_chars (N.eqb c_semi) [c_nl]
    (str_replace (lit "||") [c_nl] (str_replace (lit "&&") [c_nl] command)) in
  let segments := List.filter (fun s => negb (str_is_empty s)) (trim <$> split_char c_nl normalized) in
  match segments with
  | [] => false
  | _ => forallb (fun seg =>
           let head := default [] (List.find (fun tok => negb (contains_char c_eq tok) && negb (str_eqb tok (lit "env")))
                                     (split_whitespace seg)) in
           existsb (fun prefix => eq_ignore_ascii_case head prefix) KNOWN_SAFE_CHAIN_PREFIXES) segments
  end.

(** [Path::is_absolute] on Unix. *)
Definition is_absolute (path : list N) : bool := starts_with_char c_slash path.

Definition operand_is_workspace_relative (token : list N) : bool :=
  let trimmed := trim_matches is_quote token in
  if str_is_empty trimmed || str_eqb trimmed (lit "-") then true
  else if names_home (to_ascii_lowercase trimmed) then false
  else if contains_char c_dollar trimmed then false
  else
    let normalized := slashed trimmed in
    if starts_with_char c_slash normalized || is_absolute trimmed then false
    else negb (existsb (fun part => str_eqb part (lit "..")) (split_char c_slash normalized)).

Definition is_path_operand (arg : list N) : bool :=
  negb (str_eqb arg (lit "--")) && negb (is_flag arg && negb (str_eqb arg (lit "-"))).

Definition copy_or_move_operands_are_workspace_relative (args : list (list N)) : bool :=
  let operands := List.filter is_path_operand args in
  forallb operand_is_workspace_relative operands && match operands with [] => false | _ => true end.

Definition is_workspace_safe_command (command : list N) : bool :=
  match unwrap_to_effective_tokens (shell_words command) with
  | None => false
  | Some tokens =>
      match primary_token_index tokens with
      | None => false
      | Some start =>
          if str_mem [lit "cp"; lit "mv"] (command_word (default [] (tokens !! start)))
          then copy_or_move_operands_are_workspace_relative (drop (start + 1) tokens)
          else existsb (fun ws_cmd => starts_with ws_cmd (to_lowercase command)) WORKSPACE_SAFE_COMMANDS
      end
  end.

Definition analyze_command (command : list N) : SafetyAnalysis :=
  let command_lower := to_lowercase command in
  let command_trimmed := trim command in
  if contains_char c_nl command || contains_char c_cr command then
    dangerous [lit "Command contains multiple lines"]
      [lit "Run one command at a time"; lit "Write multiline scripts to a file first, then execute the script";
       lit "Use task_shell_start or background shell for long interactive flows"]
  else if contains_char 0 command then
    dangerous [lit "Command contains a null byte"] [lit "Strip embedded null bytes before retrying"]
  else match analyze_destructive_patterns command with
  | Some analysis => analysis
  | None =>
  if str_contains (lit "&&") command || str_contains (lit "||") command || contains_char c_semi command then
    if all_segments_known_safe command
    then requires_approval [lit "Command chains known-safe segments (cargo/git/etc.)"]
    else requires_approval [lit "Command chaining detected"]
  else if contains_char c_backtick command || str_contains (lit "$(") command then
    requires_approval [lit "Command substitution detected"]
  else match List.find (fun e : list N * list N => str_contains (to_lowercase e.1) command_lower) DANGEROUS_PATTERNS with
  | Some (_, reason) => dangerous [reason] [lit "Review the command carefully before execution"]
  | None =>
  match List.find (fun pattern => starts_with pattern command_trimmed
                     || str_contains ([c_space] ++ pattern ++ [c_space]) command_lower) PRIVILEGED_PATTERNS with
  | Some pattern => requires_approval [lit "Command uses privileged execution (" ++ trim pattern ++ lit ")"]
  | None =>
  let first_word := default [] (head (split_whitespace command_trimmed)) in
  if (str_contains (lit "curl") command_lower || str_contains (lit "wget") command_lower)
     && (str_contains (lit "| sh") command_lower || str_contains (lit "| bash") command_lower
         || str_contains (lit "| zsh") command_lower) then
    dangerous [lit "Piping remote content directly to shell is dangerous"]
      [lit "Download the script first and review it before execution"]
  else if is_safe_command command_trimmed then safe
  else if is_workspace_safe_command command_trimmed then workspace_safe (lit "Command modifies files within workspace")
  else if str_mem NETWORK_COMMANDS first_word then requires_approval [lit "Command may make network requests"]
  else if str_eqb first_word (lit "rm") && (str_contains (lit "-r") command_lower || str_contains (lit "-f") command_lower) then
    if str_contains (lit "..") command_lower || str_contains (lit "~/") command_lower
       || str_contains (lit "$HOME") command_lower
    then dangerous [lit "Recursive or forced deletion"; lit "May delete files outside workspace"]
           [lit "Use relative paths within the workspace"]
    else requires_approval [lit "Recursive or forced deletion"]
  else if str_contains (lit "git push") command_lower then
    if str_contains (lit "--force") command_lower || str_contains (lit "-f") command_lower
    then requires_approval [lit "Force push can overwrite remote history"]
    else requires_approval [lit "Push will modify remote repository"]
  else requires_approval [lit "Unknown command - review before execution"]
  end end end.

Definition extract_primary_command (command : list N) : option (list N) :=
  let trimmed := trim command in
  if starts_with (lit "env ") trimmed || starts_with (lit "ENV=") trimmed then
    List.find (fun s => negb (contains_char c_eq s) && negb (str_eqb s (lit "env"))) (split_whitespace trimmed)
  else head (split_whitespace trimmed).

End CommandSafety.

End CommandSafety.
