(* ===== verification/CommandGrammar.v ===== *)
(** * Command safety: the grammar of read-only commands

    The argument grammar behind the two loops over options, stated by the pieces an
    argument list is made of, and the commands the read-only classifier admits, stated
    by the rows of its table. *)

From stdpp Require Import base list option strings.
From Stdlib Require Import Lia NArith.
From S2P Require Import Prelude RustStr CommandSafety CommandSafetyFacts.

Module CommandGrammar.

Import CommandSafety.
Import CommandSafetyFacts.

(** ** Argument lists *)

Section Arguments.
Variables (switches values : list (list N)) (shorthand : bool).

Definition option_word (t : list N) : Prop := is_flag t = true /\ t <> lit "-" /\ t <> lit "--".

(** A piece of an argument list, with the operands it holds. *)
Inductive piece : nat -> list (list N) -> Prop :=
  | piece_switch t : option_word t -> t ∈ switches -> piece 0 [t]
  | piece_count t : option_word t -> shorthand = true -> is_numeric_count_shorthand t = true -> piece 0 [t]
  | piece_value t v : option_word t -> t ∈ values -> is_flag v = false -> piece 0 [t; v]
  | piece_operand t : is_flag t = false \/ t = lit "-" -> piece 1 [t].

(** An argument list, with the operands it holds: behind [--] everything is one. *)
Inductive arguments : nat -> list (list N) -> Prop :=
  | arguments_nil : arguments 0 []
  | arguments_rest operands : arguments (length operands) (lit "--" :: operands)
  | arguments_piece n m p rest : piece n p -> arguments m rest -> arguments (n + m) (p ++ rest).

(** No option is two things at once. *)
Definition separated : Prop :=
  forall t, t ∈ values -> (t ∉ switches) /\ (shorthand = true -> is_numeric_count_shorthand t = false).

Lemma option_word_spec t :
  option_word t <-> str_eqb t (lit "--") = false /\ is_flag t && negb (str_eqb t (lit "-")) = true.
Proof.
  unfold option_word. rewrite andb_true_iff, negb_true_iff, <- !not_true_iff_false, !str_eqb_spec. naive_solver.
Qed.

Lemma operand_spec t :
  is_flag t = false \/ t = lit "-" <-> is_flag t && negb (str_eqb t (lit "-")) = false.
Proof. rewrite andb_false_iff, negb_false_iff, str_eqb_spec. done. Qed.

Lemma operand_not_rest t : is_flag t = false \/ t = lit "-" -> str_eqb t (lit "--") = false.
Proof. intros Ht. apply not_true_iff_false. rewrite str_eqb_spec. intros ->. by destruct Ht. Qed.

(** The two loops accept the argument lists of the grammar. *)
Section Loops.
Hypothesis Hshort : shorthand = str_mem values (lit "-n") || str_mem values (lit "--lines").

Lemma options_loop_rest tokens : options_loop switches values false tokens = true.
Proof. induction tokens as [|t tokens IH]; [done|]. cbn. done. Qed.

Lemma options_loop_sound tokens :
  options_loop switches values true tokens = true -> exists n, arguments n tokens.
Proof.
  induction tokens as [tokens IH] using (induction_ltof1 _ length); unfold ltof in IH.
  destruct tokens as [|t rest]; [by eexists; constructor|]. cbn [options_loop andb].
  assert (Hnext : forall n p tail, piece n p -> t :: rest = p ++ tail ->
            options_loop switches values true tail = true -> exists n, arguments n (t :: rest)).
  { intros n p tail Hp He Ht. destruct (IH tail) as [m Hm]; [|done|].
    - rewrite He, length_app. destruct Hp; cbn; lia.
    - rewrite He. exists (n + m). by constructor. }
  destruct (str_eqb t (lit "--")) eqn:Ed.
  { intros _. apply str_eqb_spec in Ed as ->. eexists. constructor. }
  destruct (is_flag t && negb (str_eqb t (lit "-"))) eqn:Eo.
  - assert (Ho : option_word t) by by apply option_word_spec.
    destruct (str_mem switches t) eqn:Es; [apply (Hnext 0 [t]); [by constructor; [|apply str_mem_spec]|done]|].
    rewrite <- Hshort. destruct (is_numeric_count_shorthand t && shorthand) eqn:Ec.
    { apply andb_true_iff in Ec as [? ?]. apply (Hnext 0 [t]); [by apply piece_count|done]. }
    destruct (str_mem values t) eqn:Ev; [|done]. destruct rest as [|v rest]; [done|].
    destruct (is_flag v) eqn:Ef; [done|].
    apply (Hnext 0 [t; v]); [by constructor; [|apply str_mem_spec|]|done].
  - apply (Hnext 1 [t]); [|done]. constructor. by apply operand_spec.
Qed.

Lemma options_loop_complete n tokens :
  separated -> arguments n tokens -> options_loop switches values true tokens = true.
Proof.
  intros Hsep. induction 1 as [|operands|n m p rest Hp Hr IH]; [done|apply options_loop_rest|].
  destruct Hp as [t Ho Hs|t Ho Hh Hc|t v Ho Hv Hf|t Ht]; cbn [app options_loop andb].
  1-3: apply option_word_spec in Ho as [-> ->].
  - by rewrite (proj2 (str_mem_spec _ _) Hs).
  - rewrite Hc, <- Hshort, Hh. by destruct (str_mem switches t).
  - destruct (Hsep _ Hv) as [Hs Hc]. rewrite (proj2 (str_mem_false _ _) Hs), <- Hshort.
    replace (is_numeric_count_shorthand t && shorthand) with false.
    + by rewrite (proj2 (str_mem_spec _ _) Hv), Hf.
    + destruct shorthand; [by rewrite Hc|by rewrite andb_false_r].
  - rewrite (operand_not_rest _ Ht). apply operand_spec in Ht as ->. done.
Qed.

Lemma options_loop_spec tokens :
  separated -> options_loop switches values true tokens = true <-> exists n, arguments n tokens.
Proof.
  intros Hsep. split; [apply options_loop_sound|]. intros [n Hn]. by eapply options_loop_complete.
Qed.

End Loops.

(** The loop of the text filters, which counts operands and has no count shorthand. *)
Section Filters.
Hypothesis Hno : shorthand = false.
Variable max_operands : option nat.

Definition within (n : nat) : Prop := match max_operands with Some m => n <= m | None => True end.

Lemma within_next k : match max_operands with Some m => m <? S k | None => false end = false <-> within (S k).
Proof. unfold within. destruct max_operands; [|done]. rewrite Nat.ltb_ge. done. Qed.

Lemma within_le k n : k <= n -> within n -> within k.
Proof. unfold within. destruct max_operands; [lia|done]. Qed.

Lemma filter_loop_rest k tokens :
  filter_loop switches values max_operands false k tokens = true <-> tokens = [] \/ within (k + length tokens).
Proof.
  revert k. induction tokens as [|t tokens IH]; intros k; cbn [filter_loop andb length]; [naive_solver|].
  destruct (match max_operands with Some m => m <? S k | None => false end) eqn:E.
  - split; [done|]. intros [?|Hw]; [done|]. apply (within_le (S k)) in Hw; [|lia].
    apply within_next in Hw. congruence.
  - apply within_next in E. rewrite IH, Nat.add_succ_r, Nat.add_succ_l.
    split; [|naive_solver]. intros [->|?]; right; [|done]. cbn. by rewrite Nat.add_0_r.
Qed.

Lemma filter_loop_sound k tokens :
  within k -> filter_loop switches values max_operands true k tokens = true ->
  exists n, arguments n tokens /\ within (k + n).
Proof.
  revert k. induction tokens as [tokens IH] using (induction_ltof1 _ length); unfold ltof in IH. intros k Hk.
  destruct tokens as [|t rest]; [intros _; exists 0; split; [constructor|by rewrite Nat.add_0_r]|].
  cbn [filter_loop andb].
  assert (Hnext : forall n p tail, piece n p -> t :: rest = p ++ tail -> within (k + n) ->
            filter_loop switches values max_operands true (k + n) tail = true ->
            exists n, arguments n (t :: rest) /\ within (k + n)).
  { intros n p tail Hp He Hw Ht. destruct (IH tail) with (k := k + n) as (m & Hm & Hw'); [|done|done|].
    - rewrite He, length_app. destruct Hp; cbn; lia.
    - rewrite He. exists (n + m). rewrite Nat.add_assoc. split; [by constructor|done]. }
  destruct (str_eqb t (lit "--")) eqn:Ed.
  { apply str_eqb_spec in Ed as ->. rewrite filter_loop_rest. intros Hr. exists (length rest). split; [constructor|].
    destruct Hr as [->|?]; [cbn; by rewrite Nat.add_0_r|done]. }
  destruct (is_flag t && negb (str_eqb t (lit "-"))) eqn:Eo.
  - assert (Ho : option_word t) by by apply option_word_spec. rewrite <- (Nat.add_0_r k) in Hk.
    destruct (str_mem switches t) eqn:Es.
    { intros Hr. apply (Hnext 0 [t] rest); [by constructor; [|apply str_mem_spec]|done|done|by rewrite Nat.add_0_r]. }
    destruct (str_mem values t) eqn:Ev; [|done]. destruct rest as [|v rest]; [done|].
    destruct (is_flag v) eqn:Ef; [done|]. intros Hr.
    apply (Hnext 0 [t; v] rest); [by constructor; [|apply str_mem_spec|]|done|done|by rewrite Nat.add_0_r].
  - destruct (match max_operands with Some m => m <? S k | None => false end) eqn:E; [done|].
    apply within_next in E. rewrite <- Nat.add_1_r in *. apply (Hnext 1 [t]); [|done|done].
    constructor. by apply operand_spec.
Qed.

Lemma filter_loop_complete n k tokens :
  separated -> arguments n tokens -> within (k + n) -> filter_loop switches values max_operands true k tokens = true.
Proof.
  intros Hsep Ha. revert k. induction Ha as [|operands|n m p rest Hp Hr IH]; intros k Hw; [done| |].
  - cbn [filter_loop]. rewrite (proj2 (str_eqb_spec _ _)) by done. apply filter_loop_rest. by right.
  - destruct Hp as [t Ho Hs|t Ho Hh Hc|t v Ho Hv Hf|t Ht]; cbn [app filter_loop andb]; [| | |].
    1-3: apply option_word_spec in Ho as [-> ->].
    + rewrite (proj2 (str_mem_spec _ _) Hs). by apply IH.
    + by rewrite Hno in Hh.
    + destruct (Hsep _ Hv) as [Hs _]. rewrite (proj2 (str_mem_false _ _) Hs), (proj2 (str_mem_spec _ _) Hv), Hf.
      by apply IH.
    + rewrite (operand_not_rest _ Ht). apply operand_spec in Ht as ->.
      rewrite (proj2 (within_next k)) by (eapply within_le; [|exact Hw]; lia).
      apply IH. by rewrite Nat.add_succ_l, <- Nat.add_succ_r.
Qed.

End Filters.

End Arguments.

(** ** The rows of the read-only table *)

Definition row : Type := string * nat * string * string.

Definition row_name (r : row) : list N := lit r.1.1.1.
Definition row_words (r : row) : list (list N) := split_whitespace (row_name r).
Definition row_switches (r : row) : list (list N) := split_whitespace (lit r.1.2).
Definition row_values (r : row) : list (list N) := split_whitespace (lit r.2).
Definition takes_count (r : row) : bool := str_mem (row_values r) (lit "-n") || str_mem (row_values r) (lit "--lines").

Definition row_arguments (r : row) (args : list (list N)) : Prop :=
  exists n, arguments (row_switches r) (row_values r) (takes_count r) n args.

(** A call the table allows: the words of a row, literally, and arguments of its
    grammar; for [gh] no argument that the host check refuses. *)
Definition readonly_call (tokens : list (list N)) : Prop :=
  exists r args, r ∈ readonly_options_lit /\ tokens = row_words r ++ args /\ row_arguments r args
    /\ (starts_with (lit "gh ") (row_name r) = true -> github_command_targets_unsupported_host tokens = false).

(** What is checked of every row: its words are literal lower-case words whose number
    is the first option position, one of [git]'s two, [gh]'s three or a single one; its
    options are separated; the arity table finds it again. *)
Definition finds (key : list N) : option (list N * nat) := List.find (fun e => str_eqb e.1 key) COMMAND_ARITY.
Definition no_longer (key : list N) : bool :=
  forallb (fun e : list N * nat => negb (starts_with (key ++ [c_space]) e.1)) COMMAND_ARITY.

Definition arity_ok (words : list (list N)) : bool :=
  match words with
  | [w] => negb (str_mem [lit "git"; lit "gh"] w) && no_longer w && negb (bool_decide (is_Some (finds w)))
  | [g; x] => str_eqb g (lit "git") && no_longer (str_join [c_space] [g; x])
              && match finds (str_join [c_space] [g; x]) with Some (_, a) => a =? 2 | None => false end
  | [g; x; y] => str_eqb g (lit "gh") && negb (bool_decide (is_Some (finds (str_join [c_space] [g; x; y]))))
              && match finds (str_join [c_space] [g; x]) with Some (_, a) => a =? 3 | None => false end
  | _ => false
  end.

Definition row_ok (r : row) : bool :=
  str_eqb (str_join [c_space] (row_words r)) (row_name r)
  && (length (row_words r) =? r.1.1.2)
  && forallb (fun w => negb (is_flag w) && str_eqb (to_ascii_lowercase w) w && negb (str_eqb w (lit "env"))
                       && negb (is_env_assignment w)) (row_words r)
  && forallb (fun t => negb (str_mem (row_switches r) t) && negb (takes_count r && is_numeric_count_shorthand t)) (row_values r)
  && str_mem (PARALLEL_READONLY_PREFIXES ++ GITHUB_READONLY_PREFIXES) (row_name r)
  && bool_decide (readonly_row (row_name r) = Some (r.1.1.2, lit r.1.2, lit r.2))
  && arity_ok (row_words r).

Lemma rows_ok r : r ∈ readonly_options_lit -> row_ok r = true.
Proof.
  intros Hr. apply (proj1 (forallb_forall row_ok readonly_options_lit)); [vm_compute; reflexivity|].
  by apply list_elem_of_In.
Qed.

Lemma row_separated r : row_ok r = true -> separated (row_switches r) (row_values r) (takes_count r).
Proof.
  intros Hr t Ht. unfold row_ok in Hr. rewrite !andb_true_iff in Hr. destruct Hr as [[[[_ Hs] _] _] _].
  apply list_elem_of_In in Ht. specialize (proj1 (forallb_forall _ _) Hs _ Ht) as Hv.
  apply andb_true_iff in Hv as [Hv1 Hv2]. split; [apply str_mem_false; by apply negb_true_iff|].
  intros Hc. rewrite Hc in Hv2. by apply negb_true_iff in Hv2.
Qed.

Lemma finds_longer key rest : no_longer key = true -> finds (key ++ c_space :: rest) = None.
Proof.
  unfold no_longer, finds. induction COMMAND_ARITY as [|e l IH]; [done|]. cbn [forallb List.find].
  intros [He Hl]%andb_true_iff. destruct (str_eqb e.1 _) eqn:E; [|by apply IH].
  apply str_eqb_spec in E. rewrite E in He. apply negb_true_iff, not_true_iff_false in He. exfalso. apply He.
  apply starts_with_spec. exists rest. by rewrite <- app_assoc.
Qed.

Lemma positional_row_words words args :
  forallb (fun w => negb (is_flag w) && str_eqb (to_ascii_lowercase w) w) words = true ->
  positional_tokens (words ++ args) = words ++ positional_tokens args.
Proof.
  unfold positional_tokens. induction words as [|w words IH]; [done|]. cbn [forallb app List.filter].
  intros [[Hf Hl]%andb_true_iff Hw]%andb_true_iff. rewrite Hf, fmap_cons.
  apply str_eqb_spec in Hl as ->. by rewrite IH.
Qed.

(** The arity dictionary gives back the words of a row, whatever follows them. *)
Lemma classify_depth_words words rest :
  arity_ok words = true ->
  default (default [] (head words)) (classify_depth (words ++ rest) (min (length (words ++ rest)) 3))
  = str_join [c_space] words.
Proof.
  assert (Hstep : forall p d, classify_depth p (S d)
    = match finds (str_join [c_space] (take (S d) p)) with
      | Some (_, arity) => Some (str_join [c_space] (take (min arity (length p)) p))
      | None => classify_depth p d end) by done.
  destruct words as [|g [|x [|y [|]]]]; cbn [arity_ok]; [done| | | |done].
  - intros [[_ Hn]%andb_true_iff Hf]%andb_true_iff.
    apply negb_true_iff, bool_decide_eq_false, eq_None_not_Some in Hf.
    assert (Hg : finds (str_join [c_space] [g]) = None) by exact Hf.
    assert (Hl : forall a l, finds (str_join [c_space] (g :: a :: l)) = None).
    { intros a l. rewrite str_join_cons. by apply finds_longer. }
    destruct rest as [|a [|b rest]]; cbn [app length Nat.min head default from_option id];
      rewrite ?Nat.min_0_r, !Hstep; cbn [take]; by rewrite ?Hl, Hg.
  - intros [[_ Hn]%andb_true_iff Hf]%andb_true_iff.
    destruct (finds (str_join [c_space] [g; x])) as [[? a]|] eqn:E; [|done]. apply Nat.eqb_eq in Hf as ->.
    destruct rest as [|b rest]; cbn [app length Nat.min head default from_option id];
      rewrite ?Nat.min_0_r, !Hstep; cbn [take].
    + by rewrite E.
    + assert (Hl : finds (str_join [c_space] [g; x; b]) = None).
      { replace (str_join [c_space] [g; x; b]) with (str_join [c_space] [g; x] ++ c_space :: b)
          by (cbn; by rewrite <- !app_assoc). by apply finds_longer. }
      by rewrite take_0, Hl, E.
  - intros [[_ Hn]%andb_true_iff Hf]%andb_true_iff.
    destruct (finds (str_join [c_space] [g; x])) as [[? a]|] eqn:E; [|done]. apply Nat.eqb_eq in Hf as ->.
    cbn [app length Nat.min head default from_option id]. rewrite ?Nat.min_0_r, !Hstep. cbn [take].
    apply negb_true_iff, bool_decide_eq_false, eq_None_not_Some in Hn. rewrite ?take_0. by rewrite Hn, E.
Qed.
Lemma row_ok_inv r :
  row_ok r = true ->
  str_join [c_space] (row_words r) = row_name r /\ length (row_words r) = r.1.1.2
  /\ forallb (fun w => negb (is_flag w) && str_eqb (to_ascii_lowercase w) w) (row_words r) = true
  /\ Forall (fun w => w <> lit "env" /\ is_env_assignment w = false) (row_words r)
  /\ row_name r ∈ PARALLEL_READONLY_PREFIXES ++ GITHUB_READONLY_PREFIXES
  /\ readonly_row (row_name r) = Some (r.1.1.2, lit r.1.2, lit r.2) /\ arity_ok (row_words r) = true.
Proof.
  unfold row_ok. rewrite !andb_true_iff, str_eqb_spec, Nat.eqb_eq, str_mem_spec, bool_decide_eq_true.
  intros [[[[[[Hn Hl] Hw] _] Hp] Hr] Ha]. split_and!; try done.
  - apply forallb_forall. intros w Hin. apply (proj1 (forallb_forall _ _) Hw) in Hin.
    by rewrite !andb_true_iff in Hin; rewrite andb_true_iff; destruct Hin as [[? _] _].
  - apply List.Forall_forall. intros w Hin. apply (proj1 (forallb_forall _ _) Hw) in Hin.
    rewrite !andb_true_iff, !negb_true_iff in Hin. destruct Hin as [[_ He] ?]. split; [|done].
    intros ->. by rewrite (proj2 (str_eqb_spec _ _)) in He.
Qed.

Section Readonly.
Context `{Shlex}.

Lemma classify_row r args : row_ok r = true -> classify_command (row_words r ++ args) = row_name r.
Proof.
  intros Hr. destruct (row_ok_inv _ Hr) as (Hn & _ & Hw & _ & _ & _ & Ha).
  unfold classify_command. rewrite positional_row_words, <- Hn, <- (classify_depth_words _ (positional_tokens args) Ha) by done.
  destruct (row_words r) as [|w words]; [done|]. done.
Qed.

Lemma readonly_options_row r args :
  row_ok r = true ->
  readonly_options_are_allowed (row_name r) (row_words r ++ args) = true
  <-> row_arguments r args
      /\ (starts_with (lit "gh ") (row_name r) = true ->
          github_command_targets_unsupported_host (row_words r ++ args) = false).
Proof.
  intros Hok. destruct (row_ok_inv _ Hok) as (_ & Hl & _ & _ & _ & Hrow & _).
  unfold readonly_options_are_allowed. rewrite Hrow, <- Hl, drop_app_length, andb_true_iff.
  unfold options_match_allowlist. change (split_whitespace (lit r.1.2)) with (row_switches r).
  change (split_whitespace (lit r.2)) with (row_values r).
  rewrite (options_loop_spec _ _ (takes_count r) eq_refl _ (row_separated _ Hok)).
  destruct (starts_with (lit "gh ") (row_name r)), (github_command_targets_unsupported_host _); cbn;
    split; intros [Ha Hb]; (split; [exact Ha|]); first [done|by specialize (Hb eq_refl)].
Qed.

Lemma row_of_name name row : readonly_row name = Some row -> exists r, r ∈ readonly_options_lit /\ row_name r = name.
Proof.
  unfold readonly_row. destruct (List.find _ _) as [r|] eqn:E; [|done]. intros _.
  apply List.find_some in E as [Hin Hn]. apply str_eqb_spec in Hn. exists r. split; [by apply list_elem_of_In|done].
Qed.

(** The literal-word checks say that the tokens start with the words of the row. *)
Lemma literal_words (words tokens : list (list N)) :
  arity_ok words = true -> tokens !! 0 = words !! 0 ->
  (words !! 0 = Some (lit "git") -> tokens !! 1 = words !! 1) ->
  (words !! 0 = Some (lit "gh") -> tokens !! 1 = words !! 1 /\ tokens !! 2 = words !! 2) ->
  exists args, tokens = words ++ args.
Proof.
  destruct words as [|g [|x [|y [|]]]]; cbn [arity_ok]; try done; intros Ha H0 H1 H2;
    (destruct tokens as [|a tokens]; [done|]); cbn in H0; injection H0 as ->.
  - by exists tokens.
  - rewrite !andb_true_iff in Ha. destruct Ha as [[Hg%str_eqb_spec _] _]. subst g. specialize (H1 eq_refl).
    destruct tokens as [|b tokens]; [done|]. cbn in H1. injection H1 as ->. by exists tokens.
  - rewrite !andb_true_iff in Ha. destruct Ha as [[Hg%str_eqb_spec _] _]. subst g.
    destruct (H2 eq_refl) as [H3 H4].
    destruct tokens as [|b [|c tokens]]; [done|done|]. cbn in H3, H4. simplify_eq. by exists tokens.
Qed.

Definition ghosty_call (tokens : list (list N)) : Prop := is_ghosty_readonly_invocation tokens = true.

Lemma ghosty_call_primary tokens : ghosty_call tokens -> primary_token_index tokens = Some 0.
Proof.
  unfold ghosty_call, is_ghosty_readonly_invocation. destruct tokens as [|c [|a [|]]]; try done.
  intros [Hc _]%andb_true_iff. apply str_mem_spec in Hc. by repeat (apply elem_of_cons in Hc as [->|Hc]; [done|]); apply elem_of_nil in Hc.
Qed.

(** The checks of the literal words, as the classifier computes them. *)
Definition words_checked (words tokens : list (list N)) : bool :=
  bool_decide (tokens !! 0 = words !! 0)
  && negb (bool_decide (words !! 0 = Some (lit "git")) && negb (bool_decide (tokens !! 1 = words !! 1)))
  && negb (bool_decide (words !! 0 = Some (lit "gh"))
           && (negb (bool_decide (tokens !! 1 = words !! 1)) || negb (bool_decide (tokens !! 2 = words !! 2)))).

Lemma words_checked_spec words tokens :
  arity_ok words = true -> words_checked words tokens = true <-> exists args, tokens = words ++ args.
Proof.
  intros Ha. unfold words_checked.
  rewrite !andb_true_iff, !negb_true_iff, !andb_false_iff, !orb_false_iff, !negb_false_iff,
    !bool_decide_eq_true, !bool_decide_eq_false. split.
  - intros [[H0 H1] H2]. apply literal_words; [done|done|naive_solver|naive_solver].
  - intros [args ->]. destruct words as [|g [|x [|y [|]]]]; cbn [arity_ok] in Ha; try done; cbn.
    + apply andb_true_iff in Ha as [[Hg _]%andb_true_iff _]. apply negb_true_iff, str_mem_false in Hg.
      rewrite !not_elem_of_cons in Hg. destruct Hg as (Hg1 & Hg2 & _).
      split_and!; [done|left; intros [= Hg]; by apply Hg1|left; intros [= Hg]; by apply Hg2].
    + apply andb_true_iff in Ha as [[Hg%str_eqb_spec _]%andb_true_iff _]. subst g.
      split_and!; [done|by right|by left].
    + split_and!; [done|by right|by right].
Qed.

Lemma admitted_unfold t :
  let tokens := shell_words t in
  readonly_tokens_admitted t
  = bool_decide (primary_token_index tokens = Some 0)
    && (is_ghosty_readonly_invocation tokens
        || (words_checked (split_whitespace (classify_command tokens)) tokens
            && readonly_options_are_allowed (classify_command tokens) tokens
            && str_mem (PARALLEL_READONLY_PREFIXES ++ GITHUB_READONLY_PREFIXES) (classify_command tokens))).
Proof.
  cbv zeta. unfold readonly_tokens_admitted, words_checked.
  destruct (primary_token_index (shell_words t)) as [[|]|]; [|done|done].
  rewrite (bool_decide_eq_true_2 (Some 0 = Some 0)) by done.
  destruct (is_ghosty_readonly_invocation _); [done|].
  repeat match goal with |- context [bool_decide ?P] => destruct (bool_decide P) end;
    by destruct (readonly_options_are_allowed _ _).
Qed.

Lemma readonly_tokens_admitted_spec t :
  readonly_tokens_admitted t = true <-> ghosty_call (shell_words t) \/ readonly_call (shell_words t).
Proof.
  rewrite admitted_unfold. generalize (shell_words t) as tokens. intros tokens.
  rewrite andb_true_iff, orb_true_iff, !andb_true_iff, bool_decide_eq_true. split.
  - intros [_ [Hg|[[Hw Hopt] Hp]]]; [by left|]. right.
    destruct (readonly_row (classify_command tokens)) as [row|] eqn:Er.
    2: { unfold readonly_options_are_allowed in Hopt. by rewrite Er in Hopt. }
    destruct (row_of_name _ _ Er) as (r & Hin & Hn). pose proof (rows_ok _ Hin) as Hok.
    rewrite <- Hn in Hw, Hopt. destruct (row_ok_inv _ Hok) as (_ & _ & _ & _ & _ & _ & Ha).
    apply words_checked_spec in Hw as [args ->]; [|done].
    apply readonly_options_row in Hopt as [? ?]; [|done]. by exists r, args.
  - intros [Hg|(r & args & Hin & -> & Hargs & Hhost)].
    { split; [by apply ghosty_call_primary|by left]. }
    pose proof (rows_ok _ Hin) as Hok. destruct (row_ok_inv _ Hok) as (_ & _ & _ & He & Hp & _ & Ha).
    rewrite (classify_row _ _ Hok). split.
    + destruct (row_words r) as [|w words]; [done|]. apply Forall_cons in He as [[Hw1 Hw2] _].
      cbn. rewrite Hw2. destruct (str_eqb w _) eqn:E; [by apply str_eqb_spec in E|done].
    + right. split_and!; [|by apply readonly_options_row|by apply str_mem_spec].
      apply words_checked_spec; [done|]. by exists args.
Qed.

(** C18: What the read-only classifier admits, exactly. A command runs in parallel
    without being asked if and only if, Windows paths normalised and blanks trimmed, it
    is not empty, contains none of the shell's separators, redirections, expansions and
    globs, and its words are either a version or help call of the program itself or the
    words of a row of the table, literally and in lower case, followed by arguments of
    that row's grammar: its switches, its options each with a value that is no option,
    count shorthands where the row takes a count, and operands, anything being one
    behind [--]; a [gh] call has no argument in which the code's host check reads a host
    other than github.com (a URL, or a name with two slashes and a dot or colon before
    the first; [scp_repo_is_admitted] is a form it does not read). In particular no [env] or
    assignment prefix, path-spelled program, global [git] or [gh] option, or option
    outside the row is admitted. *)
Theorem readonly_command_spec c :
  let t := trim (normalize_windows_command_paths c) in
  is_parallel_readonly_command c = true
  <-> t <> [] /\ Forall (fun ch => ch ∉ parallel_metachars) t
      /\ (ghosty_call (shell_words t) \/ readonly_call (shell_words t)).
Proof.
  cbv zeta. unfold is_parallel_readonly_command. set (t := trim _).
  rewrite <- readonly_tokens_admitted_spec.
  assert (Hm : has_any parallel_metachars t = false <-> Forall (fun ch => ch ∉ parallel_metachars) t).
  { unfold has_any. rewrite <- not_true_iff_false, existsb_exists, Forall_forall. setoid_rewrite contains_char_spec.
    setoid_rewrite <- list_elem_of_In. naive_solver. }
  rewrite <- Hm. destruct t as [|ch t']; [naive_solver|]. cbn [str_is_empty].
  destruct (has_any parallel_metachars (ch :: t')); naive_solver.
Qed.

End Readonly.

(** ** Text filters *)

(** The text filters an agent may pipe through are judged by the same grammar. For
    each of the five, the arguments are admitted if and only if they are made of the
    filter's switches, its options each with a value that is no option, and no more
    operands than it can only read; there is no count shorthand. *)
Theorem text_filter_spec name switches values max args :
  (name, switches, values, max) ∈ text_filters_lit ->
  let sw := split_whitespace (lit switches) in
  let vals := split_whitespace (lit values) in
  agent_text_filter_options_match (lit name :: args) sw vals max = true
  <-> exists n, arguments sw vals false n args /\ within max n.
Proof.
  intros Hin sw vals. unfold agent_text_filter_options_match. cbn [drop].
  assert (Hsep : separated sw vals false).
  { intros t Ht. split; [|done]. revert t Ht. subst sw vals. apply Forall_forall.
    assert (Hall : forallb (fun r : string * string * string * option nat =>
      forallb (fun t => negb (str_mem (split_whitespace (lit r.1.1.2)) t)) (split_whitespace (lit r.1.2))) text_filters_lit = true)
      by (vm_compute; reflexivity).
    apply list_elem_of_In in Hin. apply (proj1 (forallb_forall _ _) Hall) in Hin. cbn [fst snd] in Hin.
    apply List.Forall_forall. intros t Ht. apply (proj1 (forallb_forall _ _) Hin) in Ht.
    by apply str_mem_false, negb_true_iff. }
  split.
  - intros Hf. apply (filter_loop_sound sw vals false) in Hf; [done|]. by destruct max; cbn; [lia|].
  - intros (n & Ha & Hw). by apply (filter_loop_complete _ _ false eq_refl _ n).
Qed.

(** Two options before one file are what [uniq] may be given. *)
Lemma text_filter_spec_witness :
  agent_text_filter_options_match [lit "uniq"; lit "-c"; lit "-f"; lit "1"; lit "notes.txt"]
    (split_whitespace (lit "-c -d -D -i -u -z --count --ignore-case --repeated --unique --zero-terminated"))
    (split_whitespace (lit "-f --skip-fields -s --skip-chars -w --check-chars")) (Some 1) = true.
Proof.
  refine (proj2 (text_filter_spec "uniq" "-c -d -D -i -u -z --count --ignore-case --repeated --unique --zero-terminated"
           "-f --skip-fields -s --skip-chars -w --check-chars" (Some 1)
           [lit "-c"; lit "-f"; lit "1"; lit "notes.txt"] _) _).
  - right. left.
  - exists 1. split; [|cbn; lia].
    apply (arguments_piece _ _ _ 0 1 [lit "-c"]);
      [apply piece_switch; [split_and!; [reflexivity|discriminate|discriminate]|apply str_mem_spec; vm_compute; reflexivity]|].
    apply (arguments_piece _ _ _ 0 1 [lit "-f"; lit "1"]);
      [apply piece_value; [split_and!; [reflexivity|discriminate|discriminate]|apply str_mem_spec; vm_compute; reflexivity|reflexivity]|].
    apply (arguments_piece _ _ _ 1 0 [lit "notes.txt"]); [apply piece_operand; left; reflexivity|constructor].
Defined.

(** The classifier at work, with the reference splitter. *)
Example readonly_examples :
  (fun c => @is_parallel_readonly_command posix_split (lit c)) <$>
    ["git log -n 5 --oneline"; "git -c core.pager=x log"; "PAGER=x git log"; "ls -la src"; "ls -Z"; "/bin/ls";
     "head -20 notes.txt"; "gh pr view 7 -R example.com/a/b"; "ghosty --version"]%string
  = [true; false; false; true; false; false; true; false; true].
Proof. vm_compute. reflexivity. Qed.

(** The repository of another host is admitted when it is written as [git@host:owner/repo],
    which has one slash. *)
Example scp_repo_is_admitted :
  @is_parallel_readonly_command posix_split (lit "gh pr view 7 -R git@ghe.example.com:a/b") = true
  /\ @is_parallel_readonly_command posix_split (lit "gh pr view 7 -R ghe.example.com/a/b") = false.
Proof. vm_compute. done. Qed.

End CommandGrammar.
