(* ===== verification/WgModel.v ===== *)
(** * The work graph's data (crates/tui/src/work_graph/ids.rs, model.rs, events.rs)

    Identifiers, nodes, edges, evidence, bounded containers, changes and receipts
    of the session's work ledger. The SHA-256 digest, the URL parser and the
    RFC 3339 parser are code of other packages and are parameters. *)

From stdpp Require Import base list option gmap strings.
From Stdlib Require Import Lia NArith ZArith.
From S2P Require Import Prelude RustStr ProviderRegistry Providers.

Module WgModel.
Import Providers.

(** ** Scalars and bounds *)

Abbreviation Ts := Z (only parsing).

Definition SCHEMA_VERSION : N := 1.
Definition HISTORY_CAP : nat := 256.
Definition ACTIVITY_CAP : nat := 256.
Definition SEEN_KEYS_CAP : nat := 1024.
Definition EVIDENCE_REFERENCE_MAX_LEN : nat := 512.

(** [u64] arithmetic of the release profile: addition wraps. *)
Definition u64_modulus : N := 18446744073709551616.
Definition u64_add (a b : N) : N := ((a + b) mod u64_modulus)%N.
Definition u64_saturating_add (a b : N) : N := N.min (a + b) (u64_modulus - 1).

(** ** Identifiers (ids.rs) *)

Abbreviation WorkNodeId := (list N) (only parsing).
Abbreviation WorkEdgeId := (list N) (only parsing).
Abbreviation ChangeId := (list N) (only parsing).
Abbreviation ProposalId := (list N) (only parsing).
Abbreviation BindingId := (list N) (only parsing).

(** The digest function: the package's SHA-256, printed as lower-case hex. *)
Class Digest : Type := sha256_hex : list N -> list N.

Definition unit_separator : list N := [31%N].

Definition derive_raw `{Digest} (prefix session_id discriminator : list N) : list N :=
  prefix ++ take 12 (sha256_hex (prefix ++ unit_separator ++ session_id ++ unit_separator ++ discriminator)).

Definition node_id_derive `{Digest} : list N -> list N -> WorkNodeId := derive_raw (lit "wn:").
Definition edge_id_derive `{Digest} : list N -> list N -> WorkEdgeId := derive_raw (lit "we:").
Definition change_id_derive `{Digest} : list N -> list N -> ChangeId := derive_raw (lit "ch:").
Definition proposal_id_derive `{Digest} : list N -> list N -> ProposalId := derive_raw (lit "pp:").
Definition binding_id_derive `{Digest} : list N -> list N -> BindingId := derive_raw (lit "bd:").

(** ** Reasoning effort (model.rs) *)

Inductive ReasoningEffortTier : Type :=
| Off | Low | Medium | High | Auto | Max
| ThinkingEnabledGranularityUnavailable
| Unavailable.

#[export] Instance ReasoningEffortTier_eq_dec : EqDecision ReasoningEffortTier.
Proof. solve_decision. Defined.

(** The single variant [ReasoningEffortChanged]. *)
Record WorkActivityEvent : Type := ReasoningEffortChanged {
  requested : ReasoningEffortTier;
  effective : ReasoningEffortTier;
  provider_kind : option ApiProvider;
  provider : list N;
  endpoint_identity : option (list N);
  model : option (list N);
  activity_ts : Ts;
  activity_operation : option WorkNodeId
}.

(** [Deserialize] after the wire shape has been read: an event that cannot prove
    its route never keeps a claimed effective tier. *)
Definition activity_from_wire (w : WorkActivityEvent) : WorkActivityEvent :=
  match provider_kind w, endpoint_identity w, model w with
  | Some _, Some _, Some _ => w
  | _, _, _ =>
      ReasoningEffortChanged (requested w) Unavailable (provider_kind w) (provider w)
        (endpoint_identity w) (model w) (activity_ts w) (activity_operation w)
  end.

Definition toggle_only (requested : ReasoningEffortTier) : ReasoningEffortTier :=
  match requested with
  | Off | Auto => requested
  | _ => ThinkingEnabledGranularityUnavailable
  end.

Definition constrained_effective_reasoning_for_route (requested : ReasoningEffortTier)
  (provider : ApiProvider) (endpoint_identity model : list N) : option ReasoningEffortTier :=
  if bool_decide (provider = Zai) then
    if negb (is_exact_zai_chat_route provider endpoint_identity) then Some Unavailable
    else if is_exact_zai_tiered_effort_route provider endpoint_identity model then
      Some (match requested with Low | Medium => High | other => other end)
    else if is_exact_known_zai_reasoning_route provider endpoint_identity model then
      Some (toggle_only requested)
    else Some Unavailable
  else if bool_decide (provider = Minimax) then
    if is_exact_minimax_m3_route provider endpoint_identity model then Some (toggle_only requested)
    else Some Unavailable
  else if bool_decide (provider = MinimaxAnthropic) then
    if is_exact_minimax_anthropic_m3_route provider endpoint_identity model
    then Some (toggle_only requested)
    else Some Unavailable
  else if bool_decide (provider = Custom) then Some Unavailable
  else if is_exact_kimi_code_k3_route provider endpoint_identity model then
    Some (match requested with Off => Low | other => other end)
  else if is_exact_direct_moonshot_k3_route provider endpoint_identity model then
    Some (match requested with Off => Low | Medium => High | other => other end)
  else None.

(** ** Kinds and states *)

Inductive NodeKind : Type :=
| Objective | PlanStep | Operation | Evidence | Blocker | Approval | RuntimeRef | LaneRef.

Inductive EdgeKind : Type :=
| Contains | DependsOn | Blocks | Produces | Verifies | RunsOn | RequiresApproval | Supersedes.

Inductive NodeState : Type :=
| Ready | Initializing | Active | Waiting | Blocked | Completed | Verified | Stale | Superseded
| Cancelled | Failed.

#[export] Instance NodeKind_eq_dec : EqDecision NodeKind.
Proof. solve_decision. Defined.
#[export] Instance EdgeKind_eq_dec : EqDecision EdgeKind.
Proof. solve_decision. Defined.
#[export] Instance NodeState_eq_dec : EqDecision NodeState.
Proof. solve_decision. Defined.

Definition is_terminal (s : NodeState) : bool :=
  match s with Verified | Superseded | Cancelled => true | _ => false end.

Definition is_live (s : NodeState) : bool :=
  match s with Initializing | Active | Waiting => true | _ => false end.

(** ** Evidence *)

Inductive EvidenceKindTag : Type :=
| TagToolRun | TagArtifact | TagTestSummary | TagReceipt | TagApproval | TagRoute | TagWebCitation.

#[export] Instance EvidenceKindTag_eq_dec : EqDecision EvidenceKindTag.
Proof. solve_decision. Defined.

Inductive EvidenceKind : Type :=
| ToolRun
| Artifact (digest : list N)
| TestSummary
| Receipt (owner : list N)
| EvApproval
| Route
| WebCitation (ref_id url retrieved_at : list N).

Definition tag (k : EvidenceKind) : EvidenceKindTag :=
  match k with
  | ToolRun => TagToolRun
  | Artifact _ => TagArtifact
  | TestSummary => TagTestSummary
  | Receipt _ => TagReceipt
  | EvApproval => TagApproval
  | Route => TagRoute
  | WebCitation _ _ _ => TagWebCitation
  end.

Inductive EvidenceRefError : Type :=
| EmptyReference
| ReferenceTooLong (len : nat)
| AbsolutePath
| HomeRelativePath
| ContainsWhitespaceOrControl
| LooksLikeKeyMaterial
| WebCitationReferenceMismatch
| InvalidWebCitationUrl
| InvalidWebCitationTimestamp.

Record EvidenceRef : Type := {
  ev_kind : EvidenceKind;
  reference : list N;
  raw_bytes : option N;
  truncated : bool
}.

(** What the code reads of a parsed URL. *)
Record Url : Type := {
  scheme : list N;
  host_str : option (list N);
  username : list N;
  password : option (list N);
  query_pairs : list (list N * list N)
}.

(** The URL and timestamp parsers of other packages. *)
Class Parsers : Type := {
  url_parse : list N -> option Url;
  parse_from_rfc3339 : list N -> bool
}.

Definition sensitive_query_names : list (list N) := lit <$> [
  "access_token"; "api_key"; "authorization"; "auth"; "credential"; "key"; "session"; "session_id";
  "sig"; "signature"; "token"; "x-amz-credential"; "x-amz-signature"; "x-goog-credential";
  "x-goog-signature"]%string.

Definition web_citation_url_has_sensitive_query (url : Url) : bool :=
  existsb (fun '(name, _) =>
    let name := to_ascii_lowercase name in
    existsb (str_eqb name) sensitive_query_names
    || ends_with (lit "_token") name || ends_with (lit "_key") name) (query_pairs url).

Definition citation_url_ok (url : Url) : bool :=
  (str_eqb (scheme url) (lit "http") || str_eqb (scheme url) (lit "https"))
  && match host_str url with Some _ => true | None => false end
  && (str_is_empty (username url) && match password url with None => true | Some _ => false end)
  && negb (web_citation_url_has_sensitive_query url).

(** [X:/] or [X:\]: a drive-absolute path. *)
Definition drive_absolute (r : list N) : bool :=
  match r with
  | a :: b :: c :: _ =>
      is_ascii_alphabetic a && (b =? 58)%N && ((c =? c_slash)%N || (c =? c_backslash)%N)
  | _ => false
  end.

Definition evidence_ref_new `{Parsers} (kind : EvidenceKind) (reference : list N)
  (raw_bytes : option N) (truncated : bool) : result EvidenceRef EvidenceRefError :=
  if str_is_empty reference then Err EmptyReference
  else if EVIDENCE_REFERENCE_MAX_LEN <? length reference then
    Err (ReferenceTooLong (length reference))
  else if starts_with_char c_slash reference || starts_with_char c_backslash reference
          || drive_absolute reference then Err AbsolutePath
  else if starts_with_char 126 reference then Err HomeRelativePath
  else if existsb (fun c => is_whitespace c || is_control c) reference then
    Err ContainsWhitespaceOrControl
  else if str_contains (lit "-----BEGIN") reference then Err LooksLikeKeyMaterial
  else
    let built := Ok {| ev_kind := kind; reference := reference; raw_bytes := raw_bytes;
                       truncated := truncated |} in
    match kind with
    | WebCitation ref_id url retrieved_at =>
        if negb (str_eqb ref_id reference) then Err WebCitationReferenceMismatch
        else
          match url_parse url with
          | Some parsed =>
              if negb (citation_url_ok parsed) then Err InvalidWebCitationUrl
              else if negb (parse_from_rfc3339 retrieved_at) then Err InvalidWebCitationTimestamp
              else built
          | None => Err InvalidWebCitationUrl
          end
    | _ => built
    end.

(** [TryFrom<EvidenceRefRaw>] and [Into<EvidenceRefRaw>]: the raw record has the
    fields of [EvidenceRef]. *)
Definition evidence_try_from `{Parsers} (raw : EvidenceRef) : result EvidenceRef EvidenceRefError :=
  evidence_ref_new (ev_kind raw) (reference raw) (raw_bytes raw) (truncated raw).

(** The single variant [EvidenceOfKind]. *)
Record AcceptanceRequirement : Type := EvidenceOfKind { required_kind : EvidenceKindTag }.

#[export] Instance AcceptanceRequirement_eq_dec : EqDecision AcceptanceRequirement.
Proof. solve_decision. Defined.

Definition is_satisfied_by (r : AcceptanceRequirement) (evidence : EvidenceRef) : bool :=
  bool_decide (tag (ev_kind evidence) = required_kind r).

Inductive Provenance : Type :=
| Import (source_digest : list N) (ordinal : option N)
| ToolUpdate (tool call_id : list N)
| RuntimeReconcile (source : list N) (observed_at : Ts)
| UserEdit (proposal_id : ProposalId).

(** ** Operations and their owners (events.rs) *)

Inductive OwnerState : Type :=
| OwnerInitializing | OwnerRunning | OwnerWaiting | OwnerCompleted | OwnerDegraded | OwnerFailed
| OwnerCancelled.

Inductive CancelOutcome : Type :=
| Requested | Acknowledged | Forced | AlreadyFinished | NotFound | StaleUnknown.

Record ObservationSummary : Type := {
  owner_state : OwnerState;
  obs_seq : N;
  observed_at : Ts;
  output : option EvidenceRef
}.

Record OperationBinding : Type := {
  external : list N;
  durable : bool;
  last_observation : option ObservationSummary
}.

Inductive OperationObservation : Type :=
| OwnerReported (state : OwnerState) (seq : N) (at_ : Ts) (output : option EvidenceRef)
| OwnerMissing (checked_at : Ts)
| CancelUpdate (outcome : CancelOutcome) (at_ : Ts).

Definition plain_identity (id : list N) : bool :=
  negb (str_is_empty id) && negb (existsb (fun c => is_whitespace c || is_control c) id).

Definition identity_prefixes : list (list N) :=
  lit <$> ["task:"; "shell:"; "worker:"; "workflow:"; "lane:"]%string.

Definition external_identity_is_well_formed (external : list N) : bool :=
  match strip_prefix (lit "fleet:") external with
  | Some rest =>
      match split_once c_slash rest with
      | Some (run, task) => plain_identity run && plain_identity task
      | None => false
      end
  | None =>
      existsb (fun prefix =>
        match strip_prefix prefix external with Some id => plain_identity id | None => false end)
        identity_prefixes
  end.

(** ** Nodes, edges and the legacy projection state *)

Record WorkNode : Type := {
  node_id : WorkNodeId;
  node_kind : NodeKind;
  title : list N;
  state : NodeState;
  acceptance : list AcceptanceRequirement;
  binding : option OperationBinding;
  evidence : option EvidenceRef;
  provenance : Provenance;
  created_at : Ts;
  updated_at : Ts
}.

Record WorkEdge : Type := {
  edge_id : WorkEdgeId;
  edge_kind : EdgeKind;
  from : WorkNodeId;
  to : WorkNodeId
}.

Record CompatPlanMetadata : Type := {
  plan_title : option (list N);
  objective : option (list N);
  context_summary : option (list N);
  explanation : option (list N);
  sources_used : list (list N);
  critical_files : list (list N);
  constraints : list (list N);
  recommended_approach : option (list N);
  verification_plan : option (list N);
  risks_and_unknowns : option (list N);
  handoff_packet : option (list N)
}.

Record CompatTodoBinding : Type := {
  legacy_id : N;
  todo_node : WorkNodeId;
  plan_index : option N
}.

Record CompatProjectionState : Type := {
  plan : CompatPlanMetadata;
  plan_order : list WorkNodeId;
  todos : list CompatTodoBinding
}.

Definition empty_plan_metadata : CompatPlanMetadata :=
  {| plan_title := None; objective := None; context_summary := None; explanation := None;
     sources_used := []; critical_files := []; constraints := []; recommended_approach := None;
     verification_plan := None; risks_and_unknowns := None; handoff_packet := None |}.

Definition empty_compat : CompatProjectionState :=
  {| plan := empty_plan_metadata; plan_order := []; todos := [] |}.

Definition is_none {A} (o : option A) : bool := match o with None => true | Some _ => false end.
Definition is_nil {A} (l : list A) : bool := match l with [] => true | _ => false end.

Definition plan_metadata_is_empty (m : CompatPlanMetadata) : bool :=
  is_none (plan_title m) && is_none (objective m) && is_none (context_summary m)
  && is_none (explanation m) && is_nil (sources_used m) && is_nil (critical_files m)
  && is_nil (constraints m) && is_none (recommended_approach m) && is_none (verification_plan m)
  && is_none (risks_and_unknowns m) && is_none (handoff_packet m).

Definition compat_is_empty (c : CompatProjectionState) : bool :=
  plan_metadata_is_empty (plan c) && is_nil (plan_order c) && is_nil (todos c).

(** ** Bounded containers *)

(** [BoundedVec::push_bounded]. *)
Definition push_bounded {A} (cap : nat) (items : list A) (item : A) : list A :=
  (if cap <=? length items then tl items else items) ++ [item].

(** [BoundedSet::insert]; the result says whether the item is new. *)
Definition bounded_insert {A} `{EqDecision A} (cap : nat) (items : list A) (item : A)
  : list A * bool :=
  if bool_decide (item ∈ items) then (items, false) else (push_bounded cap items item, true).

Record IdempotencyKey : Type := {
  key_binding : BindingId;
  key_seq : N
}.

#[export] Instance IdempotencyKey_eq_dec : EqDecision IdempotencyKey.
Proof. solve_decision. Defined.

(** ** Changes and receipts (events.rs) *)

Record WorkNodePatch : Type := {
  patch_title : option (list N);
  patch_state : option NodeState;
  patch_acceptance : option (list AcceptanceRequirement);
  patch_provenance : option Provenance
}.

Record ProposedNodeUpdate : Type := {
  update_id : WorkNodeId;
  update_patch : WorkNodePatch
}.

Record WorkGraphProposal : Type := {
  proposal_id : ProposalId;
  added_nodes : list WorkNode;
  added_edges : list WorkEdge;
  updated_nodes : list ProposedNodeUpdate;
  removed_nodes : list WorkNodeId;
  removed_edges : list WorkEdgeId;
  replacement_compat : option CompatProjectionState
}.

Record ApprovalRef : Type := { approval_reference : list N }.

Inductive WorkGraphChange : Type :=
| AddNode (node : WorkNode)
| UpdateNode (id : WorkNodeId) (patch : WorkNodePatch)
| AddEdge (edge : WorkEdge)
| RemoveEdge (id : WorkEdgeId)
| BindOperation (node : WorkNodeId) (binding : OperationBinding)
| ReconcileOperation (node : WorkNodeId) (obs : OperationObservation)
| AttachEvidence (node : WorkNodeId) (evidence : EvidenceRef)
| ProposePlanDiff (proposal : WorkGraphProposal)
| WithdrawPlanDiff (proposal_id : ProposalId)
| AcceptPlanDiff (proposal_id : ProposalId) (approval : ApprovalRef)
| Supersede (old replacement : WorkNodeId)
| ReplaceCompatProjection (compat : CompatProjectionState)
| SetImportDigest (digest : list N)
| RecordActivity (event : WorkActivityEvent).

Definition kind_name (c : WorkGraphChange) : list N :=
  lit match c with
  | AddNode _ => "add_node"
  | UpdateNode _ _ => "update_node"
  | AddEdge _ => "add_edge"
  | RemoveEdge _ => "remove_edge"
  | BindOperation _ _ => "bind_operation"
  | ReconcileOperation _ _ => "reconcile_operation"
  | AttachEvidence _ _ => "attach_evidence"
  | ProposePlanDiff _ => "propose_plan_diff"
  | WithdrawPlanDiff _ => "withdraw_plan_diff"
  | AcceptPlanDiff _ _ => "accept_plan_diff"
  | Supersede _ _ => "supersede"
  | ReplaceCompatProjection _ => "replace_compat_projection"
  | SetImportDigest _ => "set_import_digest"
  | RecordActivity _ => "record_activity"
  end.

Record ChangeCtx : Type := {
  session_id : list N;
  now : Ts;
  ctx_key : option IdempotencyKey
}.

Record ChangeReceipt : Type := {
  change_id : ChangeId;
  receipt_revision : N;
  summary : list N;
  applied_at : Ts;
  receipt_key : option IdempotencyKey;
  no_op : bool
}.

Definition receipt_of `{Digest} (change : WorkGraphChange) (revision : N) (ctx : ChangeCtx)
  : ChangeReceipt :=
  {| change_id := change_id_derive (session_id ctx)
       (lit "change:" ++ dec revision ++ lit ":" ++ kind_name change);
     receipt_revision := revision; summary := kind_name change; applied_at := now ctx;
     receipt_key := ctx_key ctx; no_op := false |}.

(** ** The snapshot *)

Record WorkGraphSnapshot : Type := {
  schema : N;
  revision : N;
  nodes : list WorkNode;
  edges : list WorkEdge;
  history : list ChangeReceipt;
  activities : list WorkActivityEvent;
  import_digest : option (list N);
  seen_keys : list IdempotencyKey;
  proposals : list WorkGraphProposal;
  compat : CompatProjectionState
}.

Definition snapshot_new : WorkGraphSnapshot :=
  {| schema := SCHEMA_VERSION; revision := 0; nodes := []; edges := []; history := [];
     activities := []; import_digest := None; seen_keys := []; proposals := [];
     compat := empty_compat |}.

Definition node (g : WorkGraphSnapshot) (id : WorkNodeId) : option WorkNode :=
  List.find (fun n => str_eqb (node_id n) id) (nodes g).

Definition edge (g : WorkGraphSnapshot) (id : WorkEdgeId) : option WorkEdge :=
  List.find (fun e => str_eqb (edge_id e) id) (edges g).

Definition node_is_done (n : WorkNode) : bool :=
  match state n with
  | Verified => true
  | Completed => is_nil (acceptance n)
  | _ => false
  end.

Definition snapshot_is_empty (g : WorkGraphSnapshot) : bool :=
  is_nil (nodes g) && is_nil (edges g) && is_nil (history g) && is_nil (activities g)
  && is_none (import_digest g) && is_nil (proposals g) && compat_is_empty (compat g).

(** Field updates. *)
Definition with_nodes (g : WorkGraphSnapshot) (ns : list WorkNode) : WorkGraphSnapshot :=
  {| schema := schema g; revision := revision g; nodes := ns; edges := edges g;
     history := history g; activities := activities g; import_digest := import_digest g;
     seen_keys := seen_keys g; proposals := proposals g; compat := compat g |}.
Definition with_edges (g : WorkGraphSnapshot) (es : list WorkEdge) : WorkGraphSnapshot :=
  {| schema := schema g; revision := revision g; nodes := nodes g; edges := es;
     history := history g; activities := activities g; import_digest := import_digest g;
     seen_keys := seen_keys g; proposals := proposals g; compat := compat g |}.
Definition with_activities (g : WorkGraphSnapshot) (a : list WorkActivityEvent) : WorkGraphSnapshot :=
  {| schema := schema g; revision := revision g; nodes := nodes g; edges := edges g;
     history := history g; activities := a; import_digest := import_digest g;
     seen_keys := seen_keys g; proposals := proposals g; compat := compat g |}.
Definition with_import_digest (g : WorkGraphSnapshot) (d : option (list N)) : WorkGraphSnapshot :=
  {| schema := schema g; revision := revision g; nodes := nodes g; edges := edges g;
     history := history g; activities := activities g; import_digest := d;
     seen_keys := seen_keys g; proposals := proposals g; compat := compat g |}.
Definition with_proposals (g : WorkGraphSnapshot) (ps : list WorkGraphProposal) : WorkGraphSnapshot :=
  {| schema := schema g; revision := revision g; nodes := nodes g; edges := edges g;
     history := history g; activities := activities g; import_digest := import_digest g;
     seen_keys := seen_keys g; proposals := ps; compat := compat g |}.
Definition with_compat (g : WorkGraphSnapshot) (c : CompatProjectionState) : WorkGraphSnapshot :=
  {| schema := schema g; revision := revision g; nodes := nodes g; edges := edges g;
     history := history g; activities := activities g; import_digest := import_digest g;
     seen_keys := seen_keys g; proposals := proposals g; compat := c |}.

(** The bookkeeping a successful change ends with. *)
Definition with_commit (g : WorkGraphSnapshot) (rev : N) (h : list ChangeReceipt)
  (ks : list IdempotencyKey) : WorkGraphSnapshot :=
  {| schema := schema g; revision := rev; nodes := nodes g; edges := edges g; history := h;
     activities := activities g; import_digest := import_digest g; seen_keys := ks;
     proposals := proposals g; compat := compat g |}.

End WgModel.
