(* ===== verification/WgValidate.v ===== *)
(** * Validation of work-graph snapshots (crates/tui/src/work_graph/validate.rs)

    [validate] collects every violation of the structural rules and of the
    invariants V1 to V8. The text of a violation is kept as the format string it
    is built from, a constructor of [Message], with its arguments. *)

From stdpp Require Import base list option gmap strings.
From Stdlib Require Import Lia NArith ZArith.
From S2P Require Import Prelude RustStr ProviderRegistry Providers WgModel.

Module WgValidate.
Import Providers WgModel.

Inductive ValidationCode : Type :=
| Structural | V1 | V2 | V3 | V4 | V5 | V6 | V7 | V8 | V9 | V10.

#[export] Instance ValidationCode_eq_dec : EqDecision ValidationCode.
Proof. solve_decision. Defined.

Inductive Message : Type :=
(* check_structural *)
| UnknownSchema (schema : N)
| DuplicateNodeId (id : WorkNodeId)
| EvidenceOnOtherKind (id : WorkNodeId)
| DuplicateEdgeId (id : WorkEdgeId)
| EdgeReferencesMissingNode (edge : WorkEdgeId) (endpoint : WorkNodeId)
| DuplicatePlanNode (id : WorkNodeId)
| PlanNodeNotPlanStep (id : WorkNodeId)
| PlanNodeMissing (id : WorkNodeId)
| InvalidTodoId (legacy_id : N)
| TodoNodeNotPlanStep (legacy_id : N) (node : WorkNodeId)
| TodoNodeMissing (legacy_id : N) (node : WorkNodeId)
| InvalidPlanAlias (legacy_id : N)
| SeveralActiveTodos
| ActivityTooLong (len : nat)
| RequestedNotSelectable
| ProviderNotBounded
| UnprovenEffective
| ProviderKindMismatch
| ImpossibleEffective
| GranularityNotValid
| ActivityNotOperation (operation : WorkNodeId)
| ActivityOperationMissing (operation : WorkNodeId)
(* check_v1 to check_v8 *)
| DependsOnCycle (id : WorkNodeId)
| LiveOperationUnrooted (id : WorkNodeId)
| BindingOnOtherKind (id : WorkNodeId)
| VerifiedWithoutAcceptance (id : WorkNodeId)
| VerifiedWithoutEvidence (id : WorkNodeId) (requirement : AcceptanceRequirement)
| BlockedWithoutCause (id : WorkNodeId)
| MalformedExternal (id : WorkNodeId) (external : list N)
| SharedExternal (external : list N) (previous id : WorkNodeId)
| ReferenceNotInert (id : WorkNodeId) (state : NodeState)
| HistoryTooLong (len : nat)
| HistoryNotIncreasing (prev revision : N)
| HistoryAhead (last revision : N)
(* the reducer *)
| NodeNotFound (id : WorkNodeId)
| EdgeNotFound (id : WorkEdgeId)
| ProposalNotFound (id : ProposalId)
| DuplicateNode (id : WorkNodeId)
| DuplicateEdge (id : WorkEdgeId)
| DuplicateProposal (id : ProposalId)
| TerminalNode (id : WorkNodeId) (current requested : NodeState)
| NoOperationBinding (id : WorkNodeId)
| SelfSupersede
| ReplacementNotFound (id : WorkNodeId)
| EmptyImportDigest
| ActivityOperationNotLive (id : WorkNodeId)
| NodeStillHasEdges (id : WorkNodeId).

Record Violation : Type := {
  code : ValidationCode;
  message : Message
}.

Record ValidationReport : Type := { violations : list Violation }.

Definition single (c : ValidationCode) (m : Message) : ValidationReport :=
  {| violations := [{| code := c; message := m |}] |}.

Definition contains_code (r : ValidationReport) (c : ValidationCode) : bool :=
  existsb (fun v => bool_decide (code v = c)) (violations r).

(** [out.push(Violation { .. })] when [b]. *)
Definition violation_if (b : bool) (c : ValidationCode) (m : Message) : list Violation :=
  if b then [{| code := c; message := m |}] else [].

(** ** Structural rules *)

Fixpoint check_nodes (node_ids : gset WorkNodeId) (ns : list WorkNode) : list Violation :=
  match ns with
  | [] => []
  | n :: ns' =>
      violation_if (bool_decide (node_id n ∈ node_ids)) Structural (DuplicateNodeId (node_id n))
      ++ violation_if (negb (is_none (evidence n)) && negb (bool_decide (node_kind n = Evidence)))
           Structural (EvidenceOnOtherKind (node_id n))
      ++ check_nodes ({[node_id n]} ∪ node_ids) ns'
  end.

Definition node_id_set (g : WorkGraphSnapshot) : gset WorkNodeId :=
  list_to_set (node_id <$> nodes g).

Fixpoint check_edges (node_ids : gset WorkNodeId) (edge_ids : gset WorkEdgeId) (es : list WorkEdge)
  : list Violation :=
  match es with
  | [] => []
  | e :: es' =>
      violation_if (bool_decide (edge_id e ∈ edge_ids)) Structural (DuplicateEdgeId (edge_id e))
      ++ ([from e; to e] ≫= fun endpoint =>
            violation_if (bool_decide (endpoint ∉ node_ids)) Structural
              (EdgeReferencesMissingNode (edge_id e) endpoint))
      ++ check_edges node_ids ({[edge_id e]} ∪ edge_ids) es'
  end.

Fixpoint check_plan_order (g : WorkGraphSnapshot) (plan_ids : gset WorkNodeId)
  (ids : list WorkNodeId) : list Violation :=
  match ids with
  | [] => []
  | id :: ids' =>
      violation_if (bool_decide (id ∈ plan_ids)) Structural (DuplicatePlanNode id)
      ++ match node g id with
         | Some n =>
             violation_if (negb (bool_decide (node_kind n = PlanStep))) Structural
               (PlanNodeNotPlanStep id)
         | None => violation_if true Structural (PlanNodeMissing id)
         end
      ++ check_plan_order g ({[id]} ∪ plan_ids) ids'
  end.

Fixpoint check_todos (g : WorkGraphSnapshot) (todo_ids : gset N) (active_todos : nat)
  (bs : list CompatTodoBinding) : list Violation :=
  match bs with
  | [] => violation_if (1 <? active_todos) Structural SeveralActiveTodos
  | b :: bs' =>
      violation_if ((legacy_id b =? 0)%N || bool_decide (legacy_id b ∈ todo_ids)) Structural
        (InvalidTodoId (legacy_id b))
      ++ match node g (todo_node b) with
         | Some n =>
             violation_if (negb (bool_decide (node_kind n = PlanStep))) Structural
               (TodoNodeNotPlanStep (legacy_id b) (todo_node b))
         | None => violation_if true Structural (TodoNodeMissing (legacy_id b) (todo_node b))
         end
      ++ match plan_index b with
         | Some index =>
             violation_if
               (negb (bool_decide (plan_order (compat g) !! N.to_nat index = Some (todo_node b))))
               Structural (InvalidPlanAlias (legacy_id b))
         | None => []
         end
      ++ check_todos g ({[legacy_id b]} ∪ todo_ids)
           (match node g (todo_node b) with
            | Some n => if bool_decide (state n = Active) then S active_todos else active_todos
            | None => active_todos
            end) bs'
  end.

Definition has_control (s : list N) : bool := existsb is_control s.

Definition provenance_is_bounded (a : WorkActivityEvent) : bool :=
  negb (is_none (provider_kind a))
  && match endpoint_identity a with
     | Some e => negb (str_is_empty e) && (length e <=? 512) && negb (has_control e)
     | None => false
     end
  && match model a with
     | Some m => negb (str_is_empty (trim m)) && (length m <=? 256) && negb (has_control m)
     | None => false
     end.

(** The constraint the recorded route puts on the effective tier. *)
Definition activity_constraint (a : WorkActivityEvent) (p : Providers.ApiProvider)
  : option ReasoningEffortTier :=
  match p with
  | Providers.Custom => Some Unavailable
  | _ => constrained_effective_reasoning_for_route (requested a) p
           (default [] (endpoint_identity a)) (default [] (model a))
  end.

Definition check_activity_operation (g : WorkGraphSnapshot) (a : WorkActivityEvent)
  : list Violation :=
  match activity_operation a with
  | Some operation =>
      match node g operation with
      | Some n =>
          violation_if (negb (bool_decide (node_kind n = Operation))) Structural
            (ActivityNotOperation operation)
      | None => violation_if true Structural (ActivityOperationMissing operation)
      end
  | None => []
  end.

(** The route part of one activity; [true] when the loop goes on to the operation
    check, [false] on its [continue]. *)
Definition check_activity_route (a : WorkActivityEvent) : list Violation * bool :=
  match provenance_is_bounded a, provider_kind a with
  | true, Some p =>
      if negb (bool_decide (p = Providers.Custom))
         && negb (bool_decide (Providers.as_str p = Some (provider a)))
      then (violation_if true Structural ProviderKindMismatch, false)
      else
        (match activity_constraint a p with
         | Some expected =>
             violation_if (negb (bool_decide (effective a = expected))) Structural ImpossibleEffective
         | None =>
             violation_if (bool_decide (effective a = ThinkingEnabledGranularityUnavailable))
               Structural GranularityNotValid
         end, true)
  | _, _ =>
      (violation_if (negb (bool_decide (effective a = Unavailable))) Structural UnprovenEffective, true)
  end.

Definition check_activity (g : WorkGraphSnapshot) (a : WorkActivityEvent) : list Violation :=
  violation_if
    (match requested a with ThinkingEnabledGranularityUnavailable | Unavailable => true | _ => false end)
    Structural RequestedNotSelectable
  ++ violation_if
       (str_is_empty (provider a) || (128 <? length (provider a))
        || existsb (fun c => is_whitespace c || is_control c) (provider a))
       Structural ProviderNotBounded
  ++ (check_activity_route a).1
  ++ (if (check_activity_route a).2 then check_activity_operation g a else []).

Definition check_structural (g : WorkGraphSnapshot) : list Violation :=
  violation_if (negb (schema g =? SCHEMA_VERSION)%N) Structural (UnknownSchema (schema g))
  ++ check_nodes ∅ (nodes g)
  ++ check_edges (node_id_set g) ∅ (edges g)
  ++ check_plan_order g ∅ (plan_order (compat g))
  ++ check_todos g ∅ 0 (todos (compat g))
  ++ violation_if (ACTIVITY_CAP <? length (activities g)) Structural
       (ActivityTooLong (length (activities g)))
  ++ (activities g ≫= check_activity g).

(** ** V1: depth-first search over the dependency edges *)

Definition adjacency_of (es : list WorkEdge) : gmap WorkNodeId (list WorkNodeId) :=
  foldl (fun adj e =>
    if bool_decide (edge_kind e = DependsOn)
    then <[from e := default [] (adj !! from e) ++ [to e]]> adj
    else adj) ∅ es.

Record dfs_state : Type := {
  done : gset WorkNodeId;
  in_progress : gset WorkNodeId
}.

(** [Iterator::all] over the successors: stops at the first [false]. [None] is an
    exhausted recursion budget. *)
Fixpoint all_visit (visit : WorkNodeId -> dfs_state -> option (bool * dfs_state))
  (l : list WorkNodeId) (st : dfs_state) : option (bool * dfs_state) :=
  match l with
  | [] => Some (true, st)
  | n :: l' =>
      match visit n st with
      | Some (true, st') => all_visit visit l' st'
      | r => r
      end
  end.

Fixpoint visit (adj : gmap WorkNodeId (list WorkNodeId)) (fuel : nat) (n : WorkNodeId)
  (st : dfs_state) : option (bool * dfs_state) :=
  match fuel with
  | 0 => None
  | S fuel' =>
      if bool_decide (n ∈ done st) then Some (true, st)
      else if bool_decide (n ∈ in_progress st) then Some (false, st)
      else
        let entered := {| done := done st; in_progress := {[n]} ∪ in_progress st |} in
        match match adj !! n with
              | Some next => all_visit (visit adj fuel') next entered
              | None => Some (true, entered)
              end with
        | Some (acyclic, st') =>
            Some (acyclic, {| done := {[n]} ∪ done st'; in_progress := in_progress st' ∖ {[n]} |})
        | None => None
        end
  end.

(** A recursion enters a node not yet in progress, and every node it enters but
    the first is the target of an edge. *)
Definition dfs_fuel (es : list WorkEdge) : nat := length es + 2.

Fixpoint check_v1_from (adj : gmap WorkNodeId (list WorkNodeId)) (fuel : nat) (ns : list WorkNode)
  (st : dfs_state) : list Violation :=
  match ns with
  | [] => []
  | n :: ns' =>
      match visit adj fuel (node_id n) st with
      | Some (true, st') => check_v1_from adj fuel ns' st'
      | _ => violation_if true V1 (DependsOnCycle (node_id n))
      end
  end.

Definition check_v1_depends_on_acyclic (g : WorkGraphSnapshot) : list Violation :=
  check_v1_from (adjacency_of (edges g)) (dfs_fuel (edges g)) (nodes g)
    {| done := ∅; in_progress := ∅ |}.

(** ** V2: ancestry of live operations *)

Definition is_root_kind (k : NodeKind) : bool :=
  match k with Objective | PlanStep => true | _ => false end.

(** The scan of the edges for one node: the parents pushed, and whether one of
    them is a root. *)
Definition parents_of (g : WorkGraphSnapshot) (current : WorkNodeId) : list WorkNode :=
  edges g ≫= fun e =>
    if bool_decide (edge_kind e = Contains) && str_eqb (to e) current
    then match node g (from e) with Some p => [p] | None => [] end
    else [].

(** The frontier is a stack, kept top first: the last parent pushed is popped next. *)
Fixpoint ancestry (g : WorkGraphSnapshot) (fuel : nat) (visited : gset WorkNodeId)
  (frontier : list WorkNodeId) : option bool :=
  match fuel with
  | 0 => None
  | S fuel' =>
      match frontier with
      | [] => Some false
      | current :: rest =>
          if bool_decide (current ∈ visited) then ancestry g fuel' visited rest
          else
            let parents := parents_of g current in
            if existsb (fun p => is_root_kind (node_kind p)) parents then Some true
            else ancestry g fuel' ({[current]} ∪ visited) (reverse (node_id <$> parents) ++ rest)
      end
  end.

(** Every pop after the first was pushed for one edge, and an edge pushes once. *)
Definition ancestry_fuel (g : WorkGraphSnapshot) : nat := length (edges g) + 2.

Definition rooted (g : WorkGraphSnapshot) (id : WorkNodeId) : bool :=
  match ancestry g (ancestry_fuel g) ∅ [id] with Some b => b | None => false end.

Definition check_v2_live_operations_rooted (g : WorkGraphSnapshot) : list Violation :=
  nodes g ≫= fun n =>
    if negb (bool_decide (node_kind n = Operation) && is_live (state n)) then []
    else violation_if (negb (rooted g (node_id n))) V2 (LiveOperationUnrooted (node_id n)).

(** ** V3 to V8 *)

Definition check_v3_binding_only_on_operations (g : WorkGraphSnapshot) : list Violation :=
  nodes g ≫= fun n =>
    violation_if (negb (is_none (binding n)) && negb (bool_decide (node_kind n = Operation)))
      V3 (BindingOnOtherKind (node_id n)).

Definition evidence_nodes (g : WorkGraphSnapshot) (id : WorkNodeId) : list WorkNode :=
  List.filter (fun n => bool_decide (node_kind n = Evidence))
    (omap (fun e => node g (from e))
      (List.filter (fun e => bool_decide (edge_kind e = Verifies) && str_eqb (to e) id) (edges g))).

Definition requirement_satisfied (g : WorkGraphSnapshot) (id : WorkNodeId)
  (r : AcceptanceRequirement) : bool :=
  existsb (fun ev => match evidence ev with Some payload => is_satisfied_by r payload | None => false end)
    (evidence_nodes g id).

Definition check_v4_verified_requires_evidence (g : WorkGraphSnapshot) : list Violation :=
  nodes g ≫= fun n =>
    if negb (bool_decide (state n = Verified)) then []
    else if is_nil (acceptance n) then violation_if true V4 (VerifiedWithoutAcceptance (node_id n))
    else acceptance n ≫= fun r =>
      violation_if (negb (requirement_satisfied g (node_id n) r)) V4
        (VerifiedWithoutEvidence (node_id n) r).

Definition not_done (g : WorkGraphSnapshot) (id : WorkNodeId) : bool :=
  match node g id with Some n => negb (node_is_done n) | None => false end.

Definition has_cause (g : WorkGraphSnapshot) (id : WorkNodeId) : bool :=
  existsb (fun e => bool_decide (edge_kind e = Blocks) && str_eqb (to e) id) (edges g)
  || existsb (fun e => bool_decide (edge_kind e = DependsOn) && str_eqb (from e) id
                       && not_done g (to e)) (edges g)
  || existsb (fun e => bool_decide (edge_kind e = RequiresApproval) && str_eqb (from e) id
                       && not_done g (to e)) (edges g).

Definition check_v5_blocked_has_cause (g : WorkGraphSnapshot) : list Violation :=
  nodes g ≫= fun n =>
    if negb (bool_decide (state n = Blocked)) then []
    else violation_if (negb (has_cause g (node_id n))) V5 (BlockedWithoutCause (node_id n)).

Fixpoint check_v6_from (seen : gmap (list N) WorkNodeId) (ns : list WorkNode) : list Violation :=
  match ns with
  | [] => []
  | n :: ns' =>
      match binding n with
      | None => check_v6_from seen ns'
      | Some b =>
          violation_if (negb (external_identity_is_well_formed (external b))) V6
            (MalformedExternal (node_id n) (external b))
          ++ match seen !! external b with
             | Some previous => violation_if true V6 (SharedExternal (external b) previous (node_id n))
             | None => []
             end
          ++ check_v6_from (<[external b := node_id n]> seen) ns'
      end
  end.

Definition check_v6_binding_identity (g : WorkGraphSnapshot) : list Violation :=
  check_v6_from ∅ (nodes g).

Definition check_v7_refs_inert (g : WorkGraphSnapshot) : list Violation :=
  nodes g ≫= fun n =>
    violation_if
      (match node_kind n with RuntimeRef | LaneRef => true | _ => false end
       && negb (bool_decide (state n = Ready)))
      V7 (ReferenceNotInert (node_id n) (state n)).

Fixpoint check_increasing (previous : option N) (h : list ChangeReceipt) : list Violation :=
  match h with
  | [] => []
  | r :: h' =>
      match previous with
      | Some prev =>
          if (receipt_revision r <=? prev)%N
          then violation_if true V8 (HistoryNotIncreasing prev (receipt_revision r))
          else check_increasing (Some (receipt_revision r)) h'
      | None => check_increasing (Some (receipt_revision r)) h'
      end
  end.

Definition check_v8_history_bounded_monotonic (g : WorkGraphSnapshot) : list Violation :=
  violation_if (HISTORY_CAP <? length (history g)) V8 (HistoryTooLong (length (history g)))
  ++ check_increasing None (history g)
  ++ match last (history g) with
     | Some r =>
         violation_if (u64_saturating_add (revision g) 1 <? receipt_revision r)%N V8
           (HistoryAhead (receipt_revision r) (revision g))
     | None => []
     end.

Definition all_violations (g : WorkGraphSnapshot) : list Violation :=
  check_structural g ++ check_v1_depends_on_acyclic g ++ check_v2_live_operations_rooted g
  ++ check_v3_binding_only_on_operations g ++ check_v4_verified_requires_evidence g
  ++ check_v5_blocked_has_cause g ++ check_v6_binding_identity g ++ check_v7_refs_inert g
  ++ check_v8_history_bounded_monotonic g.

Definition validate (g : WorkGraphSnapshot) : result unit ValidationReport :=
  match all_violations g with
  | [] => Ok tt
  | vs => Err {| violations := vs |}
  end.

End WgValidate.
