(* ===== verification/WgSearch.v ===== *)
(** * Correctness of the two graph searches of validation

    The depth-first search of V1 decides acyclicity of the dependency relation,
    and the ancestry walk of V2 decides whether a chain of containers leads to an
    objective or a plan step. Both terminate within the fuel they are given. *)

From stdpp Require Import base list option gmap strings relations.
From Stdlib Require Import Lia NArith.
From S2P Require Import Prelude RustStr WgModel WgValidate.

Module WgSearch.
Import WgModel WgValidate.

(** ** Dependencies *)

(** [depends es a b]: a [DependsOn] edge leads from [a] to [b]. *)
Definition depends (es : list WorkEdge) (a b : WorkNodeId) : Prop :=
  exists e, e ∈ es /\ edge_kind e = DependsOn /\ from e = a /\ to e = b.

Definition dependency_targets (es : list WorkEdge) (a : WorkNodeId) : list WorkNodeId :=
  to <$> filter (fun e => edge_kind e = DependsOn /\ from e = a) es.

Lemma elem_of_dependency_targets es a b : b ∈ dependency_targets es a <-> depends es a b.
Proof.
  unfold dependency_targets, depends. rewrite list_elem_of_fmap. setoid_rewrite list_elem_of_filter.
  naive_solver.
Qed.

(** The adjacency map holds the targets of each source, in edge order. *)
Lemma adjacency_lookup es a :
  default [] (adjacency_of es !! a) = dependency_targets es a.
Proof.
  unfold adjacency_of, dependency_targets.
  induction es as [|e es IH] using rev_ind; [done|].
  rewrite foldl_app, filter_app, fmap_app, <-IH. cbn [foldl]. case_bool_decide as Hk.
  - destruct (decide (from e = a)) as [<-|Hn].
    + rewrite lookup_insert_eq, filter_cons_True by done. done.
    + rewrite lookup_insert_ne, filter_cons_False by naive_solver. by rewrite filter_nil, app_nil_r.
  - rewrite filter_cons_False by naive_solver. by rewrite filter_nil, app_nil_r.
Qed.

Section Dfs.
Context (es : list WorkEdge).
Local Abbreviation adj := (adjacency_of es).
Local Abbreviation dep := (depends es).

(** No infinite chain of dependencies starts at the node. *)
Definition grounded (n : WorkNodeId) : Prop := Acc (fun b a => dep a b) n.

Lemma grounded_no_cycle n : grounded n -> ~ tc dep n n.
Proof.
  induction 1 as [n _ IH]. intros H. inversion H as [? ? H1|? m ? H1 H2]; subst.
  - by apply (IH n).
  - apply (IH m); [done|]. eapply tc_r; eauto.
Qed.

(** What a search that returned [b] from state [st] guarantees. *)
Definition visit_post (n : WorkNodeId) (st : dfs_state) (r : bool * dfs_state) : Prop :=
  in_progress r.2 = in_progress st /\ done st ⊆ done r.2
  /\ if r.1
     then n ∈ done r.2 /\ ((forall d, d ∈ done st -> grounded d) -> forall d, d ∈ done r.2 -> grounded d)
     else (forall p, p ∈ in_progress st -> tc dep p n) -> exists m, rtc dep n m /\ tc dep m m.

Lemma all_visit_post visitf l st r :
  (forall n st r, n ∈ l -> visitf n st = Some r -> visit_post n st r) ->
  all_visit visitf l st = Some r ->
  in_progress r.2 = in_progress st /\ done st ⊆ done r.2
  /\ if r.1
     then (forall n, n ∈ l -> n ∈ done r.2)
          /\ ((forall d, d ∈ done st -> grounded d) -> forall d, d ∈ done r.2 -> grounded d)
     else exists n, n ∈ l /\
          ((forall p, p ∈ in_progress st -> tc dep p n) -> exists m, rtc dep n m /\ tc dep m m).
Proof.
  revert st. induction l as [|n l IH]; intros st Hv; cbn [all_visit].
  { intros [= <-]. cbn [fst snd]. split; [done|]. split; [done|]. split; [|done].
    intros n Hn. by apply not_elem_of_nil in Hn. }
  destruct (visitf n st) as [[b st']|] eqn:E; [|done].
  assert (n ∈ n :: l) as Hn by left.
  destruct (Hv _ _ _ Hn E) as (Hp & Hd & Hb). cbn [fst snd] in *. destruct b.
  - intros Hr. destruct (IH st') as (Hp' & Hd' & Hb'); [|done|].
    { intros m st0 r0 Hm. apply Hv. by right. }
    split_and!; [congruence|set_solver|]. destruct Hb as [Hn1 Hn2]. destruct (r.1).
    + destruct Hb' as [H1 H2]. split; [|auto]. intros m [->|Hm]%elem_of_cons; [set_solver|auto].
    + destruct Hb' as (m & Hm & H1). exists m. split; [by right|]. rewrite <-Hp. done.
  - intros [= <-]. cbn [fst snd]. split_and!; [done..|]. exists n. split; [left|]. done.
Qed.

Lemma visit_correct fuel n st r : visit adj fuel n st = Some r -> visit_post n st r.
Proof.
  revert n st r. induction fuel as [|fuel IH]; intros n st r; cbn [visit]; [done|].
  case_bool_decide as Hdone.
  { intros [= <-]. unfold visit_post. cbn [fst snd]. split_and!; done. }
  case_bool_decide as Hprog.
  { intros [= <-]. unfold visit_post. cbn [fst snd]. split_and!; [done..|].
    intros H. exists n. split; [done|]. by apply H. }
  set (entered := {| done := done st; in_progress := {[n]} ∪ in_progress st |}).
  assert (forall l b st', match l with
      | Some next => all_visit (visit adj fuel) next entered
      | None => Some (true, entered) end = Some (b, st') ->
      all_visit (visit adj fuel) (default [] l) entered = Some (b, st')) as Hdef by by intros [].
  destruct (match adj !! n with Some _ => _ | None => _ end) as [[b st']|] eqn:E; [|done].
  apply Hdef in E. rewrite adjacency_lookup in E. intros [= <-].
  destruct (all_visit_post _ _ _ _ (fun m s q _ => IH m s q) E) as (Hp & Hd & Hb).
  unfold visit_post. cbn [fst snd done in_progress] in *. split_and!.
  - rewrite Hp. set_solver.
  - set_solver.
  - destruct b.
    + destruct Hb as [H1 H2]. split; [set_solver|]. intros Hg d [Hd1|Hd1]%elem_of_union; [|by auto].
      apply elem_of_singleton in Hd1 as ->. constructor. intros m Hm. apply H2; [done|].
      apply H1. by apply elem_of_dependency_targets.
    + destruct Hb as (m & Hm & Hc). intros Hpath. apply elem_of_dependency_targets in Hm.
      destruct Hc as (c & Hc1 & Hc2).
      { intros p [->%elem_of_singleton|Hp1]%elem_of_union; [by apply tc_once|].
        eapply tc_r; [by apply Hpath|done]. }
      exists c. split; [|done]. eapply rtc_l; eauto.
Qed.

(** Every node a recursion enters is the first one or the target of an edge. *)
Definition targets : gset WorkNodeId := list_to_set (to <$> es).

Lemma size_targets : size targets <= length es.
Proof.
  unfold targets. induction es as [|e l IH]; [done|]. rewrite fmap_cons. cbn [list_to_set length].
  rewrite size_union_alt, size_singleton.
  assert (size (list_to_set (to <$> l) ∖ {[to e]} : gset WorkNodeId)
          <= size (list_to_set (to <$> l) : gset WorkNodeId)) by (apply subseteq_size; set_solver).
  lia.
Qed.

Lemma visit_total fuel n st :
  size (({[n]} ∪ targets) ∖ in_progress st) < fuel -> is_Some (visit adj fuel n st).
Proof.
  revert n st. induction fuel as [|fuel IH]; intros n st Hf; [lia|]. cbn [visit].
  case_bool_decide; [by eexists|]. case_bool_decide as Hprog; [by eexists|].
  set (entered := {| done := done st; in_progress := {[n]} ∪ in_progress st |}).
  assert (forall l s, (forall m, m ∈ l -> m ∈ targets) ->
    in_progress s = in_progress entered -> is_Some (all_visit (visit adj fuel) l s)) as Hall.
  { induction l as [|m l IHl]; intros s Hl Hs; cbn [all_visit]; [by eexists|].
    destruct (IH m s) as [[b s'] Hb].
    { rewrite Hs. cbn [in_progress entered].
      assert (({[m]} ∪ targets) ∖ ({[n]} ∪ in_progress st) ⊂
              ({[n]} ∪ targets) ∖ in_progress st) as Hsub.
      { assert (m ∈ targets) as Hm by (apply Hl; left). clear -Hm Hprog. split.
        - intros x [[->%elem_of_singleton|Hx]%elem_of_union Hx']%elem_of_difference; set_solver.
        - intros Hsub. assert (n ∈ ({[n]} ∪ targets) ∖ in_progress st) as Hn by set_solver.
          apply Hsub in Hn. set_solver. }
      apply subset_size in Hsub. lia. }
    rewrite Hb. destruct b; [|by eexists]. apply IHl; [set_solver|].
    apply visit_correct in Hb as (Hp & _). cbn [snd] in Hp. by rewrite Hp. }
  assert (is_Some (match adj !! n with
      | Some next => all_visit (visit adj fuel) next entered
      | None => Some (true, entered) end)) as [[b s'] ->]; [|by eexists].
  destruct (adj !! n) as [next|] eqn:E; [|by eexists]. apply Hall; [|done].
  intros m Hm. assert (m ∈ dependency_targets es n) as (e & He & _ & _ & <-)%elem_of_dependency_targets.
  { rewrite <-adjacency_lookup, E. done. }
  unfold targets. rewrite elem_of_list_to_set. by apply list_elem_of_fmap_2.
Qed.

Lemma visit_fuel n st : is_Some (visit adj (dfs_fuel es) n st).
Proof.
  apply visit_total. unfold dfs_fuel. pose proof size_targets.
  assert (size (({[n]} ∪ targets) ∖ in_progress st) <= size ({[n]} ∪ targets)) as H1
    by (apply subseteq_size; set_solver).
  assert (size ({[n]} ∪ targets) <= size ({[n]} : gset WorkNodeId) + size targets) as H2.
  { rewrite size_union_alt. assert (size (targets ∖ {[n]}) <= size targets)
      by (apply subseteq_size; set_solver). lia. }
  rewrite size_singleton in H2. lia.
Qed.

Lemma check_v1_from_spec ns st :
  in_progress st = ∅ -> (forall d, d ∈ done st -> grounded d) ->
  check_v1_from adj (dfs_fuel es) ns st = []
    <-> forall n, n ∈ node_id <$> ns -> ~ exists m, rtc dep n m /\ tc dep m m.
Proof.
  revert st. induction ns as [|n ns IH]; intros st Hp Hg; cbn [check_v1_from].
  { split; [|done]. intros _ n Hn. by apply not_elem_of_nil in Hn. }
  destruct (visit_fuel (node_id n) st) as [[b st'] E]. rewrite E.
  destruct (visit_correct _ _ _ _ E) as (Hp' & Hd & Hb). cbn [fst snd] in *. destruct b.
  - destruct Hb as [Hn Hg']. rewrite IH by (try congruence; auto).
    rewrite fmap_cons. setoid_rewrite elem_of_cons. split; [|auto].
    intros H m [->|Hm]; [|auto]. intros (c & Hc1 & Hc2).
    assert (grounded c) as Hgc; [|by apply (grounded_no_cycle c)].
    specialize (Hg' Hg _ Hn). clear -Hc1 Hg'.
    induction Hc1 as [|x y z Hxy _ IH]; [done|]. apply IH. by apply (Acc_inv Hg').
  - split; [done|]. intros H. exfalso. apply (H (node_id n)); [by left|].
    apply Hb. rewrite Hp. intros p Hq. set_solver.
Qed.

End Dfs.

(** V1 accepts exactly the snapshots in which no dependency cycle can be reached
    from a node. *)
Lemma check_v1_spec g :
  check_v1_depends_on_acyclic g = []
  <-> forall n, n ∈ nodes g -> ~ exists m, rtc (depends (edges g)) (node_id n) m /\ tc (depends (edges g)) m m.
Proof.
  unfold check_v1_depends_on_acyclic. rewrite check_v1_from_spec; [|done|set_solver].
  setoid_rewrite list_elem_of_fmap. naive_solver.
Qed.

(** ** Containment *)

(** [contained_in g a p]: a [Contains] edge of a node [p] of the graph leads to [a]. *)
Definition contained_in (g : WorkGraphSnapshot) (a : WorkNodeId) (p : WorkNode) : Prop :=
  exists e, e ∈ edges g /\ edge_kind e = Contains /\ to e = a /\ node g (from e) = Some p.

(** A chain of containers leads from the node to an objective or a plan step. *)
Inductive has_root (g : WorkGraphSnapshot) : WorkNodeId -> Prop :=
| has_root_here a p :
    contained_in g a p -> is_root_kind (node_kind p) = true -> has_root g a
| has_root_up a p :
    contained_in g a p -> has_root g (node_id p) -> has_root g a.

Lemma elem_of_parents_of g a p : p ∈ parents_of g a <-> contained_in g a p.
Proof.
  unfold parents_of, contained_in. rewrite list_elem_of_bind. split.
  - intros (e & Hp & He). exists e.
    destruct (bool_decide (edge_kind e = Contains) && str_eqb (to e) a) eqn:E;
      [|by apply not_elem_of_nil in Hp].
    apply andb_true_iff in E as [E1%bool_decide_eq_true E2%str_eqb_spec].
    destruct (node g (from e)) as [q|]; [|by apply not_elem_of_nil in Hp].
    apply list_elem_of_singleton in Hp as ->. done.
  - intros (e & He & Hk & Ht & Hn). exists e. split; [|done].
    rewrite (bool_decide_eq_true_2 _ Hk), (proj2 (str_eqb_spec _ _) Ht), Hn. left.
Qed.

Section Ancestry.
Context (g : WorkGraphSnapshot).

Lemma ancestry_sound fuel visited frontier :
  ancestry g fuel visited frontier = Some true -> exists a, a ∈ frontier /\ has_root g a.
Proof.
  revert visited frontier. induction fuel as [|fuel IH]; intros visited frontier; cbn [ancestry]; [done|].
  destruct frontier as [|a rest]; [done|]. case_bool_decide.
  { intros H'. destruct (IH _ _ H') as (b & Hb & Hr). exists b. split; [by right|done]. }
  destruct (existsb _ (parents_of g a)) eqn:E.
  - intros _. exists a. split; [left|]. apply existsb_elem_of in E as (p & Hp & Hk).
    apply elem_of_parents_of in Hp. by eapply has_root_here.
  - intros H'. destruct (IH _ _ H') as (b & [Hb|Hb]%elem_of_app & Hr).
    + rewrite elem_of_reverse in Hb. apply list_elem_of_fmap in Hb as (p & -> & Hp).
      exists a. split; [left|]. apply elem_of_parents_of in Hp. by eapply has_root_up.
    + exists b. split; [by right|done].
Qed.

(** The visited nodes have no root parent, and their parents are visited or wait
    in the frontier. *)
Definition explored (visited : gset WorkNodeId) (frontier : list WorkNodeId) : Prop :=
  forall a p, a ∈ visited -> contained_in g a p ->
    is_root_kind (node_kind p) = false /\ (node_id p ∈ visited \/ node_id p ∈ frontier).

Lemma ancestry_complete fuel visited frontier :
  explored visited frontier -> ancestry g fuel visited frontier = Some false ->
  forall a, a ∈ visited \/ a ∈ frontier -> ~ has_root g a.
Proof.
  revert visited frontier. induction fuel as [|fuel IH]; intros visited frontier He; cbn [ancestry]; [done|].
  destruct frontier as [|a rest].
  { intros _ b [Hb|Hb]; [|by apply not_elem_of_nil in Hb]. intros Hr. revert Hb.
    induction Hr as [b p Hc Hk|b p Hc _ IHr]; intros Hb.
    - destruct (He b p Hb Hc) as [Hk' _]. congruence.
    - destruct (He b p Hb Hc) as [_ [Hv|Hv]]; [by apply IHr|by apply not_elem_of_nil in Hv]. }
  case_bool_decide as Hv.
  { intros H' b Hb. eapply IH; [|exact H'|set_solver].
    intros c p Hc Hp. destruct (He c p Hc Hp) as [? [?|[->|?]%elem_of_cons]]; auto. }
  destruct (existsb _ (parents_of g a)) eqn:E; [done|]. intros H' b Hb.
  eapply IH; [|exact H'|].
  - intros c p [->%elem_of_singleton|Hc]%elem_of_union Hp.
    + apply elem_of_parents_of in Hp. split.
      * destruct (is_root_kind (node_kind p)) eqn:Ek; [|done]. exfalso.
        apply not_true_iff_false in E. apply E, existsb_elem_of. eauto.
      * right. apply elem_of_app. left. apply elem_of_reverse. by apply list_elem_of_fmap_2.
    + destruct (He c p Hc Hp) as [Hk [Hq|[->|Hq]%elem_of_cons]]; (split; [done|]); set_solver.
  - set_solver.
Qed.

(** The edges that can still push a parent. *)
Definition pending (visited : gset WorkNodeId) : nat :=
  length (filter (fun e => to e ∉ visited) (edges g)).

Lemma parents_pending a visited :
  a ∉ visited -> length (parents_of g a) + pending ({[a]} ∪ visited) <= pending visited.
Proof.
  intros Ha. unfold parents_of, pending. induction (edges g) as [|e es IH]; [done|].
  cbn [mbind list_bind]. rewrite length_app, !filter_cons.
  destruct (bool_decide (edge_kind e = Contains) && str_eqb (to e) a) eqn:E.
  - apply andb_true_iff in E as [_ Et%str_eqb_spec].
    rewrite decide_False by set_solver. rewrite decide_True by (by rewrite Et).
    destruct (node g (from e)); cbn [length]; lia.
  - destruct (decide (to e ∉ {[a]} ∪ visited)) as [H1|H1], (decide (to e ∉ visited)) as [H2|H2];
      cbn [length]; try lia. exfalso. set_solver.
Qed.

Lemma ancestry_total fuel visited frontier :
  length frontier + pending visited < fuel -> is_Some (ancestry g fuel visited frontier).
Proof.
  revert visited frontier. induction fuel as [|fuel IH]; intros visited frontier Hf; [lia|].
  cbn [ancestry]. destruct frontier as [|a rest]; [by eexists|]. cbn [length] in Hf.
  case_bool_decide as Hv; [apply IH; lia|]. destruct (existsb _ _); [by eexists|].
  apply IH. pose proof (parents_pending a visited Hv) as Hp.
  rewrite length_app, length_reverse, length_fmap. lia.
Qed.

End Ancestry.

(** The ancestry walk decides [has_root]. *)
Lemma rooted_spec g id : rooted g id = true <-> has_root g id.
Proof.
  unfold rooted. destruct (ancestry_total g (ancestry_fuel g) ∅ [id]) as [b Hb].
  { assert (pending g ∅ <= length (edges g)) by apply length_filter.
    unfold ancestry_fuel. cbn [length]. lia. }
  rewrite Hb. destruct b.
  - split; [|done]. intros _. destruct (ancestry_sound _ _ _ _ Hb) as (a & Ha & Hr).
    by apply list_elem_of_singleton in Ha as ->.
  - split; [done|]. intros Hr. exfalso.
    apply (ancestry_complete g _ _ _ (fun a p Ha => match not_elem_of_empty a Ha with end) Hb id);
      [|done]. right. left.
Qed.

End WgSearch.
