(* ===== verification/WgSpec.v ===== *)
(** * What a valid work graph is

    The invariants of validate.rs as propositions, and the theorem that
    [WgValidate.validate] decides them. *)

From stdpp Require Import base list option gmap strings relations sorting.
From Stdlib Require Import Lia NArith.
From S2P Require Import Prelude RustStr Providers WgModel WgValidate WgSearch.

Module WgSpec.
Import Providers WgModel WgValidate WgSearch.

(** ** The invariants *)

Record structurally_sound (g : WorkGraphSnapshot) : Prop := {
  sound_schema : schema g = SCHEMA_VERSION;
  sound_node_ids : NoDup (node_id <$> nodes g);
  sound_evidence : forall n, n ∈ nodes g -> evidence n <> None -> node_kind n = Evidence;
  sound_edge_ids : NoDup (edge_id <$> edges g);
  sound_endpoints : forall e, e ∈ edges g ->
    from e ∈ node_id <$> nodes g /\ to e ∈ node_id <$> nodes g
}.

Definition is_plan_step (g : WorkGraphSnapshot) (id : WorkNodeId) : Prop :=
  exists n, node g id = Some n /\ node_kind n = PlanStep.

Definition active_rows (g : WorkGraphSnapshot) (bs : list CompatTodoBinding) : nat :=
  length (filter (fun b => state <$> node g (todo_node b) = Some Active) bs).

Record projection_sound (g : WorkGraphSnapshot) : Prop := {
  plan_distinct : NoDup (plan_order (compat g));
  plan_steps : forall id, id ∈ plan_order (compat g) -> is_plan_step g id;
  todo_ids : NoDup (legacy_id <$> todos (compat g));
  todo_rows : forall b, b ∈ todos (compat g) ->
    legacy_id b <> 0%N /\ is_plan_step g (todo_node b)
    /\ forall i, plan_index b = Some i ->
         plan_order (compat g) !! N.to_nat i = Some (todo_node b);
  todo_one_active : active_rows g (todos (compat g)) <= 1
}.

(** What an activity receipt may claim. *)
Definition effective_allowed (a : WorkActivityEvent) : Prop :=
  match provider_kind a with
  | Some p =>
      if provenance_is_bounded a then
        (p = Custom \/ as_str p = Some (provider a))
        /\ match activity_constraint a p with
           | Some expected => effective a = expected
           | None => effective a <> ThinkingEnabledGranularityUnavailable
           end
      else effective a = Unavailable
  | None => effective a = Unavailable
  end.

Record activity_sound (g : WorkGraphSnapshot) (a : WorkActivityEvent) : Prop := {
  requested_selectable :
    requested a <> ThinkingEnabledGranularityUnavailable /\ requested a <> Unavailable;
  provider_bounded : provider a <> [] /\ length (provider a) <= 128
    /\ Forall (fun c => is_whitespace c = false /\ is_control c = false) (provider a);
  effective_sound : effective_allowed a;
  operation_sound : forall op, activity_operation a = Some op ->
    exists n, node g op = Some n /\ node_kind n = Operation
}.

Definition acyclic (g : WorkGraphSnapshot) : Prop := forall n, ~ tc (depends (edges g)) n n.

Definition live_rooted (g : WorkGraphSnapshot) : Prop :=
  forall n, n ∈ nodes g -> node_kind n = Operation -> is_live (state n) = true ->
    has_root g (node_id n).

Definition bindings_on_operations (g : WorkGraphSnapshot) : Prop :=
  forall n, n ∈ nodes g -> binding n <> None -> node_kind n = Operation.

(** Evidence of the required kind, attached to the node by a [Verifies] edge. *)
Definition supported (g : WorkGraphSnapshot) (id : WorkNodeId) (r : AcceptanceRequirement) : Prop :=
  exists e ev payload, e ∈ edges g /\ edge_kind e = Verifies /\ to e = id
    /\ node g (from e) = Some ev /\ node_kind ev = Evidence
    /\ evidence ev = Some payload /\ tag (ev_kind payload) = required_kind r.

Definition verified_supported (g : WorkGraphSnapshot) : Prop :=
  forall n, n ∈ nodes g -> state n = Verified ->
    acceptance n <> [] /\ forall r, r ∈ acceptance n -> supported g (node_id n) r.

Definition pending_node (g : WorkGraphSnapshot) (id : WorkNodeId) : Prop :=
  exists n, node g id = Some n /\ node_is_done n = false.

Definition blocked_for_cause (g : WorkGraphSnapshot) : Prop :=
  forall n, n ∈ nodes g -> state n = Blocked ->
    exists e, e ∈ edges g /\
      ((edge_kind e = Blocks /\ to e = node_id n)
       \/ (edge_kind e ∈ [DependsOn; RequiresApproval] /\ from e = node_id n
           /\ pending_node g (to e))).

Definition externals (g : WorkGraphSnapshot) : list (list N) :=
  omap (fun n => external <$> binding n) (nodes g).

Definition bindings_identified (g : WorkGraphSnapshot) : Prop :=
  NoDup (externals g)
  /\ forall x, x ∈ externals g -> external_identity_is_well_formed x = true.

Definition refs_inert (g : WorkGraphSnapshot) : Prop :=
  forall n, n ∈ nodes g -> node_kind n ∈ [RuntimeRef; LaneRef] -> state n = Ready.

Definition increasing (h : list ChangeReceipt) : Prop :=
  StronglySorted (fun a b => (receipt_revision a < receipt_revision b)%N) h.

Definition history_sound (g : WorkGraphSnapshot) : Prop :=
  length (history g) <= HISTORY_CAP /\ increasing (history g)
  /\ forall r, last (history g) = Some r ->
       (receipt_revision r <= u64_saturating_add (revision g) 1)%N.

Record Valid (g : WorkGraphSnapshot) : Prop := {
  valid_structure : structurally_sound g;
  valid_projection : projection_sound g;
  valid_activities : length (activities g) <= ACTIVITY_CAP
    /\ forall a, a ∈ activities g -> activity_sound g a;
  valid_v1 : acyclic g;
  valid_v2 : live_rooted g;
  valid_v3 : bindings_on_operations g;
  valid_v4 : verified_supported g;
  valid_v5 : blocked_for_cause g;
  valid_v6 : bindings_identified g;
  valid_v7 : refs_inert g;
  valid_v8 : history_sound g
}.

(** ** Checks that report nothing *)

Lemma violation_if_nil b c m : violation_if b c m = [] <-> b = false.
Proof. by destruct b. Qed.

Lemma bind_nil {A B} (f : A -> list B) l : (l ≫= f) = [] <-> forall x, x ∈ l -> f x = [].
Proof.
  induction l as [|x l IH]; [split; [intros _ y Hy; by apply not_elem_of_nil in Hy|done]|].
  cbn [mbind list_bind]. rewrite app_nil, IH. setoid_rewrite elem_of_cons. naive_solver.
Qed.

Lemma is_none_false {A} (o : option A) : is_none o = false <-> o <> None.
Proof. by destruct o. Qed.

Lemma bool_decide_false_iff (P : Prop) `{Decision P} : bool_decide P = false <-> ~ P.
Proof. apply bool_decide_eq_false. Qed.

Lemma guard_false (b : bool) (P : Prop) `{Decision P} :
  b && negb (bool_decide P) = false <-> (b = true -> P).
Proof.
  rewrite andb_false_iff, negb_false_iff, bool_decide_eq_true. destruct b; naive_solver.
Qed.

Lemma check_nodes_nil seen ns :
  check_nodes seen ns = [] <->
    fresh node_id seen ns /\ Forall (fun n => evidence n <> None -> node_kind n = Evidence) ns.
Proof.
  revert seen. induction ns as [|n ns IH]; intros seen; cbn [check_nodes].
  { split; [|done]. intros _. split; [apply fresh_nil|constructor]. }
  rewrite !app_nil, !violation_if_nil, bool_decide_false_iff, guard_false, negb_true_iff,
    is_none_false, IH, fresh_cons, Forall_cons. tauto.
Qed.

Lemma elem_of_node_id_set g id : id ∈ node_id_set g <-> id ∈ node_id <$> nodes g.
Proof. unfold node_id_set. apply elem_of_list_to_set. Qed.

Lemma check_edges_nil ids seen es :
  check_edges ids seen es = [] <->
    fresh edge_id seen es /\ Forall (fun e => from e ∈ ids /\ to e ∈ ids) es.
Proof.
  revert seen. induction es as [|e es IH]; intros seen; cbn [check_edges].
  { split; [|done]. intros _. split; [apply fresh_nil|constructor]. }
  cbn [mbind list_bind]. rewrite app_nil_r.
  rewrite !app_nil, !violation_if_nil, !bool_decide_false_iff, IH, fresh_cons, Forall_cons.
  destruct (decide (from e ∈ ids)), (decide (to e ∈ ids)); tauto.
Qed.

Lemma plan_step_nil g id c m m' :
  match node g id with
  | Some n => violation_if (negb (bool_decide (node_kind n = PlanStep))) c m
  | None => violation_if true c m'
  end = [] <-> is_plan_step g id.
Proof.
  unfold is_plan_step. destruct (node g id) as [n|]; [|split; [done|by intros (? & ? & _)]].
  rewrite violation_if_nil, negb_false_iff, bool_decide_eq_true. naive_solver.
Qed.

Lemma check_plan_order_nil g seen ids :
  check_plan_order g seen ids = [] <-> fresh id seen ids /\ Forall (is_plan_step g) ids.
Proof.
  revert seen. induction ids as [|id ids IH]; intros seen; cbn [check_plan_order].
  { split; [|done]. intros _. split; [apply fresh_nil|constructor]. }
  rewrite !app_nil, violation_if_nil, bool_decide_false_iff, plan_step_nil, IH, fresh_cons, Forall_cons.
  tauto.
Qed.

Definition todo_row_ok (g : WorkGraphSnapshot) (b : CompatTodoBinding) : Prop :=
  legacy_id b <> 0%N /\ is_plan_step g (todo_node b)
  /\ forall i, plan_index b = Some i -> plan_order (compat g) !! N.to_nat i = Some (todo_node b).

Lemma check_todos_nil g seen active bs :
  check_todos g seen active bs = [] <->
    fresh legacy_id seen bs /\ Forall (todo_row_ok g) bs /\ active + active_rows g bs <= 1.
Proof.
  revert seen active. induction bs as [|b bs IH]; intros seen active; cbn [check_todos].
  { rewrite violation_if_nil, Nat.ltb_ge. unfold active_rows. cbn [filter list_filter length].
    rewrite Nat.add_0_r. pose proof (fresh_nil legacy_id seen). split; [|tauto]. done. }
  rewrite !app_nil, violation_if_nil, orb_false_iff, N.eqb_neq, bool_decide_false_iff, plan_step_nil,
    IH, fresh_cons, Forall_cons.
  assert (match plan_index b with
    | Some index => violation_if (negb (bool_decide
        (plan_order (compat g) !! N.to_nat index = Some (todo_node b)))) Structural
        (InvalidPlanAlias (legacy_id b))
    | None => [] end = [] <-> forall i, plan_index b = Some i ->
      plan_order (compat g) !! N.to_nat i = Some (todo_node b)) as ->.
  { destruct (plan_index b) as [i|]; [|done].
    rewrite violation_if_nil, negb_false_iff, bool_decide_eq_true. naive_solver. }
  assert (match node g (todo_node b) with
    | Some n => if bool_decide (state n = Active) then S active else active
    | None => active end + active_rows g bs = active + active_rows g (b :: bs)) as ->.
  { unfold active_rows. rewrite filter_cons.
    destruct (node g (todo_node b)) as [n|]; cbn [fmap option_fmap option_map];
      [|rewrite decide_False by done; done].
    case_bool_decide; [rewrite decide_True by congruence|rewrite decide_False by congruence];
      cbn [length]; lia. }
  unfold todo_row_ok. tauto.
Qed.

Lemma check_activity_operation_nil g a :
  check_activity_operation g a = [] <->
    forall op, activity_operation a = Some op -> exists n, node g op = Some n /\ node_kind n = Operation.
Proof.
  unfold check_activity_operation. destruct (activity_operation a) as [op|]; [|done].
  destruct (node g op) as [n|] eqn:E.
  - rewrite violation_if_nil, negb_false_iff, bool_decide_eq_true. split.
    + intros Hk op' [= <-]. eauto.
    + intros H. destruct (H op eq_refl) as (n' & E' & Hk). congruence.
  - split; [done|]. intros H. destruct (H op eq_refl) as (n' & E' & _). congruence.
Qed.

Lemma check_activity_route_nil a :
  (check_activity_route a).1 = [] <-> effective_allowed a.
Proof.
  unfold check_activity_route, effective_allowed.
  destruct (provenance_is_bounded a) eqn:Eb, (provider_kind a) as [p|];
    cbn [fst]; try (rewrite violation_if_nil, negb_false_iff, bool_decide_eq_true; done).
  destruct (negb (bool_decide (p = Custom)) && negb (bool_decide (as_str p = Some (provider a)))) eqn:E;
    cbn [fst].
  - apply andb_true_iff in E as [E1%negb_true_iff%bool_decide_eq_false
      E2%negb_true_iff%bool_decide_eq_false]. split; [done|tauto].
  - apply andb_false_iff in E. rewrite !negb_false_iff, !bool_decide_eq_true in E.
    destruct (activity_constraint a p).
    + rewrite violation_if_nil, negb_false_iff, bool_decide_eq_true. tauto.
    + rewrite violation_if_nil, bool_decide_eq_false. tauto.
Qed.

Lemma check_activity_route_continues a :
  (check_activity_route a).1 = [] -> (check_activity_route a).2 = true.
Proof.
  unfold check_activity_route. destruct (provenance_is_bounded a), (provider_kind a) as [p|]; try done.
  by destruct (_ && _).
Qed.

Lemma check_activity_nil g a : check_activity g a = [] <-> activity_sound g a.
Proof.
  unfold check_activity. rewrite !app_nil, !violation_if_nil, !orb_false_iff, Nat.ltb_ge.
  rewrite check_activity_route_nil.
  assert (existsb (fun c => is_whitespace c || is_control c) (provider a) = false <->
    Forall (fun c => is_whitespace c = false /\ is_control c = false) (provider a)) as ->.
  { rewrite Forall_forall, <-not_true_iff_false, existsb_elem_of. setoid_rewrite orb_true_iff. split.
    - intros H x Hx. destruct (is_whitespace x) eqn:?, (is_control x) eqn:?; naive_solver.
    - intros H (x & Hx & Hc). destruct (H x Hx) as [E1 E2]. rewrite E1, E2 in Hc. naive_solver. }
  assert (match requested a with ThinkingEnabledGranularityUnavailable | Unavailable => true
    | _ => false end = false <->
    requested a <> ThinkingEnabledGranularityUnavailable /\ requested a <> Unavailable) as ->
    by (destruct (requested a); naive_solver).
  assert (str_is_empty (provider a) = false <-> provider a <> []) as -> by (by destruct (provider a)).
  split.
  - intros (H1 & [[H2 H3] H4] & H5 & H6).
    rewrite (check_activity_route_continues a) in H6 by by apply check_activity_route_nil.
    rewrite check_activity_operation_nil in H6. by constructor.
  - intros [H1 (H2 & H3 & H4) H5 H6]. split_and!; try done; [tauto..|].
    case_match; [|done]. by apply check_activity_operation_nil.
Qed.

Lemma endpoints_in_nodes g e :
  structurally_sound g -> e ∈ edges g -> exists n, n ∈ nodes g /\ node_id n = from e.
Proof.
  intros Hs He. destruct (sound_endpoints g Hs e He) as [Hf _].
  apply list_elem_of_fmap in Hf as (n & -> & Hn). eauto.
Qed.

(** Where every edge starts at a node, the reachable cycles are all cycles. *)
Lemma check_v1_nil g :
  structurally_sound g -> check_v1_depends_on_acyclic g = [] <-> acyclic g.
Proof.
  intros Hs. rewrite check_v1_spec. unfold acyclic. split.
  - intros H m Hm. assert (exists b, depends (edges g) m b) as (b & e & He & _ & <- & _).
    { inversion Hm; subst; eauto. }
    destruct (endpoints_in_nodes g e Hs He) as (n & Hn & E).
    apply (H n Hn). exists (from e). rewrite E. split; [apply rtc_refl|done].
  - intros H n _ (m & _ & Hm). by apply (H m).
Qed.

Lemma check_v2_nil g : check_v2_live_operations_rooted g = [] <-> live_rooted g.
Proof.
  unfold check_v2_live_operations_rooted, live_rooted. rewrite bind_nil.
  apply forall_proper. intros n. apply forall_proper. intros Hn.
  destruct (bool_decide (node_kind n = Operation)) eqn:E1, (is_live (state n)) eqn:E2; cbn [negb andb];
    [rewrite violation_if_nil, negb_false_iff, rooted_spec|..];
    rewrite ?bool_decide_eq_true, ?bool_decide_eq_false in E1; naive_solver.
Qed.

Lemma check_v3_nil g : check_v3_binding_only_on_operations g = [] <-> bindings_on_operations g.
Proof.
  unfold check_v3_binding_only_on_operations, bindings_on_operations. rewrite bind_nil.
  apply forall_proper. intros n. apply forall_proper. intros _.
  by rewrite violation_if_nil, guard_false, negb_true_iff, is_none_false.
Qed.

Lemma requirement_satisfied_spec g id r : requirement_satisfied g id r = true <-> supported g id r.
Proof.
  unfold requirement_satisfied, evidence_nodes, supported. rewrite existsb_elem_of. split.
  - intros (ev & Hin & Hp). apply list_elem_of_In, List.filter_In in Hin as [Hin Hk].
    apply list_elem_of_In, list_elem_of_omap in Hin as (e & He & Hn).
    apply list_elem_of_In, List.filter_In in He as [He Hc].
    apply andb_true_iff in Hc as [Hc1%bool_decide_eq_true Hc2%str_eqb_spec].
    apply bool_decide_eq_true in Hk. destruct (evidence ev) as [payload|] eqn:Ee; [|done].
    unfold is_satisfied_by in Hp. apply bool_decide_eq_true in Hp.
    exists e, ev, payload. rewrite list_elem_of_In. done.
  - intros (e & ev & payload & He & Hk & Ht & Hn & Hkv & Hev & Htag). exists ev. split.
    + apply list_elem_of_In, List.filter_In. split; [|by apply bool_decide_eq_true].
      apply list_elem_of_In, list_elem_of_omap. exists e. split; [|done].
      apply list_elem_of_In, List.filter_In. split; [by apply list_elem_of_In|].
      apply andb_true_iff. by rewrite bool_decide_eq_true, str_eqb_spec.
    + rewrite Hev. by apply bool_decide_eq_true.
Qed.

Lemma check_v4_nil g : check_v4_verified_requires_evidence g = [] <-> verified_supported g.
Proof.
  unfold check_v4_verified_requires_evidence, verified_supported. rewrite bind_nil.
  apply forall_proper. intros n. apply forall_proper. intros _.
  case_bool_decide as Hs; cbn [negb]; [|naive_solver].
  destruct (acceptance n) as [|r rs] eqn:Ea; cbn [is_nil]; [naive_solver|].
  rewrite bind_nil. setoid_rewrite violation_if_nil. setoid_rewrite negb_false_iff.
  setoid_rewrite requirement_satisfied_spec. naive_solver.
Qed.

Lemma not_done_spec g id : not_done g id = true <-> pending_node g id.
Proof.
  unfold not_done, pending_node. destruct (node g id) as [n|]; [|naive_solver].
  rewrite negb_true_iff. naive_solver.
Qed.

Lemma has_cause_spec g id :
  has_cause g id = true <-> exists e, e ∈ edges g /\
    ((edge_kind e = Blocks /\ to e = id)
     \/ (edge_kind e ∈ [DependsOn; RequiresApproval] /\ from e = id /\ pending_node g (to e))).
Proof.
  unfold has_cause. rewrite !orb_true_iff, !existsb_elem_of.
  repeat setoid_rewrite andb_true_iff. repeat setoid_rewrite bool_decide_eq_true.
  repeat setoid_rewrite str_eqb_spec. repeat setoid_rewrite not_done_spec.
  assert (forall k, k ∈ [DependsOn; RequiresApproval] <-> k = DependsOn \/ k = RequiresApproval)
    as Hk by set_solver. setoid_rewrite Hk. clear Hk. split.
  - intros [[(e & ?)|(e & ?)]|(e & ?)]; exists e; tauto.
  - intros (e & He & [?|[[?|?] ?]]); [left; left|left; right|right]; exists e; tauto.
Qed.

Lemma check_v5_nil g : check_v5_blocked_has_cause g = [] <-> blocked_for_cause g.
Proof.
  unfold check_v5_blocked_has_cause, blocked_for_cause. rewrite bind_nil.
  apply forall_proper. intros n. apply forall_proper. intros _.
  case_bool_decide as Hs; cbn [negb]; [|naive_solver].
  rewrite violation_if_nil, negb_false_iff, has_cause_spec. naive_solver.
Qed.

Lemma check_v6_from_nil seen ns :
  check_v6_from seen ns = [] <->
    fresh id (dom seen) (omap (fun n => external <$> binding n) ns)
    /\ Forall (fun x => external_identity_is_well_formed x = true)
         (omap (fun n => external <$> binding n) ns).
Proof.
  revert seen. induction ns as [|n ns IH]; intros seen; cbn [check_v6_from].
  { split; [|done]. intros _. split; [apply fresh_nil|constructor]. }
  cbn [omap list_omap]. destruct (binding n) as [b|]; cbn [fmap option_fmap option_map]; [|apply IH].
  rewrite !app_nil, violation_if_nil, negb_false_iff, IH, fresh_cons, Forall_cons, dom_insert_L,
    not_elem_of_dom. change (Datatypes.id (external b)) with (external b).
  destruct (seen !! external b) as [previous|] eqn:E; cbn [violation_if]; naive_solver.
Qed.

Lemma check_v6_nil g : check_v6_binding_identity g = [] <-> bindings_identified g.
Proof.
  unfold check_v6_binding_identity, bindings_identified. rewrite check_v6_from_nil, dom_empty_L,
    fresh_empty, Forall_forall. by rewrite list_fmap_id.
Qed.

Lemma check_v7_nil g : check_v7_refs_inert g = [] <-> refs_inert g.
Proof.
  unfold check_v7_refs_inert, refs_inert. rewrite bind_nil.
  apply forall_proper. intros n. apply forall_proper. intros _.
  rewrite violation_if_nil, guard_false.
  assert (node_kind n ∈ [RuntimeRef; LaneRef] <->
    match node_kind n with RuntimeRef | LaneRef => true | _ => false end = true) as ->; [|done].
  destruct (node_kind n); set_solver.
Qed.

Lemma check_increasing_nil prev h :
  check_increasing prev h = [] <->
    increasing h /\ forall p r, prev = Some p -> head h = Some r -> (p < receipt_revision r)%N.
Proof.
  revert prev. induction h as [|r h IH]; intros prev; cbn [check_increasing].
  { split; [intros _; split; [constructor|done]|done]. }
  assert (increasing (r :: h) <-> increasing h /\ forall r', head h = Some r' ->
    (receipt_revision r < receipt_revision r')%N) as Hcons.
  { unfold increasing. split.
    - intros H. inversion H as [|?? Hh Hr]; subst. split; [done|]. intros r' Hr'.
      destruct h as [|x h]; [done|]. injection Hr' as ->. by inversion Hr.
    - intros [Hh Hr]. constructor; [done|]. destruct Hh as [|x h Hh Hx]; [constructor|].
      constructor; [by apply Hr|]. eapply Forall_impl; [exact Hx|]. specialize (Hr x eq_refl). simpl. lia. }
  rewrite Hcons. cbn [head]. destruct prev as [p|].
  - destruct (N.leb_spec (receipt_revision r) p); cbn [violation_if].
    + split; [done|]. intros [_ H']. specialize (H' p r eq_refl eq_refl). lia.
    + rewrite IH. naive_solver lia.
  - rewrite IH. naive_solver.
Qed.

Lemma check_v8_nil g : check_v8_history_bounded_monotonic g = [] <-> history_sound g.
Proof.
  unfold check_v8_history_bounded_monotonic, history_sound.
  rewrite !app_nil, violation_if_nil, Nat.ltb_ge, check_increasing_nil.
  assert (match last (history g) with
    | Some r => violation_if (u64_saturating_add (revision g) 1 <? receipt_revision r)%N V8
        (HistoryAhead (receipt_revision r) (revision g))
    | None => [] end = [] <-> forall r, last (history g) = Some r ->
      (receipt_revision r <= u64_saturating_add (revision g) 1)%N) as ->.
  { destruct (last (history g)); [|done]. rewrite violation_if_nil, N.ltb_ge. naive_solver. }
  naive_solver.
Qed.

Lemma check_structural_nil g :
  check_structural g = [] <->
    structurally_sound g /\ projection_sound g
    /\ length (activities g) <= ACTIVITY_CAP /\ forall a, a ∈ activities g -> activity_sound g a.
Proof.
  unfold check_structural. rewrite !app_nil, !violation_if_nil, negb_false_iff, N.eqb_eq,
    check_nodes_nil, check_edges_nil, check_plan_order_nil, check_todos_nil, !fresh_empty, !Forall_forall,
    Nat.ltb_ge, bind_nil, list_fmap_id.
  setoid_rewrite check_activity_nil. setoid_rewrite elem_of_node_id_set. split.
  - intros (H1 & [H2 H3] & [H4 H5] & [H6 H7] & (H8 & H9 & H10) & H11 & H12).
    split; [by constructor|]. split; [by constructor|]. done.
  - intros ([??? ? ?] & [? ? ? ? ?] & ? & ?). split_and!; done.
Qed.

Lemma all_violations_nil g : all_violations g = [] <-> Valid g.
Proof.
  unfold all_violations. rewrite !app_nil, check_structural_nil, check_v2_nil, check_v3_nil, check_v4_nil,
    check_v5_nil, check_v6_nil, check_v7_nil, check_v8_nil. split.
  - intros ((Hs & H1 & H2) & Hv1 & H). apply (check_v1_nil g Hs) in Hv1. constructor; tauto.
  - intros [Hs Hp Ha Hv1 ? ? ? ? ? ? ?]. apply (check_v1_nil g Hs) in Hv1. tauto.
Qed.

Lemma validate_ok g : validate g = Ok tt <-> Valid g.
Proof. rewrite <-all_violations_nil. unfold validate. by destruct (all_violations g). Qed.

Lemma validate_cases g : validate g = Ok tt \/ exists vs, validate g = Err {| violations := vs |} /\ vs <> [].
Proof. unfold validate. destruct (all_violations g); eauto. Qed.

(** ** Property *)

(** C5: [validate] decides the documented invariants, no more and no less: it accepts
    a snapshot exactly when the structure, the projections and the activity
    receipts are sound and V1 to V8 hold, with dependency acyclicity and
    ancestry stated as paths of the graph; and it rejects with a non-empty report. *)
Theorem validate_decides_invariants (g : WorkGraphSnapshot) :
  (validate g = Ok tt <-> Valid g)
  /\ (~ Valid g -> exists report, validate g = Err report /\ violations report <> []).
Proof.
  split; [apply validate_ok|]. intros H. destruct (validate_cases g) as [Hv|(vs & Hv & Hne)].
  - by apply validate_ok in Hv.
  - eexists. split; [exact Hv|exact Hne].
Qed.

End WgSpec.
