(* ===== verification/WgReducer.v ===== *)
(** * The work-graph reducer (crates/tui/src/work_graph/reducer.rs, mod.rs)

    [apply] is the only write path of the ledger: it deduplicates by idempotency
    key, applies one change to a copy, validates the candidate, and commits it
    with the next revision and a receipt. *)

From stdpp Require Import base list option gmap strings.
From Stdlib Require Import Lia NArith ZArith.
From S2P Require Import Prelude RustStr Providers WgModel WgValidate.

Module WgReducer.
Import WgModel WgValidate.

Abbreviation outcome A := (result A ValidationReport) (only parsing).

Definition structural (m : Message) : ValidationReport := single Structural m.

(** [ok_or_else]. *)
Definition ok_or {A} (o : option A) (m : Message) : outcome A :=
  match o with Some a => Ok a | None => Err (structural m) end.

(** A fallible loop over [l] that updates the snapshot. *)
Fixpoint try_fold {X} (f : WorkGraphSnapshot -> X -> outcome WorkGraphSnapshot)
  (g : WorkGraphSnapshot) (l : list X) : outcome WorkGraphSnapshot :=
  match l with
  | [] => Ok g
  | x :: l' => let? g' := f g x in try_fold f g' l'
  end.

(** [node_mut] followed by an assignment: the first node with the id is replaced. *)
Fixpoint update_first (id : WorkNodeId) (f : WorkNode -> WorkNode) (ns : list WorkNode)
  : list WorkNode :=
  match ns with
  | [] => []
  | n :: ns' => if str_eqb (node_id n) id then f n :: ns' else n :: update_first id f ns'
  end.

Definition update_node (g : WorkGraphSnapshot) (id : WorkNodeId) (f : WorkNode -> WorkNode)
  : WorkGraphSnapshot := with_nodes g (update_first id f (nodes g)).

Definition set_state (n : WorkNode) (s : NodeState) (b : option OperationBinding) (now : Ts)
  : WorkNode :=
  {| node_id := node_id n; node_kind := node_kind n; title := title n; state := s;
     acceptance := acceptance n; binding := b; evidence := evidence n; provenance := provenance n;
     created_at := created_at n; updated_at := now |}.

Definition add_node (g : WorkGraphSnapshot) (n : WorkNode) : outcome WorkGraphSnapshot :=
  match node g (node_id n) with
  | Some _ => Err (structural (DuplicateNode (node_id n)))
  | None => Ok (with_nodes g (nodes g ++ [n]))
  end.

Definition add_edge (g : WorkGraphSnapshot) (e : WorkEdge) : outcome WorkGraphSnapshot :=
  match edge g (edge_id e) with
  | Some _ => Err (structural (DuplicateEdge (edge_id e)))
  | None =>
      match node g (from e) with
      | None => Err (structural (EdgeReferencesMissingNode (edge_id e) (from e)))
      | Some _ =>
          match node g (to e) with
          | None => Err (structural (EdgeReferencesMissingNode (edge_id e) (to e)))
          | Some _ => Ok (with_edges g (edges g ++ [e]))
          end
      end
  end.

Definition apply_patch (patch : WorkNodePatch) (now : Ts) (n : WorkNode) : WorkNode :=
  {| node_id := node_id n; node_kind := node_kind n;
     title := default (title n) (patch_title patch);
     state := default (state n) (patch_state patch);
     acceptance := default (acceptance n) (patch_acceptance patch);
     binding := binding n; evidence := evidence n;
     provenance := default (provenance n) (patch_provenance patch);
     created_at := created_at n; updated_at := now |}.

Definition patch_node (g : WorkGraphSnapshot) (id : WorkNodeId) (patch : WorkNodePatch) (now : Ts)
  : outcome WorkGraphSnapshot :=
  let? n := ok_or (node g id) (NodeNotFound id) in
  match patch_state patch with
  | Some s =>
      if is_terminal (state n) && negb (bool_decide (s = state n))
      then Err (single V9 (TerminalNode id (state n) s))
      else Ok (update_node g id (apply_patch patch now))
  | None => Ok (update_node g id (apply_patch patch now))
  end.

(** The state an observation asks for, if it asks for one. *)
Definition observed_state (obs : OperationObservation) : option NodeState :=
  match obs with
  | OwnerReported s _ _ _ =>
      Some match s with
           | OwnerInitializing => Initializing
           | OwnerRunning => Active
           | OwnerWaiting => Waiting
           | OwnerCompleted | OwnerDegraded => Completed
           | OwnerFailed => Failed
           | OwnerCancelled => Cancelled
           end
  | OwnerMissing _ => Some Stale
  | CancelUpdate o _ =>
      match o with
      | Requested | Acknowledged | AlreadyFinished => None
      | Forced => Some Cancelled
      | NotFound | StaleUnknown => Some Stale
      end
  end.

Definition observed_binding (obs : OperationObservation) (b : OperationBinding) : OperationBinding :=
  match obs with
  | OwnerReported s seq at_ out =>
      {| external := external b; durable := durable b;
         last_observation := Some {| owner_state := s; obs_seq := seq; observed_at := at_; output := out |} |}
  | _ => b
  end.

Definition reconciled (obs : OperationObservation) (b : OperationBinding) (now : Ts) (n : WorkNode)
  : WorkNode :=
  set_state n
    (match observed_state obs with
     | Some s => if negb (is_terminal (state n)) then s else state n
     | None => state n
     end)
    (Some (observed_binding obs b)) now.

Definition reconcile (g : WorkGraphSnapshot) (id : WorkNodeId) (obs : OperationObservation)
  (ctx : ChangeCtx) : outcome WorkGraphSnapshot :=
  let? n := ok_or (node g id) (NodeNotFound id) in
  let? b := ok_or (binding n) (NoOperationBinding id) in
  Ok (update_node g id (reconciled obs b (now ctx))).

Section WithDigest.
Context `{Digest}.

Definition evidence_node (target : WorkNodeId) (ev : EvidenceRef) (ctx : ChangeCtx) : WorkNode :=
  {| node_id := node_id_derive (session_id ctx)
       (lit "evidence:" ++ target ++ lit ":" ++ reference ev);
     node_kind := Evidence; title := lit "evidence: " ++ reference ev; state := Completed;
     acceptance := []; binding := None; evidence := Some ev;
     provenance := RuntimeReconcile (lit "attach_evidence") (now ctx);
     created_at := now ctx; updated_at := now ctx |}.

Definition verifies_edge (evidence_id target : WorkNodeId) (ctx : ChangeCtx) : WorkEdge :=
  {| edge_id := edge_id_derive (session_id ctx)
       (lit "verifies:" ++ evidence_id ++ lit ":" ++ target);
     edge_kind := Verifies; from := evidence_id; to := target |}.

Definition attach_evidence (g : WorkGraphSnapshot) (target : WorkNodeId) (ev : EvidenceRef)
  (ctx : ChangeCtx) : outcome WorkGraphSnapshot :=
  match node g target with
  | None => Err (structural (NodeNotFound target))
  | Some _ =>
      let n := evidence_node target ev ctx in
      let? g1 := add_node g n in
      add_edge g1 (verifies_edge (node_id n) target ctx)
  end.

Definition remove_edge (g : WorkGraphSnapshot) (id : WorkEdgeId) : outcome WorkGraphSnapshot :=
  let kept := List.filter (fun e => negb (str_eqb (edge_id e) id)) (edges g) in
  if length kept =? length (edges g) then Err (structural (EdgeNotFound id))
  else Ok (with_edges g kept).

Definition remove_node (g : WorkGraphSnapshot) (id : WorkNodeId) : outcome WorkGraphSnapshot :=
  if existsb (fun e => str_eqb (from e) id || str_eqb (to e) id) (edges g)
  then Err (structural (NodeStillHasEdges id))
  else
    let kept := List.filter (fun n => negb (str_eqb (node_id n) id)) (nodes g) in
    if length kept =? length (nodes g) then Err (structural (NodeNotFound id))
    else Ok (with_nodes g kept).

Definition apply_proposal (g : WorkGraphSnapshot) (p : WorkGraphProposal) (ctx : ChangeCtx)
  : outcome WorkGraphSnapshot :=
  let? g1 := try_fold add_node g (added_nodes p) in
  let? g2 := try_fold add_edge g1 (added_edges p) in
  let? g3 := try_fold (fun g u => patch_node g (update_id u) (update_patch u) (now ctx)) g2
               (updated_nodes p) in
  let? g4 := try_fold remove_edge g3 (removed_edges p) in
  let? g5 := try_fold remove_node g4 (removed_nodes p) in
  Ok (match replacement_compat p with Some c => with_compat g5 c | None => g5 end).

Definition preview_plan_diff (current : WorkGraphSnapshot) (p : WorkGraphProposal) (ctx : ChangeCtx)
  : outcome WorkGraphSnapshot :=
  let? candidate := apply_proposal current p ctx in
  let? _ := validate candidate in
  Ok candidate.

Definition validate_proposal (current : WorkGraphSnapshot) (p : WorkGraphProposal) (ctx : ChangeCtx)
  : outcome unit :=
  let? _ := preview_plan_diff current p ctx in
  Ok tt.

Definition approval_node (pid : ProposalId) (approval : ApprovalRef) (ctx : ChangeCtx) : WorkNode :=
  {| node_id := node_id_derive (session_id ctx) (lit "approval:" ++ pid);
     node_kind := Approval; title := lit "plan diff approved: " ++ approval_reference approval;
     state := Completed; acceptance := []; binding := None; evidence := None;
     provenance := UserEdit pid; created_at := now ctx; updated_at := now ctx |}.

Definition supersedes_edge (old replacement : WorkNodeId) (ctx : ChangeCtx) : WorkEdge :=
  {| edge_id := edge_id_derive (session_id ctx)
       (lit "supersedes:" ++ replacement ++ lit ":" ++ old);
     edge_kind := Supersedes; from := replacement; to := old |}.

Definition apply_pure (g : WorkGraphSnapshot) (change : WorkGraphChange) (ctx : ChangeCtx)
  : outcome WorkGraphSnapshot :=
  match change with
  | AddNode n => add_node g n
  | UpdateNode id patch => patch_node g id patch (now ctx)
  | AddEdge e => add_edge g e
  | RemoveEdge id => remove_edge g id
  | BindOperation id b =>
      let? _ := ok_or (node g id) (NodeNotFound id) in
      Ok (update_node g id (fun n => set_state n (state n) (Some b) (now ctx)))
  | ReconcileOperation id obs => reconcile g id obs ctx
  | AttachEvidence id ev => attach_evidence g id ev ctx
  | ProposePlanDiff p =>
      if existsb (fun q => str_eqb (proposal_id q) (proposal_id p)) (proposals g)
      then Err (structural (DuplicateProposal (proposal_id p)))
      else
        let? _ := validate_proposal g p ctx in
        Ok (with_proposals g (proposals g ++ [p]))
  | WithdrawPlanDiff pid =>
      let kept := List.filter (fun q => negb (str_eqb (proposal_id q) pid)) (proposals g) in
      if length kept =? length (proposals g) then Err (structural (ProposalNotFound pid))
      else Ok (with_proposals g kept)
  | AcceptPlanDiff pid approval =>
      let? index := ok_or (position (fun q => str_eqb (proposal_id q) pid) (proposals g))
                      (ProposalNotFound pid) in
      match proposals g !! index with
      | Some p =>
          let? g1 := apply_proposal (with_proposals g (delete index (proposals g))) p ctx in
          add_node g1 (approval_node pid approval ctx)
      | None => Err (structural (ProposalNotFound pid))
      end
  | Supersede old replacement =>
      if str_eqb old replacement then Err (structural SelfSupersede)
      else
        let? _ := ok_or (node g replacement) (ReplacementNotFound replacement) in
        let? _ := ok_or (node g old) (NodeNotFound old) in
        let g1 := update_node g old (fun n => set_state n Superseded (binding n) (now ctx)) in
        add_edge g1 (supersedes_edge old replacement ctx)
  | ReplaceCompatProjection c => Ok (with_compat g c)
  | SetImportDigest digest =>
      if str_is_empty digest then Err (structural EmptyImportDigest)
      else Ok (with_import_digest g (Some digest))
  | RecordActivity event =>
      let? _ :=
        match activity_operation event with
        | None => Ok tt
        | Some operation =>
            let? n := ok_or (node g operation) (ActivityOperationMissing operation) in
            if negb (bool_decide (node_kind n = Operation)) || negb (is_live (state n))
            then Err (structural (ActivityOperationNotLive operation))
            else Ok tt
        end in
      Ok (with_activities g (push_bounded ACTIVITY_CAP (activities g) event))
  end.

(** The receipt of a change whose idempotency key was seen before. *)
Definition duplicate_receipt (g : WorkGraphSnapshot) (change : WorkGraphChange) (key : IdempotencyKey)
  (ctx : ChangeCtx) : ChangeReceipt :=
  {| change_id := change_id_derive (session_id ctx)
       (lit "noop:" ++ key_binding key ++ lit ":" ++ dec (key_seq key));
     receipt_revision := revision g; summary := kind_name change ++ lit " (duplicate)";
     applied_at := now ctx; receipt_key := Some key; no_op := true |}.

Definition seen (g : WorkGraphSnapshot) (ctx : ChangeCtx) : option IdempotencyKey :=
  match ctx_key ctx with
  | Some key => if bool_decide (key ∈ seen_keys g) then Some key else None
  | None => None
  end.

(** Steps 4 and 5: the revision, the receipt, and the idempotency key. *)
Definition commit (g next : WorkGraphSnapshot) (change : WorkGraphChange) (ctx : ChangeCtx)
  : WorkGraphSnapshot * ChangeReceipt :=
  let rev := u64_add (revision g) 1 in
  let receipt := receipt_of change rev ctx in
  let keys := match ctx_key ctx with
              | Some key => (bounded_insert SEEN_KEYS_CAP (seen_keys next) key).1
              | None => seen_keys next
              end in
  (with_commit next rev (push_bounded HISTORY_CAP (history next) receipt) keys, receipt).

Definition apply (g : WorkGraphSnapshot) (change : WorkGraphChange) (ctx : ChangeCtx)
  : outcome (WorkGraphSnapshot * ChangeReceipt) :=
  match seen g ctx with
  | Some key => Ok (g, duplicate_receipt g change key ctx)
  | None =>
      let? next := apply_pure g change ctx in
      let? _ := validate next in
      Ok (commit g next change ctx)
  end.

(** ** The owning wrapper (mod.rs) *)

Record WorkGraph : Type := { snapshot : WorkGraphSnapshot }.

Definition graph_new : WorkGraph := {| snapshot := snapshot_new |}.

Definition graph_apply (w : WorkGraph) (change : WorkGraphChange) (ctx : ChangeCtx)
  : WorkGraph * outcome ChangeReceipt :=
  match apply (snapshot w) change ctx with
  | Ok (next, receipt) => ({| snapshot := next |}, Ok receipt)
  | Err report => (w, Err report)
  end.

End WithDigest.

End WgReducer.
