(* ===== verification/WgPlan.v ===== *)
(** * Reviewed plans

    A plan diff is validated when it is proposed and applied when it is accepted.
    Applying a proposal is a function of the content of the snapshot, so the two
    agree, and the approval node the acceptance adds cannot invalidate the result. *)

From stdpp Require Import base list option gmap strings relations sorting.
From Stdlib Require Import Lia NArith ZArith.
From S2P Require Import Prelude RustStr Providers WgModel WgValidate WgSearch WgSpec WgReducer WgFacts.

Module WgPlan.
Import WgModel WgValidate WgSearch WgSpec WgReducer WgFacts.

(** ** Simulation of the steps of a proposal *)

(** Snapshots of the same content step to snapshots of the same content. *)
Definition simulates (f f' : WorkGraphSnapshot -> outcome WorkGraphSnapshot) : Prop :=
  forall g g' h, same_content g g' -> f g = Ok h -> exists h', f' g' = Ok h' /\ same_content h h'.

Lemma same_content_node_none g g' id : same_content g g' -> node g id = None -> node g' id = None.
Proof.
  intros Hs Hn. pose proof (same_content_node _ _ id Hs) as E. rewrite Hn in E.
  by destruct (node g' id).
Qed.

Lemma same_content_edge g g' id : same_content g g' -> edge g' id = edge g id.
Proof. intros (_ & _ & He & _)%same_content_fields. unfold edge. by rewrite He. Qed.

Lemma content_with_nodes g g' ns ns' :
  same_content g g' -> undated <$> ns = undated <$> ns' ->
  same_content (with_nodes g ns) (with_nodes g' ns').
Proof.
  intros (E1 & _ & E3 & E4 & E5)%same_content_fields Hn.
  unfold same_content, content. cbn. by rewrite E1, E3, E4, E5, Hn.
Qed.

Lemma content_with_edges g g' es :
  same_content g g' -> same_content (with_edges g es) (with_edges g' es).
Proof.
  intros (E1 & E2 & _ & E4 & E5)%same_content_fields.
  unfold same_content, content. cbn. by rewrite E1, E2, E4, E5.
Qed.

Lemma content_with_compat g g' c :
  same_content g g' -> same_content (with_compat g c) (with_compat g' c).
Proof.
  intros (E1 & E2 & E3 & E4 & _)%same_content_fields.
  unfold same_content, content. cbn. by rewrite E1, E2, E3, E4.
Qed.

Lemma simulates_add_node n : simulates (fun g => add_node g n) (fun g => add_node g n).
Proof.
  intros g g' h Hs [Hn ->]%add_node_ok. eexists. split.
  - apply add_node_ok. split; [by eapply same_content_node_none|reflexivity].
  - apply content_with_nodes; [done|]. rewrite !fmap_app.
    apply same_content_fields in Hs as (_ & -> & _). done.
Qed.

Lemma simulates_add_edge e : simulates (fun g => add_edge g e) (fun g => add_edge g e).
Proof.
  intros g g' h Hs (He & [x Hf] & [y Ht] & ->)%add_edge_ok. eexists. split.
  - apply add_edge_ok. rewrite (same_content_edge g) by done. split; [done|].
    destruct (same_content_node_some _ _ _ _ Hs Hf) as (x' & -> & _).
    destruct (same_content_node_some _ _ _ _ Hs Ht) as (y' & -> & _). eauto.
  - pose proof Hs as (_ & _ & -> & _)%same_content_fields. by apply content_with_edges.
Qed.

Lemma undated_cons n n' l l' :
  undated <$> n :: l = undated <$> n' :: l' -> undated n = undated n' /\ undated <$> l = undated <$> l'.
Proof. rewrite !fmap_cons. intros E. split; congruence. Qed.

Lemma undated_update_first id f f' l l' :
  (forall n n', undated n = undated n' -> undated (f n) = undated (f' n')) ->
  undated <$> l = undated <$> l' ->
  undated <$> update_first id f l = undated <$> update_first id f' l'.
Proof.
  intros Hf. revert l'. induction l as [|n l IH]; intros [|n' l'] E; try done.
  apply undated_cons in E as [En El]. cbn [update_first].
  destruct (undated_fields _ _ En) as (<- & _).
  destruct (str_eqb (node_id n) id); rewrite !fmap_cons; f_equal; auto.
Qed.

Lemma undated_filter (q : WorkNodeId -> bool) l l' :
  undated <$> l = undated <$> l' ->
  undated <$> List.filter (fun n => q (node_id n)) l = undated <$> List.filter (fun n => q (node_id n)) l'
  /\ length (List.filter (fun n => q (node_id n)) l) = length (List.filter (fun n => q (node_id n)) l')
  /\ length l = length l'.
Proof.
  revert l'. induction l as [|n l IH]; intros [|n' l'] E; try done.
  apply undated_cons in E as [En El]. cbn [List.filter].
  destruct (undated_fields _ _ En) as (<- & _). destruct (IH l' El) as (H1 & H2 & H3).
  destruct (q (node_id n)); rewrite ?fmap_cons; cbn [length]; rewrite ?H1, ?H2, ?H3, ?En; done.
Qed.

Lemma apply_patch_undated patch t t' n n' :
  undated n = undated n' -> undated (apply_patch patch t n) = undated (apply_patch patch t' n').
Proof. destruct n, n'. intros [= -> -> -> -> -> -> -> -> ->]. done. Qed.

Lemma simulates_patch id patch t t' :
  simulates (fun g => patch_node g id patch t) (fun g => patch_node g id patch t').
Proof.
  intros g g' h Hs (n & Hn & -> & Ht)%patch_node_ok.
  destruct (same_content_node_some _ _ _ _ Hs Hn) as (n' & Hn' & E).
  destruct (undated_fields _ _ E) as (_ & _ & Es & _). eexists. split.
  - apply patch_node_ok. exists n'. split; [done|]. split; [reflexivity|]. by rewrite <-Es.
  - apply content_with_nodes; [done|]. apply undated_update_first; [intros; by apply apply_patch_undated|].
    by apply same_content_fields in Hs as (_ & <- & _).
Qed.

Lemma simulates_remove_edge id : simulates (fun g => remove_edge g id) (fun g => remove_edge g id).
Proof.
  intros g g' h Hs. unfold remove_edge. pose proof Hs as (_ & _ & -> & _)%same_content_fields.
  destruct (_ =? _); [done|]. intros [= <-]. eexists. split; [done|]. by apply content_with_edges.
Qed.

Lemma simulates_remove_node id : simulates (fun g => remove_node g id) (fun g => remove_node g id).
Proof.
  intros g g' h Hs. unfold remove_node. pose proof Hs as (_ & Hn & -> & _)%same_content_fields.
  destruct (existsb _ (edges g)); [done|].
  destruct (undated_filter (fun x => negb (str_eqb x id)) _ _ Hn) as (H1 & H2 & H3). rewrite H2, H3.
  destruct (_ =? _); [done|]. intros [= <-]. eexists. split; [done|]. by apply content_with_nodes.
Qed.

Lemma simulates_try_fold {X} (f f' : WorkGraphSnapshot -> X -> outcome WorkGraphSnapshot) l :
  (forall x, simulates (fun g => f g x) (fun g => f' g x)) ->
  simulates (fun g => try_fold f g l) (fun g => try_fold f' g l).
Proof.
  intros Hf. induction l as [|x l IH]; intros g g' h Hs; cbn [try_fold].
  - intros [= <-]. eauto.
  - intros (g1 & H1 & H2)%bind_ok. destruct (Hf x _ _ _ Hs H1) as (g1' & H1' & Hs1).
    destruct (IH _ _ _ Hs1 H2) as (h' & H2' & Hs2). exists h'. by rewrite H1'.
Qed.

Lemma validate_unit g u : validate g = Ok u <-> Valid g.
Proof. destruct u. apply validate_ok. Qed.

(** ** Adding an inert node *)

(** A node that no invariant constrains: it is neither live nor verified nor
    blocked, and it carries no payload. *)
Definition inert_node (n : WorkNode) : Prop :=
  node_kind n = Approval /\ state n = Completed /\ binding n = None /\ evidence n = None.

Section Inert.
Context (g : WorkGraphSnapshot) (n : WorkNode).
Hypothesis (Hv : Valid g) (Hfresh : node g (node_id n) = None) (Hinert : inert_node n).

Local Abbreviation g' := (with_nodes g (nodes g ++ [n])).

Lemma node_kept id m : node g id = Some m -> node g' id = Some m.
Proof. apply node_with_nodes_snoc. Qed.

Lemma id_is_new : node_id n ∉ node_id <$> nodes g.
Proof.
  intros (m & E & Hm)%list_elem_of_fmap. rewrite E in Hfresh.
  rewrite (node_of_elem g m (sound_node_ids _ (valid_structure _ Hv)) Hm) in Hfresh. done.
Qed.

Lemma plan_step_kept id : is_plan_step g id -> is_plan_step g' id.
Proof. intros (m & Hm & Hk). exists m. split; [by apply node_kept|done]. Qed.

Lemma root_kept a : has_root g a -> has_root g' a.
Proof.
  assert (forall a p, contained_in g a p -> contained_in g' a p) as Hc.
  { intros b p (e & He & Hk & Ht & Hn). exists e. split_and!; try done. by apply node_kept. }
  induction 1 as [b p Hp Hk|b p Hp _ IH]; [by eapply has_root_here; eauto|by eapply has_root_up; eauto].
Qed.

Lemma structure_kept : structurally_sound g'.
Proof.
  destruct (valid_structure _ Hv) as [S1 S2 S3 S4 S5]. destruct Hinert as (_ & _ & _ & He).
  constructor; cbn [schema nodes edges with_nodes]; rewrite ?fmap_app; try done.
  - apply NoDup_app. split; [done|]. split; [|apply NoDup_singleton].
    intros x Hx Hx'. cbn in Hx'. apply list_elem_of_singleton in Hx' as ->. by apply id_is_new.
  - intros m [Hm|Hm]%elem_of_app; [by apply S3|]. apply list_elem_of_singleton in Hm as ->. done.
  - intros e Hin. destruct (S5 e Hin). set_solver.
Qed.

Lemma projection_kept : projection_sound g'.
Proof.
  destruct (valid_projection _ Hv) as [P1 P2 P3 P4 P5]. constructor; try done.
  - intros id Hid. by apply plan_step_kept, P2.
  - intros b Hb. destruct (P4 b Hb) as (? & ? & ?). split_and!; try done. by apply plan_step_kept.
  - unfold active_rows in *. cbn [compat with_nodes].
    enough (filter (fun b => state <$> node g' (todo_node b) = Some Active) (todos (compat g)) =
            filter (fun b => state <$> node g (todo_node b) = Some Active) (todos (compat g))) as -> by done.
    assert (forall b, b ∈ todos (compat g) -> node g' (todo_node b) = node g (todo_node b)) as Hsame.
    { intros b Hb. destruct (P4 b Hb) as (_ & (m & Hm & _) & _). by rewrite Hm, (node_kept _ _ Hm). }
    revert Hsame. generalize (todos (compat g)). induction l as [|b l IH]; intros Hsame; [done|].
    rewrite !filter_cons, IH by (intros c Hc; apply Hsame; by right).
    pose proof (Hsame b ltac:(left)) as E. repeat case_decide; congruence.
Qed.

Lemma activities_kept a : a ∈ activities g -> activity_sound g' a.
Proof.
  intros Ha. destruct (valid_activities _ Hv) as [_ Hact]. destruct (Hact a Ha) as [A1 A2 A3 A4].
  constructor; try done. intros op Hop. destruct (A4 op Hop) as (m & Hm & Hk). exists m.
  split; [by apply node_kept|done].
Qed.

Lemma valid_add_inert : Valid g'.
Proof.
  destruct Hinert as (Hk & Hs & Hb & He).
  assert (forall P : WorkNode -> Prop, P n -> (forall m, m ∈ nodes g -> P m) ->
    forall m, m ∈ nodes g' -> P m) as Hall.
  { intros P Hn Hg m [Hm|Hm]%elem_of_app; [auto|]. by apply list_elem_of_singleton in Hm as ->. }
  constructor.
  - apply structure_kept.
  - apply projection_kept.
  - split; [apply (valid_activities _ Hv)|apply activities_kept].
  - apply (valid_v1 _ Hv).
  - refine (Hall (fun m => node_kind m = Operation -> is_live (state m) = true ->
      has_root g' (node_id m)) _ _); [by rewrite Hk|].
    intros m Hm ? ?. by apply root_kept, (valid_v2 _ Hv).
  - refine (Hall (fun m => binding m <> None -> node_kind m = Operation) _ _); [done|apply (valid_v3 _ Hv)].
  - refine (Hall (fun m => state m = Verified -> acceptance m <> []
      /\ forall r, r ∈ acceptance m -> supported g' (node_id m) r) _ _); [by rewrite Hs|].
    intros m Hm Hst. destruct (valid_v4 _ Hv m Hm Hst) as [Hne Hr]. split; [done|].
    intros r Hin. destruct (Hr r Hin) as (e & ev & pl & ? & ? & ? & ? & ? & ? & ?).
    exists e, ev, pl. split_and!; try done. by apply node_kept.
  - refine (Hall (fun m => state m = Blocked -> exists e, e ∈ edges g' /\
      ((edge_kind e = Blocks /\ to e = node_id m)
       \/ (edge_kind e ∈ [DependsOn; RequiresApproval] /\ from e = node_id m
           /\ pending_node g' (to e)))) _ _); [by rewrite Hs|].
    intros m Hm Hst. destruct (valid_v5 _ Hv m Hm Hst) as (e & Hin & [?|(? & ? & k & Hk' & ?)]);
      exists e; (split; [done|]); [by left|right]. split_and!; try done. exists k.
    split; [by apply node_kept|done].
  - unfold bindings_identified, externals. cbn [nodes with_nodes]. rewrite omap_app. cbn [omap list_omap].
    rewrite Hb. cbn. rewrite app_nil_r. apply (valid_v6 _ Hv).
  - refine (Hall (fun m => node_kind m ∈ [RuntimeRef; LaneRef] -> state m = Ready) _ _);
      [rewrite Hk; set_solver|apply (valid_v7 _ Hv)].
  - apply (valid_v8 _ Hv).
Qed.

End Inert.

Section Plans.
Context `{Digest}.

Lemma simulates_proposal p ctx ctx' :
  simulates (fun g => apply_proposal g p ctx) (fun g => apply_proposal g p ctx').
Proof.
  intros g g' h Hs (g1 & g2 & g3 & g4 & g5 & E1 & E2 & E3 & E4 & E5 & ->)%apply_proposal_ok.
  destruct (simulates_try_fold _ _ _ simulates_add_node _ _ _ Hs E1) as (g1' & E1' & S1).
  destruct (simulates_try_fold _ _ _ simulates_add_edge _ _ _ S1 E2) as (g2' & E2' & S2).
  destruct (simulates_try_fold _ (fun g u => patch_node g (update_id u) (update_patch u) (now ctx'))
    _ (fun u => simulates_patch _ _ _ _) _ _ _ S2 E3) as (g3' & E3' & S3).
  destruct (simulates_try_fold _ _ _ simulates_remove_edge _ _ _ S3 E4) as (g4' & E4' & S4).
  destruct (simulates_try_fold _ _ _ simulates_remove_node _ _ _ S4 E5) as (g5' & E5' & S5).
  eexists. split; [apply apply_proposal_ok; by eauto 15|].
  destruct (replacement_compat p); [by apply content_with_compat|done].
Qed.

Lemma apply_proposal_proposals g p ctx g' :
  apply_proposal g p ctx = Ok g' -> proposals g' = proposals g.
Proof.
  apply (apply_proposal_preserves (fun a b => proposals b = proposals a)); clear g g'; try done.
  - intros; congruence.
  - by intros g n g' [_ ->]%add_node_ok.
  - by intros g e g' (_ & _ & _ & ->)%add_edge_ok.
  - by intros g u g' _ (n & _ & -> & _)%patch_node_ok.
  - by intros g id g' ->%remove_edge_ok.
  - by intros g id g' _ ->%remove_node_ok.
Qed.

Lemma position_snoc {A} (q : A -> bool) l x :
  existsb q l = false -> q x = true -> position q (l ++ [x]) = Some (length l).
Proof.
  intros Hl Hx. induction l as [|y l IH]; cbn [app position length]; [by rewrite Hx|].
  cbn [existsb] in Hl. apply orb_false_iff in Hl as [-> Hl]. by rewrite (IH Hl).
Qed.

Lemma preview_ok g p ctx pv :
  preview_plan_diff g p ctx = Ok pv <-> apply_proposal g p ctx = Ok pv /\ Valid pv.
Proof.
  unfold preview_plan_diff. destruct (apply_proposal g p ctx) as [c|]; cbn [result_bind]; [|naive_solver].
  destruct (validate_cases c) as [E|(vs & E & _)]; pose proof (validate_ok c) as Hv;
    rewrite E in *; cbn [result_bind]; naive_solver.
Qed.

Lemma propose_ok g p ctx g' :
  apply_pure g (ProposePlanDiff p) ctx = Ok g' <->
  existsb (fun q => str_eqb (proposal_id q) (proposal_id p)) (proposals g) = false
  /\ g' = with_proposals g (proposals g ++ [p])
  /\ exists preview, preview_plan_diff g p ctx = Ok preview.
Proof.
  cbn [apply_pure]. destruct (existsb _ _); [naive_solver|]. unfold validate_proposal.
  destruct (preview_plan_diff g p ctx); cbn [result_bind]; naive_solver.
Qed.

End Plans.

End WgPlan.
