(* ===== verification/WgTheorems.v ===== *)
(** * Guarantees of the work ledger

    The contract of the reducer and what follows for the snapshots it reaches. *)

From stdpp Require Import base list option gmap strings relations sorting.
From Stdlib Require Import Lia NArith ZArith.
From S2P Require Import Prelude RustStr ProviderRegistry Providers WgModel WgValidate WgSearch WgSpec.
From S2P Require Import WgReducer WgFacts WgPlan.

Module WgTheorems.
Import WgModel WgValidate WgSearch WgSpec WgReducer WgFacts WgPlan.

(** ** Sequences of changes *)

(** Applies changes in order; [None] when one is rejected. *)
Fixpoint run `{Digest} (g : WorkGraphSnapshot) (l : list (WorkGraphChange * ChangeCtx))
  : option WorkGraphSnapshot :=
  match l with
  | [] => Some g
  | (c, ctx) :: l' =>
      match apply g c ctx with
      | Ok (g', _) => run g' l'
      | Err _ => None
      end
  end.

Lemma run_reachable `{Digest} g l g' :
  reachable g -> (revision g + N.of_nat (length l) < u64_modulus)%N -> run g l = Some g' -> reachable g'.
Proof.
  revert g. induction l as [|[c ctx] l IH]; intros g Hr Hb; cbn [run].
  { by intros [= <-]. }
  cbn [length] in Hb. destruct (apply g c ctx) as [[g1 r]|] eqn:E; [|done].
  apply IH; [eapply reach_apply; [exact Hr| |exact E]; lia|].
  apply apply_cases in E as [(key & _ & -> & _)|(_ & cand & _ & _ & Ec)]; [lia|].
  assert (revision g1 = u64_add (revision g) 1) as -> by (by injection Ec as -> _).
  rewrite u64_succ by lia. lia.
Qed.

Section Claims.
Context `{D : Digest}.

(** The keys stay in the window while fewer than its capacity are inserted. *)
Lemma bounded_insert_recent (key other : IdempotencyKey) d keys :
  recent key d keys -> S d < SEEN_KEYS_CAP ->
  recent key (S d) (bounded_insert SEEN_KEYS_CAP keys other).1.
Proof.
  intros Hr Hd. unfold bounded_insert. case_bool_decide; cbn [fst].
  - destruct Hr as (x & y & -> & Hy). exists x, y. split; [done|lia].
  - by apply push_bounded_recent.
Qed.

Lemma apply_seen_recent g c ctx g' r key d :
  apply g c ctx = Ok (g', r) -> recent key d (seen_keys g) -> S d < SEEN_KEYS_CAP ->
  recent key (S d) (seen_keys g').
Proof.
  intros Ha Hr Hd. assert (recent key (S d) (seen_keys g)) as Hr'.
  { destruct Hr as (x & y & -> & Hy). exists x, y. split; [done|lia]. }
  apply apply_cases in Ha as [(k & _ & -> & _)|(_ & cand & Hc & _ & E)]; [done|].
  apply apply_pure_books in Hc as (_ & _ & _ & Hk). injection E as -> _.
  cbn [with_commit seen_keys]. rewrite Hk. destruct (ctx_key ctx); [|done].
  by apply bounded_insert_recent.
Qed.

Lemma run_seen_recent g l g' key d :
  run g l = Some g' -> recent key d (seen_keys g) -> d + length l < SEEN_KEYS_CAP ->
  recent key (d + length l) (seen_keys g').
Proof.
  revert g d. induction l as [|[c ctx] l IH]; intros g d; cbn [run length].
  { intros [= <-]. by rewrite Nat.add_0_r. }
  destruct (apply g c ctx) as [[g1 r]|] eqn:E; [|done]. intros Hrun Hr Hd.
  rewrite <-Nat.add_succ_comm in *. apply (IH g1 (S d)); [done| |lia].
  eapply apply_seen_recent; [exact E|done|lia].
Qed.

Lemma apply_records_key g c ctx g' r key :
  apply g c ctx = Ok (g', r) -> ctx_key ctx = Some key -> seen g ctx = None ->
  recent key 0 (seen_keys g').
Proof.
  intros Ha Hk Hs. apply apply_cases in Ha as [(k & E & _)|(_ & cand & Hc & _ & E)]; [congruence|].
  apply apply_pure_books in Hc as (_ & _ & _ & Hb). injection E as -> _.
  cbn [with_commit seen_keys]. rewrite Hk, Hb. unfold seen in Hs. rewrite Hk in Hs.
  unfold bounded_insert. case_bool_decide; [done|]. cbn [fst]. unfold push_bounded.
  eexists _, []. split; [reflexivity|done].
Qed.

(** ** Properties *)

(** C6: The contract of [apply]. A change whose idempotency key is in the window is
    acknowledged with a no-op receipt and the snapshot as it was. Any other change
    that succeeds produced a candidate that satisfies every invariant; the result
    has the candidate's content, the revision moved by exactly one, and the receipt
    appended to the bounded history. A rejected change comes with a reason, and
    the owning wrapper keeps its snapshot. *)
Theorem apply_contract (g : WorkGraphSnapshot) (c : WorkGraphChange) (ctx : ChangeCtx) :
  match apply g c ctx with
  | Ok (g', r) =>
      match seen g ctx with
      | Some key => g' = g /\ no_op r = true /\ receipt_revision r = revision g
      | None =>
          exists candidate, apply_pure g c ctx = Ok candidate /\ Valid candidate
            /\ same_content candidate g' /\ proposals g' = proposals candidate
            /\ revision g' = u64_add (revision g) 1
            /\ history g' = push_bounded HISTORY_CAP (history g) r
            /\ receipt_revision r = revision g' /\ no_op r = false
            /\ (forall key, ctx_key ctx = Some key -> key ∈ seen_keys g')
      end
      /\ graph_apply {| snapshot := g |} c ctx = ({| snapshot := g' |}, Ok r)
  | Err report =>
      seen g ctx = None
      /\ (apply_pure g c ctx = Err report
          \/ exists candidate, apply_pure g c ctx = Ok candidate /\ validate candidate = Err report
               /\ ~ Valid candidate)
      /\ graph_apply {| snapshot := g |} c ctx = ({| snapshot := g |}, Err report)
  end.
Proof.
  unfold graph_apply. cbn [snapshot]. destruct (apply g c ctx) as [[g' r]|report] eqn:E; cbn [fst snd].
  - split; [|done]. pose proof (fun key => apply_records_key g c ctx g' r key E) as Hkey.
    apply apply_cases in E as [(key & -> & -> & ->)|(Hs & cand & Hc & Hv & Ec)]; [done|].
    rewrite Hs. exists cand. pose proof (apply_pure_books _ _ _ _ Hc) as (_ & _ & Hh & _).
    injection Ec as -> ->. split_and!; try done; [by cbn; rewrite Hh|].
    intros key Hk. eapply recent_elem_of. by apply Hkey.
  - unfold apply in E. destruct (seen g ctx); [done|]. split; [done|]. split; [|done].
    destruct (apply_pure g c ctx) as [cand|rep]; cbn [result_bind] in E; [|left; congruence].
    right. exists cand. split; [done|]. destruct (validate cand) as [[]|rep] eqn:Ev; [done|].
    cbn [result_bind] in E. split; [congruence|]. rewrite <-validate_ok, Ev. done.
Qed.

(** C7: Every snapshot the reducer reaches from the empty ledger, in fewer than 2^64
    changes, satisfies all invariants of validation; in particular a node is
    [Verified] only with acceptance requirements that are each met by evidence
    attached to it, dependencies have no cycle, live operations are rooted, and
    no receipt is from the future. *)
Theorem reachable_snapshots_are_valid (g : WorkGraphSnapshot) :
  reachable g ->
  validate g = Ok tt /\ Valid g
  /\ (forall n, n ∈ nodes g -> state n = Verified ->
        acceptance n <> [] /\ forall r, r ∈ acceptance n -> supported g (node_id n) r)
  /\ (forall r, r ∈ history g -> (receipt_revision r <= revision g)%N).
Proof.
  intros [Hv (_ & _ & Hh & _)]%reachable_sound. split; [by apply validate_ok|].
  split; [done|]. split; [apply (valid_v4 _ Hv)|done].
Qed.

(** A replayed observation has no effect: after a change with an idempotency key
    has been applied, any change with the same key within the next 1023 changes
    is a no-op on the snapshot. *)
Theorem replay_is_noop (g g1 g2 : WorkGraphSnapshot) (c c2 : WorkGraphChange) (ctx ctx2 : ChangeCtx)
    (r : ChangeReceipt) (key : IdempotencyKey) (l : list (WorkGraphChange * ChangeCtx)) :
  ctx_key ctx = Some key -> seen g ctx = None -> apply g c ctx = Ok (g1, r) ->
  run g1 l = Some g2 -> length l < SEEN_KEYS_CAP -> ctx_key ctx2 = Some key ->
  apply g2 c2 ctx2 = Ok (g2, duplicate_receipt g2 c2 key ctx2).
Proof.
  intros Hk Hs Ha Hrun Hl Hk2. apply apply_cases. left. exists key. split; [|done].
  unfold seen. rewrite Hk2. rewrite bool_decide_eq_true_2; [done|].
  eapply recent_elem_of, (run_seen_recent g1 l g2 key 0); [done| |done].
  by eapply apply_records_key.
Qed.

(** Terminal states are final (V9): whatever change is applied, a node that is
    verified, superseded or cancelled is still there with that state, unless the
    change supersedes that very node or accepts a proposal that removes it. *)
Theorem terminal_states_are_final (g g' : WorkGraphSnapshot) (c : WorkGraphChange) (ctx : ChangeCtx)
    (r : ChangeReceipt) (id : WorkNodeId) (n : WorkNode) :
  apply g c ctx = Ok (g', r) -> node g id = Some n -> is_terminal (state n) = true ->
  ~ may_release g c id ->
  exists n', node g' id = Some n' /\ state n' = state n.
Proof.
  intros [(k & _ & -> & _)|(_ & cand & Hc & _ & E)]%apply_cases Hn Ht Hm; [by exists n|].
  destruct (apply_pure_keeps_terminal _ _ _ _ _ Hm Hc n Hn Ht) as (n' & Hn' & Es).
  injection E as -> _. exists n'. split; [exact Hn'|done].
Qed.

(** An owner's observation is applied faithfully and proves nothing: it touches
    the one node it names, moves it to the state the observation stands for unless
    the node is terminal, never to [Verified], and to [Stale] when the owner no
    longer knows the operation; the binding keeps its identity and remembers the
    last report. *)
Theorem observations_never_verify (g g' : WorkGraphSnapshot) (id : WorkNodeId)
    (obs : OperationObservation) (ctx : ChangeCtx) (r : ChangeReceipt) :
  seen g ctx = None -> apply g (ReconcileOperation id obs) ctx = Ok (g', r) ->
  exists n n' b, node g id = Some n /\ binding n = Some b /\ node g' id = Some n'
    /\ (forall other, other <> id -> node g' other = node g other)
    /\ edges g' = edges g
    /\ binding n' = Some (observed_binding obs b) /\ external (observed_binding obs b) = external b
    /\ (is_terminal (state n) = true -> state n' = state n)
    /\ (is_terminal (state n) = false -> state n' = default (state n) (observed_state obs))
    /\ (state n' = Verified -> state n = Verified)
    /\ (is_terminal (state n) = false -> forall t, obs = OwnerMissing t -> state n' = Stale).
Proof.
  intros Hs [(k & E & _)|(_ & cand & Hc & _ & E)]%apply_cases; [congruence|].
  apply reconcile_ok in Hc as (n & b & Hn & Hb & ->). injection E as -> _.
  exists n, (reconciled obs b (now ctx) n), b. split_and!; try done.
  - by apply (node_update_eq g id (reconciled obs b (now ctx))).
  - intros other Ho. by apply (node_update_ne g other id).
  - by destruct obs.
  - cbn. intros ->. by destruct (observed_state obs).
  - cbn. intros ->. by destruct (observed_state obs).
  - cbn. destruct (is_terminal (state n)); [by destruct (observed_state obs)|].
    destruct obs as [[]| |[]]; done.
  - cbn. intros -> t ->. done.
Qed.

(** The result of accepting [p]: the content of [h] with the approval node, and the
    proposal retired. *)
Definition accepted (g h g2 : WorkGraphSnapshot) (i : nat) (added : WorkNode) : Prop :=
  same_content (with_nodes h (nodes h ++ [added])) g2 /\ proposals g2 = delete i (proposals g).

(** [p] is the recorded proposal of its id. *)
Definition recorded (g : WorkGraphSnapshot) (p : WorkGraphProposal) (i : nat) : Prop :=
  position (fun q => str_eqb (proposal_id q) (proposal_id p)) (proposals g) = Some i /\ proposals g !! i = Some p.

(** A valid preview, at whatever time, is what accepting gives. *)
Lemma accept_previewed g p i approval ctx ctx' preview :
  reachable g -> seen g ctx' = None -> recorded g p i -> preview_plan_diff g p ctx = Ok preview ->
  let added := approval_node (proposal_id p) approval ctx' in
  node preview (node_id added) = None ->
  exists g2 r2, apply g (AcceptPlanDiff (proposal_id p) approval) ctx' = Ok (g2, r2) /\ accepted g preview g2 i added.
Proof.
  intros Hr Hs [Hpos Hlk] [Hap Hpv]%preview_ok added Hfresh.
  set (g1 := with_proposals g (delete i (proposals g))).
  destruct (simulates_proposal p ctx ctx' g g1 preview ltac:(done) Hap) as (h & Hh & Hsh).
  destruct (simulates_add_node added preview h (with_nodes preview (nodes preview ++ [added])) Hsh)
    as (h2 & Hh2 & Hsh2); [by apply add_node_ok|].
  assert (apply_pure g (AcceptPlanDiff (proposal_id p) approval) ctx' = Ok h2) as Hpure
    by (apply accept_ok; by exists i, p, h).
  destruct (reachable_sound _ Hr) as [_ Hh1].
  pose proof (apply_pure_books _ _ _ _ Hpure) as Hb2.
  assert (Valid h2) as Hv2.
  { eapply valid_same_content; [exact Hsh2| |apply valid_add_inert; [done|done|done]].
    destruct Hb2 as (_ & Erev & Ehist & _). unfold history_sound. rewrite Erev, Ehist.
    by apply history_current_sound. }
  exists (commit g h2 (AcceptPlanDiff (proposal_id p) approval) ctx').1,
    (commit g h2 (AcceptPlanDiff (proposal_id p) approval) ctx').2.
  split; [apply apply_cases; right; split; [done|]; exists h2; done|]. split.
  - rewrite Hsh2. apply commit_content.
  - cbn. apply add_node_ok in Hh2 as [_ ->]. cbn. by rewrite (apply_proposal_proposals _ _ _ _ Hh).
Qed.

(** Accepting gives nothing else than the proposal applied to the current graph. *)
Lemma accept_applies g p i approval ctx ctx' g2 r2 :
  seen g ctx' = None -> recorded g p i -> apply g (AcceptPlanDiff (proposal_id p) approval) ctx' = Ok (g2, r2) ->
  let added := approval_node (proposal_id p) approval ctx' in
  exists h, apply_proposal g p ctx = Ok h /\ node h (node_id added) = None /\ accepted g h g2 i added.
Proof.
  intros Hs [Hpos Hlk] Ha added. apply apply_cases in Ha as [(k & E & _)|(_ & cand & Hc & _ & E)]; [congruence|].
  apply accept_ok in Hc as (i' & p' & h & Hpos' & Hlk' & Hap & Hadd).
  assert (i' = i) as -> by congruence. assert (p' = p) as -> by congruence.
  destruct (simulates_proposal p ctx' ctx _ g h (eq_refl : same_content (with_proposals g (delete i (proposals g))) g) Hap) as (h' & Hh' & Hsh).
  exists h'. pose proof Hadd as [Hfresh Ec]%add_node_ok. fold added in Hfresh, Ec. split; [done|]. split.
  - by eapply same_content_node_none.
  - destruct (simulates_add_node added h h' cand Hsh Hadd) as (c' & Hc' & Hsc). apply add_node_ok in Hc' as [_ ->].
    injection E as -> _. split; [symmetry; etrans; [|exact Hsc]; symmetry; by apply (commit_content g)|].
    cbn. rewrite Ec. cbn. by rewrite (apply_proposal_proposals _ _ _ _ Hap).
Qed.

(** What is recorded has a valid preview, and the same one right after it was recorded. *)
Lemma propose_previewed g p ctx g1 r1 :
  reachable g -> (revision g + 1 < u64_modulus)%N -> seen g ctx = None -> apply g (ProposePlanDiff p) ctx = Ok (g1, r1) ->
  recorded g1 p (length (proposals g))
  /\ exists preview preview1, preview_plan_diff g p ctx = Ok preview /\ Valid preview
       /\ preview_plan_diff g1 p ctx = Ok preview1 /\ same_content preview preview1.
Proof.
  intros Hr Hrev Hs Ha. assert (reachable g1) as Hr1 by (eapply reach_apply; [exact Hr|lia|exact Ha]).
  apply apply_cases in Ha as [(k & E & _)|(_ & cand & Hc & _ & E)]; [congruence|].
  apply propose_ok in Hc as (Hdup & -> & preview & Hp). pose proof Hp as [Hap Hpv]%preview_ok.
  assert (same_content g g1 /\ proposals g1 = proposals g ++ [p]) as [Hsc Hpr] by by injection E as -> _.
  split.
  { unfold recorded. rewrite Hpr. split; [by apply position_snoc; [|apply str_eqb_spec]|by rewrite list_lookup_middle]. }
  destruct (simulates_proposal p ctx ctx g g1 preview Hsc Hap) as (h & Hh & Hsh). exists preview, h.
  split_and!; [done|done| |done]. apply preview_ok. split; [done|]. eapply valid_same_content; [exact Hsh| |done].
  destruct (reachable_sound _ Hr1) as [_ Hh1]. destruct (apply_proposal_books _ _ _ _ Hh) as (_ & Erev & Ehist & _).
  unfold history_sound. rewrite Erev, Ehist. by apply history_current_sound.
Qed.

(** C13: The plan that is accepted is the plan that was reviewed. A proposal is recorded
    only with a preview that satisfies every invariant, and right after it was recorded
    its preview has the same content. Accepting a recorded proposal, at any later time
    and in any graph, gives the content of the preview against the graph of that moment
    with the approval node added and the proposal retired: it succeeds whenever that
    preview is valid and the approval's node id is free in it, and whatever it accepts is
    the proposal applied to the current graph. (Changes made between the proposal and its
    acceptance are in the new preview; the old one is not looked at again.) *)
Theorem accepted_plan_is_reviewed_plan (g : WorkGraphSnapshot) (p : WorkGraphProposal)
    (approval : ApprovalRef) (ctx ctx' : ChangeCtx) :
  reachable g -> (revision g + 1 < u64_modulus)%N ->
  (forall g1 r1, seen g ctx = None -> apply g (ProposePlanDiff p) ctx = Ok (g1, r1) ->
     recorded g1 p (length (proposals g))
     /\ exists preview preview1, preview_plan_diff g p ctx = Ok preview /\ Valid preview
          /\ preview_plan_diff g1 p ctx = Ok preview1 /\ same_content preview preview1)
  /\ forall i, recorded g p i -> seen g ctx' = None ->
     let added := approval_node (proposal_id p) approval ctx' in
     (forall preview, preview_plan_diff g p ctx = Ok preview ->
        Valid preview
        /\ (node preview (node_id added) = None ->
            exists g2 r2, apply g (AcceptPlanDiff (proposal_id p) approval) ctx' = Ok (g2, r2)
              /\ accepted g preview g2 i added))
     /\ (forall g2 r2, apply g (AcceptPlanDiff (proposal_id p) approval) ctx' = Ok (g2, r2) ->
          validate g2 = Ok tt
          /\ exists h, apply_proposal g p ctx = Ok h /\ node h (node_id added) = None /\ accepted g h g2 i added).
Proof.
  intros Hr Hrev. split; [intros g1 r1; by apply propose_previewed|]. intros i Hi Hs added. split.
  - intros preview Hp. split; [by apply preview_ok in Hp as [_ ?]|]. intros Hf. by eapply accept_previewed.
  - intros g2 r2 Ha. split; [|by eapply accept_applies]. apply validate_ok.
    apply (reachable_sound g2). eapply reach_apply; [exact Hr|lia|exact Ha].
Qed.

End Claims.

(** ** A small session, for the witnesses *)

(** A stand-in for the digest: the text read backwards, so that the twelve
    characters an identifier keeps are the end of its discriminator. *)
#[local] Instance toy_digest : Digest := fun s => reverse s.

Definition tool_origin : Provenance := ToolUpdate (lit "work_update") (lit "call-1").

Definition sample_node (id : string) (k : NodeKind) (s : NodeState)
  (acc : list AcceptanceRequirement) (b : option OperationBinding) : WorkNode :=
  {| node_id := lit id; node_kind := k; title := lit id; state := s; acceptance := acc; binding := b;
     evidence := None; provenance := tool_origin; created_at := 1; updated_at := 1 |}.

Definition sample_edge (id : string) (k : EdgeKind) (a b : string) : WorkEdge :=
  {| edge_id := lit id; edge_kind := k; from := lit a; to := lit b |}.

Definition shell_binding : OperationBinding :=
  {| external := lit "shell:42"; durable := false; last_observation := None |}.

Definition plain_ctx : ChangeCtx := {| session_id := lit "s"; now := 7; ctx_key := None |}.

Definition keyed_ctx (seq : N) : ChangeCtx :=
  {| session_id := lit "s"; now := 7;
     ctx_key := Some {| key_binding := lit "bd:1"; key_seq := seq |} |}.

Definition sample_changes : list (WorkGraphChange * ChangeCtx) := [
  (AddNode (sample_node "wn:goal" Objective Ready [] None), plain_ctx);
  (AddNode (sample_node "wn:op" Operation Ready [EvidenceOfKind TagTestSummary] None), plain_ctx);
  (AddEdge (sample_edge "we:c" Contains "wn:goal" "wn:op"), plain_ctx);
  (BindOperation (lit "wn:op") shell_binding, plain_ctx);
  (ReconcileOperation (lit "wn:op") (OwnerReported OwnerRunning 1 5 None), keyed_ctx 1)].

Definition sample : WorkGraphSnapshot := default snapshot_new (run snapshot_new sample_changes).

Lemma sample_reachable : reachable sample.
Proof.
  apply (run_reachable snapshot_new sample_changes); [apply reach_new|vm_compute; reflexivity|].
  vm_compute. reflexivity.
Qed.

Lemma reachable_snapshots_are_valid_witness : validate sample = Ok tt.
Proof. apply (reachable_snapshots_are_valid sample). apply sample_reachable. Defined.

(** The first report of the operation, replayed two changes later. *)
Lemma replay_is_noop_witness :
  let report := ReconcileOperation (lit "wn:op") (OwnerReported OwnerWaiting 2 6 None) in
  let g1 := (get_ok (sample, receipt_of report 0 plain_ctx) (apply sample report (keyed_ctx 2))).1 in
  let others := [(SetImportDigest (lit "d"), plain_ctx); (RemoveEdge (lit "we:x"), keyed_ctx 2)] in
  let g2 := default g1 (run g1 others) in
  apply g2 report (keyed_ctx 2)
  = Ok (g2, duplicate_receipt g2 report {| key_binding := lit "bd:1"; key_seq := 2 |} (keyed_ctx 2)).
Proof.
  intros report g1 others g2.
  refine (replay_is_noop sample g1 g2 report report (keyed_ctx 2) (keyed_ctx 2)
    (get_ok (sample, receipt_of report 0 plain_ctx) (apply sample report (keyed_ctx 2))).2
    {| key_binding := lit "bd:1"; key_seq := 2 |} others _ _ _ _ _ _);
    try (vm_compute; reflexivity). unfold SEEN_KEYS_CAP. simpl. lia.
Defined.

Definition cancelled_sample : WorkGraphSnapshot :=
  default sample (run sample
    [(ReconcileOperation (lit "wn:op") (CancelUpdate Forced 8), plain_ctx)]).

Lemma terminal_states_are_final_witness :
  exists g' r n', apply cancelled_sample
      (ReconcileOperation (lit "wn:op") (OwnerReported OwnerRunning 9 9 None)) plain_ctx = Ok (g', r)
    /\ node g' (lit "wn:op") = Some n' /\ state n' = Cancelled.
Proof.
  set (change := ReconcileOperation (lit "wn:op") (OwnerReported OwnerRunning 9 9 None)).
  set (out := get_ok (sample, receipt_of change 0 plain_ctx) (apply cancelled_sample change plain_ctx)).
  set (n := default (sample_node "wn:op" Operation Ready [] None) (node cancelled_sample (lit "wn:op"))).
  destruct (terminal_states_are_final cancelled_sample out.1 change plain_ctx out.2 (lit "wn:op") n)
    as (n' & H1 & H2); [vm_compute; reflexivity|vm_compute; reflexivity|vm_compute; reflexivity|by intros []|].
  exists out.1, out.2, n'. split; [vm_compute; reflexivity|]. split; [exact H1|].
  rewrite H2. vm_compute. reflexivity.
Defined.

Lemma observations_never_verify_witness :
  exists n n' b, node sample (lit "wn:op") = Some n /\ binding n = Some b
    /\ state n = Active /\ state n' = Stale.
Proof.
  set (obs := OwnerMissing 9).
  set (out := get_ok (sample, receipt_of (SetImportDigest []) 0 plain_ctx)
    (apply sample (ReconcileOperation (lit "wn:op") obs) plain_ctx)).
  destruct (observations_never_verify sample out.1 (lit "wn:op") obs plain_ctx out.2)
    as (n & n' & b & Hn & Hb & _ & _ & _ & _ & _ & _ & _ & _ & Hstale);
    [vm_compute; reflexivity|vm_compute; reflexivity|].
  exists n, n', b. assert (state n = Active) as Ha.
  { vm_compute in Hn. injection Hn as <-. reflexivity. }
  split; [exact Hn|]. split; [exact Hb|]. split; [exact Ha|].
  apply (Hstale ltac:(by rewrite Ha) 9%Z). reflexivity.
Defined.

Definition sample_proposal : WorkGraphProposal :=
  {| proposal_id := lit "pp:1";
     added_nodes := [sample_node "wn:step" PlanStep Ready [] None];
     added_edges := [sample_edge "we:s" Contains "wn:goal" "wn:step"];
     updated_nodes := [{| update_id := lit "wn:goal"; update_patch :=
       {| patch_title := Some (lit "Goal"); patch_state := None; patch_acceptance := None;
          patch_provenance := None |} |}];
     removed_nodes := []; removed_edges := []; replacement_compat := None |}.

(** The sample with the proposal recorded, and with a step added since. *)
Definition proposal_changes : list (WorkGraphChange * ChangeCtx) := [
  (ProposePlanDiff sample_proposal, plain_ctx); (AddNode (sample_node "wn:later" PlanStep Ready [] None), plain_ctx)].
Definition proposed : WorkGraphSnapshot := default snapshot_new (run sample proposal_changes).

Lemma proposed_reachable : reachable proposed.
Proof.
  apply (run_reachable sample proposal_changes); [exact sample_reachable|vm_compute; reflexivity|].
  vm_compute. reflexivity.
Qed.

Lemma accepted_plan_is_reviewed_plan_witness :
  exists preview g2 r2, preview_plan_diff proposed sample_proposal plain_ctx = Ok preview
    /\ apply proposed (AcceptPlanDiff (lit "pp:1") {| approval_reference := lit "ok" |}) (keyed_ctx 77) = Ok (g2, r2)
    /\ accepted proposed preview g2 0 (approval_node (lit "pp:1") {| approval_reference := lit "ok" |} (keyed_ctx 77)).
Proof.
  destruct (accepted_plan_is_reviewed_plan proposed sample_proposal {| approval_reference := lit "ok" |} plain_ctx (keyed_ctx 77)
    proposed_reachable ltac:(vm_compute; reflexivity)) as [_ H].
  destruct (H 0) as [Hok _]; [split; vm_compute; reflexivity|vm_compute; reflexivity|].
  destruct (Hok (get_ok proposed (preview_plan_diff proposed sample_proposal plain_ctx))) as [_ Hacc]; [vm_compute; reflexivity|].
  destruct Hacc as (g2 & r2 & H1 & H2); [vm_compute; reflexivity|].
  exists (get_ok proposed (preview_plan_diff proposed sample_proposal plain_ctx)), g2, r2.
  split; [vm_compute; reflexivity|]. split; [exact H1|exact H2].
Defined.

(** ** Limits of the ledger *)

(** A snapshot whose newest receipt is one revision ahead, as V8 tolerates. *)
Definition ahead_snapshot : WorkGraphSnapshot :=
  with_commit snapshot_new 4
    [{| change_id := lit "ch:1"; receipt_revision := 5; summary := lit "add_node"; applied_at := 1;
        receipt_key := None; no_op := false |}] [].

(** The slack of V8 wedges a ledger: a snapshot whose newest receipt is one revision
    ahead validates, takes one more change, and then rejects every change that is
    not a replay, because the history holds the same revision twice. *)
Theorem history_slack_wedges_ledger (c : WorkGraphChange) (ctx : ChangeCtx) :
  validate ahead_snapshot = Ok tt
  /\ exists g r, apply ahead_snapshot (SetImportDigest (lit "d")) plain_ctx = Ok (g, r)
       /\ validate g <> Ok tt
       /\ is_ok (apply g c {| session_id := session_id ctx; now := now ctx; ctx_key := None |}) = false.
Proof.
  split; [vm_compute; reflexivity|]. eexists _, _. split; [vm_compute; reflexivity|].
  split; [vm_compute; congruence|]. set (g := {| schema := _ |}).
  destruct (apply g c _) as [[g' r]|] eqn:E; [|done]. exfalso.
  apply apply_cases in E as [(key & Hs & _)|(_ & cand & Hc & Hv & _)]; [done|].
  apply apply_pure_books in Hc as (_ & _ & Hh & _).
  destruct (valid_v8 _ Hv) as (_ & Hinc & _). rewrite Hh in Hinc. unfold increasing in Hinc.
  inversion Hinc as [|? ? _ Hf]; subst. inversion Hf as [|? ? Hlt _]; subst. cbn in Hlt. lia.
Qed.

(** An operation [wn:op] on which a blocked step depends. *)
Definition blocking_changes : list (WorkGraphChange * ChangeCtx) := [
  (AddNode (sample_node "wn:goal" Objective Ready [] None), plain_ctx);
  (AddNode (sample_node "wn:op" Operation Ready [] None), plain_ctx);
  (AddNode (sample_node "wn:step" PlanStep Ready [] None), plain_ctx);
  (AddEdge (sample_edge "we:c" Contains "wn:goal" "wn:op"), plain_ctx);
  (BindOperation (lit "wn:op") shell_binding, plain_ctx);
  (AddEdge (sample_edge "we:d" DependsOn "wn:step" "wn:op"), plain_ctx);
  (UpdateNode (lit "wn:step") {| patch_title := None; patch_state := Some Blocked;
     patch_acceptance := None; patch_provenance := None |}, plain_ctx);
  (ReconcileOperation (lit "wn:op") (OwnerReported OwnerRunning 1 5 None), keyed_ctx 1)].

Definition blocking_snapshot : WorkGraphSnapshot := default snapshot_new (run snapshot_new blocking_changes).

(** An owner's completion can be refused: while a step is blocked on an operation
    without acceptance requirements, the report that the operation completed is
    rejected by V5, and the reachable snapshot keeps it active. *)
Theorem completion_refused_while_dependent_blocked :
  reachable blocking_snapshot
  /\ state <$> node blocking_snapshot (lit "wn:op") = Some Active
  /\ apply blocking_snapshot
       (ReconcileOperation (lit "wn:op") (OwnerReported OwnerCompleted 2 9 None)) (keyed_ctx 2)
     = Err (single V5 (BlockedWithoutCause (lit "wn:step"))).
Proof.
  split; [|split; vm_compute; reflexivity].
  apply (run_reachable snapshot_new blocking_changes); [apply reach_new|vm_compute; reflexivity|].
  vm_compute. reflexivity.
Qed.

End WgTheorems.
