(* ===== verification/WgProjection.v ===== *)
(** * Projections, owner adapters and evidence (crates/tui/src/work_graph/compat.rs, liveness.rs)

    The legacy Plan and To-do views derived from a snapshot, the adapters that
    turn owner records into observations, and what holds of the evidence and
    activity receipts a snapshot stores. *)

From stdpp Require Import base list option gmap strings.
From Stdlib Require Import Lia NArith ZArith.
From S2P Require Import Prelude RustStr ProviderRegistry Providers WgModel WgValidate WgSearch WgSpec.

Module WgProjection.
Import Providers WgModel WgValidate WgSpec.

(** ** The legacy views (tools/plan.rs, tools/todo.rs, compat.rs) *)

Inductive StepStatus : Type := StepPending | StepInProgress | StepCompleted.

Inductive TodoStatus : Type := TodoPending | TodoInProgress | TodoCompleted | TodoCancelled.

#[export] Instance TodoStatus_eq_dec : EqDecision TodoStatus.
Proof. solve_decision. Defined.

Definition is_settled (s : TodoStatus) : bool :=
  match s with TodoCompleted | TodoCancelled => true | _ => false end.

Record PlanItemArg : Type := { step : list N; step_status : StepStatus }.

(** [PlanSnapshot]: the plan metadata and its items. *)
Record PlanSnapshot : Type := { plan_metadata : CompatPlanMetadata; plan_items : list PlanItemArg }.

Record TodoItem : Type := { todo_id : N; todo_content : list N; status : TodoStatus }.

Record TodoListSnapshot : Type := {
  items : list TodoItem;
  completion_pct : N;
  in_progress_id : option N
}.

Definition plan_status (n : WorkNode) : StepStatus :=
  match state n with
  | Initializing | Active => StepInProgress
  | Completed | Verified => StepCompleted
  | _ => StepPending
  end.

Definition todo_status (n : WorkNode) : TodoStatus :=
  match state n with
  | Initializing | Active => TodoInProgress
  | Completed | Verified => TodoCompleted
  | Cancelled | Superseded => TodoCancelled
  | _ => TodoPending
  end.

(** The two conversions copy the eleven metadata fields. *)
Definition from_plan_snapshot (s : PlanSnapshot) : CompatPlanMetadata :=
  let m := plan_metadata s in
  {| plan_title := plan_title m; objective := objective m; context_summary := context_summary m;
     explanation := explanation m; sources_used := sources_used m; critical_files := critical_files m;
     constraints := constraints m; recommended_approach := recommended_approach m;
     verification_plan := verification_plan m; risks_and_unknowns := risks_and_unknowns m;
     handoff_packet := handoff_packet m |}.

Definition to_plan_snapshot (m : CompatPlanMetadata) : PlanSnapshot :=
  {| plan_metadata :=
       {| plan_title := plan_title m; objective := objective m; context_summary := context_summary m;
          explanation := explanation m; sources_used := sources_used m;
          critical_files := critical_files m; constraints := constraints m;
          recommended_approach := recommended_approach m; verification_plan := verification_plan m;
          risks_and_unknowns := risks_and_unknowns m; handoff_packet := handoff_packet m |};
     plan_items := [] |}.

Definition project_plan (g : WorkGraphSnapshot) : PlanSnapshot :=
  {| plan_metadata := plan_metadata (to_plan_snapshot (plan (compat g)));
     plan_items := (fun n => {| step := title n; step_status := plan_status n |})
                   <$> omap (node g) (plan_order (compat g)) |}.

(** [usize] arithmetic at 64 bits and the conversion to [u8]. *)
Definition usize_saturating_mul (a b : N) : N := N.min (a * b) (u64_modulus - 1).
Definition u8_try_from (n : N) : option N := if (n <? 256)%N then Some n else None.

Definition completion (settled len : nat) : N :=
  if len =? 0 then 0%N
  else
    let rounded := ((usize_saturating_mul (N.of_nat settled) 100 + N.of_nat len / 2) / N.of_nat len)%N in
    default 255%N (u8_try_from rounded).

Definition project_todo (g : WorkGraphSnapshot) (b : CompatTodoBinding) : option TodoItem :=
  (fun n => {| todo_id := legacy_id b; todo_content := title n; status := todo_status n |})
  <$> node g (todo_node b).

Definition project_todos (g : WorkGraphSnapshot) : TodoListSnapshot :=
  let rows := omap (project_todo g) (todos (compat g)) in
  {| items := rows;
     completion_pct :=
       completion (length (List.filter (fun i => is_settled (status i)) rows)) (length rows);
     in_progress_id :=
       todo_id <$> List.find (fun i => bool_decide (status i = TodoInProgress)) rows |}.

(** ** Owner adapters (liveness.rs) *)

Inductive TaskStatus : Type := TaskQueued | TaskRunning | TaskCompleted | TaskFailed | TaskCanceled.
Inductive FleetTaskLedgerStatus : Type :=
| FleetEnqueued | FleetLeased | FleetCompleted | FleetFailed | FleetCancelled.
Inductive LaneStatus : Type := LanePending | LaneRunning | LaneStopped | LaneFailed | LaneCompleted.

Record OperationIntent : Type := {
  intent_external : list N;
  intent_title : list N;
  intent_durable : bool;
  intent_source : list N;
  intent_call_id : list N;
  intent_acceptance : list AcceptanceRequirement
}.

Definition intent_new (external title : list N) (durable : bool) (source call_id : list N)
  : OperationIntent :=
  {| intent_external := external; intent_title := title; intent_durable := durable;
     intent_source := source; intent_call_id := call_id; intent_acceptance := [] |}.

Definition with_acceptance (i : OperationIntent) (acc : list AcceptanceRequirement) : OperationIntent :=
  {| intent_external := intent_external i; intent_title := intent_title i;
     intent_durable := intent_durable i; intent_source := intent_source i;
     intent_call_id := intent_call_id i; intent_acceptance := acc |}.

Record OperationOwnerSnapshot : Type := {
  owner_external : list N;
  owner_reported : OwnerState;
  owner_seq : N;
  owner_observed_at : Ts;
  owner_output : option EvidenceRef
}.

Definition owner_snapshot_new (external : list N) (s : OwnerState) (seq : N) (at_ : Ts)
  : OperationOwnerSnapshot :=
  {| owner_external := external; owner_reported := s; owner_seq := seq; owner_observed_at := at_;
     owner_output := None |}.

Definition with_output (o : OperationOwnerSnapshot) (ev : EvidenceRef) : OperationOwnerSnapshot :=
  {| owner_external := owner_external o; owner_reported := owner_reported o; owner_seq := owner_seq o;
     owner_observed_at := owner_observed_at o; owner_output := Some ev |}.

Definition into_observation (o : OperationOwnerSnapshot) : OperationObservation :=
  OwnerReported (owner_reported o) (owner_seq o) (owner_observed_at o) (owner_output o).

(** Times are given in milliseconds, as [timestamp_millis] returns them. *)
Definition task_owner_snapshot (id : list N) (s : TaskStatus) (lifecycle_seq : N) (created_at : Ts)
  (started_at ended_at : option Ts) : OperationOwnerSnapshot :=
  let st := match s with
            | TaskQueued => OwnerInitializing
            | TaskRunning => OwnerRunning
            | TaskCompleted => OwnerCompleted
            | TaskFailed => OwnerFailed
            | TaskCanceled => OwnerCancelled
            end in
  let observed_at := match ended_at with
                     | Some t => t
                     | None => default created_at started_at
                     end in
  owner_snapshot_new (lit "task:" ++ id) st lifecycle_seq observed_at.

Definition fleet_task_owner_snapshot (run_id task_id : list N) (s : FleetTaskLedgerStatus)
  (lifecycle_seq : N) (observed_at : Ts) : OperationOwnerSnapshot :=
  let st := match s with
            | FleetEnqueued => OwnerInitializing
            | FleetLeased => OwnerRunning
            | FleetCompleted => OwnerCompleted
            | FleetFailed => OwnerFailed
            | FleetCancelled => OwnerCancelled
            end in
  owner_snapshot_new (lit "fleet:" ++ run_id ++ lit "/" ++ task_id) st (N.max lifecycle_seq 1)
    observed_at.

Definition lane_owner_snapshot (id : list N) (s : LaneStatus) (lifecycle_seq : N) (observed_at : Ts)
  : OperationOwnerSnapshot :=
  let st := match s with
            | LanePending => OwnerInitializing
            | LaneRunning => OwnerRunning
            | LaneStopped => OwnerCancelled
            | LaneFailed => OwnerFailed
            | LaneCompleted => OwnerCompleted
            end in
  owner_snapshot_new (lit "lane:" ++ id) st (N.max lifecycle_seq 1) observed_at.

(** ** Lemmas *)

Lemma omap_total {A B} (f : A -> option B) (Q : A -> B -> Prop) l :
  (forall x, x ∈ l -> exists y, f x = Some y /\ Q x y) -> Forall2 Q l (omap f l).
Proof.
  induction l as [|x l IH]; intros Hf; cbn; [constructor|].
  destruct (Hf x ltac:(left)) as (y & -> & Hq). constructor; [done|].
  apply IH. intros z Hz. apply Hf. by right.
Qed.

Lemma completion_bound settled len : settled <= len -> (completion settled len <= 100)%N.
Proof.
  intros Hs. unfold completion. destruct (Nat.eqb_spec len 0) as [->|Hl]; [lia|].
  set (n := N.of_nat len). set (s := N.of_nat settled).
  assert (s <= n)%N as Hsn by lia. assert (n <> 0)%N as Hn by lia.
  assert ((usize_saturating_mul s 100 + n / 2) / n < 101)%N as Hr.
  { apply N.Div0.div_lt_upper_bound. pose proof (N.div_lt n 2 ltac:(lia) ltac:(lia)).
    unfold usize_saturating_mul. lia. }
  unfold u8_try_from. destruct (N.ltb_spec ((usize_saturating_mul s 100 + n / 2) / n) 256); cbn; lia.
Qed.

Lemma project_todo_id g b i : project_todo g b = Some i -> todo_id i = legacy_id b.
Proof. unfold project_todo. destruct (node g (todo_node b)); [|done]. by intros [= <-]. Qed.

Lemma existsb_false {A} (q : A -> bool) l : existsb q l = false <-> Forall (fun x => q x = false) l.
Proof.
  rewrite <-not_true_iff_false, existsb_elem_of, Forall_forall. setoid_rewrite <-not_true_iff_false.
  naive_solver.
Qed.

Lemma citation_url_ok_spec u :
  citation_url_ok u = true <->
    (scheme u = lit "http" \/ scheme u = lit "https") /\ host_str u <> None
    /\ username u = [] /\ password u = None /\ web_citation_url_has_sensitive_query u = false.
Proof.
  unfold citation_url_ok. rewrite !andb_true_iff, orb_true_iff, !str_eqb_spec, negb_true_iff.
  destruct (host_str u), (username u), (password u); naive_solver.
Qed.

(** ** Properties *)

(** On a valid snapshot the legacy views lose nothing: the plan view has one row
    per plan entry, in order, with the title and status of its step; the To-do
    view has one row per binding with distinct non-zero ids, its percentage is at
    most 100, and the row it names as in progress is one of its rows. *)
Theorem projections_are_total (g : WorkGraphSnapshot) :
  Valid g ->
  Forall2 (fun id row => exists n, node g id = Some n /\ node_kind n = PlanStep
      /\ step row = title n /\ step_status row = plan_status n)
    (plan_order (compat g)) (plan_items (project_plan g))
  /\ from_plan_snapshot (project_plan g) = plan (compat g)
  /\ todo_id <$> items (project_todos g) = legacy_id <$> todos (compat g)
  /\ NoDup (todo_id <$> items (project_todos g))
  /\ (completion_pct (project_todos g) <= 100)%N
  /\ (forall i, in_progress_id (project_todos g) = Some i ->
        exists row, row ∈ items (project_todos g) /\ todo_id row = i /\ status row = TodoInProgress).
Proof.
  intros Hv. destruct (valid_projection _ Hv) as [P1 P2 P3 P4 P5].
  assert (todo_id <$> items (project_todos g) = legacy_id <$> todos (compat g)) as Hids.
  { unfold project_todos. cbn [items].
    symmetry. apply list_eq_Forall2, Forall2_fmap, omap_total. intros b Hb.
    destruct (P4 b Hb) as (_ & (n & Hn & _) & _). unfold project_todo. rewrite Hn. by eexists. }
  split_and!; try done.
  - unfold project_plan. cbn [plan_items]. apply Forall2_fmap_r, omap_total. intros id Hid.
    destruct (P2 id Hid) as (n & Hn & Hk). eauto 10.
  - unfold from_plan_snapshot, project_plan, to_plan_snapshot. cbn. by destruct (plan (compat g)).
  - by rewrite Hids.
  - apply completion_bound. apply List.filter_length_le.
  - intros i Hi. unfold project_todos in Hi. cbn [in_progress_id] in Hi.
    destruct (List.find _ _) as [row|] eqn:E; [|done]. injection Hi as <-.
    apply find_elem_of in E as [Hin Hst%bool_decide_eq_true]. by exists row.
Qed.

Lemma projections_are_total_witness :
  (completion_pct (project_todos snapshot_new) <= 100)%N.
Proof.
  assert (Valid snapshot_new) as Hv by (apply validate_ok; vm_compute; reflexivity).
  apply (projections_are_total snapshot_new Hv).
Defined.

(** Stored evidence is a reference and nothing else: a reference that is accepted
    is non-empty, at most 512 characters, without white space or control
    characters, not an absolute, drive or home path, and without key material; a
    web citation also names its own reference and an http or https address with a
    host, no credentials and no secret-bearing query. Reading an accepted
    reference back from storage gives it again. *)
Theorem evidence_is_reference_only `{Parsers} (kind : EvidenceKind) (ref : list N)
    (raw : option N) (cut : bool) (ev : EvidenceRef) :
  evidence_ref_new kind ref raw cut = Ok ev ->
  ev_kind ev = kind /\ reference ev = ref /\ raw_bytes ev = raw /\ truncated ev = cut
  /\ ref <> [] /\ length ref <= EVIDENCE_REFERENCE_MAX_LEN
  /\ Forall (fun c => is_whitespace c = false /\ is_control c = false) ref
  /\ (forall c, head ref = Some c -> c <> c_slash /\ c <> c_backslash /\ c <> 126%N)
  /\ drive_absolute ref = false /\ str_contains (lit "-----BEGIN") ref = false
  /\ (forall ref_id url at_, kind = WebCitation ref_id url at_ ->
        ref_id = ref /\ parse_from_rfc3339 at_ = true
        /\ exists u, url_parse url = Some u
             /\ (scheme u = lit "http" \/ scheme u = lit "https") /\ host_str u <> None
             /\ username u = [] /\ password u = None
             /\ web_citation_url_has_sensitive_query u = false)
  /\ evidence_try_from ev = Ok ev.
Proof.
  intros Hnew. assert (ev = {| ev_kind := kind; reference := ref; raw_bytes := raw; truncated := cut |}) as ->.
  { revert Hnew. unfold evidence_ref_new. repeat case_match; congruence. }
  assert (evidence_try_from {| ev_kind := kind; reference := ref; raw_bytes := raw; truncated := cut |}
    = Ok {| ev_kind := kind; reference := ref; raw_bytes := raw; truncated := cut |}) as Hback by done.
  revert Hnew. unfold evidence_ref_new.
  destruct (str_is_empty ref) eqn:E1; [done|].
  destruct (Nat.ltb_spec EVIDENCE_REFERENCE_MAX_LEN (length ref)) as [|E2]; [done|].
  destruct (starts_with_char c_slash ref || starts_with_char c_backslash ref || drive_absolute ref) eqn:E3;
    [done|]. apply orb_false_iff in E3 as [[E3 E4]%orb_false_iff E5].
  destruct (starts_with_char 126 ref) eqn:E6; [done|].
  destruct (existsb (fun c => is_whitespace c || is_control c) ref) eqn:E7; [done|].
  destruct (str_contains (lit "-----BEGIN") ref) eqn:E8; [done|]. intros Hk.
  apply existsb_false in E7. cbn [ev_kind reference raw_bytes truncated].
  split_and!; try done.
  - by destruct ref.
  - eapply Forall_impl; [exact E7|]. intros c Hc. by apply orb_false_iff in Hc.
  - intros c Hc. destruct ref as [|d ref]; [done|]. injection Hc as ->.
    cbn [starts_with_char] in *. apply N.eqb_neq in E3, E4, E6. done.
  - intros ref_id url at_ ->. destruct (str_eqb ref_id ref) eqn:Er; [|done].
    apply str_eqb_spec in Er. split; [done|]. destruct (url_parse url) as [u|]; [|done].
    destruct (citation_url_ok u) eqn:Eu; [|done]. destruct (parse_from_rfc3339 at_); [|done].
    split; [done|]. exists u. split; [done|]. by apply citation_url_ok_spec.
Qed.

(** The endpoints a vendor serves itself. *)
Definition vendor_endpoint (p : ApiProvider) (e : list N) : bool :=
  match p with
  | Zai => is_exact_zai_chat_route Zai e
  | Minimax => is_exact_minimax_chat_route ProviderRegistry.KMinimax e
  | MinimaxAnthropic => is_exact_minimax_anthropic_route ProviderRegistry.KMinimaxAnthropic e
  | _ => false
  end.

Lemma constrained_vendor req p e m :
  p ∈ [Zai; Minimax; MinimaxAnthropic] ->
  exists t, constrained_effective_reasoning_for_route req p e m = Some t
    /\ (t <> Unavailable -> vendor_endpoint p e = true).
Proof.
  intros Hp. unfold constrained_effective_reasoning_for_route.
  repeat (apply elem_of_cons in Hp as [->|Hp]); [..|by apply not_elem_of_nil in Hp];
    cbn [vendor_endpoint].
  - rewrite bool_decide_eq_true_2 by done. destruct (is_exact_zai_chat_route Zai e); cbn [negb];
      repeat case_match; eauto; by eexists.
  - rewrite bool_decide_eq_false_2, bool_decide_eq_true_2 by done.
    unfold is_exact_minimax_m3_route. rewrite bool_decide_eq_true_2 by done.
    destruct (is_exact_minimax_chat_route _ e); cbn [andb]; repeat case_match; eauto; by eexists.
  - rewrite !bool_decide_eq_false_2, bool_decide_eq_true_2 by done.
    unfold is_exact_minimax_anthropic_m3_route. rewrite bool_decide_eq_true_2 by done.
    destruct (is_exact_minimax_anthropic_route _ e); cbn [andb]; repeat case_match; eauto; by eexists.
Qed.

(** A receipt on the ledger claims a reasoning tier for a Z.ai, MiniMax or custom
    provider only when the recorded endpoint is the vendor's own; for a gateway,
    and always for a custom provider, the effective tier is [Unavailable]. An
    event read back without its full route never claims a tier. *)
Theorem effort_claims_need_vendor_route (g : WorkGraphSnapshot) (a w : WorkActivityEvent)
    (p : ApiProvider) :
  activity_sound g a -> provider_kind a = Some p -> p ∈ [Zai; Minimax; MinimaxAnthropic; Custom] ->
  (effective a <> Unavailable ->
    exists e m, endpoint_identity a = Some e /\ model a = Some m /\ vendor_endpoint p e = true
      /\ as_str p = Some (provider a))
  /\ (provider_kind w = None \/ endpoint_identity w = None \/ model w = None ->
      effective (activity_from_wire w) = Unavailable /\ effective_allowed (activity_from_wire w)).
Proof.
  intros [_ _ Heff _] Hp Hin. split.
  - intros Hne. unfold effective_allowed in Heff. rewrite Hp in Heff.
    destruct (provenance_is_bounded a) eqn:Eb; [|done]. destruct Heff as [Hid Hc].
    unfold provenance_is_bounded in Eb.
    destruct (endpoint_identity a) as [e|] eqn:Ee; [|by rewrite andb_false_r in Eb].
    destruct (model a) as [m|] eqn:Em; [|by rewrite andb_false_r in Eb].
    exists e, m. split; [done|]. split; [done|].
    destruct (decide (p = Custom)) as [->|Hnc]; [done|].
    assert (activity_constraint a p = constrained_effective_reasoning_for_route (requested a) p e m)
      as Eac by (unfold activity_constraint; rewrite Ee, Em; by destruct p).
    assert (p ∈ [Zai; Minimax; MinimaxAnthropic]) as Hin' by set_solver.
    destruct (constrained_vendor (requested a) p e m Hin') as (t & Ht & Hvend).
    assert (effective a = t) as Het by by rewrite Eac, Ht in Hc.
    split; [apply Hvend; congruence|]. by destruct Hid.
  - intros Hw. unfold activity_from_wire, effective_allowed, provenance_is_bounded.
    destruct w as [rq ef [k|] pr [e|] [m|] ts op]; cbn in *; try done;
      [by destruct Hw as [?|[?|?]]|..]; (split; [done|]); rewrite ?andb_false_r; done.
Qed.

Definition zai_event (endpoint : list N) (eff : ReasoningEffortTier) : WorkActivityEvent :=
  ReasoningEffortChanged Medium eff (Some Zai) (lit "zai") (Some endpoint) (Some (lit "GLM-5.3")) 1 None.

Lemma effort_claims_need_vendor_route_witness :
  exists e m, endpoint_identity (zai_event (lit "https://api.z.ai/api/paas/v4") High) = Some e
    /\ model (zai_event (lit "https://api.z.ai/api/paas/v4") High) = Some m
    /\ vendor_endpoint Zai e = true.
Proof.
  set (a := zai_event (lit "https://api.z.ai/api/paas/v4") High).
  destruct (effort_claims_need_vendor_route snapshot_new a a Zai) as [Hc _].
  - apply check_activity_nil. vm_compute. reflexivity.
  - reflexivity.
  - left.
  - destruct Hc as (e & m & H1 & H2 & H3 & _); [done|]. exists e, m. split; [exact H1|].
    split; [exact H2|exact H3].
Defined.

(** A URL parser for `scheme://host` addresses and a length check for timestamps. *)
Definition plain_parsers : Parsers := {|
  url_parse := fun s =>
    '(sch, rest) ← split_once_str (lit "://") s;
    Some {| scheme := sch; host_str := if str_is_empty rest then None else Some rest;
            username := []; password := None; query_pairs := [] |};
  parse_from_rfc3339 := fun s => length s =? 20
|}.

Definition cited : EvidenceRef := {|
  ev_kind := WebCitation (lit "cite:7") (lit "https://docs.rs") (lit "2026-08-04T10:00:00Z");
  reference := lit "cite:7"; raw_bytes := Some 12%N; truncated := false |}.

Lemma evidence_is_reference_only_witness :
  @evidence_ref_new plain_parsers (ev_kind cited) (reference cited) (raw_bytes cited) false = Ok cited
  /\ (exists u, @url_parse plain_parsers (lit "https://docs.rs") = Some u /\ host_str u <> None)
  /\ @evidence_try_from plain_parsers cited = Ok cited.
Proof.
  assert (Hnew : @evidence_ref_new plain_parsers (ev_kind cited) (reference cited) (raw_bytes cited)
                   false = Ok cited) by (vm_compute; reflexivity).
  destruct (@evidence_is_reference_only plain_parsers _ _ _ _ _ Hnew)
    as (_ & _ & _ & _ & _ & _ & _ & _ & _ & _ & Hweb & Hback).
  destruct (Hweb _ _ _ eq_refl) as (_ & _ & u & Hu & _ & Hhost & _).
  split; [exact Hnew|]. split; [|exact Hback]. exists u. split; [exact Hu|exact Hhost].
Defined.

(** ** The view can still show two rows in progress *)

Definition step_node (id : string) (s : NodeState) : WorkNode :=
  {| node_id := lit id; node_kind := PlanStep; title := lit id; state := s; acceptance := [];
     binding := None; evidence := None; provenance := ToolUpdate (lit "t") (lit "c");
     created_at := 1; updated_at := 1 |}.

Definition two_rows : WorkGraphSnapshot :=
  with_compat (with_nodes snapshot_new [step_node "wn:a" Active; step_node "wn:b" Initializing])
    {| plan := empty_plan_metadata; plan_order := [];
       todos := [{| legacy_id := 1; todo_node := lit "wn:a"; plan_index := None |};
                 {| legacy_id := 2; todo_node := lit "wn:b"; plan_index := None |}] |}.

(** Validation admits one active To-do row but counts only [Active], while the view
    shows [Initializing] as in progress too: a snapshot that validates can show
    two rows in progress. *)
Theorem two_rows_in_progress :
  validate two_rows = Ok tt
  /\ status <$> items (project_todos two_rows) = [TodoInProgress; TodoInProgress].
Proof. split; vm_compute; reflexivity. Qed.

End WgProjection.
