(* ===== verification/WgLegacy.v ===== *)
(** * The legacy Plan and To-do states (crates/tui/src/tools/plan.rs, todo.rs)

    The mutable states behind the two tools, with the normalisation they apply to
    every payload. The work-graph runtime imports them and publishes its projections
    through them. *)

From stdpp Require Import base list option gmap strings.
From Stdlib Require Import Lia NArith ZArith.
From S2P Require Import Prelude RustStr WgModel WgProjection.

Module WgLegacy.
Import WgModel WgProjection.

#[export] Instance StepStatus_eq_dec : EqDecision StepStatus.
Proof. solve_decision. Defined.
#[export] Instance PlanItemArg_eq_dec : EqDecision PlanItemArg.
Proof. solve_decision. Defined.
#[export] Instance CompatPlanMetadata_eq_dec : EqDecision CompatPlanMetadata.
Proof. solve_decision. Defined.
#[export] Instance PlanSnapshot_eq_dec : EqDecision PlanSnapshot.
Proof. solve_decision. Defined.
#[export] Instance TodoItem_eq_dec : EqDecision TodoItem.
Proof. solve_decision. Defined.
#[export] Instance TodoListSnapshot_eq_dec : EqDecision TodoListSnapshot.
Proof. solve_decision. Defined.

(** ** Plans *)

Definition clean_optional (value : option (list N)) : option (list N) :=
  s ← value; if str_is_empty (trim s) then None else Some (trim s).

Definition clean_list (values : list (list N)) : list (list N) :=
  List.filter (fun v => negb (str_is_empty v)) (trim <$> values).

Definition clean_metadata (m : CompatPlanMetadata) : CompatPlanMetadata :=
  {| plan_title := clean_optional (plan_title m); objective := clean_optional (objective m);
     context_summary := clean_optional (context_summary m); explanation := clean_optional (explanation m);
     sources_used := clean_list (sources_used m); critical_files := clean_list (critical_files m);
     constraints := clean_list (constraints m);
     recommended_approach := clean_optional (recommended_approach m);
     verification_plan := clean_optional (verification_plan m);
     risks_and_unknowns := clean_optional (risks_and_unknowns m);
     handoff_packet := clean_optional (handoff_packet m) |}.

(** [plan::PlanStep]. *)
Record TimedPlanStep : Type := {
  text : list N;
  ps_status : StepStatus;
  started_at : option Z;
  completed_at : option Z
}.

(** [PlanState]: the eleven metadata fields and the steps. *)
Record PlanState : Type := { ps_metadata : CompatPlanMetadata; steps : list TimedPlanStep }.

Definition plan_state_default : PlanState := {| ps_metadata := empty_plan_metadata; steps := [] |}.

(** One item of the payload: the step it becomes, with the times of an existing step
    of the same text. *)
Definition plan_step_for (old_steps : list TimedPlanStep) (now : Z) (step_text : list N) (status : StepStatus)
    : TimedPlanStep :=
  match List.find (fun s => str_eqb (text s) step_text) old_steps with
  | Some old =>
      {| text := text old; ps_status := status;
         started_at := if bool_decide (ps_status old = StepPending /\ status = StepInProgress)
                       then Some now else started_at old;
         completed_at := if bool_decide (ps_status old = StepInProgress /\ status = StepCompleted)
                         then Some now else completed_at old |}
  | None =>
      {| text := step_text; ps_status := status;
         started_at := if bool_decide (status = StepInProgress) then Some now else None;
         completed_at := None |}
  end.

(** The loop over the items; [seen] is [in_progress_seen]. *)
Fixpoint update_steps (old_steps : list TimedPlanStep) (now : Z) (seen : bool) (plan : list PlanItemArg)
    : list TimedPlanStep :=
  match plan with
  | [] => []
  | item :: rest =>
      let step_text := trim (step item) in
      if str_is_empty step_text then update_steps old_steps now seen rest
      else
        let in_progress := bool_decide (step_status item = StepInProgress) in
        let status := if in_progress && seen then StepPending else step_status item in
        plan_step_for old_steps now step_text status :: update_steps old_steps now (seen || in_progress) rest
  end.

(** [UpdatePlanArgs] has the fields of a plan snapshot. *)
Definition plan_update (s : PlanState) (now : Z) (args : PlanSnapshot) : PlanState :=
  {| ps_metadata := clean_metadata (plan_metadata args);
     steps := update_steps (steps s) now false (plan_items args) |}.

Definition plan_snapshot (s : PlanState) : PlanSnapshot :=
  {| plan_metadata := ps_metadata s;
     plan_items := (fun s => {| step := text s; step_status := ps_status s |}) <$> steps s |}.

Definition plan_from_snapshot (now : Z) (s : PlanSnapshot) : PlanState := plan_update plan_state_default now s.

Definition plan_is_empty (s : PlanSnapshot) : bool :=
  plan_metadata_is_empty (plan_metadata s) && is_nil (plan_items s).

Definition plan_counts (s : PlanState) : nat * nat * nat :=
  let count x := length (List.filter (fun t => bool_decide (ps_status t = x)) (steps s)) in
  (count StepPending, count StepInProgress, count StepCompleted).

Definition progress_percent (s : PlanState) : N :=
  if is_nil (steps s) then 0%N
  else
    let completed := length (List.filter (fun t => bool_decide (ps_status t = StepCompleted)) (steps s)) in
    default 255%N (u8_try_from (usize_saturating_mul (N.of_nat completed) 100 / N.of_nat (length (steps s)))).

(** ** To-do lists *)

Definition u32_max : N := 4294967295.

Record TodoList : Type := { tl_items : list TodoItem; next_id : N }.

Definition todo_list_new : TodoList := {| tl_items := []; next_id := 1 |}.

Definition completion_percentage (l : TodoList) : N :=
  if is_nil (tl_items l) then 0%N
  else
    let total := N.of_nat (length (tl_items l)) in
    let settled := N.of_nat (length (List.filter (fun i => is_settled (status i)) (tl_items l))) in
    default 255%N (u8_try_from ((usize_saturating_mul settled 100 + total / 2) / total)).

Definition list_in_progress_id (l : TodoList) : option N :=
  todo_id <$> List.find (fun i => bool_decide (status i = TodoInProgress)) (tl_items l).

Definition todo_snapshot (l : TodoList) : TodoListSnapshot :=
  {| items := tl_items l; completion_pct := completion_percentage l; in_progress_id := list_in_progress_id l |}.

Inductive todo_error : Type :=
  | ZeroTodoId | DuplicateTodoId (id : N) | SecondInProgress | TodoIdsExhausted.

(** The loop of [from_snapshot]; the result is the greatest id. *)
Fixpoint check_items (seen : gset N) (in_progress_count : nat) (max_id : N) (l : list TodoItem)
    : result N todo_error :=
  match l with
  | [] => Ok max_id
  | item :: rest =>
      if (todo_id item =? 0)%N then Err ZeroTodoId
      else if bool_decide (todo_id item ∈ seen) then Err (DuplicateTodoId (todo_id item))
      else
        let is_ip := bool_decide (status item = TodoInProgress) in
        if is_ip && (1 <? in_progress_count + 1) then Err SecondInProgress
        else check_items ({[todo_id item]} ∪ seen)
               (if is_ip then in_progress_count + 1 else in_progress_count) (N.max max_id (todo_id item)) rest
  end.

Definition todo_from_snapshot (s : TodoListSnapshot) : result TodoList todo_error :=
  let? max_id := check_items ∅ 0 0 (items s) in
  if is_nil (items s) then Ok {| tl_items := items s; next_id := 1 |}
  else if (max_id <? u32_max)%N then Ok {| tl_items := items s; next_id := (max_id + 1)%N |}
  else Err TodoIdsExhausted.

Definition set_single_in_progress (allow_id : option N) (l : list TodoItem) : list TodoItem :=
  (fun i => if negb (bool_decide (Some (todo_id i) = allow_id)) && bool_decide (status i = TodoInProgress)
            then {| todo_id := todo_id i; todo_content := todo_content i; status := TodoPending |} else i) <$> l.

(** [next_id += 1]: [None] is the overflow, which panics in a build with overflow
    checks. *)
Definition todo_add (l : TodoList) (content : list N) (st : TodoStatus) : option (TodoList * TodoItem) :=
  let items' := if bool_decide (st = TodoInProgress) then set_single_in_progress None (tl_items l) else tl_items l in
  let item := {| todo_id := next_id l; todo_content := content; status := st |} in
  if (next_id l <? u32_max)%N
  then Some ({| tl_items := items' ++ [item]; next_id := (next_id l + 1)%N |}, item) else None.

Definition todo_clear (l : TodoList) : TodoList := {| tl_items := []; next_id := 1 |}.

Definition todos_is_empty (s : TodoListSnapshot) : bool := is_nil (items s).

(** ** Normal plans *)

(** The items a plan state keeps as they are: trimmed non-empty steps, at most one of
    them in progress. *)
Definition in_progress_steps (l : list PlanItemArg) : nat :=
  length (List.filter (fun i => bool_decide (step_status i = StepInProgress)) l).

Definition normal_items (l : list PlanItemArg) : Prop :=
  Forall (fun i => trim (step i) = step i /\ step i <> []) l /\ in_progress_steps l <= 1.

Definition normal_plan (s : PlanSnapshot) : Prop :=
  clean_metadata (plan_metadata s) = plan_metadata s /\ normal_items (plan_items s).

Definition item_of (s : TimedPlanStep) : PlanItemArg := {| step := text s; step_status := ps_status s |}.

Lemma clean_optional_idemp o : clean_optional (clean_optional o) = clean_optional o.
Proof.
  destruct o as [s|]; [|done]. cbn. destruct (str_is_empty (trim s)) eqn:E; [done|]. cbn.
  by rewrite trim_idemp, E.
Qed.

Lemma clean_list_idemp l : clean_list (clean_list l) = clean_list l.
Proof.
  induction l as [|s l IH]; [done|]. unfold clean_list in *. cbn [fmap list_fmap List.filter].
  destruct (str_is_empty (trim s)) eqn:E; cbn [negb]; [done|].
  cbn [fmap list_fmap List.filter]. rewrite trim_idemp, E. cbn [negb]. by f_equal.
Qed.

Lemma clean_metadata_idemp m : clean_metadata (clean_metadata m) = clean_metadata m.
Proof. unfold clean_metadata. cbn -[clean_optional clean_list]. by rewrite !clean_optional_idemp, !clean_list_idemp. Qed.

(** The text and status of a step do not depend on the steps before the update. *)
Lemma plan_step_for_item old now s st : item_of (plan_step_for old now s st) = {| step := s; step_status := st |}.
Proof.
  unfold plan_step_for, item_of. destruct (List.find _ _) as [o|] eqn:E; [|done]. cbn.
  apply find_elem_of in E as [_ E%str_eqb_spec]. by rewrite E.
Qed.

(** The items of the updated steps. *)
Fixpoint normalise (seen : bool) (l : list PlanItemArg) : list PlanItemArg :=
  match l with
  | [] => []
  | i :: l' =>
      if str_is_empty (trim (step i)) then normalise seen l'
      else
        let ip := bool_decide (step_status i = StepInProgress) in
        {| step := trim (step i); step_status := if ip && seen then StepPending else step_status i |}
        :: normalise (seen || ip) l'
  end.

Lemma update_steps_items old now seen l : item_of <$> update_steps old now seen l = normalise seen l.
Proof.
  revert seen. induction l as [|i l IH]; intros seen; [done|]. cbn [update_steps normalise].
  destruct (str_is_empty (trim (step i))); [done|]. cbn [fmap list_fmap]. by rewrite plan_step_for_item, IH.
Qed.

Lemma in_progress_cons i l : in_progress_steps (i :: l) =
  (if bool_decide (step_status i = StepInProgress) then 1 else 0) + in_progress_steps l.
Proof. unfold in_progress_steps. cbn. by case_bool_decide. Qed.

Lemma normalise_normal seen l :
  Forall (fun i => trim (step i) = step i /\ step i <> []) (normalise seen l)
  /\ in_progress_steps (normalise seen l) <= (if seen then 0 else 1).
Proof.
  revert seen. induction l as [|i l IH]; intros seen; cbn [normalise]; [by destruct seen; split; cbn; auto with lia|].
  destruct (trim (step i)) as [|c t] eqn:E; [apply IH|]. cbn [str_is_empty].
  set (ip := bool_decide (step_status i = StepInProgress)).
  destruct (IH (seen || ip)) as [H1 H2]. split.
  - constructor; [|done]. cbn [step]. rewrite <-E. split; [apply trim_idemp|by rewrite E].
  - rewrite in_progress_cons. cbn [step_status]. subst ip.
    destruct seen; case_bool_decide; cbn [andb orb] in *; case_bool_decide; try done; lia.
Qed.

Lemma normalise_id (seen : bool) l :
  Forall (fun i => trim (step i) = step i /\ step i <> []) l ->
  in_progress_steps l <= (if seen then 0 else 1) -> normalise seen l = l.
Proof.
  intros Hf. revert seen. induction Hf as [|i l [Ht Hne] Hf IH]; intros seen; [done|].
  rewrite in_progress_cons. cbn [normalise]. rewrite Ht. destruct (step i) as [|c t] eqn:E; [done|].
  cbn [str_is_empty]. intros Hle.
  assert ((if bool_decide (step_status i = StepInProgress) && seen then StepPending else step_status i)
    = step_status i) as -> by (destruct seen; case_bool_decide; cbn in *; (done || lia)).
  rewrite <-E. f_equal; [by destruct i|]. apply IH. destruct seen; case_bool_decide; cbn [orb] in *; lia.
Qed.

(** ** Properties of the plan state *)

Lemma plan_snapshot_from now s :
  plan_snapshot (plan_from_snapshot now s) =
    {| plan_metadata := clean_metadata (plan_metadata s); plan_items := normalise false (plan_items s) |}.
Proof. unfold plan_snapshot. cbn. f_equal. apply update_steps_items. Qed.

(** A plan survives its state exactly when it is normal. *)
Lemma plan_from_snapshot_normal now s : plan_snapshot (plan_from_snapshot now s) = s <-> normal_plan s.
Proof.
  rewrite plan_snapshot_from. destruct s as [m l]. unfold normal_plan, normal_items. cbn. split.
  - intros [= Hm Hl]. split; [done|]. destruct (normalise_normal false l) as [H1 H2]. by rewrite Hl in H1, H2.
  - intros [Hm [H1 H2]]. f_equal; [done|]. by apply (normalise_id false).
Qed.

Lemma plan_from_snapshot_is_normal now s : normal_plan (plan_snapshot (plan_from_snapshot now s)).
Proof.
  rewrite plan_snapshot_from. split; cbn; [apply clean_metadata_idemp|]. apply (normalise_normal false).
Qed.

(** ** Properties of To-do lists *)

Definition todos_in_progress (l : list TodoItem) : nat :=
  length (List.filter (fun i => bool_decide (status i = TodoInProgress)) l).

(** What a To-do list keeps: distinct non-zero ids below the next id, and at most one
    item in progress. *)
Definition list_ok (l : TodoList) : Prop :=
  NoDup (todo_id <$> tl_items l) /\ Forall (fun i => 0 < todo_id i < next_id l)%N (tl_items l)
  /\ todos_in_progress (tl_items l) <= 1 /\ (0 < next_id l <= u32_max)%N.

Lemma todos_in_progress_cons i l : todos_in_progress (i :: l) =
  (if bool_decide (status i = TodoInProgress) then 1 else 0) + todos_in_progress l.
Proof. unfold todos_in_progress. cbn. by case_bool_decide. Qed.

Lemma check_items_ok seen n m l :
  n <= 1 ->
  (exists k, check_items seen n m l = Ok k) <->
    fresh todo_id seen l /\ Forall (fun i => todo_id i <> 0%N) l /\ n + todos_in_progress l <= 1.
Proof.
  revert seen n m. induction l as [|i l IH]; intros seen n m Hn; cbn [check_items].
  { split; [intros _|by eauto]. split; [apply fresh_nil|]. split; [constructor|cbn; lia]. }
  rewrite fresh_cons, Forall_cons, todos_in_progress_cons.
  destruct (N.eqb_spec (todo_id i) 0); [by split; [intros [? ?]|naive_solver]|].
  case_bool_decide; [by split; [intros [? ?]|naive_solver]|].
  case_bool_decide; cbn [andb].
  - destruct (Nat.ltb_spec 1 (n + 1)); [split; [by intros [? ?]|lia]|]. rewrite IH by lia. intuition lia.
  - rewrite IH by lia. intuition lia.
Qed.

Lemma check_items_max seen n m l k :
  check_items seen n m l = Ok k -> (m <= k)%N /\ Forall (fun i => todo_id i <= k)%N l
    /\ (k = m \/ exists i, i ∈ l /\ todo_id i = k).
Proof.
  revert seen n m. induction l as [|i l IH]; intros seen n m; cbn [check_items].
  { intros [= <-]. split; [lia|]. split; [constructor|by left]. }
  destruct (_ =? 0)%N; [done|]. case_bool_decide; [done|]. destruct (_ && _); [done|].
  intros (H1 & H2 & H3)%IH. split; [lia|]. split; [constructor; [lia|done]|].
  destruct H3 as [->|(j & Hj & <-)]; [|right; exists j; split; [by right|done]].
  destruct (N.max_spec m (todo_id i)) as [[_ ->]|[_ ->]]; [right; exists i; split; [left|done]|by left].
Qed.

Lemma todo_from_snapshot_ok s :
  (exists l, todo_from_snapshot s = Ok l) <->
    NoDup (todo_id <$> items s) /\ Forall (fun i => 0 < todo_id i < u32_max)%N (items s)
    /\ todos_in_progress (items s) <= 1.
Proof.
  pose proof (check_items_ok ∅ 0 0 (items s) ltac:(lia)) as Hc. rewrite fresh_empty in Hc.
  unfold todo_from_snapshot. destruct (check_items ∅ 0 0 (items s)) as [k|e] eqn:E; cbn [result_bind].
  - destruct (proj1 Hc (ex_intro _ k eq_refl)) as (H1 & H2 & H3).
    destruct (check_items_max _ _ _ _ _ E) as (_ & Hle & Hk).
    destruct (items s) as [|i l] eqn:Ei; cbn [is_nil].
    { split; [intros _|eauto]. by split_and!. }
    rewrite <-Ei in *. destruct (N.ltb_spec k u32_max) as [Hlt|Hge].
    + split; [intros _|eauto]. split_and!; [done| |lia]. apply Forall_forall. intros x Hx.
      rewrite Forall_forall in H2, Hle. specialize (H2 x Hx). specialize (Hle x Hx). lia.
    + split; [by intros [? ?]|]. intros (_ & Hf & _). rewrite Forall_forall in Hf.
      destruct Hk as [->|(x & Hx & Ek)]; [done|]. specialize (Hf x Hx). lia.
  - split; [by intros [? ?]|]. intros (H1 & H2 & H3). destruct (proj2 Hc) as [k Hk]; [|done].
    split_and!; [done| |lia]. eapply Forall_impl; [exact H2|]. cbn. lia.
Qed.

Lemma todo_from_snapshot_items s l : todo_from_snapshot s = Ok l -> tl_items l = items s.
Proof.
  unfold todo_from_snapshot. destruct (check_items _ _ _ _); [|done]. cbn.
  destruct (is_nil _); [by intros [= <-]|]. destruct (_ <? _)%N; [|done]. by intros [= <-].
Qed.

Lemma todo_from_snapshot_list_ok s l : todo_from_snapshot s = Ok l -> list_ok l.
Proof.
  intros H. destruct (proj1 (todo_from_snapshot_ok s) (ex_intro _ l H)) as (H1 & H2 & H3).
  pose proof (todo_from_snapshot_items _ _ H) as Hi. revert H. unfold todo_from_snapshot, list_ok. rewrite Hi.
  destruct (check_items ∅ 0 0 (items s)) as [k|] eqn:E; [|done]. cbn [result_bind].
  destruct (check_items_max _ _ _ _ _ E) as (_ & Hle & _).
  destruct (items s) as [|i r] eqn:Ei; cbn [is_nil].
  - intros [= <-]. split_and!; cbn; try done; unfold u32_max; lia || constructor.
  - rewrite <-Ei in *. destruct (N.ltb_spec k u32_max); [|done]. intros [= <-]. split_and!; cbn; try done; try lia.
    apply Forall_forall. intros x Hx. rewrite Forall_forall in H2, Hle.
    specialize (H2 x Hx). specialize (Hle x Hx). lia.
Qed.

Lemma set_single_ids l : todo_id <$> set_single_in_progress None l = todo_id <$> l.
Proof.
  induction l as [|i l IH]; [done|]. unfold set_single_in_progress in *. cbn [fmap list_fmap]. f_equal; [|done].
  by destruct (_ && _).
Qed.

Lemma set_single_none l : todos_in_progress (set_single_in_progress None l) = 0.
Proof.
  induction l as [|i l IH]; [done|]. unfold set_single_in_progress in *. cbn [fmap list_fmap].
  rewrite todos_in_progress_cons, IH.
  rewrite (bool_decide_eq_false_2 (Some (todo_id i) = None)) by done. cbn [negb andb].
  destruct (bool_decide (status i = TodoInProgress)) eqn:E; cbn [status]; [done|]. by rewrite E.
Qed.

Lemma todos_in_progress_app l k : todos_in_progress (l ++ k) = todos_in_progress l + todos_in_progress k.
Proof. unfold todos_in_progress. by rewrite List.filter_app, length_app. Qed.

Lemma find_snoc_in_progress l i :
  todos_in_progress l = 0 -> status i = TodoInProgress ->
  todo_id <$> List.find (fun i => bool_decide (status i = TodoInProgress)) (l ++ [i]) = Some (todo_id i).
Proof.
  intros Hl Hi. induction l as [|j l IH]; cbn [app List.find]; [by rewrite Hi|].
  rewrite todos_in_progress_cons in Hl. case_bool_decide; [done|]. by apply IH.
Qed.

(** Adding an item keeps the invariant; it fails only when the ids are used up. *)
Lemma todo_add_ok l content st :
  list_ok l ->
  match todo_add l content st with
  | Some (l', i) => list_ok l' /\ todo_id i = next_id l /\ last (tl_items l') = Some i
      /\ (st = TodoInProgress -> list_in_progress_id l' = Some (next_id l))
  | None => next_id l = u32_max
  end.
Proof.
  intros (H1 & H2 & H3 & H4). unfold todo_add. destruct (N.ltb_spec (next_id l) u32_max); [|lia].
  set (l0 := if bool_decide (st = TodoInProgress) then _ else _).
  assert (todo_id <$> l0 = todo_id <$> tl_items l) as Hids
    by (subst l0; case_bool_decide; [apply set_single_ids|done]).
  assert (Forall (fun x => 0 < x < next_id l)%N (todo_id <$> l0)) as Hf by (rewrite Hids; by apply Forall_fmap).
  split_and!; cbn [tl_items next_id todo_id]; [|done|by rewrite last_snoc|].
  - split; [|split; [|split; [|cbn [next_id]; lia]]]; cbn [tl_items next_id].
    + rewrite fmap_app, Hids. apply NoDup_app. split; [done|]. split; [|apply NoDup_singleton].
      intros x Hx [->|[]%not_elem_of_nil]%elem_of_cons. rewrite <-Hids, Forall_forall in *.
      specialize (Hf _ Hx). cbn in Hf. lia.
    + apply Forall_app. split; [|constructor; [cbn; lia|constructor]].
      apply Forall_fmap in Hf. eapply Forall_impl; [exact Hf|]. cbn. lia.
    + rewrite todos_in_progress_app, todos_in_progress_cons. cbn [status]. subst l0.
      case_bool_decide; [rewrite set_single_none; cbn; lia|]. unfold todos_in_progress at 2. cbn. lia.
  - intros ->. unfold list_in_progress_id. cbn [tl_items]. subst l0. rewrite bool_decide_eq_true_2 by done.
    apply find_snoc_in_progress; [apply set_single_none|done].
Qed.

(** Every list that satisfies the invariant survives saving and loading. *)
Lemma todo_snapshot_roundtrip l :
  list_ok l -> exists l', todo_from_snapshot (todo_snapshot l) = Ok l' /\ todo_snapshot l' = todo_snapshot l.
Proof.
  intros (H1 & H2 & H3 & H4). destruct (proj2 (todo_from_snapshot_ok (todo_snapshot l))) as [l' Hl'].
  - cbn. split_and!; [done| |done]. eapply Forall_impl; [exact H2|]. cbn. lia.
  - exists l'. split; [done|]. apply todo_from_snapshot_items in Hl'. cbn in Hl'. destruct l' as [is' n']. cbn in Hl'.
    subst is'. unfold todo_snapshot, completion_percentage, list_in_progress_id. cbn. done.
Qed.

(** The lists the tool can hold. *)
Inductive todo_reached : TodoList -> Prop :=
| reached_new : todo_reached todo_list_new
| reached_add l content st l' i : todo_reached l -> todo_add l content st = Some (l', i) -> todo_reached l'
| reached_clear l : todo_reached l -> todo_reached (todo_clear l)
| reached_load s l : todo_from_snapshot s = Ok l -> todo_reached l.

Lemma todo_reached_ok l : todo_reached l -> list_ok l.
Proof.
  assert (list_ok todo_list_new) as Hnew.
  { split; [constructor|]. split; [constructor|]. cbn. unfold u32_max. split; [unfold todos_in_progress; cbn|]; lia. }
  induction 1 as [|l content st l' i _ IH Ha| |s l Hl]; [done| |done|by eapply todo_from_snapshot_list_ok].
  pose proof (todo_add_ok l content st IH) as Hok. rewrite Ha in Hok. by destruct Hok.
Qed.

(** Every To-do list built by adding, clearing and loading is well formed: its ids
    are distinct, positive and below the next id, which stays within 32 bits, and at most
    one item is in progress. An item is refused only when the ids are used up, a new item
    in progress becomes the only one, and saving and loading the list gives the same
    snapshot again. *)
Theorem todo_lists_are_well_formed (l : TodoList) (content : list N) (st : TodoStatus) :
  todo_reached l ->
  list_ok l
  /\ match todo_add l content st with
     | Some (l', i) => list_ok l' /\ todo_id i = next_id l /\ last (tl_items l') = Some i
         /\ (st = TodoInProgress -> list_in_progress_id l' = Some (next_id l))
     | None => next_id l = u32_max
     end
  /\ exists l', todo_from_snapshot (todo_snapshot l) = Ok l' /\ todo_snapshot l' = todo_snapshot l.
Proof. intros Hl%todo_reached_ok. split; [done|]. split; [by apply todo_add_ok|by apply todo_snapshot_roundtrip]. Qed.

Lemma todo_lists_are_well_formed_witness :
  exists l', todo_from_snapshot (todo_snapshot todo_list_new) = Ok l'.
Proof.
  destruct (todo_lists_are_well_formed todo_list_new (lit "x") TodoPending reached_new) as (_ & _ & l' & H & _).
  exists l'. exact H.
Defined.

End WgLegacy.
