(* ===== verification/WgImport.v ===== *)
(** * Import of legacy Plan and To-do state (crates/tui/src/work_graph/migration.rs)

    The deterministic import of a session without a graph: normalise both legacy
    states, derive one node per plan step and To-do item, alias the To-do items that
    carry a marker of the retired plan writer, and record the digest. *)

From stdpp Require Import base list option gmap strings.
From Stdlib Require Import Lia NArith ZArith.
From S2P Require Import Prelude RustStr RustNum WgModel WgValidate WgSearch WgSpec WgReducer WgFacts.
From S2P Require Import WgProjection WgLegacy.

Module WgImport.
Import WgModel WgValidate WgSpec WgReducer WgFacts WgProjection WgLegacy.

(** ** Markers of the retired writer *)

Definition invisible_separator : N := 8291.
Definition PLAN_PROVENANCE_PREFIX : list N := invisible_separator :: lit "cw-plan-step:".
Definition PLAN_PROVENANCE_SUFFIX : list N := [invisible_separator].

(** [s.replace(PLAN_PROVENANCE_SUFFIX, "").trim()]. *)
Definition clean_title (s : list N) : list N := trim (replace_chars (N.eqb invisible_separator) [] s).

Definition strip_plan_provenance (content : list N) : list N * option N :=
  match split_once_str PLAN_PROVENANCE_PREFIX content with
  | None => (clean_title content, None)
  | Some (before, value) =>
      match split_once invisible_separator value with
      | Some (digits, rest) => (clean_title (before ++ rest), parse_u32 digits)
      | None => (clean_title before, None)
      end
  end.

(** ** States *)

Definition node_state_from_plan (s : StepStatus) : NodeState :=
  match s with StepPending => Ready | StepInProgress => Active | StepCompleted => Completed end.

Definition node_state_from_todo (s : TodoStatus) : NodeState :=
  match s with
  | TodoPending => Ready | TodoInProgress => Active | TodoCompleted => Completed | TodoCancelled => Cancelled
  end.

Definition state_rank (s : NodeState) : nat :=
  match s with Completed | Verified => 2 | Initializing | Active => 1 | _ => 0 end.

Definition more_advanced_state (left right : NodeState) : NodeState :=
  if state_rank left <? state_rank right then right else left.

(** ** The import *)

Inductive import_error : Type :=
  | ImportTodos (e : todo_error)
  | NotCanonical
  | TooManySteps
  | AliasMissing
  | ImportRejected (r : ValidationReport).

(** [serde_json::to_vec] of the pair of legacy snapshots. *)
Class LegacyCodec : Type := canonical : PlanSnapshot -> TodoListSnapshot -> option (list N).

Section Import.
Context `{Digest} `{LegacyCodec}.

Definition try_apply (g : WorkGraphSnapshot) (change : WorkGraphChange) (ctx : ChangeCtx)
    : result WorkGraphSnapshot ValidationReport :=
  let '(w, r) := graph_apply {| snapshot := g |} change ctx in
  match r with Ok _ => Ok (snapshot w) | Err e => Err e end.

Definition import_apply (g : WorkGraphSnapshot) (change : WorkGraphChange) (ctx : ChangeCtx)
    : result WorkGraphSnapshot import_error :=
  match try_apply g change ctx with Ok g' => Ok g' | Err e => Err (ImportRejected e) end.

Definition contains_id (session parent child : list N) : WorkEdgeId :=
  edge_id_derive session (lit "contains:" ++ parent ++ lit ":" ++ child).

Definition contains_edge (session parent child : list N) : WorkEdge :=
  {| edge_id := contains_id session parent child; edge_kind := Contains; from := parent; to := child |}.

Definition add_contains_edge (g : WorkGraphSnapshot) (session objective child : list N) (ctx : ChangeCtx)
    : result WorkGraphSnapshot import_error :=
  import_apply g (AddEdge (contains_edge session objective child)) ctx.

Definition import_node (id title : list N) (kind : NodeKind) (st : NodeState) (digest : list N)
    (ordinal : option N) : WorkNode :=
  {| node_id := id; node_kind := kind; title := title; state := st; acceptance := []; binding := None;
     evidence := None; provenance := Import digest ordinal; created_at := 0; updated_at := 0 |}.

Definition plan_node_id (session : list N) (index : nat) : WorkNodeId :=
  node_id_derive session (lit "plan:" ++ dec (N.of_nat index)).
Definition todo_node_id (session : list N) (id : N) : WorkNodeId :=
  node_id_derive session (lit "todo:" ++ dec id).

Definition import_title (plan : PlanSnapshot) : list N :=
  default (lit "Imported session work")
    (match objective (plan_metadata plan) with Some o => Some o | None => plan_title (plan_metadata plan) end).

(** The loop over the plan items, from [index] on; [order] is [compat.plan_order]. *)
Fixpoint import_plan (session digest objective : list N) (ctx : ChangeCtx) (g : WorkGraphSnapshot)
    (order : list WorkNodeId) (index : nat) (l : list PlanItemArg)
    : result (WorkGraphSnapshot * list WorkNodeId) import_error :=
  match l with
  | [] => Ok (g, order)
  | item :: rest =>
      if (N.of_nat index <=? u32_max)%N then
        let id := plan_node_id session index in
        let? g := import_apply g (AddNode (import_node id (trim (step item)) PlanStep
                    (node_state_from_plan (step_status item)) digest (Some (N.of_nat index)))) ctx in
        let? g := add_contains_edge g session objective id ctx in
        import_plan session digest objective ctx g (order ++ [id]) (S index) rest
      else Err TooManySteps
  end.

Definition state_patch (s : NodeState) : WorkNodePatch :=
  {| patch_title := None; patch_state := Some s; patch_acceptance := None; patch_provenance := None |}.

(** One To-do item: an alias of a plan step, or a node of its own. *)
Definition import_todo (session digest objective : list N) (ctx : ChangeCtx) (order : list WorkNodeId)
    (g : WorkGraphSnapshot) (item : TodoItem) : result (WorkGraphSnapshot * CompatTodoBinding) import_error :=
  let '(title, marker_index) := strip_plan_provenance (todo_content item) in
  match (index ← marker_index; node ← order !! N.to_nat index; Some (index, node)) with
  | Some (index, id) =>
      match node g id with
      | None => Err AliasMissing
      | Some n =>
          let desired := more_advanced_state (state n) (node_state_from_todo (status item)) in
          let? g := (if negb (bool_decide (desired = state n))
                     then import_apply g (UpdateNode id (state_patch desired)) ctx else Ok g) in
          Ok (g, {| legacy_id := todo_id item; todo_node := id; plan_index := Some index |})
      end
  | None =>
      let id := todo_node_id session (todo_id item) in
      let? g := import_apply g (AddNode (import_node id title PlanStep Ready digest (Some (todo_id item)))) ctx in
      let? g := add_contains_edge g session objective id ctx in
      let desired := node_state_from_todo (status item) in
      let? g := (if negb (bool_decide (desired = Ready))
                 then import_apply g (UpdateNode id (state_patch desired)) ctx else Ok g) in
      Ok (g, {| legacy_id := todo_id item; todo_node := id; plan_index := None |})
  end.

Fixpoint import_todos (session digest objective : list N) (ctx : ChangeCtx) (order : list WorkNodeId)
    (g : WorkGraphSnapshot) (bindings : list CompatTodoBinding) (l : list TodoItem)
    : result (WorkGraphSnapshot * list CompatTodoBinding) import_error :=
  match l with
  | [] => Ok (g, bindings)
  | item :: rest =>
      let? r := import_todo session digest objective ctx order g item in
      import_todos session digest objective ctx order r.1 (bindings ++ [r.2]) rest
  end.

Definition import_legacy (session : list N) (plan0 : PlanSnapshot) (todos0 : TodoListSnapshot)
    : result WorkGraphSnapshot import_error :=
  let plan := plan_snapshot (plan_from_snapshot 0 plan0) in
  match todo_from_snapshot todos0 with
  | Err e => Err (ImportTodos e)
  | Ok list =>
      let todos := todo_snapshot list in
      match canonical plan todos with
      | None => Err NotCanonical
      | Some bytes =>
          let digest := sha256_hex bytes in
          let ctx := {| session_id := session; now := 0; ctx_key := None |} in
          let objective := node_id_derive session (lit "objective") in
          let? g := import_apply snapshot_new (AddNode
                      (import_node objective (import_title plan) Objective Ready digest None)) ctx in
          let? r := import_plan session digest objective ctx g [] 0 (plan_items plan) in
          let? s := import_todos session digest objective ctx r.2 r.1 [] (items todos) in
          let compat := {| plan := from_plan_snapshot plan; plan_order := r.2; todos := s.2 |} in
          let? g := import_apply s.1 (ReplaceCompatProjection compat) ctx in
          import_apply g (SetImportDigest digest) ctx
      end
  end.

End Import.

End WgImport.
