(* ===== verification/WgRuntime.v ===== *)
(** * The work-graph runtime (crates/tui/src/work_graph/runtime.rs)

    One active session graph and the two legacy views it publishes. Every public
    operation is a function from the runtime to the runtime it leaves and its result;
    the state is returned on failure too, because an operation that fails late has
    already bound the session or cached an import. A try-lock that stays busy, the
    readings of the clock and the durable owner stores are arguments. *)

From stdpp Require Import base list option gmap strings.
From Stdlib Require Import Lia NArith ZArith.
From S2P Require Import Prelude RustStr Providers WgModel WgValidate WgSearch WgSpec WgReducer WgFacts.
From S2P Require Import WgProjection WgLegacy WgImport.

Module WgRuntime.
Import Providers WgModel WgValidate WgSpec WgReducer WgFacts WgProjection WgLegacy WgImport.

(** ** State and errors *)

(** [WorkRuntime] with its [ActiveGraph]. *)
Record WorkRuntime : Type := {
  rt_todos : TodoList;
  rt_plan : PlanState;
  rt_session : option (list N);
  rt_snapshot : option WorkGraphSnapshot;
  pending_publish : bool
}.

Record WorkRuntimeSnapshot : Type := {
  wr_graph : WorkGraphSnapshot;
  wr_todos : TodoListSnapshot;
  wr_plan : PlanSnapshot
}.

Definition new_shared_work_runtime (todos : TodoList) (plan : PlanState) : WorkRuntime :=
  {| rt_todos := todos; rt_plan := plan; rt_session := None; rt_snapshot := None; pending_publish := false |}.

Inductive runtime_error : Type :=
  | InvalidExternal (external : list N)
  | TodosBusy | PlanBusy
  | DurabilityChanged (external : list N)
  | NotRegistered (external : list N)
  | Disappeared (id : WorkNodeId)
  | Rejected (tool : list N) (r : ValidationReport)
  | InvalidGraph (r : ValidationReport)
  | PlanInconsistent | TodosInconsistent
  | BadTodos (e : todo_error)
  | ImportFailed (e : import_error)
  | KindChanged (id : WorkNodeId)
  | MissingNode (id : WorkNodeId)
  | SessionMismatch | NoGraph
  | SequenceRegressed (external : list N) (previous seq : N)
  | ObservationChanged (external : list N) (seq : N)
  | ViewsDisagree | PersistedViewsDisagree
  | EmptyGraphWithViews | MissingProjections
  | GraphChangedMeanwhile
  | PendingWithoutGraph.

(** Which of the two legacy locks a bounded retry obtains. *)
Record locks : Type := { todos_free : bool; plan_free : bool }.

Definition with_active (rt : WorkRuntime) (s : option (list N)) (g : option WorkGraphSnapshot) (p : bool)
    : WorkRuntime :=
  {| rt_todos := rt_todos rt; rt_plan := rt_plan rt; rt_session := s; rt_snapshot := g; pending_publish := p |}.

(** [active.snapshot = Some(next); active.pending_publish = true]. *)
Definition with_next (rt : WorkRuntime) (g : WorkGraphSnapshot) : WorkRuntime :=
  with_active rt (rt_session rt) (Some g) true.

Definition plan_view (rt : WorkRuntime) : PlanSnapshot := plan_snapshot (rt_plan rt).
Definition todo_view (rt : WorkRuntime) : TodoListSnapshot := todo_snapshot (rt_todos rt).

Definition session_conflict (rt : WorkRuntime) (session : option (list N)) : bool :=
  match session, rt_session rt with
  | Some expected, Some actual => negb (str_eqb expected actual)
  | _, _ => false
  end.

(** ** Queries *)

Definition bound_to (external_ : list N) (n : WorkNode) : bool :=
  match binding n with Some b => str_eqb (external b) external_ | None => false end.

Definition has_operation_binding (rt : WorkRuntime) (session : option (list N)) (external_ : list N) : bool :=
  if session_conflict rt session then false
  else match rt_snapshot rt with Some g => existsb (bound_to external_) (nodes g) | None => false end.

Definition live_or_stale (n : WorkNode) : bool := is_live (state n) || bool_decide (state n = Stale).

Definition durable_externals (g : WorkGraphSnapshot) : list (list N) :=
  external <$> List.filter durable (omap binding (List.filter live_or_stale (nodes g))).

Definition reconcilable_durable_bindings (rt : WorkRuntime) (session : option (list N)) : list (list N) :=
  if session_conflict rt session then []
  else match rt_snapshot rt with Some g => durable_externals g | None => [] end.

Definition has_pending_publish (rt : WorkRuntime) : bool := pending_publish rt.

Definition current_todos (rt : WorkRuntime) : TodoListSnapshot :=
  match rt_snapshot rt with Some g => project_todos g | None => todo_view rt end.

Definition bounded_operation_title (t : list N) : list N :=
  let normalized := str_join [c_space] (split_whitespace t) in
  let bounded := take 180 normalized in
  match drop 180 normalized with
  | _ :: _ => bounded ++ lit "..."
  | [] => if str_is_empty bounded then lit "Runtime operation" else bounded
  end.

Definition prompt_safe_title (t : list N) : list N :=
  bounded_operation_title (replace_chars (N.eqb c_backtick) [c_squote] t).

Definition operation_state_label (s : NodeState) : list N :=
  lit match s with
      | Ready => "ready" | Initializing => "initializing" | Active => "running" | Waiting => "waiting"
      | Blocked => "blocked" | Completed => "completed" | Verified => "verified" | Stale => "stale"
      | Superseded => "superseded" | Cancelled => "cancelled" | Failed => "failed"
      end.

Definition ACTIVE_OPERATION_SUMMARY_START : list N := lit "<!-- ghosty:active-work-operations:start -->".
Definition ACTIVE_OPERATION_SUMMARY_END : list N := lit "<!-- ghosty:active-work-operations:end -->".

Definition summary_line (n : WorkNode) : list N :=
  lit "- `" ++ match binding n with Some b => external b | None => lit "unbound" end ++ lit "` - "
  ++ operation_state_label (state n) ++ lit " - " ++ prompt_safe_title (title n) ++ [c_nl].

Definition active_operation_summary (rt : WorkRuntime) (session : option (list N)) : option (list N) :=
  if session_conflict rt session then None
  else
    g ← rt_snapshot rt;
    let operations := take 24 (List.filter (fun n => bool_decide (node_kind n = Operation) && live_or_stale n) (nodes g)) in
    if is_nil operations then None
    else Some (ACTIVE_OPERATION_SUMMARY_START ++ [c_nl] ++ lit "## Active Work Graph Operations" ++ [c_nl; c_nl]
      ++ lit "Owner records remain authoritative; reconcile before acting on a restored operation." ++ [c_nl]
      ++ (operations ≫= summary_line) ++ ACTIVE_OPERATION_SUMMARY_END).

Definition resolved_session_id (rt : WorkRuntime) (requested : option (list N)) : list N :=
  match requested with
  | Some s => s
  | None => default (lit "unsaved-work") (rt_session rt)
  end.

Section Runtime.
Context `{Digest} `{LegacyCodec}.

(** The graph an operation starts from, and the session binding and import cache it
    leaves behind. *)
Definition graph_for_update (rt : WorkRuntime) (session : list N)
    : WorkRuntime * result WorkGraphSnapshot runtime_error :=
  let rt := with_active rt (Some session) (rt_snapshot rt) (pending_publish rt) in
  match rt_snapshot rt with
  | Some g => (rt, match validate g with Ok _ => Ok g | Err r => Err (InvalidGraph r) end)
  | None =>
      let imported :=
        if plan_is_empty (plan_view rt) && todos_is_empty (todo_view rt) then Ok snapshot_new
        else match import_legacy session (plan_view rt) (todo_view rt) with
             | Ok g => Ok g
             | Err e => Err (ImportFailed e)
             end in
      match imported with
      | Ok g => (with_active rt (rt_session rt) (Some g) (pending_publish rt), Ok g)
      | Err e => (rt, Err e)
      end
  end.

Definition validate_combined (g : WorkGraphSnapshot) (p : PlanSnapshot) (t : TodoListSnapshot)
    : result unit runtime_error :=
  match validate g with
  | Err r => Err (InvalidGraph r)
  | Ok _ =>
      if negb (bool_decide (project_plan g = p)) then Err PlanInconsistent
      else if negb (bool_decide (project_todos g = t)) then Err TodosInconsistent
      else match todo_from_snapshot t with Err e => Err (BadTodos e) | Ok _ => Ok tt end
  end.

(** ** Graph edits

    [now_ms] is read through a small monad: the readings of the clock during one
    operation are [clock 0], [clock 1], and so on. *)

Section Clocked.
Context (clock : nat -> Ts).

Definition M (A : Type) : Type := nat -> result (A * nat) runtime_error.
Definition ret {A} (a : A) : M A := fun n => Ok (a, n).
Definition bind {A B} (m : M A) (k : A -> M B) : M B := fun n => let? r := m n in k r.1 r.2.
Definition fail {A} (e : runtime_error) : M A := fun _ => Err e.
Definition now_ms : M Ts := fun n => Ok (clock n, S n).
Definition ok_or_else {A} (o : option A) (e : runtime_error) : M A :=
  match o with Some a => ret a | None => fail e end.

#[local] Notation "'let!' x ':=' m 'in' k" := (bind m (fun x => k))
  (at level 10, x binder, m at level 100, k at level 200).

Definition apply_change (session tool : list N) (change : WorkGraphChange) (g : WorkGraphSnapshot)
    : M WorkGraphSnapshot :=
  let! now := now_ms in
  match try_apply g change {| session_id := session; now := now; ctx_key := None |} with
  | Ok g' => ret g'
  | Err r => fail (Rejected tool r)
  end.

Definition tool_provenance (g : WorkGraphSnapshot) (tool : list N) : Provenance :=
  ToolUpdate tool (tool ++ lit ":" ++ dec (u64_saturating_add (revision g) 1)).

Definition patch_existing_node (session tool : list N) (id : WorkNodeId) (t : list N) (s : NodeState)
    (g : WorkGraphSnapshot) : M WorkGraphSnapshot :=
  let! current := ok_or_else (node g id) (MissingNode id) in
  if str_eqb (title current) t && bool_decide (state current = s) then ret g
  else apply_change session tool
         (UpdateNode id {| patch_title := Some t; patch_state := Some s; patch_acceptance := None;
                           patch_provenance := Some (tool_provenance g tool) |}) g.

Definition upsert_node (session tool : list N) (n : WorkNode) (g : WorkGraphSnapshot) : M WorkGraphSnapshot :=
  match node g (node_id n) with
  | Some existing =>
      if negb (bool_decide (node_kind existing = node_kind n)) then fail (KindChanged (node_id n))
      else patch_existing_node session tool (node_id n) (title n) (state n) g
  | None => apply_change session tool (AddNode n) g
  end.

Definition ensure_contains (session tool : list N) (parent child : WorkNodeId) (g : WorkGraphSnapshot)
    : M WorkGraphSnapshot :=
  match edge g (contains_id session parent child) with
  | Some _ => ret g
  | None => apply_change session tool (AddEdge (contains_edge session parent child)) g
  end.

Fixpoint deactivate_all (session tool : list N) (l : list (WorkNodeId * list N)) (g : WorkGraphSnapshot)
    : M WorkGraphSnapshot :=
  match l with
  | [] => ret g
  | (id, t) :: rest =>
      let! g := patch_existing_node session tool id t Ready g in
      deactivate_all session tool rest g
  end.

Definition active_todo_nodes (g : WorkGraphSnapshot) : list (WorkNodeId * list N) :=
  omap (fun b => n ← node g (todo_node b);
                 if bool_decide (state n = Active) then Some (node_id n, title n) else None) (todos (compat g)).

Definition deactivate_projected_todos (session tool : list N) (g : WorkGraphSnapshot) : M WorkGraphSnapshot :=
  deactivate_all session tool (active_todo_nodes g) g.

(** A node written by a tool, with two readings of the clock. *)
Definition tool_node (id t : list N) (kind : NodeKind) (s : NodeState) (p : Provenance) : M WorkNode :=
  let! created := now_ms in
  let! updated := now_ms in
  ret {| node_id := id; node_kind := kind; title := t; state := s; acceptance := []; binding := None;
         evidence := None; provenance := p; created_at := created; updated_at := updated |}.

Definition find_objective (g : WorkGraphSnapshot) : option WorkNode :=
  List.find (fun n => bool_decide (node_kind n = Objective)) (nodes g).

Definition ensure_objective (session tool : list N) (p : PlanSnapshot) (g : WorkGraphSnapshot)
    : M (WorkGraphSnapshot * WorkNodeId) :=
  let id := default (node_id_derive session (lit "objective")) (node_id <$> find_objective g) in
  let m := plan_metadata p in
  let t := default (lit "Session work") (match objective m with Some o => Some o | None => plan_title m end) in
  let! n := tool_node id t Objective Ready (tool_provenance g tool) in
  let! g := upsert_node session tool n g in
  ret (g, id).

Definition plan_node_state : StepStatus -> NodeState := node_state_from_plan.
Definition todo_node_state : TodoStatus -> NodeState := node_state_from_todo.

(** The loop of [update_plan_graph] over the items, from [index] on. *)
Fixpoint upsert_plan (session tool : list N) (objective : WorkNodeId) (index : nat) (order : list WorkNodeId)
    (l : list PlanItemArg) (g : WorkGraphSnapshot) : M (WorkGraphSnapshot * list WorkNodeId) :=
  match l with
  | [] => ret (g, order)
  | item :: rest =>
      let id := default (plan_node_id session index) (plan_order (compat g) !! index) in
      let! n := tool_node id (trim (step item)) PlanStep (plan_node_state (step_status item))
                  (tool_provenance g tool) in
      let! g := upsert_node session tool n g in
      let! g := ensure_contains session tool objective id g in
      upsert_plan session tool objective (S index) (order ++ [id]) rest g
  end.

(** The plan node that is to become active and is also a To-do row. *)
Fixpoint desired_active_alias (g : WorkGraphSnapshot) (index : nat) (l : list PlanItemArg) : option WorkNodeId :=
  match l with
  | [] => None
  | item :: rest =>
      match (if bool_decide (step_status item = StepInProgress) then
               id ← plan_order (compat g) !! index;
               if existsb (fun b => str_eqb (todo_node b) id) (todos (compat g)) then Some id else None
             else None) with
      | Some id => Some id
      | None => desired_active_alias g (S index) rest
      end
  end.

(** The compatibility state after a plan update: rows beyond the new plan are
    dropped, the others follow their plan step. *)
Definition rebound_todos (order : list WorkNodeId) (items : nat) (l : list CompatTodoBinding)
    : list CompatTodoBinding :=
  (fun b => match plan_index b with
            | Some i => match order !! N.to_nat i with
                        | Some id => {| legacy_id := legacy_id b; todo_node := id; plan_index := plan_index b |}
                        | None => b
                        end
            | None => b
            end)
  <$> List.filter (fun b => match plan_index b with Some i => N.to_nat i <? items | None => true end) l.

Definition update_plan_graph (session tool : list N) (p : PlanSnapshot) (g : WorkGraphSnapshot)
    : M WorkGraphSnapshot :=
  let! r := ensure_objective session tool p g in
  let! g := (match desired_active_alias r.1 0 (plan_items p) with
             | Some _ => deactivate_projected_todos session tool r.1
             | None => ret r.1
             end) in
  let! s := upsert_plan session tool r.2 0 [] (plan_items p) g in
  let c := compat s.1 in
  apply_change session tool (ReplaceCompatProjection
    {| plan := from_plan_snapshot p; plan_order := s.2;
       todos := rebound_todos s.2 (length (plan_items p)) (todos c) |}) s.1.

(** The plan step a To-do row is an alias of. *)
Definition todo_alias (plan_order_ : list WorkNodeId) (g : WorkGraphSnapshot) (id : N) : option (N * WorkNodeId) :=
  b ← List.find (fun b => (legacy_id b =? id)%N) (todos (compat g));
  index ← plan_index b;
  if bool_decide (plan_order_ !! N.to_nat index = Some (todo_node b)) then Some (index, todo_node b) else None.

Definition todo_own_node (session : list N) (g : WorkGraphSnapshot) (id : N) : WorkNodeId :=
  default (todo_node_id session id)
    (todo_node <$> List.find (fun b => (legacy_id b =? id)%N && is_none (plan_index b)) (todos (compat g))).

Definition upsert_todo (session tool : list N) (objective : WorkNodeId) (plan_order_ : list WorkNodeId)
    (item : TodoItem) (g : WorkGraphSnapshot) : M (WorkGraphSnapshot * CompatTodoBinding) :=
  let t := trim (todo_content item) in
  match todo_alias plan_order_ g (todo_id item) with
  | Some (index, id) =>
      let! g := patch_existing_node session tool id t (todo_node_state (status item)) g in
      ret (g, {| legacy_id := todo_id item; todo_node := id; plan_index := Some index |})
  | None =>
      let id := todo_own_node session g (todo_id item) in
      let desired := todo_node_state (status item) in
      let initial := if bool_decide (desired = Active) then Ready else desired in
      let! n := tool_node id t PlanStep initial (tool_provenance g tool) in
      let! g := upsert_node session tool n g in
      let! g := ensure_contains session tool objective id g in
      let! g := (if bool_decide (desired = Active) then
                   let! n := ok_or_else (node g id) (MissingNode id) in
                   patch_existing_node session tool id (title n) desired g
                 else ret g) in
      ret (g, {| legacy_id := todo_id item; todo_node := id; plan_index := None |})
  end.

Fixpoint upsert_todos (session tool : list N) (objective : WorkNodeId) (plan_order_ : list WorkNodeId)
    (bindings : list CompatTodoBinding) (l : list TodoItem) (g : WorkGraphSnapshot)
    : M (WorkGraphSnapshot * list CompatTodoBinding) :=
  match l with
  | [] => ret (g, bindings)
  | item :: rest =>
      let! r := upsert_todo session tool objective plan_order_ item g in
      upsert_todos session tool objective plan_order_ (bindings ++ [r.2]) rest r.1
  end.

Definition update_todo_graph (session tool : list N) (t : TodoListSnapshot) (g : WorkGraphSnapshot)
    : M WorkGraphSnapshot :=
  let! g := deactivate_projected_todos session tool g in
  let! r := ensure_objective session tool (project_plan g) g in
  let! s := upsert_todos session tool r.2 (plan_order (compat r.1)) [] (items t) r.1 in
  let c := compat s.1 in
  apply_change session tool (ReplaceCompatProjection
    {| plan := plan c; plan_order := plan_order c; todos := s.2 |}) s.1.

(** ** Operations and their owners *)

Definition operation_parent (session source : list N) (g : WorkGraphSnapshot)
    : M (WorkGraphSnapshot * WorkNodeId) :=
  let step_in s := List.find (fun n => bool_decide (node_kind n = PlanStep) && bool_decide (state n = s)) (nodes g) in
  match (match step_in Active with
         | Some n => Some n
         | None => match step_in Ready with Some n => Some n | None => find_objective g end
         end) with
  | Some n => ret (g, node_id n)
  | None =>
      let! now := now_ms in
      let id := node_id_derive session (lit "objective:runtime-operations") in
      let! g := apply_change session source (AddNode
        {| node_id := id; node_kind := Objective; title := lit "Runtime operations"; state := Ready;
           acceptance := []; binding := None; evidence := None; provenance := RuntimeReconcile source now;
           created_at := now; updated_at := now |}) g in
      ret (g, id)
  end.

Definition operation_id (session external_ : list N) : WorkNodeId :=
  node_id_derive session (lit "operation:" ++ external_).

Definition operation_node (session : list N) (intent : OperationIntent) (now : Ts) : WorkNode :=
  {| node_id := operation_id session (intent_external intent); node_kind := Operation;
     title := bounded_operation_title (intent_title intent); state := Ready;
     acceptance := intent_acceptance intent;
     binding := Some {| external := intent_external intent; durable := intent_durable intent;
                        last_observation := None |};
     evidence := None; provenance := ToolUpdate (intent_source intent) (intent_call_id intent);
     created_at := now; updated_at := now |}.

(** The body of [register_operation] on a graph without the binding: inert node,
    edge, then live. *)
Definition register_graph (session : list N) (intent : OperationIntent) (g : WorkGraphSnapshot)
    : M WorkGraphSnapshot :=
  let source := intent_source intent in
  let id := operation_id session (intent_external intent) in
  let! r := operation_parent session source g in
  let! now := now_ms in
  let! g := apply_change session source (AddNode (operation_node session intent now)) r.1 in
  let! g := ensure_contains session source r.2 id g in
  let! n := ok_or_else (node g id) (Disappeared id) in
  patch_existing_node session source id (title n) Initializing g.

Definition approval_title (reference_ : list N) : list N :=
  bounded_operation_title (lit "verification approved: " ++ reference_).

Definition approval_graph (session external_ reference_ source call_id : list N) (operation : WorkNodeId)
    (g : WorkGraphSnapshot) : M WorkGraphSnapshot :=
  let approval := node_id_derive session (lit "approval:operation:" ++ external_ ++ lit ":" ++ reference_) in
  let! g := (match node g approval with
             | Some _ => ret g
             | None =>
                 let! now := now_ms in
                 apply_change session source (AddNode
                   {| node_id := approval; node_kind := Approval; title := approval_title reference_;
                      state := Completed; acceptance := []; binding := None; evidence := None;
                      provenance := ToolUpdate source call_id; created_at := now; updated_at := now |}) g
             end) in
  let e := edge_id_derive session (lit "requires-approval:" ++ operation ++ lit ":" ++ approval) in
  match edge g e with
  | Some _ => ret g
  | None => apply_change session source (AddEdge
              {| edge_id := e; edge_kind := RequiresApproval; from := operation; to := approval |}) g
  end.

(** [apply_observation_to_snapshot]: [None] when the observation changes nothing. *)
Definition observation_key (session external_ : list N) (recovery : bool) (obs : OperationObservation)
    : option IdempotencyKey :=
  match obs with
  | OwnerReported _ seq _ _ =>
      if recovery then None
      else Some {| key_binding := binding_id_derive session (lit "binding:" ++ external_); key_seq := seq |}
  | OwnerMissing _ | CancelUpdate _ _ => None
  end.

(** The comparison with the last observation: ignored, an error, or to be applied
    (with the flag of a stale owner that reports again). *)
Inductive freshness : Type := Unchanged | Apply (recovery : bool) | Conflict (e : runtime_error).

#[export] Instance OwnerState_eq_dec : EqDecision OwnerState.
Proof. solve_decision. Defined.
#[export] Instance EvidenceKind_eq_dec : EqDecision EvidenceKind.
Proof. solve_decision. Defined.
#[export] Instance EvidenceRef_eq_dec : EqDecision EvidenceRef.
Proof. solve_decision. Defined.

Definition observation_freshness (external_ : list N) (n : WorkNode) (obs : OperationObservation) : freshness :=
  match obs, (b ← binding n; last_observation b) with
  | OwnerReported st seq _ out, Some previous =>
      if (seq <? obs_seq previous)%N then Conflict (SequenceRegressed external_ (obs_seq previous) seq)
      else if (seq =? obs_seq previous)%N then
        if negb (bool_decide (state n = Stale)) then Unchanged
        else if negb (bool_decide (st = owner_state previous)) || negb (bool_decide (out = output previous))
        then Conflict (ObservationChanged external_ seq)
        else Apply true
      else Apply false
  | OwnerMissing _, _ => if bool_decide (state n = Stale) then Unchanged else Apply false
  | _, _ => Apply false
  end.

Definition apply_observation_to_snapshot (session external_ : list N) (obs : OperationObservation)
    (g : WorkGraphSnapshot) : M (option WorkGraphSnapshot) :=
  let! n := ok_or_else (List.find (bound_to external_) (nodes g)) (NotRegistered external_) in
  match observation_freshness external_ n obs with
  | Conflict e => fail e
  | Unchanged => ret None
  | Apply recovery =>
      let! now := now_ms in
      match apply g (ReconcileOperation (node_id n) obs)
              {| session_id := session; now := now; ctx_key := observation_key session external_ recovery obs |} with
      | Ok (next, receipt) => ret (if no_op receipt then None else Some next)
      | Err r => fail (Rejected (lit "runtime reconcile") r)
      end
  end.

(** ** Restored owners *)

Definition ephemeral_live (n : WorkNode) : bool :=
  match binding n with Some b => negb (durable b) && is_live (state n) | None => false end.

Fixpoint mark_stale (session : list N) (ids : list WorkNodeId) (g : WorkGraphSnapshot) : M WorkGraphSnapshot :=
  match ids with
  | [] => ret g
  | id :: rest =>
      let! checked_at := now_ms in
      let! now := now_ms in
      match try_apply g (ReconcileOperation id (OwnerMissing checked_at))
              {| session_id := session; now := now; ctx_key := None |} with
      | Ok g' => mark_stale session rest g'
      | Err r => fail (Rejected (lit "restart reconcile") r)
      end
  end.

Definition mark_restored_ephemeral_operations_stale (session : list N) (g : WorkGraphSnapshot)
    : M (WorkGraphSnapshot * bool) :=
  let candidates := node_id <$> List.filter ephemeral_live (nodes g) in
  if is_nil candidates then ret (g, false)
  else let! g := mark_stale session candidates g in ret (g, true).

(** What the durable stores answer: a Fleet task by [run:task], a lane by its id;
    [None] when the store cannot be read. *)
Record FleetRecord : Type := { fr_run : list N; fr_task : list N; fr_status : FleetTaskLedgerStatus; fr_seq : N }.
Record LaneRecord : Type := { lr_id : list N; lr_status : LaneStatus; lr_seq : N }.
Record owner_stores : Type := {
  fleet_tasks : option (list N -> option FleetRecord);
  lanes : option (list N -> option LaneRecord)
}.

Definition owner_observation (stores : owner_stores) (at_ : Ts) (external_ : list N) : option OperationObservation :=
  match strip_prefix (lit "fleet:") external_ with
  | Some rest =>
      Some (default (OwnerMissing at_)
        (r ← split_once c_slash rest;
         tasks ← fleet_tasks stores;
         record ← tasks (r.1 ++ lit ":" ++ r.2);
         Some (into_observation (fleet_task_owner_snapshot (fr_run record) (fr_task record) (fr_status record)
                 (fr_seq record) at_))))
  | None =>
      match strip_prefix (lit "lane:") external_ with
      | Some lane_id =>
          Some (default (OwnerMissing at_)
            (load ← lanes stores;
             record ← load lane_id;
             Some (into_observation (lane_owner_snapshot (lr_id record) (lr_status record) (lr_seq record) at_))))
      | None => None
      end
  end.

Definition workspace_candidates (g : WorkGraphSnapshot) : list (list N) :=
  List.filter (fun e => starts_with (lit "fleet:") e || starts_with (lit "lane:") e) (durable_externals g).

Fixpoint reconcile_all (session : list N) (stores : owner_stores) (at_ : Ts) (l : list (list N)) (changed : N)
    (g : WorkGraphSnapshot) : M (WorkGraphSnapshot * N) :=
  match l with
  | [] => ret (g, changed)
  | external_ :: rest =>
      match owner_observation stores at_ external_ with
      | None => reconcile_all session stores at_ rest changed g
      | Some obs =>
          let! r := apply_observation_to_snapshot session external_ obs g in
          match r with
          | Some next => reconcile_all session stores at_ rest (N.min (changed + 1) (u64_modulus - 1)) next
          | None => reconcile_all session stores at_ rest changed g
          end
      end
  end.

Definition reconcile_workspace_snapshot (session : list N) (stores : owner_stores) (g : WorkGraphSnapshot)
    : M (WorkGraphSnapshot * N) :=
  let candidates := workspace_candidates g in
  if is_nil candidates then ret (g, 0%N)
  else let! at_ := now_ms in reconcile_all session stores at_ candidates 0 g.

End Clocked.

(** ** The public operations *)

Abbreviation op A := (WorkRuntime * result A runtime_error)%type (only parsing).

Definition lift {A B} (rt : WorkRuntime) (r : result A runtime_error) (k : A -> op B) : op B :=
  match r with Ok a => k a | Err e => (rt, Err e) end.

(** The legacy locks, then the graph to start from. *)
Definition locked_graph {A} (lk : locks) (rt : WorkRuntime) (session : list N)
    (k : WorkRuntime -> WorkGraphSnapshot -> op A) : op A :=
  if negb (todos_free lk) then (rt, Err TodosBusy)
  else if negb (plan_free lk) then (rt, Err PlanBusy)
  else let '(rt, base) := graph_for_update rt session in lift rt base (k rt).

Definition all_free : locks := {| todos_free := true; plan_free := true |}.

(** [validate_combined] against the projections themselves, then activation. *)
Definition activate {A} (rt : WorkRuntime) (m : result (WorkGraphSnapshot * nat) runtime_error) (a : A) : op A :=
  lift rt m (fun r => lift rt (validate_combined r.1 (project_plan r.1) (project_todos r.1))
    (fun _ => (with_next rt r.1, Ok a))).

Definition register_operation (clock : nat -> Ts) (lk : locks) (rt : WorkRuntime) (session : list N)
    (intent : OperationIntent) : op WorkNodeId :=
  if negb (external_identity_is_well_formed (intent_external intent))
  then (rt, Err (InvalidExternal (intent_external intent)))
  else locked_graph lk rt session (fun rt base =>
    match List.find (bound_to (intent_external intent)) (nodes base) with
    | Some existing =>
        if bool_decide (durable <$> binding existing = Some (intent_durable intent))
        then (rt, Ok (node_id existing)) else (rt, Err (DurabilityChanged (intent_external intent)))
    | None => activate rt (register_graph clock session intent base 0)
                (operation_id session (intent_external intent))
    end).

Definition record_operation_approval (clock : nat -> Ts) (lk : locks) (rt : WorkRuntime)
    (session external_ reference_ source call_id : list N) : op unit :=
  locked_graph lk rt session (fun rt base =>
    match List.find (fun n => bool_decide (node_kind n = Operation) && bound_to external_ n) (nodes base) with
    | None => (rt, Err (NotRegistered external_))
    | Some n => activate rt (approval_graph clock session external_ reference_ source call_id (node_id n) base 0) tt
    end).

Definition reconcile_observation (clock : nat -> Ts) (rt : WorkRuntime) (session external_ : list N)
    (obs : OperationObservation) : op bool :=
  if match rt_session rt with Some id => negb (str_eqb id session) | None => false end
  then (rt, Err SessionMismatch)
  else match rt_snapshot rt with
       | None => (rt, Err NoGraph)
       | Some base => lift rt (apply_observation_to_snapshot clock session external_ obs base 0) (fun r =>
           match r.1 with
           | None => (rt, Ok false)
           | Some next => (with_next rt next, Ok true)
           end)
       end.

Definition reconcile_operation (clock : nat -> Ts) (rt : WorkRuntime) (session : list N)
    (s : OperationOwnerSnapshot) : op bool :=
  reconcile_observation clock rt session (owner_external s) (into_observation s).

(** [str::cmp]. *)
Fixpoint str_compare (a b : list N) : comparison :=
  match a, b with
  | [], [] => Eq
  | [], _ => Lt
  | _, [] => Gt
  | x :: a', y :: b' => match N.compare x y with Eq => str_compare a' b' | c => c end
  end.

Definition newer (l r : WorkNode) : comparison :=
  match Z.compare (updated_at l) (updated_at r) with Eq => str_compare (node_id l) (node_id r) | c => c end.

(** [Iterator::max_by]: the last of the greatest. *)
Definition latest (l : list WorkNode) : option WorkNode :=
  fold_left (fun best n => match best with
                           | Some b => Some (match newer b n with Gt => b | _ => n end)
                           | None => Some n
                           end) l None.

Definition record_reasoning_effort_change (clock : nat -> Ts) (lk : locks) (rt : WorkRuntime)
    (session : option (list N)) (requested_ effective_ : ReasoningEffortTier) (kind : ApiProvider)
    (provider_ : list N) (endpoint model_ : option (list N)) : op (option WorkNodeId) :=
  let session := resolved_session_id rt session in
  locked_graph lk rt session (fun rt base =>
    let operation := node_id <$> latest
      (List.filter (fun n => bool_decide (node_kind n = Operation) && is_live (state n)) (nodes base)) in
    let now := clock 0 in
    let event := ReasoningEffortChanged requested_ effective_ (Some kind) provider_ endpoint model_ now operation in
    activate rt
      (match try_apply base (RecordActivity event) {| session_id := session; now := now; ctx_key := None |} with
       | Ok next => Ok (next, 1)
       | Err r => Err (Rejected (lit "reasoning effort") r)
       end) operation).

(** What a candidate graph must satisfy to be published through the legacy states. *)
Definition publishable_states (instant : Z) (g : WorkGraphSnapshot) : result (PlanState * TodoList) runtime_error :=
  let next_plan := plan_from_snapshot instant (project_plan g) in
  match todo_from_snapshot (project_todos g) with
  | Err e => Err (BadTodos e)
  | Ok next_todos =>
      let? _ := validate_combined g (plan_snapshot next_plan) (todo_snapshot next_todos) in
      Ok (next_plan, next_todos)
  end.

Definition apply_plan_update (clock : nat -> Ts) (instant : Z) (rt : WorkRuntime) (session tool : list N)
    (p : PlanSnapshot) : op PlanSnapshot :=
  locked_graph all_free rt session (fun rt base =>
    lift rt (update_plan_graph clock session tool p base 0) (fun r =>
      lift rt (publishable_states instant r.1) (fun _ => (with_next rt r.1, Ok (project_plan r.1))))).

Definition apply_todo_update (clock : nat -> Ts) (instant : Z) (rt : WorkRuntime) (session tool : list N)
    (t : TodoListSnapshot) : op TodoListSnapshot :=
  locked_graph all_free rt session (fun rt base =>
    lift rt (update_todo_graph clock session tool t base 0) (fun r =>
      lift rt (publishable_states instant r.1) (fun _ => (with_next rt r.1, Ok (project_todos r.1))))).

(** [publish_pending] waits for the locks; [publish_pending_sync] may find them busy. *)
Definition publish_pending_sync (lk : locks) (instant : Z) (rt : WorkRuntime) : op bool :=
  if negb (todos_free lk) then (rt, Err TodosBusy)
  else if negb (plan_free lk) then (rt, Err PlanBusy)
  else if negb (pending_publish rt) then (rt, Ok false)
  else match rt_snapshot rt with
       | None => (rt, Err PendingWithoutGraph)
       | Some g => lift rt (publishable_states instant g) (fun r =>
           ({| rt_todos := r.2; rt_plan := r.1; rt_session := rt_session rt; rt_snapshot := rt_snapshot rt;
               pending_publish := false |}, Ok true))
       end.

Definition publish_pending (instant : Z) (rt : WorkRuntime) : op bool := publish_pending_sync all_free instant rt.

Definition capture (lk : locks) (rt : WorkRuntime) (session : option (list N)) : op (option WorkRuntimeSnapshot) :=
  if negb (todos_free lk) then (rt, Err TodosBusy)
  else if negb (plan_free lk) then (rt, Err PlanBusy)
  else if todos_is_empty (todo_view rt) && plan_is_empty (plan_view rt)
          && match rt_snapshot rt with Some g => snapshot_is_empty g | None => true end
  then (rt, Ok None)
  else
    let had_graph := bool_decide (is_Some (rt_snapshot rt)) in
    let had_pending := pending_publish rt in
    let session := resolved_session_id rt session in
    let '(rt, base) := graph_for_update rt session in
    lift rt base (fun g =>
      let p := project_plan g in
      let t := project_todos g in
      lift rt (validate_combined g p t) (fun _ =>
        if had_graph && negb had_pending && (negb (bool_decide (p = plan_view rt)) || negb (bool_decide (t = todo_view rt)))
        then (rt, Err ViewsDisagree)
        else (with_active rt (rt_session rt) (Some g) (if had_graph then pending_publish rt else true),
              Ok (Some {| wr_graph := g; wr_todos := t; wr_plan := p |})))).

(** The candidate of [restore_internal], before any live state changes. *)
Definition restore_candidate (clock : nat -> Ts) (session : list N) (graph : option WorkGraphSnapshot)
    (t : TodoListSnapshot) (p : PlanSnapshot) (stores : option owner_stores)
    : result (WorkGraphSnapshot * bool) runtime_error :=
  let? g := (match graph with
             | Some g => match validate g with Ok _ => Ok g | Err r => Err (InvalidGraph r) end
             | None => if todos_is_empty t && plan_is_empty p then Ok snapshot_new
                       else match import_legacy session p t with Ok g => Ok g | Err e => Err (ImportFailed e) end
             end) in
  let? r := mark_restored_ephemeral_operations_stale clock session g 0 in
  let? s := (match stores with
             | Some st => let? q := reconcile_workspace_snapshot clock session st r.1.1 r.2 in
                          Ok (q.1.1, (0 <? q.1.2)%N)
             | None => Ok (r.1.1, false)
             end) in
  let g := s.1 in
  let derived_plan := project_plan g in
  let derived_todos := project_todos g in
  if snapshot_is_empty g && (negb (todos_is_empty t) || negb (plan_is_empty p)) then Err EmptyGraphWithViews
  else if negb (snapshot_is_empty g) && negb (is_none (import_digest g)) && compat_is_empty (compat g)
  then Err MissingProjections
  else
    let? _ := validate_combined g derived_plan derived_todos in
    if bool_decide (is_Some graph)
       && (negb (bool_decide (derived_plan = p)) || negb (bool_decide (derived_todos = t)))
    then Err PersistedViewsDisagree
    else Ok (g, r.1.2 || s.2 || (negb (bool_decide (is_Some graph)) && negb (snapshot_is_empty g))).

Definition restore_internal (clock : nat -> Ts) (instant : Z) (lk : locks) (rt : WorkRuntime) (session : list N)
    (graph : option WorkGraphSnapshot) (t : TodoListSnapshot) (p : PlanSnapshot) (stores : option owner_stores)
    : op (option WorkRuntimeSnapshot) :=
  lift rt (restore_candidate clock session graph t p stores) (fun '(g, pending) =>
    match todo_from_snapshot (project_todos g) with
    | Err e => (rt, Err (BadTodos e))
    | Ok next_todos =>
        if negb (todos_free lk) then (rt, Err TodosBusy)
        else if negb (plan_free lk) then (rt, Err PlanBusy)
        else ({| rt_todos := next_todos; rt_plan := plan_from_snapshot instant (project_plan g);
                 rt_session := Some session; rt_snapshot := Some g; pending_publish := pending |},
              Ok (if snapshot_is_empty g then None
                  else Some {| wr_graph := g; wr_todos := project_todos g; wr_plan := project_plan g |}))
    end).

Definition restore (clock : nat -> Ts) (instant : Z) (lk : locks) (rt : WorkRuntime) (session : list N)
    (graph : option WorkGraphSnapshot) (t : TodoListSnapshot) (p : PlanSnapshot) : op (option WorkRuntimeSnapshot) :=
  restore_internal clock instant lk rt session graph t p None.

Definition restore_with_workspace_owner_bindings (clock : nat -> Ts) (instant : Z) (lk : locks) (rt : WorkRuntime)
    (session : list N) (stores : owner_stores) (graph : option WorkGraphSnapshot) (t : TodoListSnapshot)
    (p : PlanSnapshot) : op (option WorkRuntimeSnapshot) :=
  restore_internal clock instant lk rt session graph t p (Some stores).

(** Between reading the base and activating the result the graph lock is released;
    [meanwhile] is what the other threads do to the runtime in between. *)
Definition reconcile_workspace_owner_bindings (clock : nat -> Ts) (meanwhile : WorkRuntime -> WorkRuntime)
    (rt : WorkRuntime) (session : list N) (stores : owner_stores) : op N :=
  if negb (bool_decide (rt_session rt = Some session)) then (rt, Err SessionMismatch)
  else match rt_snapshot rt with
       | None => (rt, Err NoGraph)
       | Some base =>
           let rt' := meanwhile rt in
           lift rt' (reconcile_workspace_snapshot clock session stores base 0) (fun r =>
             if (r.1.2 =? 0)%N then (rt', Ok 0%N)
             else if negb (bool_decide (rt_session rt' = Some session))
                     || negb (bool_decide (revision <$> rt_snapshot rt' = Some (revision base)))
             then (rt', Err GraphChangedMeanwhile)
             else (with_next rt' r.1.1, Ok r.1.2))
       end.

Definition clear (lk : locks) (rt : WorkRuntime) (session : option (list N)) : WorkRuntime * bool :=
  if negb (todos_free lk) || negb (plan_free lk) then (rt, false)
  else ({| rt_todos := todo_clear (rt_todos rt); rt_plan := plan_state_default;
           rt_session := Some (resolved_session_id rt session); rt_snapshot := Some snapshot_new;
           pending_publish := false |}, true).

End Runtime.

End WgRuntime.
