(* ===== verification/WgRuntimeFacts.v ===== *)
(** * The work-graph runtime: facts

    Which edits each operation makes, the invariant of a session, and its
    consequences. *)

From stdpp Require Import base list option gmap strings sorting.
From Stdlib Require Import Lia NArith ZArith.
From S2P Require Import Prelude RustStr Providers WgModel WgValidate WgSearch WgSpec WgReducer.
From S2P Require Import WgFacts WgPlan WgProjection WgLegacy WgImport WgRuntime.

(** * Sequences of reducer changes

    The operations of the runtime edit a graph by several changes in a row. What holds
    of every such sequence: the history stays exact as long as the result is valid,
    terminal states are kept, and changes that touch no plan step leave both legacy
    views as they were. *)

Module WgEdits.
Import WgModel WgValidate WgSpec WgReducer WgFacts WgProjection WgLegacy WgImport WgRuntime.

(** ** Exact histories *)

(** No receipt is from the future and the newest one carries the current revision. *)
Definition history_exact (g : WorkGraphSnapshot) : Prop :=
  history_current g
  /\ (revision g = 0%N \/ exists r, last (history g) = Some r /\ receipt_revision r = revision g).

Definition exact (g : WorkGraphSnapshot) : Prop := Valid g /\ history_exact g.

Lemma snapshot_new_exact : exact snapshot_new.
Proof.
  split; [apply snapshot_new_valid|]. split; [|by left]. split; [unfold HISTORY_CAP; cbn; lia|].
  split; [constructor|]. split; [|done]. intros r Hr. by apply not_elem_of_nil in Hr.
Qed.

(** A push onto a bounded list keeps the previous last element. *)
Lemma push_bounded_last_two {A} cap (l : list A) x y :
  2 <= cap -> last l = Some x -> exists k, push_bounded cap l y = k ++ [x; y].
Proof.
  intros Hc (k & ->)%last_Some. unfold push_bounded. destruct (Nat.leb_spec cap (length (k ++ [x]))) as [Hl|Hl].
  - rewrite length_app in Hl. cbn in Hl. destruct k as [|z k]; [cbn in Hl; lia|]. exists k. cbn. by rewrite <-app_assoc.
  - exists k. by rewrite <-app_assoc.
Qed.

Section Edits.
Context `{Digest}.

(** [P] holds of every change, at the graph it is applied to. *)
Inductive edits (P : WorkGraphSnapshot -> WorkGraphChange -> Prop) : WorkGraphSnapshot -> WorkGraphSnapshot -> Prop :=
| edits_nil g : edits P g g
| edits_cons g c ctx g1 r g' :
    P g c -> seen g ctx = None -> apply g c ctx = Ok (g1, r) -> edits P g1 g' -> edits P g g'.

Lemma edits_trans P a b c : edits P a b -> edits P b c -> edits P a c.
Proof. induction 1; [done|]. intros Hc. econstructor; eauto. Qed.

Lemma edits_impl (P Q : WorkGraphSnapshot -> WorkGraphChange -> Prop) a b :
  (forall g c, P g c -> Q g c) -> edits P a b -> edits Q a b.
Proof. intros HPQ. induction 1; [constructor|]. econstructor; eauto. Qed.

Lemma edits_one (P : WorkGraphSnapshot -> WorkGraphChange -> Prop) g c ctx g' r :
  P g c -> seen g ctx = None -> apply g c ctx = Ok (g', r) -> edits P g g'.
Proof. intros. econstructor; [done..|constructor]. Qed.

(** A change that is no duplicate, in particular one without a key. *)
Lemma apply_unkeyed g c ctx g' r :
  seen g ctx = None -> apply g c ctx = Ok (g', r) ->
  exists candidate, apply_pure g c ctx = Ok candidate /\ Valid candidate /\ (g', r) = commit g candidate c ctx.
Proof.
  intros Hk [(key & Hs & _)|(_ & Hc)]%apply_cases; [|done]. by rewrite Hk in Hs.
Qed.

(** A change was accepted, so the history it started from was sound. *)
Lemma apply_history_sound g c ctx candidate :
  apply_pure g c ctx = Ok candidate -> Valid candidate -> history_sound g.
Proof.
  intros (_ & Hr & Hh & _)%apply_pure_books Hv. pose proof (valid_v8 _ Hv) as Hs.
  unfold history_sound in *. by rewrite Hr, Hh in Hs.
Qed.

(** One committed change of an exact history, when its result has a sound history. *)
Lemma commit_exact g candidate c ctx :
  history_exact g -> same_books g candidate -> history_sound (commit g candidate c ctx).1 ->
  history_exact (commit g candidate c ctx).1.
Proof.
  intros [Hc Hl] Hb Hs. destruct Hb as (B1 & B2 & B3 & B4).
  assert (revision g + 1 < u64_modulus)%N as Hroom.
  { destruct Hc as (_ & _ & _ & Hm). destruct (decide (revision g + 1 < u64_modulus)%N) as [|Hge]; [done|].
    assert (revision g + 1 = u64_modulus)%N as E by lia.
    destruct Hl as [Hz|(r & Hr & Er)]; [rewrite Hz in E; done|].
    exfalso. destruct Hs as (_ & Hinc & _). revert Hinc. cbn [commit fst with_commit history]. rewrite B3.
    unfold u64_add. rewrite E. change (u64_modulus mod u64_modulus)%N with 0%N.
    destruct (push_bounded_last_two HISTORY_CAP (history g) r (receipt_of c 0 ctx)) as [k ->];
      [unfold HISTORY_CAP; lia|done|].
    intros Hi%StronglySorted_app_1_r. inversion Hi as [|??? Hf]; subst. inversion Hf as [|?? Hlt]; subst.
    cbn in Hlt. lia. }
  split; [by apply commit_history|]. right. exists (receipt_of c (u64_add (revision g) 1) ctx).
  cbn [commit fst with_commit history revision]. split; [apply push_bounded_last|done].
Qed.

Lemma edits_exact P g g' : edits P g g' -> history_exact g -> history_sound g' -> history_exact g'.
Proof.
  induction 1 as [|g c ctx g1 r g' _ Hk Ha He IH]; [done|]. intros Hx Hs. apply IH; [|done].
  destruct (apply_unkeyed _ _ _ _ _ Hk Ha) as (cand & Hc & Hv & E).
  assert (history_sound g1) as Hs1.
  { destruct He as [|g1 c1 ctx1 g2 r1 g' _ Hk1 Ha1 _]; [done|].
    destruct (apply_unkeyed _ _ _ _ _ Hk1 Ha1) as (cand1 & Hc1 & Hv1 & _). by eapply apply_history_sound. }
  injection E as -> ->. apply commit_exact; [done|by eapply apply_pure_books|done].
Qed.

Lemma edits_valid_exact P g g' : edits P g g' -> exact g -> Valid g' -> exact g'.
Proof. intros He [_ Hx] Hv. split; [done|]. eapply edits_exact; eauto. apply (valid_v8 _ Hv). Qed.

(** The content of the result of an edit is that of a valid snapshot. *)
Lemma apply_bindings g c ctx g' r :
  seen g ctx = None -> apply g c ctx = Ok (g', r) -> bindings_on_operations g'.
Proof.
  intros Hk Ha. destruct (apply_unkeyed _ _ _ _ _ Hk Ha) as (cand & _ & Hv & E). injection E as -> _.
  apply (same_content_v3 cand); [done|]. apply (valid_v3 _ Hv).
Qed.

(** ** What no edit takes away *)

(** A report is not older than the last one. *)
Definition not_older (obs : OperationObservation) (o : ObservationSummary) : Prop :=
  match obs with OwnerReported _ seq _ _ => (obs_seq o <= seq)%N | _ => True end.

(** Changes that remove and rebind nothing, and reconcile only with fresh reports. *)
Definition keeps (g : WorkGraphSnapshot) (c : WorkGraphChange) : Prop :=
  match c with
  | AddNode _ | UpdateNode _ _ | AddEdge _ | ReplaceCompatProjection _ | SetImportDigest _ | RecordActivity _ => True
  | ReconcileOperation id obs =>
      NoDup (node_id <$> nodes g) -> forall n b o,
        node g id = Some n -> binding n = Some b -> last_observation b = Some o -> not_older obs o
  | _ => False
  end.

Lemma edits_terminal g g' id : edits keeps g g' -> keeps_terminal id g g'.
Proof.
  induction 1 as [|g c ctx g1 r g' Hp Hk Ha _ IH]; [apply keeps_terminal_refl|].
  eapply keeps_terminal_trans; [|exact IH].
  destruct (apply_unkeyed _ _ _ _ _ Hk Ha) as (cand & Hc & _ & E). injection E as -> _.
  eapply keeps_terminal_trans; [eapply apply_pure_keeps_terminal; [|exact Hc]|by apply keeps_terminal_nodes].
  destruct c; cbn in *; tauto.
Qed.

(** The sequence number of the last report, 0 when there is none. *)
Definition last_seq (b : OperationBinding) : N :=
  match last_observation b with Some o => obs_seq o | None => 0%N end.

(** The binding of an operation keeps its identity, and its reports do not go back. *)
Definition binding_kept (o o' : option OperationBinding) : Prop :=
  match o, o' with
  | None, None => True
  | Some b, Some b' => external b' = external b /\ durable b' = durable b /\ (last_seq b <= last_seq b')%N
  | _, _ => False
  end.

Definition nodes_kept (g g' : WorkGraphSnapshot) : Prop :=
  forall id n, node g id = Some n ->
    exists n', node g' id = Some n' /\ node_kind n' = node_kind n /\ binding_kept (binding n) (binding n').

#[export] Instance binding_kept_preorder : PreOrder binding_kept.
Proof.
  split.
  - intros [b|]; cbn; [|done]. split_and!; done || lia.
  - intros [a|] [b|] [c|]; cbn; try done. intros (? & ? & ?) (? & ? & ?). split_and!; congruence || lia.
Qed.

#[export] Instance nodes_kept_preorder : PreOrder nodes_kept.
Proof.
  split.
  - intros g id n Hn. exists n. split; [done|]. split; [done|reflexivity].
  - intros g1 g2 g3 H1 H2 id n Hn. destruct (H1 id n Hn) as (m & Hm & K1 & B1).
    destruct (H2 id m Hm) as (k & Hk & K2 & B2). exists k. split; [done|]. split; [congruence|by etrans].
Qed.

Lemma nodes_kept_same g g' : nodes g' = nodes g -> nodes_kept g g'.
Proof. intros E id n Hn. exists n. unfold node in *. rewrite E. split; [done|]. split; [done|reflexivity]. Qed.

Lemma nodes_kept_update g id f :
  (forall n, node_id (f n) = node_id n) -> (forall n, node g id = Some n ->
     node_kind (f n) = node_kind n /\ binding_kept (binding n) (binding (f n))) ->
  nodes_kept g (update_node g id f).
Proof.
  intros Hf Hn i n Hi. destruct (decide (i = id)) as [->|Hne].
  - exists (f n). split; [by apply node_update_eq|by apply Hn].
  - exists n. split; [by rewrite node_update_ne|]. split; [done|reflexivity].
Qed.

Lemma apply_pure_kept g c ctx g' :
  NoDup (node_id <$> nodes g) -> keeps g c -> apply_pure g c ctx = Ok g' -> nodes_kept g g'.
Proof.
  intros Hnd Ha. destruct c; cbn [apply_pure keeps] in *; try done.
  - intros [_ ->]%add_node_ok i n Hn. exists n. split; [by apply node_with_nodes_snoc|]. split; [done|reflexivity].
  - intros (n & Hn & -> & _)%patch_node_ok. by apply nodes_kept_update.
  - intros (_ & _ & _ & ->)%add_edge_ok. by apply nodes_kept_same.
  - intros (n & b & Hn & Eb & ->)%reconcile_ok. apply nodes_kept_update; [done|].
    intros m Hm. assert (m = n) as -> by congruence. split; [done|]. cbn [reconciled set_state binding]. rewrite Eb.
    destruct obs; cbn; [|by split_and!; done || lia..]. split; [done|]. split; [done|].
    unfold last_seq. cbn. destruct (last_observation b) as [o|] eqn:Eo; [|lia]. apply (Ha Hnd n b o Hn Eb Eo).
  - intros [= <-]. by apply nodes_kept_same.
  - destruct (str_is_empty digest); [done|]. intros [= <-]. by apply nodes_kept_same.
  - intros (n & _ & [= <-])%bind_ok. by apply nodes_kept_same.
Qed.

Lemma edits_kept g g' : edits keeps g g' -> NoDup (node_id <$> nodes g) -> nodes_kept g g'.
Proof.
  induction 1 as [|g c ctx g1 r g' Hp Hk Ha _ IH]; [done|]. intros Hnd.
  destruct (apply_unkeyed _ _ _ _ _ Hk Ha) as (cand & Hc & Hv & E). injection E as -> _.
  etrans; [by eapply apply_pure_kept|]. etrans; [by apply nodes_kept_same|]. apply IH.
  apply (sound_node_ids _ (same_content_structure cand _ (commit_content _ _ _ _) (valid_structure _ Hv))).
Qed.

(** ** Frames *)

(** [g'] has the projections' compat state of [g] and every plan step of [g], with
    its title and state. *)
Definition frame (g g' : WorkGraphSnapshot) : Prop :=
  compat g' = compat g
  /\ forall id n, node g id = Some n -> node_kind n = PlanStep ->
       exists n', node g' id = Some n' /\ node_kind n' = PlanStep /\ title n' = title n /\ state n' = state n.

Lemma frame_refl g : frame g g.
Proof. split; [done|]. eauto. Qed.

Lemma frame_trans a b c : frame a b -> frame b c -> frame a c.
Proof.
  intros [C1 H1] [C2 H2]. split; [congruence|]. intros id n Hn Hk.
  destruct (H1 id n Hn Hk) as (m & Hm & Hk' & T1 & S1). destruct (H2 id m Hm Hk') as (o & ? & ? & ? & ?).
  exists o. split_and!; congruence.
Qed.

(** Changes that touch no plan step and no projection. *)
Definition aside (g : WorkGraphSnapshot) (c : WorkGraphChange) : Prop :=
  match c with
  | AddNode _ | AddEdge _ | RecordActivity _ | ReconcileOperation _ _ => True
  | UpdateNode id _ => forall n, node g id = Some n -> node_kind n <> PlanStep
  | _ => False
  end.

Lemma frame_nodes g g' : compat g' = compat g -> nodes g' = nodes g -> frame g g'.
Proof. intros Hc Hn. split; [done|]. unfold node. rewrite Hn. eauto. Qed.

Lemma frame_update g id f :
  (forall n, node_id (f n) = node_id n) -> (forall n, node g id = Some n -> node_kind n <> PlanStep) ->
  frame g (update_node g id f).
Proof.
  intros Hf Hn. split; [done|]. intros i n Hi Hk. exists n.
  assert (i <> id) by (intros ->; by eapply Hn). by rewrite node_update_ne.
Qed.

Lemma apply_pure_frame g c ctx g' :
  bindings_on_operations g -> aside g c -> apply_pure g c ctx = Ok g' -> frame g g'.
Proof.
  intros Hb Ha. destruct c; cbn [apply_pure aside] in *; try done.
  - intros [_ ->]%add_node_ok. split; [done|]. intros id n Hn Hk. exists n.
    split; [by apply node_with_nodes_snoc|done].
  - intros (n & Hn & -> & _)%patch_node_ok. by apply frame_update.
  - intros (_ & _ & _ & ->)%add_edge_ok. by apply frame_nodes.
  - intros (n & b & Hn & Eb & ->)%reconcile_ok. apply frame_update; [done|].
    intros m Hm. assert (m = n) as -> by congruence. apply node_some in Hn as [Hin _].
    rewrite (Hb n Hin) by (by rewrite Eb). done.
  - intros (n & _ & [= <-])%bind_ok. by apply frame_nodes.
Qed.

Lemma edits_frame g g' : edits aside g g' -> bindings_on_operations g -> frame g g'.
Proof.
  induction 1 as [|g c ctx g1 r g' Hp Hk Ha _ IH]; [intros _; apply frame_refl|]. intros Hb.
  apply (frame_trans _ g1); [|apply IH; by eapply apply_bindings].
  destruct (apply_unkeyed _ _ _ _ _ Hk Ha) as (cand & Hc & _ & E). injection E as -> _.
  eapply frame_trans; [by eapply apply_pure_frame|by apply frame_nodes].
Qed.

Lemma edits_import_digest g g' : edits aside g g' -> import_digest g' = import_digest g.
Proof.
  induction 1 as [|g c ctx g1 r g' Hp Hk Ha _ IH]; [done|]. rewrite IH.
  destruct (apply_unkeyed _ _ _ _ _ Hk Ha) as (cand & Hc & _ & E). injection E as -> _. change (import_digest cand = import_digest g).
  destruct c; cbn [apply_pure aside] in *; try done.
  - by apply add_node_ok in Hc as [_ ->].
  - by apply patch_node_ok in Hc as (n & _ & -> & _).
  - by apply add_edge_ok in Hc as (_ & _ & _ & ->).
  - by apply reconcile_ok in Hc as (n & b & _ & _ & ->).
  - by apply bind_ok in Hc as (n & _ & [= <-]).
Qed.

(** The views of two snapshots agree. *)
Definition same_views (g g' : WorkGraphSnapshot) : Prop :=
  project_plan g' = project_plan g /\ project_todos g' = project_todos g.

Lemma frame_views g g' : projection_sound g -> frame g g' -> same_views g g'.
Proof.
  intros Hv [Hc Hn]. destruct Hv as [_ P2 _ P4 _]. unfold same_views. split.
  - assert (forall n n', title n' = title n -> state n' = state n ->
      {| step := title n'; step_status := plan_status n' |} = {| step := title n; step_status := plan_status n |}) as Hrow.
    { intros n n' T S. unfold plan_status. by rewrite T, S. }
    unfold project_plan. rewrite Hc. f_equal. revert P2. generalize (plan_order (compat g)).
    induction l as [|id l IH]; intros P2; [done|]. cbn [omap list_omap].
    destruct (P2 id ltac:(left)) as (n & En & Hk). destruct (Hn id n En Hk) as (n' & -> & _ & T & S).
    rewrite En. cbn [fmap list_fmap]. rewrite (Hrow n n' T S). f_equal.
    apply IH. intros i Hi. apply P2. by right.
  - assert (omap (project_todo g') (todos (compat g)) = omap (project_todo g) (todos (compat g))) as E;
      [|unfold project_todos; by rewrite Hc, E].
    revert P4. generalize (todos (compat g)). induction l as [|b l IH]; intros P4; [done|]. cbn [omap list_omap].
    destruct (P4 b ltac:(left)) as (_ & (n & En & Hk) & _).
    destruct (Hn _ n En Hk) as (n' & En' & _ & T & S).
    assert (project_todo g' b = project_todo g b) as ->.
    { unfold project_todo, todo_status. rewrite En, En'. cbn. by rewrite T, S. }
    rewrite IH by (intros c Hi; apply P4; by right). done.
Qed.

End Edits.

End WgEdits.

Module WgRuntimeFacts.
Import Providers WgModel WgValidate WgSpec WgReducer WgFacts WgPlan WgProjection WgLegacy WgImport WgRuntime WgEdits.

(** ** The monad *)

Lemma m_bind_ok {A B} (m : M A) (k : A -> M B) n b n' :
  WgRuntime.bind m k n = Ok (b, n') <-> exists a n1, m n = Ok (a, n1) /\ k a n1 = Ok (b, n').
Proof. unfold WgRuntime.bind. rewrite bind_ok. split; [intros ([a n1] & ? & ?)|intros (a & n1 & ? & ?)]; eauto. Qed.

Lemma ret_ok {A} (a b : A) n n' : ret a n = Ok (b, n') <-> a = b /\ n = n'.
Proof. unfold ret. naive_solver. Qed.

Lemma ok_or_else_ok {A} (o : option A) e n a n' : ok_or_else o e n = Ok (a, n') <-> o = Some a /\ n = n'.
Proof. unfold ok_or_else. destruct o; [rewrite ret_ok|]; naive_solver. Qed.

Lemma now_ms_ok clock n t n' : now_ms clock n = Ok (t, n') <-> t = clock n /\ n' = S n.
Proof. unfold now_ms. naive_solver. Qed.

(** Takes apart every successful step of a computation. *)
Ltac m_steps :=
  repeat match goal with
  | H : WgRuntime.bind _ _ _ = Ok _ |- _ => apply m_bind_ok in H as (? & ? & ? & H)
  | H : ret _ _ = Ok _ |- _ => apply ret_ok in H as [? ?]; subst
  | H : now_ms _ _ = Ok _ |- _ => apply now_ms_ok in H as [? ?]; subst
  | H : ok_or_else _ _ _ = Ok _ |- _ => apply ok_or_else_ok in H as [? ?]; subst
  | H : fail _ _ = Ok _ |- _ => discriminate H
  end.

Section Edits.
Context `{Digest} (clock : nat -> Ts) (P : WorkGraphSnapshot -> WorkGraphChange -> Prop).
Hypothesis (Padd : forall g n, P g (AddNode n)) (Pedge : forall g e, P g (AddEdge e)).

Lemma try_apply_ok g c ctx g' : try_apply g c ctx = Ok g' <-> exists r, apply g c ctx = Ok (g', r).
Proof.
  unfold try_apply, graph_apply. cbn [snapshot]. destruct (apply g c ctx) as [[g1 r1]|]; cbn; naive_solver.
Qed.

Lemma apply_change_edits s tool c g n g' n' :
  apply_change clock s tool c g n = Ok (g', n') -> P g c -> edits P g g'.
Proof.
  unfold apply_change. intros Hc Hp. m_steps. destruct (try_apply _ _ _) as [g1|] eqn:E; [|done]. m_steps.
  apply try_apply_ok in E as [r E]. by refine (edits_one _ _ _ _ _ _ Hp _ E).
Qed.

Lemma patch_existing_edits s tool id t st g n g' n' :
  patch_existing_node clock s tool id t st g n = Ok (g', n') -> (forall patch, P g (UpdateNode id patch)) ->
  edits P g g'.
Proof.
  unfold patch_existing_node. intros Hc Hp. m_steps. destruct (_ && _); m_steps; [constructor|].
  by eapply apply_change_edits.
Qed.

Lemma upsert_node_edits s tool nd g n g' n' :
  upsert_node clock s tool nd g n = Ok (g', n') ->
  (forall m patch, node g (node_id nd) = Some m -> node_kind m = node_kind nd -> P g (UpdateNode (node_id nd) patch)) ->
  edits P g g'.
Proof.
  unfold upsert_node. intros Hc Hp. destruct (node g (node_id nd)) as [m|] eqn:E; [|by eapply apply_change_edits].
  case_bool_decide; cbn [negb] in Hc; m_steps. eapply patch_existing_edits; eauto.
Qed.

Lemma ensure_contains_edits s tool a b g n g' n' :
  ensure_contains clock s tool a b g n = Ok (g', n') -> edits P g g' /\ nodes g' = nodes g.
Proof.
  unfold ensure_contains. intros Hc. destruct (edge g _); m_steps; [split; [constructor|done]|].
  split; [by eapply apply_change_edits|]. unfold apply_change in Hc. m_steps.
  destruct (try_apply _ _ _) as [g1|] eqn:E; [|done]. m_steps. apply try_apply_ok in E as [r E].
  apply apply_unkeyed in E as (cand & Hc & _ & E); [|done]. injection E as -> _.
  cbn [apply_pure] in Hc. by apply add_edge_ok in Hc as (_ & _ & _ & ->).
Qed.

Lemma operation_parent_edits s source g n r n' :
  operation_parent clock s source g n = Ok (r, n') -> edits P g r.1.
Proof.
  unfold operation_parent. intros Hc. destruct (match List.find _ _ with Some _ => _ | None => _ end); m_steps.
  - constructor.
  - by eapply apply_change_edits.
Qed.

(** The node just added is there. *)
Lemma apply_change_added s tool nd g n g' n' :
  apply_change clock s tool (AddNode nd) g n = Ok (g', n') -> node g' (node_id nd) = Some nd.
Proof.
  unfold apply_change. intros Hc. m_steps. destruct (try_apply _ _ _) as [g1|] eqn:E; [|done]. m_steps.
  apply try_apply_ok in E as [r E]. apply apply_unkeyed in E as (cand & Hc & _ & E); [|done]. injection E as -> _.
  cbn [apply_pure] in Hc. apply add_node_ok in Hc as [Hn ->]. unfold node in *. cbn [nodes with_commit with_nodes].
  revert Hn. induction (nodes g) as [|m l IH]; cbn [List.find app].
  - by rewrite (proj2 (str_eqb_spec _ _) eq_refl).
  - destruct (str_eqb (node_id m) (node_id nd)); [done|apply IH].
Qed.

Lemma register_graph_edits s intent g n g' n' :
  register_graph clock s intent g n = Ok (g', n') ->
  (forall g nd patch, node g (operation_id s (intent_external intent)) = Some nd -> node_kind nd = Operation ->
     P g (UpdateNode (operation_id s (intent_external intent)) patch)) ->
  edits P g g'.
Proof.
  unfold register_graph. intros Hc Hp. m_steps.
  lazymatch goal with
  | H1 : operation_parent _ _ _ _ _ = _, H2 : apply_change _ _ _ _ _ _ = _, H3 : ensure_contains _ _ _ _ _ _ _ = _ |- _ =>
      apply operation_parent_edits in H1; pose proof (apply_change_added _ _ _ _ _ _ _ H2) as Hnew;
      apply apply_change_edits in H2; [|done]; apply ensure_contains_edits in H3 as [H3 Hnodes];
      eapply edits_trans; [exact H1|]; eapply edits_trans; [exact H2|]; eapply edits_trans; [exact H3|]
  end.
  eapply patch_existing_edits; [exact Hc|]. intros patch. eapply (Hp _ (operation_node s intent _)); [|done].
  unfold node in *. rewrite Hnodes. exact Hnew.
Qed.

Lemma approval_graph_edits s ext ref source call op g n g' n' :
  approval_graph clock s ext ref source call op g n = Ok (g', n') -> edits P g g'.
Proof.
  unfold approval_graph. intros Hc. m_steps.
  match goal with H : _ = Ok (?g1, _) |- edits P g g' =>
    assert (edits P g g1) as H1; [destruct (node g _); m_steps; [constructor|by eapply apply_change_edits]|] end.
  eapply edits_trans; [exact H1|]. destruct (edge _ _); m_steps; [constructor|by eapply apply_change_edits].
Qed.

End Edits.

(** ** Plan and To-do updates, imports *)

Section Updates.
Context `{Digest} `{LegacyCodec} (clock : nat -> Ts).

Abbreviation edited := (edits keeps).

Lemma change_edited s tool c g n g' n' :
  apply_change clock s tool c g n = Ok (g', n') -> keeps g c -> edited g g'.
Proof. apply apply_change_edits. Qed.

Lemma patch_edited s tool id t st g n g' n' :
  patch_existing_node clock s tool id t st g n = Ok (g', n') -> edited g g'.
Proof. intros Hc. by eapply patch_existing_edits. Qed.

Lemma upsert_edited s tool nd g n g' n' : upsert_node clock s tool nd g n = Ok (g', n') -> edited g g'.
Proof. intros Hc. by eapply upsert_node_edits. Qed.

Lemma contains_edited s tool a b g n g' n' : ensure_contains clock s tool a b g n = Ok (g', n') -> edited g g'.
Proof. intros Hc. by eapply (ensure_contains_edits _ keeps) in Hc as [? _]. Qed.

Lemma deactivate_edits s tool l g n g' n' : deactivate_all clock s tool l g n = Ok (g', n') -> edited g g'.
Proof.
  revert g n. induction l as [|[id t] l IH]; intros g n Hc; cbn in Hc; m_steps; [constructor|].
  eapply edits_trans; [by eapply patch_edited|by eapply IH].
Qed.

Lemma ensure_objective_edits s tool p g n r n' : ensure_objective clock s tool p g n = Ok (r, n') -> edited g r.1.
Proof. unfold ensure_objective, tool_node. intros Hc. m_steps. by eapply upsert_edited. Qed.

Lemma upsert_plan_edits s tool o i order l g n r n' :
  upsert_plan clock s tool o i order l g n = Ok (r, n') -> edited g r.1.
Proof.
  revert i order g n. induction l as [|item l IH]; intros i order g n Hc; cbn [upsert_plan] in Hc; [m_steps; constructor|].
  unfold tool_node in Hc. m_steps.
  eapply edits_trans; [by eapply upsert_edited|]. eapply edits_trans; [by eapply contains_edited|]. by eapply IH.
Qed.

Lemma update_plan_edits s tool p g n g' n' : update_plan_graph clock s tool p g n = Ok (g', n') -> edited g g'.
Proof.
  unfold update_plan_graph. intros Hc.
  apply m_bind_ok in Hc as (r & n1 & H1 & Hc). apply m_bind_ok in Hc as (g2 & n2 & H2 & Hc).
  apply m_bind_ok in Hc as (q & n3 & H3 & Hc).
  eapply edits_trans; [by eapply ensure_objective_edits|]. apply (edits_trans _ _ g2).
  - destruct (desired_active_alias _ _ _); [by eapply deactivate_edits|m_steps; constructor].
  - eapply edits_trans; [by eapply upsert_plan_edits|]. by eapply change_edited.
Qed.

Lemma upsert_todo_edits s tool o order item g n r n' :
  upsert_todo clock s tool o order item g n = Ok (r, n') -> edited g r.1.
Proof.
  unfold upsert_todo, tool_node. intros Hc. destruct (todo_alias order g (todo_id item)) as [[i id]|]; m_steps.
  - by eapply patch_edited.
  - eapply edits_trans; [by eapply upsert_edited|]. eapply edits_trans; [by eapply contains_edited|].
    cbn [fst]. destruct (bool_decide _); m_steps; [by eapply patch_edited|constructor].
Qed.

Lemma upsert_todos_edits s tool o order bs l g n r n' :
  upsert_todos clock s tool o order bs l g n = Ok (r, n') -> edited g r.1.
Proof.
  revert bs g n. induction l as [|item l IH]; intros bs g n Hc; cbn [upsert_todos] in Hc; m_steps; [constructor|].
  eapply edits_trans; [by eapply upsert_todo_edits|eauto].
Qed.

Lemma update_todo_edits s tool t g n g' n' : update_todo_graph clock s tool t g n = Ok (g', n') -> edited g g'.
Proof.
  unfold update_todo_graph. intros Hc.
  apply m_bind_ok in Hc as (g1 & n1 & H1 & Hc). apply m_bind_ok in Hc as (r & n2 & H2 & Hc).
  apply m_bind_ok in Hc as (q & n3 & H3 & Hc).
  eapply edits_trans; [by eapply deactivate_edits|]. eapply edits_trans; [by eapply ensure_objective_edits|].
  eapply edits_trans; [by eapply upsert_todos_edits|]. by eapply change_edited.
Qed.

(** The import. *)

(** The changes the import makes: it renames nothing and starts no operation. *)
Definition import_change (_ : WorkGraphSnapshot) (c : WorkGraphChange) : Prop :=
  match c with
  | AddNode n => state n <> Initializing
  | UpdateNode _ p => patch_title p = None /\ patch_state p <> Some Initializing
  | AddEdge _ | ReplaceCompatProjection _ | SetImportDigest _ => True
  | _ => False
  end.

Lemma import_apply_edits g c ctx g' :
  ctx_key ctx = None -> import_apply g c ctx = Ok g' -> import_change g c -> edits import_change g g'.
Proof.
  unfold import_apply. intros Hk Hc Hp. destruct (try_apply g c ctx) as [g1|] eqn:E; [|done]. injection Hc as <-.
  apply try_apply_ok in E as [r E]. refine (edits_one _ _ _ _ _ _ Hp _ E). unfold seen. by rewrite Hk.
Qed.

Lemma import_plan_edits s d o ctx g order i l r :
  ctx_key ctx = None -> import_plan s d o ctx g order i l = Ok r -> edits import_change g r.1.
Proof.
  intros Hk. revert g order i. induction l as [|item l IH]; intros g order i; cbn [import_plan]; [intros [= <-]; constructor|].
  destruct (_ <=? _)%N; [|done]. intros (g1 & H1 & (g2 & H2 & H3)%bind_ok)%bind_ok.
  apply import_apply_edits in H1; [|done|by cbn; destruct (step_status item)].
  apply import_apply_edits in H2; [|done..].
  eapply edits_trans; [exact H1|]. eapply edits_trans; [exact H2|]. by eapply IH.
Qed.

(** The state an item gives its node is never that of a starting operation. *)
Lemma import_patch g id st item :
  st <> Initializing -> import_change g (UpdateNode id (state_patch (more_advanced_state st (node_state_from_todo (status item))))).
Proof.
  intros Hs. split; [done|]. cbn. unfold more_advanced_state. case_match; [by destruct (status item)|]. congruence.
Qed.

Definition no_starts (g : WorkGraphSnapshot) : Prop := forall n, n ∈ nodes g -> state n <> Initializing.

Lemma import_todo_edits s d o ctx order g item r :
  ctx_key ctx = None -> no_starts g -> import_todo s d o ctx order g item = Ok r -> edits import_change g r.1.
Proof.
  intros Hk Hns. unfold import_todo. destruct (strip_plan_provenance _) as [t mi].
  destruct (mi ≫= _) as [[i id]|].
  - destruct (node g id) as [n|] eqn:En; [|done]. intros (g1 & H1 & [= <-])%bind_ok. cbn.
    destruct (negb _); [|injection H1 as <-; constructor]. eapply import_apply_edits; [done|exact H1|].
    apply import_patch, Hns. by apply node_some in En as [? _].
  - intros (g1 & H1 & (g2 & H2 & (g3 & H3 & [= <-])%bind_ok)%bind_ok)%bind_ok.
    apply import_apply_edits in H1; [|done..]. apply import_apply_edits in H2; [|done..].
    eapply edits_trans; [exact H1|]. eapply edits_trans; [exact H2|]. cbn.
    destruct (negb _); [|injection H3 as <-; constructor]. eapply import_apply_edits; [done|exact H3|].
    split; [done|]. cbn. by destruct (status item).
Qed.

(** What the edits of an import keep: nodes with their titles, and no starting operation. *)
Definition titles_kept (g g' : WorkGraphSnapshot) : Prop :=
  (forall id n, node g id = Some n -> exists n', node g' id = Some n' /\ title n' = title n)
  /\ (no_starts g -> no_starts g').

Lemma titles_kept_nodes g g' : nodes g' = nodes g -> titles_kept g g'.
Proof. intros E. unfold titles_kept, no_starts, node. rewrite E. eauto. Qed.

Lemma titles_kept_trans a b c : titles_kept a b -> titles_kept b c -> titles_kept a c.
Proof.
  intros [T1 S1] [T2 S2]. split; [|auto]. intros id n Hn. destruct (T1 id n Hn) as (m & Hm & E1).
  destruct (T2 id m Hm) as (k & Hk & E2). exists k. split; [done|congruence].
Qed.

Lemma update_first_states id f l :
  (forall n, state n <> Initializing -> state (f n) <> Initializing) ->
  (forall n, n ∈ l -> state n <> Initializing) -> forall n, n ∈ update_first id f l -> state n <> Initializing.
Proof.
  intros Hf. induction l as [|x l IH]; cbn [update_first]; [by intros _ n ?%not_elem_of_nil|]. intros Hl.
  case_match; intros n [->|Hn]%elem_of_cons.
  - apply Hf, Hl. left.
  - apply Hl. by right.
  - apply Hl. left.
  - apply IH; [|done]. intros m Hm. apply Hl. by right.
Qed.

Lemma import_change_titles g c ctx g' : import_change g c -> apply_pure g c ctx = Ok g' -> titles_kept g g'.
Proof.
  intros Hp. destruct c; cbn [apply_pure import_change] in *; try done.
  - intros [_ ->]%add_node_ok. split.
    + intros id n Hn. exists n. split; [by apply node_with_nodes_snoc|done].
    + intros Hs n [Hn|Hn%list_elem_of_singleton]%elem_of_app; [by apply Hs|]. by subst.
  - destruct Hp as [Ht Hs]. intros (n & Hn & -> & _)%patch_node_ok. split.
    + intros i m Hi. destruct (decide (i = id)) as [->|Hne].
      * eexists. split; [by apply node_update_eq|]. cbn. by rewrite Ht.
      * exists m. split; [by rewrite node_update_ne|done].
    + intros Hns. refine (update_first_states _ _ _ _ Hns). intros m Hm. cbn. destruct (patch_state patch); cbn; congruence.
  - intros (_ & _ & _ & ->)%add_edge_ok. by apply titles_kept_nodes.
  - intros [= <-]. by apply titles_kept_nodes.
  - destruct (str_is_empty digest); [done|]. intros [= <-]. by apply titles_kept_nodes.
Qed.

Lemma import_edits_titles g g' : edits import_change g g' -> titles_kept g g'.
Proof.
  induction 1 as [|g c ctx g1 r g' Hp Hk Ha _ IH]; [by apply titles_kept_nodes|].
  destruct (apply_unkeyed _ _ _ _ _ Hk Ha) as (cand & Hc & Hv & E). injection E as -> _.
  eapply titles_kept_trans; [by eapply import_change_titles|]. eapply titles_kept_trans; [|exact IH].
  by apply titles_kept_nodes.
Qed.

Lemma import_todos_edits s d o ctx order g bs l r :
  ctx_key ctx = None -> no_starts g -> import_todos s d o ctx order g bs l = Ok r -> edits import_change g r.1.
Proof.
  intros Hk. revert g bs. induction l as [|item l IH]; intros g bs Hns; cbn [import_todos]; [intros [= <-]; constructor|].
  intros (q & H1 & H2)%bind_ok. apply import_todo_edits in H1; [|done..].
  eapply edits_trans; [exact H1|]. eapply IH; [|exact H2]. by apply (import_edits_titles _ _ H1).
Qed.

Lemma no_starts_new : no_starts snapshot_new.
Proof. intros n Hn. by apply not_elem_of_nil in Hn. Qed.

(** The stages of an import. *)
Lemma import_legacy_stages s p t g :
  import_legacy s p t = Ok g ->
  let ctx := {| session_id := s; now := 0; ctx_key := None |} in
  exists list digest objective g1 r q,
    todo_from_snapshot t = Ok list
    /\ edits import_change snapshot_new g1
    /\ import_plan s digest objective ctx g1 [] 0 (plan_items (plan_snapshot (plan_from_snapshot 0 p))) = Ok r
    /\ import_todos s digest objective ctx r.2 r.1 [] (tl_items list) = Ok q
    /\ nodes g = nodes q.1
    /\ compat g = {| plan := from_plan_snapshot (plan_snapshot (plan_from_snapshot 0 p)); plan_order := r.2; todos := q.2 |}
    /\ edits import_change q.1 g.
Proof.
  unfold import_legacy. destruct (todo_from_snapshot t) as [l|]; [|done]. destruct (canonical _ _) as [bytes|]; [|done].
  intros (g1 & H1 & (r & H2 & (q & H3 & (g4 & H4 & H5)%bind_ok)%bind_ok)%bind_ok)%bind_ok.
  exists l, (sha256_hex bytes), (node_id_derive s (lit "objective")), g1, r, q.
  split; [done|]. split; [by eapply import_apply_edits in H1|]. split; [done|]. split; [done|].
  assert (edits import_change q.1 g) as He.
  { apply import_apply_edits in H4; [|done..]. apply import_apply_edits in H5; [|done..]. by eapply edits_trans. }
  enough (nodes g = nodes q.1 /\ compat g = {| plan := from_plan_snapshot (plan_snapshot (plan_from_snapshot 0 p)); plan_order := r.2; todos := q.2 |})
    as [-> ->] by done.
  unfold import_apply in H4, H5.
  destruct (try_apply q.1 _ _) as [g4'|] eqn:E4; [|done]. injection H4 as ->.
  destruct (try_apply g4 _ _) as [g5'|] eqn:E5; [|done]. injection H5 as ->.
  apply try_apply_ok in E4 as [r4 E4], E5 as [r5 E5].
  destruct (apply_unkeyed _ _ _ _ _ (eq_refl : seen _ {| session_id := s; now := 0; ctx_key := None |} = None) E4) as (c4 & Hc4 & _ & E).
  injection E as -> _. injection Hc4 as <-.
  destruct (apply_unkeyed _ _ _ _ _ (eq_refl : seen _ {| session_id := s; now := 0; ctx_key := None |} = None) E5) as (c5 & Hc5 & _ & E).
  injection E as -> _. cbn [apply_pure] in Hc5. destruct (str_is_empty _); [done|]. injection Hc5 as <-. done.
Qed.

Lemma import_legacy_changes s p t g : import_legacy s p t = Ok g -> edits import_change snapshot_new g.
Proof.
  intros (l & d & o & g1 & r & q & _ & H1 & H2 & H3 & _ & _ & H4)%import_legacy_stages.
  apply import_plan_edits in H2; [|done]. apply import_todos_edits in H3; [|done|].
  - eauto using edits_trans.
  - apply (import_edits_titles _ _ (edits_trans _ _ _ _ H1 H2)), no_starts_new.
Qed.

Lemma import_legacy_edits s p t g : import_legacy s p t = Ok g -> edited snapshot_new g.
Proof. intros He%import_legacy_changes. eapply edits_impl; [|exact He]. intros g0 c. by destruct c. Qed.

End Updates.

(** ** Observations and restored owners *)

Section Owners.
Context `{Digest} `{LegacyCodec} (clock : nat -> Ts).

Lemma observation_edits s ext obs g n next n' :
  apply_observation_to_snapshot clock s ext obs g n = Ok (Some next, n') ->
  exists nd r t, List.find (bound_to ext) (nodes g) = Some nd
    /\ observation_freshness ext nd obs = Apply r
    /\ apply_pure g (ReconcileOperation (node_id nd) obs)
         {| session_id := s; now := t; ctx_key := observation_key s ext r obs |}
       = reconcile g (node_id nd) obs {| session_id := s; now := t; ctx_key := observation_key s ext r obs |}
    /\ (forall P : WorkGraphSnapshot -> WorkGraphChange -> Prop,
          P g (ReconcileOperation (node_id nd) obs) -> edits P g next)
    /\ exists cand, reconcile g (node_id nd) obs
         {| session_id := s; now := t; ctx_key := observation_key s ext r obs |} = Ok cand /\ nodes next = nodes cand.
Proof.
  unfold apply_observation_to_snapshot. intros Hc. m_steps. destruct (observation_freshness ext x obs) as [|r|] eqn:Ef; m_steps; [done|].
  destruct (apply _ _ _) as [[g1 rc]|] eqn:E; m_steps.
  match goal with H1 : (if no_op rc then None else Some g1) = Some next |- _ =>
    destruct (no_op rc) eqn:Eno; [done|]; injection H1 as <- end.
  eexists _, r, _. split_and!; [done|done|done|..].
  - apply apply_cases in E as Ec. destruct Ec as [(key & _ & _ & ->)|(Hs & _)]; [done|].
    intros P Hp. eapply (edits_one P); [exact Hp|exact Hs|exact E].
  - apply apply_cases in E as Ec. destruct Ec as [(key & _ & _ & ->)|(_ & cand & Hc & _ & Ec)]; [done|].
    injection Ec as -> _. exists cand. done.
Qed.

Lemma mark_stale_edits s ids g n g' n' : mark_stale clock s ids g n = Ok (g', n') -> edits aside g g'.
Proof.
  revert g n. induction ids as [|id ids IH]; intros g n Hc; cbn [mark_stale] in Hc; m_steps; [constructor|].
  destruct (try_apply _ _ _) as [g1|] eqn:E; m_steps. apply try_apply_ok in E as [r E].
  eapply edits_trans; [|by eapply IH]. eapply (edits_one aside); [| |exact E]; [exact I|done].
Qed.

Lemma mark_restored_edits s g n r n' :
  mark_restored_ephemeral_operations_stale clock s g n = Ok (r, n') -> edits aside g r.1.
Proof.
  unfold mark_restored_ephemeral_operations_stale. intros Hc. destruct (is_nil _); m_steps; [constructor|].
  by eapply mark_stale_edits.
Qed.

(** What is asked of a predicate on changes to cover the reports that are applied. *)
Definition covers_reports (P : WorkGraphSnapshot -> WorkGraphChange -> Prop) : Prop :=
  forall g ext nd obs r, List.find (bound_to ext) (nodes g) = Some nd -> observation_freshness ext nd obs = Apply r ->
    P g (ReconcileOperation (node_id nd) obs).

Lemma aside_covers_reports : covers_reports aside.
Proof. by intros ???. Qed.

Lemma keeps_covers_reports : covers_reports keeps.
Proof.
  intros g ext nd obs r Hf Hfresh Hnd n b o Hn Hb Ho. apply find_elem_of in Hf as [Hin _].
  rewrite (node_of_elem _ _ Hnd Hin) in Hn. injection Hn as <-. unfold not_older. destruct obs as [st seq t out| |]; try done.
  unfold observation_freshness in Hfresh. rewrite Hb in Hfresh. cbn [mbind option_bind] in Hfresh. rewrite Ho in Hfresh.
  destruct (N.ltb_spec seq (obs_seq o)); [done|lia].
Qed.

Section Reports.
Context (P : WorkGraphSnapshot -> WorkGraphChange -> Prop) (HP : covers_reports P).

Lemma observation_step s ext obs g n next n' :
  apply_observation_to_snapshot clock s ext obs g n = Ok (Some next, n') -> edits P g next.
Proof. intros (nd & r & t & Hf & Hfresh & _ & He & _)%observation_edits. by eapply He, HP. Qed.

Lemma reconcile_all_edits s stores t l k g n r n' :
  reconcile_all clock s stores t l k g n = Ok (r, n') -> edits P g r.1.
Proof.
  revert k g n. induction l as [|ext l IH]; intros k g n Hc; cbn [reconcile_all] in Hc; m_steps; [constructor|].
  destruct (owner_observation stores t ext); [|by eapply IH]. m_steps.
  match goal with H1 : apply_observation_to_snapshot _ _ _ _ _ _ = Ok (?o, _) |- _ => destruct o as [next|] end;
    [|by eapply IH].
  eapply edits_trans; [|by eapply IH]. by eapply observation_step.
Qed.

Lemma reconcile_workspace_edits s stores g n r n' :
  reconcile_workspace_snapshot clock s stores g n = Ok (r, n') -> edits P g r.1.
Proof.
  unfold reconcile_workspace_snapshot. intros Hc. destruct (is_nil _); m_steps; [constructor|].
  by eapply reconcile_all_edits.
Qed.

End Reports.

End Owners.

(** ** Normal graphs *)

(** The legacy states take over both views unchanged. *)
Definition normal (g : WorkGraphSnapshot) : Prop :=
  normal_plan (project_plan g) /\ exists l, todo_from_snapshot (project_todos g) = Ok l.

Lemma completion_same l :
  completion_percentage {| tl_items := l; next_id := 0 |} =
    completion (length (List.filter (fun i => is_settled (status i)) l)) (length l).
Proof. unfold completion_percentage, completion. destruct l; [done|]. cbn [tl_items is_nil length Nat.eqb]. done. Qed.

Lemma todo_snapshot_projected g l :
  todo_from_snapshot (project_todos g) = Ok l -> todo_snapshot l = project_todos g.
Proof.
  intros Hl%todo_from_snapshot_items. destruct l as [is' n']. cbn in Hl. subst is'.
  unfold todo_snapshot, project_todos. f_equal. apply completion_same.
Qed.

Lemma validate_combined_ok g p t :
  validate_combined g p t = Ok tt <->
    Valid g /\ project_plan g = p /\ project_todos g = t /\ exists l, todo_from_snapshot t = Ok l.
Proof.
  unfold validate_combined. destruct (validate g) as [[]|r] eqn:E.
  - apply validate_ok in E. repeat case_bool_decide; cbn [negb]; [|naive_solver..].
    destruct (todo_from_snapshot t); naive_solver.
  - split; [done|]. intros (Hv%validate_ok & _). congruence.
Qed.

Lemma publishable_ok instant g r :
  publishable_states instant g = Ok r <->
    Valid g /\ normal g /\ r.1 = plan_from_snapshot instant (project_plan g)
    /\ todo_from_snapshot (project_todos g) = Ok r.2.
Proof.
  unfold publishable_states, normal. destruct (todo_from_snapshot (project_todos g)) as [l|e] eqn:E.
  - pose proof (todo_snapshot_projected _ _ E) as Et. rewrite bind_ok.
    setoid_rewrite <-(plan_from_snapshot_normal instant). split.
    + intros ([] & (Hv & Hp & _)%validate_combined_ok & [= <-]). cbn. eauto 10.
    + intros (Hv & [Hp _] & E1 & [= E2]). exists tt. split; [|by destruct r; cbn in *; subst].
      apply validate_combined_ok. rewrite Et. eauto 10.
  - naive_solver.
Qed.

Lemma normal_same_views g g' : same_views g g' -> normal g -> normal g'.
Proof. unfold same_views, normal. intros [-> ->]. done. Qed.

Lemma snapshot_new_normal : normal snapshot_new.
Proof. split; [split; [done|split; [constructor|cbn; lia]]|]. by eexists. Qed.

Lemma validate_combined_self g u :
  validate_combined g (project_plan g) (project_todos g) = Ok u -> Valid g /\ exists l, todo_from_snapshot (project_todos g) = Ok l.
Proof. destruct u. intros (? & _ & _ & ?)%validate_combined_ok. done. Qed.

End WgRuntimeFacts.
