(* ===== verification/WgSession.v ===== *)
(** * Sessions of the work-graph runtime

    Any sequence of runtime operations, with busy locks, failures, restores and owner
    reports, keeps the active graph valid and publishable and the published views in
    step with it; what is saved can be restored. *)

From stdpp Require Import base list option gmap strings sorting.
From Stdlib Require Import Lia NArith ZArith.
From S2P Require Import Prelude RustStr Providers WgModel WgValidate WgSearch WgSpec WgReducer WgFacts WgPlan.
From S2P Require Import WgProjection WgLegacy WgImport WgRuntime WgRuntimeFacts.

Module WgSession.
Import Providers WgModel WgValidate WgSpec WgReducer WgFacts WgPlan WgProjection WgLegacy WgImport WgRuntime.
Import WgEdits WgRuntimeFacts.

(** ** Operations as data *)

Inductive rt_op : Type :=
| ORegister (clock : nat -> Ts) (lk : locks) (session : list N) (intent : OperationIntent)
| OApprove (clock : nat -> Ts) (lk : locks) (session ext ref source call_id : list N)
| OObserve (clock : nat -> Ts) (session ext : list N) (obs : OperationObservation)
| OEffort (clock : nat -> Ts) (lk : locks) (session : option (list N)) (req eff : ReasoningEffortTier)
    (kind : ApiProvider) (prov : list N) (endpoint mdl : option (list N))
| OPlan (clock : nat -> Ts) (instant : Z) (session tool : list N) (p : PlanSnapshot)
| OTodo (clock : nat -> Ts) (instant : Z) (session tool : list N) (t : TodoListSnapshot)
| OPublish (lk : locks) (instant : Z)
| OCapture (lk : locks) (session : option (list N))
| ORestore (clock : nat -> Ts) (instant : Z) (lk : locks) (session : list N) (graph : option WorkGraphSnapshot)
    (t : TodoListSnapshot) (p : PlanSnapshot) (stores : option owner_stores)
| OReconcile (clock : nat -> Ts) (session : list N) (stores : owner_stores)
| OClear (lk : locks) (session : option (list N)).

Section Session.
Context `{Digest} `{LegacyCodec}.

Definition exec_op (rt : WorkRuntime) (o : rt_op) : WorkRuntime :=
  match o with
  | ORegister clock lk s intent => (register_operation clock lk rt s intent).1
  | OApprove clock lk s ext ref source call => (record_operation_approval clock lk rt s ext ref source call).1
  | OObserve clock s ext obs => (reconcile_observation clock rt s ext obs).1
  | OEffort clock lk s req eff kind prov endpoint mdl =>
      (record_reasoning_effort_change clock lk rt s req eff kind prov endpoint mdl).1
  | OPlan clock instant s tool p => (apply_plan_update clock instant rt s tool p).1
  | OTodo clock instant s tool t => (apply_todo_update clock instant rt s tool t).1
  | OPublish lk instant => (publish_pending_sync lk instant rt).1
  | OCapture lk s => (capture lk rt s).1
  | ORestore clock instant lk s graph t p stores => (restore_internal clock instant lk rt s graph t p stores).1
  | OReconcile clock s stores => (reconcile_workspace_owner_bindings clock id rt s stores).1
  | OClear lk s => (clear lk rt s).1
  end.

(** The revision counter is far enough from wrapping around. *)
Definition room (g : WorkGraphSnapshot) : Prop :=
  (revision g + N.of_nat (length (nodes g)) + 1 < u64_modulus)%N.

(** The plan of the graph has at most one step in progress. *)
Definition one_step (g : WorkGraphSnapshot) : Prop := in_progress_steps (plan_items (project_plan g)) <= 1.

(** What is asked of the environment: the revision counter does not come near its end,
    and a legacy session without a graph is imported with at most one plan step in
    progress. Saved graphs are restored by [session_restore]. *)
Definition op_ok (rt : WorkRuntime) (o : rt_op) : Prop :=
  match o with
  | OObserve _ _ _ _ | OReconcile _ _ _ => forall g, rt_snapshot rt = Some g -> room g
  | ORestore _ _ _ _ (Some _) _ _ _ => False
  | ORestore _ _ _ s None t p _ => forall g, import_legacy s p t = Ok g -> one_step g
  | _ => True
  end.

(** Sessions: any operations in any order, and restores of a graph that some session
    saved, with whatever views and owner stores. *)
Inductive session : WorkRuntime -> Prop :=
| session_new : session (new_shared_work_runtime todo_list_new plan_state_default)
| session_step rt o : session rt -> op_ok rt o -> session (exec_op rt o)
| session_restore rt clock instant lk s t p stores saver lk0 s0 saver' w :
    session rt -> session saver -> capture lk0 saver s0 = (saver', Ok (Some w)) ->
    session (exec_op rt (ORestore clock instant lk s (Some (wr_graph w)) t p stores)).

(** ** The invariant *)

Definition in_step (rt : WorkRuntime) (g : WorkGraphSnapshot) : Prop :=
  plan_view rt = project_plan g /\ todo_view rt = project_todos g.

Definition Good (rt : WorkRuntime) : Prop :=
  match rt_snapshot rt with
  | None => pending_publish rt = false /\ in_step rt snapshot_new
  | Some g => exact g /\ normal g /\ (pending_publish rt = false -> in_step rt g)
  end.

Lemma good_some rt g : Good rt -> rt_snapshot rt = Some g ->
  exact g /\ normal g /\ (pending_publish rt = false -> in_step rt g).
Proof. unfold Good. intros HG E. by rewrite E in HG. Qed.

Lemma with_next_good rt g : exact g -> normal g -> Good (with_next rt g).
Proof. unfold Good. by intros. Qed.

(** The session of a good runtime can be bound to another id. *)
Lemma rebind_good rt s : Good rt -> Good (with_active rt s (rt_snapshot rt) (pending_publish rt)).
Proof. done. Qed.

Lemma in_step_new_empty rt :
  in_step rt snapshot_new -> plan_is_empty (plan_view rt) && todos_is_empty (todo_view rt) = true.
Proof. intros [-> ->]. done. Qed.

Lemma graph_for_update_good rt s :
  Good rt -> exists rt' g, graph_for_update rt s = (rt', Ok g) /\ Good rt' /\ rt_snapshot rt' = Some g
    /\ plan_view rt' = plan_view rt /\ todo_view rt' = todo_view rt /\ pending_publish rt' = pending_publish rt
    /\ g = default snapshot_new (rt_snapshot rt).
Proof.
  intros HG. unfold graph_for_update. cbn [rt_snapshot with_active].
  destruct (rt_snapshot rt) as [g|] eqn:E.
  - destruct (good_some _ _ HG E) as ([Hv Hx] & Hn & Hs). rewrite (proj2 (validate_ok g) Hv).
    eexists _, g. split; [done|]. by split_and!.
  - unfold Good in HG. rewrite E in HG. destruct HG as [Hp Hs].
    change (plan_view (with_active rt (Some s) None (pending_publish rt))) with (plan_view rt).
    change (todo_view (with_active rt (Some s) None (pending_publish rt))) with (todo_view rt).
    rewrite in_step_new_empty by done. eexists _, snapshot_new. split; [done|]. split; [|done].
    unfold Good. cbn. split; [apply snapshot_new_exact|]. split; [apply snapshot_new_normal|done].
Qed.

Lemma locked_graph_good {A} lk rt s (k : WorkRuntime -> WorkGraphSnapshot -> WorkRuntime * result A runtime_error) :
  Good rt -> (forall rt' g, Good rt' -> rt_snapshot rt' = Some g -> Good (k rt' g).1) ->
  Good (locked_graph lk rt s k).1.
Proof.
  intros HG Hk. unfold locked_graph. destruct (todos_free lk); [|done]. destruct (plan_free lk); [|done]. cbn [negb].
  destruct (graph_for_update_good rt s HG) as (rt' & g & -> & HG' & Hs & _). cbn [lift]. by apply Hk.
Qed.

(** Edits aside from the plan keep a graph exact and normal once it validates. *)
Lemma aside_good g g' : exact g -> normal g -> edits aside g g' -> Valid g' -> exact g' /\ normal g'.
Proof.
  intros [Hv Hx] Hn He Hv'. split; [by eapply edits_valid_exact|].
  eapply normal_same_views; [|exact Hn]. apply frame_views; [apply (valid_projection _ Hv)|].
  eapply edits_frame; [exact He|apply (valid_v3 _ Hv)].
Qed.

Lemma activate_good {A} rt g m (a : A) :
  Good rt -> rt_snapshot rt = Some g -> (forall g' n, m = Ok (g', n) -> edits aside g g') ->
  Good (activate rt m a).1.
Proof.
  intros HG Hs Hm. destruct (good_some _ _ HG Hs) as (Hx & Hn & _). unfold activate.
  destruct m as [[g' n]|]; [|done]. cbn [lift fst].
  destruct (validate_combined _ _ _) as [u|] eqn:E; [|done]. cbn [lift fst].
  apply validate_combined_self in E as [Hv _].
  destruct (aside_good g g' Hx Hn (Hm _ _ eq_refl) Hv). by apply with_next_good.
Qed.

Lemma aside_adds g n : aside g (AddNode n).
Proof. exact I. Qed.
Lemma aside_links g e : aside g (AddEdge e).
Proof. exact I. Qed.

(** One accepted change of an exact graph, away from the end of the counter. *)
Lemma apply_exact g c ctx g' r :
  seen g ctx = None -> apply g c ctx = Ok (g', r) -> history_exact g -> (revision g + 1 < u64_modulus)%N ->
  exact g' /\ revision g' = (revision g + 1)%N.
Proof.
  intros Hs Ha Hx Hr. destruct (apply_unkeyed _ _ _ _ _ Hs Ha) as (cand & Hc & Hv & E). injection E as -> _.
  pose proof (apply_pure_books _ _ _ _ Hc) as Hb.
  pose proof (commit_history g cand c ctx (proj1 Hx) Hr Hb) as Hh.
  pose proof (commit_exact g cand c ctx Hx Hb (history_current_sound _ Hh)) as Hx'.
  split; [split; [|done]|by cbn; apply u64_succ].
  eapply (valid_same_content cand); [done|by apply history_current_sound|done].
Qed.

Lemma observation_exact clock s ext obs g n next n' :
  apply_observation_to_snapshot clock s ext obs g n = Ok (Some next, n') -> history_exact g ->
  (revision g + 1 < u64_modulus)%N -> exact next /\ revision next = (revision g + 1)%N.
Proof.
  unfold apply_observation_to_snapshot. intros Hc Hx Hr. m_steps.
  destruct (observation_freshness _ _ _); m_steps; [done|].
  destruct (apply _ _ _) as [[g1 rc]|] eqn:E; m_steps.
  match goal with H1 : (if no_op rc then None else Some g1) = Some next |- _ =>
    destruct (no_op rc) eqn:Eno; [done|]; injection H1 as <- end.
  apply apply_cases in E as Ec. destruct Ec as [(key & _ & _ & ->)|(Hs & _)]; [done|].
  by eapply apply_exact.
Qed.

Lemma reconcile_all_exact clock s stores t l k g n r n' :
  reconcile_all clock s stores t l k g n = Ok (r, n') -> exact g ->
  (revision g + N.of_nat (length l) < u64_modulus)%N -> exact r.1.
Proof.
  revert k g n. induction l as [|ext l IH]; intros k g n Hc Hx Hr; cbn [reconcile_all length] in Hc, Hr; m_steps; [done|].
  destruct (owner_observation stores t ext); [|eapply IH; eauto; lia]. m_steps.
  match goal with H1 : apply_observation_to_snapshot _ _ _ _ _ _ = Ok (?o, _) |- _ => destruct o as [next|] end;
    [|eapply IH; eauto; lia].
  match goal with H1 : apply_observation_to_snapshot _ _ _ _ _ _ = _ |- _ =>
    apply observation_exact in H1 as [Hx' Er]; [|apply Hx|lia] end.
  eapply IH; eauto. lia.
Qed.

Lemma candidates_length g : length (workspace_candidates g) <= length (nodes g).
Proof.
  unfold workspace_candidates, durable_externals. etrans; [apply List.filter_length_le|]. rewrite length_fmap.
  etrans; [apply List.filter_length_le|]. etrans; [|apply (List.filter_length_le live_or_stale)].
  induction (List.filter live_or_stale (nodes g)) as [|n l IH]; cbn; [done|]. destruct (binding n); cbn; lia.
Qed.

Lemma reconcile_workspace_exact clock s stores g n r n' :
  reconcile_workspace_snapshot clock s stores g n = Ok (r, n') -> exact g -> room g -> exact r.1.
Proof.
  unfold reconcile_workspace_snapshot, room. intros Hc Hx Hr. destruct (is_nil _); m_steps; [done|].
  eapply reconcile_all_exact; eauto. pose proof (candidates_length g). lia.
Qed.

(** ** Every operation keeps the invariant *)

Lemma register_good clock lk rt s intent : Good rt -> Good (register_operation clock lk rt s intent).1.
Proof.
  intros HG. unfold register_operation. destruct (external_identity_is_well_formed _); [|done]. cbn [negb].
  apply locked_graph_good; [done|]. intros rt' g HG' Hs.
  destruct (List.find _ _); [by case_bool_decide|]. eapply activate_good; [done|exact Hs|]. intros g' n Hm.
  eapply register_graph_edits; [apply aside_adds|apply aside_links|exact Hm|].
  intros g1 nd patch Hn Hk. cbn [aside]. intros m Hm'. assert (m = nd) as -> by congruence. by rewrite Hk.
Qed.

Lemma approve_good clock lk rt s ext ref source call :
  Good rt -> Good (record_operation_approval clock lk rt s ext ref source call).1.
Proof.
  intros HG. unfold record_operation_approval. apply locked_graph_good; [done|]. intros rt' g HG' Hs.
  destruct (List.find _ _); [|done]. eapply activate_good; [done|exact Hs|]. intros g' n Hm.
  eapply approval_graph_edits; [apply aside_adds|apply aside_links|exact Hm].
Qed.

Lemma effort_good clock lk rt s req eff kind prov endpoint mdl :
  Good rt -> Good (record_reasoning_effort_change clock lk rt s req eff kind prov endpoint mdl).1.
Proof.
  intros HG. unfold record_reasoning_effort_change. apply locked_graph_good; [done|]. intros rt' g HG' Hs.
  eapply activate_good; [done|exact Hs|]. intros g' n. destruct (try_apply _ _ _) as [g1|] eqn:E; [|done].
  intros [= <- <-]. apply try_apply_ok in E as [r E]. eapply (edits_one aside); [| |exact E]; [exact I|done].
Qed.

Lemma observe_good clock rt s ext obs :
  Good rt -> (forall g, rt_snapshot rt = Some g -> room g) -> Good (reconcile_observation clock rt s ext obs).1.
Proof.
  intros HG Hroom. unfold reconcile_observation. destruct (match rt_session rt with Some _ => _ | None => _ end); [done|].
  destruct (rt_snapshot rt) as [g|] eqn:E; [|done].
  destruct (apply_observation_to_snapshot _ _ _ _ _ _) as [[[next|] n]|] eqn:Ea; cbn [lift fst]; try done.
  destruct (good_some _ _ HG E) as ([Hv Hx] & Hn & _). specialize (Hroom g eq_refl). unfold room in Hroom.
  destruct (observation_exact _ _ _ _ _ _ _ _ Ea Hx ltac:(lia)) as [Hx' _].
  apply (observation_step _ _ aside_covers_reports) in Ea as He.
  apply with_next_good; [done|]. by eapply (aside_good g); [split| |exact He|apply Hx'].
Qed.

Lemma reconcile_good clock rt s stores :
  Good rt -> (forall g, rt_snapshot rt = Some g -> room g) ->
  Good (reconcile_workspace_owner_bindings clock id rt s stores).1.
Proof.
  intros HG Hroom. unfold reconcile_workspace_owner_bindings, id. case_bool_decide; [|done]. cbn [negb].
  destruct (rt_snapshot rt) as [g|] eqn:E; [|done].
  destruct (reconcile_workspace_snapshot _ _ _ _ _) as [[[next k] n]|] eqn:Er; [|done]. cbn [lift fst snd].
  destruct (_ =? _)%N; [done|]. destruct (_ || _); [done|].
  destruct (good_some _ _ HG E) as (Hx & Hn & _).
  pose proof (reconcile_workspace_exact _ _ _ _ _ _ _ Er Hx (Hroom g eq_refl)) as Hx'.
  apply (reconcile_workspace_edits _ _ aside_covers_reports) in Er. apply with_next_good; [done|].
  by eapply (aside_good g); [| |exact Er|apply Hx'].
Qed.

Lemma publishable_next_good rt g g' instant r :
  exact g -> edits keeps g g' -> publishable_states instant g' = Ok r -> Good (with_next rt g').
Proof.
  intros Hx He (Hv & Hn & _)%publishable_ok. apply with_next_good; [|done]. by eapply edits_valid_exact.
Qed.

Lemma plan_good clock instant rt s tool p : Good rt -> Good (apply_plan_update clock instant rt s tool p).1.
Proof.
  intros HG. apply locked_graph_good; [done|]. intros rt' g HG' Hs. destruct (good_some _ _ HG' Hs) as (Hx & _).
  destruct (update_plan_graph _ _ _ _ _ _) as [[g' n]|] eqn:E; [|done]. cbn [lift fst].
  destruct (publishable_states instant g') eqn:Ep; [|done]. eapply publishable_next_good; eauto using update_plan_edits.
Qed.

Lemma todo_good clock instant rt s tool t : Good rt -> Good (apply_todo_update clock instant rt s tool t).1.
Proof.
  intros HG. apply locked_graph_good; [done|]. intros rt' g HG' Hs. destruct (good_some _ _ HG' Hs) as (Hx & _).
  destruct (update_todo_graph _ _ _ _ _ _) as [[g' n]|] eqn:E; [|done]. cbn [lift fst].
  destruct (publishable_states instant g') eqn:Ep; [|done]. eapply publishable_next_good; eauto using update_todo_edits.
Qed.

(** The legacy states built from a normal graph show its projections. *)
Lemma published_in_step instant g l rt s :
  normal g -> todo_from_snapshot (project_todos g) = Ok l ->
  in_step {| rt_todos := l; rt_plan := plan_from_snapshot instant (project_plan g); rt_session := s;
             rt_snapshot := Some g; pending_publish := rt |} g.
Proof.
  intros [Hp _] Hl. split; cbn; [by apply plan_from_snapshot_normal|by apply todo_snapshot_projected].
Qed.

(** Publication succeeds whenever the locks are free. *)
Lemma publish_succeeds instant rt :
  Good rt -> exists rt', publish_pending instant rt = (rt', Ok (pending_publish rt)) /\ Good rt'
    /\ pending_publish rt' = false /\ rt_snapshot rt' = rt_snapshot rt.
Proof.
  intros HG. unfold publish_pending, publish_pending_sync. cbn [all_free todos_free plan_free negb].
  destruct (pending_publish rt) eqn:Ep; cbn [negb]; [|by exists rt].
  destruct (rt_snapshot rt) as [g|] eqn:E.
  - destruct (good_some _ _ HG E) as ([Hv Hx] & Hn & _). pose proof Hn as [_ [l Hl]].
    rewrite (proj2 (publishable_ok instant g (plan_from_snapshot instant (project_plan g), l))) by done.
    cbn [lift]. eexists. split; [done|]. split; [|done]. unfold Good. cbn. split; [done|]. split; [done|].
    intros _. by eapply published_in_step.
  - unfold Good in HG. rewrite E in HG. destruct HG. congruence.
Qed.

Lemma publish_good lk instant rt : Good rt -> Good (publish_pending_sync lk instant rt).1.
Proof.
  intros HG. destruct (publish_succeeds instant rt HG) as (rt' & E & HG' & _).
  unfold publish_pending, publish_pending_sync in *. destruct (todos_free lk), (plan_free lk); cbn in *; try done.
  by rewrite E.
Qed.

(** A capture with free locks succeeds and returns the active graph. *)
Lemma capture_succeeds rt s :
  Good rt -> exists rt' r, capture all_free rt s = (rt', Ok r) /\ Good rt'
    /\ match r with
       | None => snapshot_is_empty (default snapshot_new (rt_snapshot rt)) = true
       | Some w => wr_graph w = default snapshot_new (rt_snapshot rt) /\ rt_snapshot rt' = Some (wr_graph w)
           /\ wr_plan w = project_plan (wr_graph w) /\ wr_todos w = project_todos (wr_graph w)
           /\ exact (wr_graph w) /\ normal (wr_graph w)
       end.
Proof.
  intros HG. unfold capture. cbn [all_free todos_free plan_free negb].
  destruct (_ && _ && _) eqn:Ee.
  { exists rt, None. split; [done|]. split; [done|]. apply andb_true_iff in Ee as [_ Ee]. by destruct (rt_snapshot rt). }
  destruct (graph_for_update_good rt (resolved_session_id rt s) HG) as (rt' & g & -> & HG' & Hs & Hp & Ht & Hpp & Hg).
  destruct (good_some _ _ HG' Hs) as ([Hv Hx] & Hn & Hstep). cbn [lift].
  rewrite (proj2 (validate_combined_ok g _ _)); [|pose proof Hn as [_ ?]; by split_and!]. cbn [lift].
  destruct (bool_decide (is_Some (rt_snapshot rt)) && negb (pending_publish rt)) eqn:Ec; cbn [andb].
  - apply andb_true_iff in Ec as [Eg Ep]. apply negb_true_iff in Ep.
    destruct (Hstep ltac:(congruence)) as [E1 E2]. rewrite (bool_decide_eq_true_2 (project_plan g = _)),
      (bool_decide_eq_true_2 (project_todos g = _)) by done. cbn [negb orb]. rewrite Eg.
    eexists _, _. split; [done|]. split; [|cbn; by split_and!]. unfold Good. cbn. by split_and!.
  - eexists _, _. split; [done|]. split; [|cbn; by split_and!]. unfold Good. cbn. split; [done|]. split; [done|].
    case_bool_decide as Eg; [|done]. intros Ep. apply Hstep. done.
Qed.

Lemma capture_good lk rt s : Good rt -> Good (capture lk rt s).1.
Proof.
  intros HG. destruct (capture_succeeds rt s HG) as (rt' & r & E & HG' & _).
  unfold capture in *. destruct (todos_free lk), (plan_free lk); cbn [negb all_free todos_free plan_free] in *; try done.
  by rewrite E.
Qed.

Lemma clear_good lk rt s : Good rt -> Good (clear lk rt s).1.
Proof.
  intros HG. unfold clear. destruct (_ || _); [done|]. unfold Good. cbn.
  split; [apply snapshot_new_exact|]. split; [apply snapshot_new_normal|done].
Qed.

(** ** Restores *)

(** The graph a restore starts from. *)
Definition restore_base (s : list N) (graph : option WorkGraphSnapshot) (t : TodoListSnapshot) (p : PlanSnapshot)
    (g0 : WorkGraphSnapshot) : Prop :=
  match graph with
  | Some g => g0 = g /\ Valid g
  | None => (todos_is_empty t && plan_is_empty p = true /\ g0 = snapshot_new)
            \/ (todos_is_empty t && plan_is_empty p = false /\ import_legacy s p t = Ok g0)
  end.

Lemma restore_candidate_ok clock s graph t p stores g pend :
  restore_candidate clock s graph t p stores = Ok (g, pend) ->
  exists g0 g1 b n n' k, restore_base s graph t p g0
    /\ mark_restored_ephemeral_operations_stale clock s g0 0 = Ok ((g1, b), n)
    /\ match stores with
       | Some st => reconcile_workspace_snapshot clock s st g1 n = Ok ((g, k), n')
       | None => g = g1
       end
    /\ Valid g /\ (is_Some graph -> project_plan g = p /\ project_todos g = t).
Proof.
  unfold restore_candidate. intros (g0 & Hz & (r & H1 & (q & H2 & H3)%bind_ok)%bind_ok)%bind_ok.
  destruct r as [[g1 b] n]. destruct q as [g2 c]. cbn [fst snd] in *.
  destruct (snapshot_is_empty g2 && _); [done|]. destruct (negb (snapshot_is_empty g2) && _ && _); [done|].
  apply bind_ok in H3 as (u & H3 & H4). apply validate_combined_self in H3 as [Hv _].
  assert (g2 = g /\ (is_Some graph -> project_plan g2 = p /\ project_todos g2 = t)) as [-> Hviews].
  { destruct (bool_decide (is_Some graph) && _) eqn:E; [done|]. injection H4 as <- _. split; [done|].
    intros Hg. rewrite bool_decide_eq_true_2 in E by done. cbn [andb] in E.
    apply orb_false_iff in E as [E1%negb_false_iff E2%negb_false_iff]. by rewrite !bool_decide_eq_true in *. }
  assert (restore_base s graph t p g0) as Hb.
  { unfold restore_base. destruct graph as [g'|].
    - destruct (validate g') as [[]|] eqn:E; [|done]. injection Hz as <-. by apply validate_ok in E.
    - destruct (todos_is_empty t && plan_is_empty p); [left; by injection Hz as <-|right].
      destruct (import_legacy s p t); [by injection Hz as <-|done]. }
  destruct stores as [st|].
  - apply bind_ok in H2 as ([[g3 k] n'] & H2 & [= -> _]). by exists g0, g1, b, n, n', k.
  - injection H2 as -> _. by exists g0, g, b, n, 0, 0%N.
Qed.

Lemma restore_edits clock s graph t p stores g pend :
  restore_candidate clock s graph t p stores = Ok (g, pend) ->
  exists g0, restore_base s graph t p g0 /\ edits aside g0 g /\ Valid g
    /\ (is_Some graph -> project_plan g = p /\ project_todos g = t).
Proof.
  intros (g0 & g1 & b & n & n' & k & Hb & Hm & Hr & Hv & Hviews)%restore_candidate_ok. exists g0.
  apply mark_restored_edits in Hm. split; [done|]. split; [|done].
  destruct stores; [|by subst]. apply (reconcile_workspace_edits _ _ aside_covers_reports) in Hr. by eapply edits_trans.
Qed.

(** What a graph inherits from the last candidate that was validated. *)
Lemma edited_content P g g' :
  edits P g g' -> projection_sound g -> bindings_on_operations g ->
  projection_sound g' /\ bindings_on_operations g'.
Proof.
  induction 1 as [|g c ctx g1 r g' _ Hs Ha _ IH]; [done|]. intros _ _.
  destruct (apply_unkeyed _ _ _ _ _ Hs Ha) as (cand & _ & Hv & E). injection E as -> _. apply IH.
  - apply (same_content_projection cand); [done|]. apply (valid_projection _ Hv).
  - apply (same_content_v3 cand); [done|]. apply (valid_v3 _ Hv).
Qed.

(** ** Imports *)

(** An imported plan step has a title that the legacy plan keeps as it is. *)
Definition titled (g : WorkGraphSnapshot) (id : WorkNodeId) : Prop :=
  exists n, node g id = Some n /\ trim (title n) = title n /\ title n <> [].

Lemma titled_kept g g' id : titles_kept g g' -> titled g id -> titled g' id.
Proof. intros [Ht _] (n & Hn & E & Hne). destruct (Ht id n Hn) as (n' & Hn' & Et). exists n'. by rewrite Et. Qed.

Lemma import_plan_titled s d o ctx g order i l r :
  ctx_key ctx = None -> import_plan s d o ctx g order i l = Ok r ->
  Forall (fun i => trim (step i) = step i /\ step i <> []) l -> Forall (titled g) order -> Forall (titled r.1) r.2.
Proof.
  intros Hk. revert g order i. induction l as [|item l IH]; intros g order i; cbn [import_plan]; [by intros [= <-]|].
  destruct (_ <=? _)%N; [|done]. intros (g1 & H1 & (g2 & H2 & H3)%bind_ok)%bind_ok [[Ht Hne] Hl]%Forall_cons Ho.
  set (n := import_node _ _ _ _ _ _) in H1.
  assert (node g1 (node_id n) = Some n) as Hn.
  { unfold import_apply in H1. destruct (try_apply g _ _) as [g1'|] eqn:E1; [|done]. injection H1 as ->.
    apply try_apply_ok in E1 as [r1 E1]. destruct (apply_unkeyed _ _ _ _ _ ltac:(unfold seen; by rewrite Hk) E1) as (cand & Hc & Hv & E).
    injection E as -> _. pose proof (sound_node_ids _ (valid_structure _ Hv)) as Hnd. apply add_node_ok in Hc as [_ ->].
    refine (node_of_elem _ n Hnd _). cbn. apply elem_of_app. right. by apply list_elem_of_singleton. }
  apply import_apply_edits, import_edits_titles in H1; [|done|by cbn; destruct (step_status item)].
  apply import_apply_edits, import_edits_titles in H2; [|done..].
  eapply IH; [exact H3|done|]. apply Forall_app. split.
  - eapply Forall_impl; [exact Ho|]. intros x Hx. by eapply titled_kept; [exact H2|eapply titled_kept].
  - constructor; [|constructor]. eapply titled_kept; [exact H2|]. exists n. split; [exact Hn|]. cbn. by rewrite !Ht.
Qed.

Lemma import_todos_ids s d o ctx order g bs l r :
  import_todos s d o ctx order g bs l = Ok r -> legacy_id <$> r.2 = (legacy_id <$> bs) ++ (todo_id <$> l).
Proof.
  revert g bs. induction l as [|item l IH]; intros g bs; cbn [import_todos].
  { intros [= <-]. cbn. by rewrite (right_id_L [] (++)). }
  intros (q & H1 & ->%IH)%bind_ok. rewrite fmap_app, <-(assoc_L (++)). f_equal. cbn. f_equal. f_equal.
  unfold import_todo in H1. destruct (strip_plan_provenance _) as [t mi]. destruct (mi ≫= _) as [[i id]|].
  - destruct (node g id); [|done]. by apply bind_ok in H1 as (g1 & _ & [= <-]).
  - by apply bind_ok in H1 as (g1 & _ & (g2 & _ & (g3 & _ & [= <-])%bind_ok)%bind_ok).
Qed.

(** The rows of the To-do view, for a sound projection. *)
Lemma todo_rows_ids g : projection_sound g -> todo_id <$> items (project_todos g) = legacy_id <$> todos (compat g).
Proof.
  intros [_ _ _ Hr _]. cbn. revert Hr. generalize (todos (compat g)). induction l as [|b l IH]; intros Hr; [done|].
  destruct (Hr b ltac:(left)) as (_ & (n & Hn & _) & _). unfold project_todo in *. cbn [omap list_omap]. rewrite Hn.
  cbn. f_equal. apply IH. intros c Hc. apply Hr. by right.
Qed.

Lemma rows_in_progress g l :
  no_starts g -> todos_in_progress (omap (project_todo g) l) = active_rows g l.
Proof.
  intros Hns. unfold active_rows. induction l as [|b l IH]; [done|]. rewrite filter_cons. cbn [omap list_omap].
  unfold project_todo at 1. destruct (node g (todo_node b)) as [n|] eqn:En; cbn [fmap option_fmap option_map].
  - rewrite todos_in_progress_cons, IH. cbn [status]. assert (state n <> Initializing) as Hs
      by (apply Hns; by apply node_some in En as [? _]).
    unfold todo_status. case_decide as Ed; case_bool_decide as Eb; destruct (state n); (done || lia).
  - rewrite decide_False by done. exact IH.
Qed.

(** An imported graph can be published when its plan has at most one step in progress. *)
Lemma import_normal s p t g : import_legacy s p t = Ok g -> one_step g -> normal g.
Proof.
  intros Hi Hone. pose proof (import_legacy_changes _ _ _ _ Hi) as Hch.
  destruct (edited_content _ _ _ Hch (valid_projection _ snapshot_new_valid) (valid_v3 _ snapshot_new_valid)) as [Hps _].
  pose proof (proj2 (import_edits_titles _ _ Hch) no_starts_new) as Hns.
  destruct (import_legacy_stages _ _ _ _ Hi) as (l & d & o & g1 & r & q & Hl & H1 & H2 & H3 & Hn & Hc & H4).
  pose proof (plan_from_snapshot_is_normal 0 p) as [Hm [Hst _]].
  assert (Forall (titled r.1) r.2) as Ht by (eapply import_plan_titled; [|exact H2|exact Hst|constructor]; done).
  apply import_plan_edits in H2 as H2e; [|done]. pose proof H3 as H3e.
  apply import_todos_edits in H3e; [|done|apply (import_edits_titles _ _ (edits_trans _ _ _ _ H1 H2e)), no_starts_new].
  assert (Forall (titled g) r.2) as Htg.
  { eapply Forall_impl; [exact Ht|]. intros id Hid. eapply titled_kept; [|exact Hid].
    apply import_edits_titles. by eapply edits_trans. }
  split.
  - split; [|split; [|exact Hone]].
    + cbn. rewrite Hc. exact Hm.
    + cbn. rewrite Hc. cbn [plan_order]. clear -Htg. induction Htg as [|id ids (n & Hn & E & Hne) _ IH]; [constructor|].
      cbn [omap list_omap]. rewrite Hn. cbn. by constructor.
  - apply todo_from_snapshot_ok. rewrite todo_rows_ids by done. split; [apply (todo_ids _ Hps)|]. split.
    + apply (Forall_fmap todo_id (fun i => 0 < i < u32_max)%N). rewrite todo_rows_ids by done. rewrite Hc. cbn [todos].
      rewrite (import_todos_ids _ _ _ _ _ _ _ _ _ H3). cbn. rewrite (todo_from_snapshot_items _ _ Hl).
      apply Forall_fmap. by destruct (proj1 (todo_from_snapshot_ok t) (ex_intro _ l Hl)) as (_ & Hr & _).
    + cbn [project_todos items]. rewrite rows_in_progress by done. apply (todo_one_active _ Hps).
Qed.

Lemma any_edits P g g' : edits P g g' -> edits (fun _ _ => True) g g'.
Proof. by apply edits_impl. Qed.

Lemma restored_good clock s graph t p stores g pend :
  restore_candidate clock s graph t p stores = Ok (g, pend) ->
  match graph with
  | Some g0 => exact g0 /\ normal g0
  | None => forall g0, import_legacy s p t = Ok g0 -> one_step g0
  end -> exact g /\ normal g.
Proof.
  intros (g0 & Hb & He & Hv & _)%restore_edits Hok.
  assert (normal g0 /\ projection_sound g0 /\ bindings_on_operations g0
    /\ exists g1, exact g1 /\ edits (fun _ _ => True) g1 g0) as (Hn & Hps & Hbo & g1 & Hx & He1).
  { unfold restore_base in Hb. destruct graph as [g2|].
    - destruct Hb as [-> Hv0], Hok as [Hx Hn]. split; [done|].
      split; [apply (valid_projection _ Hv0)|]. split; [apply (valid_v3 _ Hv0)|]. exists g2. split; [done|constructor].
    - destruct Hb as [[_ ->]|[_ Hi]].
      + split; [apply snapshot_new_normal|]. split; [apply (valid_projection _ snapshot_new_valid)|].
        split; [apply (valid_v3 _ snapshot_new_valid)|]. exists snapshot_new. split; [apply snapshot_new_exact|constructor].
      + split; [by eapply import_normal; [|apply Hok]|]. pose proof (import_legacy_edits _ _ _ _ Hi) as Hie.
        destruct (edited_content _ _ _ Hie (valid_projection _ snapshot_new_valid) (valid_v3 _ snapshot_new_valid)).
        split; [done|]. split; [done|]. exists snapshot_new. split; [apply snapshot_new_exact|by eapply any_edits]. }
  split.
  - eapply edits_valid_exact; [|exact Hx|done]. eapply edits_trans; [exact He1|by eapply any_edits].
  - eapply normal_same_views; [|exact Hn]. apply frame_views; [done|]. by eapply edits_frame.
Qed.

(** What a save returned is exact and normal, whatever locks were free. *)
Lemma captured lk rt s rt' w :
  Good rt -> capture lk rt s = (rt', Ok (Some w)) ->
  wr_plan w = project_plan (wr_graph w) /\ wr_todos w = project_todos (wr_graph w)
  /\ exact (wr_graph w) /\ normal (wr_graph w).
Proof.
  intros HG Hc. destruct (capture_succeeds rt s HG) as (rt2 & r2 & E & _ & Hw).
  assert (capture all_free rt s = (rt', Ok (Some w))) as Hc'.
  { unfold capture in *. by destruct (todos_free lk), (plan_free lk). }
  rewrite Hc' in E. injection E as <- <-. by destruct Hw as (_ & _ & ?).
Qed.

Lemma restore_good clock instant lk rt s graph t p stores :
  Good rt ->
  match graph with
  | Some g0 => exact g0 /\ normal g0
  | None => forall g0, import_legacy s p t = Ok g0 -> one_step g0
  end -> Good (restore_internal clock instant lk rt s graph t p stores).1.
Proof.
  intros HG Hok. unfold restore_internal.
  destruct (restore_candidate _ _ _ _ _ _) as [[g pend]|] eqn:E; [|done]. cbn [lift].
  destruct (todo_from_snapshot (project_todos g)) as [l|] eqn:El; [|done].
  destruct (todos_free lk); [|done]. destruct (plan_free lk); [|done]. cbn [negb fst].
  destruct (restored_good _ _ _ _ _ _ _ _ E Hok) as [Hx Hn].
  unfold Good. cbn. split; [done|]. split; [done|]. intros _. by eapply published_in_step.
Qed.

Lemma exec_good rt o : Good rt -> op_ok rt o -> Good (exec_op rt o).
Proof.
  intros HG Hok. destruct o; cbn [exec_op op_ok] in *; eauto using register_good, approve_good, observe_good,
    effort_good, plan_good, todo_good, publish_good, capture_good, reconcile_good, clear_good.
  apply restore_good; [done|]. by destruct graph.
Qed.

Lemma session_good rt : session rt -> Good rt.
Proof.
  induction 1 as [|rt o _ IH Ho|rt clock instant lk s t p stores saver lk0 s0 saver' w _ IH _ IHs Hc]; [done|by apply exec_good|].
  apply restore_good; [done|]. by destruct (captured _ _ _ _ _ IHs Hc) as (_ & _ & ?).
Qed.

End Session.

End WgSession.
