(* ===== verification/WgRestore.v ===== *)
(** * Sessions over time

    What one operation of the runtime does to the graph that was active before it, and
    what a restore leaves of the operations a graph was saved with. *)

From stdpp Require Import base list option gmap strings sorting.
From Stdlib Require Import Lia NArith ZArith.
From S2P Require Import Prelude RustStr Providers WgModel WgValidate WgSearch WgSpec WgReducer.
From S2P Require Import WgFacts WgProjection WgLegacy WgImport WgRuntime WgRuntimeFacts.
From S2P Require Import WgSession.

(** * Marking operations stale

    An operation whose owner is gone can always be marked stale: the change breaks no
    invariant. So the restore of a saved session never fails on the operations that
    ended with the old process, and leaves none of them live. *)

Module WgStale.
Import WgModel WgValidate WgSearch WgSpec WgReducer WgFacts WgProjection WgLegacy WgImport WgRuntime.
Import WgEdits WgRuntimeFacts WgSession.

(** ** Updating one node *)

Lemma elem_of_update_first id f l m :
  NoDup (node_id <$> l) -> m ∈ update_first id f l ->
  (m ∈ l /\ node_id m <> id) \/ exists n, n ∈ l /\ node_id n = id /\ m = f n.
Proof.
  induction l as [|x l IH]; cbn [update_first]; [by intros _ ?%not_elem_of_nil|].
  rewrite fmap_cons, NoDup_cons. intros [Hx Hl]. destruct (str_eqb (node_id x) id) eqn:E.
  - apply str_eqb_spec in E as <-. intros [->|Hm]%elem_of_cons.
    + right. exists x. split; [left|done].
    + left. split; [by right|]. intros E. apply Hx. rewrite <-E. by apply list_elem_of_fmap_2.
  - intros [->|Hm]%elem_of_cons.
    + left. split; [left|]. intros Ex. apply str_eqb_spec in Ex. congruence.
    + destruct (IH Hl Hm) as [[? ?]|(n & ? & ? & ?)]; [left|right; exists n]; split_and!; try done; by right.
Qed.

Lemma update_first_fmap {B} (h : WorkNode -> B) id f l :
  (forall n, n ∈ l -> node_id n = id -> h (f n) = h n) -> h <$> update_first id f l = h <$> l.
Proof.
  induction l as [|x l IH]; [done|]. intros Hh. cbn [update_first]. destruct (str_eqb (node_id x) id) eqn:E; cbn.
  - apply str_eqb_spec in E. f_equal. apply Hh; [left|done].
  - f_equal. apply IH. intros n Hn. apply Hh. by right.
Qed.

Lemma omap_as_fmap {A B} (f : A -> option B) (l : list A) : omap f l = omap (fun x => x) (f <$> l).
Proof. induction l as [|x l IH]; [done|]. cbn. destruct (f x); by rewrite IH. Qed.

Section Stale.
Context (g : WorkGraphSnapshot) (id : WorkNodeId) (n : WorkNode) (b : OperationBinding) (checked_at stamp : Ts).
Hypothesis (Hv : Valid g) (Hn : node g id = Some n) (Hb : binding n = Some b) (Hlive : is_live (state n) = true).

Local Abbreviation f := (reconciled (OwnerMissing checked_at) b stamp).
Local Abbreviation g' := (update_node g id f).

Lemma stale_is_operation : node_kind n = Operation.
Proof. apply node_some in Hn as [Hin _]. apply (valid_v3 _ Hv n Hin). by rewrite Hb. Qed.

Lemma stale_state : state (f n) = Stale.
Proof. cbn. by destruct (state n). Qed.

Lemma node_after i : i <> id -> node g' i = node g i.
Proof. intros Hi. by apply node_update_ne. Qed.

Lemma node_marked : node g' id = Some (f n).
Proof. by apply node_update_eq. Qed.

Lemma nodes_after m : m ∈ nodes g' -> (m ∈ nodes g /\ node_id m <> id) \/ m = f n.
Proof.
  intros Hm. destruct (elem_of_update_first _ _ _ _ (sound_node_ids _ (valid_structure _ Hv)) Hm) as [?|(k & Hk & Ek & ->)];
    [by left|right]. rewrite <-Ek in Hn. rewrite (node_of_elem _ _ (sound_node_ids _ (valid_structure _ Hv)) Hk) in Hn.
  by injection Hn as ->.
Qed.

(** A node that is not the marked one is found as before; the marked one keeps its
    kind. *)
Lemma stale_node_kept i m : node g i = Some m -> exists m', node g' i = Some m' /\ node_kind m' = node_kind m
  /\ node_id m' = node_id m /\ (m' = m \/ i = id).
Proof.
  intros Hm. destruct (decide (i = id)) as [->|Hne].
  - exists (f n). rewrite node_marked. assert (m = n) as -> by congruence. by auto.
  - exists m. rewrite node_after by done. by auto.
Qed.

Lemma not_operation_kept i m : node g i = Some m -> node_kind m <> Operation -> node g' i = Some m.
Proof.
  intros Hm Hk. rewrite node_after; [done|]. intros ->. apply Hk. assert (m = n) as -> by congruence.
  apply stale_is_operation.
Qed.

Lemma stale_frame : frame g g'.
Proof. apply frame_update; [done|]. intros m Hm. assert (m = n) as -> by congruence. by rewrite stale_is_operation. Qed.

Lemma stale_root a : has_root g a -> has_root g' a.
Proof.
  assert (forall a p, contained_in g a p -> exists p', contained_in g' a p' /\ node_kind p' = node_kind p
    /\ node_id p' = node_id p) as Hc.
  { intros x p (e & He & Hk & Ht & Hp). destruct (stale_node_kept _ _ Hp) as (p' & Hp' & ? & ? & _).
    exists p'. split; [by exists e|done]. }
  induction 1 as [x p Hp Hk|x p Hp _ IH]; destruct (Hc _ _ Hp) as (p' & Hp' & Ek & Ei).
  - eapply has_root_here; [exact Hp'|by rewrite Ek].
  - eapply has_root_up; [exact Hp'|by rewrite Ei].
Qed.

Lemma stale_structure : structurally_sound g'.
Proof.
  destruct (valid_structure _ Hv) as [S1 S2 S3 S4 S5].
  assert (node_id <$> nodes g' = node_id <$> nodes g) as E by by apply update_first_fmap.
  constructor; try done.
  - by rewrite E.
  - intros m [[Hm _]| ->]%nodes_after He; [by apply S3|]. cbn in He |- *. apply node_some in Hn as [Hin _].
    by apply S3.
  - rewrite E. done.
Qed.

Lemma stale_projection : projection_sound g'.
Proof.
  destruct (valid_projection _ Hv) as [P1 P2 P3 P4 P5].
  assert (forall i, is_plan_step g i -> is_plan_step g' i /\ node g' i = node g i) as Hp.
  { intros i (m & Hm & Hk). rewrite (not_operation_kept i m Hm) by (by rewrite Hk).
    split; [|done]. exists m. split; [|done]. by apply not_operation_kept; [|rewrite Hk]. }
  constructor; try done.
  - intros i Hi. by apply Hp, P2.
  - intros x Hx. destruct (P4 x Hx) as (? & ? & ?). split_and!; try done. by apply Hp.
  - unfold active_rows in *. cbn [compat update_node with_nodes].
    enough (filter (fun b => state <$> node g' (todo_node b) = Some Active) (todos (compat g)) =
            filter (fun b => state <$> node g (todo_node b) = Some Active) (todos (compat g))) as -> by done.
    assert (forall x, x ∈ todos (compat g) -> node g' (todo_node x) = node g (todo_node x)) as Hsame
      by (intros x Hx; apply Hp; apply (P4 x Hx)).
    revert Hsame. generalize (todos (compat g)). induction l as [|x l IH]; intros Hsame; [done|].
    rewrite !filter_cons, IH by (intros c Hc; apply Hsame; by right).
    pose proof (Hsame x ltac:(left)) as E. repeat case_decide; congruence.
Qed.

Lemma stale_valid : Valid g'.
Proof.
  pose proof stale_is_operation as Hop. pose proof stale_state as Hst.
  assert (forall P : WorkNode -> Prop, P (f n) -> (forall m, m ∈ nodes g -> P m) -> forall m, m ∈ nodes g' -> P m) as Hall.
  { intros P Hf Hg m [[Hm _]| ->]%nodes_after; auto. }
  constructor.
  - apply stale_structure.
  - apply stale_projection.
  - split; [apply (valid_activities _ Hv)|]. intros a Ha. destruct (valid_activities _ Hv) as [_ Hact].
    destruct (Hact a Ha) as [A1 A2 A3 A4]. constructor; try done. intros o Ho.
    destruct (A4 o Ho) as (m & Hm & Hk). destruct (stale_node_kept _ _ Hm) as (m' & ? & ? & _). exists m'. split; [done|congruence].
  - apply (valid_v1 _ Hv).
  - refine (Hall (fun m => node_kind m = Operation -> is_live (state m) = true -> has_root g' (node_id m)) _ _);
      [by rewrite Hst|]. intros m Hm ? ?. by apply stale_root, (valid_v2 _ Hv).
  - refine (Hall (fun m => binding m <> None -> node_kind m = Operation) _ _); [done|apply (valid_v3 _ Hv)].
  - refine (Hall (fun m => state m = Verified -> acceptance m <> []
      /\ forall r, r ∈ acceptance m -> supported g' (node_id m) r) _ _); [by rewrite Hst|].
    intros m Hm Hs. destruct (valid_v4 _ Hv m Hm Hs) as [Hne Hr]. split; [done|].
    intros r Hin. destruct (Hr r Hin) as (e & ev & pl & ? & ? & ? & He & Hk & ? & ?).
    exists e, ev, pl. split_and!; try done. by apply not_operation_kept; [|rewrite Hk].
  - refine (Hall (fun m => state m = Blocked -> exists e, e ∈ edges g' /\
      ((edge_kind e = Blocks /\ to e = node_id m)
       \/ (edge_kind e ∈ [DependsOn; RequiresApproval] /\ from e = node_id m
           /\ pending_node g' (to e)))) _ _); [by rewrite Hst|].
    intros m Hm Hs. destruct (valid_v5 _ Hv m Hm Hs) as (e & Hin & [?|(? & ? & k & Hk & Hd)]);
      exists e; (split; [done|]); [by left|right]. split_and!; try done.
    destruct (stale_node_kept _ _ Hk) as (k' & Hk' & _ & _ & [->|Ei]); [by exists k|].
    exists (f n). split; [by rewrite Ei, node_marked|]. unfold node_is_done. by rewrite Hst.
  - pose proof (valid_v6 _ Hv) as H6. unfold bindings_identified, externals in *.
    rewrite omap_as_fmap in *. cbn [nodes update_node with_nodes]. rewrite update_first_fmap; [done|].
    intros m Hm E. cbn. rewrite <-E in Hn. rewrite (node_of_elem _ _ (sound_node_ids _ (valid_structure _ Hv)) Hm) in Hn.
    injection Hn as ->. by rewrite Hb.
  - refine (Hall (fun m => node_kind m ∈ [RuntimeRef; LaneRef] -> state m = Ready) _ _);
      [cbn; rewrite Hop; set_solver|apply (valid_v7 _ Hv)].
  - apply (valid_v8 _ Hv).
Qed.

End Stale.

Section Marking.
Context `{Digest} `{LegacyCodec} (clock : nat -> Ts).

(** A live bound operation. *)
Definition live_bound (g : WorkGraphSnapshot) (id : WorkNodeId) : Prop :=
  exists n b, node g id = Some n /\ binding n = Some b /\ is_live (state n) = true.

(** An operation that ended with its process: stale since some time, and otherwise the
    same. *)
Definition died (m m' : WorkNode) : Prop := exists at_, m' = set_state m Stale (binding m) at_.

(** [g'] is [g] with the nodes of [ids] stale, one revision and one receipt for each of
    them, and nothing else changed. *)
Record marked (ids : list WorkNodeId) (g g' : WorkGraphSnapshot) : Prop := {
  marked_nodes : Forall2 (fun m m' => if bool_decide (node_id m ∈ ids) then died m m' else m' = m) (nodes g) (nodes g');
  marked_revision : revision g' = (revision g + N.of_nat (length ids))%N;
  marked_history : exists receipts, length receipts = length ids
    /\ history g' = fold_left (push_bounded HISTORY_CAP) receipts (history g);
  marked_schema : schema g' = schema g;
  marked_edges : edges g' = edges g;
  marked_activities : activities g' = activities g;
  marked_import : import_digest g' = import_digest g;
  marked_keys : seen_keys g' = seen_keys g;
  marked_proposals : proposals g' = proposals g;
  marked_compat : compat g' = compat g
}.

Lemma marked_refl g : marked [] g g.
Proof.
  split; try done.
  - apply Forall2_same_length_lookup. split; [done|]. intros i x y Hx Hy. rewrite bool_decide_eq_false_2 by apply not_elem_of_nil.
    congruence.
  - cbn. lia.
  - by exists [].
Qed.

(** The nodes that died one after the other. *)
Lemma died_one_more id ids l k j :
  id ∉ ids ->
  Forall2 (fun m m' => if bool_decide (node_id m ∈ [id]) then died m m' else m' = m) l k ->
  Forall2 (fun m m' => if bool_decide (node_id m ∈ ids) then died m m' else m' = m) k j ->
  Forall2 (fun m m' => if bool_decide (node_id m ∈ id :: ids) then died m m' else m' = m) l j.
Proof.
  intros Hid H1. revert j. induction H1 as [|x y l k Hxy _ IH]; intros j H2; inversion_clear H2 as [|? z ? j' Hyz Hrest]; constructor; [|auto].
  clear IH Hrest. destruct (decide (node_id x = id)) as [E|E].
  - rewrite bool_decide_eq_true_2 in Hxy by set_solver. rewrite bool_decide_eq_true_2 by set_solver.
    destruct Hxy as [at_ ->]. rewrite bool_decide_eq_false_2 in Hyz by (cbn; congruence). exists at_. congruence.
  - rewrite bool_decide_eq_false_2 in Hxy by set_solver. subst y.
    case_bool_decide; [rewrite bool_decide_eq_true_2 by set_solver|rewrite bool_decide_eq_false_2 by set_solver]; done.
Qed.

Lemma marked_one_more id ids g g1 g' : id ∉ ids -> marked [id] g g1 -> marked ids g1 g' -> marked (id :: ids) g g'.
Proof.
  intros Hid [N1 R1 (r1 & L1 & H1) ? ? ? ? ? ? ?] [N2 R2 (r2 & L2 & H2) ? ? ? ? ? ? ?]. split; try congruence.
  - by eapply died_one_more.
  - rewrite R2, R1. cbn [length]. lia.
  - exists (r1 ++ r2). rewrite length_app, fold_left_app, <-H1. cbn [length] in *. split; [lia|done].
Qed.

Lemma update_first_died id f l :
  NoDup (node_id <$> l) -> (forall m, m ∈ l -> node_id m = id -> died m (f m)) ->
  Forall2 (fun m m' => if bool_decide (node_id m ∈ [id]) then died m m' else m' = m) l (update_first id f l).
Proof.
  assert (forall k : list WorkNode, id ∉ node_id <$> k ->
    Forall2 (fun m m' => if bool_decide (node_id m ∈ [id]) then died m m' else m' = m) k k) as Hsame.
  { induction k as [|y k IHk]; intros Hy; constructor.
    - rewrite bool_decide_eq_false_2; [done|]. intros E%list_elem_of_singleton. apply Hy. rewrite <-E. left.
    - apply IHk. intros ?. apply Hy. by right. }
  induction l as [|x l IH]; intros Hnd Hf; cbn [update_first]; [constructor|]. apply NoDup_cons in Hnd as [Hx Hl].
  destruct (str_eqb (node_id x) id) eqn:E.
  - apply str_eqb_spec in E as <-. constructor; [rewrite bool_decide_eq_true_2 by set_solver; apply Hf; [left|done]|by apply Hsame].
  - constructor; [|apply IH; [done|]; intros m Hm; apply Hf; by right].
    rewrite bool_decide_eq_false_2; [done|]. intros Ex%list_elem_of_singleton. apply str_eqb_spec in Ex. congruence.
Qed.

(** One step of the marking succeeds. *)
Lemma mark_one g id s checked_at stamp :
  exact g -> live_bound g id -> (revision g + 1 < u64_modulus)%N ->
  exists g1, try_apply g (ReconcileOperation id (OwnerMissing checked_at))
               {| session_id := s; now := stamp; ctx_key := None |} = Ok g1
    /\ exact g1 /\ frame g g1 /\ marked [id] g g1
    /\ (forall i, i <> id -> node g1 i = node g i).
Proof.
  intros [Hv Hx] (n & b & Hn & Hb & Hl) Hr. set (ctx := {| session_id := s; now := stamp; ctx_key := None |}).
  assert (apply_pure g (ReconcileOperation id (OwnerMissing checked_at)) ctx
    = Ok (update_node g id (reconciled (OwnerMissing checked_at) b stamp))) as Hp.
  { cbn [apply_pure]. apply reconcile_ok. by exists n, b. }
  pose proof (stale_valid g id n b checked_at stamp Hv Hn Hb Hl) as Hv'.
  assert (apply g (ReconcileOperation id (OwnerMissing checked_at)) ctx
    = Ok (commit g (update_node g id (reconciled (OwnerMissing checked_at) b stamp))
            (ReconcileOperation id (OwnerMissing checked_at)) ctx)) as Ha.
  { unfold apply. cbn [seen ctx_key ctx]. rewrite Hp. cbn [result_bind]. by rewrite (proj2 (validate_ok _) Hv'). }
  set (f := reconciled (OwnerMissing checked_at) b stamp) in *. pose proof (sound_node_ids _ (valid_structure _ Hv)) as Hnd.
  destruct (commit _ _ _ _) as [g1 r] eqn:Ec. exists g1.
  split; [apply try_apply_ok; by exists r|].
  destruct (apply_exact _ _ _ _ _ (eq_refl : seen g ctx = None) Ha Hx Hr) as [Hx1 Er].
  assert (nodes g1 = update_first id f (nodes g) /\ compat g1 = compat g) as [En Ecp] by (injection Ec as <- _; done).
  split; [done|]. split; [|split].
  - eapply frame_trans; [by apply (stale_frame g id n b checked_at stamp)|by apply frame_nodes].
  - split; try (injection Ec as <- _; done); [rewrite En|].
    + apply update_first_died; [done|]. intros m Hm E. exists stamp.
      assert (m = n) as -> by (rewrite <-E, (node_of_elem _ _ Hnd Hm) in Hn; congruence). unfold f, reconciled. rewrite Hb. cbn.
      by destruct (state n).
    + exists [r]. by injection Ec as <- <-.
  - intros i Hi. unfold node at 1. rewrite En. by apply node_update_ne.
Qed.

Lemma mark_stale_ok s ids g k :
  exact g -> NoDup ids -> Forall (live_bound g) ids -> (revision g + N.of_nat (length ids) < u64_modulus)%N ->
  exists g' k', mark_stale clock s ids g k = Ok (g', k') /\ exact g' /\ frame g g' /\ marked ids g g'.
Proof.
  revert g k. induction ids as [|id ids IH]; intros g k Hx Hnd Hl Hr.
  { exists g, k. split; [done|]. split; [done|]. split; [apply frame_refl|apply marked_refl]. }
  apply NoDup_cons in Hnd as [Hid Hnd]. apply Forall_cons in Hl as [Hl1 Hl2]. cbn [length] in Hr.
  destruct (mark_one g id s (clock k) (clock (S k)) Hx Hl1 ltac:(lia)) as (g1 & E & Hx1 & Hf1 & Hm1 & Hne).
  pose proof (marked_revision _ _ _ Hm1) as Er. cbn [length] in Er.
  destruct (IH g1 (S (S k)) Hx1 Hnd) as (g' & k' & E' & Hx' & Hf' & Hm').
  - rewrite Forall_forall in *. intros i Hi. destruct (Hl2 i Hi) as (n & b & Hn & ? & ?).
    exists n, b. split; [|done]. rewrite Hne; [done|]. by intros ->.
  - lia.
  - exists g', k'. split; [cbn [mark_stale]; unfold WgRuntime.bind, now_ms; cbn [result_bind fst snd]; by rewrite E|].
    split; [done|]. split; [by eapply frame_trans|]. by eapply marked_one_more.
Qed.

(** The operations that end with the process. *)
Definition dying (g : WorkGraphSnapshot) : list WorkNodeId := node_id <$> List.filter ephemeral_live (nodes g).

(** The restored graph differs from the saved one only in the operations that died: they
    are stale since the restore, each of them adds one to the revision and one receipt to
    the bounded history, and everything else is the same. *)
Definition only_deaths (g g' : WorkGraphSnapshot) : Prop :=
  marked (dying g) g g'
  /\ Forall2 (fun m m' => if ephemeral_live m then died m m' else m' = m) (nodes g) (nodes g').

Lemma marked_only_deaths g g' : NoDup (node_id <$> nodes g) -> marked (dying g) g g' -> only_deaths g g'.
Proof.
  intros Hnd Hm. split; [done|]. pose proof (marked_nodes _ _ _ Hm) as H2.
  apply Forall2_same_length_lookup in H2 as [Hlen Hlk]. apply Forall2_same_length_lookup. split; [done|].
  intros i x y Hx Hy. specialize (Hlk i x y Hx Hy). apply list_elem_of_lookup_2 in Hx.
  destruct (ephemeral_live x) eqn:Ex.
  - rewrite bool_decide_eq_true_2 in Hlk; [done|]. apply list_elem_of_fmap_2, list_elem_of_In, filter_In. by rewrite <-list_elem_of_In.
  - rewrite bool_decide_eq_false_2 in Hlk; [done|]. intros (z & Ez & Hz)%list_elem_of_fmap.
    apply list_elem_of_In, filter_In in Hz as [Hz Ezl]. apply list_elem_of_In in Hz.
    pose proof (node_of_elem g x Hnd Hx) as E1. rewrite Ez, (node_of_elem g z Hnd Hz) in E1. congruence.
Qed.

Lemma mark_restored_ok s g :
  exact g -> room g ->
  exists g' dead k, mark_restored_ephemeral_operations_stale clock s g 0 = Ok ((g', dead), k)
    /\ exact g' /\ same_views g g' /\ only_deaths g g' /\ dead = existsb ephemeral_live (nodes g)
    /\ (dead = false -> g' = g).
Proof.
  intros Hx Hr. unfold mark_restored_ephemeral_operations_stale.
  change (node_id <$> List.filter ephemeral_live (nodes g)) with (dying g). set (ids := dying g).
  pose proof (sound_node_ids _ (valid_structure _ (proj1 Hx))) as Hnd.
  assert (forall m, m ∈ nodes g -> ephemeral_live m = true -> node_id m ∈ ids) as Hmem.
  { intros m Hm He. apply list_elem_of_fmap_2, list_elem_of_In, filter_In. by rewrite <-list_elem_of_In. }
  assert (forall i, i ∈ ids -> exists m, node g i = Some m /\ ephemeral_live m = true) as Hids.
  { intros i (m & -> & Hm)%list_elem_of_fmap. apply list_elem_of_In, filter_In in Hm as [Hm He].
    apply list_elem_of_In in Hm. exists m. split; [by apply node_of_elem|done]. }
  destruct (is_nil ids) eqn:Enil.
  - assert (existsb ephemeral_live (nodes g) = false) as Eno.
    { apply existsb_false, Forall_forall. intros m Hm. destruct (ephemeral_live m) eqn:E; [|done].
      specialize (Hmem m Hm E). destruct ids; [by apply not_elem_of_nil in Hmem|done]. }
    exists g, false, 0. split; [done|]. split; [done|]. split; [done|]. split; [|by rewrite Eno].
    apply marked_only_deaths; [done|]. fold ids. destruct ids; [apply marked_refl|done].
  - destruct (mark_stale_ok s ids g 0) as (g' & k & E & Hx' & Hf & Hmk); [done| | | |].
    + subst ids. unfold dying. clear -Hnd. induction (nodes g) as [|m l IH]; [constructor|]. cbn in Hnd |- *.
      apply NoDup_cons in Hnd as [Hm Hl]. destruct (ephemeral_live m); [|by apply IH]. cbn. apply NoDup_cons.
      split; [|by apply IH]. intros (x & Ex & Hx)%list_elem_of_fmap. apply Hm. rewrite Ex. apply list_elem_of_fmap_2.
      apply list_elem_of_In in Hx. apply filter_In in Hx as [Hx _]. by apply list_elem_of_In.
    + apply Forall_forall. intros i Hi. destruct (Hids i Hi) as (m & Hm & He). unfold ephemeral_live in He.
      destruct (binding m) as [b|] eqn:Eb; [|done]. apply andb_true_iff in He as [_ He]. by exists m, b.
    + unfold room in Hr. subst ids. unfold dying. rewrite length_fmap. pose proof (List.filter_length_le ephemeral_live (nodes g)). lia.
    + exists g', true, k. split; [unfold WgRuntime.bind; rewrite E; done|]. split; [done|].
      split; [by apply frame_views; [apply (valid_projection _ (proj1 Hx))|]|]. split; [|split; [|done]].
      * by apply marked_only_deaths.
      * destruct ids as [|i l] eqn:Ei; [done|]. destruct (Hids i ltac:(left)) as (m & Hm & He).
        symmetry. apply existsb_elem_of. exists m. split; [by apply node_some in Hm as [? _]|done].
Qed.

End Marking.

End WgStale.

Module WgRestore.
Import Providers WgModel WgValidate WgSpec WgReducer WgFacts WgProjection WgLegacy WgImport WgRuntime.
Import WgEdits WgRuntimeFacts WgSession WgStale.

Section Evolution.
Context `{Digest} `{LegacyCodec}.

(** The active graph is [g] or the result of edits of [g]. *)
Definition evolves (g : WorkGraphSnapshot) (rt : WorkRuntime) : Prop :=
  exists g', rt_snapshot rt = Some g' /\ edits keeps g g'.

(** Restores and resets start from another graph. *)
Definition keeps_graph (o : rt_op) : bool :=
  match o with ORestore _ _ _ _ _ _ _ _ | OClear _ _ => false | _ => true end.

Lemma evolves_same g rt : rt_snapshot rt = Some g -> evolves g rt.
Proof. intros E. exists g. split; [done|constructor]. Qed.

Lemma evolves_next g rt g' : edits keeps g g' -> evolves g (with_next rt g').
Proof. intros E. by exists g'. Qed.

Lemma lift_evolves {A B} g rt (r : result A runtime_error) (k : A -> WorkRuntime * result B runtime_error) :
  rt_snapshot rt = Some g -> (forall a, r = Ok a -> evolves g (k a).1) -> evolves g (lift rt r k).1.
Proof. intros Hs Hk. destruct r; cbn [lift]; [by apply Hk|by apply evolves_same]. Qed.

Lemma locked_graph_evolves {A} lk rt s g (k : WorkRuntime -> WorkGraphSnapshot -> WorkRuntime * result A runtime_error) :
  Good rt -> rt_snapshot rt = Some g -> (forall rt', rt_snapshot rt' = Some g -> evolves g (k rt' g).1) ->
  evolves g (locked_graph lk rt s k).1.
Proof.
  intros HG Hs Hk. unfold locked_graph. destruct (todos_free lk), (plan_free lk); cbn [negb]; try by apply evolves_same.
  destruct (graph_for_update_good rt s HG) as (rt' & g1 & -> & _ & Hs' & _ & _ & _ & Eg).
  rewrite Hs in Eg. cbn in Eg. subst g1. by apply Hk.
Qed.

Lemma activate_evolves {A} rt g m (a : A) :
  rt_snapshot rt = Some g -> (forall g' n, m = Ok (g', n) -> edits keeps g g') -> evolves g (activate rt m a).1.
Proof.
  intros Hs Hm. apply lift_evolves; [done|]. intros [g' n] E. apply lift_evolves; [done|]. intros _ _.
  apply evolves_next. by eapply Hm.
Qed.

Lemma update_evolves {A B} rt g m (r : WorkGraphSnapshot -> result A runtime_error) (b : WorkGraphSnapshot -> B) :
  rt_snapshot rt = Some g -> (forall g' n, m = Ok (g', n) -> edits keeps g g') ->
  evolves g (lift rt m (fun q : WorkGraphSnapshot * nat => lift rt (r q.1) (fun _ => (with_next rt q.1, Ok (b q.1))))).1.
Proof.
  intros Hs Hm. apply lift_evolves; [done|]. intros [g' n] E. apply lift_evolves; [done|]. intros _ _.
  apply evolves_next. by eapply Hm.
Qed.

Lemma report_evolves clock rt s ext obs g :
  rt_snapshot rt = Some g -> evolves g (reconcile_observation clock rt s ext obs).1.
Proof.
  intros Hs. unfold reconcile_observation. destruct (match rt_session rt with Some _ => _ | None => _ end);
    [by apply evolves_same|]. rewrite Hs. apply lift_evolves; [done|]. intros [[next|] n] E; [|by apply evolves_same].
  apply evolves_next. eapply observation_step; [apply keeps_covers_reports|exact E].
Qed.

Lemma reconcile_evolves clock rt s stores g :
  rt_snapshot rt = Some g -> evolves g (reconcile_workspace_owner_bindings clock id rt s stores).1.
Proof.
  intros Hs. unfold reconcile_workspace_owner_bindings, id. destruct (negb _); [by apply evolves_same|].
  rewrite Hs. apply lift_evolves; [done|]. intros [[next k] n] E. cbn [fst snd].
  destruct (_ =? _)%N; [by apply evolves_same|]. destruct (_ || _); [by apply evolves_same|]. apply evolves_next.
  apply (reconcile_workspace_edits _ _ keeps_covers_reports) in E. exact E.
Qed.

Lemma capture_evolves lk rt s g : Good rt -> rt_snapshot rt = Some g -> evolves g (capture lk rt s).1.
Proof.
  intros HG Hs. apply evolves_same. destruct (capture_succeeds rt s HG) as (rt' & r & E & _ & Hr).
  unfold capture in *. destruct (todos_free lk), (plan_free lk); cbn [negb all_free todos_free plan_free fst] in *; try done.
  rewrite E. cbn [fst]. destruct r as [w|].
  - destruct Hr as (Ew & Hs' & _). rewrite Hs', Ew, Hs. done.
  - destruct (_ && _ && _) in E; [by injection E as <-|].
    destruct (graph_for_update_good rt (resolved_session_id rt s) HG) as (rt1 & g1 & E1 & _). rewrite E1 in E.
    cbn [lift] in E. destruct (validate_combined _ _ _); [|done]. cbn [lift] in E. by destruct (_ && _ && _) in E.
Qed.

Lemma publish_evolves lk instant rt g : rt_snapshot rt = Some g -> evolves g (publish_pending_sync lk instant rt).1.
Proof.
  intros Hs. unfold publish_pending_sync. destruct (todos_free lk), (plan_free lk), (pending_publish rt);
    cbn [negb]; try by apply evolves_same. rewrite Hs. apply lift_evolves; [done|]. intros r _. by apply evolves_same.
Qed.

(** Every operation but a restore and a reset edits the active graph. *)
Lemma exec_evolves rt o g :
  Good rt -> rt_snapshot rt = Some g -> keeps_graph o = true -> evolves g (exec_op rt o).
Proof.
  intros HG Hs Hk. destruct o; cbn [exec_op keeps_graph] in *; try done;
    try (apply locked_graph_evolves; [done|done|]; intros rt' Hs').
  - unfold register_operation. destruct (external_identity_is_well_formed _); [|by apply evolves_same]. cbn [negb].
    apply locked_graph_evolves; [done|done|]. intros rt' Hs'.
    destruct (List.find _ _); [case_bool_decide; by apply evolves_same|]. apply activate_evolves; [done|]. intros g' n Hm.
    by eapply register_graph_edits.
  - destruct (List.find _ _); [|by apply evolves_same]. apply activate_evolves; [done|]. intros g' n Hm.
    by eapply approval_graph_edits.
  - by apply report_evolves.
  - apply activate_evolves; [done|]. intros g' n. destruct (try_apply _ _ _) as [g1|] eqn:E; [|done].
    intros [= <- <-]. apply try_apply_ok in E as [r E]. eapply (edits_one keeps); [| |exact E]; done.
  - apply update_evolves; [done|]. intros g' n. apply update_plan_edits.
  - apply update_evolves; [done|]. intros g' n. apply update_todo_edits.
  - by apply publish_evolves.
  - by apply capture_evolves.
  - by apply reconcile_evolves.
Qed.

End Evolution.

(** ** Restored operations *)

Section Restored.
Context `{Digest} `{LegacyCodec} (clock : nat -> Ts).

(** No operation of the ended process is live. *)
Definition quiet (g : WorkGraphSnapshot) : Prop := forall n, n ∈ nodes g -> ephemeral_live n = false.

(** What a report leaves of a node. *)
Definition shape (n : WorkNode) : WorkNodeId * option (list N * bool) :=
  (node_id n, (fun b => (external b, durable b)) <$> binding n).

Lemma reconciled_shape obs b t n : binding n = Some b -> shape (reconciled obs b t n) = shape n.
Proof. intros Hb. unfold shape. cbn. rewrite Hb. by destruct obs. Qed.

Lemma reconciled_missing checked_at b t n : ephemeral_live (reconciled (OwnerMissing checked_at) b t n) = false.
Proof. unfold ephemeral_live. cbn. destruct (state n); cbn; by rewrite andb_false_r. Qed.

Lemma try_reconcile_nodes g id obs ctx g' :
  ctx_key ctx = None -> try_apply g (ReconcileOperation id obs) ctx = Ok g' ->
  exists n b, node g id = Some n /\ binding n = Some b /\ nodes g' = update_first id (reconciled obs b (now ctx)) (nodes g).
Proof.
  intros Hk [r Ha]%try_apply_ok. destruct (apply_unkeyed _ _ _ _ _ ltac:(unfold seen; by rewrite Hk) Ha) as (cand & Hc & _ & E).
  injection E as -> _. apply reconcile_ok in Hc as (n & b & Hn & Hb & ->). by exists n, b.
Qed.

Lemma update_shapes g id obs b t n :
  NoDup (node_id <$> nodes g) -> node g id = Some n -> binding n = Some b ->
  shape <$> update_first id (reconciled obs b t) (nodes g) = shape <$> nodes g.
Proof.
  intros Hnd Hn Hb. apply update_first_fmap. intros m Hm E. apply reconciled_shape.
  rewrite <-E, (node_of_elem _ _ Hnd Hm) in Hn. congruence.
Qed.

Lemma shapes_ids g g' :
  shape <$> nodes g' = shape <$> nodes g -> NoDup (node_id <$> nodes g) -> NoDup (node_id <$> nodes g').
Proof.
  intros E. assert (forall l, node_id <$> l = fst <$> (shape <$> l)) as Hf by (intros l; by rewrite <-list_fmap_compose).
  by rewrite !Hf, E.
Qed.

Lemma mark_stale_quiet s ids g k g' k' :
  mark_stale clock s ids g k = Ok (g', k') -> NoDup (node_id <$> nodes g) ->
  shape <$> nodes g' = shape <$> nodes g
  /\ forall m, m ∈ nodes g' -> ephemeral_live m = true ->
       exists m0, m0 ∈ nodes g /\ ephemeral_live m0 = true /\ node_id m0 ∉ ids.
Proof.
  revert g k. induction ids as [|id ids IH]; intros g k Hc Hnd; cbn [mark_stale] in Hc; m_steps.
  { split; [done|]. intros m Hm He. exists m. by split_and!; [| |apply not_elem_of_nil]. }
  destruct (try_apply _ _ _) as [g1|] eqn:E; m_steps.
  destruct (try_reconcile_nodes _ _ _ _ _ (eq_refl : ctx_key {| session_id := s; now := _; ctx_key := None |} = None) E) as (n & b & Hn & Hb & E1).
  cbn [now] in E1.
  assert (shape <$> nodes g1 = shape <$> nodes g) as Es by (rewrite E1; by eapply update_shapes).
  destruct (IH _ _ Hc (shapes_ids _ _ Es Hnd)) as [Es' Hl]. split; [congruence|]. intros m Hm He.
  destruct (Hl m Hm He) as (m1 & Hm1 & He1 & Hi). rewrite E1 in Hm1.
  destruct (elem_of_update_first _ _ _ _ Hnd Hm1) as [[Hm0 Hne]|(m0 & _ & _ & ->)].
  - exists m1. split_and!; try done. by apply not_elem_of_cons.
  - by rewrite reconciled_missing in He1.
Qed.

Lemma mark_restored_quiet s g r k' :
  mark_restored_ephemeral_operations_stale clock s g 0 = Ok (r, k') -> NoDup (node_id <$> nodes g) ->
  quiet r.1 /\ shape <$> nodes r.1 = shape <$> nodes g.
Proof.
  unfold mark_restored_ephemeral_operations_stale. set (ids := node_id <$> List.filter ephemeral_live (nodes g)).
  intros Hc Hnd.
  assert (forall m, m ∈ nodes g -> ephemeral_live m = true -> node_id m ∈ ids) as Hmem.
  { intros m Hm He. apply list_elem_of_fmap_2, list_elem_of_In, filter_In. by rewrite <-list_elem_of_In. }
  destruct (is_nil ids) eqn:Enil; m_steps.
  - split; [|done]. intros m Hm. destruct (ephemeral_live m) eqn:E; [|done].
    specialize (Hmem m Hm E). destruct ids; [by apply not_elem_of_nil in Hmem|done].
  - cbn [fst]. match goal with H1 : mark_stale _ _ _ _ _ = _ |- _ => destruct (mark_stale_quiet _ _ _ _ _ _ H1 Hnd) as [Es Hl] end.
    split; [|done]. intros m Hm. destruct (ephemeral_live m) eqn:E; [|done].
    destruct (Hl m Hm E) as (m0 & Ha & Hb & Hno). destruct Hno. by apply Hmem.
Qed.

(** Every binding with this identity is durable. *)
Definition durable_identity (g : WorkGraphSnapshot) (ext : list N) : Prop :=
  forall i d, (i, Some (ext, d)) ∈ shape <$> nodes g -> d = true.

Lemma observation_quiet s ext obs g n next n' :
  apply_observation_to_snapshot clock s ext obs g n = Ok (Some next, n') -> NoDup (node_id <$> nodes g) ->
  durable_identity g ext -> quiet g -> quiet next /\ shape <$> nodes next = shape <$> nodes g.
Proof.
  intros (nd & r & t & Hf & _ & _ & _ & cand & Hc & En)%observation_edits Hnd Hd Hq.
  apply find_elem_of in Hf as [Hin Hbd]. apply reconcile_ok in Hc as (m & b & Hm & Hb & ->).
  rewrite (node_of_elem _ _ Hnd Hin) in Hm. injection Hm as <-. rewrite En. cbn [nodes update_node with_nodes now].
  split; [|by eapply update_shapes; [done|apply node_of_elem|]]. unfold bound_to in Hbd. rewrite Hb in Hbd.
  apply str_eqb_spec in Hbd. intros x Hx. rewrite En in Hx.
  destruct (elem_of_update_first _ _ _ _ Hnd Hx) as [[Hx0 _]|(y & Hy & Ey & ->)]; [by apply Hq|].
  assert (durable b = true) as Edb.
  { apply (Hd (node_id nd)). rewrite list_elem_of_fmap. exists nd. split; [|done]. unfold shape. rewrite Hb. cbn. by rewrite Hbd. }
  unfold ephemeral_live. cbn. assert (durable (observed_binding obs b) = durable b) as -> by by destruct obs.
  by rewrite Edb.
Qed.

Lemma reconcile_all_quiet s stores t l k g n r n' :
  reconcile_all clock s stores t l k g n = Ok (r, n') -> NoDup (node_id <$> nodes g) ->
  Forall (durable_identity g) l -> quiet g -> quiet r.1.
Proof.
  revert k g n. induction l as [|ext l IH]; intros k g n Hc Hnd Hl Hq; cbn [reconcile_all] in Hc; m_steps; [done|].
  apply Forall_cons in Hl as [Hext Hl]. destruct (owner_observation stores t ext); [|by eapply IH]. m_steps.
  match goal with H2 : apply_observation_to_snapshot _ _ _ _ _ _ = Ok (?o, _) |- _ => destruct o as [next|] end; [|by eapply IH].
  match goal with H2 : apply_observation_to_snapshot _ _ _ _ _ _ = _ |- _ =>
    destruct (observation_quiet _ _ _ _ _ _ _ H2 Hnd Hext Hq) as [Hq' Es] end.
  eapply IH; [exact Hc|by eapply shapes_ids| |done]. eapply Forall_impl; [exact Hl|]. intros e He i d. rewrite Es. apply He.
Qed.

Lemma candidates_durable g : NoDup (externals g) -> Forall (durable_identity g) (workspace_candidates g).
Proof.
  intros Hnd. apply Forall_forall. intros ext Hext. unfold workspace_candidates, durable_externals in Hext.
  apply list_elem_of_In, filter_In in Hext as [Hext _]. apply list_elem_of_In, list_elem_of_fmap in Hext as (b & -> & Hb).
  apply list_elem_of_In, filter_In in Hb as [Hb Hd]. apply list_elem_of_In, list_elem_of_omap in Hb as (n & Hn & Hb).
  apply list_elem_of_In, filter_In in Hn as [Hn _]. apply list_elem_of_In in Hn.
  intros i d (m & Em & Hm)%list_elem_of_fmap. unfold shape in Em. destruct (binding m) as [b'|] eqn:Eb; [|done].
  injection Em as -> Eext ->. unfold externals in Hnd.
  assert (m = n) as -> by (eapply (NoDup_omap_inj _ _ _ _ (external b) Hnd); [done|done|rewrite Eb|rewrite Hb]; cbn; congruence).
  congruence.
Qed.

Lemma reconcile_workspace_quiet s stores g n r n' :
  reconcile_workspace_snapshot clock s stores g n = Ok (r, n') -> NoDup (node_id <$> nodes g) -> NoDup (externals g) ->
  quiet g -> quiet r.1.
Proof.
  unfold reconcile_workspace_snapshot. intros Hc Hnd Hx Hq. destruct (is_nil _); m_steps; [done|].
  eapply reconcile_all_quiet; eauto using candidates_durable.
Qed.

Lemma shapes_externals g g' : shape <$> nodes g' = shape <$> nodes g -> externals g' = externals g.
Proof.
  assert (forall l : list WorkNode, omap (fun n => external <$> binding n) l = omap (fun p => fst <$> p.2) (shape <$> l)) as Hf.
  { induction l as [|n l IH]; [done|]. cbn. rewrite IH. by destruct (binding n). }
  intros E. unfold externals. by rewrite !Hf, E.
Qed.

(** A restored graph has no live operation of the ended process. *)
Lemma restored_quiet s g0 t p stores g pend :
  restore_candidate clock s (Some g0) t p stores = Ok (g, pend) -> quiet g.
Proof.
  intros (g1 & g2 & b & n & n' & k & [-> Hv] & Hm & Hr & _)%restore_candidate_ok.
  pose proof (sound_node_ids _ (valid_structure _ Hv)) as Hnd. pose proof (valid_v6 _ Hv) as [Hx _].
  destruct (mark_restored_quiet _ _ _ _ Hm Hnd) as [Hq Es]. cbn [fst] in Hq, Es.
  destruct stores as [st|]; [|by subst]. eapply (reconcile_workspace_quiet _ _ _ _ (g, k)); [exact Hr| | |done].
  - by eapply shapes_ids.
  - by rewrite (shapes_externals _ _ Es).
Qed.

End Restored.

End WgRestore.
