(* ===== verification/WgWrites.v ===== *)
(** * What a plan or To-do update writes

    The nodes an accepted update leaves behind, and with them the rows of the views. *)

From stdpp Require Import base list option gmap strings sorting.
From Stdlib Require Import Lia NArith ZArith.
From S2P Require Import Prelude RustStr Providers WgModel WgValidate WgSearch WgSpec WgReducer WgFacts.
From S2P Require Import WgProjection WgLegacy WgImport WgRuntime WgRuntimeFacts WgSession.

Module WgWrites.
Import Providers WgModel WgValidate WgSpec WgReducer WgFacts WgProjection WgLegacy WgImport WgRuntime.
Import WgEdits WgRuntimeFacts WgSession.

Section Writes.
Context `{Digest} `{LegacyCodec} (clock : nat -> Ts).

(** Node [id] has this title and state. *)
Definition written (g : WorkGraphSnapshot) (id : WorkNodeId) (t : list N) (s : NodeState) : Prop :=
  exists m, node g id = Some m /\ title m = t /\ state m = s.

(** Only [id] was written; the projection is as it was. *)
Definition elsewhere (g g' : WorkGraphSnapshot) (ids : list WorkNodeId) : Prop :=
  compat g' = compat g /\ forall i, i ∉ ids -> forall m, node g i = Some m -> node g' i = Some m.

Lemma elsewhere_refl g ids : elsewhere g g ids.
Proof. by split. Qed.

Lemma elsewhere_trans a b c ids ids' : elsewhere a b ids -> elsewhere b c ids' -> elsewhere a c (ids ++ ids').
Proof.
  intros [C1 E1] [C2 E2]. split; [congruence|]. intros i Hi m Hm. rewrite elem_of_app in Hi.
  apply E2; [tauto|]. apply E1; [tauto|done].
Qed.

Lemma elsewhere_incl g g' ids ids' : ids ⊆ ids' -> elsewhere g g' ids -> elsewhere g g' ids'.
Proof. intros Hi [C E]. split; [done|]. intros i Hn. apply E. set_solver. Qed.

Lemma written_kept g g' ids id t s : elsewhere g g' ids -> id ∉ ids -> written g id t s -> written g' id t s.
Proof. intros [_ E] Hi (m & Hm & ?). exists m. split; [by apply E|done]. Qed.

Lemma apply_change_pure s tool c g n g' n' :
  apply_change clock s tool c g n = Ok (g', n') ->
  exists cand ctx, ctx_key ctx = None /\ apply_pure g c ctx = Ok cand /\ nodes g' = nodes cand /\ compat g' = compat cand.
Proof.
  unfold apply_change. intros Hc. m_steps. destruct (try_apply _ _ _) as [g1|] eqn:E; [|done]. m_steps.
  apply try_apply_ok in E as [r E]. apply apply_unkeyed in E as (cand & Hc & _ & E); [|done]. injection E as -> _.
  by exists cand, {| session_id := s; now := clock n; ctx_key := None |}.
Qed.

Lemma patch_existing_writes s tool id t st g n g' n' :
  patch_existing_node clock s tool id t st g n = Ok (g', n') -> written g' id t st /\ elsewhere g g' [id].
Proof.
  unfold patch_existing_node. intros Hc. m_steps. destruct (_ && _) eqn:E; m_steps.
  - apply andb_true_iff in E as [E1%str_eqb_spec E2%bool_decide_eq_true]. split; [|apply elsewhere_refl]. eexists. split; [eassumption|done].
  - apply apply_change_pure in Hc as (cand & ctx & _ & Hc & En & Ec). cbn [apply_pure] in Hc.
    apply patch_node_ok in Hc as (m & Hm & -> & _). split.
    + eexists. split; [unfold node at 1; rewrite En; by apply node_update_eq|done].
    + split; [done|]. intros i Hi k Hk. unfold node at 1. rewrite En.
      rewrite <-Hk. by apply (node_update_ne g i id); [intros ->; set_solver|].
Qed.

Lemma upsert_node_writes s tool nd g n g' n' :
  upsert_node clock s tool nd g n = Ok (g', n') -> written g' (node_id nd) (title nd) (state nd) /\ elsewhere g g' [node_id nd].
Proof.
  unfold upsert_node. intros Hc. destruct (node g (node_id nd)) as [m|] eqn:E.
  - case_bool_decide; cbn [negb] in Hc; m_steps. by apply patch_existing_writes in Hc.
  - pose proof (apply_change_added _ _ _ _ _ _ _ _ Hc) as Hnew.
    apply apply_change_pure in Hc as (cand & ctx & _ & Hc & En & Ec). cbn [apply_pure] in Hc.
    apply add_node_ok in Hc as [_ ->]. split; [exists nd; done|]. split; [done|]. intros i _ k Hk.
    unfold node at 1. rewrite En. by apply (node_with_nodes_snoc g nd i).
Qed.

Lemma ensure_contains_writes s tool a b g n g' n' :
  ensure_contains clock s tool a b g n = Ok (g', n') -> elsewhere g g' [].
Proof.
  intros Hc. pose proof Hc as En. eapply (ensure_contains_edits _ (fun _ _ => True)) in En as [_ En]; [|done..]. split.
  - unfold ensure_contains in Hc. destruct (edge g _); m_steps; [done|].
    apply apply_change_pure in Hc as (cand & ctx & _ & Hc & _ & Ec). cbn [apply_pure] in Hc.
    apply add_edge_ok in Hc as (_ & _ & _ & ->). done.
  - intros i _ m Hm. unfold node in *. by rewrite En.
Qed.

(** One upsert with its edge. *)
Lemma upsert_contained_writes s tool nd a g n g1 n1 g2 n2 :
  upsert_node clock s tool nd g n = Ok (g1, n1) -> ensure_contains clock s tool a (node_id nd) g1 n1 = Ok (g2, n2) ->
  written g2 (node_id nd) (title nd) (state nd) /\ elsewhere g g2 [node_id nd].
Proof.
  intros [Hw He]%upsert_node_writes Hc%ensure_contains_writes. split.
  - eapply written_kept; [exact Hc|set_solver|done].
  - by eapply (elsewhere_trans _ _ _ [_] []).
Qed.

(** The rows of a plan as they are stored. *)
Definition plan_row (g : WorkGraphSnapshot) (id : WorkNodeId) (item : PlanItemArg) : Prop :=
  written g id (trim (step item)) (plan_node_state (step_status item)).

Lemma upsert_plan_writes s tool o i order l g n g' order' n' :
  upsert_plan clock s tool o i order l g n = Ok ((g', order'), n') -> NoDup order' ->
  exists ids, order' = order ++ ids /\ Forall2 (plan_row g') ids l /\ elsewhere g g' ids.
Proof.
  revert i order g n. induction l as [|item l IH]; intros i order g n Hc Hnd; cbn [upsert_plan] in Hc.
  { m_steps. match goal with E : (g, order) = _ |- _ => injection E as -> -> end.
    exists []. rewrite app_nil_r. split; [done|]. split; [constructor|apply elsewhere_refl]. }
  unfold tool_node in Hc. m_steps.
  set (id := default (plan_node_id s i) (plan_order (compat g) !! i)) in *.
  destruct (IH _ _ _ _ Hc Hnd) as (ids & -> & Hr & He).
  match goal with H1 : upsert_node _ _ _ _ _ _ = _, H2 : ensure_contains _ _ _ _ _ _ _ = _ |- _ =>
    destruct (upsert_contained_writes _ _ _ _ _ _ _ _ _ _ H1 H2) as [Hw He1] end. cbn [node_id title state] in Hw, He1.
  exists (id :: ids). split; [by rewrite <-app_assoc|].
  assert (id ∉ ids) as Hid.
  { rewrite <-app_assoc in Hnd. apply NoDup_app in Hnd as (_ & _ & Hnd). by apply NoDup_cons in Hnd as [? _]. }
  split; [|by eapply (elsewhere_trans _ _ _ [id] ids)]. constructor; [by eapply written_kept|done].
Qed.

(** The stored rows are the projected ones. *)
Lemma plan_rows_projected g ids l :
  Forall2 (plan_row g) ids l ->
  (fun m => {| step := title m; step_status := plan_status m |}) <$> omap (node g) ids
  = (fun i => {| step := trim (step i); step_status := step_status i |}) <$> l.
Proof.
  induction 1 as [|id item ids l (m & Hm & Ht & Hs) _ IH]; [done|]. cbn [omap list_omap]. rewrite Hm. cbn [fmap list_fmap].
  rewrite IH, Ht. f_equal. f_equal. unfold plan_status. rewrite Hs. by destruct (step_status item).
Qed.

(** An accepted plan update stores the plan that was asked for. *)
Lemma update_plan_writes s tool p g n g' n' :
  update_plan_graph clock s tool p g n = Ok (g', n') -> projection_sound g' ->
  project_plan g' = {| plan_metadata := plan_metadata p;
                       plan_items := (fun i => {| step := trim (step i); step_status := step_status i |}) <$> plan_items p |}.
Proof.
  unfold update_plan_graph. intros Hc [Hnd _ _ _ _]. m_steps.
  match goal with H1 : upsert_plan _ _ _ _ _ _ _ _ _ = Ok (?q, _) |- _ => destruct q as [g2 order]; rename H1 into Hu end.
  cbn [fst snd] in *. apply apply_change_pure in Hc as (cand & ctx & _ & Hc & En & Ec). cbn [apply_pure] in Hc.
  injection Hc as <-. cbn [compat with_compat nodes] in Ec, En. rewrite Ec in Hnd. cbn [plan_order] in Hnd.
  destruct (upsert_plan_writes _ _ _ _ _ _ _ _ _ _ _ Hu Hnd) as (ids & -> & Hr & _). cbn [app] in *.
  unfold project_plan. rewrite Ec. cbn [plan plan_order]. f_equal; [by destruct p as [[] ?]|].
  rewrite <-(plan_rows_projected g2 ids (plan_items p) Hr). f_equal. unfold node. by rewrite En.
Qed.

(** ** To-do rows that cannot be rewritten *)

(** A patch never moves a terminal node to another state. *)
Lemma patch_terminal s tool id t st g n r m :
  patch_existing_node clock s tool id t st g n = Ok r -> node g id = Some m -> is_terminal (state m) = true ->
  st = state m.
Proof.
  destruct r as [g' n']. intros Hc Hm Ht.
  assert (edits keeps g g') as He by by eapply patch_existing_edits.
  destruct (edits_terminal _ _ id He m Hm Ht) as (m1 & Hm1 & E1).
  apply patch_existing_writes in Hc as [(m2 & Hm2 & _ & E2) _]. congruence.
Qed.

(** The node a To-do position stands for in a sound projection. *)
Lemma todo_position s g b :
  projection_sound g -> b ∈ todos (compat g) ->
  match todo_alias (plan_order (compat g)) g (legacy_id b) with
  | Some (i, id) => id = todo_node b
  | None => todo_own_node s g (legacy_id b) = todo_node b
  end.
Proof.
  intros [_ _ P3 P4 _] Hb.
  assert (List.find (fun c => (legacy_id c =? legacy_id b)%N) (todos (compat g)) = Some b) as Hf.
  { destruct (List.find _ (todos (compat g))) as [c|] eqn:E.
    - apply find_elem_of in E as [Hc Ec%N.eqb_eq]. f_equal. by eapply (NoDup_fmap_elem legacy_id).
    - eapply List.find_none in E; [|by apply list_elem_of_In]. by rewrite N.eqb_refl in E. }
  unfold todo_alias. rewrite Hf. cbn [mbind option_bind]. destruct (plan_index b) as [i|] eqn:Ei; cbn.
  - destruct (P4 b Hb) as (_ & _ & Hi). by rewrite bool_decide_eq_true_2 by by apply Hi.
  - unfold todo_own_node.
    destruct (List.find (fun c => (legacy_id c =? legacy_id b)%N && is_none (plan_index c)) (todos (compat g))) as [c|] eqn:E.
    + apply find_elem_of in E as [Hc [Ec%N.eqb_eq _]%andb_true_iff]. cbn. f_equal.
      by eapply (NoDup_fmap_elem legacy_id).
    + eapply List.find_none in E; [|by apply list_elem_of_In]. by rewrite N.eqb_refl, Ei in E.
Qed.

(** The part of a graph a To-do update leaves alone until its end. *)
Definition same_compat (g g' : WorkGraphSnapshot) : Prop := compat g' = compat g.

Lemma deactivate_compat s tool l g n g' n' : deactivate_all clock s tool l g n = Ok (g', n') -> same_compat g g'.
Proof.
  revert g n. induction l as [|[id t] l IH]; intros g n Hc; cbn in Hc; m_steps; [done|].
  apply IH in Hc. match goal with H1 : patch_existing_node _ _ _ _ _ _ _ _ = _ |- _ =>
    apply patch_existing_writes in H1 as [_ [E _]] end. by etrans.
Qed.

Lemma ensure_objective_compat s tool p g n r n' : ensure_objective clock s tool p g n = Ok (r, n') -> same_compat g r.1.
Proof. unfold ensure_objective, tool_node. intros Hc. m_steps. by match goal with H1 : upsert_node _ _ _ _ _ _ = _ |- _ =>
  apply upsert_node_writes in H1 as [_ [E _]] end. Qed.

Lemma upsert_todo_compat s tool o order item g n r n' :
  upsert_todo clock s tool o order item g n = Ok (r, n') -> same_compat g r.1.
Proof.
  unfold upsert_todo, tool_node. intros Hc. destruct (todo_alias order g (todo_id item)) as [[i id]|]; m_steps.
  - match goal with H1 : patch_existing_node _ _ _ _ _ _ _ _ = _ |- _ => by apply patch_existing_writes in H1 as [_ [E _]] end.
  - match goal with H1 : upsert_node _ _ _ _ _ _ = _, H2 : ensure_contains _ _ _ _ _ _ _ = _ |- _ =>
      apply upsert_node_writes in H1 as [_ [E1 _]]; apply ensure_contains_writes in H2 as [E2 _] end.
    cbn [fst]. unfold same_compat. case_bool_decide; m_steps; [|congruence].
    match goal with H1 : patch_existing_node _ _ _ _ _ _ _ _ = _ |- _ => apply patch_existing_writes in H1 as [_ [E _]] end.
    congruence.
Qed.

(** A row whose node is final takes only its own status. *)
Lemma upsert_todo_terminal s tool o item g0 g n r b m :
  upsert_todo clock s tool o (plan_order (compat g0)) item g n = Ok r ->
  projection_sound g0 -> same_compat g0 g -> b ∈ todos (compat g0) -> todo_id item = legacy_id b ->
  node g (todo_node b) = Some m -> is_terminal (state m) = true -> todo_node_state (status item) = state m.
Proof.
  intros Hc Hps Ec Hb Eid Hm Ht. destruct r as [r n']. pose proof (todo_position s g0 b Hps Hb) as Hpos.
  rewrite <-Eid in Hpos. unfold upsert_todo, tool_node in Hc.
  assert (forall order id, todo_alias order g id = todo_alias order g0 id) as Ea by (intros; unfold todo_alias; by rewrite Ec).
  assert (todo_own_node s g (todo_id item) = todo_own_node s g0 (todo_id item)) as Eo by (unfold todo_own_node; by rewrite Ec).
  rewrite Ea, Eo in Hc. destruct (todo_alias (plan_order (compat g0)) g0 (todo_id item)) as [[i id]|]; m_steps.
  - by match goal with H1 : patch_existing_node _ _ _ _ _ _ _ _ = _ |- _ => eapply patch_terminal in H1 end.
  - match goal with H1 : upsert_node _ _ _ _ _ _ = _ |- _ => unfold upsert_node in H1; cbn [node_id node_kind title state] in H1;
      rewrite Hpos, Hm in H1; destruct (negb _) in H1; [done|]; eapply patch_terminal in H1 as Est; [|done..] end.
    destruct (status item); cbn in *; try done; by rewrite <-Est in Ht.
Qed.

Lemma upsert_todos_terminal s tool o g0 bs l g n r b m item :
  upsert_todos clock s tool o (plan_order (compat g0)) bs l g n = Ok r ->
  projection_sound g0 -> same_compat g0 g -> b ∈ todos (compat g0) -> item ∈ l -> todo_id item = legacy_id b ->
  node g (todo_node b) = Some m -> is_terminal (state m) = true -> todo_node_state (status item) = state m.
Proof.
  revert bs g n m. induction l as [|x l IH]; intros bs g n m Hc Hps Ec Hb Hi Eid Hm Ht; [by apply not_elem_of_nil in Hi|].
  destruct r as [r n']. cbn [upsert_todos] in Hc. m_steps.
  apply elem_of_cons in Hi as [->|Hi]; [by eapply upsert_todo_terminal|].
  match goal with H1 : upsert_todo _ _ _ _ _ _ _ _ = Ok (?q, _) |- _ =>
    pose proof (upsert_todo_compat _ _ _ _ _ _ _ _ _ H1) as Ec1; apply upsert_todo_edits in H1 end.
  match goal with H1 : edits keeps g _ |- _ => destruct (edits_terminal _ _ (todo_node b) H1 m Hm Ht) as (m1 & Hm1 & E1) end.
  rewrite <-E1. eapply IH; [exact Hc|done| |done|done|done|exact Hm1|by rewrite E1].
  unfold same_compat in *. congruence.
Qed.

Lemma update_todo_terminal s tool t g n r b m item :
  update_todo_graph clock s tool t g n = Ok r -> projection_sound g -> b ∈ todos (compat g) -> item ∈ items t ->
  todo_id item = legacy_id b -> node g (todo_node b) = Some m -> is_terminal (state m) = true ->
  todo_node_state (status item) = state m.
Proof.
  destruct r as [r n']. unfold update_todo_graph. intros Hc Hps Hb Hi Eid Hm Ht. m_steps.
  match goal with H1 : deactivate_projected_todos _ _ _ _ _ = Ok (?g1, _), H2 : ensure_objective _ _ _ _ _ _ = Ok (?q, _),
                  H3 : upsert_todos _ _ _ _ _ _ _ _ _ = _ |- _ =>
    pose proof (deactivate_compat _ _ _ _ _ _ _ H1) as C1; apply deactivate_edits in H1;
    pose proof (ensure_objective_compat _ _ _ _ _ _ _ H2) as C2; apply ensure_objective_edits in H2;
    assert (same_compat g q.1) as C3 by (unfold same_compat in *; congruence);
    destruct (edits_terminal _ _ (todo_node b) (edits_trans _ _ _ _ H1 H2) m Hm Ht) as (m1 & Hm1 & E1);
    rewrite C3 in H3; rewrite <-E1;
    eapply (upsert_todos_terminal _ _ _ g); [exact H3|done|done|done|done|done|exact Hm1|by rewrite E1]
  end.
Qed.

End Writes.

End WgWrites.
