(* ===== verification/WgSessionTheorems.v ===== *)
(** * Guarantees of the work-graph runtime

    What a session of runtime operations guarantees: valid and publishable graphs,
    saves that do not fail, restores that give back what was saved, operations that are
    not lost; and the sessions that get stuck. *)

From stdpp Require Import base list option gmap strings sorting.
From Stdlib Require Import Lia NArith ZArith.
From S2P Require Import Prelude RustStr Providers WgModel WgValidate WgSearch WgSpec WgReducer WgFacts WgProjection.
From S2P Require Import WgLegacy WgImport WgRuntime WgRuntimeFacts WgSession WgRestore WgWrites.

Module WgSessionTheorems.
Import Providers WgModel WgValidate WgSpec WgReducer WgFacts WgProjection WgLegacy WgImport WgRuntime.
Import WgEdits WgRuntimeFacts WgSession WgStale WgRestore WgWrites.

Section Claims.
Context `{Digest} `{LegacyCodec}.

Lemma empty_compat_views g :
  compat_is_empty (compat g) = true -> todos_is_empty (project_todos g) && plan_is_empty (project_plan g) = true.
Proof.
  unfold compat_is_empty. intros [[Hm Ho]%andb_true_iff Ht]%andb_true_iff.
  unfold project_todos, project_plan, todos_is_empty, plan_is_empty. cbn [items plan_items plan_metadata].
  destruct (todos (compat g)); [|done]. destruct (plan_order (compat g)); [|done].
  assert (plan_metadata (to_plan_snapshot (plan (compat g))) = plan (compat g)) as -> by by destruct (plan (compat g)).
  by rewrite Hm.
Qed.

(** The outcome of restoring a saved graph, before the legacy states are built. *)
Lemma restore_candidate_saved clock s g :
  exact g -> normal g -> room g ->
  if negb (is_none (import_digest g)) && compat_is_empty (compat g)
  then restore_candidate clock s (Some g) (project_todos g) (project_plan g) None = Err MissingProjections
  else exists g1, restore_candidate clock s (Some g) (project_todos g) (project_plan g) None
                  = Ok (g1, existsb ephemeral_live (nodes g))
         /\ exact g1 /\ same_views g g1 /\ only_deaths g g1.
Proof.
  intros Hx Hn Hr. destruct (mark_restored_ok clock s g Hx Hr) as (g1 & dead & k & E & Hx1 & Hsv & Hd & -> & _).
  pose proof (mark_restored_edits _ _ _ _ _ _ E) as He. cbn [fst] in He.
  pose proof (edits_import_digest _ _ He) as Ei.
  pose proof (edits_frame _ _ He (valid_v3 _ (proj1 Hx))) as [Ec _].
  unfold restore_candidate. rewrite (proj2 (validate_ok g) (proj1 Hx)). cbn [result_bind]. rewrite E. cbn [result_bind fst snd].
  destruct Hsv as [Ep Et]. rewrite Ep, Et, Ei, Ec.
  assert (snapshot_is_empty g1 && (negb (todos_is_empty (project_todos g)) || negb (plan_is_empty (project_plan g))) = false) as ->.
  { destruct (snapshot_is_empty g1) eqn:Es; [|done]. apply andb_true_iff in Es as [_ Es]. rewrite Ec in Es.
    apply empty_compat_views, andb_true_iff in Es as [-> ->]. done. }
  assert (negb (is_none (import_digest g)) = true -> negb (snapshot_is_empty g1) = true) as Hne.
  { intros Hi. unfold snapshot_is_empty. rewrite Ei. apply negb_true_iff in Hi. rewrite Hi. by rewrite !andb_false_r. }
  assert (negb (snapshot_is_empty g1) && negb (is_none (import_digest g)) && compat_is_empty (compat g)
    = negb (is_none (import_digest g)) && compat_is_empty (compat g)) as ->.
  { destruct (negb (is_none (import_digest g))); [by rewrite Hne|by rewrite andb_false_r]. }
  destruct (_ && compat_is_empty (compat g)); [done|].
  rewrite (proj2 (validate_combined_ok g1 _ _)) by (pose proof Hn as [_ Hl]; destruct Hx1; done). cbn [result_bind].
  rewrite (bool_decide_eq_true_2 (is_Some _)), !(bool_decide_eq_true_2 (_ = _)) by done. cbn.
  exists g1. by rewrite !orb_false_r.
Qed.

(** The refused case. *)
Lemma restore_refused rt s rt' w clock instant rt0 session_ :
  Good rt -> capture all_free rt s = (rt', Ok (Some w)) -> room (wr_graph w) ->
  negb (is_none (import_digest (wr_graph w))) && compat_is_empty (compat (wr_graph w)) = true ->
  restore clock instant all_free rt0 session_ (Some (wr_graph w)) (wr_todos w) (wr_plan w) = (rt0, Err MissingProjections).
Proof.
  intros HG Hc Hr Hm. destruct (captured _ _ _ _ _ HG Hc) as (-> & -> & Hx & Hn).
  pose proof (restore_candidate_saved clock session_ (wr_graph w) Hx Hn Hr) as Hcand. rewrite Hm in Hcand.
  unfold restore, restore_internal. by rewrite Hcand.
Qed.

(** ** Properties *)

(** C8: In every session of runtime operations, with busy locks, failed operations,
    imports, restores of what a session saved, owner reports and resets in any order, the
    active graph satisfies all invariants of validation and both of its views can be
    taken over by the legacy states; the published views are the projections of the graph
    unless a publication is pending, and none is pending without a graph. A session
    ([session]) restores only graphs that some session saved, imports a legacy state only
    if its plan gets at most one step in progress ([aliased_import_cannot_be_published]
    shows why), and stays away from the end of the revision counter. *)
Theorem session_invariant (rt : WorkRuntime) :
  session rt ->
  match rt_snapshot rt with
  | None => pending_publish rt = false /\ plan_view rt = project_plan snapshot_new
            /\ todo_view rt = project_todos snapshot_new
  | Some g => validate g = Ok tt /\ normal g
              /\ (pending_publish rt = false -> plan_view rt = project_plan g /\ todo_view rt = project_todos g)
  end.
Proof.
  intros HG%session_good. unfold Good in HG. destruct (rt_snapshot rt) as [g|]; [|done].
  destruct HG as ([Hv _] & Hn & Hs). split; [by apply validate_ok|done].
Qed.

(** C9: Publishing and saving never fail in such a session once the two legacy locks are
    free: the publication leaves the projections of the active graph in the legacy
    states, and the save returns the active graph with its own projections, or nothing
    only when there is nothing to save. An import that gives the plan two steps in
    progress is no operation of a session: after it publication fails
    ([aliased_import_cannot_be_published]). *)
Theorem session_saves_never_fail (rt : WorkRuntime) (instant : Z) (s : option (list N)) :
  session rt ->
  (exists rt', publish_pending instant rt = (rt', Ok (pending_publish rt))
     /\ pending_publish rt' = false /\ rt_snapshot rt' = rt_snapshot rt
     /\ plan_view rt' = project_plan (default snapshot_new (rt_snapshot rt))
     /\ todo_view rt' = project_todos (default snapshot_new (rt_snapshot rt)))
  /\ exists rt' r, capture all_free rt s = (rt', Ok r)
       /\ match r with
          | None => snapshot_is_empty (default snapshot_new (rt_snapshot rt)) = true
          | Some w => wr_graph w = default snapshot_new (rt_snapshot rt) /\ validate (wr_graph w) = Ok tt
                      /\ wr_plan w = project_plan (wr_graph w) /\ wr_todos w = project_todos (wr_graph w)
          end.
Proof.
  intros HG%session_good. split.
  - destruct (publish_succeeds instant rt HG) as (rt' & E & HG' & Hp & Hs). exists rt'. split_and!; try done;
      unfold Good in HG'; rewrite Hs in HG'; destruct (rt_snapshot rt) as [g|]; cbn;
      [by apply HG'|by apply HG'|by apply HG'|by apply HG'].
  - destruct (capture_succeeds rt s HG) as (rt' & r & E & _ & Hr). exists rt', r. split; [done|].
    destruct r as [w|]; [|done]. destruct Hr as (E1 & _ & E2 & E3 & [Hv _] & _). split_and!; try done. by apply validate_ok.
Qed.

(** C10: What such a session saved, away from the end of the revision counter, can be
    restored, into any runtime: the restore gives back both views exactly, and the graph
    with one difference, that the operations which died with the old process are stale:
    node by node in the same order, with the same edges, activities, proposals,
    projections, keys and digest, and for each death one revision and one receipt more. A
    publication is pending exactly when there were such operations. The one exception is
    a graph that was imported and whose projections are empty: its restore is always
    refused and changes nothing. *)
Theorem saved_session_restores (rt rt' rt0 : WorkRuntime) (s : option (list N)) (w : WorkRuntimeSnapshot)
    (clock : nat -> Ts) (instant : Z) (session_ : list N) :
  session rt -> capture all_free rt s = (rt', Ok (Some w)) -> room (wr_graph w) ->
  let g := wr_graph w in
  let restored := restore clock instant all_free rt0 session_ (Some g) (wr_todos w) (wr_plan w) in
  if negb (is_none (import_digest g)) && compat_is_empty (compat g)
  then restored = (rt0, Err MissingProjections)
  else exists rt1 g1 r, restored = (rt1, Ok r) /\ rt_snapshot rt1 = Some g1 /\ validate g1 = Ok tt
         /\ plan_view rt1 = wr_plan w /\ todo_view rt1 = wr_todos w /\ only_deaths g g1
         /\ pending_publish rt1 = existsb ephemeral_live (nodes g).
Proof.
  intros HG%session_good Hc Hr. cbn zeta.
  destruct (_ && compat_is_empty (compat (wr_graph w))) eqn:Em; [by eapply restore_refused|].
  destruct (captured _ _ _ _ _ HG Hc) as (Ep & Et & Hx & Hn). rewrite Ep, Et. unfold restore, restore_internal.
  pose proof (restore_candidate_saved clock session_ (wr_graph w) Hx Hn Hr) as Hcand. rewrite Em in Hcand.
  destruct Hcand as (g1 & -> & [Hv1 _] & Hsv & Hd). cbn [lift]. pose proof Hsv as [Ep1 Et1].
  pose proof (normal_same_views _ _ Hsv Hn) as [Hp1 [l Hl]]. rewrite Hl. cbn [all_free todos_free plan_free negb].
  eexists _, g1, _. split; [done|]. cbn [rt_snapshot pending_publish]. split; [done|]. split; [by apply validate_ok|].
  split_and!; try done.
  - rewrite <-Ep1. by apply plan_from_snapshot_normal.
  - rewrite <-Et1. by apply todo_snapshot_projected.
Qed.

(** No operation of an ended process is shown as running after a restore: whatever
    graph is restored, with or without owner stores to reconcile with, a successful
    restore leaves no live operation whose binding is not durable. *)
Theorem restored_operations_are_not_live (clock : nat -> Ts) (instant : Z) (lk : locks) (rt rt' : WorkRuntime)
    (s : list N) (g0 : WorkGraphSnapshot) (t : TodoListSnapshot) (p : PlanSnapshot) (stores : option owner_stores)
    (r : option WorkRuntimeSnapshot) :
  restore_internal clock instant lk rt s (Some g0) t p stores = (rt', Ok r) ->
  exists g, rt_snapshot rt' = Some g /\ project_plan g = p /\ project_todos g = t
    /\ forall n b, n ∈ nodes g -> binding n = Some b -> durable b = false -> is_live (state n) = false.
Proof.
  unfold restore_internal. destruct (restore_candidate _ _ _ _ _ _) as [[g pend]|] eqn:E; [|done]. cbn [lift].
  destruct (todo_from_snapshot _) as [l|]; [|done]. destruct (todos_free lk); [|done]. destruct (plan_free lk); [|done].
  intros [= <- _]. exists g. pose proof (restore_edits _ _ _ _ _ _ _ _ E) as (_ & _ & _ & _ & Hviews).
  destruct (Hviews ltac:(by eexists)) as [Ep Et]. split_and!; try done.
  intros n b Hin Hb Hd. pose proof (restored_quiet _ _ _ _ _ _ _ _ E n Hin) as Hq. unfold ephemeral_live in Hq.
  by rewrite Hb, Hd in Hq.
Qed.

(** C11: No operation of a session but a restore or a reset loses work: every node of
    the active graph is still there afterwards with its kind, a final state stays as it
    is, and a bound operation keeps its identity and durability while the sequence
    number of its owner's last report never goes back. *)
Theorem session_loses_no_work (rt : WorkRuntime) (o : rt_op) (g : WorkGraphSnapshot) (id : WorkNodeId) (n : WorkNode) :
  session rt -> keeps_graph o = true -> rt_snapshot rt = Some g -> node g id = Some n ->
  exists g' n', rt_snapshot (exec_op rt o) = Some g' /\ node g' id = Some n' /\ node_kind n' = node_kind n
    /\ (is_terminal (state n) = true -> state n' = state n)
    /\ binding_kept (binding n) (binding n').
Proof.
  intros HG%session_good Hk Hs Hn. destruct (exec_evolves rt o g HG Hs Hk) as (g' & Hs' & He).
  destruct (good_some _ _ HG Hs) as ([Hv _] & _).
  destruct (edits_kept _ _ He (sound_node_ids _ (valid_structure _ Hv)) id n Hn) as (n' & Hn' & Ek & Hb).
  exists g', n'. split_and!; try done. intros Ht.
  destruct (edits_terminal _ _ id He n Hn Ht) as (m & Hm & Es). congruence.
Qed.

(** An accepted plan update stores what was asked for: the plan it returns has the
    requested metadata and exactly the requested steps, trimmed, with their statuses;
    it is the projection of the new active graph, and the next publication puts it in
    the legacy plan. *)
Theorem plan_update_stores_request (clock : nat -> Ts) (instant : Z) (rt rt' : WorkRuntime) (s tool : list N)
    (p q : PlanSnapshot) :
  apply_plan_update clock instant rt s tool p = (rt', Ok q) ->
  q = {| plan_metadata := plan_metadata p;
         plan_items := (fun i => {| step := trim (step i); step_status := step_status i |}) <$> plan_items p |}
  /\ rt_session rt' = Some s
  /\ exists g, rt_snapshot rt' = Some g /\ validate g = Ok tt /\ project_plan g = q
       /\ forall instant', plan_view (publish_pending instant' rt').1 = q.
Proof.
  unfold apply_plan_update, locked_graph. cbn [all_free todos_free plan_free negb].
  destruct (graph_for_update rt s) as [rt1 [base|]] eqn:E; [|done]. cbn [lift].
  assert (rt_session rt1 = Some s) as Es.
  { unfold graph_for_update in E. cbn [rt_snapshot with_active] in E. destruct (rt_snapshot rt); [by injection E as <- _|].
    destruct (if _ && _ then _ else _) in E; by injection E as <- _. }
  destruct (update_plan_graph _ _ _ _ _ _) as [[g n]|] eqn:Eu; [|done]. cbn [lift fst].
  destruct (publishable_states instant g) as [r|] eqn:Ep; [|done]. cbn [lift]. intros [= <- <-].
  apply publishable_ok in Ep as (Hv & Hn & _). pose proof Hn as [Hp [l Hl]].
  split; [eapply update_plan_writes; [exact Eu|apply (valid_projection _ Hv)]|]. split; [done|].
  exists g. split_and!; [done|by apply validate_ok|done|]. intros instant'.
  unfold publish_pending, publish_pending_sync. cbn [all_free todos_free plan_free negb with_next with_active pending_publish rt_snapshot].
  rewrite (proj2 (publishable_ok instant' g (plan_from_snapshot instant' (project_plan g), l))) by done.
  by apply plan_from_snapshot_normal.
Qed.

(** A To-do row whose node has reached a final state blocks the list: every later
    update that gives its id any other status is rejected as a whole, and the active
    graph stays as it was. Numbering a new list from 1 therefore fails once the item at
    one of those positions was cancelled. *)
Theorem final_todo_row_blocks_updates (clock : nat -> Ts) (instant : Z) (rt : WorkRuntime) (s tool : list N)
    (t : TodoListSnapshot) (g : WorkGraphSnapshot) (b : CompatTodoBinding) (m : WorkNode) (item : TodoItem) :
  session rt -> rt_snapshot rt = Some g -> b ∈ todos (compat g) -> node g (todo_node b) = Some m ->
  is_terminal (state m) = true -> item ∈ items t -> todo_id item = legacy_id b ->
  todo_node_state (status item) <> state m ->
  exists rt' e, apply_todo_update clock instant rt s tool t = (rt', Err e) /\ rt_snapshot rt' = Some g.
Proof.
  intros HG%session_good Hs Hb Hm Ht Hi Eid Hne. unfold apply_todo_update, locked_graph. cbn [all_free todos_free plan_free negb].
  destruct (graph_for_update_good rt s HG) as (rt1 & g1 & -> & _ & Hs1 & _ & _ & _ & Eg). rewrite Hs in Eg. cbn in Eg. subst g1.
  cbn [lift]. destruct (update_todo_graph _ _ _ _ _ _) as [r|e] eqn:E; [|by exists rt1, e]. exfalso. apply Hne.
  destruct (good_some _ _ HG Hs) as ([Hv _] & _).
  eapply update_todo_terminal; [exact E|apply (valid_projection _ Hv)|exact Hb|done..].
Qed.

End Claims.

(** ** Concrete sessions *)

#[local] Instance sample_digest : Digest := fun s => [fold_left (fun h c => h * 1114112 + c + 1)%N s 0%N].
#[local] Instance sample_codec : LegacyCodec := fun _ _ => Some (lit "legacy").

Definition ticks : nat -> Ts := fun n => Z.of_nat n.
Definition fresh_runtime : WorkRuntime := new_shared_work_runtime todo_list_new plan_state_default.

Definition plan_of (l : list (string * StepStatus)) : PlanSnapshot :=
  {| plan_metadata := empty_plan_metadata;
     plan_items := (fun i => {| step := lit i.1; step_status := i.2 |}) <$> l |}.

Definition todos_of (l : list (N * (list N * TodoStatus))) : TodoListSnapshot :=
  todo_snapshot {| tl_items := (fun i => {| todo_id := i.1; todo_content := i.2.1; status := i.2.2 |}) <$> l; next_id := 1 |}.

Definition shell_intent : OperationIntent :=
  {| intent_external := lit "shell:42"; intent_title := lit "cargo test"; intent_durable := false;
     intent_acceptance := []; intent_source := lit "exec"; intent_call_id := lit "c1" |}.

Definition sid : list N := lit "s1".

(** A session with a plan of two steps, and a running shell. *)
Definition ops : list rt_op := [
  OPlan ticks 0 sid (lit "update_plan") (plan_of [(" read ", StepInProgress); ("write", StepPending)]);
  ORegister ticks all_free sid shell_intent;
  OObserve ticks sid (lit "shell:42") (OwnerReported OwnerRunning 3 5 None)]%string.

Definition working : WorkRuntime := fold_left exec_op ops fresh_runtime.

Lemma working_session : session working.
Proof.
  unfold working, ops. cbn [fold_left]. repeat apply session_step; [exact session_new|exact I..|].
  intros g Hg. vm_compute in Hg. injection Hg as <-. vm_compute. reflexivity.
Qed.

Definition graph_of (rt : WorkRuntime) : WorkGraphSnapshot := default snapshot_new (rt_snapshot rt).
Definition saved (rt : WorkRuntime) : WorkRuntimeSnapshot :=
  {| wr_graph := graph_of rt; wr_todos := project_todos (graph_of rt); wr_plan := project_plan (graph_of rt) |}.

Lemma session_saves_never_fail_witness : exists rt', publish_pending 0 working = (rt', Ok true).
Proof.
  destruct (session_saves_never_fail working 0 None working_session) as [(rt' & E & _) _].
  exists rt'. rewrite E. vm_compute. reflexivity.
Defined.

Lemma working_captured : capture all_free working None = ((capture all_free working None).1, Ok (Some (saved working))).
Proof. vm_compute. reflexivity. Qed.

(** What [working] saved, opened by a new process. *)
Definition resumed : WorkRuntime :=
  exec_op fresh_runtime (ORestore ticks 0 all_free sid (Some (wr_graph (saved working)))
    (wr_todos (saved working)) (wr_plan (saved working)) None).

Lemma session_invariant_witness :
  rt_snapshot resumed <> None /\ validate (graph_of resumed) = Ok tt.
Proof.
  assert (session resumed) as Hs by exact (session_restore fresh_runtime ticks 0 all_free sid _ _ None working all_free None
    _ (saved working) session_new working_session working_captured).
  split; [vm_compute; discriminate|]. pose proof (session_invariant resumed Hs) as H. unfold graph_of.
  destruct (rt_snapshot resumed) as [g|]; [exact (proj1 H)|vm_compute; reflexivity].
Defined.

Lemma working_room : room (wr_graph (saved working)).
Proof. vm_compute. reflexivity. Qed.

Lemma working_restorable :
  negb (is_none (import_digest (wr_graph (saved working)))) && compat_is_empty (compat (wr_graph (saved working))) = false.
Proof. vm_compute. reflexivity. Qed.

Lemma working_live : existsb ephemeral_live (nodes (wr_graph (saved working))) = true.
Proof. vm_compute. reflexivity. Qed.

Lemma saved_session_restores_witness :
  exists rt1 g1, (restore ticks 0 all_free fresh_runtime sid (Some (wr_graph (saved working)))
                    (wr_todos (saved working)) (wr_plan (saved working))).1 = rt1
    /\ rt_snapshot rt1 = Some g1 /\ validate g1 = Ok tt /\ pending_publish rt1 = true.
Proof.
  pose proof (saved_session_restores working (capture all_free working None).1 fresh_runtime None (saved working)
    ticks 0 sid working_session working_captured working_room) as H.
  cbv zeta in H. rewrite working_restorable, working_live in H.
  destruct H as (rt1 & g1 & r & E & H1 & H2 & _ & _ & _ & H3). exists rt1, g1. rewrite E.
  split; [reflexivity|]. split; [exact H1|]. split; [exact H2|exact H3].
Defined.

Lemma restored_operations_are_not_live_witness :
  exists g, rt_snapshot (restore ticks 0 all_free fresh_runtime sid (Some (graph_of working))
                           (wr_todos (saved working)) (wr_plan (saved working))).1 = Some g
    /\ existsb ephemeral_live (nodes (graph_of working)) = true
    /\ forall n b, n ∈ nodes g -> binding n = Some b -> durable b = false -> is_live (state n) = false.
Proof.
  set (o := restore_internal ticks 0 all_free fresh_runtime sid (Some (graph_of working))
              (wr_todos (saved working)) (wr_plan (saved working)) None).
  destruct (restored_operations_are_not_live ticks 0 all_free fresh_runtime o.1 sid (graph_of working)
    (wr_todos (saved working)) (wr_plan (saved working)) None (get_ok None o.2)) as (g & H1 & _ & _ & H2).
  - vm_compute. reflexivity.
  - exists g. split; [exact H1|]. split; [vm_compute; reflexivity|exact H2].
Defined.

(** The operation of [working]. *)
Definition shell_id : WorkNodeId := operation_id sid (lit "shell:42").
Definition late_report : rt_op := OObserve ticks sid (lit "shell:42") (OwnerReported OwnerCompleted 2 9 None).

Lemma session_loses_no_work_witness :
  exists g' n', rt_snapshot (exec_op working late_report) = Some g' /\ node g' shell_id = Some n'
    /\ (3 <= default 0 (last_seq <$> binding n'))%N.
Proof.
  set (n := match node (graph_of working) shell_id with Some n => n | None => operation_node sid shell_intent 0 end).
  destruct (session_loses_no_work working late_report (graph_of working) shell_id n) as (g' & n' & H1 & H2 & _ & _ & H3).
  - exact working_session.
  - reflexivity.
  - vm_compute. reflexivity.
  - vm_compute. reflexivity.
  - exists g', n'. split; [exact H1|]. split; [exact H2|]. revert H3.
    replace (binding n) with (Some {| external := lit "shell:42"; durable := false; last_observation :=
      Some {| owner_state := OwnerRunning; obs_seq := 3; observed_at := 5; output := None |} |}) by (vm_compute; reflexivity).
    destruct (binding n') as [b'|]; [|intros []]. intros (_ & _ & Hseq). exact Hseq.
Defined.

Definition one_step : PlanSnapshot := plan_of [(" read "%string, StepCompleted)].

Lemma plan_update_stores_request_witness :
  plan_items (get_ok one_step (apply_plan_update ticks 0 fresh_runtime sid (lit "update_plan") one_step).2)
  = [{| step := lit "read"; step_status := StepCompleted |}].
Proof.
  set (o := apply_plan_update ticks 0 fresh_runtime sid (lit "update_plan") one_step).
  destruct (plan_update_stores_request ticks 0 fresh_runtime o.1 sid (lit "update_plan") one_step (get_ok one_step o.2))
    as [-> _]; vm_compute; reflexivity.
Defined.

(** ** Sessions that get stuck *)

Definition one_todo (t : string) (st : TodoStatus) : TodoListSnapshot := todos_of [(1%N, (lit t, st))].
Definition cancelled : WorkRuntime := exec_op fresh_runtime (OTodo ticks 0 sid (lit "todo_write") (one_todo "x" TodoCancelled)).

Lemma cancelled_session : session cancelled.
Proof. apply session_step; [exact session_new|exact I]. Qed.

Lemma final_todo_row_blocks_updates_witness :
  exists rt' e, apply_todo_update ticks 0 cancelled sid (lit "todo_write") (one_todo "y" TodoPending) = (rt', Err e).
Proof.
  set (b := {| legacy_id := 1; todo_node := todo_node_id sid 1; plan_index := None |}).
  set (m := match node (graph_of cancelled) (todo_node b) with Some m => m | None => operation_node sid shell_intent 0 end).
  destruct (final_todo_row_blocks_updates ticks 0 cancelled sid (lit "todo_write") (one_todo "y" TodoPending)
    (graph_of cancelled) b m {| todo_id := 1; todo_content := lit "y"; status := TodoPending |}) as (rt' & e & H & _).
  - exact cancelled_session.
  - vm_compute. reflexivity.
  - replace (todos (compat (graph_of cancelled))) with [b] by (vm_compute; reflexivity). left.
  - vm_compute. reflexivity.
  - vm_compute. reflexivity.
  - left.
  - reflexivity.
  - vm_compute. discriminate.
  - exists rt', e. exact H.
Defined.

(** A legacy session with one To-do item, and the session after the list was emptied. *)
Definition imported : rt_op := ORestore ticks 0 all_free sid None (one_todo "x" TodoPending) (plan_of []) None.
Definition imported_graph : WorkGraphSnapshot := get_ok snapshot_new (import_legacy sid (plan_of []) (one_todo "x" TodoPending)).
Definition emptied : WorkRuntime :=
  fold_left exec_op [imported; OTodo ticks 0 sid (lit "todo_write") (todos_of [])] fresh_runtime.

(** An imported session whose To-do list is emptied is saved and can never be
    opened again: the operations are those of a session, the save succeeds, and every
    restore of what it returned is refused, in any runtime and at any time. *)
Theorem emptied_import_cannot_be_restored (rt0 : WorkRuntime) (clock : nat -> Ts) (instant : Z) (s : list N) :
  session emptied
  /\ exists rt' w, capture all_free emptied None = (rt', Ok (Some w))
       /\ restore clock instant all_free rt0 s (Some (wr_graph w)) (wr_todos w) (wr_plan w) = (rt0, Err MissingProjections).
Proof.
  assert (session emptied) as Hs.
  { unfold emptied. cbn [fold_left]. repeat apply session_step; [exact session_new| |exact I].
    intros g Hg. assert (g = imported_graph) as -> by (unfold imported_graph; by rewrite Hg).
    vm_compute. lia. }
  split; [done|]. exists (capture all_free emptied None).1, (saved emptied).
  assert (capture all_free emptied None = ((capture all_free emptied None).1, Ok (Some (saved emptied)))) as Hc
    by (vm_compute; reflexivity).
  split; [exact Hc|]. apply (restore_refused _ _ _ _ _ _ _ _ (session_good _ Hs) Hc); vm_compute; reflexivity.
Qed.

(** A legacy session whose plan has its first step in progress, and whose To-do list
    marks the second one. *)
Definition aliased_todos : TodoListSnapshot :=
  todos_of [(1%N, (lit "b" ++ PLAN_PROVENANCE_PREFIX ++ lit "1" ++ PLAN_PROVENANCE_SUFFIX, TodoInProgress))].
Definition aliased_plan : PlanSnapshot := plan_of [("a", StepInProgress); ("b", StepPending)]%string.
Definition aliased : WorkRuntime := (restore ticks 0 all_free fresh_runtime sid None aliased_todos aliased_plan).1.
Definition reopened : WorkRuntime :=
  (restore ticks 0 all_free fresh_runtime sid (Some (graph_of aliased)) (wr_todos (saved aliased)) (wr_plan (saved aliased))).1.

(** The import can produce a session that cannot be published: it takes the more
    advanced state of a plan step and its To-do item for each step alone, so a plan
    with one step in progress and a To-do item in progress on another step give a valid
    graph with two steps in progress. Publication is refused at every attempt, the save
    succeeds, and after the saved session is opened again every save fails. *)
Theorem aliased_import_cannot_be_published (instant : Z) (s : option (list N)) :
  validate (graph_of aliased) = Ok tt /\ pending_publish aliased = true
  /\ publish_pending instant aliased = (aliased, Err PlanInconsistent)
  /\ (capture all_free aliased None).2 = Ok (Some (saved aliased))
  /\ rt_snapshot reopened = Some (graph_of aliased)
  /\ (capture all_free reopened s).2 = Err ViewsDisagree.
Proof.
  split_and!; vm_compute; reflexivity.
Qed.

End WgSessionTheorems.
