(* ===== verification/WgDigest.v ===== *)
(** * The operation digest (crates/tui/src/work_graph/digest.rs)

    The plain-text rendering of the operations of a graph and of the To-do list, and
    that it can be read back: on a valid graph every line of the text is one operation,
    one To-do row or a fixed heading, in the documented order. *)

From stdpp Require Import base list option strings sorting pretty sets.
From Stdlib Require Import Lia NArith ZArith.
From S2P Require Import Prelude RustStr WgModel WgValidate WgSearch WgSpec WgReducer WgProjection.
From S2P Require Import WgLegacy WgImport WgRuntime WgTheorems.

Module WgDigest.
Import WgModel WgValidate WgSpec WgProjection WgRuntime WgTheorems.

(** ** Sorting by a pair

    [slice::sort_by_key] is stable; the key is a rank and a number. *)
Section SortByPair.
Context {A : Type} (rank : A -> nat) (number : A -> Z).

Definition pair_leb (x y : A) : bool :=
  (rank x <? rank y) || ((rank x =? rank y) && (number x <=? number y)%Z).

Definition pair_le (x y : A) : Prop := rank x < rank y \/ (rank x = rank y /\ (number x <= number y)%Z).

Fixpoint insert_by_pair (x : A) (l : list A) : list A :=
  match l with
  | [] => [x]
  | y :: l' => if pair_leb x y then x :: l else y :: insert_by_pair x l'
  end.

Fixpoint sort_by_pair (l : list A) : list A :=
  match l with
  | [] => []
  | x :: l' => insert_by_pair x (sort_by_pair l')
  end.

Lemma pair_leb_le x y : pair_leb x y = true <-> pair_le x y.
Proof. unfold pair_leb, pair_le. rewrite orb_true_iff, andb_true_iff, Nat.ltb_lt, Nat.eqb_eq, Z.leb_le. done. Qed.

Lemma pair_leb_gt x y : pair_leb x y = false -> pair_le y x.
Proof.
  unfold pair_leb, pair_le. rewrite orb_false_iff, andb_false_iff, Nat.ltb_ge, Nat.eqb_neq, Z.leb_gt. lia.
Qed.

#[global] Instance pair_le_trans : Transitive pair_le.
Proof. unfold pair_le. intros x y z. lia. Qed.

Lemma insert_by_pair_perm x l : insert_by_pair x l ≡ₚ x :: l.
Proof.
  induction l as [|y l IH]; cbn; [done|]. destruct (pair_leb x y); [done|]. rewrite IH. apply Permutation_swap.
Qed.

Lemma sort_by_pair_perm l : sort_by_pair l ≡ₚ l.
Proof. induction l as [|x l IH]; cbn; [done|]. by rewrite insert_by_pair_perm, IH. Qed.

Lemma sort_by_pair_sorted l : StronglySorted pair_le (sort_by_pair l).
Proof.
  induction l as [|x l IH]; cbn; [constructor|].
  induction IH as [|y k Hk IHk Hy]; cbn; [repeat constructor|]. destruct (pair_leb x y) eqn:E.
  - apply pair_leb_le in E. constructor; [by constructor|]. constructor; [done|].
    eapply Forall_impl; [exact Hy|]. intros z Hz. by etransitivity.
  - constructor; [done|]. rewrite insert_by_pair_perm. constructor; [by apply pair_leb_gt|done].
Qed.

End SortByPair.

(** ** The rendering *)

Definition digest_rank (s : NodeState) : nat :=
  match s with
  | Active | Initializing => 0
  | Waiting => 1
  | Blocked | Stale => 2
  | Ready => 3
  | Failed => 4
  | Completed => 5
  | Verified => 6
  | Cancelled | Superseded => 7
  end.

Definition state_label (s : NodeState) : list N :=
  lit match s with
      | Ready => "ready" | Initializing => "starting" | Active => "running" | Waiting => "waiting"
      | Blocked => "blocked" | Completed => "ended" | Verified => "verified" | Stale => "stale"
      | Superseded => "superseded" | Cancelled => "cancelled" | Failed => "failed"
      end.

Definition todo_rank (i : TodoItem) : nat :=
  match status i with TodoInProgress => 0 | TodoPending => 1 | TodoCompleted => 2 | TodoCancelled => 3 end.

Definition todo_label (s : TodoStatus) : list N :=
  lit match s with
      | TodoPending => "pending" | TodoInProgress => "running" | TodoCompleted => "completed" | TodoCancelled => "cancelled"
      end.

Definition one_line (value : list N) : list N := str_join [c_space] (split_whitespace value).

(** The format [{:<10}]. *)
Definition pad10 (s : list N) : list N := s ++ replicate (10 - length s) c_space.

Definition operation_row (n : WorkNode) : list N :=
  lit "  " ++ pad10 (state_label (state n)) ++ lit " "
  ++ match binding n with Some b => external b | None => lit "unbound" end
  ++ [c_space; 183%N; c_space] ++ one_line (title n).

Definition todo_row (i : TodoItem) : list N :=
  lit "  " ++ pad10 (todo_label (status i)) ++ lit " #" ++ dec (todo_id i)
  ++ [c_space; 183%N; c_space] ++ one_line (todo_content i).

Definition digest_operations (g : WorkGraphSnapshot) : list WorkNode :=
  sort_by_pair (fun n => digest_rank (state n)) updated_at
    (List.filter (fun n => bool_decide (node_kind n = Operation)) (nodes g)).

Definition digest_todos (todos : TodoListSnapshot) : list TodoItem :=
  sort_by_pair todo_rank (fun i => Z.of_N (todo_id i)) (items todos).

Definition nothing_active : list N := lit "No active operations or to-do items.".

Definition section (heading : list N) (rows : list (list N)) : list N :=
  match rows with
  | [] => []
  | _ => [c_nl] ++ heading ++ [c_nl] ++ (rows ≫= fun r => r ++ [c_nl])
  end.

Definition format_operation_digest_parts (g : WorkGraphSnapshot) (todos : TodoListSnapshot) : list N :=
  let operations := digest_operations g in
  let todo_items := digest_todos todos in
  match operations, todo_items with
  | [], [] => nothing_active
  | _, _ =>
      trim_end_matches is_whitespace
        (lit "Operation digest" ++ [c_nl] ++ section (lit "Operations") (operation_row <$> operations)
         ++ section (lit "To-do") (todo_row <$> todo_items))
  end.

Definition format_operation_digest (snapshot : option WorkRuntimeSnapshot) : list N :=
  match snapshot with
  | None => nothing_active
  | Some s => format_operation_digest_parts (wr_graph s) (wr_todos s)
  end.

(** ** Reading the digest back *)

Definition section_lines (heading : list N) (rows : list (list N)) : list (list N) :=
  match rows with [] => [] | _ => [] :: heading :: rows end.

Definition digest_lines (g : WorkGraphSnapshot) (todos : TodoListSnapshot) : list (list N) :=
  [lit "Operation digest"] ++ section_lines (lit "Operations") (operation_row <$> digest_operations g)
  ++ section_lines (lit "To-do") (todo_row <$> digest_todos todos).

Lemma section_text heading rows :
  section heading rows = section_lines heading rows ≫= fun r => r ++ [c_nl].
Proof. destruct rows as [|r rows]; [done|]. cbn. by rewrite <- !app_assoc. Qed.

Lemma lines_text l : l <> [] -> (l ≫= fun r => r ++ [c_nl]) = str_join [c_nl] l ++ [c_nl].
Proof.
  induction l as [|r [|r' l] IH]; intros Hne; [done|by cbn; rewrite app_nil_r|].
  rewrite str_join_cons, <- !app_assoc, <- IH by done. cbn. by rewrite <- !app_assoc.
Qed.

Lemma digest_text g todos :
  lit "Operation digest" ++ [c_nl] ++ section (lit "Operations") (operation_row <$> digest_operations g)
  ++ section (lit "To-do") (todo_row <$> digest_todos todos)
  = digest_lines g todos ≫= fun r => r ++ [c_nl].
Proof. unfold digest_lines. rewrite !bind_app, !section_text. done. Qed.

Lemma str_join_snoc sep l x : l <> [] -> str_join sep (l ++ [x]) = str_join sep l ++ sep ++ x.
Proof.
  induction l as [|r [|r' l] IH]; intros Hne; [done|done|].
  change ((r :: r' :: l) ++ [x]) with (r :: (r' :: l) ++ [x]).
  change ((r' :: l) ++ [x]) with (r' :: (l ++ [x])).
  rewrite !str_join_cons, <- !app_assoc. do 2 f_equal. by apply IH.
Qed.

(** Trailing blanks stop at the last line that is not blank. *)
Lemma trim_end_last p a b c :
  p c = false -> trim_end_matches p (a ++ c :: b) = a ++ trim_end_matches p (c :: b).
Proof.
  intros Hc. unfold trim_end_matches. rewrite reverse_app.
  rewrite (drop_while_app_keep p (reverse (c :: b)) (reverse a) c).
  - by rewrite reverse_app, reverse_involutive.
  - rewrite elem_of_reverse. left.
  - done.
Qed.

Lemma trim_end_text init last c rest pre :
  last = pre ++ c :: rest -> is_whitespace c = false -> init <> [] ->
  trim_end_matches is_whitespace (str_join [c_nl] (init ++ [last]) ++ [c_nl])
  = str_join [c_nl] (init ++ [trim_end_matches is_whitespace last]).
Proof.
  intros -> Hc Hne. rewrite !str_join_snoc by done.
  replace ((str_join [c_nl] init ++ [c_nl] ++ pre ++ c :: rest) ++ [c_nl])
    with ((str_join [c_nl] init ++ [c_nl] ++ pre) ++ c :: (rest ++ [c_nl])) by (by rewrite <- !app_assoc).
  rewrite !trim_end_last, <- !app_assoc by done. do 3 f_equal. 
  unfold trim_end_matches. rewrite !reverse_cons, reverse_app. cbn [app drop_while].
  done.
Qed.

(** ** Rows are single lines *)

Lemma no_nl l : contains_char c_nl l = false -> c_nl ∉ l.
Proof. intros Hl. by rewrite <- contains_char_spec, Hl. Qed.

Lemma str_join_no_sep sep l c : Forall (fun w => c ∉ w) l -> c ∉ sep -> c ∉ str_join sep l.
Proof.
  intros Hl Hs. induction Hl as [|w [|w' l] Hw Hl IH]; [apply not_elem_of_nil|done|].
  rewrite str_join_cons, !not_elem_of_app. auto.
Qed.

Lemma one_line_no_nl value : c_nl ∉ one_line value.
Proof.
  apply str_join_no_sep; [|set_solver]. eapply Forall_impl; [apply split_whitespace_is_word|].
  intros w [_ Hw] Hin. by apply (proj1 (Forall_forall _ _) Hw) in Hin.
Qed.

Lemma pad10_no_nl s : c_nl ∉ s -> c_nl ∉ pad10 s.
Proof. intros Hs. unfold pad10. rewrite not_elem_of_app. split; [done|]. intros [? _]%elem_of_replicate. done. Qed.

Lemma plain_identity_no_nl id : plain_identity id = true -> c_nl ∉ id.
Proof.
  unfold plain_identity. intros [_ Hid]%andb_true_iff Hin. apply negb_true_iff, not_true_iff_false in Hid.
  apply Hid. apply existsb_elem_of. by exists c_nl.
Qed.

Lemma well_formed_no_nl x : external_identity_is_well_formed x = true -> c_nl ∉ x.
Proof.
  unfold external_identity_is_well_formed. destruct (strip_prefix (lit "fleet:") x) as [rest|] eqn:E.
  - apply strip_prefix_spec in E as ->. destruct (split_once c_slash rest) as [[run task]|] eqn:Es; [|done].
    apply split_once_some in Es as [-> _]. intros [Hr Ht]%andb_true_iff.
    apply plain_identity_no_nl in Hr, Ht. rewrite !not_elem_of_app, not_elem_of_cons.
    split_and!; [by apply no_nl|done|done|done].
  - intros (prefix & Hp & Hm)%existsb_elem_of. destruct (strip_prefix prefix x) as [id|] eqn:Ep; [|done].
    apply strip_prefix_spec in Ep as ->. apply plain_identity_no_nl in Hm. rewrite not_elem_of_app. split; [|done].
    clear -Hp. apply no_nl. unfold identity_prefixes in Hp. cbn [fmap list_fmap] in Hp.
    by repeat (apply elem_of_cons in Hp as [->|Hp]; [done|]); apply not_elem_of_nil in Hp.
Qed.

Lemma operation_row_no_nl g n : bindings_identified g -> n ∈ nodes g -> c_nl ∉ operation_row n.
Proof.
  intros [_ Hg] Hn. unfold operation_row. rewrite !not_elem_of_app. split_and!.
  - by apply no_nl.
  - apply pad10_no_nl. destruct (state n); by apply no_nl.
  - by apply no_nl.
  - destruct (binding n) as [b|] eqn:Eb; [|by apply no_nl]. apply well_formed_no_nl, Hg.
    apply list_elem_of_omap. exists n. by rewrite Eb.
  - set_solver.
  - apply one_line_no_nl.
Qed.

Lemma todo_row_no_nl i : c_nl ∉ todo_row i.
Proof.
  unfold todo_row. rewrite !not_elem_of_app. split_and!.
  - by apply no_nl.
  - apply pad10_no_nl. destruct (status i); by apply no_nl.
  - by apply no_nl.
  - intros Hin. by apply (proj1 (Forall_forall _ _) (dec_digits (todo_id i))) in Hin.
  - set_solver.
  - apply one_line_no_nl.
Qed.

(** The third character of a row is the first one of its label. *)
Lemma row_visible (r : list N) :
  (exists n, r = operation_row n) \/ (exists i, r = todo_row i) ->
  exists pre c rest, r = pre ++ c :: rest /\ is_whitespace c = false.
Proof.
  intros [[n ->]|[i ->]].
  - unfold operation_row. destruct (state n); eexists (lit "  "), _, _; (split; [reflexivity|reflexivity]).
  - unfold todo_row. destruct (status i); eexists (lit "  "), _, _; (split; [reflexivity|reflexivity]).
Qed.

Lemma elem_of_digest_operations g n : n ∈ digest_operations g <-> n ∈ nodes g /\ node_kind n = Operation.
Proof.
  unfold digest_operations. rewrite sort_by_pair_perm, list_elem_of_In, List.filter_In, <- list_elem_of_In.
  by rewrite bool_decide_eq_true.
Qed.

Lemma digest_lines_no_nl g todos : bindings_identified g -> Forall (fun r => c_nl ∉ r) (digest_lines g todos).
Proof.
  intros Hg. unfold digest_lines.
  assert (Hsec : forall h rows, c_nl ∉ h -> Forall (fun r => c_nl ∉ r) rows -> Forall (fun r => c_nl ∉ r) (section_lines h rows)).
  { intros h [|r rows] Hh Hr; cbn; [constructor|]. constructor; [set_solver|]. by constructor. }
  repeat apply Forall_app_2; [constructor; [|constructor]| |]; [by apply no_nl| |].
  - apply Hsec; [by apply no_nl|]. apply Forall_fmap, Forall_forall. intros n [Hn _]%elem_of_digest_operations.
    by eapply operation_row_no_nl.
  - apply Hsec; [by apply no_nl|]. apply Forall_fmap, Forall_forall. intros i _. apply todo_row_no_nl.
Qed.

(** The text ends in a row. *)
Lemma digest_lines_end g todos :
  digest_operations g <> [] \/ digest_todos todos <> [] ->
  exists init row, digest_lines g todos = init ++ [row] /\ init <> []
    /\ ((exists n, row = operation_row n) \/ (exists i, row = todo_row i)).
Proof.
  intros Hne. unfold digest_lines.
  destruct (digest_todos todos) as [|i ts _] eqn:Ei using rev_ind.
  - destruct (digest_operations g) as [|n ns _] eqn:En using rev_ind; [by destruct Hne|].
    rewrite fmap_app. cbn [fmap list_fmap section_lines app]. 
    eexists (lit "Operation digest" :: [] :: lit "Operations" :: (operation_row <$> ns)), (operation_row n).
    split_and!; [|done|left; by exists n]. rewrite app_nil_r. by destruct ns.
  - rewrite fmap_app. cbn [fmap list_fmap].
    eexists ([lit "Operation digest"] ++ section_lines (lit "Operations") (operation_row <$> digest_operations g)
             ++ [] :: lit "To-do" :: (todo_row <$> ts)), (todo_row i).
    split_and!; [|done|right; by exists i]. rewrite <- !app_assoc. by destruct ts.
Qed.

(** The digest of a valid graph can be read back line by line. Unless there is
    nothing to show, its lines are a title, a blank line and a heading in front of the
    operations, the same in front of the To-do items, and between them one line per
    operation of the graph and one per item, nothing else: no title, identity or
    content can start a line of its own or forge a row. Running work comes first,
    within a rank older changes or smaller numbers do. Only the blanks at the end of
    the last row are cut. *)
Theorem digest_reads_back g todos :
  validate g = Ok tt ->
  digest_operations g <> [] \/ digest_todos todos <> [] ->
  (exists init row, digest_lines g todos = init ++ [row]
     /\ split_char c_nl (format_operation_digest_parts g todos) = init ++ [trim_end_matches is_whitespace row])
  /\ digest_operations g ≡ₚ List.filter (fun n => bool_decide (node_kind n = Operation)) (nodes g)
  /\ digest_todos todos ≡ₚ items todos
  /\ StronglySorted (pair_le (fun n => digest_rank (state n)) updated_at) (digest_operations g)
  /\ StronglySorted (pair_le todo_rank (fun i => Z.of_N (todo_id i))) (digest_todos todos).
Proof.
  intros Hg%validate_ok Hne.
  split; [|split_and!; [apply sort_by_pair_perm|apply sort_by_pair_perm|apply sort_by_pair_sorted|apply sort_by_pair_sorted]].
  destruct (digest_lines_end _ _ Hne) as (init & row & Hl & Hi & Hrow). exists init, row. split; [done|].
  destruct (row_visible row Hrow) as (pre & c & rest & Hr & Hc).
  pose proof (digest_lines_no_nl g todos (valid_v6 _ Hg)) as Hno. rewrite Hl in Hno.
  apply Forall_app in Hno as [Hni Hnr].
  replace (format_operation_digest_parts g todos)
    with (str_join [c_nl] (init ++ [trim_end_matches is_whitespace row])).
  - apply split_char_join; [by destruct init|]. apply Forall_app. split; [done|]. constructor; [|constructor].
    intros Hin. apply (proj1 (Forall_singleton _ _) Hnr).
    destruct (trim_end_matches_prefix is_whitespace row) as [k [Hk _]]. rewrite Hk. set_solver.
  - rewrite <- (trim_end_text init row c rest pre) by done. rewrite <- Hl, <- lines_text by done.
    rewrite <- digest_text. unfold format_operation_digest_parts.
    by destruct (digest_operations g), (digest_todos todos); [destruct Hne|..].
Qed.

Definition two_todos : TodoListSnapshot :=
  {| items := [{| todo_id := 1; todo_content := lit "later" ++ [c_nl] ++ lit "on"; status := TodoPending |};
               {| todo_id := 2; todo_content := lit "now"; status := TodoInProgress |}];
     completion_pct := 0; in_progress_id := Some 2%N |}.

Lemma digest_reads_back_witness :
  exists init row, digest_lines sample two_todos = init ++ [row]
    /\ split_char c_nl (format_operation_digest_parts sample two_todos) = init ++ [trim_end_matches is_whitespace row].
Proof.
  apply (digest_reads_back sample two_todos); [vm_compute; reflexivity|right; vm_compute; discriminate].
Defined.

Example digest_text_example :
  let row a b := lit a ++ [c_space; 183%N; c_space] ++ lit b in
  split_char c_nl (format_operation_digest_parts sample two_todos)
  = [lit "Operation digest"; []; lit "Operations"; row "  running    shell:42" "wn:op"; []; lit "To-do";
     row "  running    #2" "now"; row "  pending    #1" "later on"].
Proof. vm_compute. reflexivity. Qed.

End WgDigest.
