(* ===== verification/WfReview.v ===== *)
(** * The review and repair loop (crates/workflow/src/review_repair.rs)

    A bounded loop over one lane's artifact: the ceilings, the receipts of an
    iteration, the reasons it stops, and the human decision it may wait for. An
    operation returns the loop it leaves and its result, because a refusal that stops
    the loop changes it too. *)

From stdpp Require Import base list option strings.
From Stdlib Require Import Lia NArith.
From S2P Require Import Prelude RustStr RustNum.

Module WfReview.

(** ** Data *)

Record ReviewRepairBounds : Type := {
  max_iterations : N;
  max_wall_clock_secs : N;
  max_tool_calls : N
}.

Definition conservative : ReviewRepairBounds :=
  {| max_iterations := 3; max_wall_clock_secs := 900; max_tool_calls := 120 |}.

Inductive RoutedBy : Type :=
  | Fleet
  | Router (provider model : list N)
  | SessionDefault.

Definition routed_by_label (r : RoutedBy) : list N :=
  match r with
  | Fleet => lit "fleet"
  | Router provider model => lit "router " ++ provider ++ lit "/" ++ model
  | SessionDefault => lit "session default"
  end.

Record RouteReceipt : Type := {
  role : list N;
  provider : list N;
  model : list N;
  requested_reasoning : list N;
  effective_reasoning : list N;
  routed_by : RoutedBy
}.

Definition is_complete (r : RouteReceipt) : bool :=
  negb (str_is_empty (trim (role r))) && negb (str_is_empty (trim (provider r)))
  && negb (str_is_empty (trim (model r))) && negb (str_is_empty (trim (requested_reasoning r)))
  && negb (str_is_empty (trim (effective_reasoning r))).

Definition display_line (r : RouteReceipt) : list N :=
  let reasoning :=
    if str_eqb (requested_reasoning r) (effective_reasoning r) then effective_reasoning r
    else requested_reasoning r ++ [8594%N] ++ effective_reasoning r in
  role r ++ lit ": " ++ provider r ++ lit "/" ++ model r ++ lit " reasoning " ++ reasoning
  ++ lit " (routed by " ++ routed_by_label (routed_by r) ++ lit ")".

Inductive IterationVerdict : Type := Clean | RepairsNeeded | VerdictInconclusive.

Record IterationReceipt : Type := {
  iteration : N;
  input_digest : list N;
  reviewer : RouteReceipt;
  verifier : option RouteReceipt;
  verdict : IterationVerdict;
  finding_summaries : list (list N);
  receipt_tool_calls : N;
  receipt_secs : N
}.

Inductive StopReason : Type :=
  | Verified
  | RatificationDeclined (note : list N)
  | AwaitingRatification
  | IterationCeiling (max : N)
  | TimeCeiling (max elapsed : N)
  | ToolCeiling (max used : N)
  | StaleInput (pinned reported : list N)
  | Inconclusive (reason : list N).

Definition is_success (r : StopReason) : bool := match r with Verified => true | _ => false end.

Definition is_ceiling (r : StopReason) : bool :=
  match r with IterationCeiling _ | TimeCeiling _ _ | ToolCeiling _ _ => true | _ => false end.

Definition receipt (r : StopReason) : list N :=
  match r with
  | Verified => lit "verified"
  | RatificationDeclined note => lit "ratification declined: " ++ note
  | AwaitingRatification => lit "clean; awaiting human ratification before this counts as done"
  | IterationCeiling max => lit "stopped at the iteration ceiling (" ++ dec max ++ lit ")"
  | TimeCeiling max elapsed => lit "stopped at the time ceiling (" ++ dec elapsed ++ lit "s of " ++ dec max ++ lit "s)"
  | ToolCeiling max used => lit "stopped at the tool ceiling (" ++ dec used ++ lit " of " ++ dec max ++ lit " calls)"
  | StaleInput pinned reported =>
      lit "stopped: input changed under review (pinned " ++ pinned ++ lit ", reported " ++ reported ++ lit ")"
  | Inconclusive reason => lit "stopped: no usable verdict (" ++ reason ++ lit ")"
  end.

Record ReviewRepairPolicy : Type := {
  require_human_ratification : bool;
  require_verifier_receipt : bool
}.

Definition policy_default : ReviewRepairPolicy :=
  {| require_human_ratification := true; require_verifier_receipt := true |}.

Record ReviewRepairLoop : Type := {
  lane_id : list N;
  bounds : ReviewRepairBounds;
  policy : ReviewRepairPolicy;
  pinned_input_digest : list N;
  iterations : list IterationReceipt;
  elapsed_secs : N;
  tool_calls_used : N;
  stopped : option StopReason
}.

Inductive ReviewRepairError : Type :=
  | AlreadyStopped (reason : StopReason)
  | Stopped (reason : StopReason)
  | IncompleteReceipt (detail : list N).

Definition error_stop_reason (e : ReviewRepairError) : option StopReason :=
  match e with AlreadyStopped reason | Stopped reason => Some reason | IncompleteReceipt _ => None end.

Definition error_display (e : ReviewRepairError) : list N :=
  match e with
  | AlreadyStopped reason => lit "review-repair already stopped: " ++ receipt reason
  | Stopped reason => receipt reason
  | IncompleteReceipt detail => lit "review-repair receipt is unusable: " ++ detail
  end.

(** ** Operations *)

Definition loop_new (lane digest : list N) (b : ReviewRepairBounds) (p : ReviewRepairPolicy) : ReviewRepairLoop :=
  {| lane_id := lane; bounds := b; policy := p; pinned_input_digest := digest; iterations := [];
     elapsed_secs := 0; tool_calls_used := 0; stopped := None |}.

Definition set_stopped (l : ReviewRepairLoop) (reason : StopReason) : ReviewRepairLoop :=
  {| lane_id := lane_id l; bounds := bounds l; policy := policy l; pinned_input_digest := pinned_input_digest l;
     iterations := iterations l; elapsed_secs := elapsed_secs l; tool_calls_used := tool_calls_used l;
     stopped := Some reason |}.

(** [self.stop(reason)], returned as an error. *)
Definition stop {A : Type} (l : ReviewRepairLoop) (reason : StopReason) : ReviewRepairLoop * result A ReviewRepairError :=
  (set_stopped l reason, Err (Stopped reason)).

(** [self.stopped = Some(reason); Ok(Some(reason))]. *)
Definition finish (l : ReviewRepairLoop) (reason : StopReason)
    : ReviewRepairLoop * result (option StopReason) ReviewRepairError :=
  (set_stopped l reason, Ok (Some reason)).

(** [self.iterations.len() as u32]. *)
Definition count_u32 (l : ReviewRepairLoop) : N := (N.of_nat (length (iterations l)) mod u32_modulus)%N.

(** The addition in [len() as u32 + 1] wraps as in a release build; the theorems show
    that loops driven as documented do not reach the wrap-around. *)
Definition begin_iteration (l : ReviewRepairLoop) : ReviewRepairLoop * result N ReviewRepairError :=
  match stopped l with
  | Some reason => (l, Err (AlreadyStopped reason))
  | None =>
      let next := ((count_u32 l + 1) mod u32_modulus)%N in
      if (max_iterations (bounds l) <? next)%N then stop l (IterationCeiling (max_iterations (bounds l)))
      else if (max_wall_clock_secs (bounds l) <=? elapsed_secs l)%N
      then stop l (TimeCeiling (max_wall_clock_secs (bounds l)) (elapsed_secs l))
      else if (max_tool_calls (bounds l) <=? tool_calls_used l)%N
      then stop l (ToolCeiling (max_tool_calls (bounds l)) (tool_calls_used l))
      else (l, Ok next)
  end.

Definition u64_max : N := 18446744073709551615.

(** The spend is added and the receipt kept. *)
Definition push_receipt (l : ReviewRepairLoop) (r : IterationReceipt) : ReviewRepairLoop :=
  {| lane_id := lane_id l; bounds := bounds l; policy := policy l; pinned_input_digest := pinned_input_digest l;
     iterations := iterations l ++ [r];
     elapsed_secs := N.min (elapsed_secs l + receipt_secs r) u64_max;
     tool_calls_used := N.min (tool_calls_used l + receipt_tool_calls r) u32_max;
     stopped := stopped l |}.

(** What is decided once the receipt is on the record. *)
Definition decide_next (l : ReviewRepairLoop) (v : IterationVerdict)
    : ReviewRepairLoop * result (option StopReason) ReviewRepairError :=
  if (max_tool_calls (bounds l) <? tool_calls_used l)%N
  then finish l (ToolCeiling (max_tool_calls (bounds l)) (tool_calls_used l))
  else if (max_wall_clock_secs (bounds l) <? elapsed_secs l)%N
  then finish l (TimeCeiling (max_wall_clock_secs (bounds l)) (elapsed_secs l))
  else match v with
  | VerdictInconclusive => finish l (Inconclusive (lit "reviewer returned no usable verdict"))
  | Clean => finish l (if require_human_ratification (policy l) then AwaitingRatification else Verified)
  | RepairsNeeded =>
      if (max_iterations (bounds l) <=? count_u32 l)%N then finish l (IterationCeiling (max_iterations (bounds l)))
      else (l, Ok None)
  end.

Definition record_iteration (l : ReviewRepairLoop) (r : IterationReceipt)
    : ReviewRepairLoop * result (option StopReason) ReviewRepairError :=
  match stopped l with
  | Some reason => (l, Err (AlreadyStopped reason))
  | None =>
      if negb (str_eqb (input_digest r) (pinned_input_digest l))
      then stop l (StaleInput (pinned_input_digest l) (input_digest r))
      else if negb (is_complete (reviewer r))
      then (l, Err (IncompleteReceipt (lit "reviewer route for iteration " ++ dec (iteration r)
                                       ++ lit " is missing identity fields")))
      else
        let accept := decide_next (push_receipt l r) (verdict r) in
        if require_verifier_receipt (policy l) then
          match verifier r with
          | None => stop l (Inconclusive (lit "policy requires a verifier receipt and none was produced"))
          | Some v =>
              if negb (is_complete v)
              then (l, Err (IncompleteReceipt (lit "verifier route for iteration " ++ dec (iteration r)
                                               ++ lit " is missing identity fields")))
              else accept
          end
        else accept
  end.

Definition ratify (l : ReviewRepairLoop) (approved : bool) (note : list N)
    : ReviewRepairLoop * result StopReason ReviewRepairError :=
  match stopped l with
  | Some AwaitingRatification =>
      let reason := if approved then Verified else RatificationDeclined note in
      (set_stopped l reason, Ok reason)
  | Some other => (l, Err (AlreadyStopped other))
  | None => (l, Err (IncompleteReceipt (lit "the loop has not produced a clean result to ratify")))
  end.

Definition route_lines (l : ReviewRepairLoop) : list (list N) :=
  iterations l ≫= fun i =>
    (lit "#" ++ dec (iteration i) ++ lit " " ++ display_line (reviewer i))
    :: match verifier i with
       | Some v => [lit "#" ++ dec (iteration i) ++ lit " " ++ display_line v]
       | None => []
       end.

Definition budget_line (l : ReviewRepairLoop) : list N :=
  lit "iterations " ++ dec (N.of_nat (length (iterations l))) ++ lit "/" ++ dec (max_iterations (bounds l))
  ++ lit ", tools " ++ dec (tool_calls_used l) ++ lit "/" ++ dec (max_tool_calls (bounds l))
  ++ lit ", elapsed " ++ dec (elapsed_secs l) ++ lit "s/" ++ dec (max_wall_clock_secs (bounds l)) ++ lit "s".

(** ** Runs

    Any caller: a sequence of operations in any order. *)

Inductive review_op : Type :=
  | Begin
  | Record_ (r : IterationReceipt)
  | Ratify (approved : bool) (note : list N).

Definition exec (l : ReviewRepairLoop) (o : review_op) : ReviewRepairLoop :=
  match o with
  | Begin => (begin_iteration l).1
  | Record_ r => (record_iteration l r).1
  | Ratify approved note => (ratify l approved note).1
  end.

Definition exec_all (l : ReviewRepairLoop) (os : list review_op) : ReviewRepairLoop := fold_left exec os l.

(** The caller the documentation describes: an iteration is claimed before it is run and
    recorded after. *)
Definition round (l : ReviewRepairLoop) (r : IterationReceipt) : ReviewRepairLoop :=
  match begin_iteration l with
  | (l', Ok _) => (record_iteration l' r).1
  | (l', Err _) => l'
  end.

Definition rounds (l : ReviewRepairLoop) (rs : list IterationReceipt) : ReviewRepairLoop := fold_left round rs l.

(** A receipt the loop can use. *)
Definition usable (p : ReviewRepairPolicy) (r : IterationReceipt) : bool :=
  is_complete (reviewer r)
  && (negb (require_verifier_receipt p) || match verifier r with Some v => is_complete v | None => false end).

Definition spent_secs (rs : list IterationReceipt) : N := foldr (fun r n => (receipt_secs r + n)%N) 0%N rs.
Definition spent_tools (rs : list IterationReceipt) : N := foldr (fun r n => (receipt_tool_calls r + n)%N) 0%N rs.

Lemma spent_secs_snoc rs r : spent_secs (rs ++ [r]) = (spent_secs rs + receipt_secs r)%N.
Proof. unfold spent_secs. induction rs as [|x rs IH]; cbn; [lia|]. rewrite IH. lia. Qed.

Lemma spent_tools_snoc rs r : spent_tools (rs ++ [r]) = (spent_tools rs + receipt_tool_calls r)%N.
Proof. unfold spent_tools. induction rs as [|x rs IH]; cbn; [lia|]. rewrite IH. lia. Qed.

(** ** What an operation can do

    Each operation leaves the loop alone, stops it, or puts a usable receipt of the
    pinned artifact on the record and decides. *)

Inductive step (l : ReviewRepairLoop) : review_op -> ReviewRepairLoop -> Prop :=
  | step_none o : step l o l
  | step_stop o reason :
      stopped l = None -> (match reason with Verified | AwaitingRatification => False | _ => True end) ->
      step l o (set_stopped l reason)
  | step_record r l' :
      stopped l = None -> input_digest r = pinned_input_digest l -> usable (policy l) r = true ->
      l' = (decide_next (push_receipt l r) (verdict r)).1 -> step l (Record_ r) l'
  | step_ratify approved note :
      stopped l = Some AwaitingRatification ->
      step l (Ratify approved note) (set_stopped l (if approved then Verified else RatificationDeclined note)).

Lemma exec_step l o : step l o (exec l o).
Proof.
  destruct o as [|r|approved note]; cbn [exec].
  - unfold begin_iteration. destruct (stopped l) eqn:Es; [apply step_none|].
    repeat case_match; cbn; try apply step_none; by apply step_stop.
  - unfold record_iteration. destruct (stopped l) eqn:Es; [apply step_none|].
    destruct (str_eqb (input_digest r) _) eqn:Ed; cbn [negb]; [|by apply step_stop].
    apply str_eqb_spec in Ed. destruct (is_complete (reviewer r)) eqn:Er; cbn [negb]; [|apply step_none].
    destruct (require_verifier_receipt (policy l)) eqn:Ep.
    + destruct (verifier r) as [v|] eqn:Ev; [|by apply step_stop].
      destruct (is_complete v) eqn:Ec; cbn [negb]; [|apply step_none].
      apply step_record; try done. unfold usable. by rewrite Er, Ep, Ev, Ec.
    + apply step_record; try done. unfold usable. by rewrite Er, Ep.
  - unfold ratify. destruct (stopped l) as [[]|] eqn:Es; try apply step_none. by apply step_ratify.
Qed.

(** The cases of a decision. *)
Lemma decide_next_cases l v l' :
  stopped l = None -> l' = (decide_next l v).1 ->
  (l' = l /\ v = RepairsNeeded /\ (count_u32 l < max_iterations (bounds l))%N)
  \/ (exists reason, l' = set_stopped l reason
      /\ (reason = Verified \/ reason = AwaitingRatification ->
          v = Clean /\ (tool_calls_used l <= max_tool_calls (bounds l))%N
          /\ (elapsed_secs l <= max_wall_clock_secs (bounds l))%N
          /\ (reason = Verified -> require_human_ratification (policy l) = false))).
Proof.
  intros Hs ->. unfold decide_next.
  destruct (_ <? _)%N eqn:Et; [right; eexists; split; [done|naive_solver]|].
  destruct (_ <? _)%N eqn:Ee in |- *; [right; eexists; split; [done|naive_solver]|].
  apply N.ltb_ge in Et, Ee. destruct v.
  - right. eexists. split; [done|]. intros _. split_and!; [done..|].
    by destruct (require_human_ratification (policy l)).
  - destruct (_ <=? _)%N eqn:Ei; [right; eexists; split; [done|naive_solver]|].
    left. apply N.leb_gt in Ei. done.
  - right. eexists. split; [done|]. naive_solver.
Qed.

(** ** The record *)

(** What holds of a loop whatever its caller does. *)
Record recorded (l : ReviewRepairLoop) : Prop := {
  rec_digest : Forall (fun r => input_digest r = pinned_input_digest l) (iterations l);
  rec_usable : Forall (fun r => usable (policy l) r = true) (iterations l);
  rec_secs : elapsed_secs l = N.min (spent_secs (iterations l)) u64_max;
  rec_tools : tool_calls_used l = N.min (spent_tools (iterations l)) u32_max;
  rec_clean : stopped l = Some Verified \/ stopped l = Some AwaitingRatification ->
    (exists before r, iterations l = before ++ [r] /\ verdict r = Clean)
    /\ (elapsed_secs l <= max_wall_clock_secs (bounds l))%N /\ (tool_calls_used l <= max_tool_calls (bounds l))%N
}.

Lemma recorded_new lane digest b p : recorded (loop_new lane digest b p).
Proof. split; cbn; try done. by intros [|]. Qed.

Lemma recorded_push l r :
  recorded l -> stopped l = None -> input_digest r = pinned_input_digest l -> usable (policy l) r = true ->
  recorded (push_receipt l r).
Proof.
  intros [Hd Hu Hs Ht _] Hn Hr Hur. split; cbn.
  - apply Forall_app. split; [done|]. by repeat constructor.
  - apply Forall_app. split; [done|]. by repeat constructor.
  - rewrite spent_secs_snoc, Hs. lia.
  - rewrite spent_tools_snoc, Ht. lia.
  - rewrite Hn. by intros [|].
Qed.

Lemma recorded_stop l reason :
  recorded l ->
  (reason = Verified \/ reason = AwaitingRatification ->
   (exists before r, iterations l = before ++ [r] /\ verdict r = Clean)
   /\ (elapsed_secs l <= max_wall_clock_secs (bounds l))%N /\ (tool_calls_used l <= max_tool_calls (bounds l))%N) ->
  recorded (set_stopped l reason).
Proof. intros [] Hc. split; cbn; try done. intros Hr. apply Hc. naive_solver. Qed.

Lemma step_recorded l o l' : recorded l -> step l o l' -> recorded l'.
Proof.
  intros Hl. destruct 1 as [o|o reason Hs Hr|r l' Hs Hd Hu Hl'|approved note Hs]; [done| | |].
  - apply recorded_stop; [done|]. by intros [->| ->].
  - pose proof (recorded_push _ _ Hl Hs Hd Hu) as Hp.
    destruct (decide_next_cases (push_receipt l r) (verdict r) l' Hs Hl') as [[-> _]|(reason & -> & Hc)]; [done|].
    apply recorded_stop; [done|]. intros Hr. destruct (Hc Hr) as (Hv & Ht & He & _).
    split_and!; [|done|done]. cbn. eauto.
  - apply recorded_stop; [done|]. intros _. apply (rec_clean _ Hl). auto.
Qed.

Lemma exec_all_recorded l os : recorded l -> recorded (exec_all l os).
Proof.
  revert l. induction os as [|o os IH]; intros l Hl; [done|]. apply IH. eapply step_recorded; [done|apply exec_step].
Qed.

(** No operation changes what the loop was authorised for. *)
Definition same_terms (l l' : ReviewRepairLoop) : Prop :=
  lane_id l' = lane_id l /\ bounds l' = bounds l /\ policy l' = policy l
  /\ pinned_input_digest l' = pinned_input_digest l.

#[global] Instance same_terms_preorder : PreOrder same_terms.
Proof. split; unfold same_terms; [by intros l|intros l1 l2 l3 (-> & -> & -> & ->); done]. Qed.

Lemma decide_next_terms l v : same_terms l (decide_next l v).1.
Proof. unfold decide_next. repeat case_match; done. Qed.

Lemma step_terms l o l' : step l o l' -> same_terms l l'.
Proof.
  destruct 1 as [| |r l' _ _ _ ->|]; try done.
  transitivity (push_receipt l r); [done|apply decide_next_terms].
Qed.

Lemma exec_all_terms l os : same_terms l (exec_all l os).
Proof.
  revert l. induction os as [|o os IH]; intros l; [done|].
  transitivity (exec l o); [eapply step_terms, exec_step|apply IH].
Qed.

(** A loop that needs a human is verified by one only. *)
Lemma exec_verified l o :
  require_human_ratification (policy l) = true -> stopped l <> Some Verified ->
  stopped (exec l o) = Some Verified -> exists note, o = Ratify true note.
Proof.
  intros Hp Hn Hv. pose proof (exec_step l o) as Hs. revert Hv Hs. generalize (exec l o) as l2. intros l2 Hv Hs.
  destruct Hs as [o|o reason _ Hr|r l' Hs _ _ ->|approved note _]; [done| | |].
  - cbn in Hv. by injection Hv as ->.
  - destruct (decide_next_cases (push_receipt l r) (verdict r) _ Hs eq_refl) as [[El _]|(reason & El & Hc)];
      rewrite El in Hv.
    + cbn in Hv. by rewrite Hv in Hs.
    + cbn in Hv. injection Hv as ->. destruct (Hc (or_introl eq_refl)) as (_ & _ & _ & Hh).
      specialize (Hh eq_refl). cbn in Hh. congruence.
  - destruct approved; [by eexists|]. done.
Qed.

Lemma exec_all_ratified l os :
  require_human_ratification (policy l) = true -> stopped l <> Some Verified ->
  stopped (exec_all l os) = Some Verified -> exists note, Ratify true note ∈ os.
Proof.
  revert l. induction os as [|o os IH]; intros l Hp Hn Hv; [done|]. cbn in Hv.
  assert (Ho : (exists note, o = Ratify true note) \/ ~ exists note, o = Ratify true note)
    by (destruct o as [| |[] note]; [right; by intros [? [=]]|right; by intros [? [=]]|left; by eexists|right; by intros [? [=]]]).
  destruct Ho as [[note ->]|Ho]; [exists note; left|].
  destruct (IH (exec l o)) as [note Hin]; [| |done|exists note; by right].
  - pose proof (step_terms _ _ _ (exec_step l o)) as (_ & _ & -> & _). done.
  - intros Hv'. apply Ho. by eapply exec_verified.
Qed.

(** C17: What a verified loop has behind it, whoever drove it and in whatever order. Its
    last receipt has a clean verdict; every receipt on the record is about the pinned
    artifact and names the exact routes of its reviewer and, where the policy asks for
    one, of its verifier; the seconds and tool calls counted are those of the receipts
    and within their two ceilings, when these are below the largest integers; and where
    the policy asks for a human, a human approved. Nothing is said of the ceiling of
    iterations: [ungranted_iteration_verifies]. *)
Theorem verified_means_reviewed lane digest b p os :
  (max_wall_clock_secs b < u64_max)%N -> (max_tool_calls b < u32_max)%N ->
  let l := exec_all (loop_new lane digest b p) os in
  stopped l = Some Verified ->
  (exists before r, iterations l = before ++ [r] /\ verdict r = Clean)
  /\ Forall (fun r => input_digest r = digest /\ usable p r = true) (iterations l)
  /\ (spent_secs (iterations l) <= max_wall_clock_secs b)%N /\ (spent_tools (iterations l) <= max_tool_calls b)%N
  /\ (require_human_ratification p = true -> exists note, Ratify true note ∈ os).
Proof.
  intros Hb1 Hb2 l Hv.
  pose proof (exec_all_recorded _ os (recorded_new lane digest b p)) as [Hd Hu Hs Ht Hc].
  pose proof (exec_all_terms (loop_new lane digest b p) os) as (_ & Hb & Hp & Hpin).
  fold l in Hd, Hu, Hs, Ht, Hc, Hb, Hp, Hpin. rewrite Hb in Hc. rewrite Hpin in Hd. rewrite Hp in Hu. cbn in Hc, Hd, Hu.
  destruct (Hc (or_introl Hv)) as (Hlast & He & Hto). split_and!; [done| |lia|lia|].
  - apply Forall_and. done.
  - intros Hh. by apply (exec_all_ratified (loop_new lane digest b p) os).
Qed.

(** A stop is final. Once the loop has stopped for any reason but the wait for a
    human, no sequence of operations changes it in any way; while it waits, only a
    decision does, and the record of iterations and the spend stay as they are. *)
Theorem stop_is_final l os reason :
  stopped l = Some reason ->
  (reason <> AwaitingRatification -> exec_all l os = l)
  /\ iterations (exec_all l os) = iterations l /\ elapsed_secs (exec_all l os) = elapsed_secs l
  /\ tool_calls_used (exec_all l os) = tool_calls_used l
  /\ exists reason', stopped (exec_all l os) = Some reason'
     /\ (reason' = reason
         \/ reason = AwaitingRatification /\ exists approved note, Ratify approved note ∈ os
            /\ reason' = if approved then Verified else RatificationDeclined note).
Proof.
  revert l reason. induction os as [|o os IH]; intros l reason Hl; [split_and!; eauto|].
  pose proof (exec_step l o) as Hs. cbn [exec_all fold_left]. fold (exec_all (exec l o) os).
  revert Hs. generalize (exec l o) as l2. intros l2 Hs.
  destruct Hs as [o|o ? Hn _|? ? Hn _ _ _|approved note Hw]; [|congruence|congruence|].
  - destruct (IH l reason Hl) as (H1 & H2 & H3 & H4 & reason' & Hr & Hc).
    split_and!; [done..|]. exists reason'. split; [done|].
    destruct Hc as [?|(? & approved & note & Hin & ?)]; [by left|]. right. split; [done|].
    exists approved, note. split; [by right|done].
  - rewrite Hl in Hw. injection Hw as ->.
    set (decision := if approved then Verified else RatificationDeclined note).
    assert (Hd : decision <> AwaitingRatification) by by destruct approved.
    destruct (IH (set_stopped l decision) decision eq_refl) as (H1 & _). rewrite H1 by exact Hd.
    split_and!; [done..|]. eexists. split; [done|]. right. split; [done|]. exists approved, note. split; [left|done].
Qed.

(** ** Loops driven as documented *)

Section Rounds.
Context (l0 : ReviewRepairLoop).
Hypothesis Hmax : (max_iterations (bounds l0) <= u32_max)%N.

(** Every iteration on the record was started below all three ceilings. *)
Definition started_below (l : ReviewRepairLoop) : Prop :=
  forall before r after, iterations l = before ++ r :: after ->
    (N.of_nat (length before) < max_iterations (bounds l0))%N
    /\ (N.min (spent_secs before) u64_max < max_wall_clock_secs (bounds l0))%N
    /\ (N.min (spent_tools before) u32_max < max_tool_calls (bounds l0))%N.

Record driven (l : ReviewRepairLoop) : Prop := {
  driven_terms : same_terms l0 l;
  driven_recorded : recorded l;
  driven_below : started_below l;
  driven_open : stopped l = None ->
    (N.of_nat (length (iterations l)) < max_iterations (bounds l0))%N \/ iterations l = []
}.

Lemma started_below_snoc l r :
  started_below l -> (N.of_nat (length (iterations l)) < max_iterations (bounds l0))%N ->
  (N.min (spent_secs (iterations l)) u64_max < max_wall_clock_secs (bounds l0))%N ->
  (N.min (spent_tools (iterations l)) u32_max < max_tool_calls (bounds l0))%N ->
  started_below (push_receipt l r).
Proof.
  intros Hb H1 H2 H3 before r' after Hi. cbn in Hi.
  destruct after as [|a after _] using rev_ind.
  - apply app_inj_tail in Hi as [<- _]. done.
  - replace (before ++ r' :: after ++ [a]) with ((before ++ r' :: after) ++ [a]) in Hi by (by rewrite <- app_assoc).
    apply app_inj_tail in Hi as [Hi _]. by apply (Hb before r' after).
Qed.

Lemma count_u32_small l :
  (N.of_nat (length (iterations l)) <= max_iterations (bounds l0))%N ->
  count_u32 l = N.of_nat (length (iterations l)).
Proof. intros Hl. unfold count_u32. apply N.mod_small. unfold u32_modulus, u32_max in *. lia. Qed.

(** What claiming an iteration tells. *)
Lemma begin_ok l n l' :
  driven l -> begin_iteration l = (l', Ok n) ->
  l' = l /\ stopped l = None /\ n = (N.of_nat (length (iterations l)) + 1)%N /\ (n <= max_iterations (bounds l0))%N
  /\ (elapsed_secs l < max_wall_clock_secs (bounds l0))%N /\ (tool_calls_used l < max_tool_calls (bounds l0))%N.
Proof.
  intros [(_ & Hb & _ & _) _ _ Ho]. unfold begin_iteration, stop. rewrite Hb.
  destruct (stopped l) eqn:Es; [done|]. specialize (Ho eq_refl).
  assert (Hc : count_u32 l = N.of_nat (length (iterations l))).
  { destruct Ho as [Ho|Ho]; [apply count_u32_small; lia|]. unfold count_u32. by rewrite Ho. }
  rewrite Hc.
  assert (Hm : ((N.of_nat (length (iterations l)) + 1) mod u32_modulus = N.of_nat (length (iterations l)) + 1)%N).
  { apply N.mod_small. unfold u32_modulus, u32_max in *. destruct Ho as [Ho| ->]; cbn; lia. }
  rewrite Hm. repeat case_match; intros [= <- <-].
  repeat match goal with
         | Hc : (_ <? _)%N = false |- _ => apply N.ltb_ge in Hc
         | Hc : (_ <=? _)%N = false |- _ => apply N.leb_gt in Hc
         end.
  split_and!; done || lia.
Qed.

Lemma begin_err l e l' : begin_iteration l = (l', Err e) -> exists reason, l' = l /\ stopped l = Some reason \/ l' = set_stopped l reason
  /\ stopped l = None /\ reason <> Verified /\ reason <> AwaitingRatification.
Proof.
  unfold begin_iteration, stop. destruct (stopped l) eqn:Es; [intros [= <- _]; eauto|].
  repeat case_match; intros [= <- _]; eexists; right; done.
Qed.

Lemma round_driven l r : driven l -> driven (round l r).
Proof.
  intros Hl. unfold round. destruct (begin_iteration l) as [l' [n|e]] eqn:Eb.
  - destruct (begin_ok _ _ _ Hl Eb) as (-> & Hs & -> & Hn & He & Ht). destruct Hl as [Hterms Hrec Hbelow _].
    pose proof (exec_step l (Record_ r)) as Hstep. cbn [exec] in Hstep.
    assert (Hrec' := step_recorded _ _ _ Hrec Hstep). assert (Hterms' := step_terms _ _ _ Hstep).
    revert Hstep Hrec' Hterms'. generalize (record_iteration l r).1 as l'. intros l' Hstep Hrec' Hterms'.
    assert (Ht' : same_terms l0 l') by by etransitivity. split; [done|done| |].
    + inversion Hstep as [| |r' l1 _ Hd Hu Hl1|]; subst; try done.
      assert (Hp : started_below (push_receipt l r)).
      { destruct Hrec as [_ _ Hse Hto _]. apply started_below_snoc; [done|lia|by rewrite <- Hse|by rewrite <- Hto]. }
      by destruct (decide_next_cases (push_receipt l r) (verdict r) _ Hs eq_refl) as [[-> _]|(reason & -> & _)].
    + inversion Hstep as [| |r' l1 _ Hd Hu Hl1|]; subst; try (cbn; congruence).
      * intros _. left. lia.
      * destruct (decide_next_cases (push_receipt l r) (verdict r) _ Hs eq_refl) as [(-> & _ & Hc)|(reason & -> & _)]; [|done].
        intros _. left. cbn in Hc |- *. destruct Hterms as (_ & Hb & _). rewrite Hb in Hc.
        rewrite count_u32_small in Hc; [done|]. cbn. rewrite length_app. cbn. lia.
  - destruct (begin_err _ _ _ Eb) as [reason [[-> _]|(-> & Hs & Hv & Ha)]]; [done|].
    destruct Hl as [Hterms Hrec Hbelow _]. split; [done| |done|done].
    apply recorded_stop; [done|]. by intros [|].
Qed.

Lemma rounds_driven l rs : driven l -> driven (rounds l rs).
Proof. revert l. induction rs as [|r rs IH]; intros l Hl; [done|]. by apply IH, round_driven. Qed.

End Rounds.

Lemma round_stopped l r reason : stopped l = Some reason -> round l r = l.
Proof. intros Hs. unfold round, begin_iteration. by rewrite Hs. Qed.

Lemma rounds_stopped l rs reason : stopped l = Some reason -> rounds l rs = l.
Proof.
  intros Hs. induction rs as [|r rs IH]; [done|]. cbn. by rewrite (round_stopped _ _ _ Hs).
Qed.

(** A round with a usable receipt stops the loop or makes the record longer. *)
Lemma round_progress l r :
  stopped l = None -> usable (policy l) r = true ->
  stopped (round l r) <> None \/ length (iterations (round l r)) = S (length (iterations l)).
Proof.
  intros Hs Hu. unfold round. destruct (begin_iteration l) as [l' [n|e]] eqn:Eb.
  - assert (l' = l) as ->.
    { unfold begin_iteration, stop in Eb. rewrite Hs in Eb. repeat case_match; congruence. }
    unfold usable in Hu. apply andb_true_iff in Hu as [Hr Hv].
    unfold record_iteration. rewrite Hs, Hr. cbn [negb].
    destruct (str_eqb (input_digest r) _); cbn [negb]; [|by left].
    assert (Ha : let '(l2, _) := decide_next (push_receipt l r) (verdict r) in
                 stopped l2 <> None \/ length (iterations l2) = S (length (iterations l))).
    { pose proof (decide_next_cases (push_receipt l r) (verdict r) _ Hs eq_refl) as Hc.
      destruct (decide_next _ _) as [l2 res]. cbn in Hc.
      destruct Hc as [(-> & _)|(reason & -> & _)]; [|by left]. right. cbn. rewrite length_app. cbn. lia. }
    destruct (decide_next _ _) as [l2 res].
    destruct (require_verifier_receipt (policy l)); cbn in Hv; [|done].
    destruct (verifier r) as [v|]; [|done]. by rewrite Hv.
  - left. destruct (begin_err _ _ _ Eb) as [reason [[-> Hr]|(-> & _)]]; [by rewrite Hr|done].
Qed.

Lemma rounds_progress l rs :
  Forall (fun r => usable (policy l) r = true) rs ->
  stopped (rounds l rs) <> None \/ length (iterations (rounds l rs)) = length rs + length (iterations l).
Proof.
  revert l. induction rs as [|r rs IH]; intros l Hu; [by right|]. apply Forall_cons in Hu as [Hr Hu].
  change (rounds l (r :: rs)) with (rounds (round l r) rs).
  destruct (stopped l) as [reason|] eqn:Es.
  { left. rewrite (round_stopped _ _ _ Es), (rounds_stopped _ _ _ Es). by rewrite Es. }
  assert (Hp : policy (round l r) = policy l).
  { unfold round. destruct (begin_iteration l) as [l' [n|e]] eqn:Eb.
    - assert (l' = (begin_iteration l).1) as -> by by rewrite Eb.
      pose proof (step_terms _ _ _ (exec_step l Begin)) as (_ & _ & Hp1 & _).
      pose proof (step_terms _ _ _ (exec_step (begin_iteration l).1 (Record_ r))) as (_ & _ & Hp2 & _).
      cbn [exec] in Hp1, Hp2. congruence.
    - assert (l' = (begin_iteration l).1) as -> by by rewrite Eb.
      apply (step_terms _ _ _ (exec_step l Begin)). }
  destruct (round_progress l r Es Hr) as [Hn|Hlen].
  - left. destruct (stopped (round l r)) as [reason|] eqn:E2; [|done].
    rewrite (rounds_stopped _ _ _ E2). by rewrite E2.
  - destruct (IH (round l r)) as [?|Hl]; [by rewrite Hp|by left|]. right. rewrite Hl, Hlen. cbn. lia.
Qed.

Lemma driven_new lane digest b p : driven (loop_new lane digest b p) (loop_new lane digest b p).
Proof.
  split; [done|apply recorded_new| |by right]. intros before r after Hi. by destruct before.
Qed.

(** The loop is bounded. Driven as documented, claiming an iteration before it is
    run and recording it after, it never has more iterations on the record than its
    ceiling allows, each of them was started with the seconds and tool calls already
    spent strictly below their ceilings, so no budget buys one more iteration; and
    after as many usable receipts as the ceiling allows iterations, or one when it
    allows none, it has stopped. The counter of iterations does not wrap around. *)
Theorem review_loop_bounded lane digest b p rs :
  (max_iterations b <= u32_max)%N -> (max_wall_clock_secs b <= u64_max)%N -> (max_tool_calls b <= u32_max)%N ->
  let l := rounds (loop_new lane digest b p) rs in
  (N.of_nat (length (iterations l)) <= max_iterations b)%N
  /\ (forall before r after, iterations l = before ++ r :: after ->
        (spent_secs before < max_wall_clock_secs b)%N /\ (spent_tools before < max_tool_calls b)%N)
  /\ (Forall (fun r => usable p r = true) rs -> (N.max 1 (max_iterations b) <= N.of_nat (length rs))%N ->
      exists reason, stopped l = Some reason).
Proof.
  intros Hi Hs Ht l.
  destruct (rounds_driven (loop_new lane digest b p) Hi _ rs (driven_new lane digest b p)) as [_ _ Hbelow Hopen].
  fold l in Hbelow, Hopen. cbn in Hopen. split_and!.
  - destruct (iterations l) as [|r before _] eqn:E using rev_ind; [cbn; lia|].
    destruct (Hbelow before r [] E) as [Hlt _]. cbn in Hlt. rewrite length_app. cbn. lia.
  - intros before r after E. destruct (Hbelow before r after E) as (_ & H1 & H2). cbn in H1, H2. lia.
  - intros Hu Hlen. destruct (stopped l) as [reason|] eqn:E; [by eexists|].
    destruct (rounds_progress (loop_new lane digest b p) rs Hu) as [Hn|Hl]; [by fold l in Hn; rewrite E in Hn|].
    fold l in Hl. cbn in Hl. destruct (Hopen eq_refl) as [Ho|Ho]; [lia|]. rewrite Ho in Hl. cbn in Hl. lia.
Qed.

(** Refused receipts cost nothing. A receipt whose reviewer is not named in full is
    refused without stopping the loop and without counting its seconds and tool calls,
    so a caller that is handed such receipts can go on for ever: after any number of
    rounds the loop is as it was, and grants the next iteration. *)
Theorem refused_receipts_are_not_counted l rs n :
  begin_iteration l = (l, Ok n) ->
  Forall (fun r => input_digest r = pinned_input_digest l /\ is_complete (reviewer r) = false) rs ->
  rounds l rs = l.
Proof.
  intros Hb Hrs. induction Hrs as [|r rs [Hd Hr] Hrs IH]; [done|].
  change (rounds l (r :: rs)) with (rounds (round l r) rs).
  assert (round l r = l) as ->; [|done]. unfold round. rewrite Hb.
  assert (Hs : stopped l = None).
  { unfold begin_iteration, stop in Hb. destruct (stopped l); [done|]. done. }
  unfold record_iteration. rewrite Hs, (proj2 (str_eqb_spec _ _) Hd), Hr. done.
Qed.

(** An iteration that was never granted is accepted. Recording does not ask whether
    the iteration was claimed, so with ceilings of zero, which are documented to mean
    that the loop never runs, a clean receipt without spend verifies the artifact. *)
Theorem ungranted_iteration_verifies lane digest r :
  let none := {| max_iterations := 0; max_wall_clock_secs := 0; max_tool_calls := 0 |} in
  let p := {| require_human_ratification := false; require_verifier_receipt := false |} in
  let l := loop_new lane digest none p in
  input_digest r = digest -> is_complete (reviewer r) = true -> verdict r = Clean ->
  receipt_secs r = 0%N -> receipt_tool_calls r = 0%N ->
  stopped (begin_iteration l).1 = Some (IterationCeiling 0) /\ stopped (record_iteration l r).1 = Some Verified.
Proof.
  cbn zeta. intros Hd Hr Hv Hs Ht. split; [done|]. unfold record_iteration. cbn [stopped loop_new pinned_input_digest].
  rewrite (proj2 (str_eqb_spec _ _) Hd), Hr. cbn [negb require_verifier_receipt policy loop_new].
  unfold decide_next. cbn. by rewrite Hs, Ht, Hv.
Qed.

(** ** Witnesses *)

Definition full_route (role : string) : RouteReceipt :=
  {| role := lit role; provider := lit "p"; model := lit "m"; requested_reasoning := lit "high";
     effective_reasoning := lit "low"; routed_by := Fleet |}.

Definition sample_receipt (v : IterationVerdict) (calls : N) : IterationReceipt :=
  {| iteration := 1; input_digest := lit "d"; reviewer := full_route "reviewer";
     verifier := Some (full_route "verifier"); verdict := v; finding_summaries := [];
     receipt_tool_calls := calls; receipt_secs := 5 |}.

Definition nameless_receipt : IterationReceipt :=
  {| iteration := 1; input_digest := lit "d"; reviewer := full_route " "; verifier := None; verdict := Clean;
     finding_summaries := []; receipt_tool_calls := 1000000; receipt_secs := 0 |}.

Definition sample_loop : ReviewRepairLoop := loop_new (lit "lane") (lit "d") conservative policy_default.

Lemma verified_means_reviewed_witness :
  exists note, Ratify true note ∈ [Begin; Record_ (sample_receipt RepairsNeeded 7); Begin; Record_ (sample_receipt Clean 9);
                                   Ratify true (lit "ok")].
Proof.
  apply (verified_means_reviewed (lit "lane") (lit "d") conservative policy_default
           [Begin; Record_ (sample_receipt RepairsNeeded 7); Begin; Record_ (sample_receipt Clean 9); Ratify true (lit "ok")]);
    vm_compute; reflexivity.
Defined.

Lemma stop_is_final_witness :
  let l := exec_all sample_loop [Begin; Record_ (sample_receipt Clean 121)] in
  exec_all l [Ratify true (lit "please"); Begin] = l.
Proof.
  intros l. apply (stop_is_final l [Ratify true (lit "please"); Begin] (ToolCeiling 120 121));
    [vm_compute; reflexivity|discriminate].
Defined.

Lemma review_loop_bounded_witness :
  exists reason, stopped (rounds sample_loop (replicate 3 (sample_receipt RepairsNeeded 1))) = Some reason.
Proof.
  apply (review_loop_bounded (lit "lane") (lit "d") conservative policy_default (replicate 3 (sample_receipt RepairsNeeded 1)));
    [vm_compute; discriminate|vm_compute; discriminate|vm_compute; discriminate|repeat constructor|vm_compute; discriminate].
Defined.

Lemma refused_receipts_are_not_counted_witness :
  rounds sample_loop (replicate 1000 nameless_receipt) = sample_loop.
Proof.
  apply (refused_receipts_are_not_counted sample_loop (replicate 1000 nameless_receipt) 1); [vm_compute; reflexivity|].
  apply Forall_replicate. split; vm_compute; reflexivity.
Defined.

Lemma ungranted_iteration_verifies_witness :
  stopped (record_iteration
    (loop_new (lit "lane") (lit "d") {| max_iterations := 0; max_wall_clock_secs := 0; max_tool_calls := 0 |}
       {| require_human_ratification := false; require_verifier_receipt := false |})
    {| iteration := 7; input_digest := lit "d"; reviewer := full_route "reviewer"; verifier := None; verdict := Clean;
       finding_summaries := []; receipt_tool_calls := 0; receipt_secs := 0 |}).1 = Some Verified.
Proof.
  apply (ungranted_iteration_verifies (lit "lane") (lit "d")
           {| iteration := 7; input_digest := lit "d"; reviewer := full_route "reviewer"; verifier := None; verdict := Clean;
              finding_summaries := []; receipt_tool_calls := 0; receipt_secs := 0 |}); vm_compute; reflexivity.
Defined.

End WfReview.
