(* ===== verification/WfGates.v ===== *)
(** * Workflow gates and handoffs

    The gate board of a lane (crates/workflow/src/gates.rs) and the part of the
    workflow driver that uses it (crates/tui/src/tools/workflow/mod.rs): what a
    completed role does to the gates, which roles are admitted, and which artifacts
    they are handed. *)

From stdpp Require Import base list option gmap strings sorting.
From Stdlib Require Import Lia NArith.
From S2P Require Import Prelude RustStr RustNum.

Module WfGates.

(** ** Data *)

Inductive GateOn : Type := RoleComplete | RoleStart.
Inductive GateKind : Type := Verify | Review | Approve.
Inductive GateOnFail : Type := Retry | Block | Escalate.

#[export] Instance GateOn_eq_dec : EqDecision GateOn.
Proof. solve_decision. Defined.

Record GateSpec : Type := {
  gate_id : list N;
  gate_role : list N;
  on : GateOn;
  gate : GateKind;
  on_fail : GateOnFail;
  blocks_role : option (list N);
  max_retries : N;
  artifact_kind : option (list N);
  require_explicit_verdict : bool
}.

Definition default_max_retries : N := 1.

Inductive GateState : Type :=
  | Pending
  | Passed
  | Blocked (reason : list N)
  | Retrying (attempt : N) (reason : list N)
  | Escalated (reason : list N).

Definition as_str (s : GateState) : list N :=
  lit match s with
      | Pending => "pending" | Passed => "passed" | Blocked _ => "blocked"
      | Retrying _ _ => "retrying" | Escalated _ => "escalated"
      end.

Definition is_blocking (s : GateState) : bool :=
  match s with Blocked _ | Escalated _ | Retrying _ _ => true | _ => false end.

Definition blocked_reason (s : GateState) : option (list N) :=
  match s with Blocked reason | Retrying _ reason | Escalated reason => Some reason | _ => None end.

Inductive GateOutcome : Type :=
  | Pass
  | Fail_ (reason : list N)
  | HumanApprove (note : list N).

Record HandoffArtifact : Type := {
  artifact_id : list N;
  artifact_lane : list N;
  from_role : list N;
  to_role : list N;
  kind : list N;
  payload : list N;
  created_at : list N
}.

Record LaneGateBoard : Type := {
  lane_id : list N;
  gates : gmap (list N) GateState;
  retries : gmap (list N) N;
  artifacts : list HandoffArtifact
}.

Inductive GateError : Type :=
  | EmptyGateId
  | LaneMismatch (expected got : list N).

(** [Display] of the errors. *)
Definition gate_error_text (e : GateError) : list N :=
  match e with
  | EmptyGateId => lit "gate id must not be empty"
  | LaneMismatch expected got =>
      lit "handoff lane id `" ++ got ++ lit "` does not match board lane `" ++ expected ++ lit "`"
  end.

Record GateStatusLine : Type := {
  line_gate : list N;
  line_state : list N;
  line_reason : option (list N)
}.

(** ** The board *)

Definition board_new (lane : list N) : LaneGateBoard :=
  {| lane_id := lane; gates := ∅; retries := ∅; artifacts := [] |}.

Definition with_gates (b : LaneGateBoard) (g : gmap (list N) GateState) : LaneGateBoard :=
  {| lane_id := lane_id b; gates := g; retries := retries b; artifacts := artifacts b |}.

Definition with_retries (b : LaneGateBoard) (r : gmap (list N) N) : LaneGateBoard :=
  {| lane_id := lane_id b; gates := gates b; retries := r; artifacts := artifacts b |}.

Definition with_artifacts (b : LaneGateBoard) (a : list HandoffArtifact) : LaneGateBoard :=
  {| lane_id := lane_id b; gates := gates b; retries := retries b; artifacts := a |}.

Definition set_gate (b : LaneGateBoard) (id : list N) (s : GateState) : LaneGateBoard :=
  with_gates b (<[id := s]> (gates b)).

(** [entry(id).or_insert(Pending)]. *)
Definition install_gate (b : LaneGateBoard) (spec : GateSpec) : LaneGateBoard :=
  match gates b !! gate_id spec with Some _ => b | None => set_gate b (gate_id spec) Pending end.

Definition install_gates (b : LaneGateBoard) (specs : list GateSpec) : LaneGateBoard :=
  fold_left install_gate specs b.

Definition fail_state (spec : GateSpec) (attempt : N) (reason : list N) : GateState :=
  match on_fail spec with
  | Block => Blocked reason
  | Retry => if (attempt <=? max_retries spec)%N then Retrying attempt reason else Escalated reason
  | Escalate => Escalated reason
  end.

Definition evaluate (b : LaneGateBoard) (spec : GateSpec) (outcome : GateOutcome)
    : LaneGateBoard * result GateState GateError :=
  if str_is_empty (trim (gate_id spec)) then (b, Err EmptyGateId)
  else match outcome with
  | Pass | HumanApprove _ =>
      (with_retries (set_gate b (gate_id spec) Passed) (delete (gate_id spec) (retries b)), Ok Passed)
  | Fail_ reason =>
      let attempt := N.min (default 0%N (retries b !! gate_id spec) + 1) u32_max in
      let s := fail_state spec attempt reason in
      (with_retries (set_gate b (gate_id spec) s) (<[gate_id spec := attempt]> (retries b)), Ok s)
  end.

Definition blocks (spec : GateSpec) (role : list N) : bool :=
  eq_ignore_ascii_case (default [] (blocks_role spec)) role.

Fixpoint role_is_blocked (b : LaneGateBoard) (specs : list GateSpec) (role : list N) : option GateState :=
  match specs with
  | [] => None
  | spec :: rest =>
      if negb (blocks spec role) then role_is_blocked b rest role
      else match gates b !! gate_id spec with
           | Some s => if is_blocking s then Some s else role_is_blocked b rest role
           | None => role_is_blocked b rest role
           end
  end.

Definition record_handoff (b : LaneGateBoard) (a : HandoffArtifact) : LaneGateBoard * result unit GateError :=
  if negb (str_eqb (artifact_lane a) (lane_id b)) then (b, Err (LaneMismatch (lane_id b) (artifact_lane a)))
  else (with_artifacts b (artifacts b ++ [a]), Ok tt).

Definition latest_handoff (b : LaneGateBoard) (from to k : list N) : option HandoffArtifact :=
  List.find (fun a => eq_ignore_ascii_case (from_role a) from && eq_ignore_ascii_case (to_role a) to
                      && eq_ignore_ascii_case (kind a) k) (reverse (artifacts b)).

(** The loop over [iter().enumerate().rev()]; [picked] is the number of indices taken. *)
Fixpoint pick_indices (role : list N) (limit picked : nat) (l : list (nat * HandoffArtifact)) : list nat :=
  match l with
  | [] => []
  | (index, a) :: rest =>
      if limit <=? picked then []
      else if eq_ignore_ascii_case (to_role a) role then index :: pick_indices role limit (S picked) rest
      else pick_indices role limit picked rest
  end.

(** [self.artifacts.remove(index)] for each index; an index out of range would panic
    and is skipped here: [consume_spec] shows that there is none. *)
Fixpoint remove_indices (l : list HandoffArtifact) (indices : list nat) : list HandoffArtifact * list HandoffArtifact :=
  match indices with
  | [] => ([], l)
  | i :: rest =>
      match l !! i with
      | Some a => let '(consumed, l') := remove_indices (delete i l) rest in (a :: consumed, l')
      | None => remove_indices l rest
      end
  end.

Definition consume_handoffs_for (b : LaneGateBoard) (role : list N) (limit : nat)
    : LaneGateBoard * list HandoffArtifact :=
  let '(consumed, rest) :=
    remove_indices (artifacts b) (pick_indices role limit 0 (reverse (imap pair (artifacts b)))) in
  (with_artifacts b rest, consumed).

(** The order of a [BTreeMap]. *)
Definition key_before (x y : list N * GateState) : Prop := str_le x.1 y.1.

#[export] Instance key_before_dec : RelDecision key_before.
Proof. intros x y. unfold key_before. apply _. Defined.

Definition status_summary (b : LaneGateBoard) : list GateStatusLine :=
  (fun e => {| line_gate := e.1; line_state := as_str e.2; line_reason := blocked_reason e.2 |})
    <$> merge_sort key_before (map_to_list (gates b)).

Definition stopship_gate_pipeline : list GateSpec :=
  [{| gate_id := lit "scout-findings"; gate_role := lit "scout"; on := RoleComplete; gate := Approve;
      on_fail := Block; blocks_role := Some (lit "implementer"); max_retries := 0;
      artifact_kind := Some (lit "findings"); require_explicit_verdict := false |};
   {| gate_id := lit "reviewer-diff"; gate_role := lit "reviewer"; on := RoleComplete; gate := Review;
      on_fail := Block; blocks_role := Some (lit "verifier"); max_retries := 1;
      artifact_kind := Some (lit "diff_review"); require_explicit_verdict := false |};
   {| gate_id := lit "verifier-suite"; gate_role := lit "verifier"; on := RoleComplete; gate := Verify;
      on_fail := Retry; blocks_role := Some (lit "release_lead"); max_retries := 2;
      artifact_kind := Some (lit "verify_report"); require_explicit_verdict := false |}].

(** ** The driver *)

Inductive RunStatus : Type :=
  | RunPending | Running | Succeeded | Failed | Cancelled | BudgetExceeded | ReplayDiverged.

(** [Debug] of the status. *)
Definition run_status_debug (s : RunStatus) : list N :=
  lit match s with
      | RunPending => "Pending" | Running => "Running" | Succeeded => "Succeeded" | Failed => "Failed"
      | Cancelled => "Cancelled" | BudgetExceeded => "BudgetExceeded" | ReplayDiverged => "ReplayDiverged"
      end.

(** The fields of [RuntimeTaskRecord] that the gates read. *)
Record TaskRecord : Type := {
  agent_id : list N;
  task_role : option (list N);
  status : RunStatus;
  output : option (list N)
}.

Inductive ExplicitGateVerdict : Type := VerdictApprove | VerdictReject.

(** [lines().map(str::trim).filter(|line| !line.is_empty())]. *)
Definition meaningful_lines (output : list N) : list (list N) :=
  List.filter (fun l => negb (str_is_empty l)) (trim <$> str_lines output).

Definition explicit_gate_verdict (output : option (list N)) : option ExplicitGateVerdict :=
  output ← output;
  first ← head (meaningful_lines output);
  if eq_ignore_ascii_case first (lit "APPROVE") || eq_ignore_ascii_case first (lit "PASS") then Some VerdictApprove
  else if eq_ignore_ascii_case first (lit "BLOCK") || eq_ignore_ascii_case first (lit "FAIL") then Some VerdictReject
  else None.

Definition has_gate_artifact_body (output : option (list N)) : bool :=
  match output with
  | None => false
  | Some output => match meaningful_lines output with _ :: _ :: _ :: _ => true | _ => false end
  end.

Definition gate_outcome_for_completed_role (r : TaskRecord) (require : bool) (artifact : option (list N)) : GateOutcome :=
  match status r with
  | Succeeded =>
      match explicit_gate_verdict (output r) with
      | Some VerdictReject =>
          Fail_ (default (lit "child returned an explicit rejection verdict") (output r))
      | Some VerdictApprove =>
          if require && bool_decide (is_Some artifact) && negb (has_gate_artifact_body (output r)) then
            Fail_ (lit "task " ++ agent_id r ++ lit " approved without the required "
                   ++ default (lit "gate") artifact ++ lit " artifact body")
          else Pass
      | None =>
          if require then
            Fail_ (lit "task " ++ agent_id r
                   ++ lit " completed without the required first-line gate verdict; expected exactly APPROVE, PASS, BLOCK, or FAIL")
          else Pass
      end
  | s => Fail_ (default (lit "task " ++ agent_id r ++ lit " ended as " ++ run_status_debug s) (output r))
  end.

Inductive gate_event : Type :=
  | GateUpdated (id role kind state : list N) (blocked_role reason : option (list N))
  | HandoffPromoted (artifact gate kind from to producer : list N)
  | HandoffConsumed (artifact kind from to consumer : list N).

Definition gate_kind_label (k : GateKind) : list N :=
  lit match k with Verify => "verify" | Review => "review" | Approve => "approve" end.

Definition gate_state_reason (s : GateState) : list N := default (as_str s) (blocked_reason s).

(** The run's id, its gates and its board. *)
Record Driver : Type := {
  run_id : list N;
  gate_specs : list GateSpec;
  board : LaneGateBoard
}.

Definition driver_new (run : list N) (specs : list GateSpec) : Driver :=
  {| run_id := run; gate_specs := specs; board := install_gates (board_new run) specs |}.

Definition with_board (d : Driver) (b : LaneGateBoard) : Driver :=
  {| run_id := run_id d; gate_specs := gate_specs d; board := b |}.

(** The state a gate is given, errors included. *)
Definition evaluated (b : LaneGateBoard) (spec : GateSpec) (outcome : GateOutcome) : LaneGateBoard * GateState :=
  match evaluate b spec outcome with
  | (b', Ok s) => (b', s)
  | (b', Err e) => let s := Blocked (gate_error_text e) in (set_gate b' (gate_id spec) s, s)
  end.

(** One iteration of the loop over the gates of a completed role; [fresh] is the
    identifier and the time of the artifact it may promote. *)
Definition evaluate_gate (run : list N) (r : TaskRecord) (fresh : list N * list N) (b : LaneGateBoard) (spec : GateSpec)
    : LaneGateBoard * list gate_event :=
  let outcome := gate_outcome_for_completed_role r (require_explicit_verdict spec) (artifact_kind spec) in
  let '(b1, s) := evaluated b spec outcome in
  let '(b2, s', promotion) :=
    match s, artifact_kind spec, blocks_role spec with
    | Passed, Some k, Some to =>
        let a := {| artifact_id := lit "handoff_" ++ fresh.1; artifact_lane := run; from_role := gate_role spec;
                    to_role := to; kind := k; payload := default [] (output r); created_at := fresh.2 |} in
        match record_handoff b1 a with
        | (b2, Ok _) =>
            (b2, s, [HandoffPromoted (artifact_id a) (gate_id spec) (kind a) (from_role a) (to_role a) (agent_id r)])
        | (b2, Err e) =>
            let s' := Blocked (lit "gate passed but its handoff could not be recorded: " ++ gate_error_text e) in
            (set_gate b2 (gate_id spec) s', s', [])
        end
    | _, _, _ => (b1, s, [])
    end in
  (b2, GateUpdated (gate_id spec) (gate_role spec) (gate_kind_label (gate spec)) (as_str s') (blocks_role spec)
         (blocked_reason s') :: promotion).

Fixpoint evaluate_loop (run : list N) (r : TaskRecord) (fresh : list (list N * list N)) (b : LaneGateBoard)
    (specs : list GateSpec) : LaneGateBoard * list gate_event :=
  match specs with
  | [] => (b, [])
  | spec :: rest =>
      let '(b1, events) := evaluate_gate run r (default ([], []) (head fresh)) b spec in
      let '(b2, more) := evaluate_loop run r (tail fresh) b1 rest in
      (b2, events ++ more)
  end.

Definition fires (role : list N) (spec : GateSpec) : bool :=
  bool_decide (on spec = RoleComplete) && eq_ignore_ascii_case (gate_role spec) role.

(** [evaluate_gates_for_completed_role]: the gates of the role, the events, and the
    status lines when there are any. *)
Definition evaluate_gates_for_completed_role (d : Driver) (r : TaskRecord) (fresh : list (list N * list N))
    : Driver * list gate_event * option (list GateStatusLine) :=
  match task_role r with
  | Some role =>
      if str_is_empty role then (d, [], None)
      else
        let specs := List.filter (fires role) (gate_specs d) in
        match specs with
        | [] => (d, [], None)
        | _ =>
            let '(b, events) := evaluate_loop (run_id d) r fresh (board d) specs in
            (with_board d b, events, Some (status_summary b))
        end
  | None => (d, [], None)
  end.

Definition WORKFLOW_HANDOFF_MAX_CHARS : nat := N.to_nat 4000.

Definition compact_handoff_payload (p : list N) (max_chars : nat) : list N :=
  let trimmed := trim p in
  if length trimmed <=? max_chars then trimmed else take max_chars trimmed ++ lit "...".

Definition append_handoff_context (description : list N) (handoffs : list HandoffArtifact) : list N :=
  description ++ [c_nl; c_nl] ++ lit "Workflow handoff artifacts available for this role:" ++ [c_nl]
  ++ (handoffs ≫= fun a =>
        lit "- id: " ++ artifact_id a ++ lit " kind: " ++ kind a ++ lit " from: " ++ from_role a ++ lit " to: " ++ to_role a
        ++ [c_nl] ++ lit "  payload: " ++ compact_handoff_payload (payload a) WORKFLOW_HANDOFF_MAX_CHARS ++ [c_nl]).

(** [prepare_request_for_gates]: the refusal, or the description the child is given and
    the artifacts it consumes. *)
Definition prepare_request_for_gates (d : Driver) (role : option (list N)) (description : list N)
    : Driver * result (list N * list HandoffArtifact) (list N) :=
  match role with
  | None => (d, Ok (description, []))
  | Some role =>
      if str_is_empty role then (d, Ok (description, []))
      else match gate_specs d with
      | [] => (d, Ok (description, []))
      | specs =>
          match role_is_blocked (board d) specs role with
          | Some s => (d, Err (lit "workflow gate blocks role `" ++ role ++ lit "`: " ++ gate_state_reason s))
          | None =>
              let '(b, handoffs) := consume_handoffs_for (board d) role 4 in
              (with_board d b,
               Ok (match handoffs with [] => description | _ => append_handoff_context description handoffs end, handoffs))
          end
      end
  end.

(** The rest of the spawn: [spawned] is the task identifier, or the error of a step
    behind the gates (the permit, the route, the spawn). *)
Definition spawn_task (d : Driver) (role : option (list N)) (description : list N) (spawned : result (list N) (list N))
    : Driver * result (list gate_event) (list N) :=
  match prepare_request_for_gates d role description with
  | (d', Err e) => (d', Err e)
  | (d', Ok (_, handoffs)) =>
      match spawned with
      | Err e => (d', Err e)
      | Ok task =>
          (d', Ok ((fun a => HandoffConsumed (artifact_id a) (kind a) (from_role a) (to_role a) task) <$> handoffs))
      end
  end.

Fixpoint terminal_failure (b : LaneGateBoard) (specs : list GateSpec) : option (list N) :=
  match specs with
  | [] => None
  | spec :: rest =>
      match gates b !! gate_id spec with
      | Some s =>
          if is_blocking s
          then Some (lit "workflow gate `" ++ gate_id spec ++ lit "` ended " ++ as_str s ++ lit ": " ++ gate_state_reason s)
          else terminal_failure b rest
      | None => terminal_failure b rest
      end
  end.

Definition terminal_gate_failure (d : Driver) : option (list N) := terminal_failure (board d) (gate_specs d).

Definition initial_gate_status (run : list N) (specs : list GateSpec) : list GateStatusLine :=
  match specs with
  | [] => []
  | _ => status_summary (install_gates (board_new run) specs)
  end.

End WfGates.
