(* ===== verification/WfGatesFacts.v ===== *)
(** * Workflow gates and handoffs: theorems

    Traces of completed and spawned tasks, the state of a gate as a function of what
    was reported to it, and the way of an artifact from its promotion to the one task
    it is handed to. *)

From stdpp Require Import base list option gmap strings sorting.
From Stdlib Require Import Lia NArith.
From S2P Require Import Prelude RustStr RustNum WfGates.

Module WfGatesFacts.

Import WfGates.

(** ** Consuming handoffs *)

(** The reference: one pass over the artifacts, newest first. *)
Fixpoint consume_newest (role : list N) (limit : nat) (newest : list HandoffArtifact)
    : list HandoffArtifact * list HandoffArtifact :=
  match newest, limit with
  | [], _ | _, O => ([], newest)
  | a :: rest, S n =>
      if eq_ignore_ascii_case (to_role a) role then
        let '(consumed, kept) := consume_newest role n rest in (a :: consumed, kept)
      else let '(consumed, kept) := consume_newest role limit rest in (consumed, a :: kept)
  end.

Definition enumerated (l : list HandoffArtifact) : list (nat * HandoffArtifact) := reverse (imap pair l).

Lemma enumerated_snoc l a : enumerated (l ++ [a]) = (length l, a) :: enumerated l.
Proof.
  unfold enumerated. rewrite imap_app, reverse_app. cbn. by rewrite Nat.add_0_r.
Qed.

(** Indices are picked from the end towards the front. *)
Lemma pick_indices_sorted role limit picked l :
  StronglySorted gt (pick_indices role limit picked (enumerated l))
  /\ Forall (fun i => i < length l) (pick_indices role limit picked (enumerated l)).
Proof.
  revert picked. induction l as [|a l IH] using rev_ind; intros picked; [by split; constructor|].
  rewrite enumerated_snoc, length_app. cbn [pick_indices length].
  destruct (limit <=? picked); [by split; constructor|].
  assert (Hle : forall p, Forall (fun i => i < length l + 1) (pick_indices role limit p (enumerated l))).
  { intros p. destruct (IH p) as [_ Hf]. eapply Forall_impl; [exact Hf|]. cbn. lia. }
  destruct (eq_ignore_ascii_case (to_role a) role); [|split; [apply IH|apply Hle]].
  split; (constructor; [|]); [apply IH|apply IH|lia|apply Hle].
Qed.

Lemma delete_app_front {A} (l k : list A) i : i < length l -> delete i (l ++ k) = delete i l ++ k.
Proof.
  revert i. induction l as [|x l IH]; intros i Hi; cbn in Hi; [lia|].
  destruct i as [|i]; [done|]. cbn. f_equal. apply IH. lia.
Qed.

Lemma delete_last {A} (l : list A) x : delete (length l) (l ++ [x]) = l.
Proof. induction l as [|y l IH]; [done|]. cbn. by f_equal. Qed.

Lemma length_delete_front {A} (l : list A) i : i < length l -> length (delete i l) = length l - 1.
Proof. intros Hi. destruct (lookup_lt_is_Some_2 l i Hi) as [x Hx]. by rewrite (length_delete l i) by eauto. Qed.

Lemma remove_indices_frame l k idx :
  StronglySorted gt idx -> Forall (fun i => i < length l) idx ->
  remove_indices (l ++ k) idx = (let '(consumed, l') := remove_indices l idx in (consumed, l' ++ k)).
Proof.
  intros Hs. revert l. induction Hs as [|i idx Hs IH Hi]; intros l Hl; [done|].
  apply Forall_cons in Hl as [Hil Hl]. cbn [remove_indices].
  rewrite lookup_app_l by done. destruct (lookup_lt_is_Some_2 l i Hil) as [a Ha]. rewrite Ha.
  assert (Hf : Forall (fun j => j < length (delete i l)) idx).
  { rewrite length_delete_front by done. eapply Forall_impl; [exact Hi|]. cbn. lia. }
  rewrite delete_app_front, (IH _ Hf) by done. by destruct (remove_indices (delete i l) idx).
Qed.

(** The two loops are the reference. *)
Lemma consume_indices role limit picked l :
  picked <= limit ->
  remove_indices l (pick_indices role limit picked (enumerated l))
  = (let '(consumed, kept) := consume_newest role (limit - picked) (reverse l) in (consumed, reverse kept)).
Proof.
  revert picked. induction l as [|a l IH] using rev_ind; intros picked Hp; [by destruct (limit - picked)|].
  rewrite enumerated_snoc, reverse_snoc. cbn [pick_indices].
  destruct (limit <=? picked) eqn:El.
  { apply Nat.leb_le in El. replace (limit - picked) with 0 by lia. cbn [remove_indices consume_newest].
    by rewrite reverse_cons, reverse_involutive. }
  apply Nat.leb_gt in El. destruct (limit - picked) as [|n] eqn:En; [lia|]. cbn [consume_newest].
  destruct (eq_ignore_ascii_case (to_role a) role).
  - cbn [remove_indices]. rewrite list_lookup_middle by done. rewrite delete_last, IH by lia.
    replace (limit - S picked) with n by lia. by destruct (consume_newest role n (reverse l)).
  - destruct (pick_indices_sorted role limit picked l) as [Hs Hf].
    rewrite remove_indices_frame, IH by (done || lia). rewrite En.
    destruct (consume_newest role (S n) (reverse l)) as [consumed kept]. by rewrite reverse_cons.
Qed.

Lemma consume_newest_taken role limit newest :
  (consume_newest role limit newest).1
  = take limit (List.filter (fun a => eq_ignore_ascii_case (to_role a) role) newest).
Proof.
  revert limit. induction newest as [|a newest IH]; intros limit; [by destruct limit|].
  destruct limit as [|n]; [done|]. cbn [consume_newest List.filter].
  destruct (eq_ignore_ascii_case (to_role a) role).
  - rewrite firstn_cons, <- IH. by destruct (consume_newest role n newest).
  - rewrite <- IH. by destruct (consume_newest role (S n) newest).
Qed.

Lemma consume_newest_perm role limit newest :
  (consume_newest role limit newest).1 ++ (consume_newest role limit newest).2 ≡ₚ newest.
Proof.
  revert limit. induction newest as [|a newest IH]; intros limit; [by destruct limit|].
  destruct limit as [|n]; [done|]. cbn [consume_newest].
  destruct (eq_ignore_ascii_case (to_role a) role).
  - specialize (IH n). destruct (consume_newest role n newest). cbn in *. by rewrite IH.
  - specialize (IH (S n)). destruct (consume_newest role (S n) newest) as [c k]. cbn in *.
    by rewrite <- Permutation_middle, IH.
Qed.

Lemma consume_newest_kept role limit newest : (consume_newest role limit newest).2 `sublist_of` newest.
Proof.
  revert limit. induction newest as [|a newest IH]; intros limit; [by destruct limit|].
  destruct limit as [|n]; [done|]. cbn [consume_newest].
  destruct (eq_ignore_ascii_case (to_role a) role).
  - specialize (IH n). destruct (consume_newest role n newest). cbn in *. by constructor.
  - specialize (IH (S n)). destruct (consume_newest role (S n) newest). cbn in *. by constructor.
Qed.

Lemma sublist_reversed {A} (l k : list A) : l `sublist_of` k -> reverse l `sublist_of` reverse k.
Proof.
  induction 1 as [|x l k H IH|x l k H IH]; [done| |]; rewrite !reverse_cons.
  - by apply sublist_app.
  - by apply sublist_inserts_r.
Qed.

(** What a task is handed: consuming returns the newest artifacts addressed to the
    role, newest first and as many as the limit allows, and leaves all others on the
    board in their order: together they are what was there, so nothing is lost and
    nothing is handed out twice. The removal by index never leaves the list. *)
Lemma consume_spec b role limit :
  let '(b', consumed) := consume_handoffs_for b role limit in
  consumed = take limit (List.filter (fun a => eq_ignore_ascii_case (to_role a) role) (reverse (artifacts b)))
  /\ consumed ++ artifacts b' ≡ₚ artifacts b /\ artifacts b' `sublist_of` artifacts b
  /\ gates b' = gates b /\ retries b' = retries b /\ lane_id b' = lane_id b.
Proof.
  unfold consume_handoffs_for. fold (enumerated (artifacts b)). rewrite consume_indices, Nat.sub_0_r by lia.
  pose proof (consume_newest_taken role limit (reverse (artifacts b))) as Ht.
  pose proof (consume_newest_perm role limit (reverse (artifacts b))) as Hp.
  pose proof (consume_newest_kept role limit (reverse (artifacts b))) as Hk.
  destruct (consume_newest role limit (reverse (artifacts b))) as [consumed kept]. cbn in *.
  split_and!; [done| | |done|done|done].
  - rewrite reverse_Permutation, Hp. apply reverse_Permutation.
  - rewrite <- (reverse_involutive (artifacts b)). by apply sublist_reversed.
Qed.

(** ** Traces

    What happens to a driver: tasks end, and tasks are spawned. A completion comes with
    the fresh identifiers and times of the artifacts it may promote, a spawn with the
    outcome of the steps behind the gates. *)

Inductive driver_op : Type :=
  | Completed (r : TaskRecord) (fresh : list (list N * list N))
  | Spawn (role : option (list N)) (description : list N) (spawned : result (list N) (list N)).

Definition run_op (d : Driver) (o : driver_op) : Driver :=
  match o with
  | Completed r fresh => (evaluate_gates_for_completed_role d r fresh).1.1
  | Spawn role description spawned => (spawn_task d role description spawned).1
  end.

Definition run_all (d : Driver) (trace : list driver_op) : Driver := fold_left run_op trace d.

(** The gates a workflow should have: named, and by different names. *)
Definition well_named (specs : list GateSpec) : Prop :=
  NoDup (gate_id <$> specs) /\ Forall (fun s => str_is_empty (trim (gate_id s)) = false) specs.

(** What was reported to a gate. *)
Definition reported (spec : GateSpec) (o : driver_op) : option GateOutcome :=
  match o with
  | Completed r _ =>
      role ← task_role r;
      if negb (str_is_empty role) && fires role spec
      then Some (gate_outcome_for_completed_role r (require_explicit_verdict spec) (artifact_kind spec)) else None
  | Spawn _ _ _ => None
  end.

Definition history (spec : GateSpec) (trace : list driver_op) : list GateOutcome := omap (reported spec) trace.

(** ** The abstract gate

    Its state is a function of the reports: the last one, and how many failures there
    were since the last success. *)

Definition is_fail (o : GateOutcome) : bool := match o with Fail_ _ => true | _ => false end.

Definition failures (h : list GateOutcome) : N := N.min (N.of_nat (length (take_while is_fail (reverse h)))) u32_max.

Definition gate_after (spec : GateSpec) (h : list GateOutcome) : GateState :=
  match last h with
  | None => Pending
  | Some (Fail_ reason) => fail_state spec (failures h) reason
  | Some _ => Passed
  end.

Lemma gate_after_blocking spec h :
  is_blocking (gate_after spec h) = true <-> exists reason, last h = Some (Fail_ reason).
Proof.
  unfold gate_after. destruct (last h) as [[|reason|note]|] eqn:E; cbn; try (split; [done|by intros [? [=]]]).
  split; [intros _; by eexists|intros _]. unfold fail_state. by repeat case_match.
Qed.

Lemma failures_snoc_fail h reason : failures (h ++ [Fail_ reason]) = N.min (failures h + 1) u32_max.
Proof.
  unfold failures. rewrite reverse_snoc. cbn [take_while is_fail length]. lia.
Qed.

Lemma failures_snoc_other h o : is_fail o = false -> failures (h ++ [o]) = 0%N.
Proof. intros Ho. unfold failures. rewrite reverse_snoc. cbn [take_while]. by rewrite Ho. Qed.

(** ** The board implements the abstract gates *)

(** One gate of the board and its retry counter agree with its history. *)
Definition gate_agrees (b : LaneGateBoard) (spec : GateSpec) (h : list GateOutcome) : Prop :=
  gates b !! gate_id spec = Some (gate_after spec h)
  /\ default 0%N (retries b !! gate_id spec) = failures h.

Lemma evaluate_agrees b spec h outcome :
  str_is_empty (trim (gate_id spec)) = false -> gate_agrees b spec h ->
  exists b', evaluated b spec outcome = (b', gate_after spec (h ++ [outcome]))
    /\ gate_agrees b' spec (h ++ [outcome]) /\ lane_id b' = lane_id b /\ artifacts b' = artifacts b
    /\ forall id, id <> gate_id spec -> gates b' !! id = gates b !! id /\ retries b' !! id = retries b !! id.
Proof.
  intros Hid [Hg Hr]. unfold evaluated, evaluate. rewrite Hid.
  assert (Hother : forall b' s r, b' = with_retries (set_gate b (gate_id spec) s) r ->
            (forall id, id <> gate_id spec -> r !! id = retries b !! id) ->
            lane_id b' = lane_id b /\ artifacts b' = artifacts b
            /\ forall id, id <> gate_id spec -> gates b' !! id = gates b !! id /\ retries b' !! id = retries b !! id).
  { intros b' s r -> Hrr. split_and!; [done|done|]. intros id Hne. cbn. split; [|by apply Hrr].
    by rewrite lookup_insert_ne. }
  assert (Hpass : is_fail outcome = false -> gate_after spec (h ++ [outcome]) = Passed).
  { intros Ho. unfold gate_after. rewrite last_snoc. by destruct outcome. }
  assert (Hset : forall s r, gates (with_retries (set_gate b (gate_id spec) s) r) !! gate_id spec = Some s)
    by (intros; apply lookup_insert_eq).
  destruct outcome as [|reason|note].
  1, 3: eexists; rewrite Hpass by done; (split; [done|split]);
    [split; [by rewrite Hpass, Hset|cbn; by rewrite lookup_delete_eq, failures_snoc_other]
    |eapply Hother; [done|]; intros id Hne; by rewrite lookup_delete_ne].
  assert (Hf : gate_after spec (h ++ [Fail_ reason]) = fail_state spec (failures (h ++ [Fail_ reason])) reason).
  { unfold gate_after. by rewrite last_snoc. }
  rewrite Hr, Hf, failures_snoc_fail. eexists. split; [done|split].
  - split; [by rewrite Hf, Hset, failures_snoc_fail|]. cbn. by rewrite lookup_insert_eq, failures_snoc_fail.
  - eapply Hother; [done|]. intros id Hne. by rewrite lookup_insert_ne.
Qed.

Definition outcome_for (r : TaskRecord) (spec : GateSpec) : GateOutcome :=
  gate_outcome_for_completed_role r (require_explicit_verdict spec) (artifact_kind spec).

(** The artifact a report promotes, if any. *)
Definition promotes (run : list N) (r : TaskRecord) (fresh : list N * list N) (spec : GateSpec) : list HandoffArtifact :=
  match is_fail (outcome_for r spec), artifact_kind spec, blocks_role spec with
  | false, Some k, Some to =>
      [{| artifact_id := lit "handoff_" ++ fresh.1; artifact_lane := run; from_role := gate_role spec;
          to_role := to; kind := k; payload := default [] (output r); created_at := fresh.2 |}]
  | _, _, _ => []
  end.

Fixpoint promotes_all (run : list N) (r : TaskRecord) (fresh : list (list N * list N)) (specs : list GateSpec)
    : list HandoffArtifact :=
  match specs with
  | [] => []
  | spec :: rest => promotes run r (default ([], []) (head fresh)) spec ++ promotes_all run r (tail fresh) rest
  end.

Definition same_elsewhere (b b' : LaneGateBoard) (ids : list (list N)) : Prop :=
  lane_id b' = lane_id b
  /\ forall id, id ∉ ids -> gates b' !! id = gates b !! id /\ retries b' !! id = retries b !! id.

Lemma gate_agrees_elsewhere b b' ids spec h :
  same_elsewhere b b' ids -> gate_id spec ∉ ids -> gate_agrees b spec h -> gate_agrees b' spec h.
Proof. intros [_ He] Hid [Hg Hr]. destruct (He _ Hid) as [Eg Er]. split; [by rewrite Eg|by rewrite Er]. Qed.

(** One gate of a completed role. A handoff is always of the board's own lane, so it is
    recorded. *)
Lemma evaluate_gate_agrees run r fresh b spec h :
  str_is_empty (trim (gate_id spec)) = false -> lane_id b = run -> gate_agrees b spec h ->
  let b' := (evaluate_gate run r fresh b spec).1 in
  gate_agrees b' spec (h ++ [outcome_for r spec]) /\ same_elsewhere b b' [gate_id spec]
  /\ artifacts b' = artifacts b ++ promotes run r fresh spec.
Proof.
  intros Hid Hlane Hag. unfold evaluate_gate. fold (outcome_for r spec).
  destruct (evaluate_agrees b spec h (outcome_for r spec) Hid Hag) as (b1 & -> & Hag1 & Hl1 & Ha1 & Ho1).
  assert (Hse : same_elsewhere b b1 [gate_id spec]) by (split; [done|intros id Hne; apply Ho1; set_solver]).
  unfold promotes. assert (Hp : is_fail (outcome_for r spec) = false <-> gate_after spec (h ++ [outcome_for r spec]) = Passed).
  { unfold gate_after. rewrite last_snoc. destruct (outcome_for r spec); cbn; try done.
    split; [done|]. unfold fail_state. by repeat case_match. }
  destruct (is_fail (outcome_for r spec)) eqn:Ef.
  - assert (Hn : gate_after spec (h ++ [outcome_for r spec]) <> Passed) by (intros E; by apply Hp in E).
    destruct (gate_after spec (h ++ [outcome_for r spec])) eqn:Eg; try done; cbn; rewrite app_nil_r; done.
  - rewrite (proj1 Hp eq_refl). destruct (artifact_kind spec) as [k|], (blocks_role spec) as [to|];
      cbn; rewrite ?app_nil_r; try done.
    unfold record_handoff. cbn. rewrite (proj2 (str_eqb_spec _ _)) by congruence. cbn.
    split_and!; [|done|by rewrite Ha1]. exact Hag1.
Qed.

Lemma evaluate_loop_agrees run r (h : GateSpec -> list GateOutcome) specs fresh b :
  NoDup (gate_id <$> specs) -> Forall (fun s => str_is_empty (trim (gate_id s)) = false) specs -> lane_id b = run ->
  (forall spec, spec ∈ specs -> gate_agrees b spec (h spec)) ->
  let b' := (evaluate_loop run r fresh b specs).1 in
  (forall spec, spec ∈ specs -> gate_agrees b' spec (h spec ++ [outcome_for r spec]))
  /\ same_elsewhere b b' (gate_id <$> specs) /\ artifacts b' = artifacts b ++ promotes_all run r fresh specs.
Proof.
  revert fresh b. induction specs as [|spec specs IH]; intros fresh b Hnd Hne Hlane Hag.
  { cbn. rewrite app_nil_r. split_and!; [|done|done]. intros spec Hin. by apply not_elem_of_nil in Hin. }
  rewrite fmap_cons in *. apply NoDup_cons in Hnd as [Hni Hnd]. apply Forall_cons in Hne as [Hid Hne].
  cbn [evaluate_loop].
  destruct (evaluate_gate_agrees run r (default ([], []) (head fresh)) b spec (h spec) Hid Hlane
              (Hag _ (list_elem_of_here _ _))) as (Hg1 & Hse1 & Ha1).
  destruct (evaluate_gate _ _ _ _ _) as [b1 ev]. cbn [fst] in Hg1, Hse1, Ha1.
  destruct (IH (tail fresh) b1 Hnd Hne) as (Hg2 & Hse2 & Ha2).
  { destruct Hse1 as [-> _]. done. }
  { intros spec' Hin. eapply gate_agrees_elsewhere; [exact Hse1| |by apply Hag; right].
    intros He%list_elem_of_singleton. apply Hni. rewrite <- He. by apply list_elem_of_fmap_2. }
  destruct (evaluate_loop _ _ _ _ _) as [b2 more]. cbn [fst] in *. split_and!.
  - intros spec' [->|Hin]%elem_of_cons; [|by apply Hg2]. by eapply gate_agrees_elsewhere.
  - destruct Hse1 as [Hl1 He1], Hse2 as [Hl2 He2]. split; [congruence|].
    intros id [Hn1 Hn2]%not_elem_of_cons. destruct (He2 id Hn2) as [-> ->]. apply He1. set_solver.
  - rewrite Ha2, Ha1, <- app_assoc. done.
Qed.

(** ** The driver's invariant *)

Section Driver.
Context (run : list N) (specs : list GateSpec).
Hypothesis Hnamed : well_named specs.

Record driven (d : Driver) (trace : list driver_op) : Prop := {
  driven_run : run_id d = run;
  driven_specs : gate_specs d = specs;
  driven_lane : lane_id (board d) = run;
  driven_gates : forall spec, spec ∈ specs -> gate_agrees (board d) spec (history spec trace)
}.

Lemma install_gates_spec b :
  lane_id (install_gates b specs) = lane_id b /\ retries (install_gates b specs) = retries b
  /\ artifacts (install_gates b specs) = artifacts b
  /\ (forall id, gates (install_gates b specs) !! id
                 = match gates b !! id with Some s => Some s | None => if decide (id ∈ gate_id <$> specs) then Some Pending else None end).
Proof.
  unfold install_gates. clear Hnamed. revert b. induction specs as [|spec l IH]; intros b.
  { split_and!; try done. intros id. cbn. destruct (gates b !! id); [done|]. by rewrite decide_False by apply not_elem_of_nil. }
  cbn [fold_left]. destruct (IH (install_gate b spec)) as (-> & -> & -> & Hg).
  unfold install_gate in *. destruct (gates b !! gate_id spec) as [s|] eqn:E.
  - split_and!; try done. intros id. rewrite Hg. destruct (gates b !! id) eqn:Ei; [done|].
    rewrite fmap_cons. assert (id <> gate_id spec) by congruence.
    apply decide_ext. rewrite elem_of_cons. naive_solver.
  - split_and!; try done. intros id. rewrite Hg. cbn. destruct (decide (id = gate_id spec)) as [->|Hne].
    + rewrite lookup_insert_eq, E, decide_True by set_solver. done.
    + rewrite lookup_insert_ne by done. destruct (gates b !! id); [done|].
      apply decide_ext. rewrite elem_of_cons. naive_solver.
Qed.

Lemma driver_new_driven : driven (driver_new run specs) [].
Proof.
  destruct (install_gates_spec (board_new run)) as (Hl & Hr & _ & Hg). split; cbn; [done|done|done|].
  intros spec Hin. split; [|by rewrite Hr]. rewrite Hg. cbn. rewrite decide_True; [done|]. by apply list_elem_of_fmap_2.
Qed.

Lemma consume_gates b role limit :
  gates (consume_handoffs_for b role limit).1 = gates b /\ retries (consume_handoffs_for b role limit).1 = retries b
  /\ lane_id (consume_handoffs_for b role limit).1 = lane_id b.
Proof. pose proof (consume_spec b role limit) as Hc. destruct (consume_handoffs_for b role limit).
  destruct Hc as (_ & _ & _ & ? & ? & ?). done. Qed.

(** Spawning changes the artifacts only. *)
Lemma spawn_driver d role description spawned :
  exists b, (spawn_task d role description spawned).1 = with_board d b
    /\ gates b = gates (board d) /\ retries b = retries (board d) /\ lane_id b = lane_id (board d).
Proof.
  assert (Hd : d = with_board d (board d)) by by destruct d.
  assert (Hp : exists b, (prepare_request_for_gates d role description).1 = with_board d b
    /\ gates b = gates (board d) /\ retries b = retries (board d) /\ lane_id b = lane_id (board d)).
  { unfold prepare_request_for_gates. destruct role as [role|]; [|by exists (board d)].
    destruct (str_is_empty role); [by exists (board d)|]. destruct (gate_specs d) as [|x l] eqn:E; [by exists (board d)|].
    destruct (role_is_blocked _ _ _); [by exists (board d)|].
    pose proof (consume_gates (board d) role 4) as (Hg & Hr & Hl).
    destruct (consume_handoffs_for (board d) role 4) as [b handoffs]. by exists b. }
  unfold spawn_task. destruct (prepare_request_for_gates d role description) as [d' [[desc hs]|e]]; [|done].
  by destruct spawned.
Qed.

Lemma filter_well_named f : well_named (List.filter f specs).
Proof.
  destruct Hnamed as [Hnd Hne]. clear Hnamed. split.
  - induction specs as [|spec l IH]; cbn; [constructor|]. rewrite fmap_cons in Hnd.
    apply NoDup_cons in Hnd as [Hni Hnd]. apply Forall_cons in Hne as [_ Hne].
    destruct (f spec); [|by apply IH]. rewrite fmap_cons. apply NoDup_cons. split; [|by apply IH].
    intros (s & Hs & Hin)%list_elem_of_fmap. apply list_elem_of_In, List.filter_In in Hin as [Hin _].
    apply Hni. rewrite Hs. apply list_elem_of_fmap_2. by apply list_elem_of_In.
  - apply List.Forall_forall. intros s [Hin _]%List.filter_In. by apply (proj1 (List.Forall_forall _ _) Hne).
Qed.

Lemma history_snoc spec trace o :
  history spec (trace ++ [o]) = history spec trace ++ match reported spec o with Some x => [x] | None => [] end.
Proof. unfold history. rewrite omap_app. cbn. by destruct (reported spec o). Qed.

Lemma spec_by_id s1 s2 : s1 ∈ specs -> s2 ∈ specs -> gate_id s1 = gate_id s2 -> s1 = s2.
Proof. destruct Hnamed as [Hnd _]. intros. by eapply NoDup_fmap_elem. Qed.

Lemma run_op_driven d trace o : driven d trace -> driven (run_op d o) (trace ++ [o]).
Proof.
  intros [Hrun Hspecs Hlane Hg]. destruct o as [r fresh|role description spawned]; cbn [run_op].
  - assert (Hsame : (forall spec, spec ∈ specs -> reported spec (Completed r fresh) = None) ->
              driven d (trace ++ [Completed r fresh])).
    { intros Hn. split; [done..|]. intros spec Hin. rewrite history_snoc, Hn, app_nil_r by done. by apply Hg. }
    unfold evaluate_gates_for_completed_role. cbn [reported] in Hsame.
    destruct (task_role r) as [role|] eqn:Er; [|by apply Hsame].
    destruct (str_is_empty role) eqn:Ee; [apply Hsame; intros; cbn; by rewrite Ee|].
    destruct (filter_well_named (fires role)) as [Hnd Hne].
    rewrite Hspecs.
    assert (Hin_f : forall spec, spec ∈ List.filter (fires role) specs <-> spec ∈ specs /\ fires role spec = true).
    { intros spec. rewrite !list_elem_of_In. apply List.filter_In. }
    destruct (evaluate_loop_agrees run r (fun spec => history spec trace) (List.filter (fires role) specs) fresh (board d)
                Hnd Hne Hlane) as (H1 & H2 & _).
    { intros spec Hin. apply Hg. by apply Hin_f in Hin as [? _]. }
    destruct (List.filter (fires role) specs) as [|x l] eqn:Ef.
    { apply Hsame. intros spec Hin. cbn. rewrite Ee. cbn. destruct (fires role spec) eqn:Efs; [|done].
      exfalso. apply (not_elem_of_nil spec). by apply Hin_f. }
    rewrite Hrun. destruct (evaluate_loop _ _ _ _ _) as [b events]. cbn [fst] in *.
    split; cbn; [done|done|by destruct H2 as [-> _]|].
    intros spec Hin. rewrite history_snoc. cbn [reported]. rewrite Er. cbn. rewrite Ee. cbn.
    destruct (fires role spec) eqn:Efs.
    + apply H1. by apply Hin_f.
    + rewrite app_nil_r. eapply gate_agrees_elsewhere; [exact H2| |by apply Hg].
      intros (s' & He & Hs')%list_elem_of_fmap. apply Hin_f in Hs' as [Hs' Hf'].
      rewrite (spec_by_id spec s') in Efs by done. congruence.
  - destruct (spawn_driver d role description spawned) as (b & -> & Hgb & Hrb & Hlb).
    split; cbn; [done|done|congruence|]. intros spec Hin. rewrite history_snoc. cbn. rewrite app_nil_r.
    destruct (Hg spec Hin) as [? ?]. split; [by rewrite Hgb|by rewrite Hrb].
Qed.

Lemma run_all_driven trace : driven (run_all (driver_new run specs) trace) trace.
Proof.
  induction trace as [|o trace IH] using rev_ind; [apply driver_new_driven|].
  unfold run_all. rewrite fold_left_app. by apply run_op_driven.
Qed.

(** A role is blocked when one of its gates is. *)
Lemma role_is_blocked_spec b l role :
  is_Some (role_is_blocked b l role)
  <-> exists spec s, spec ∈ l /\ blocks spec role = true /\ gates b !! gate_id spec = Some s /\ is_blocking s = true.
Proof.
  clear Hnamed. induction l as [|spec l IH]; cbn [role_is_blocked].
  { split; [by intros []|]. intros (? & ? & Hin & _). by apply not_elem_of_nil in Hin. }
  assert (Hskip : (forall s, blocks spec role = true -> gates b !! gate_id spec = Some s -> is_blocking s = true -> False) ->
    (exists spec s, spec ∈ l /\ blocks spec role = true /\ gates b !! gate_id spec = Some s /\ is_blocking s = true)
    <-> (exists spec' s, spec' ∈ spec :: l /\ blocks spec' role = true /\ gates b !! gate_id spec' = Some s /\ is_blocking s = true)).
  { intros Hn. split; intros (x & s & Hin & Hb & Hs & Hbl); exists x, s; (split; [|done]).
    - by right.
    - apply elem_of_cons in Hin as [->|?]; [|done]. exfalso. by eapply Hn. }
  destruct (blocks spec role) eqn:Eb; cbn [negb]; [|rewrite IH; by apply Hskip].
  destruct (gates b !! gate_id spec) as [s|] eqn:Es; [|rewrite IH; by apply Hskip].
  destruct (is_blocking s) eqn:Ebl; [|rewrite IH; apply Hskip; congruence].
  split; [|by eexists]. intros _. exists spec, s. split_and!; [left|done..].
Qed.

(** C15: The board is a function of the reports, for gates whose ids are not empty and
    distinct ([well_named], which the driver does not check). After any trace of completed
    and spawned tasks each gate is pending when nothing was reported to it, passed when the
    last report was a success, and otherwise blocked, retried or escalated as its policy
    says for the number of failures since the last success. A task is refused exactly when
    a gate that blocks its role was last reported a failure, so a pending gate admits, and
    the run fails at its end exactly when some gate was last reported a failure. *)
Theorem gates_follow_reports trace :
  let d := run_all (driver_new run specs) trace in
  (forall spec, spec ∈ specs -> gates (board d) !! gate_id spec = Some (gate_after spec (history spec trace)))
  /\ (forall role description, role <> [] ->
        (exists e, (prepare_request_for_gates d (Some role) description).2 = Err e)
        <-> exists spec reason, spec ∈ specs /\ blocks spec role = true /\ last (history spec trace) = Some (Fail_ reason))
  /\ (is_Some (terminal_gate_failure d)
      <-> exists spec reason, spec ∈ specs /\ last (history spec trace) = Some (Fail_ reason)).
Proof.
  intros d. destruct (run_all_driven trace) as [_ Hspecs _ Hg]. fold d in Hspecs, Hg.
  assert (Hb : forall spec s, spec ∈ specs -> gates (board d) !! gate_id spec = Some s ->
            is_blocking s = true <-> exists reason, last (history spec trace) = Some (Fail_ reason)).
  { intros spec s Hin Hs. destruct (Hg spec Hin) as [E _]. rewrite E in Hs. injection Hs as <-. apply gate_after_blocking. }
  split_and!; [by intros spec Hin; apply Hg| |].
  - intros role description Hne.
    assert (Hiff : (exists e, (prepare_request_for_gates d (Some role) description).2 = Err e)
                   <-> is_Some (role_is_blocked (board d) specs role)).
    { unfold prepare_request_for_gates. destruct role as [|c role]; [done|]. cbn [str_is_empty]. rewrite Hspecs.
      destruct specs as [|x l] eqn:E; [split; [by intros [? [=]]|by intros []]|].
      destruct (role_is_blocked _ _ _); [split; eauto|].
      destruct (consume_handoffs_for _ _ _). split; [by intros [? [=]]|by intros []]. }
    rewrite Hiff, role_is_blocked_spec. split.
    + intros (spec & s & Hin & Hbl & Hs & Hk). apply (Hb _ _ Hin Hs) in Hk as [reason Hr]. eauto.
    + intros (spec & reason & Hin & Hbl & Hr). destruct (Hg spec Hin) as [E _].
      exists spec, (gate_after spec (history spec trace)). split_and!; [done|done|exact E|]. apply gate_after_blocking. eauto.
  - unfold terminal_gate_failure. rewrite Hspecs.
    assert (Hiff : forall l, is_Some (terminal_failure (board d) l)
              <-> exists spec s, spec ∈ l /\ gates (board d) !! gate_id spec = Some s /\ is_blocking s = true).
    { induction l as [|x l IH]; cbn [terminal_failure]; [split; [by intros []|intros (? & ? & Hi & _); by apply not_elem_of_nil in Hi]|].
      destruct (gates (board d) !! gate_id x) as [s|] eqn:E; [destruct (is_blocking s) eqn:Ek|].
      - split; [|by eexists]. intros _. exists x, s. split_and!; [left|done|done].
      - rewrite IH. setoid_rewrite elem_of_cons. split; [naive_solver|]. intros (y & s' & [->|?] & ? & ?); [congruence|eauto].
      - rewrite IH. setoid_rewrite elem_of_cons. split; [naive_solver|]. intros (y & s' & [->|?] & ? & ?); [congruence|eauto]. }
    rewrite Hiff. split.
    + intros (spec & s & Hin & Hs & Hk). apply (Hb _ _ Hin Hs) in Hk as [reason Hr]. eauto.
    + intros (spec & reason & Hin & Hr). destruct (Hg spec Hin) as [E _].
      exists spec, (gate_after spec (history spec trace)). split_and!; [done|exact E|]. apply gate_after_blocking. eauto.
Qed.

(** ** The way of an artifact *)

(** What a completion promotes and what a spawn hands out. *)
Definition promotions (o : driver_op) : list HandoffArtifact :=
  match o with
  | Completed r fresh =>
      match task_role r with
      | Some role => if str_is_empty role then [] else promotes_all run r fresh (List.filter (fires role) specs)
      | None => []
      end
  | Spawn _ _ _ => []
  end.

Definition deliveries (d : Driver) (o : driver_op) : list (list N * HandoffArtifact) :=
  match o with
  | Completed _ _ => []
  | Spawn role description _ =>
      match (prepare_request_for_gates d role description).2 with
      | Ok (_, handoffs) => pair (default [] role) <$> handoffs
      | Err _ => []
      end
  end.

Fixpoint all_deliveries (d : Driver) (trace : list driver_op) : list (list N * HandoffArtifact) :=
  match trace with [] => [] | o :: rest => deliveries d o ++ all_deliveries (run_op d o) rest end.

Lemma all_deliveries_snoc d trace o :
  all_deliveries d (trace ++ [o]) = all_deliveries d trace ++ deliveries (run_all d trace) o.
Proof.
  revert d. induction trace as [|o' trace IH]; intros d; cbn; [by rewrite app_nil_r|].
  by rewrite IH, app_assoc.
Qed.

Lemma spawn_artifacts d role description spawned :
  artifacts (board d)
  ≡ₚ (deliveries d (Spawn role description spawned)).*2 ++ artifacts (board (spawn_task d role description spawned).1)
  /\ Forall (fun x => eq_ignore_ascii_case (to_role x.2) x.1 = true) (deliveries d (Spawn role description spawned)).
Proof.
  unfold deliveries.
  assert (Hs : (spawn_task d role description spawned).1 = (prepare_request_for_gates d role description).1).
  { unfold spawn_task. destruct (prepare_request_for_gates d role description) as [d' [[desc hs]|e]]; [|done]. by destruct spawned. }
  rewrite Hs. unfold prepare_request_for_gates. destruct role as [role|]; [|done].
  destruct (str_is_empty role); [done|]. destruct (gate_specs d); [done|].
  destruct (role_is_blocked _ _ _); [done|].
  pose proof (consume_spec (board d) role 4) as Hc. destruct (consume_handoffs_for (board d) role 4) as [b hs].
  destruct Hc as (Hhs & Hp & _). cbn.
  assert (Hid : (pair role <$> hs).*2 = hs) by (clear; induction hs as [|a hs IH]; [done|]; cbn; by f_equal).
  rewrite Hid. split; [done|]. apply Forall_fmap, Forall_forall. intros a Ha. cbn.
  rewrite Hhs in Ha. apply elem_of_take in Ha as (i & Ha & _). apply list_elem_of_lookup_2 in Ha.
  by apply list_elem_of_In, List.filter_In in Ha as [_ ?].
Qed.

Lemma completed_artifacts d trace r fresh :
  driven d trace ->
  artifacts (board (evaluate_gates_for_completed_role d r fresh).1.1) = artifacts (board d) ++ promotions (Completed r fresh).
Proof.
  intros [Hrun Hspecs Hlane Hg]. unfold evaluate_gates_for_completed_role, promotions.
  destruct (task_role r) as [role|]; [|by rewrite app_nil_r]. destruct (str_is_empty role); [by rewrite app_nil_r|].
  destruct (filter_well_named (fires role)) as [Hnd Hne]. rewrite Hspecs, Hrun.
  destruct (evaluate_loop_agrees run r (fun spec => history spec trace) (List.filter (fires role) specs) fresh (board d)
              Hnd Hne Hlane) as (_ & _ & Ha).
  { intros spec Hin. apply Hg. apply list_elem_of_In, List.filter_In in Hin as [? _]. by apply list_elem_of_In. }
  destruct (List.filter (fires role) specs) as [|x l]; [by rewrite app_nil_r|].
  by destruct (evaluate_loop _ _ _ _ _).
Qed.

(** Handoffs are delivered once. Over any trace, the artifacts promoted by passed
    gates are, counted with repetition, those handed to spawned tasks and those still on
    the board: none is handed out twice, none disappears from the board otherwise, and
    each goes to a task of the role it is addressed to. *)
Theorem handoffs_delivered_once trace :
  let d := run_all (driver_new run specs) trace in
  let delivered := all_deliveries (driver_new run specs) trace in
  (trace ≫= promotions) ≡ₚ delivered.*2 ++ artifacts (board d)
  /\ Forall (fun x => eq_ignore_ascii_case (to_role x.2) x.1 = true) delivered.
Proof.
  cbn zeta. induction trace as [|o trace [IHp IHf]] using rev_ind.
  { cbn. destruct (install_gates_spec (board_new run)) as (_ & _ & -> & _). done. }
  rewrite all_deliveries_snoc, bind_app, fmap_app. unfold run_all in *. rewrite fold_left_app. cbn [fold_left].
  set (d := fold_left run_op trace (driver_new run specs)) in *.
  pose proof (run_all_driven trace) as Hd. unfold run_all in Hd. fold d in Hd.
  destruct o as [r fresh|role description spawned]; cbn [run_op].
  - rewrite (completed_artifacts d trace r fresh Hd). cbn [mbind list_bind]. rewrite !app_nil_r. split.
    + rewrite app_assoc. by rewrite <- IHp.
    + done.
  - destruct (spawn_artifacts d role description spawned) as [Hp Hf]. split.
    + cbn [mbind list_bind promotions]. rewrite app_nil_r, IHp, Hp. by rewrite app_assoc.
    + rewrite Forall_app. done.
Qed.

End Driver.

(** Gates that ask for a verdict fail closed. A task passes such a gate exactly when
    it succeeded, the first line of its output that is not blank is APPROVE or PASS in
    any case and nothing else, and, where the gate names an artifact, at least two more
    lines follow. *)
Theorem explicit_gate_passes_iff r artifact :
  gate_outcome_for_completed_role r true artifact = Pass
  <-> status r = Succeeded /\ exists text first rest,
      output r = Some text /\ meaningful_lines text = first :: rest
      /\ (eq_ignore_ascii_case first (lit "APPROVE") = true \/ eq_ignore_ascii_case first (lit "PASS") = true)
      /\ (is_Some artifact -> 2 <= length rest).
Proof.
  unfold gate_outcome_for_completed_role. destruct (status r) eqn:Es; try (split; [done|by intros [? _]]).
  unfold explicit_gate_verdict, has_gate_artifact_body.
  destruct (output r) as [text|]; cbn -[lit]; [|split; [done|by intros (_ & ? & ? & ? & [=] & _)]].
  destruct (meaningful_lines text) as [|first rest] eqn:Em; cbn -[lit].
  { split; [done|]. intros (_ & t & f & l & [= <-] & He & _). congruence. }
  assert (Hbody : (if bool_decide (is_Some artifact) && negb match rest with _ :: _ :: _ => true | _ => false end
                   then Fail_ [] else Pass) = Pass <-> (is_Some artifact -> 2 <= length rest)).
  { case_bool_decide as Ha; cbn [andb]; [|naive_solver].
    destruct rest as [|x [|y rest]]; cbn; split; try done; intros Hl; try specialize (Hl Ha); lia. }
  destruct (eq_ignore_ascii_case first (lit "APPROVE") || eq_ignore_ascii_case first (lit "PASS")) eqn:Ev.
  - apply orb_true_iff in Ev.
    trans (is_Some artifact -> 2 <= length rest).
    { rewrite <- Hbody. destruct (bool_decide _ && negb _); [split; intros [=]|done]. }
    split; [intros Hl; split; [done|]; by exists text, first, rest|].
    intros (_ & t & f & l & [= <-] & He & _ & Hl). rewrite Em in He. by injection He as -> ->.
  - split.
    + by destruct (eq_ignore_ascii_case first (lit "BLOCK") || _).
    + intros (_ & t & f & l & [= <-] & He & Hor & _). rewrite Em in He. injection He as -> ->.
      apply orb_true_iff in Hor. congruence.
Qed.

(** A gate that should fire when a role starts never does. Only gates on completion
    are evaluated, so whatever the tasks report such a gate stays pending, and a pending
    gate does not block: the role behind it is admitted as if the gate were not there. *)
Theorem role_start_gate_never_blocks run specs trace spec role description :
  well_named specs -> spec ∈ specs -> on spec = RoleStart ->
  (forall other, other ∈ specs -> blocks other role = true -> other = spec) ->
  let d := run_all (driver_new run specs) trace in
  gates (board d) !! gate_id spec = Some Pending
  /\ exists desc handoffs, (prepare_request_for_gates d (Some role) description).2 = Ok (desc, handoffs).
Proof.
  intros Hnamed Hin Hon Honly d. destruct (run_all_driven run specs Hnamed trace) as [_ Hspecs _ Hg]. fold d in Hspecs, Hg.
  assert (Hh : history spec trace = []).
  { clear -Hon. unfold history. induction trace as [|o l IH]; [done|]. cbn [omap list_omap].
    replace (reported spec o) with (@None GateOutcome); [apply IH|].
    destruct o as [r fresh|]; [|done]. unfold reported. destruct (task_role r) as [rl|]; [|done]. cbn.
    unfold fires. rewrite Hon. rewrite bool_decide_eq_false_2 by done. by rewrite andb_false_r. }
  destruct (Hg spec Hin) as [Hp _]. rewrite Hh in Hp. split; [done|].
  unfold prepare_request_for_gates. destruct (str_is_empty role); [by eexists _, _|].
  destruct (gate_specs d) as [|x l]; [by eexists _, _|].
  destruct (role_is_blocked (board d) (x :: l) role) as [s|] eqn:Eb.
  - exfalso. destruct (proj1 (role_is_blocked_spec (board d) (x :: l) role)) as (other & s' & Ho & Hbl & Hs & Hk); [by eexists|].
    rewrite Hspecs in Ho. assert (other = spec) as -> by by apply Honly. rewrite Hp in Hs. by injection Hs as <-.
  - destruct (consume_handoffs_for _ _ _) as [b hs]. by eexists _, _.
Qed.

(** A spawn that fails behind the gates loses its handoffs. They are taken off the
    board before the task has a slot, a route and an agent; when one of these steps
    fails nothing is put back and no receipt is written, and a second attempt of the
    same role, with no more than four artifacts waiting at first, is handed nothing. *)
Theorem failed_spawn_loses_handoffs d role description e text waiting :
  (prepare_request_for_gates d (Some role) description).2 = Ok (text, waiting) ->
  length (List.filter (fun a => eq_ignore_ascii_case (to_role a) role) (artifacts (board d))) <= 4 ->
  let '(d', outcome) := spawn_task d (Some role) description (Err e) in
  outcome = Err e /\ (prepare_request_for_gates d' (Some role) description).2 = Ok (description, []).
Proof.
  unfold spawn_task, prepare_request_for_gates. destruct (str_is_empty role); [done|].
  destruct (gate_specs d) as [|x l] eqn:Es; [by rewrite Es|].
  destruct (role_is_blocked (board d) (x :: l) role) as [s|] eqn:Eb; [done|].
  pose proof (consume_spec (board d) role 4) as Hc. destruct (consume_handoffs_for (board d) role 4) as [b hs].
  destruct Hc as (Hhs & Hp & _ & Hg & _). intros _ Hlen. split; [done|]. cbn [gate_specs with_board board]. rewrite Es.
  assert (Hb : role_is_blocked b (x :: l) role = None).
  { rewrite <- Eb. generalize (x :: l) as specs. clear -Hg. intros specs. induction specs as [|y specs IH]; [done|].
    cbn [role_is_blocked]. by rewrite Hg, IH. }
  rewrite Hb. set (f := fun a => eq_ignore_ascii_case (to_role a) role) in *.
  assert (Hf : forall l1 l2, l1 ≡ₚ l2 -> length (List.filter f l1) = length (List.filter f l2)).
  { intros l1 l2. induction 1; cbn; repeat case_match; cbn; congruence. }
  assert (Hnone : List.filter f (artifacts b) = []).
  { apply length_zero_iff_nil. pose proof (Hf _ _ Hp) as Hsum. rewrite List.filter_app, length_app in Hsum.
    pose proof (Hf _ _ (reverse_Permutation (artifacts (board d)))) as Hrev.
    rewrite take_ge in Hhs by lia. rewrite Hhs in Hsum.
    assert (Hidem : forall l1, List.filter f (List.filter f l1) = List.filter f l1).
    { intros l1. induction l1 as [|y l1 IH]; [done|]. cbn. destruct (f y) eqn:E; [|done]. cbn. by rewrite E, IH. }
    rewrite Hidem in Hsum. lia. }
  pose proof (consume_spec b role 4) as Hc2. destruct (consume_handoffs_for b role 4) as [b2 hs2].
  destruct Hc2 as (Hhs2 & _). fold f in Hhs2.
  assert (hs2 = []) as ->; [|done]. rewrite Hhs2.
  apply length_zero_iff_nil. rewrite length_take, (Hf _ _ (reverse_Permutation (artifacts b))), Hnone. done.
Qed.

(** ** Witnesses *)

Definition reviewer_says (text : string) : TaskRecord :=
  {| agent_id := lit "agent-1"; task_role := Some (lit "Reviewer"); status := Succeeded; output := Some (lit text) |}.

Definition scout_done : TaskRecord :=
  {| agent_id := lit "agent-0"; task_role := Some (lit "scout"); status := Succeeded; output := Some (lit "found it") |}.

Definition stopship_trace : list driver_op :=
  [Completed scout_done [(lit "u1", lit "17")]; Completed (reviewer_says "BLOCK") [(lit "u2", lit "18")];
   Spawn (Some (lit "implementer")) (lit "do it") (Ok (lit "agent-2"))].

Lemma stopship_well_named : well_named stopship_gate_pipeline.
Proof. split; [by apply (bool_decide_unpack _); vm_compute|by repeat constructor]. Qed.

Definition reviewer_gate : GateSpec :=
  {| gate_id := lit "reviewer-diff"; gate_role := lit "reviewer"; on := RoleComplete; gate := Review;
     on_fail := Block; blocks_role := Some (lit "verifier"); max_retries := 1;
     artifact_kind := Some (lit "diff_review"); require_explicit_verdict := false |}.

(** A rejection by the reviewer keeps the verifier out. *)
Lemma gates_follow_reports_witness :
  exists e, (prepare_request_for_gates (run_all (driver_new (lit "run") stopship_gate_pipeline) stopship_trace)
               (Some (lit "verifier")) (lit "check")).2 = Err e.
Proof.
  apply (gates_follow_reports (lit "run") stopship_gate_pipeline stopship_well_named stopship_trace); [discriminate|].
  exists reviewer_gate, (lit "BLOCK"). split_and!; [right; left|vm_compute; reflexivity|vm_compute; reflexivity].
Defined.

(** The scout's findings reach the implementer. *)
Lemma handoffs_delivered_once_witness :
  (stopship_trace ≫= promotions (lit "run") stopship_gate_pipeline)
  ≡ₚ (all_deliveries (driver_new (lit "run") stopship_gate_pipeline) stopship_trace).*2
     ++ artifacts (board (run_all (driver_new (lit "run") stopship_gate_pipeline) stopship_trace))
  /\ (artifact_id <$> (all_deliveries (driver_new (lit "run") stopship_gate_pipeline) stopship_trace).*2) = [lit "handoff_u1"].
Proof.
  split; [|vm_compute; reflexivity].
  apply (handoffs_delivered_once (lit "run") stopship_gate_pipeline stopship_well_named stopship_trace).
Defined.

Definition start_gate : GateSpec :=
  {| gate_id := lit "sign-off"; gate_role := lit "release_lead"; on := RoleStart; gate := Approve;
     on_fail := Block; blocks_role := Some (lit "release_lead"); max_retries := 0;
     artifact_kind := None; require_explicit_verdict := true |}.

Lemma start_gate_well_named : well_named [start_gate].
Proof. split; [apply NoDup_singleton|by repeat constructor]. Qed.

Lemma role_start_gate_never_blocks_witness :
  exists desc handoffs,
    (prepare_request_for_gates (run_all (driver_new (lit "run") [start_gate]) stopship_trace)
       (Some (lit "release_lead")) (lit "ship")).2 = Ok (desc, handoffs).
Proof.
  apply (role_start_gate_never_blocks (lit "run") [start_gate] stopship_trace start_gate (lit "release_lead") (lit "ship")
           start_gate_well_named); [left|reflexivity|].
  intros other Ho _. by apply list_elem_of_singleton in Ho.
Defined.

Lemma failed_spawn_loses_handoffs_witness :
  let d := run_all (driver_new (lit "run") stopship_gate_pipeline) [Completed scout_done [(lit "u1", lit "17")]] in
  length (artifacts (board d)) = 1
  /\ (prepare_request_for_gates (spawn_task d (Some (lit "implementer")) (lit "do it") (Err (lit "no model"))).1
        (Some (lit "implementer")) (lit "do it")).2 = Ok (lit "do it", []).
Proof.
  intros d. split; [vm_compute; reflexivity|].
  pose proof (failed_spawn_loses_handoffs d (lit "implementer") (lit "do it") (lit "no model")) as Hf.
  destruct (prepare_request_for_gates d (Some (lit "implementer")) (lit "do it")).2 as [[text waiting]|] eqn:E; [|vm_compute in E; discriminate E].
  specialize (Hf text waiting eq_refl ltac:(vm_compute; lia)).
  destruct (spawn_task d (Some (lit "implementer")) (lit "do it") (Err (lit "no model"))). apply Hf.
Defined.

End WfGatesFacts.
