(* ===== verification/TelEvent.v ===== *)
(** * Telemetry events and counters (crates/telemetry/src/event.rs, counters.rs)

    The whole of what may leave the machine: the closed sets of labels, the events,
    the predicates that bound their strings, the session's accumulators and the
    reducers that build an event ([envelope.rs], and [version_is_older] of [lib.rs]).
    The JSON codec of an event is a parameter of the batch builder of [actor.rs]. *)

From stdpp Require Import base list option sets strings sorting.
From Stdlib Require Import Lia NArith.
From S2P Require Import Prelude RustStr RustNum ProviderRegistry Providers.

Module TelEvent.
Import ProviderRegistry(ProviderKind).
Import Providers(kind_as_str, all_providers).

Definition SCHEMA_VERSION : N := 1.

(** ** Closed labels *)

Inductive Surface : Type := Tui | Exec | Cli | AppServer | McpServer | Serve.
Inductive Os : Type := Linux | Macos | Windows | Freebsd | Android | OsOther.
Inductive Arch : Type := X86_64 | Aarch64 | ArchOther.
Inductive Libc : Type := Gnu | Musl | LibcNone.
Inductive InstallKind : Type := Install | Upgrade | Downgrade.
Inductive SessionSource : Type := Interactive | Resume | Fork | Api | Unknown.
Inductive DurationBucket : Type := Lt1m | OneToTen | TenToSixty | Gt60m.
Inductive ExitClass : Type := ExitClean | ExitSignal | ExitPanic | ExitError.
Inductive ColdStartBucket : Type := Lt250 | Mid | Slow | Gte3000.

Definition surface_as_str (s : Surface) : list N :=
  lit match s with
      | Tui => "tui" | Exec => "exec" | Cli => "cli" | AppServer => "app-server" | McpServer => "mcp-server"
      | Serve => "serve"
      end.

Definition os_as_str (o : Os) : list N :=
  lit match o with
      | Linux => "linux" | Macos => "macos" | Windows => "windows" | Freebsd => "freebsd" | Android => "android"
      | OsOther => "other"
      end.

Definition arch_as_str (a : Arch) : list N :=
  lit match a with X86_64 => "x86_64" | Aarch64 => "aarch64" | ArchOther => "other" end.

Definition libc_as_str (l : Libc) : list N := lit match l with Gnu => "gnu" | Musl => "musl" | LibcNone => "none" end.

Definition install_kind_as_str (k : InstallKind) : list N :=
  lit match k with Install => "install" | Upgrade => "upgrade" | Downgrade => "downgrade" end.

Definition session_source_as_str (s : SessionSource) : list N :=
  lit match s with
      | Interactive => "interactive" | Resume => "resume" | Fork => "fork" | Api => "api" | Unknown => "unknown"
      end.

Definition duration_from_secs (secs : N) : DurationBucket :=
  if (secs <? 60)%N then Lt1m else if (secs <? 600)%N then OneToTen else if (secs <? 3600)%N then TenToSixty else Gt60m.

Definition duration_as_str (b : DurationBucket) : list N :=
  lit match b with Lt1m => "lt_1m" | OneToTen => "1m_10m" | TenToSixty => "10m_60m" | Gt60m => "gt_60m" end.

Definition exit_as_str (e : ExitClass) : list N :=
  lit match e with ExitClean => "clean" | ExitSignal => "signal" | ExitPanic => "panic" | ExitError => "error" end.

Definition exit_as_u8 (e : ExitClass) : N :=
  match e with ExitClean => 0 | ExitSignal => 1 | ExitPanic => 2 | ExitError => 3 end.

Definition exit_from_u8 (value : N) : ExitClass :=
  match value with 1 => ExitSignal | 2 => ExitPanic | 3 => ExitError | _ => ExitClean end%N.

Definition cold_start_from_millis (ms : N) : ColdStartBucket :=
  if (ms <? 250)%N then Lt250 else if (ms <? 1000)%N then Mid else if (ms <? 3000)%N then Slow else Gte3000.

Definition cold_start_as_str (b : ColdStartBucket) : list N :=
  lit match b with Lt250 => "lt_250" | Mid => "250_1000" | Slow => "1000_3000" | Gte3000 => "gte_3000" end.

(** [std::env::consts::OS] and [ARCH] are what the build says; anything unknown is
    reported as other. *)
Definition current_os (os : list N) : Os :=
  if str_eqb os (lit "linux") then Linux else if str_eqb os (lit "macos") then Macos
  else if str_eqb os (lit "windows") then Windows else if str_eqb os (lit "freebsd") then Freebsd
  else if str_eqb os (lit "android") then Android else OsOther.

Definition current_arch (arch : list N) : Arch :=
  if str_eqb arch (lit "x86_64") then X86_64 else if str_eqb arch (lit "aarch64") then Aarch64 else ArchOther.

Definition current_libc (target_env : list N) : Libc :=
  if str_eqb target_env (lit "gnu") then Gnu else if str_eqb target_env (lit "musl") then Musl else LibcNone.

(** ** Counters, errors, the turn histogram *)

Record Counters : Type := {
  turns : N;
  tool_calls : N;
  fleet_dispatch : N;
  workflow_run : N;
  subagent_spawn : N;
  mcp_server_connected : N;
  memory_search : N;
  approval_modal_shown : N;
  approval_auto_allowed : N;
  command_palette_open : N
}.

Record Errors : Type := {
  auth_preflight_failed : N;
  provider_http_4xx : N;
  provider_http_5xx : N;
  tool_denied_by_policy : N;
  tool_timeout : N;
  network_error : N
}.

Record TurnWall : Type := { lt_5s : N; five_to_thirty : N; thirty_to_onetwenty : N; gte_120s : N }.

Definition turn_wall_default : TurnWall :=
  {| lt_5s := 0; five_to_thirty := 0; thirty_to_onetwenty := 0; gte_120s := 0 |}.

Definition u32_saturating_add (a b : N) : N := N.min (a + b) u32_max.

Definition observe_secs (w : TurnWall) (secs : N) : TurnWall :=
  if (secs <? 5)%N then
    {| lt_5s := u32_saturating_add (lt_5s w) 1; five_to_thirty := five_to_thirty w;
       thirty_to_onetwenty := thirty_to_onetwenty w; gte_120s := gte_120s w |}
  else if (secs <? 30)%N then
    {| lt_5s := lt_5s w; five_to_thirty := u32_saturating_add (five_to_thirty w) 1;
       thirty_to_onetwenty := thirty_to_onetwenty w; gte_120s := gte_120s w |}
  else if (secs <? 120)%N then
    {| lt_5s := lt_5s w; five_to_thirty := five_to_thirty w;
       thirty_to_onetwenty := u32_saturating_add (thirty_to_onetwenty w) 1; gte_120s := gte_120s w |}
  else
    {| lt_5s := lt_5s w; five_to_thirty := five_to_thirty w; thirty_to_onetwenty := thirty_to_onetwenty w;
       gte_120s := u32_saturating_add (gte_120s w) 1 |}.

Inductive Counter : Type :=
  | Turns | ToolCalls | FleetDispatch | WorkflowRun | SubagentSpawn | McpServerConnected | MemorySearch
  | ApprovalModalShown | ApprovalAutoAllowed | CommandPaletteOpen.

Inductive ErrorCounter : Type :=
  | AuthPreflightFailed | ProviderHttp4xx | ProviderHttp5xx | ToolDeniedByPolicy | ToolTimeout | NetworkError.

#[export] Instance Counter_eq_dec : EqDecision Counter.
Proof. solve_decision. Defined.
#[export] Instance ErrorCounter_eq_dec : EqDecision ErrorCounter.
Proof. solve_decision. Defined.

(** The session's accumulators: [slot] and [error_slot] name the atomic of a counter,
    so the atomics are the two functions. *)
Record SessionCounters : Type := {
  slot : Counter -> N;
  error_slot : ErrorCounter -> N;
  sc_turn_wall : TurnWall;
  sc_providers : list (list N)
}.

Definition counters_default : SessionCounters :=
  {| slot := fun _ => 0%N; error_slot := fun _ => 0%N; sc_turn_wall := turn_wall_default; sc_providers := [] |}.

(** [fetch_add] wraps around. *)
Definition fetch_add (n : N) : N := ((n + 1) mod u32_modulus)%N.

Definition bump (s : SessionCounters) (c : Counter) : SessionCounters :=
  {| slot := fun c' => if decide (c = c') then fetch_add (slot s c') else slot s c'; error_slot := error_slot s;
     sc_turn_wall := sc_turn_wall s; sc_providers := sc_providers s |}.

Definition bump_error (s : SessionCounters) (c : ErrorCounter) : SessionCounters :=
  {| slot := slot s; error_slot := fun c' => if decide (c = c') then fetch_add (error_slot s c') else error_slot s c';
     sc_turn_wall := sc_turn_wall s; sc_providers := sc_providers s |}.

Definition observe_turn_secs (s : SessionCounters) (secs : N) : SessionCounters :=
  {| slot := slot s; error_slot := error_slot s; sc_turn_wall := observe_secs (sc_turn_wall s) secs;
     sc_providers := sc_providers s |}.

(** [None] is the panic of a kind without an entry in the registry. *)
Definition record_provider (s : SessionCounters) (provider : ProviderKind) : option SessionCounters :=
  name ← kind_as_str provider;
  Some (if existsb (str_eqb name) (sc_providers s) then s
        else {| slot := slot s; error_slot := error_slot s; sc_turn_wall := sc_turn_wall s;
                sc_providers := merge_sort str_le (sc_providers s ++ [name]) |}).

Definition counters (s : SessionCounters) : Counters :=
  {| turns := slot s Turns; tool_calls := slot s ToolCalls; fleet_dispatch := slot s FleetDispatch;
     workflow_run := slot s WorkflowRun; subagent_spawn := slot s SubagentSpawn;
     mcp_server_connected := slot s McpServerConnected; memory_search := slot s MemorySearch;
     approval_modal_shown := slot s ApprovalModalShown; approval_auto_allowed := slot s ApprovalAutoAllowed;
     command_palette_open := slot s CommandPaletteOpen |}.

Definition errors (s : SessionCounters) : Errors :=
  {| auth_preflight_failed := error_slot s AuthPreflightFailed; provider_http_4xx := error_slot s ProviderHttp4xx;
     provider_http_5xx := error_slot s ProviderHttp5xx; tool_denied_by_policy := error_slot s ToolDeniedByPolicy;
     tool_timeout := error_slot s ToolTimeout; network_error := error_slot s NetworkError |}.

Definition http_status_counter (status : N) : option ErrorCounter :=
  match (status / 100)%N with 4%N => Some ProviderHttp4xx | 5%N => Some ProviderHttp5xx | _ => None end.

(** ** Events *)

Inductive Event : Type :=
  | InstallOrUpgrade (kind : InstallKind) (previous_version : option (list N))
  | SessionStart (source : SessionSource)
  | SessionEnd (duration_bucket : DurationBucket) (exit_class : ExitClass) (cold_start_bucket : option ColdStartBucket)
      (providers : list (list N)) (counters : Counters) (errors : Errors) (turn_wall : TurnWall)
  | Panic (site : list N).

Definition event_name (e : Event) : list N :=
  lit match e with
      | InstallOrUpgrade _ _ => "install_or_upgrade"
      | SessionStart _ => "session_start"
      | SessionEnd _ _ _ _ _ _ _ => "session_end"
      | Panic _ => "panic"
      end.

Definition nonempty_digits (s : list N) : bool := negb (str_is_empty s) && forallb is_ascii_digit s.

Definition is_release_version_string (value : list N) : bool :=
  let '(core, pre) := match split_once c_dash value with
                      | Some (core, pre) => (core, Some pre)
                      | None => (value, None)
                      end in
  let parts := split_char c_dot core in
  if negb (length parts =? 3) || negb (forallb nonempty_digits parts) then false
  else match pre with
       | None => true
       | Some pre => negb (str_is_empty pre) && forallb (fun b => is_ascii_alphanumeric b || (b =? c_dot)%N) pre
       end.

Definition is_site_char (b : N) : bool :=
  is_ascii_alphanumeric b || (b =? c_underscore)%N || (b =? c_slash)%N || (b =? c_dot)%N || (b =? c_dash)%N.

Definition is_reduced_panic_site (value : list N) : bool :=
  if str_eqb value (lit "<dep>") then true
  else match split_once_str (lit ".rs:") value with
  | None => false
  | Some (file, rest) =>
      match split_once c_colon rest with
      | None => false
      | Some (line, column) =>
          starts_with (lit "crates/") file && forallb is_site_char file && nonempty_digits line && nonempty_digits column
      end
  end.

Definition is_known_provider_id (value : list N) : bool :=
  existsb (fun p => str_eqb (ProviderRegistry.id p) value) all_providers.

Definition is_bounded (e : Event) : bool :=
  match e with
  | SessionStart _ => true
  | InstallOrUpgrade _ None => true
  | InstallOrUpgrade _ (Some v) => is_release_version_string v
  | SessionEnd _ _ _ providers _ _ _ => forallb is_known_provider_id providers
  | Panic site => is_reduced_panic_site site
  end.

Record Batch : Type := {
  batch_schema_version : N;
  sent_at : list N;
  batch_install_id : list N;
  app_version : list N;
  git_sha : option (list N);
  batch_surface : Surface;
  os : Os;
  arch : Arch;
  libc : Libc;
  tty : bool;
  events : list Event
}.

(** ** Reducers *)

Definition reduce_panic_site (file : list N) (line column : N) : list N :=
  let candidate := replace_chars (N.eqb c_backslash) [c_slash] file ++ lit ":" ++ dec line ++ lit ":" ++ dec column in
  if is_reduced_panic_site candidate then candidate else lit "<dep>".

Definition is_ascii_hexdigit (b : N) : bool := is_ascii_digit b || between 65 70 b || between 97 102 b.

Definition short_hex_sha (value : list N) : option (list N) :=
  let trimmed := to_ascii_lowercase (trim value) in
  if (str_len trimmed <? 12) || negb (forallb is_ascii_hexdigit trimmed) then None else Some (take 12 trimmed).

Definition u64_max : N := 18446744073709551615.

(** [value.split(['-', '+']).next()], cut at the dots; a part that is no number is 0. *)
Definition version_parts (value : list N) : list N :=
  (fun part => default 0%N (parse_unsigned u64_max part))
    <$> split_char c_dot (default [] (head (split_matches (fun c => (c =? c_dash)%N || (c =? 43)%N) value))).

(** The loop over [0..width]; a missing part is 0. *)
Fixpoint older_loop (previous current : list N) (indices : list nat) : bool :=
  match indices with
  | [] => false
  | index :: rest =>
      let left := default 0%N (previous !! index) in
      let right := default 0%N (current !! index) in
      if negb (left =? right)%N then (left <? right)%N else older_loop previous current rest
  end.

Definition version_is_older (previous current : list N) : bool :=
  let previous := version_parts previous in
  let current := version_parts current in
  older_loop previous current (seq 0 (max (length previous) (length current))).

(** [record_install_or_upgrade]: what is reported for the version last seen. *)
Definition install_kind (last_version : option (list N)) (current : list N) : option InstallKind :=
  match last_version with
  | None => Some Install
  | Some previous =>
      if str_eqb previous current then None
      else Some (if version_is_older previous current then Upgrade else Downgrade)
  end.

(** [telemetry_session_end] of the terminal: what the session accumulated. *)
Definition telemetry_session_end (elapsed : N) (exit : ExitClass) (cold_start : option N) (s : SessionCounters) : Event :=
  SessionEnd (duration_from_secs elapsed) exit (cold_start_from_millis <$> cold_start) (sc_providers s) (counters s)
    (errors s) (sc_turn_wall s).

(** ** Batches *)

Definition BATCH_MAX_EVENTS : nat := 200.
Definition BATCH_MAX_BYTES : nat := N.to_nat (64 * 1024).

(** [serde_json::from_str::<Event>]. *)
Section Batch.
Context (event_from_str : list N -> option Event).

Fixpoint parse_events_from (acc : list Event) (bytes : nat) (lines : list (list N)) : list Event :=
  match lines with
  | [] => acc
  | line :: rest =>
      if (BATCH_MAX_EVENTS <=? length acc) || (BATCH_MAX_BYTES <? bytes + str_len line) then acc
      else match event_from_str line with
           | Some e => if is_bounded e then parse_events_from (acc ++ [e]) (bytes + str_len line) rest
                       else parse_events_from acc bytes rest
           | None => parse_events_from acc bytes rest
           end
  end.

Definition parse_events (lines : list (list N)) : list Event := parse_events_from [] 0 lines.
End Batch.

(** ** The strings an event may carry *)

Definition digits (s : list N) : Prop := s <> [] /\ Forall (fun b => is_ascii_digit b = true) s.

(** [\d+\.\d+\.\d+(-[0-9A-Za-z.]+)?]. *)
Definition release_version (s : list N) : Prop :=
  exists a b c suffix,
    digits a /\ digits b /\ digits c
    /\ (suffix = [] \/ exists pre, suffix = c_dash :: pre /\ pre <> []
          /\ Forall (fun b => is_ascii_alphanumeric b || (b =? c_dot)%N = true) pre)
    /\ s = a ++ [c_dot] ++ b ++ [c_dot] ++ c ++ suffix.

(** [<dep>], or [crates/...rs:line:column] over the characters of a source path. *)
Definition panic_site (s : list N) : Prop :=
  s = lit "<dep>"
  \/ exists path line column,
       Forall (fun b => is_site_char b = true) path /\ digits line /\ digits column
       /\ s = lit "crates/" ++ path ++ lit ".rs:" ++ line ++ lit ":" ++ column.

Lemma forallb_Forall_true {A} (p : A -> bool) l : forallb p l = true <-> Forall (fun x => p x = true) l.
Proof. by rewrite forallb_forall, List.Forall_forall. Qed.

Lemma str_nonempty s : negb (str_is_empty s) = true <-> s <> [].
Proof. by destruct s. Qed.

Lemma nonempty_digits_spec s : nonempty_digits s = true <-> digits s.
Proof. unfold nonempty_digits, digits. by rewrite andb_true_iff, str_nonempty, forallb_Forall_true. Qed.

Lemma digits_no c s : digits s -> is_ascii_digit c = false -> c ∉ s.
Proof. intros [_ Hs] Hc Hin. rewrite Forall_forall in Hs. by rewrite (Hs c Hin) in Hc. Qed.

Lemma three_numbers core :
  (length (split_char c_dot core) = 3 /\ Forall (fun s => nonempty_digits s = true) (split_char c_dot core))
  <-> exists a b c, digits a /\ digits b /\ digits c /\ core = a ++ [c_dot] ++ b ++ [c_dot] ++ c.
Proof.
  split.
  - intros [Hl Hf]. pose proof (join_split_char c_dot core) as Hj.
    destruct (split_char c_dot core) as [|a [|b [|c [|? ?]]]]; try done.
    rewrite !Forall_cons, !nonempty_digits_spec in Hf. destruct Hf as (Ha & Hb & Hc & _). by exists a, b, c.
  - intros (a & b & c & Ha & Hb & Hc & ->).
    assert (forall x, digits x -> c_dot ∉ x) as Hn by (intros x Hx; by apply digits_no).
    cbn [app]. rewrite !split_char_app_sep, !split_char_word by auto.
    cbn [app]. split; [done|]. by rewrite !Forall_cons, !nonempty_digits_spec.
Qed.

Lemma release_core_no_dash a b c :
  digits a -> digits b -> digits c -> c_dash ∉ a ++ [c_dot] ++ b ++ [c_dot] ++ c.
Proof.
  intros Ha Hb Hc. rewrite !not_elem_of_app. split_and!; try (by apply digits_no); set_solver.
Qed.

Lemma is_release_version_string_spec v : is_release_version_string v = true <-> release_version v.
Proof.
  unfold is_release_version_string. split.
  - destruct (split_once c_dash v) as [[core pre]|] eqn:Es;
      (case_match eqn:Ec; [done|]; apply orb_false_iff in Ec as [Hl Hf];
       rewrite negb_false_iff in Hl, Hf; apply Nat.eqb_eq in Hl; apply forallb_Forall_true in Hf;
       destruct (proj1 (three_numbers _) (conj Hl Hf)) as (a & b & c & Ha & Hb & Hc & E)).
    + intros [Hp Hq]%andb_true_iff. apply str_nonempty in Hp. apply forallb_Forall_true in Hq.
      apply split_once_some in Es as [-> _]. exists a, b, c, (c_dash :: pre). split_and!; [done..| |].
      * right. by exists pre.
      * rewrite E. cbn [app]. by rewrite <-!(assoc_L (++)), <-!app_comm_cons, <-!(assoc_L (++)).
    + intros _. exists a, b, c, []. rewrite (right_id_L [] (++)). split_and!; auto.
  - intros (a & b & c & suffix & Ha & Hb & Hc & Hs & ->).
    pose proof (proj2 (three_numbers _) (ex_intro _ a (ex_intro _ b (ex_intro _ c
      (conj Ha (conj Hb (conj Hc eq_refl))))))) as [Hl Hf].
    pose proof (release_core_no_dash a b c Ha Hb Hc) as Hd.
    destruct Hs as [->|(pre & -> & Hp & Hq)].
    + rewrite (right_id_L [] (++)), split_once_none by done. cbv zeta beta.
      rewrite Hl, (proj2 (forallb_Forall_true _ _) Hf). done.
    + assert (split_once c_dash (a ++ [c_dot] ++ b ++ [c_dot] ++ c ++ c_dash :: pre)
        = Some (a ++ [c_dot] ++ b ++ [c_dot] ++ c, pre)) as ->.
      { apply split_once_some. split; [by rewrite <-!(assoc_L (++))|done]. }
      cbv zeta beta. rewrite Hl, (proj2 (forallb_Forall_true _ _) Hf), (proj2 (str_nonempty _) Hp). cbn [Nat.eqb negb orb andb].
      by apply forallb_Forall_true.
Qed.

Lemma site_char_no_colon : is_site_char c_colon = false.
Proof. done. Qed.

Lemma is_reduced_panic_site_spec v : is_reduced_panic_site v = true <-> panic_site v.
Proof.
  unfold is_reduced_panic_site, panic_site. case_match eqn:Ed; [apply str_eqb_spec in Ed; tauto|].
  assert (v <> lit "<dep>") as Hd by (intros Hd; apply str_eqb_spec in Hd; congruence). split.
  - destruct (split_once_str (lit ".rs:") v) as [[file rest]|] eqn:Es; [|done].
    destruct (split_once c_colon rest) as [[line column]|] eqn:Ec; [|done].
    rewrite !andb_true_iff, !nonempty_digits_spec, forallb_Forall_true. intros [[[Hf Hs] Hl] Hc]. right.
    apply split_once_str_some in Es as ->. apply split_once_some in Ec as [-> _].
    apply starts_with_spec in Hf as [path ->]. apply Forall_app in Hs as [_ Hs].
    exists path, line, column. split_and!; [done..|]. by rewrite <-!(assoc_L (++)).
  - intros [?|(path & line & column & Hp & Hl & Hc & ->)]; [done|].
    assert (c_colon ∉ lit "crates/" ++ path) as Hn.
    { rewrite not_elem_of_app. split; [apply (bool_decide_unpack _); vm_compute; done|].
      intros Hin. rewrite Forall_forall in Hp. by specialize (Hp _ Hin). }
    assert (split_once_str (lit ".rs:") (lit "crates/" ++ path ++ lit ".rs:" ++ line ++ lit ":" ++ column)
      = Some (lit "crates/" ++ path, line ++ lit ":" ++ column)) as ->.
    { pose proof (split_once_str_last c_colon (lit ".rs") (lit "crates/" ++ path) (line ++ lit ":" ++ column) Hn) as H.
      rewrite <-(assoc_L (++)) in H. apply H. apply (bool_decide_unpack _); vm_compute; done. }
    cbv beta iota. rewrite (proj2 (split_once_some c_colon _ line column))
      by (split; [done|by apply digits_no]). cbv beta iota.
    rewrite !andb_true_iff, !nonempty_digits_spec, forallb_Forall_true. split_and!;
      [|apply Forall_app; split; [by repeat constructor|done]|done..].
    apply starts_with_spec. by exists path.
Qed.

(** The strings of an event are what their documentation says and nothing else. A
    version is accepted exactly when it is three dotted numbers with an optional
    pre-release suffix, a panic site exactly when it is the reduced literal or a source
    path of this repository with a line and a column, a provider exactly when it is an
    id of the registry. *)
Theorem bounded_strings_spec kind v site bucket exit cold names c e w :
  (is_bounded (InstallOrUpgrade kind (Some v)) = true <-> release_version v)
  /\ (is_bounded (Panic site) = true <-> panic_site site)
  /\ (is_bounded (SessionEnd bucket exit cold names c e w) = true
      <-> Forall (fun name => exists p, p ∈ all_providers /\ ProviderRegistry.id p = name) names).
Proof.
  cbn [is_bounded]. rewrite is_release_version_string_spec, is_reduced_panic_site_spec, forallb_Forall_true.
  split_and!; [done..|]. apply Forall_proper; [|done]. intros name. unfold is_known_provider_id.
  rewrite existsb_elem_of. by setoid_rewrite str_eqb_spec.
Qed.

(** ** The accumulators over a session *)

Inductive counter_op : Type :=
  | Bump (c : Counter)
  | BumpError (c : ErrorCounter)
  | Turn (secs : N)
  | Routed (provider : ProviderKind).

Definition run_op (s : SessionCounters) (o : counter_op) : option SessionCounters :=
  match o with
  | Bump c => Some (bump s c)
  | BumpError c => Some (bump_error s c)
  | Turn secs => Some (observe_turn_secs s secs)
  | Routed provider => record_provider s provider
  end.

Definition run_ops (ops : list counter_op) : option SessionCounters :=
  fold_left (fun s o => s ← s; run_op s o) ops (Some counters_default).

(** How often an operation of a kind happened. *)
Definition times (p : counter_op -> bool) (ops : list counter_op) : N := N.of_nat (length (List.filter p ops)).

Definition bumps (c : Counter) (o : counter_op) : bool := match o with Bump c' => bool_decide (c' = c) | _ => false end.
Definition bumps_error (c : ErrorCounter) (o : counter_op) : bool :=
  match o with BumpError c' => bool_decide (c' = c) | _ => false end.
Definition turn_in (lo hi : N) (o : counter_op) : bool :=
  match o with Turn secs => (lo <=? secs)%N && (secs <? hi)%N | _ => false end.
Definition turn_from (lo : N) (o : counter_op) : bool := match o with Turn secs => (lo <=? secs)%N | _ => false end.

Lemma times_snoc p ops o : times p (ops ++ [o]) = (times p ops + if p o then 1 else 0)%N.
Proof. unfold times. rewrite List.filter_app, length_app. cbn [List.filter]. destruct (p o); cbn [length]; lia. Qed.

(** What the counters say after the operations. *)
Record counts (ops : list counter_op) (s : SessionCounters) : Prop := {
  counts_slot c : slot s c = (times (bumps c) ops mod u32_modulus)%N;
  counts_error c : error_slot s c = (times (bumps_error c) ops mod u32_modulus)%N;
  counts_wall :
    lt_5s (sc_turn_wall s) = N.min (times (turn_in 0 5) ops) u32_max
    /\ five_to_thirty (sc_turn_wall s) = N.min (times (turn_in 5 30) ops) u32_max
    /\ thirty_to_onetwenty (sc_turn_wall s) = N.min (times (turn_in 30 120) ops) u32_max
    /\ gte_120s (sc_turn_wall s) = N.min (times (turn_from 120) ops) u32_max;
  counts_sorted : Sorted str_le (sc_providers s);
  counts_distinct : NoDup (sc_providers s);
  counts_providers name : name ∈ sc_providers s <-> exists k, Routed k ∈ ops /\ kind_as_str k = Some name
}.

Lemma fetch_add_times n : fetch_add (n mod u32_modulus) = ((n + 1) mod u32_modulus)%N.
Proof. unfold fetch_add. by rewrite N.Div0.add_mod_idemp_l. Qed.

Lemma routed_snoc ops o name :
  (exists k, Routed k ∈ ops ++ [o] /\ kind_as_str k = Some name)
  <-> (exists k, Routed k ∈ ops /\ kind_as_str k = Some name) \/ (exists k, o = Routed k /\ kind_as_str k = Some name).
Proof.
  setoid_rewrite elem_of_app. setoid_rewrite list_elem_of_singleton. split.
  - intros (k & [H|H] & E); [left|right]; exists k; split; auto.
  - intros [(k & H & E)|(k & H & E)]; exists k; split; auto.
Qed.

Lemma not_routed o name : (forall k, o <> Routed k) -> ~ (exists k, o = Routed k /\ kind_as_str k = Some name).
Proof. intros H (k & E & _). by apply (H k). Qed.

Lemma observe_counts ops s secs : counts ops s -> counts (ops ++ [Turn secs]) (observe_turn_secs s secs).
Proof.
  intros [Hs He (H1 & H2 & H3 & H4) Ho Hd Hp]. split; cbn [observe_turn_secs slot error_slot sc_turn_wall sc_providers]; try done.
  - intros c. rewrite times_snoc. cbn [bumps]. by rewrite N.add_0_r.
  - intros c. rewrite times_snoc. cbn [bumps_error]. by rewrite N.add_0_r.
  - rewrite !times_snoc. cbn [turn_in turn_from]. unfold observe_secs, u32_saturating_add.
    destruct (N.ltb_spec secs 5), (N.ltb_spec secs 30), (N.ltb_spec secs 120), (N.leb_spec 0 secs),
      (N.leb_spec 5 secs), (N.leb_spec 30 secs), (N.leb_spec 120 secs); cbn [andb lt_5s five_to_thirty thirty_to_onetwenty gte_120s];
      lia.
  - intros name. rewrite routed_snoc, Hp. split; [by left|]. intros [?|[]%not_routed]; done.
Qed.

Lemma record_provider_counts ops s k :
  counts ops s -> exists s', record_provider s k = Some s' /\ counts (ops ++ [Routed k]) s'.
Proof.
  intros [Hs He Hw Ho Hd Hp]. assert (exists name, kind_as_str k = Some name) as [name Hn] by (destruct k; by eexists).
  unfold record_provider. rewrite Hn. cbn [mbind option_bind].
  assert (forall n', (exists k0, Routed k0 ∈ ops ++ [Routed k] /\ kind_as_str k0 = Some n')
    <-> n' ∈ sc_providers s \/ n' = name) as Hset.
  { intros n'. rewrite routed_snoc, <-Hp. split; (intros [H|H]; [by left|right]).
    - destruct H as (k' & Hk & E). simplify_eq. congruence.
    - subst. eauto. }
  case_match eqn:E; eexists; (split; [reflexivity|]); split; cbn [slot error_slot sc_turn_wall sc_providers];
    try (intros c; rewrite times_snoc; cbn [bumps bumps_error]; by rewrite N.add_0_r);
    try (rewrite !times_snoc; cbn [turn_in turn_from]; by rewrite !N.add_0_r); try done.
  - intros n'. rewrite Hset. split; [by left|]. intros [?| ->]; [done|].
    apply existsb_elem_of in E as (x & Hx & E). by apply str_eqb_spec in E as ->.
  - apply Sorted_merge_sort; apply _.
  - rewrite merge_sort_Permutation. apply NoDup_app. split_and!; [done| |by apply NoDup_singleton].
    intros x Hx ->%list_elem_of_singleton. apply not_true_iff_false in E. apply E, existsb_elem_of.
    exists name. split; [done|by apply str_eqb_spec].
  - intros n'. by rewrite Hset, merge_sort_Permutation, elem_of_app, list_elem_of_singleton.
Qed.

Lemma bump_counts ops s c : counts ops s -> counts (ops ++ [Bump c]) (bump s c).
Proof.
  intros [Hs He Hw Ho Hd Hp]. split; cbn [bump slot error_slot sc_turn_wall sc_providers]; try done.
  - intros c'. rewrite times_snoc, Hs. cbn [bumps].
    destruct (decide (c = c')); [rewrite bool_decide_true by done; apply fetch_add_times|].
    rewrite bool_decide_false by done. by rewrite N.add_0_r.
  - intros c'. rewrite times_snoc. cbn [bumps_error]. by rewrite N.add_0_r.
  - rewrite !times_snoc. cbn [turn_in turn_from]. by rewrite !N.add_0_r.
  - intros name. rewrite routed_snoc, Hp. split; [by left|]. intros [?|[]%not_routed]; done.
Qed.

Lemma bump_error_counts ops s c : counts ops s -> counts (ops ++ [BumpError c]) (bump_error s c).
Proof.
  intros [Hs He Hw Ho Hd Hp]. split; cbn [bump_error slot error_slot sc_turn_wall sc_providers]; try done.
  - intros c'. rewrite times_snoc. cbn [bumps]. by rewrite N.add_0_r.
  - intros c'. rewrite times_snoc, He. cbn [bumps_error].
    destruct (decide (c = c')); [rewrite bool_decide_true by done; apply fetch_add_times|].
    rewrite bool_decide_false by done. by rewrite N.add_0_r.
  - rewrite !times_snoc. cbn [turn_in turn_from]. by rewrite !N.add_0_r.
  - intros name. rewrite routed_snoc, Hp. split; [by left|]. intros [?|[]%not_routed]; done.
Qed.

Lemma run_ops_counts ops : exists s, run_ops ops = Some s /\ counts ops s.
Proof.
  induction ops as [|o ops (s & Hr & Hs)] using rev_ind.
  - exists counters_default. split; [done|]. split; try done; try by constructor.
    intros name. split; [set_solver|]. intros (k & ?%elem_of_nil & _). done.
  - unfold run_ops in *. rewrite fold_left_app. cbn [fold_left]. rewrite Hr. cbn [mbind option_bind].
    destruct o; cbn [run_op]; [eauto using bump_counts|eauto using bump_error_counts|eauto using observe_counts|].
    by apply record_provider_counts.
Qed.

(** What a session reports is what it did. After any sequence of counted actions the
    snapshot holds for each counter how often it was bumped, modulo the width of the
    counter, for each bucket of the histogram the number of such turns, saturating, and
    as providers exactly the ids of the kinds routed to, sorted and without duplicates;
    the event built from it carries registry ids only, whatever providers the user
    configured, and so does the event of a panic anywhere in the program. *)
Theorem session_report_is_exact ops elapsed exit cold file line column :
  exists s, run_ops ops = Some s
    /\ counts ops s
    /\ is_bounded (telemetry_session_end elapsed exit cold s) = true
    /\ is_bounded (Panic (reduce_panic_site file line column)) = true.
Proof.
  destruct (run_ops_counts ops) as (s & Hr & Hs). exists s. split_and!; [done..| |].
  - cbn [telemetry_session_end is_bounded]. apply forallb_Forall_true, Forall_forall. intros name Hn.
    apply (counts_providers _ _ Hs) in Hn as (k & _ & Hk). unfold is_known_provider_id.
    unfold kind_as_str, Providers.provider_for_kind in Hk. apply fmap_Some in Hk as (p & Hf & ->).
    apply existsb_elem_of. exists p. split; [by apply find_elem_of in Hf as []|by apply str_eqb_spec].
  - cbn [is_bounded]. unfold reduce_panic_site. by case_match.
Qed.

(** ** What a batch carries *)

Section BatchFacts.
Context (event_from_str : list N -> option Event).

(** The event of a drained line, if it has one that may be sent. *)
Definition carried (line : list N) : option Event :=
  e ← event_from_str line; if is_bounded e then Some e else None.

Definition carried_bytes (lines : list (list N)) : nat :=
  sum_list (str_len <$> filter (fun line => is_Some (carried line)) lines).

Lemma carried_bytes_cons line lines :
  carried_bytes (line :: lines) = match carried line with Some _ => str_len line | None => 0 end + carried_bytes lines.
Proof.
  unfold carried_bytes. rewrite filter_cons. destruct (carried line) as [e|] eqn:E.
  - rewrite decide_True by eauto. by rewrite fmap_cons.
  - rewrite decide_False; [done|]. by rewrite is_Some_None || intros [? ?].
Qed.

Lemma parse_events_step acc bytes line rest :
  parse_events_from event_from_str acc bytes (line :: rest)
  = if (BATCH_MAX_EVENTS <=? length acc) || (BATCH_MAX_BYTES <? bytes + str_len line) then acc
    else match carried line with
         | Some e => parse_events_from event_from_str (acc ++ [e]) (bytes + str_len line) rest
         | None => parse_events_from event_from_str acc bytes rest
         end.
Proof.
  cbn [parse_events_from]. case_match; [done|]. unfold carried. destruct (event_from_str line) as [e|]; [|done].
  cbn [mbind option_bind]. by destruct (is_bounded e).
Qed.

Lemma parse_events_from_spec lines acc bytes :
  length acc <= BATCH_MAX_EVENTS -> bytes <= BATCH_MAX_BYTES ->
  exists n, n <= length lines
    /\ parse_events_from event_from_str acc bytes lines = acc ++ omap carried (take n lines)
    /\ length (acc ++ omap carried (take n lines)) <= BATCH_MAX_EVENTS
    /\ bytes + carried_bytes (take n lines) <= BATCH_MAX_BYTES
    /\ (n = length lines
        \/ length (acc ++ omap carried (take n lines)) = BATCH_MAX_EVENTS
        \/ exists line, lines !! n = Some line /\ BATCH_MAX_BYTES < bytes + carried_bytes (take n lines) + str_len line).
Proof.
  revert acc bytes. induction lines as [|line lines IH]; intros acc bytes Ha Hb.
  { exists 0. unfold carried_bytes. cbn. rewrite (right_id_L [] (++)). split_and!; auto; lia. }
  rewrite parse_events_step. destruct (_ || _) eqn:E.
  { exists 0. cbn [take omap list_omap]. rewrite (right_id_L [] (++)). unfold carried_bytes. cbn [filter list_filter fmap list_fmap sum_list].
    split_and!; [lia|done|done|cbn; lia|]. right. apply orb_true_iff in E as [E|E].
    - left. apply Nat.leb_le in E. lia.
    - right. exists line. split; [done|]. apply Nat.ltb_lt in E. cbn. lia. }
  apply orb_false_iff in E as [E1 E2]. apply Nat.leb_gt in E1. apply Nat.ltb_ge in E2.
  destruct (carried line) as [e|] eqn:Ec.
  - destruct (IH (acc ++ [e]) (bytes + str_len line)) as (n & Hn & He & Hl & Hs & Hend); [rewrite length_app; cbn; lia|lia|].
    exists (S n). cbn [take omap list_omap length]. rewrite carried_bytes_cons, Ec.
    rewrite <-(assoc_L (++)) in *. cbn [app] in *. split_and!; [lia|done|done|lia|].
    destruct Hend as [->|[?|(l' & ? & ?)]]; [by left|by right; left|right; right]. exists l'. split; [done|lia].
  - destruct (IH acc bytes) as (n & Hn & He & Hl & Hs & Hend); [done|lia|].
    exists (S n). cbn [take omap list_omap length]. rewrite carried_bytes_cons, Ec.
    split_and!; [lia|done|done|lia|].
    destruct Hend as [->|[?|(l' & ? & ?)]]; [by left|by right; left|right; right]. exists l'. split; [done|lia].
Qed.

(** A batch is bounded whatever the buffer holds, and it is greedy. It carries, in
    order, the events of a prefix of the drained lines that parse and whose strings are
    bounded, at most two hundred of them from at most 64 KiB of lines; and the prefix is
    all the lines unless one of the two caps was reached. *)
Theorem batch_is_bounded lines :
  let batch := parse_events event_from_str lines in
  length batch <= BATCH_MAX_EVENTS
  /\ Forall (fun e => is_bounded e = true) batch
  /\ exists n, batch = omap carried (take n lines)
      /\ carried_bytes (take n lines) <= BATCH_MAX_BYTES
      /\ (n = length lines
          \/ length batch = BATCH_MAX_EVENTS
          \/ exists line, lines !! n = Some line /\ BATCH_MAX_BYTES < carried_bytes (take n lines) + str_len line).
Proof.
  cbv zeta. unfold parse_events.
  destruct (parse_events_from_spec lines [] 0) as (n & _ & -> & Hl & Hb & Hend); [cbn; lia..|].
  cbn [app Nat.add] in *. split_and!; [done| |by exists n].
  apply Forall_forall. intros e (line & _ & Hc)%list_elem_of_omap. unfold carried in Hc.
  destruct (event_from_str line) as [e'|]; [|done]. cbn [mbind option_bind] in Hc. by case_match; simplify_eq.
Qed.

End BatchFacts.

(** ** Versions *)

Lemma older_loop_zero previous current indices :
  Forall (eq 0%N) previous ->
  older_loop previous current indices = existsb (fun i => negb (default 0 (current !! i) =? 0)%N) indices.
Proof.
  intros Hp. induction indices as [|i indices IH]; [done|]. cbn [older_loop existsb].
  assert (default 0%N (previous !! i) = 0%N) as ->.
  { destruct (previous !! i) as [x|] eqn:E; [|done]. cbn. by eapply Forall_lookup in Hp; [|exact E]. }
  rewrite IH. destruct (N.eqb_spec 0 (default 0%N (current !! i))) as [<-|Hn]; [done|]. cbn [negb].
  rewrite (proj2 (N.eqb_neq _ _)), (proj2 (N.ltb_lt _ _)) by lia. done.
Qed.

(** A version that cannot be read counts as the oldest one. Its parts are read as
    zero, so against every release number that is not zero it is older, and an upgrade
    is reported; the comment on [version_is_older] says that it answers "not older" and
    never invents an upgrade. *)
Theorem unreadable_version_is_an_upgrade previous current :
  Forall (fun part => parse_unsigned u64_max part = None)
    (split_char c_dot (default [] (head (split_matches (fun c => (c =? c_dash)%N || (c =? 43)%N) previous)))) ->
  (exists part, part ∈ version_parts current /\ part <> 0%N) -> previous <> current ->
  version_is_older previous current = true /\ install_kind (Some previous) current = Some Upgrade.
Proof.
  intros Hp (part & Hin & Hz) Hne.
  assert (version_is_older previous current = true) as Ho.
  { unfold version_is_older. rewrite older_loop_zero.
    - apply list_elem_of_lookup in Hin as [i Hi]. apply existsb_elem_of. exists i. split.
      + apply elem_of_seq. apply lookup_lt_Some in Hi. lia.
      + rewrite Hi. cbn. by apply negb_true_iff, N.eqb_neq.
    - unfold version_parts. apply Forall_fmap. eapply Forall_impl; [exact Hp|]. intros x Hx. cbn. by rewrite Hx. }
  split; [done|]. unfold install_kind. rewrite Ho. case_match eqn:E; [by apply str_eqb_spec in E|done].
Qed.

Lemma unreadable_version_is_an_upgrade_witness :
  version_is_older (lit "nightly") (lit "0.8.1") = true
  /\ install_kind (Some (lit "nightly")) (lit "0.8.1") = Some Upgrade.
Proof.
  apply (unreadable_version_is_an_upgrade (lit "nightly") (lit "0.8.1")).
  - vm_compute. by repeat constructor.
  - exists 8%N. split; [vm_compute; right; left|done].
  - by vm_compute.
Defined.

End TelEvent.
