(* ===== verification/TelConsent.v ===== *)
(** * Telemetry consent (crates/telemetry/src/decision.rs, crates/config/src/lib.rs)

    How the answer to "may this process collect?" is computed: the environment, the
    configuration file and the command line, the recorded notice, the endpoint and
    the classification of [evaluate_in_home]. The URL parser is a parameter; the
    address parsers are the standard library's. *)

From stdpp Require Import base list option strings.
From Stdlib Require Import Lia NArith.
From S2P Require Import Prelude RustStr RustNum.

Module TelConsent.

(** ** The configuration's answer (crates/config/src/lib.rs) *)

Definition one_of (names : list string) (s : list N) : bool := existsb (fun n => str_eqb s (lit n)) names.

Definition parse_bool (raw : list N) : option bool :=
  let value := to_ascii_lowercase (trim raw) in
  if one_of ["1"; "true"; "yes"; "on"; "enabled"]%string value then Some true
  else if one_of ["0"; "false"; "no"; "off"; "disabled"]%string value then Some false
  else None.

(** The environment variables the resolution reads; [None] is unset. *)
Record EnvVars : Type := {
  GHOSTY_TELEMETRY : option (list N);
  DEEPSEEK_TELEMETRY : option (list N);
  GHOSTY_TELEMETRY_FLOOR : option (list N);
  GHOSTY_TELEMETRY_ENDPOINT : option (list N);
  DEEPSEEK_TELEMETRY_ENDPOINT : option (list N)
}.

Definition telemetry_var (env : EnvVars) : option (list N) :=
  match GHOSTY_TELEMETRY env with Some raw => Some raw | None => DEEPSEEK_TELEMETRY env end.

(** [read_telemetry_env]: the value, and whether it was set but unreadable. *)
Definition read_telemetry_env (env : EnvVars) : option bool * bool :=
  match telemetry_var env with
  | None => (None, false)
  | Some raw => match parse_bool raw with Some value => (Some value, false) | None => (None, true) end
  end.

Definition telemetry_floor_in_force (env : EnvVars) : bool :=
  match GHOSTY_TELEMETRY_FLOOR env ≫= parse_bool with
  | Some declared => declared
  | None =>
      match telemetry_var env with
      | None => false
      | Some raw => negb (bool_decide (parse_bool raw = Some true))
      end
  end.

Inductive TelemetrySource : Type := SourceCli | SourceEnv | SourceConfig | SourceDefault.

Definition source_as_str (s : TelemetrySource) : list N :=
  lit match s with SourceCli => "cli" | SourceEnv => "env" | SourceConfig => "config" | SourceDefault => "default" end.

Definition telemetry_consent_from_env (env_telemetry : option bool) (env_invalid floor : bool)
    (file_telemetry : option bool) : bool * TelemetrySource :=
  let persisted_off := bool_decide (file_telemetry = Some false) in
  let allowed := default true (match env_telemetry with Some v => Some v | None => file_telemetry end) in
  let on := allowed && negb (bool_decide (env_telemetry = Some false)) && negb env_invalid && negb floor
            && negb persisted_off in
  let source :=
    if negb on && (bool_decide (env_telemetry = Some false) || env_invalid || floor) then SourceEnv
    else if negb on && persisted_off then SourceConfig
    else match env_telemetry with
         | Some _ => SourceEnv
         | None => match file_telemetry with Some _ => SourceConfig | None => SourceDefault end
         end in
  (on, source).

Definition resolved_telemetry_consent (env : EnvVars) (file_telemetry : option bool) : bool * TelemetrySource :=
  let '(env_telemetry, env_invalid) := read_telemetry_env env in
  telemetry_consent_from_env env_telemetry env_invalid (telemetry_floor_in_force env) file_telemetry.

(** The two keys of the configuration file. *)
Record ConfigToml : Type := {
  cfg_telemetry : option bool;
  cfg_telemetry_endpoint : option (list N)
}.

Definition DEFAULT_TELEMETRY_ENDPOINT : list N := lit "https://telemetry.ghosty.net/v1/telemetry".

Record ResolvedRuntimeOptions : Type := {
  telemetry : bool;
  telemetry_source : TelemetrySource;
  telemetry_explicit_off : bool;
  telemetry_endpoint : option (list N)
}.

(** The telemetry part of [resolve_runtime_options]; [cli] is [--telemetry]. *)
Definition resolve_runtime_options (config : ConfigToml) (env : EnvVars) (cli : option bool) : ResolvedRuntimeOptions :=
  let '(on, source) := resolved_telemetry_consent env (cfg_telemetry config) in
  {| telemetry := on && negb (bool_decide (cli = Some false));
     telemetry_source :=
       if bool_decide (cli = Some false) || (bool_decide (cli = Some true) && on) then SourceCli else source;
     telemetry_explicit_off := bool_decide (cfg_telemetry config = Some false);
     telemetry_endpoint :=
       match (match GHOSTY_TELEMETRY_ENDPOINT env with Some e => Some e | None => DEEPSEEK_TELEMETRY_ENDPOINT env end) with
       | Some configured => if str_is_empty (trim configured) then None else Some configured
       | None =>
           match cfg_telemetry_endpoint config with
           | Some configured => if str_is_empty (trim configured) then None else Some configured
           | None => Some DEFAULT_TELEMETRY_ENDPOINT
           end
       end |}.

(** ** The recorded notice (crates/config/src/setup_state.rs) *)

Record SetupState : Type := {
  telemetry_notice_decided_for : option (list N);
  telemetry_opt_in : bool
}.

Definition setup_default : SetupState := {| telemetry_notice_decided_for := None; telemetry_opt_in := false |}.

Definition needs_telemetry_notice (s : SetupState) (version : list N) : bool :=
  negb (bool_decide (telemetry_notice_decided_for s = Some version)).

Definition record_telemetry_notice (s : SetupState) (version : list N) (opt_in : bool) : SetupState :=
  {| telemetry_notice_decided_for := Some version; telemetry_opt_in := opt_in |}.

Definition telemetry_accepted (s : SetupState) (version : list N) : bool :=
  negb (needs_telemetry_notice s version) && telemetry_opt_in s.

Definition telemetry_declined (s : SetupState) (version : list N) : bool :=
  negb (needs_telemetry_notice s version) && negb (telemetry_opt_in s).

Definition telemetry_opted_out (s : SetupState) : bool :=
  match telemetry_notice_decided_for s with Some _ => negb (telemetry_opt_in s) | None => false end.

(** The setup file as [load_setup_state_for_decision_at] finds it. *)
Inductive SetupFile : Type := SetupMissing | SetupUnreadable | SetupLoaded (s : SetupState).

Definition load_setup_state_for_decision_at (f : SetupFile) : option SetupState :=
  match f with SetupMissing => Some setup_default | SetupUnreadable => None | SetupLoaded s => Some s end.

(** ** Loopback hosts *)

(** [read_number] of the address parser: up to [limit] digits of the radix. *)
Fixpoint read_digits (value_of : N -> option N) (radix max : N) (limit : nat) (acc : N) (read : nat) (s : list N)
    : option (N * nat * list N) :=
  match limit, s with
  | S limit', c :: s' =>
      match value_of c with
      | Some d => let acc' := (acc * radix + d)%N in
                  if (acc' <=? max)%N then read_digits value_of radix max limit' acc' (read + 1) s' else None
      | None => Some (acc, read, s)
      end
  | _, _ => Some (acc, read, s)
  end.

Definition hex_value (c : N) : option N :=
  if is_ascii_digit c then Some (c - 48)%N
  else if between 97 102 c then Some (c - 87)%N
  else if between 65 70 c then Some (c - 55)%N
  else None.

Definition dec_value (c : N) : option N := if is_ascii_digit c then Some (c - 48)%N else None.

(** At least one digit; one more digit than the limit is an error; a number of a
    dotted address has no leading zero. *)
Definition read_number (value_of : N -> option N) (radix max : N) (limit : nat) (allow_zero_prefix : bool) (s : list N)
    : option (N * list N) :=
  let leading_zero := match s with c :: _ => (c =? 48)%N | [] => false end in
  match read_digits value_of radix max limit 0 0 s with
  | Some (n, count, rest) =>
      if count =? 0 then None
      else if negb allow_zero_prefix && leading_zero && (1 <? count) then None
      else match rest with
           | c :: _ => match value_of c with Some _ => None | None => Some (n, rest) end
           | [] => Some (n, rest)
           end
  | None => None
  end.

Definition read_char (c : N) (s : list N) : option (list N) :=
  match s with d :: s' => if (d =? c)%N then Some s' else None | [] => None end.

(** The separator stands before every group but the first. *)
Definition read_separator (c : N) (index : nat) (s : list N) : option (list N) :=
  match index with O => Some s | S _ => read_char c s end.

Fixpoint read_ipv4_from (index n : nat) (s : list N) : option (list N * list N) :=
  match n with
  | O => Some ([], s)
  | S n' =>
      s ← read_separator c_dot index s;
      '(octet, s) ← read_number dec_value 10 255 3 false s;
      '(octets, s) ← read_ipv4_from (S index) n' s;
      Some (octet :: octets, s)
  end.

Definition read_ipv4_addr (s : list N) : option (list N * list N) := read_ipv4_from 0 4 s.

(** [read_groups]: the groups read, whether they end in an IPv4 address, and the rest.
    [limit] groups are left to read. *)
Fixpoint read_groups (index limit : nat) (s : list N) : list N * bool * list N :=
  match limit with
  | O => ([], false, s)
  | S limit' =>
      let embedded := if 1 <=? limit' then read_separator c_colon index s ≫= read_ipv4_addr else None in
      match embedded with
      | Some ([a; b; c; d], rest) => ([256 * a + b; 256 * c + d]%N, true, rest)
      | _ =>
          match read_separator c_colon index s ≫= read_number hex_value 16 65535 4 true with
          | Some (g, rest) =>
              let '(groups, v4, rest) := read_groups (S index) limit' rest in (g :: groups, v4, rest)
          | None => ([], false, s)
          end
      end
  end.

(** [Ipv6Addr::from_str]: eight groups, or a head and a tail around [::]. *)
Definition parse_ipv6 (s : list N) : option (list N) :=
  let '(head, head_ipv4, rest) := read_groups 0 8 s in
  '(groups, rest) ←
    (if length head =? 8 then Some (head, rest)
     else if head_ipv4 then None
     else
       rest ← read_char c_colon rest;
       rest ← read_char c_colon rest;
       let '(tail, _, rest) := read_groups 0 (8 - (length head + 1)) rest in
       Some (head ++ replicate (8 - length head - length tail) 0%N ++ tail, rest));
  if str_is_empty rest then Some groups else None.

(** [bare.parse::<IpAddr>()] with [is_loopback]. *)
Definition ip_is_loopback (bare : list N) : option bool :=
  match parse_ipv4 bare with
  | Some ip => Some (octet_a ip =? 127)%N
  | None =>
      match parse_ipv6 bare with
      | Some groups => Some (bool_decide (groups = [0; 0; 0; 0; 0; 0; 0; 1]%N))
      | None => None
      end
  end.

Definition is_loopback_host (host : option (list N)) : bool :=
  match host with
  | None => false
  | Some host =>
      let bare := trim_end_matches (N.eqb 93) (trim_start_matches (N.eqb 91) host) in
      match ip_is_loopback bare with
      | Some loopback => loopback
      | None => eq_ignore_ascii_case bare (lit "localhost")
      end
  end.

(** ** The endpoint *)

Inductive EndpointError : Type := Unparseable | InsecureScheme | UnsupportedScheme.

Definition endpoint_error_label (e : EndpointError) : list N :=
  lit match e with
      | Unparseable => "unparseable"
      | InsecureScheme => "plaintext http to a non-loopback host"
      | UnsupportedScheme => "scheme is neither https nor http"
      end.

(** [reqwest::Url::parse]: the scheme and the host it finds. *)
Class UrlParser : Type := url_parse : list N -> option (list N * option (list N)).

Definition TombstoneGeneration : Type := list N.

(** Paths as their components. *)
Definition path : Type := list (list N).
Definition TELEMETRY_DIR : list N := lit "telemetry".

Inductive TelemetryEvaluation : Type :=
  | EvalEnabled (root : path) (endpoint : option (list N)) (generation : option TombstoneGeneration)
  | EvalOptedOut (root : option path)
  | EvalForcedOff.

Section Decision.
Context `{!UrlParser}.

Definition validate_endpoint (raw : list N) : result (list N) EndpointError :=
  let trimmed := trim raw in
  match url_parse trimmed with
  | None => Err Unparseable
  | Some (scheme, host) =>
      if str_eqb scheme (lit "https") then Ok trimmed
      else if str_eqb scheme (lit "http") then (if is_loopback_host host then Ok trimmed else Err InsecureScheme)
      else Err UnsupportedScheme
  end.

(** [evaluate_in_home]; [generation] is what reading the tombstone gives, which the
    code does last. *)
Definition evaluate_in_home (home : option path) (resolved : ResolvedRuntimeOptions) (setup : SetupState)
    (generation : result (option TombstoneGeneration) unit) : TelemetryEvaluation :=
  let root := (fun home => home ++ [TELEMETRY_DIR]) <$> home in
  if negb (telemetry resolved) then
    if telemetry_explicit_off resolved then EvalOptedOut root else EvalForcedOff
  else if telemetry_opted_out setup then EvalOptedOut root
  else match root with
  | None => EvalForcedOff
  | Some root =>
      let endpoint :=
        match telemetry_endpoint resolved with
        | Some raw => if negb (str_is_empty (trim raw))
                      then match validate_endpoint raw with Ok e => Some (Some e) | Err _ => None end
                      else Some None
        | None => Some None
        end in
      match endpoint with
      | None => EvalForcedOff
      | Some endpoint =>
          match generation with
          | Ok generation => EvalEnabled root endpoint generation
          | Err _ => EvalForcedOff
          end
      end
  end.

(** ** When a process may collect *)

(** Nothing in the environment or on the command line stops the run. *)
Definition run_allows (env : EnvVars) (cli : option bool) : Prop :=
  (forall raw, telemetry_var env = Some raw -> parse_bool raw = Some true)
  /\ (GHOSTY_TELEMETRY_FLOOR env ≫= parse_bool) <> Some true
  /\ cli <> Some false.

(** The endpoint a configuration stands for: an empty one is the local file, a missing
    one the shipped default. *)
Definition configured_endpoint (config : ConfigToml) (env : EnvVars) : list N :=
  default (default DEFAULT_TELEMETRY_ENDPOINT (cfg_telemetry_endpoint config))
    (match GHOSTY_TELEMETRY_ENDPOINT env with Some e => Some e | None => DEEPSEEK_TELEMETRY_ENDPOINT env end).

Lemma resolved_endpoint config env cli :
  telemetry_endpoint (resolve_runtime_options config env cli)
  = let e := configured_endpoint config env in if str_is_empty (trim e) then None else Some e.
Proof.
  unfold resolve_runtime_options, configured_endpoint. destruct (resolved_telemetry_consent _ _).
  cbn [telemetry_endpoint].
  by destruct (GHOSTY_TELEMETRY_ENDPOINT env), (DEEPSEEK_TELEMETRY_ENDPOINT env), (cfg_telemetry_endpoint config).
Qed.

Lemma consent_on env file :
  (resolved_telemetry_consent env file).1 = true
  <-> file <> Some false
      /\ (forall raw, telemetry_var env = Some raw -> parse_bool raw = Some true)
      /\ (GHOSTY_TELEMETRY_FLOOR env ≫= parse_bool) <> Some true.
Proof.
  unfold resolved_telemetry_consent, read_telemetry_env, telemetry_floor_in_force, telemetry_consent_from_env.
  destruct (telemetry_var env) as [raw|]; [destruct (parse_bool raw) as [[]|] eqn:Er|];
    (destruct (GHOSTY_TELEMETRY_FLOOR env ≫= parse_bool) as [[]|]); destruct file as [[]|]; cbn;
    (split;
     [intros Hon; first [discriminate Hon|split_and!; [done|intros r Hr; by simplify_eq|done]]
     |intros (Hf & Hv & Hfl); first [done|congruence|specialize (Hv _ eq_refl); congruence]]).
Qed.

Lemma resolved_telemetry config env cli :
  telemetry (resolve_runtime_options config env cli) = true
  <-> cfg_telemetry config <> Some false /\ run_allows env cli.
Proof.
  unfold resolve_runtime_options, run_allows. pose proof (consent_on env (cfg_telemetry config)) as Hon.
  destruct (resolved_telemetry_consent env (cfg_telemetry config)) as [on source]. cbn [telemetry fst] in *.
  rewrite andb_true_iff, Hon, negb_true_iff, bool_decide_eq_false. naive_solver.
Qed.

Lemma resolved_explicit config env cli :
  telemetry_explicit_off (resolve_runtime_options config env cli) = true <-> cfg_telemetry config = Some false.
Proof.
  unfold resolve_runtime_options. destruct (resolved_telemetry_consent env (cfg_telemetry config)).
  cbn [telemetry_explicit_off]. apply bool_decide_eq_true.
Qed.

(** Where a batch may go: nowhere, or to a validated endpoint. *)
Definition endpoint_allowed (e : list N) (endpoint : option (list N)) : Prop :=
  if str_is_empty (trim e) then endpoint = None
  else exists valid, validate_endpoint e = Ok valid /\ endpoint = Some valid.

Lemma validate_endpoint_ok raw e :
  validate_endpoint raw = Ok e
  <-> e = trim raw /\ exists scheme host, url_parse (trim raw) = Some (scheme, host)
      /\ (scheme = lit "https" \/ (scheme = lit "http" /\ is_loopback_host host = true)).
Proof.
  unfold validate_endpoint. destruct (url_parse (trim raw)) as [[scheme host]|];
    [|split; [done|intros (_ & ? & ? & ? & _); done]].
  assert ((exists s h, Some (scheme, host) = Some (s, h)
      /\ (s = lit "https" \/ (s = lit "http" /\ is_loopback_host h = true))) <->
    (scheme = lit "https" \/ (scheme = lit "http" /\ is_loopback_host host = true))) as Hex.
  { split; [by intros (? & ? & [= <- <-] & ?)|by exists scheme, host]. }
  rewrite Hex. clear Hex. destruct (str_eqb scheme (lit "https")) eqn:E1.
  { apply str_eqb_spec in E1. split; [intros [= <-]; by split; [|left]|by intros [-> _]]. }
  assert (scheme <> lit "https") as Hs by (intros Hs; apply str_eqb_spec in Hs; congruence).
  destruct (str_eqb scheme (lit "http")) eqn:E2.
  - apply str_eqb_spec in E2. destruct (is_loopback_host host) eqn:E3.
    + split; [intros [= <-]; split; [done|by right]|by intros [-> _]].
    + split; [done|]. intros [_ [?|[_ ?]]]; done.
  - assert (scheme <> lit "http") by (intros Hh; apply str_eqb_spec in Hh; congruence).
    split; [done|]. intros [_ [?|[? _]]]; done.
Qed.

(** The emit predicate, exactly. A process may collect if and only if the file does
    not say no, nothing in the environment or on the command line says no or is
    unreadable, no notice was declined, there is a home, the endpoint is absent,
    encrypted or on this machine, and the tombstone can be read; the wipe is reached
    exactly by the file's no, whatever the run says, and by a recorded decline of a run
    that would collect; plaintext to another machine is never allowed. *)
Theorem telemetry_permission_iff config env cli setup home generation :
  let outcome := evaluate_in_home home (resolve_runtime_options config env cli) setup generation in
  (forall root endpoint g, outcome = EvalEnabled root endpoint g <->
     cfg_telemetry config <> Some false /\ run_allows env cli /\ telemetry_opted_out setup = false
     /\ (exists h, home = Some h /\ root = h ++ [TELEMETRY_DIR])
     /\ endpoint_allowed (configured_endpoint config env) endpoint /\ generation = Ok g)
  /\ ((exists root, outcome = EvalOptedOut root) <->
      cfg_telemetry config = Some false \/ (run_allows env cli /\ telemetry_opted_out setup = true))
  /\ (forall root e g, outcome = EvalEnabled root (Some e) g ->
        exists scheme host, url_parse e = Some (scheme, host)
          /\ (scheme = lit "https" \/ (scheme = lit "http" /\ is_loopback_host host = true))).
Proof.
  cbv zeta. pose proof (resolved_telemetry config env cli) as Ht. pose proof (resolved_explicit config env cli) as Hx.
  pose proof (resolved_endpoint config env cli) as He. cbv zeta in He.
  assert (forall root endpoint g,
    evaluate_in_home home (resolve_runtime_options config env cli) setup generation = EvalEnabled root endpoint g <->
     cfg_telemetry config <> Some false /\ run_allows env cli /\ telemetry_opted_out setup = false
     /\ (exists h, home = Some h /\ root = h ++ [TELEMETRY_DIR])
     /\ endpoint_allowed (configured_endpoint config env) endpoint /\ generation = Ok g) as Hen.
  { intros root endpoint g. unfold evaluate_in_home, endpoint_allowed. rewrite He.
    destruct (telemetry (resolve_runtime_options config env cli)); cbn [negb].
    - destruct Ht as [[Hc Hr] _]; [done|]. destruct (telemetry_opted_out setup); [naive_solver|].
      destruct home as [h|]; cbn [fmap option_fmap]; [|naive_solver].
      destruct (str_is_empty (trim (configured_endpoint config env))) eqn:Ee; [|rewrite Ee; cbn [negb];
        destruct (validate_endpoint (configured_endpoint config env)) as [v|err]]; destruct generation as [g'|[]]; naive_solver.
    - destruct (telemetry_explicit_off _); naive_solver. }
  split_and!; [exact Hen| |].
  - unfold evaluate_in_home. destruct (telemetry (resolve_runtime_options config env cli)); cbn [negb].
    + destruct Ht as [[Hc Hr] _]; [done|]. destruct (telemetry_opted_out setup); [naive_solver|].
      split; [intros [root Hroot]; exfalso; revert Hroot; by repeat case_match|naive_solver].
    + assert (~ (cfg_telemetry config <> Some false /\ run_allows env cli)) as Hn by naive_solver.
      destruct (telemetry_explicit_off _); [naive_solver|].
      assert (cfg_telemetry config <> Some false) by naive_solver. naive_solver.
  - intros root e g (_ & _ & _ & _ & Ha & _)%Hen. unfold endpoint_allowed in Ha. case_match; [done|].
    destruct Ha as (valid & Hv & [= ->]). by apply validate_endpoint_ok in Hv as [-> Hv].
Qed.
End Decision.

(** The addresses a plaintext endpoint may have. *)
Example loopback_hosts :
  (fun h => is_loopback_host (Some (lit h))) <$> ["localhost"; "LOCALHOST"; "127.0.0.1"; "127.8.9.1"; "[::1]"; "[0:0:0:0:0:0:0:1]"]%string
    = replicate 6 true
  /\ (fun h => is_loopback_host (Some (lit h))) <$> ["localhost.example.com"; "128.0.0.1"; "127.0.0.01"; "127.1"; "[::2]"; "[::ffff:127.0.0.1]"; ""]%string
    = replicate 7 false.
Proof. by vm_compute. Qed.

End TelConsent.
