(* ===== verification/TelBuffer.v ===== *)
(** * The telemetry buffer (crates/telemetry/src/buffer.rs)

    The files below [$GHOSTY_HOME/telemetry], the sibling lock, the ring, the tombstone,
    the wipe and arming. Processes interleave between critical sections, so an operation
    is a program: a tree of lock-free looks and of critical sections. What the operating
    system answers during a step (a failed call, a held lock, a fresh nonce) is the
    [Io] of that step. *)

From stdpp Require Import base list option strings.
From Stdlib Require Import Lia NArith.
From S2P Require Import Prelude RustStr RustUtf8 TelConsent.

Module TelBuffer.
Import TelConsent.

Definition MAX_EVENTS : nat := N.to_nat 512.
Definition MAX_BYTES : nat := N.to_nat (256 * 1024).
Definition MAX_LINE_BYTES : nat := N.to_nat 4096.
Definition MAX_TOMBSTONE_BYTES : nat := N.to_nat 128.
Definition PROBE_BYTES : nat := N.to_nat 4096.

(** ** The disk *)

Inductive sink : Type := BufferFile | DryrunFile.
Inductive file : Type := Sink (s : sink) | Tombstone | InstallId | StateFile.

(** The telemetry directory; [None] is a missing file. The lock file has no contents. *)
Record Disk : Type := {
  has_dir : bool;
  buffer_jsonl : option (list N);
  dryrun_jsonl : option (list N);
  disabled : option (list N);
  install_id_json : option (list N);
  state_json : option (list N)
}.

(** What the rest of the machine says: the disk, the configuration file ([None] when it
    does not load) and the setup file. *)
Record Machine : Type := {
  disk : Disk;
  config_file : option ConfigToml;
  setup_file : SetupFile
}.

Definition with_disk (m : Machine) (d : Disk) : Machine :=
  {| disk := d; config_file := config_file m; setup_file := setup_file m |}.

Definition contents (d : Disk) (f : file) : option (list N) :=
  match f with
  | Sink BufferFile => buffer_jsonl d
  | Sink DryrunFile => dryrun_jsonl d
  | Tombstone => disabled d
  | InstallId => install_id_json d
  | StateFile => state_json d
  end.

Definition write (d : Disk) (f : file) (c : option (list N)) : Disk :=
  {| has_dir := has_dir d;
     buffer_jsonl := match f with Sink BufferFile => c | _ => buffer_jsonl d end;
     dryrun_jsonl := match f with Sink DryrunFile => c | _ => dryrun_jsonl d end;
     disabled := match f with Tombstone => c | _ => disabled d end;
     install_id_json := match f with InstallId => c | _ => install_id_json d end;
     state_json := match f with StateFile => c | _ => state_json d end |}.

Definition with_dir (d : Disk) : Disk :=
  {| has_dir := true; buffer_jsonl := buffer_jsonl d; dryrun_jsonl := dryrun_jsonl d; disabled := disabled d;
     install_id_json := install_id_json d; state_json := state_json d |}.

(** What the operating system answers in one step: whether a call on a file works
    ([io_exists]: whether it can be found out that the file is there), how
    many bytes a write gets through ([None] is all of them), whether the lock is free,
    and the values that come from outside. *)
Record Io : Type := {
  io_dir : bool;
  io_lock : bool;
  io_free : bool;
  io_stat : bool;
  io_is_dir : bool;
  io_exists : file -> bool;
  io_open : file -> bool;
  io_secure : file -> bool;
  io_write : file -> option nat;
  io_sync : file -> bool;
  io_read : file -> bool;
  io_remove : file -> bool;
  io_accepted : bool;
  io_uuid : list N;
  io_now : list N
}.

(** ** Programs *)

(** What a program does that others can see. *)
Inductive output : Type :=
  | Posted (endpoint body : list N)
  | Armed (observed : option TombstoneGeneration).

Inductive prog (A : Type) : Type :=
  | Ret (a : A)
  | Look {X : Type} (look : Io -> Machine -> X) (k : X -> prog A)
  | Locked {X : Type} (blocking : bool) (op : Io -> Machine -> Machine * list output * X) (k : option X -> prog A).
Arguments Ret {A} a.
Arguments Look {A X} look k.
Arguments Locked {A X} blocking op k.

Fixpoint bind {A B : Type} (p : prog A) (f : A -> prog B) : prog B :=
  match p with
  | Ret a => f a
  | Look look k => Look look (fun x => bind (k x) f)
  | Locked blocking op k => Locked blocking op (fun x => bind (k x) f)
  end.

(** [with_lock] (blocking) and [try_with_lock]: the directory and the lock file are
    created if they are missing; a held lock is waited for or given up on. *)
Definition enter {X : Type} (blocking : bool) (op : Io -> Machine -> Machine * list output * X) (io : Io) (m : Machine)
    : Machine * list output * option X :=
  if negb (has_dir (disk m)) && negb (io_dir io) then (m, [], None)
  else
    let m := with_disk m (with_dir (disk m)) in
    if negb (io_lock io) then (m, [], None)
    else if negb blocking && negb (io_free io) then (m, [], None)
    else let '(m', out, x) := op io m in (m', out, Some x).

(** One step of a program; [None] when it has returned. *)
Definition step {A : Type} (io : Io) (m : Machine) (p : prog A) : option (Machine * list output * prog A) :=
  match p with
  | Ret _ => None
  | Look look k => Some (m, [], k (look io m))
  | Locked blocking op k => let '(m', out, x) := enter blocking op io m in Some (m', out, k x)
  end.

(** A program run alone, with the same answers of the system throughout. *)
Fixpoint exec {A : Type} (io : Io) (p : prog A) (m : Machine) : Machine * list output * A :=
  match p with
  | Ret a => (m, [], a)
  | Look look k => exec io (k (look io m)) m
  | Locked blocking op k =>
      let '(m1, out1, x) := enter blocking op io m in
      let '(m2, out2, a) := exec io (k x) m1 in
      (m2, out1 ++ out2, a)
  end.

(** ** The tombstone *)

(** [Path::exists]: a file that cannot be looked at is taken for a missing one. *)
Definition path_exists (io : Io) (f : file) (d : Disk) : bool :=
  io_exists io f && match contents d f with Some _ => true | None => false end.

Definition tombstone_present (io : Io) (d : Disk) : bool := path_exists io Tombstone d.

Definition tombstone_generation (io : Io) (d : Disk) : result (option TombstoneGeneration) unit :=
  match disabled d with
  | None => Ok None
  | Some bytes =>
      if negb (io_read io Tombstone) then Err tt
      else if MAX_TOMBSTONE_BYTES <? length bytes then Err tt
      else Ok (Some bytes)
  end.

(** ** Appends and the ring *)

(** A file written through a handle opened without truncation. *)
Definition append_under_lock (s : sink) (buf : list N) (io : Io) (m : Machine) : Machine * list output * result bool unit :=
  let d := disk m in
  if tombstone_present io d then (m, [], Ok false)
  else if negb (io_open io (Sink s)) then (m, [], Err tt)
  else
    let old := default [] (contents d (Sink s)) in
    let opened := write d (Sink s) (Some old) in
    if negb (io_secure io (Sink s)) then (with_disk m opened, [], Err tt)
    else match io_write io (Sink s) with
    | Some n => (with_disk m (write opened (Sink s) (Some (old ++ take n buf))), [], Err tt)
    | None =>
        let m' := with_disk m (write opened (Sink s) (Some (old ++ buf))) in
        if negb (io_sync io (Sink s)) then (m', [], Err tt) else (m', [], Ok true)
    end.

Definition byte_len (lines : list (list N)) : nat := sum_list ((fun l => str_len l + 1) <$> lines).

(** [while kept.len() > 1 && byte_len(&kept) > MAX_BYTES { kept.remove(0) }]. *)
Fixpoint drop_oldest (kept : list (list N)) : list (list N) :=
  match kept with
  | _ :: ((_ :: _) as rest) => if MAX_BYTES <? byte_len kept then drop_oldest rest else kept
  | _ => kept
  end.

Definition nonblank_lines (text : list N) : list (list N) :=
  List.filter (fun l => negb (str_is_empty (trim l))) (str_lines text).

(** The lines the ring keeps, or [None] when the file is left alone. *)
Definition ring_kept (len : nat) (text : list N) : option (list (list N)) :=
  let lines := nonblank_lines text in
  if (length lines <=? MAX_EVENTS) && (len <=? MAX_BYTES) then None
  else Some (drop_oldest (reverse (take MAX_EVENTS (reverse lines)))).

Definition ring_body (kept : list (list N)) : list N :=
  let body := str_join [c_nl] kept in if str_is_empty body then body else body ++ [c_nl].

(** The compaction under the lock; the replacement through a temporary file happens as
    a whole or not at all. *)
Definition compact (s : sink) (io : Io) (m : Machine) : Machine * list output * unit :=
  let d := disk m in
  if tombstone_present io d then (m, [], tt)
  else match contents d (Sink s) with
  | None => (m, [], tt)
  | Some bytes =>
      if negb (io_stat io) || (length bytes <? PROBE_BYTES) || negb (io_read io (Sink s)) then (m, [], tt)
      else match from_utf8 bytes with
      | None => (m, [], tt)
      | Some text =>
          match ring_kept (length bytes) text with
          | None => (m, [], tt)
          | Some kept =>
              if io_open io (Sink s) && io_secure io (Sink s) && bool_decide (io_write io (Sink s) = None)
              then (with_disk m (write d (Sink s) (Some (as_bytes (ring_body kept)))), [], tt)
              else (m, [], tt)
          end
      end
  end.

(** The size the probe before the lock sees. *)
Definition probe (s : sink) (io : Io) (m : Machine) : option nat :=
  if io_stat io then length <$> contents (disk m) (Sink s) else None.

Definition enforce_ring (s : sink) : prog unit :=
  Look (probe s) (fun len =>
    match len with
    | None => Ret tt
    | Some len => if len <? PROBE_BYTES then Ret tt else Locked false (compact s) (fun _ => Ret tt)
    end).

Definition append_with_limit (s : sink) (line : list N) (limit : nat) : prog (option unit) :=
  let bytes := as_bytes line in
  if str_is_empty bytes || (limit <? length bytes + 1) then Ret None
  else
    Locked false (append_under_lock s (bytes ++ [c_nl])) (fun wrote =>
      match wrote with
      | Some (Ok true) => bind (enforce_ring s) (fun _ => Ret (Some tt))
      | _ => Ret None
      end).

Definition append (s : sink) (line : list N) : prog (option unit) := append_with_limit s line MAX_LINE_BYTES.
Definition append_locked (s : sink) (line : list N) : prog (option unit) := append_with_limit s line MAX_BYTES.

(** ** Draining *)

Definition read_lines (s : sink) (io : Io) (d : Disk) : list (list N) :=
  match contents d (Sink s) with
  | Some bytes =>
      if io_read io (Sink s) then match from_utf8 bytes with Some text => nonblank_lines text | None => [] end else []
  | None => []
  end.

(** [truncate]: whether it succeeded. *)
Definition truncate (s : sink) (io : Io) (d : Disk) : Disk * bool :=
  if negb (path_exists io (Sink s) d) then (d, true)
  else if negb (io_open io (Sink s)) then (d, false) else (write d (Sink s) (Some []), io_secure io (Sink s)).

Definition drain_under_lock (io : Io) (m : Machine) : Machine * list output * result (list (list N)) unit :=
  if tombstone_present io (disk m) then (m, [], Ok [])
  else
    match read_lines BufferFile io (disk m) with
    | [] => (m, [], Ok [])
    | lines =>
        let '(d, ok) := truncate BufferFile io (disk m) in
        (with_disk m d, [], if ok then Ok lines else Err tt)
    end.

Definition drain : prog (list (list N)) :=
  Look (fun io m => tombstone_present io (disk m)) (fun present =>
    if present then Ret []
    else Locked false drain_under_lock (fun r => match r with Some (Ok lines) => Ret lines | _ => Ret [] end)).

(** ** The wipe and arming *)

Definition remove (f : file) (io : Io) (d : Disk) : Disk * bool :=
  if negb (path_exists io f d) then (d, true)
  else if io_remove io f then (write d f None, true) else (d, false).

(** Steps 3 and 4 of the wipe: every one is tried, the result says that all worked. *)
Definition erase (io : Io) (d : Disk) : Disk * bool :=
  let '(d, ok1) := truncate BufferFile io d in
  let '(d, ok2) := truncate DryrunFile io d in
  let '(d, ok3) := remove InstallId io d in
  let '(d, ok4) := remove StateFile io d in
  (d, ok1 && ok2 && ok3 && ok4).

(** A fresh generation is written unless a readable one is there; any failure on the
    way ends the wipe. *)
Definition write_tombstone (io : Io) (d : Disk) : Disk * bool :=
  match tombstone_generation io d with
  | Ok (Some _) => (d, true)
  | _ =>
      if negb (io_open io Tombstone) then (d, false)
      else if negb (io_secure io Tombstone) then (write d Tombstone (Some []), false)
      else match io_write io Tombstone with
      | Some n => (write d Tombstone (Some (take n (io_uuid io))), false)
      | None => (write d Tombstone (Some (io_uuid io)), io_sync io Tombstone)
      end
  end.

Definition wipe_under_lock (io : Io) (m : Machine) : Machine * list output * result unit unit :=
  let '(d, written) := write_tombstone io (disk m) in
  if negb written then (with_disk m d, [], Err tt)
  else let '(d, ok) := erase io d in (with_disk m d, [], if ok then Ok tt else Err tt).

Definition wipe : prog (result unit unit) := Locked true wipe_under_lock (fun r => Ret (default (Err tt) r)).

(** [arm]; [permission] is [permission_still_enabled]. *)
Definition arm_under_lock (observed : option TombstoneGeneration) (permission : Io -> Machine -> bool) (io : Io) (m : Machine)
    : Machine * list output * result unit unit :=
  match tombstone_generation io (disk m) with
  | Err _ => (m, [], Err tt)
  | Ok current =>
      if negb (bool_decide (current = observed)) then (m, [], Err tt)
      else if negb (permission io m) then (m, [], Err tt)
      else
        let '(d, removed) := remove Tombstone io (disk m) in
        if negb removed then (m, [], Err tt)
        else let '(d, ok) := truncate BufferFile io d in
             (with_disk m d, [Armed observed], if ok then Ok tt else Err tt)
  end.

Definition arm (observed : option TombstoneGeneration) (permission : Io -> Machine -> bool) : prog (result unit unit) :=
  Locked true (arm_under_lock observed permission) (fun r => Ret (default (Err tt) r)).

End TelBuffer.
