(* ===== verification/TelSession.v ===== *)
(** * Telemetry sessions (crates/telemetry/src/decision.rs, envelope.rs, client.rs, actor.rs, lib.rs)

    Consent, arming, recording and the flush, as programs over the shared directory, and
    the interleaving of the programs of any number of processes. The JSON codecs, the
    URL, UUID and timestamp parsers are parameters. *)

From stdpp Require Import base list option strings.
From Stdlib Require Import Lia NArith ZArith.
From S2P Require Import Prelude RustStr RustUtf8 TelEvent TelConsent TelBuffer.

Module TelSession.
Import TelEvent TelConsent TelBuffer.

(** ** Data *)

Record TelemetryConsent : Type := {
  consent_root : path;
  consent_endpoint : option (list N);
  consent_surface : Surface;
  consent_generation : option TombstoneGeneration
}.

Inductive TelemetryDecision : Type :=
  | Enabled (consent : TelemetryConsent)
  | OptedOut
  | ForcedOff.

Definition is_enabled (d : TelemetryDecision) : bool := match d with Enabled _ => true | _ => false end.

Definition decision_label (d : TelemetryDecision) : list N :=
  lit match d with Enabled _ => "enabled" | OptedOut => "opted_out" | ForcedOff => "forced_off" end.

Record InstallIdRecord : Type := { install_schema : N; install_id : list N; rotated_at : list N }.

Record TelemetryState : Type := {
  state_schema : N;
  last_version : option (list N);
  last_flush : option (list N)
}.

Definition state_default : TelemetryState := {| state_schema := 0; last_version := None; last_flush := None |}.

Definition ROTATION_DAYS : Z := 90.

(** [serde_json], [uuid::Uuid::parse_str] and the age in days of a timestamp at a time
    ([None] when it is no timestamp). *)
Class TelCodec : Type := {
  event_to_string : Event -> option (list N);
  event_from_str : list N -> option Event;
  batch_to_string : Batch -> option (list N);
  install_to_string : InstallIdRecord -> list N;
  install_from_str : list N -> option InstallIdRecord;
  state_to_string : TelemetryState -> list N;
  state_from_str : list N -> option TelemetryState;
  uuid_parses : list N -> bool;
  age_in_days : list N -> list N -> option Z
}.

(** What a process knows of its surroundings: its home, its environment, and what the
    build says of itself. *)
Record Context_ : Type := {
  ctx_home : option path;
  ctx_env : EnvVars;
  ctx_endpoint : option (list N);
  ctx_surface : Surface;
  ctx_app_version : list N;
  ctx_git_sha : option (list N);
  ctx_os : Os;
  ctx_arch : Arch;
  ctx_libc : Libc;
  ctx_tty : bool
}.

Inductive FlushOutcome : Type := Empty | Buffered | DryRun | Sent | Dropped | Suppressed | TimedOut.
Inductive SendOutcome : Type := SentDryRun | Accepted | SendDropped.

Section Session.
Context `{!UrlParser, !TelCodec}.

(** ** Decisions *)

(** [opted_out]: the wipe, if the directory exists. *)
Definition opted_out (root : option path) : prog TelemetryDecision :=
  match root with
  | None => Ret OptedOut
  | Some _ =>
      Look (fun io m => io_is_dir io && has_dir (disk m)) (fun is_dir =>
        if is_dir then bind wipe (fun _ => Ret OptedOut) else Ret OptedOut)
  end.

Definition decide_in_home (home : option path) (resolved : ResolvedRuntimeOptions) (setup : SetupState) (surface : Surface)
    : prog TelemetryDecision :=
  Look (fun io m => tombstone_generation io (disk m)) (fun generation =>
    match evaluate_in_home home resolved setup generation with
    | EvalEnabled root endpoint g =>
        Ret (Enabled {| consent_root := root; consent_endpoint := endpoint; consent_surface := surface;
                        consent_generation := g |})
    | EvalOptedOut root => opted_out root
    | EvalForcedOff => Ret ForcedOff
    end).

(** [re_decide]: the configuration and the setup file as they are now, without command
    line. *)
Definition re_decide (c : Context_) : prog TelemetryDecision :=
  Look (fun _ m => config_file m) (fun config =>
    match config with
    | None => Ret ForcedOff
    | Some config =>
        Look (fun _ m => load_setup_state_for_decision_at (setup_file m)) (fun setup =>
          match setup with
          | None => Ret ForcedOff
          | Some setup => decide_in_home (ctx_home c) (resolve_runtime_options config (ctx_env c) None) setup (ctx_surface c)
          end)
    end).

(** [permission_still_enabled_in_home], read under the lock. *)
Definition permission_still_enabled (c : Context_) (expected_root : path) (io : Io) (m : Machine) : bool :=
  match config_file m, load_setup_state_for_decision_at (setup_file m) with
  | Some config, Some setup =>
      match evaluate_in_home (ctx_home c) (resolve_runtime_options config (ctx_env c) None) setup
              (tombstone_generation io (disk m)) with
      | EvalEnabled root _ _ => bool_decide (root = expected_root)
      | _ => false
      end
  | _, _ => false
  end.

(** ** Identity and state (envelope.rs) *)

(** [atomic_write_json] of crates/config/src/persistence.rs: the JSON text and a newline
    through a temporary file, so all of it or nothing. *)
Definition atomic_write_json (f : file) (body : list N) (io : Io) (d : Disk) : Disk * bool :=
  if io_open io f && bool_decide (io_write io f = None) && io_secure io f
  then (write d f (Some (as_bytes (body ++ [c_nl]))), true) else (d, false).

Definition read_text (f : file) (io : Io) (d : Disk) : option (list N) :=
  bytes ← contents d f; if io_read io f then from_utf8 bytes else None.

Definition is_expired (rotated now : list N) : bool :=
  match age_in_days rotated now with None => true | Some days => (ROTATION_DAYS <=? days)%Z end.

Definition install_id_under_lock (io : Io) (m : Machine) : Machine * list output * result InstallIdRecord unit :=
  let d := disk m in
  if tombstone_present io d then (m, [], Err tt)
  else
    let existing := r ← read_text InstallId io d ≫= install_from_str;
                    if uuid_parses (trim (install_id r)) && negb (is_expired (rotated_at r) (io_now io)) then Some r else None in
    match existing with
    | Some r => (m, [], Ok r)
    | None =>
        let r := {| install_schema := 1; install_id := io_uuid io; rotated_at := io_now io |} in
        let '(d, ok) := atomic_write_json InstallId (install_to_string r) io d in
        (with_disk m d, [], if ok then Ok r else Err tt)
    end.

Definition read_or_create_install_id : prog (result InstallIdRecord unit) :=
  Locked false install_id_under_lock (fun r => Ret (default (Err tt) r)).

Definition read_state (io : Io) (m : Machine) : TelemetryState :=
  default state_default (read_text StateFile io (disk m) ≫= state_from_str).

Definition write_state_under_lock (s : TelemetryState) (io : Io) (m : Machine) : Machine * list output * result unit unit :=
  if tombstone_present io (disk m) then (m, [], Err tt)
  else let '(d, ok) := atomic_write_json StateFile (state_to_string s) io (disk m) in
       (with_disk m d, [], if ok then Ok tt else Err tt).

Definition write_state (s : TelemetryState) : prog (result unit unit) :=
  Locked false (write_state_under_lock s) (fun r => Ret (default (Err tt) r)).

(** ** Delivery (client.rs) *)

(** The POST under the lock; the answer of the server is the step's. *)
Definition post_under_lock (endpoint body : list N) (io : Io) (m : Machine) : Machine * list output * SendOutcome :=
  if tombstone_present io (disk m) then (m, [], SendDropped)
  else (m, [Posted endpoint body], if io_accepted io then Accepted else SendDropped).

Definition send (endpoint : option (list N)) (batch : Batch) : prog SendOutcome :=
  match batch_to_string batch with
  | None => Ret SendDropped
  | Some body =>
      match endpoint with
      | None => bind (append_locked DryrunFile body) (fun r => Ret (match r with Some _ => SentDryRun | None => SendDropped end))
      | Some endpoint => Locked false (post_under_lock endpoint body) (fun r => Ret (default SendDropped r))
      end
  end.

(** ** The writer (actor.rs) *)

Definition append_event (e : Event) : prog unit :=
  match event_to_string e with
  | None => Ret tt
  | Some line => bind (append BufferFile line) (fun _ => Ret tt)
  end.

Definition send_outcome (o : SendOutcome) : FlushOutcome :=
  match o with SentDryRun => DryRun | Accepted => Sent | SendDropped => Dropped end.

Definition mk_batch (c : Context_) (now : list N) (r : InstallIdRecord) (events : list Event) : Batch :=
  {| batch_schema_version := SCHEMA_VERSION; sent_at := now; batch_install_id := install_id r;
     app_version := ctx_app_version c; git_sha := ctx_git_sha c; batch_surface := ctx_surface c; os := ctx_os c;
     arch := ctx_arch c; libc := ctx_libc c; tty := ctx_tty c; events := events |}.

(** Identity, state and delivery of the events of a batch. *)
Definition deliver (c : Context_) (events : list Event) : prog FlushOutcome :=
  bind read_or_create_install_id (fun r =>
    match r with
    | Err _ => Ret Dropped
    | Ok r =>
        Look (fun io m => (read_state io m, io_now io)) (fun '(s, now) =>
          bind (write_state {| state_schema := SCHEMA_VERSION; last_version := last_version s; last_flush := Some now |})
            (fun _ =>
               Look (fun io _ => io_now io) (fun now =>
                 bind (send (ctx_endpoint c) (mk_batch c now r events)) (fun o => Ret (send_outcome o)))))
    end).

Definition flush (c : Context_) : prog FlushOutcome :=
  bind (re_decide c) (fun d =>
    if negb (is_enabled d) then Ret Suppressed
    else
      Look (fun io m => tombstone_present io (disk m)) (fun present =>
        if present then Ret Suppressed
        else
          bind drain (fun lines =>
            match lines with
            | [] => Ret Empty
            | _ => match parse_events event_from_str lines with [] => Ret Empty | events => deliver c events end
            end))).

Definition persist_local (c : Context_) : prog FlushOutcome :=
  bind (re_decide c) (fun d =>
    if negb (is_enabled d) then Ret Suppressed
    else
      Look (fun io m => tombstone_present io (disk m)) (fun present =>
        if present then Ret Suppressed
        else match ctx_endpoint c with
             | None => flush c
             | Some _ =>
                 Look (fun io m => read_lines BufferFile io (disk m)) (fun lines =>
                   Ret (match lines with [] => Empty | _ => Buffered end))
             end)).

(** ** Arming (lib.rs) *)

(** [record_install_or_upgrade]: the event to queue. *)
Definition record_install_or_upgrade (current : list N) : prog (option Event) :=
  Look read_state (fun s =>
    match install_kind (last_version s) current with
    | None => Ret None
    | Some k =>
        bind (write_state {| state_schema := SCHEMA_VERSION; last_version := Some current; last_flush := last_flush s |})
          (fun r => Ret (match r with Ok _ => Some (InstallOrUpgrade k (last_version s)) | Err _ => None end))
    end).

(** [init]: [None] when the process stays unarmed, otherwise the event to queue. *)
Definition init (c : Context_) (consent : TelemetryConsent) : prog (option (option Event)) :=
  bind (arm (consent_generation consent) (permission_still_enabled c (consent_root consent))) (fun r =>
    match r with
    | Err _ => Ret None
    | Ok _ => bind (record_install_or_upgrade (ctx_app_version c)) (fun e => Ret (Some e))
    end).

Fixpoint append_events (es : list Event) : prog unit :=
  match es with [] => Ret tt | e :: es => bind (append_event e) (fun _ => append_events es) end.

(** The context of the writer: what the consent was given for. *)
Definition armed_context (c : Context_) (consent : TelemetryConsent) : Context_ :=
  {| ctx_home := ctx_home c; ctx_env := ctx_env c; ctx_endpoint := consent_endpoint consent;
     ctx_surface := consent_surface consent; ctx_app_version := ctx_app_version c; ctx_git_sha := ctx_git_sha c;
     ctx_os := ctx_os c; ctx_arch := ctx_arch c; ctx_libc := ctx_libc c; ctx_tty := ctx_tty c |}.

(** A session from its arming to its shutdown: the events the writer takes from its
    queue, then the flush. *)
Definition session (c : Context_) (consent : TelemetryConsent) (es : list Event) : prog FlushOutcome :=
  bind (init c consent) (fun armed =>
    match armed with
    | None => Ret Empty
    | Some first =>
        bind (append_events (match first with Some e => e :: es | None => es end)) (fun _ => flush (armed_context c consent))
    end).

(** ** Many processes *)

(** What any process may start at any time. *)
Inductive operation : Type :=
  | Decide (home : option path) (resolved : ResolvedRuntimeOptions) (setup : SetupState) (surface : Surface)
  | Init (c : Context_) (consent : TelemetryConsent)
  | RecordEvent (e : Event)
  | Flush (c : Context_)
  | PersistLocal (c : Context_).

Definition program (o : operation) : prog unit :=
  match o with
  | Decide home resolved setup surface => bind (decide_in_home home resolved setup surface) (fun _ => Ret tt)
  | Init c consent => bind (init c consent) (fun _ => Ret tt)
  | RecordEvent e => append_event e
  | Flush c => bind (flush c) (fun _ => Ret tt)
  | PersistLocal c => bind (persist_local c) (fun _ => Ret tt)
  end.

Inductive action : Type :=
  | Start (o : operation)
  | Run (thread : nat) (io : Io)
  | Configure (config : option ConfigToml) (setup : SetupFile).

(** The machine, the running programs and what was sent and armed. *)
Record World : Type := {
  machine : Machine;
  threads : list (prog unit);
  log : list output
}.

Definition act (w : World) (a : action) : World :=
  match a with
  | Start o => {| machine := machine w; threads := threads w ++ [program o]; log := log w |}
  | Run t io =>
      match threads w !! t ≫= step io (machine w) with
      | Some (m, out, p) => {| machine := m; threads := <[t := p]> (threads w); log := log w ++ out |}
      | None => w
      end
  | Configure config setup =>
      {| machine := {| disk := disk (machine w); config_file := config; setup_file := setup |};
         threads := threads w; log := log w |}
  end.

Definition run (w : World) (trace : list action) : World := fold_left act trace w.

End Session.
End TelSession.
