(* ===== verification/TelFacts.v ===== *)
(** * What telemetry promises

    The opt-out as an ordering boundary under every interleaving, the ring, the wipe, and
    what a flush sends and loses. *)

From stdpp Require Import base list option strings.
From Stdlib Require Import Lia NArith ZArith.
From S2P Require Import Prelude RustStr RustUtf8 TelEvent TelConsent TelBuffer TelSession.

Module TelFacts.
Import TelEvent TelConsent TelBuffer TelSession.

(** ** Critical sections *)

(** Every critical section of a program keeps a promise about the machine it finds, the
    one it leaves and what it sends. *)
Fixpoint respects {A : Type} (I : Io -> Machine -> Machine -> list output -> Prop) (p : prog A) : Prop :=
  match p with
  | Ret _ => True
  | Look _ k => forall x, respects I (k x)
  | Locked _ op k => (forall io m, I io m (op io m).1.1 (op io m).1.2) /\ forall x, respects I (k x)
  end.

Lemma respects_bind {A B} I (p : prog A) (f : A -> prog B) :
  respects I p -> (forall a, respects I (f a)) -> respects I (bind p f).
Proof. intros Hp Hf. induction p as [a|X look k IH|X b op k IH]; cbn in *; [done|auto|]. destruct Hp. split; auto. Qed.

Lemma exec_bind {A B} io (p : prog A) (f : A -> prog B) m :
  exec io (bind p f) m
  = let '(m1, out1, a) := exec io p m in let '(m2, out2, b) := exec io (f a) m1 in (m2, out1 ++ out2, b).
Proof.
  revert m. induction p as [a|X look k IH|X b op k IH]; intros m; cbn [bind exec].
  - by destruct (exec io (f a) m) as [[? ?] ?].
  - apply IH.
  - destruct (enter b op io m) as [[m1 out1] x]. rewrite IH.
    destruct (exec io (k x) m1) as [[m2 out2] a]. destruct (exec io (f a) m2) as [[m3 out3] c]. by rewrite (assoc_L (++)).
Qed.

(** ** While the tombstone stands *)

(** The tombstone is on the disk. *)
Definition stands (d : Disk) : bool := match disabled d with Some _ => true | None => false end.

Lemma stands_present io d : io_exists io Tombstone = true -> tombstone_present io d = stands d.
Proof. intros H. unfold tombstone_present, path_exists. by rewrite H. Qed.

(** The tombstone is there, and every other file is as it was, empty, or gone. *)
Definition quiet (d d' : Disk) : Prop :=
  stands d' = true
  /\ forall f, f <> Tombstone -> contents d' f = contents d f \/ contents d' f = Some [] \/ contents d' f = None.

(** The durable answers permit collection. *)
Definition permits (config : option ConfigToml) (file : SetupFile) : Prop :=
  exists c setup, config = Some c /\ load_setup_state_for_decision_at file = Some setup
    /\ cfg_telemetry c <> Some false /\ telemetry_opted_out setup = false.

Definition permitted (m : Machine) : Prop := permits (config_file m) (setup_file m).

(** The generation a step leaves: the one it found, or a beginning of its nonce. *)
Definition renewed (io : Io) (d d' : Disk) : Prop :=
  disabled d' = disabled d \/ exists n, disabled d' = Some (take n (io_uuid io)).

(** What a critical section does to a machine with a tombstone: nothing but erasing, or
    arming with the generation on the disk and permission. *)
Definition boundary (io : Io) (m m' : Machine) (out : list output) : Prop :=
  config_file m' = config_file m /\ setup_file m' = setup_file m
  /\ (io_exists io Tombstone = true -> stands (disk m) = true ->
      (out = [] /\ quiet (disk m) (disk m') /\ renewed io (disk m) (disk m'))
      \/ (exists g, out = [Armed (Some g)] /\ disabled (disk m) = Some g /\ permitted m)).

Lemma quiet_refl d : stands d = true -> quiet d d.
Proof. intros Hd. split; [done|]. by left. Qed.

Lemma quiet_trans d d' d'' : quiet d d' -> quiet d' d'' -> quiet d d''.
Proof.
  intros [_ H1] [Hd H2]. split; [done|]. intros f Hf. destruct (H2 f Hf) as [->|?]; [by apply H1|by right].
Qed.

Lemma boundary_refl io m : boundary io m m [].
Proof. split_and!; [done..|]. intros _ Ht. left. split_and!; [done|by apply quiet_refl|by left]. Qed.

(** A section that gives up when the tombstone is there. *)
Lemma boundary_guarded io m m' out :
  (tombstone_present io (disk m) = true -> m' = m /\ out = []) ->
  config_file m' = config_file m -> setup_file m' = setup_file m -> boundary io m m' out.
Proof.
  intros Hg Hc Hs. split_and!; [done..|]. intros Hio Ht. rewrite <- (stands_present io) in Ht by done. destruct (Hg Ht) as [-> ->]. left. rewrite stands_present in Ht by done.
  split_and!; [done|by apply quiet_refl|by left].
Qed.

Lemma append_boundary s buf io m : boundary io m (append_under_lock s buf io m).1.1 (append_under_lock s buf io m).1.2.
Proof.
  apply boundary_guarded; unfold append_under_lock; [intros Ht; by rewrite Ht|..]; by repeat case_match.
Qed.

Lemma compact_boundary s io m : boundary io m (compact s io m).1.1 (compact s io m).1.2.
Proof. apply boundary_guarded; unfold compact; [intros Ht; by rewrite Ht|..]; by repeat case_match. Qed.

Lemma drain_boundary io m : boundary io m (drain_under_lock io m).1.1 (drain_under_lock io m).1.2.
Proof. apply boundary_guarded; unfold drain_under_lock; [intros Ht; by rewrite Ht|..]; by repeat case_match. Qed.

#[export] Instance sink_eq_dec : EqDecision sink.
Proof. solve_decision. Defined.
#[export] Instance file_eq_dec : EqDecision file.
Proof. solve_decision. Defined.

Lemma contents_write d f c f' : contents (write d f c) f' = if decide (f = f') then c else contents d f'.
Proof. by destruct f as [[]| | |], f' as [[]| | |]. Qed.

(** Erasing leaves the tombstone alone. *)
Definition erases (d d' : Disk) : Prop :=
  disabled d' = disabled d
  /\ forall f, f <> Tombstone -> contents d' f = contents d f \/ contents d' f = Some [] \/ contents d' f = None.

Lemma erases_refl d : erases d d.
Proof. split; auto. Qed.

Lemma erases_trans d d' d'' : erases d d' -> erases d' d'' -> erases d d''.
Proof. intros [E1 H1] [E2 H2]. split; [congruence|]. intros f Hf. destruct (H2 f Hf) as [->|?]; [by apply H1|by right]. Qed.

Lemma erases_write d f c : f <> Tombstone -> c = Some [] \/ c = None -> erases d (write d f c).
Proof.
  intros Hf Hc. split; [by destruct f as [[]| | |]|]. intros f' Hf'. rewrite contents_write.
  destruct (decide (f = f')); [right; naive_solver|by left].
Qed.

Lemma truncate_erases s io d : erases d (truncate s io d).1.
Proof.
  unfold truncate. case_match; [apply erases_refl|]. case_match; [apply erases_refl|].
  apply erases_write; [done|by left].
Qed.

Lemma remove_erases f io d : f <> Tombstone -> erases d (remove f io d).1.
Proof.
  intros Hf. unfold remove. case_match; [apply erases_refl|]. case_match; [|apply erases_refl].
  apply erases_write; [done|by right].
Qed.

Lemma erase_erases io d : erases d (erase io d).1.
Proof.
  unfold erase. pose proof (truncate_erases BufferFile io d) as H1. destruct (truncate BufferFile io d) as [d1 ok1].
  pose proof (truncate_erases DryrunFile io d1) as H2. destruct (truncate DryrunFile io d1) as [d2 ok2].
  pose proof (remove_erases InstallId io d2 ltac:(done)) as H3. destruct (remove InstallId io d2) as [d3 ok3].
  pose proof (remove_erases StateFile io d3 ltac:(done)) as H4. destruct (remove StateFile io d3) as [d4 ok4].
  cbn [fst] in *. eauto using erases_trans.
Qed.

Lemma quiet_erases d d' d'' : quiet d d' -> erases d' d'' -> quiet d d''.
Proof.
  intros [Ht H1] [E H2]. split; [unfold stands in *; by rewrite E|].
  intros f Hf. destruct (H2 f Hf) as [->|?]; [by apply H1|by right].
Qed.

(** Writing the tombstone changes nothing else, and nothing at all if it fails at the
    first call. *)
Lemma write_tombstone_spec io d :
  (write_tombstone io d).1 = d \/ exists n, (write_tombstone io d).1 = write d Tombstone (Some (take n (io_uuid io))).
Proof.
  assert (exists n, io_uuid io = take n (io_uuid io)) as [n Hn]
    by (exists (length (io_uuid io)); by rewrite firstn_all).
  assert (forall c, c = [] \/ c = io_uuid io \/ (exists n, c = take n (io_uuid io)) ->
    exists n, write d Tombstone (Some c) = write d Tombstone (Some (take n (io_uuid io)))) as Hw.
  { intros c [->|[->|[k ->]]]; [by exists 0|exists n; by rewrite <-Hn|by exists k]. }
  unfold write_tombstone. destruct (tombstone_generation io d) as [[g|]|[]]; [by left| |];
    (repeat case_match; [by left|right; apply Hw; eauto..]).
Qed.

Lemma write_tombstone_quiet io d :
  stands d = true -> quiet d (write_tombstone io d).1 /\ renewed io d (write_tombstone io d).1.
Proof.
  intros Ht. destruct (write_tombstone_spec io d) as [->|[n ->]].
  - split; [by apply quiet_refl|by left].
  - split; [|right; by exists n]. split; [done|]. intros f Hf. left. rewrite contents_write. by rewrite decide_False.
Qed.

Lemma wipe_boundary io m : boundary io m (wipe_under_lock io m).1.1 (wipe_under_lock io m).1.2.
Proof.
  unfold wipe_under_lock. pose proof (write_tombstone_quiet io (disk m)) as Hq.
  destruct (write_tombstone io (disk m)) as [d written]. cbn [fst] in Hq.
  destruct written; cbn [negb].
  - pose proof (erase_erases io d) as He. destruct (erase io d) as [d' ok]. cbn [fst snd] in *.
    split_and!; [done..|]. intros _ Ht. destruct (Hq Ht) as [H1 H2]. left. split_and!; [done|by eapply quiet_erases|].
    destruct He as [E _]. unfold renewed in *. cbn [disk with_disk]. by rewrite E.
  - cbn [fst snd]. split_and!; [done..|]. intros _ Ht. destruct (Hq Ht) as [H1 H2]. by left.
Qed.

Section Boundary.
Context `{!UrlParser, !TelCodec}.

Lemma install_boundary io m : boundary io m (install_id_under_lock io m).1.1 (install_id_under_lock io m).1.2.
Proof.
  apply boundary_guarded; unfold install_id_under_lock; [intros Ht; by rewrite Ht|..];
    (destruct (tombstone_present io (disk m)); [done|]; cbv zeta; case_match; [done|]; by destruct (atomic_write_json _ _ _ _)).
Qed.

Lemma write_state_boundary s io m : boundary io m (write_state_under_lock s io m).1.1 (write_state_under_lock s io m).1.2.
Proof.
  apply boundary_guarded; unfold write_state_under_lock; [intros Ht; by rewrite Ht|..];
    (destruct (tombstone_present io (disk m)); [done|]; by destruct (atomic_write_json _ _ _ _)).
Qed.

Lemma post_boundary endpoint body io m : boundary io m (post_under_lock endpoint body io m).1.1 (post_under_lock endpoint body io m).1.2.
Proof. apply boundary_guarded; unfold post_under_lock; [intros Ht; by rewrite Ht|..]; by case_match. Qed.

Lemma permission_permitted c root io m : permission_still_enabled c root io m = true -> permitted m.
Proof.
  unfold permission_still_enabled, permitted, permits. destruct (config_file m) as [config|]; [|done].
  destruct (load_setup_state_for_decision_at (setup_file m)) as [setup|]; [|done].
  unfold evaluate_in_home. pose proof (resolved_telemetry config (ctx_env c) None) as Hr.
  destruct (telemetry (resolve_runtime_options config (ctx_env c) None)); cbn [negb];
    [|by destruct (telemetry_explicit_off _)].
  destruct (telemetry_opted_out setup) eqn:Es; [done|]. intros _. exists config, setup.
  destruct Hr as [[Hc _] _]; [done|]. done.
Qed.

Lemma arm_boundary observed c root io m :
  let op := arm_under_lock observed (permission_still_enabled c root) in boundary io m (op io m).1.1 (op io m).1.2.
Proof.
  cbv zeta. unfold arm_under_lock. destruct (tombstone_generation io (disk m)) as [current|] eqn:Eg; [|apply boundary_refl].
  destruct (bool_decide (current = observed)) eqn:Eo; [|apply boundary_refl]. apply bool_decide_eq_true in Eo as ->. cbn [negb].
  destruct (permission_still_enabled c root io m) eqn:Ep; [|apply boundary_refl]. cbn [negb].
  destruct (remove Tombstone io (disk m)) as [d removed]. destruct removed; [|apply boundary_refl]. cbn [negb].
  destruct (truncate BufferFile io d) as [d' ok]. cbn [fst snd]. split_and!; [done..|]. intros _ Ht. right.
  unfold stands, tombstone_generation in *. destruct (disabled (disk m)) as [g|]; [|done].
  repeat case_match; simplify_eq. exists g. split_and!; [done..|]. by eapply permission_permitted.
Qed.

(** ** Every program of the code *)

Abbreviation guarded := (respects boundary).

Lemma enforce_ring_guarded s : guarded (enforce_ring s).
Proof. intros [len|]; cbn; [|done]. case_match; [done|]. cbn. split; [apply compact_boundary|done]. Qed.

Lemma append_guarded s line limit : guarded (append_with_limit s line limit).
Proof.
  unfold append_with_limit. case_match; [done|]. cbn [respects]. split; [apply append_boundary|].
  intros [[[]|]|]; try done. apply respects_bind; [apply enforce_ring_guarded|done].
Qed.

Lemma append_event_guarded e : guarded (append_event e).
Proof. unfold append_event. case_match; [|done]. apply respects_bind; [apply append_guarded|done]. Qed.

Lemma wipe_guarded : guarded wipe.
Proof. split; [apply wipe_boundary|done]. Qed.

Lemma opted_out_guarded root : guarded (opted_out root).
Proof. destruct root; [|done]. intros []; [|done]. apply respects_bind; [apply wipe_guarded|done]. Qed.

Lemma decide_guarded home resolved setup surface : guarded (decide_in_home home resolved setup surface).
Proof. intros g. case_match; [done|apply opted_out_guarded|done]. Qed.

Lemma re_decide_guarded c : guarded (re_decide c).
Proof. intros [config|]; [|done]. intros [setup|]; [|done]. apply decide_guarded. Qed.

Lemma write_state_guarded s : guarded (write_state s).
Proof. split; [apply write_state_boundary|done]. Qed.

Lemma send_guarded endpoint batch : guarded (send endpoint batch).
Proof.
  unfold send. case_match; [|done]. destruct endpoint.
  - split; [apply post_boundary|done].
  - apply respects_bind; [apply append_guarded|done].
Qed.

Lemma drain_guarded : guarded drain.
Proof. intros []; [done|]. split; [apply drain_boundary|]. by intros [[]|]. Qed.

Lemma deliver_guarded c events : guarded (deliver c events).
Proof.
  apply respects_bind; [split; [apply install_boundary|done]|]. intros [r|]; [|done]. intros [s now].
  apply respects_bind; [apply write_state_guarded|]. intros _ now'. apply respects_bind; [apply send_guarded|done].
Qed.

Lemma flush_guarded c : guarded (flush c).
Proof.
  apply respects_bind; [apply re_decide_guarded|]. intros d. case_match; [done|]. intros []; [done|].
  apply respects_bind; [apply drain_guarded|]. intros [|]; [done|]. case_match; [done|]. apply deliver_guarded.
Qed.

Lemma persist_local_guarded c : guarded (persist_local c).
Proof.
  apply respects_bind; [apply re_decide_guarded|]. intros d. case_match; [done|]. intros []; [done|].
  destruct (ctx_endpoint c); [done|apply flush_guarded].
Qed.

Lemma init_guarded c consent : guarded (init c consent).
Proof.
  apply respects_bind; [split; [intros; apply arm_boundary|done]|]. intros [|]; [|done].
  apply respects_bind; [|done]. intros s. case_match; [|done]. apply respects_bind; [apply write_state_guarded|done].
Qed.

Lemma program_guarded o : guarded (program o).
Proof.
  destruct o; cbn [program]; try (apply respects_bind; [|done]);
    auto using decide_guarded, init_guarded, append_event_guarded, flush_guarded, persist_local_guarded.
Qed.

(** ** Every interleaving *)

Lemma enter_boundary {X} blocking (op : Io -> Machine -> Machine * list output * X) io m :
  (forall io m, boundary io m (op io m).1.1 (op io m).1.2) ->
  boundary io m (enter blocking op io m).1.1 (enter blocking op io m).1.2.
Proof.
  intros Hop. unfold enter. case_match; [apply boundary_refl|].
  assert (forall d', quiet (with_dir (disk m)) d' -> quiet (disk m) d') as Hq by (intros d' [? Hf]; by split).
  assert (boundary io m (with_disk m (with_dir (disk m))) []) as Hd.
  { split_and!; [done..|]. intros _ Ht. left. split_and!; [done|by apply Hq, quiet_refl|by left]. }
  case_match; [exact Hd|]. case_match; [exact Hd|].
  specialize (Hop io (with_disk m (with_dir (disk m)))). destruct (op io _) as [[m' out] x]. cbn [fst snd] in *.
  destruct Hop as (Hc & Hs & Hb). split_and!; [done..|]. intros Hio Ht. destruct (Hb Hio Ht) as [(? & ? & ?)|(g & ? & ? & ?)].
  - left. split_and!; [done|by apply Hq|done].
  - right. by exists g.
Qed.

Lemma step_guarded {A} io m (p : prog A) m' out p' :
  guarded p -> step io m p = Some (m', out, p') -> boundary io m m' out /\ guarded p'.
Proof.
  destruct p as [a|X look k|X b op k]; cbn [step respects]; [done|..].
  - intros Hk [= <- <- <-]. split; [apply boundary_refl|apply Hk].
  - intros [Hop Hk] Hs. pose proof (enter_boundary b op io m Hop) as He.
    destruct (enter b op io m) as [[m1 out1] x]. simplify_eq. split; [exact He|apply Hk].
Qed.

Definition sound (w : World) : Prop := Forall guarded (threads w).

(** The action's effect on a sound world. *)
Lemma act_sound w a :
  sound w ->
  sound (act w a)
  /\ exists out, log (act w a) = log w ++ out
     /\ match a with
        | Configure config setup => out = [] /\ disk (machine (act w a)) = disk (machine w)
            /\ config_file (machine (act w a)) = config /\ setup_file (machine (act w a)) = setup
        | Start _ => out = [] /\ machine (act w a) = machine w
        | Run _ io => boundary io (machine w) (machine (act w a)) out
        end.
Proof.
  intros Hw. destruct a as [o|thread io|config setup]; cbn [act].
  - split; [apply Forall_app; split; [done|by repeat constructor; apply program_guarded]|].
    exists []. by rewrite (right_id_L [] (++)).
  - destruct (threads w !! thread) as [p|] eqn:Ep; cbn [mbind option_bind];
      [|split; [done|]; exists []; rewrite (right_id_L [] (++)); split; [done|apply boundary_refl]].
    destruct (step io (machine w) p) as [[[m out] p']|] eqn:Es;
      [|split; [done|]; exists []; rewrite (right_id_L [] (++)); split; [done|apply boundary_refl]].
    eapply step_guarded in Es as [Hb Hp']; [|by eapply Forall_lookup_1 in Ep]. split; [by apply Forall_insert|].
    by exists out.
  - split; [done|]. exists []. by rewrite (right_id_L [] (++)).
Qed.

Lemma run_sound w trace : sound w -> sound (run w trace).
Proof.
  revert w. induction trace as [|a trace IH]; intros w Hw; [done|]. apply IH. by apply act_sound.
Qed.

Lemma run_log w trace : sound w -> exists new, log (run w trace) = log w ++ new.
Proof.
  revert w. induction trace as [|a trace IH]; intros w Hw; [exists []; by rewrite (right_id_L [] (++))|].
  destruct (act_sound w a Hw) as [Hw' (out & Hl & _)]. destruct (IH _ Hw') as [new Hn].
  exists (out ++ new). change (run w (a :: trace)) with (run (act w a) trace). by rewrite Hn, Hl, (assoc_L (++)).
Qed.

(** The generations a trace may put on the disk. *)
Definition drawn (trace : list action) (g : TombstoneGeneration) : Prop :=
  exists thread io n, Run thread io ∈ trace /\ g = take n (io_uuid io).

(** At some step of the trace the generation stood on the disk and the durable answers
    permitted collection; until then nothing was sent and nothing written. *)
Definition armed_at (w : World) (trace : list action) (g : TombstoneGeneration) : Prop :=
  exists before thread io after_, trace = before ++ Run thread io :: after_
    /\ log (run w before) = log w /\ quiet (disk (machine w)) (disk (machine (run w before)))
    /\ disabled (disk (machine (run w before))) = Some g /\ permitted (machine (run w before)).

(** Whether the tombstone is there can be found out in every step. *)
Definition seeing (trace : list action) : Prop :=
  Forall (fun a => match a with Run _ io => io_exists io Tombstone = true | _ => True end) trace.

Lemma boundary_holds w trace :
  seeing trace -> sound w -> stands (disk (machine w)) = true ->
  exists new, log (run w trace) = log w ++ new
    /\ ((new = [] /\ quiet (disk (machine w)) (disk (machine (run w trace))))
        \/ exists g rest, new = Armed (Some g) :: rest
             /\ (disabled (disk (machine w)) = Some g \/ drawn trace g) /\ armed_at w trace g).
Proof.
  intros Hsee. revert w. induction Hsee as [|a trace Ha0 Hsee IH]; intros w Hw Ht.
  { exists []. rewrite (right_id_L [] (++)). split; [done|]. left. split; [done|by apply quiet_refl]. }
  destruct (act_sound w a Hw) as [Hw' (out & Hl & Ha)].
  change (run w (a :: trace)) with (run (act w a) trace).
  assert (forall g, drawn trace g -> drawn (a :: trace) g) as Hdr
    by (intros g (th & io & n & Hin & Hg); exists th, io, n; split; [by right|done]).
  (* a quiet step, followed by the rest *)
  assert (out = [] -> quiet (disk (machine w)) (disk (machine (act w a))) ->
    (forall g, disabled (disk (machine (act w a))) = Some g ->
       disabled (disk (machine w)) = Some g \/ drawn (a :: trace) g) ->
    exists new, log (run (act w a) trace) = log w ++ new
      /\ ((new = [] /\ quiet (disk (machine w)) (disk (machine (run (act w a) trace))))
          \/ exists g rest, new = Armed (Some g) :: rest
               /\ (disabled (disk (machine w)) = Some g \/ drawn (a :: trace) g)
               /\ armed_at w (a :: trace) g)) as Hquiet.
  { intros -> Hq Hg. rewrite (right_id_L [] (++)) in Hl.
    destruct (IH _ Hw' (proj1 Hq)) as (new & Hn & Hend). exists new. rewrite Hn, Hl. split; [done|].
    destruct Hend as [[-> Hq']|(g & rest & -> & Hgen & Hper)].
    - left. split; [done|by eapply quiet_trans].
    - right. exists g, rest. split_and!; [done|destruct Hgen; auto|].
      destruct Hper as (before & thread & io & after_ & -> & Hlog & Hqb & Hd & Hp).
      exists (a :: before), thread, io, after_. change (run w (a :: before)) with (run (act w a) before).
      split_and!; [done|congruence|by eapply quiet_trans|done..]. }
  destruct a as [o|thread io|config setup].
  - destruct Ha as [-> Hm]. apply Hquiet; [done|rewrite Hm; by apply quiet_refl|rewrite Hm; auto].
  - destruct Ha as (Hc & Hs & Hb). destruct (Hb Ha0 Ht) as [(-> & Hq & Hr)|(g & -> & Hg & Hp)].
    + apply Hquiet; [done..|].
      intros g Hg. destruct Hr as [Hr|[n Hr]]; [left; congruence|right]. exists thread, io, n.
      split; [by left|congruence].
    + destruct (run_log (act w (Run thread io)) trace Hw') as [rest Hrest].
      exists (Armed (Some g) :: rest). rewrite Hrest, Hl, <-(assoc_L (++)). split; [done|]. right.
      exists g, rest. split_and!; [done|by left|].
      exists [], thread, io, trace. cbn [run foldl]. split_and!; [done|done|by apply quiet_refl|done..].
  - destruct Ha as (-> & Hd & Hc & Hs). apply Hquiet; [done|rewrite Hd; by apply quiet_refl|rewrite Hd; auto].
Qed.

(** C12: The opt-out is an ordering boundary. From the moment the tombstone is there, and
    whatever processes are in the middle of appending, compacting, draining or sending,
    no interleaving of them, of new operations, of failing calls and of edits of the
    configuration sends anything or adds a byte to any telemetry file, until a process
    arms that observed exactly the generation standing on the disk at that step, while
    the durable answers permit collection. Calls may fail in any step but one: it must
    be possible to find out whether the tombstone is there ([seeing]);
    [unseen_tombstone_is_ignored] shows what happens otherwise. *)
Theorem opt_out_is_a_boundary m before after_ :
  let w := run {| machine := m; threads := []; log := [] |} before in
  stands (disk (machine w)) = true -> seeing after_ ->
  let w' := run w after_ in
  exists new, log w' = log w ++ new
    /\ ((new = [] /\ quiet (disk (machine w)) (disk (machine w')))
        \/ exists g rest, new = Armed (Some g) :: rest
             /\ (disabled (disk (machine w)) = Some g \/ drawn after_ g)
             /\ armed_at w after_ g).
Proof. intros w Ht Hs. apply boundary_holds; [done| |done]. apply run_sound. constructor. Qed.

End Boundary.

(** ** The wipe *)

Definition erased (d : Disk) : Prop :=
  stands d = true
  /\ (forall s, contents d (Sink s) = None \/ contents d (Sink s) = Some [])
  /\ contents d InstallId = None /\ contents d StateFile = None.

Lemma truncate_ok s io d d' :
  io_exists io (Sink s) = true -> truncate s io d = (d', true) ->
  (contents d' (Sink s) = None \/ contents d' (Sink s) = Some [])
  /\ forall f, f <> Sink s -> contents d' f = contents d f.
Proof.
  unfold truncate, path_exists. intros ->. destruct (contents d (Sink s)) eqn:E; cbn [andb negb]; [|by intros [= <-]; auto].
  destruct (io_open io (Sink s)); cbn [negb]; intros [= <- _]. split.
  - right. rewrite contents_write. by rewrite decide_True.
  - intros f Hf. rewrite contents_write. by rewrite decide_False.
Qed.

Lemma remove_ok f io d d' :
  io_exists io f = true -> remove f io d = (d', true) -> contents d' f = None /\ forall f', f' <> f -> contents d' f' = contents d f'.
Proof.
  unfold remove, path_exists. intros ->. destruct (contents d f) eqn:E; cbn [andb negb]; [|by intros [= <-]]. destruct (io_remove io f); intros [= <-]. split.
  - rewrite contents_write. by rewrite decide_True.
  - intros f' Hf. rewrite contents_write. by rewrite decide_False.
Qed.

Lemma erase_ok io d d' :
  (forall f, io_exists io f = true) -> erase io d = (d', true) ->
  (forall s, contents d' (Sink s) = None \/ contents d' (Sink s) = Some [])
  /\ contents d' InstallId = None /\ contents d' StateFile = None.
Proof.
  intros Hio. unfold erase. destruct (truncate BufferFile io d) as [d1 ok1] eqn:E1, (truncate DryrunFile io d1) as [d2 ok2] eqn:E2,
    (remove InstallId io d2) as [d3 ok3] eqn:E3, (remove StateFile io d3) as [d4 ok4] eqn:E4.
  intros [= <- [[[-> ->]%andb_true_iff ->]%andb_true_iff ->]%andb_true_iff].
  apply truncate_ok in E1 as [H1 _]; [|done]. apply truncate_ok in E2 as [H2 F2]; [|done].
  apply remove_ok in E3 as [H3 F3], E4 as [H4 F4]; [|done..]. split_and!.
  - intros [].
    + rewrite F4, F3, F2 by done. done.
    + by rewrite F4, F3.
  - by rewrite F4.
  - done.
Qed.

Lemma write_tombstone_present io d :
  io_open io Tombstone = true \/ (write_tombstone io d).2 = true -> stands (write_tombstone io d).1 = true.
Proof.
  unfold write_tombstone. unfold tombstone_generation, stands. intros Ho.
  destruct (disabled d) as [bytes|] eqn:Ed.
  - destruct (negb (io_read io Tombstone)), (MAX_TOMBSTONE_BYTES <? length bytes); cbn [fst snd] in *;
      destruct (io_open io Tombstone), (io_secure io Tombstone), (io_write io Tombstone); cbn; rewrite ?Ed; done.
  - destruct (io_open io Tombstone); cbn [negb] in *; [|naive_solver]. by repeat case_match.
Qed.

(** What a wipe leaves. When it reports success the tombstone is there and, if it could be
    found out which files are there, both sinks are empty or missing and the identity and
    the state are gone; when it reports an
    error the tombstone is there all the same, or nothing at all was changed because the
    lock or the tombstone itself could not be opened. It sends nothing. *)
Theorem wipe_outcomes io m :
  let '(m', out, r) := exec io wipe m in
  out = [] /\ config_file m' = config_file m /\ setup_file m' = setup_file m
  /\ match r with
     | Ok _ => stands (disk m') = true /\ ((forall f, io_exists io f = true) -> erased (disk m'))
     | Err _ => stands (disk m') = true
                \/ ((io_open io Tombstone = false \/ io_dir io = false \/ io_lock io = false)
                    /\ forall f, contents (disk m') f = contents (disk m) f)
     end.
Proof.
  unfold wipe. cbn [exec]. unfold enter. destruct (negb (has_dir (disk m)) && negb (io_dir io)) eqn:Hd.
  { apply andb_true_iff in Hd as [_ ->%negb_true_iff]. cbn [exec app default]. split_and!; [done..|]. right. auto. }
  destruct (negb (io_lock io)) eqn:Hl.
  { apply negb_true_iff in Hl. cbn [exec app default]. split_and!; [done..|]. right. auto. }
  cbn [negb andb]. unfold wipe_under_lock. set (d := disk (with_disk m (with_dir (disk m)))).
  pose proof (write_tombstone_present io d) as Hp. pose proof (write_tombstone_spec io d) as Hs.
  destruct (write_tombstone io d) as [d1 written] eqn:Hw. cbn [fst snd] in *. destruct written; cbn [negb].
  - destruct (erase io d1) as [d2 ok] eqn:He. pose proof (erase_erases io d1) as [Ht _]. rewrite He in Ht.
    assert (stands d2 = true) as Hp2 by (unfold stands in *; cbn [fst] in Ht; rewrite Ht; auto).
    cbn [exec app default]. split_and!; [done..|]. destruct ok; cbn [default]; [|by left].
    split; [done|]. intros Hio. apply erase_ok in He as (H1 & H2 & H3); [|done]. split_and!; [|destruct (disk (with_disk m d2))..]; done.
  - cbn [exec app default]. split_and!; [done..|]. destruct (io_open io Tombstone) eqn:Ho; [left; cbn; auto|].
    right. split; [by left|]. cbn [disk with_disk]. unfold write_tombstone in Hw. rewrite Ho in Hw. cbn [negb] in Hw.
    assert (d1 = d) as -> by by (repeat case_match; simplify_eq). done.
Qed.

Lemma with_dir_id m : has_dir (disk m) = true -> with_disk m (with_dir (disk m)) = m.
Proof. by destruct m as [[] ? ?]; cbn; intros ->. Qed.

(** A failed wipe can leave everything in place. When the tombstone cannot be opened,
    the decision is still the opt-out but nothing was erased and no tombstone is there,
    so what is in the buffer stays there to be drained; the documentation says that the
    tombstone is there if any part of the wipe fails. *)
Theorem failed_wipe_leaves_everything `{!UrlParser} home resolved setup surface io m root :
  evaluate_in_home home resolved setup (tombstone_generation io (disk m)) = EvalOptedOut (Some root) ->
  has_dir (disk m) = true -> disabled (disk m) = None -> io_open io Tombstone = false ->
  exec io (decide_in_home home resolved setup surface) m = (m, [], OptedOut)
  /\ stands (disk m) = false.
Proof.
  intros He Hd Ht Ho. unfold decide_in_home. cbn [exec]. rewrite He. cbn [exec opted_out]. rewrite Hd, andb_true_r. destruct (io_is_dir io); cbn [exec]; [|unfold stands; by rewrite Ht].
  rewrite exec_bind.
  unfold wipe. cbn [exec]. unfold enter. rewrite Hd, with_dir_id by done. cbn [negb andb].
  unfold stands. rewrite Ht. split; [|done].
  destruct (io_lock io); cbn [negb exec app]; [|done].
  unfold wipe_under_lock, write_tombstone, tombstone_generation. rewrite Ht, Ho. cbn [negb exec app].
  by destruct m.
Qed.

(** ** Concrete sessions *)

(** A machine on which every call works, and codecs for the events of the examples. *)
Definition calm_io : Io :=
  {| io_dir := true; io_lock := true; io_free := true; io_stat := true; io_is_dir := true; io_exists := fun _ => true; io_open := fun _ => true;
     io_secure := fun _ => true; io_write := fun _ => None; io_sync := fun _ => true; io_read := fun _ => true;
     io_remove := fun _ => true; io_accepted := true; io_uuid := lit "9b2e"; io_now := lit "2026-01-01T00:00:00Z" |}.

#[export] Instance sample_urls : UrlParser :=
  fun s => if starts_with (lit "https://") s then Some (lit "https", Some (lit "telemetry.ghosty.net")) else None.

#[export] Instance sample_codec : TelCodec := {|
  event_to_string e := Some (event_name e);
  event_from_str s := if str_eqb s (lit "session_start") then Some (SessionStart Unknown) else None;
  batch_to_string b := Some (lit "batch of " ++ dec (N.of_nat (length (events b))));
  install_to_string r := install_id r;
  install_from_str s := Some {| install_schema := 1; install_id := s; rotated_at := [] |};
  state_to_string _ := lit "state";
  state_from_str _ := None;
  uuid_parses s := bool_decide (length s = 4);
  age_in_days _ _ := Some 0%Z
|}.

Definition sample_env : EnvVars :=
  {| GHOSTY_TELEMETRY := None; DEEPSEEK_TELEMETRY := None; GHOSTY_TELEMETRY_FLOOR := None;
     GHOSTY_TELEMETRY_ENDPOINT := None; DEEPSEEK_TELEMETRY_ENDPOINT := None |}.

Definition sample_context : Context_ :=
  {| ctx_home := Some [lit "home"]; ctx_env := sample_env; ctx_endpoint := Some DEFAULT_TELEMETRY_ENDPOINT;
     ctx_surface := Tui; ctx_app_version := lit "0.8.1"; ctx_git_sha := None; ctx_os := Linux; ctx_arch := X86_64;
     ctx_libc := Gnu; ctx_tty := true |}.

Definition sample_config (telemetry : option bool) : ConfigToml :=
  {| cfg_telemetry := telemetry; cfg_telemetry_endpoint := None |}.

Definition sample_disk (buffer tombstone : option (list N)) : Disk :=
  {| has_dir := true; buffer_jsonl := buffer; dryrun_jsonl := None; disabled := tombstone; install_id_json := None;
     state_json := None |}.

Definition sample_machine (telemetry : option bool) (d : Disk) : Machine :=
  {| disk := d; config_file := Some (sample_config telemetry); setup_file := SetupMissing |}.

(** A flush was about to drain when the file said no; another process wipes, and the
    flush goes on. *)
Definition before_wipe : list action :=
  [Start (Flush sample_context); Run 0 calm_io; Run 0 calm_io; Run 0 calm_io; Configure (Some (sample_config (Some false))) SetupMissing;
   Start (Decide (Some [lit "home"]) (resolve_runtime_options (sample_config (Some false)) sample_env None) setup_default Cli);
   Run 1 calm_io; Run 1 calm_io; Run 1 calm_io].
Definition after_wipe : list action := replicate 6 (Run 0 calm_io) ++ [Start (RecordEvent (SessionStart Unknown)); Run 2 calm_io].

Definition pending_machine : Machine :=
  sample_machine None (sample_disk (Some (as_bytes (lit "session_start" ++ [c_nl]))) None).

Lemma opt_out_is_a_boundary_witness :
  let w := run {| machine := pending_machine; threads := []; log := [] |} before_wipe in
  stands (disk (machine w)) = true
  /\ let w' := run w after_wipe in
     exists new, log w' = log w ++ new
       /\ ((new = [] /\ quiet (disk (machine w)) (disk (machine w')))
           \/ exists g rest, new = Armed (Some g) :: rest
                /\ (disabled (disk (machine w)) = Some g \/ drawn after_wipe g)
                /\ armed_at w after_wipe g).
Proof.
  split; [vm_compute; reflexivity|]. apply (opt_out_is_a_boundary pending_machine before_wipe after_wipe).
  - vm_compute. reflexivity.
  - by repeat constructor.
Defined.

(** Every call works but the one that looks for the tombstone. *)
Definition blind_io : Io :=
  {| io_dir := true; io_lock := true; io_free := true; io_stat := true; io_is_dir := true;
     io_exists f := match f with Tombstone => false | _ => true end; io_open := fun _ => true;
     io_secure := fun _ => true; io_write := fun _ => None; io_sync := fun _ => true; io_read := fun _ => true;
     io_remove := fun _ => true; io_accepted := true; io_uuid := lit "9b2e"; io_now := lit "2026-01-01T00:00:00Z" |}.

(** A tombstone that cannot be looked at does not hold: the event is written although the
    opt-out stands. *)
Example unseen_tombstone_is_ignored :
  let w := {| machine := sample_machine None (sample_disk None (Some (lit "9b2e"))); threads := []; log := [] |} in
  let w' := run w [Start (RecordEvent (SessionStart Unknown)); Run 0 blind_io] in
  stands (disk (machine w')) = true /\ contents (disk (machine w')) (Sink BufferFile) = Some (lit "session_start" ++ [c_nl]).
Proof. vm_compute. done. Qed.

Definition no_tombstone_io : Io :=
  {| io_dir := true; io_lock := true; io_free := true; io_stat := true; io_is_dir := true;
     io_exists := fun _ => true; io_open f := match f with Tombstone => false | _ => true end; io_secure := fun _ => true;
     io_write := fun _ => None; io_sync := fun _ => true; io_read := fun _ => true; io_remove := fun _ => true;
     io_accepted := true; io_uuid := lit "9b2e"; io_now := lit "2026-01-01T00:00:00Z" |}.

Lemma failed_wipe_leaves_everything_witness :
  exec no_tombstone_io
    (decide_in_home (Some [lit "home"]) (resolve_runtime_options (sample_config (Some false)) sample_env None) setup_default Cli)
    pending_machine
  = (pending_machine, [], OptedOut)
  /\ stands (disk pending_machine) = false.
Proof. by eapply failed_wipe_leaves_everything. Defined.

End TelFacts.
