(* ===== verification/TelFlush.v ===== *)
(** * The ring and the flush

    What an append keeps, what a flush sends, and what is lost on the way. *)

From stdpp Require Import base list option sets strings.
From Stdlib Require Import Lia NArith ZArith.
From S2P Require Import Prelude RustStr RustUtf8 TelEvent TelConsent TelBuffer TelSession TelFacts.

Module TelFlush.
Import TelEvent TelConsent TelBuffer TelSession TelFacts.

(** ** Files of lines *)

(** A line as the writer produces it: one line of Unicode text that is not blank. *)
Definition good_line (l : list N) : Prop :=
  Forall (fun c => is_scalar c = true) l /\ (c_nl ∉ l) /\ trim l <> [] /\ strip_suffix_cr l = l.

Definition text_of (lines : list (list N)) : list N := lines ≫= fun l => l ++ [c_nl].

Lemma length_encode_char c : length (encode_char c) = len_utf8 c.
Proof.
  unfold encode_char, len_utf8.
  destruct (N.ltb_spec c 128), (N.leb_spec c 127); try lia; [done|].
  destruct (N.ltb_spec c 2048), (N.leb_spec c 2047); try lia; [done|].
  destruct (N.ltb_spec c 65536), (N.leb_spec c 65535); try lia; done.
Qed.

Lemma length_as_bytes s : length (as_bytes s) = str_len s.
Proof. induction s as [|c s IH]; [done|]. unfold as_bytes in *. cbn. by rewrite length_app, length_encode_char, IH. Qed.

Lemma as_bytes_app s s' : as_bytes (s ++ s') = as_bytes s ++ as_bytes s'.
Proof. apply bind_app. Qed.

Lemma str_len_app s s' : str_len (s ++ s') = str_len s + str_len s'.
Proof. by rewrite <-!length_as_bytes, as_bytes_app, length_app. Qed.

Lemma text_of_app l k : text_of (l ++ k) = text_of l ++ text_of k.
Proof. apply bind_app. Qed.

Lemma text_of_bytes lines : length (as_bytes (text_of lines)) = byte_len lines.
Proof.
  rewrite length_as_bytes. induction lines as [|l lines IH]; [done|]. unfold text_of, byte_len in *. cbn.
  rewrite str_len_app, IH, str_len_app. cbn. lia.
Qed.

Lemma text_of_scalars lines :
  Forall good_line lines -> Forall (fun c => is_scalar c = true) (text_of lines).
Proof.
  induction 1 as [|l lines (Hs & _) _ IH]; [constructor|]. unfold text_of in *. cbn.
  apply Forall_app. split; [|done]. apply Forall_app. split; [done|by repeat constructor].
Qed.

Lemma split_text_of lines : Forall good_line lines -> split_char c_nl (text_of lines) = lines ++ [[]].
Proof.
  induction 1 as [|l lines (_ & Hn & _) _ IH]; [done|]. unfold text_of in *. cbn.
  rewrite <-(assoc_L (++)). cbn [app]. by rewrite split_char_app_sep, IH, split_char_word.
Qed.

Lemma lines_of_parts_snoc lines :
  Forall good_line lines -> lines_of_parts (lines ++ [[]]) = lines.
Proof.
  induction 1 as [|l lines (_ & _ & _ & Hc) _ IH]; [done|]. cbn [app lines_of_parts].
  destruct (lines ++ [[]]) eqn:E; [by destruct lines|]. by rewrite Hc, IH.
Qed.

Lemma nonblank_text_of lines : Forall good_line lines -> nonblank_lines (text_of lines) = lines.
Proof.
  intros Hg. unfold nonblank_lines, str_lines. rewrite split_text_of, lines_of_parts_snoc by done.
  induction Hg as [|l lines (_ & _ & Ht & _) _ IH]; [done|]. cbn [List.filter].
  destruct (trim l); [done|]. cbn [str_is_empty negb]. by rewrite IH.
Qed.

Lemma ring_body_text lines : Forall good_line lines -> ring_body lines = text_of lines.
Proof.
  unfold ring_body. intros Hg. destruct lines as [|l lines]; [done|].
  assert (str_join [c_nl] (l :: lines) ++ [c_nl] = text_of (l :: lines)) as <-.
  { clear Hg. revert l. induction lines as [|l' lines IH]; intros l; [cbn; by rewrite (right_id_L [] (++))|].
    rewrite str_join_cons. unfold text_of in *. cbn. cbn in IH. rewrite <-IH. by rewrite <-!(assoc_L (++)). }
  inversion_clear Hg as [|? ? (_ & _ & Ht & _) _]. case_match eqn:E; [exfalso|done].
  destruct l as [|c l]; [by cbn in Ht|]. destruct lines; cbn in E; done.
Qed.

(** ** The ring *)

Lemma byte_len_cons l lines : byte_len (l :: lines) = str_len l + 1 + byte_len lines.
Proof. done. Qed.

Lemma drop_oldest_step l l' kept :
  drop_oldest (l :: l' :: kept)
  = if MAX_BYTES <? byte_len (l :: l' :: kept) then drop_oldest (l' :: kept) else l :: l' :: kept.
Proof. done. Qed.

Lemma drop_oldest_spec kept :
  exists dropped, kept = dropped ++ drop_oldest kept
    /\ (kept <> [] -> drop_oldest kept <> [])
    /\ (byte_len (drop_oldest kept) <= MAX_BYTES \/ length (drop_oldest kept) <= 1)
    /\ (forall x before, dropped = before ++ [x] -> MAX_BYTES < byte_len (x :: drop_oldest kept)).
Proof.
  induction kept as [|l kept IH].
  { exists []. split_and!; [done..|by right; cbn; lia|]. by intros x before ?%app_cons_not_nil. }
  destruct kept as [|l' kept'].
  { exists []. split_and!; [done..|by right; cbn; lia|]. by intros x before ?%app_cons_not_nil. }
  rewrite drop_oldest_step. destruct (Nat.ltb_spec MAX_BYTES (byte_len (l :: l' :: kept'))) as [Hb|Hb].
  - destruct IH as (dropped & E & Hne & Hs & Hm). exists (l :: dropped). cbn [app]. rewrite <-E.
    split_and!; [done|auto|done|]. intros x before Hx. destruct before as [|y before].
    + cbn [app] in Hx. injection Hx as -> ->. cbn [app] in E. by rewrite <-E.
    + cbn [app] in Hx. injection Hx as -> Hx. by apply (Hm x before).
  - exists []. split_and!; [done..|by left|]. by intros x before ?%app_cons_not_nil.
Qed.

(** The system answers every call. *)
Record works (io : Io) : Prop := {
  works_dir : io_dir io = true;
  works_lock : io_lock io = true;
  works_free : io_free io = true;
  works_stat : io_stat io = true;
  works_exists f : io_exists io f = true;
  works_open f : io_open io f = true;
  works_secure f : io_secure io f = true;
  works_write f : io_write io f = None;
  works_sync f : io_sync io f = true;
  works_read f : io_read io f = true
}.

Lemma works_present io d : works io -> tombstone_present io d = stands d.
Proof. intros Hw. by apply stands_present, works_exists. Qed.

Lemma works_path_exists io f d : works io -> path_exists io f d = match contents d f with Some _ => true | None => false end.
Proof. intros Hw. unfold path_exists. by rewrite (works_exists _ Hw). Qed.

(** The sink holds the lines; a missing file holds none. *)
Definition holds (d : Disk) (s : sink) (lines : list (list N)) : Prop :=
  default [] (contents d (Sink s)) = as_bytes (text_of lines).

(** Nothing but the sink changed. *)
Definition only_sink (m m' : Machine) (s : sink) : Prop :=
  config_file m' = config_file m /\ setup_file m' = setup_file m
  /\ forall f, f <> Sink s -> contents (disk m') f = contents (disk m) f.

Lemma only_sink_refl m s : only_sink m m s.
Proof. done. Qed.

Lemma only_sink_trans m m' m'' s : only_sink m m' s -> only_sink m' m'' s -> only_sink m m'' s.
Proof.
  intros (H1 & H2 & H3) (H4 & H5 & H6). split; [congruence|]. split; [congruence|]. intros f Hf. by rewrite H6, H3.
Qed.

Lemma only_sink_dir m s : only_sink m (with_disk m (with_dir (disk m))) s.
Proof. split; [done|]. split; [done|]. intros f _. by destruct f as [[]| | |]. Qed.

Lemma only_sink_write m s d c : contents d = contents (disk m) -> only_sink m (with_disk m (write d (Sink s) c)) s.
Proof.
  intros Hd. split; [done|]. split; [done|]. intros f Hf. cbn [disk with_disk]. rewrite contents_write, Hd.
  by rewrite decide_False.
Qed.

Lemma enter_works {X} blocking (op : Io -> Machine -> Machine * list output * X) io m :
  works io ->
  enter blocking op io m
  = let '(m', out, x) := op io (with_disk m (with_dir (disk m))) in (m', out, Some x).
Proof.
  intros H. unfold enter. rewrite (works_dir _ H), (works_lock _ H), (works_free _ H).
  by rewrite andb_false_r, andb_false_r.
Qed.

Lemma contents_with_dir d f : contents (with_dir d) f = contents d f.
Proof. by destruct f as [[]| | |]. Qed.

(** The largest suffix within the caps. *)
Definition newest (lines kept : list (list N)) : Prop :=
  exists dropped, lines = dropped ++ kept /\ kept <> []
    /\ (dropped <> [] -> length kept <= MAX_EVENTS)
    /\ byte_len kept <= MAX_BYTES
    /\ forall x before, dropped = before ++ [x] ->
         MAX_EVENTS < S (length kept) \/ MAX_BYTES < byte_len (x :: kept).

Lemma probe_below_max n : n < PROBE_BYTES -> n <= MAX_BYTES.
Proof. unfold PROBE_BYTES, MAX_BYTES. lia. Qed.

Lemma newest_all init line : byte_len (init ++ [line]) <= MAX_BYTES -> newest (init ++ [line]) (init ++ [line]).
Proof.
  intros Hb. exists []. split_and!; [done|by destruct init|done|done|].
  by intros x before ?%app_cons_not_nil.
Qed.

Lemma last_within init line (lines kept dropped : list (list N)) :
  init ++ [line] = dropped ++ kept -> kept <> [] -> length kept <= 1 -> kept = [line].
Proof.
  intros E Hne Hl. destruct kept as [|z [|? ?]]; [done| |cbn in Hl; lia]. by apply app_inj_tail in E as [_ ->].
Qed.

Lemma ring_keeps_newest init line :
  str_len line + 1 <= MAX_BYTES ->
  newest (init ++ [line]) (drop_oldest (reverse (take MAX_EVENTS (reverse (init ++ [line]))))).
Proof.
  intros Hfit. rewrite take_reverse, reverse_involutive. set (lines := init ++ [line]).
  set (n := length lines - MAX_EVENTS). assert (0 < length lines) as Hpos by (unfold lines; rewrite length_app; cbn; lia).
  assert (0 < MAX_EVENTS) as Hmax by (unfold MAX_EVENTS; lia).
  destruct (drop_oldest_spec (drop n lines)) as (dropped & E & Hne & Hs & Hm).
  assert (drop n lines <> []) as Hd.
  { intros Hd%(f_equal length). rewrite length_drop in Hd. cbn in Hd. lia. }
  assert (length (drop_oldest (drop n lines)) <= MAX_EVENTS) as Hl.
  { assert (length (drop n lines) <= MAX_EVENTS) as Hl by (rewrite length_drop; lia).
    rewrite E, length_app in Hl. lia. }
  assert (lines = (take n lines ++ dropped) ++ drop_oldest (drop n lines)) as Hlines
    by (rewrite <-(assoc_L (++)), <-E; by rewrite take_drop).
  exists (take n lines ++ dropped). split_and!; [done|auto|done| |].
  - destruct Hs as [?|H1]; [done|].
    rewrite (last_within init line lines _ _ Hlines (Hne Hd) H1). cbn. lia.
  - intros x before Hb. destruct dropped as [|y dropped _] using rev_ind.
    + left. rewrite (right_id_L [] (++)) in Hb. cbn [app] in E. rewrite <-E, length_drop.
      apply (f_equal length) in Hb. rewrite length_take, length_app in Hb. cbn in Hb. lia.
    + right. rewrite (assoc_L (++)) in Hb. apply app_inj_tail in Hb as [_ ->]. by apply (Hm x dropped).
Qed.

(** Compaction of a file of good lines. *)
Lemma compact_exec s io m init line :
  works io -> stands (disk m) = false ->
  contents (disk m) (Sink s) = Some (as_bytes (text_of (init ++ [line]))) ->
  Forall good_line (init ++ [line]) -> str_len line + 1 <= MAX_BYTES ->
  PROBE_BYTES <= byte_len (init ++ [line]) ->
  exists m' kept, compact s io m = (m', [], tt) /\ only_sink m m' s
    /\ contents (disk m') (Sink s) = Some (as_bytes (text_of kept))
    /\ newest (init ++ [line]) kept /\ length kept <= MAX_EVENTS.
Proof.
  intros Hw Ht Hc Hg Hfit Hp. unfold compact. rewrite works_present, Ht, Hc by done. rewrite text_of_bytes, (works_stat _ Hw), (works_read _ Hw).
  rewrite (proj2 (Nat.ltb_ge _ _) Hp). cbn [negb orb].
  rewrite from_utf8_as_bytes by by apply text_of_scalars. unfold ring_kept. rewrite nonblank_text_of by done.
  destruct (_ && _) eqn:E.
  - apply andb_true_iff in E as [E1%Nat.leb_le E2%Nat.leb_le]. exists m, (init ++ [line]).
    split; [done|]. split; [apply only_sink_refl|]. split; [done|]. split; [by apply newest_all|done].
  - rewrite (works_open _ Hw), (works_secure _ Hw), (works_write _ Hw), bool_decide_true by done. cbn [andb].
    pose proof (ring_keeps_newest init line Hfit) as Hn. set (kept := drop_oldest _) in *.
    eexists _, kept. split; [reflexivity|]. split; [by apply only_sink_write|]. split; [|split; [done|]].
    + cbn [disk with_disk]. rewrite contents_write, decide_True by done. rewrite ring_body_text; [done|].
      destruct Hn as (dropped & Hl & _). rewrite Hl in Hg. by apply Forall_app in Hg as [_ Hg].
    + destruct Hn as ([|x dropped] & Hl & _ & Hlen & _); [|by apply Hlen]. cbn [app] in Hl.
      assert (length kept <= length (reverse (take MAX_EVENTS (reverse (init ++ [line]))))) as Hk.
      { destruct (drop_oldest_spec (reverse (take MAX_EVENTS (reverse (init ++ [line]))))) as (dr & Hdr & _).
        apply (f_equal length) in Hdr. rewrite length_app in Hdr. unfold kept. lia. }
      rewrite length_reverse, length_take in Hk. lia.
Qed.

Lemma short_file_few_lines lines :
  Forall (fun l => 8 <= str_len l) lines -> byte_len lines < PROBE_BYTES -> length lines <= MAX_EVENTS.
Proof.
  intros Hl Hb. assert (9 * length lines <= byte_len lines) as H9.
  { clear Hb. induction Hl as [|l lines ? _ IH]; [cbn; lia|]. rewrite byte_len_cons. cbn [length]. lia. }
  unfold PROBE_BYTES, MAX_EVENTS in *. lia.
Qed.

(** A sink is a ring. When the calls work and the opt-out is not in force, appending
    an event line or a dry-run batch succeeds, leaves in the file the new line preceded
    by the newest old ones, as many as fit in 256 KiB and, for lines of at least eight
    bytes, five hundred and twelve of them, and touches no other file. *)
Theorem sink_is_a_ring s line limit lines io m :
  works io -> stands (disk m) = false -> holds (disk m) s lines ->
  Forall good_line (lines ++ [line]) -> str_len line + 1 <= limit <= MAX_BYTES ->
  exists m' kept, exec io (append_with_limit s line limit) m = (m', [], Some tt)
    /\ only_sink m m' s /\ holds (disk m') s kept
    /\ newest (lines ++ [line]) kept
    /\ (Forall (fun l => 8 <= str_len l) (lines ++ [line]) -> length kept <= MAX_EVENTS).
Proof.
  intros Hw Ht Hh Hg Hfit. unfold append_with_limit.
  assert (good_line line) as Hgl by (apply Forall_app in Hg as [_ Hg]; by inversion Hg).
  assert (str_is_empty (as_bytes line) || (limit <? length (as_bytes line) + 1) = false) as ->.
  { apply orb_false_iff. rewrite length_as_bytes. split; [|apply Nat.ltb_ge; lia].
    destruct Hgl as (_ & _ & Hb & _). destruct line as [|c line]; [done|]. cbn.
    destruct (encode_char c) eqn:Ec; [|done]. apply (f_equal length) in Ec. rewrite length_encode_char in Ec.
    unfold len_utf8 in Ec. by repeat case_match. }
  cbn [exec]. rewrite enter_works by done. unfold append_under_lock. cbn [disk with_disk].
  rewrite works_present by done. change (stands (with_dir (disk m))) with (stands (disk m)).
  rewrite Ht, (works_open _ Hw), (works_secure _ Hw), (works_write _ Hw), (works_sync _ Hw). cbn [negb].
  set (m1 := with_disk (with_disk m (with_dir (disk m))) _).
  assert (contents (disk m1) (Sink s) = Some (as_bytes (text_of (lines ++ [line])))) as Hc.
  { unfold m1. cbn [disk with_disk]. rewrite contents_write, decide_True by done. rewrite contents_with_dir, Hh.
    rewrite text_of_app, as_bytes_app. f_equal. f_equal. cbn. by rewrite (right_id_L [] (++)), as_bytes_app. }
  assert (only_sink m m1 s) as Ho.
  { split; [done|]. split; [done|]. intros f Hf. unfold m1. cbn [disk with_disk].
    rewrite !contents_write, !decide_False by done. apply contents_with_dir. }
  assert (stands (disk m1) = false) as Ht1.
  { unfold stands in *. destruct Ho as (_ & _ & Ho). specialize (Ho Tombstone ltac:(done)).
    cbn [contents] in Ho. by rewrite Ho. }
  rewrite exec_bind. unfold enforce_ring. cbn [exec]. unfold probe. rewrite (works_stat _ Hw), Hc.
  cbn [fmap option_fmap option_map]. rewrite text_of_bytes.
  destruct (Nat.ltb_spec (byte_len (lines ++ [line])) PROBE_BYTES) as [Hp|Hp].
  - cbn [exec app]. exists m1, (lines ++ [line]). split; [done|]. split; [exact Ho|]. split; [|split].
    + unfold holds. by rewrite Hc.
    + by apply newest_all, probe_below_max.
    + intros H8. by apply short_file_few_lines.
  - cbn [exec]. rewrite enter_works by done.
    destruct (compact_exec s io (with_disk m1 (with_dir (disk m1))) lines line)
      as (m2 & kept & -> & Ho2 & Hc2 & Hn & Hl); [done|done|cbn [disk with_disk]; by rewrite contents_with_dir|done|lia|done|].
    cbn [exec app]. exists m2, kept. split; [done|]. split; [|split; [|by split]].
    + eapply only_sink_trans; [exact Ho|]. eapply only_sink_trans; [apply only_sink_dir|exact Ho2].
    + unfold holds. by rewrite Hc2.
Qed.

(** ** The flush *)

Section Flush.
Context `{!UrlParser, !TelCodec}.

(** The durable answers permit this process to collect. *)
Definition collecting (c : Context_) (io : Io) (m : Machine) : Prop :=
  exists config setup root endpoint g,
    config_file m = Some config /\ load_setup_state_for_decision_at (setup_file m) = Some setup
    /\ evaluate_in_home (ctx_home c) (resolve_runtime_options config (ctx_env c) None) setup
         (tombstone_generation io (disk m)) = EvalEnabled root endpoint g.

Lemma re_decide_enabled c io m :
  collecting c io m -> exists consent, exec io (re_decide c) m = (m, [], Enabled consent).
Proof.
  intros (config & setup & root & endpoint & g & Hc & Hs & He). unfold re_decide. cbn [exec]. rewrite Hc. cbn [exec].
  rewrite Hs. unfold decide_in_home. cbn [exec]. rewrite He. by eexists.
Qed.

Lemma re_decide_stays c io m m' out consent :
  exec io (re_decide c) m = (m', out, Enabled consent) -> m' = m /\ out = [].
Proof.
  unfold re_decide. cbn [exec]. destruct (config_file m); [|done]. cbn [exec].
  destruct (load_setup_state_for_decision_at (setup_file m)); [|done]. unfold decide_in_home. cbn [exec].
  case_match; [by intros [= -> ->]| |done]. unfold opted_out. case_match; [|done]. cbn [exec].
  case_match; [|done]. rewrite exec_bind. destruct (exec io wipe m) as [[? ?] ?]. by intros.
Qed.

Lemma atomic_write_works f body io d :
  works io -> atomic_write_json f body io d = (write d f (Some (as_bytes (body ++ [c_nl]))), true).
Proof.
  intros Hw. unfold atomic_write_json. by rewrite (works_open _ Hw), (works_write _ Hw), (works_secure _ Hw), bool_decide_true.
Qed.

(** A section that leaves the tombstone and the sinks alone. *)
Definition keeps_sinks (m m' : Machine) : Prop :=
  disabled (disk m') = disabled (disk m) /\ forall s, contents (disk m') (Sink s) = contents (disk m) (Sink s).

Lemma install_id_works io m :
  works io -> stands (disk m) = false ->
  exists m' r, exec io read_or_create_install_id m = (m', [], Ok r) /\ keeps_sinks m m'.
Proof.
  intros Hw Ht. unfold read_or_create_install_id. cbn [exec]. rewrite enter_works by done. unfold install_id_under_lock.
  cbn [disk with_disk]. rewrite works_present by done. change (stands (with_dir (disk m))) with (stands (disk m)). rewrite Ht.
  cbv zeta. rewrite atomic_write_works by done. destruct (_ ≫= _); cbn [exec app default];
    (eexists _, _; split; [reflexivity|]; split; [done|]; intros s; by destruct s).
Qed.

Lemma write_state_works st io m :
  works io -> stands (disk m) = false ->
  exists m', exec io (write_state st) m = (m', [], Ok tt) /\ keeps_sinks m m'.
Proof.
  intros Hw Ht. unfold write_state. cbn [exec]. rewrite enter_works by done. unfold write_state_under_lock.
  cbn [disk with_disk]. rewrite works_present by done. change (stands (with_dir (disk m))) with (stands (disk m)). rewrite Ht.
  rewrite atomic_write_works by done. cbn [exec app default]. eexists. split; [reflexivity|]. split; [done|]. by intros [].
Qed.

Lemma keeps_tombstone m m' : keeps_sinks m m' -> stands (disk m') = stands (disk m).
Proof. intros [E _]. unfold stands. by rewrite E. Qed.

Lemma deliver_posts c evs io m endpoint :
  works io -> stands (disk m) = false -> ctx_endpoint c = Some endpoint ->
  (forall b, is_Some (batch_to_string b)) ->
  exists m' r body, batch_to_string (mk_batch c (io_now io) r evs) = Some body
    /\ exec io (deliver c evs) m = (m', [Posted endpoint body], if io_accepted io then Sent else Dropped)
    /\ contents (disk m') (Sink BufferFile) = contents (disk m) (Sink BufferFile).
Proof.
  intros Hw Ht Hend Hser. unfold deliver. rewrite exec_bind.
  destruct (install_id_works io m Hw Ht) as (m1 & r & -> & Hk1). cbn [exec].
  rewrite exec_bind. set (st := {| state_schema := _ |}).
  destruct (write_state_works st io m1 Hw) as (m2 & -> & Hk2); [by rewrite (keeps_tombstone _ _ Hk1)|]. cbn [exec].
  rewrite exec_bind. unfold send. destruct (Hser (mk_batch c (io_now io) r evs)) as [body Hbody]. rewrite Hbody, Hend.
  cbn [exec]. rewrite enter_works by done. unfold post_under_lock. cbn [disk with_disk]. rewrite works_present by done.
  change (stands (with_dir (disk m2))) with (stands (disk m2)).
  rewrite (keeps_tombstone _ _ Hk2), (keeps_tombstone _ _ Hk1), Ht. cbn [exec app default].
  eexists _, r, body. split; [done|]. split; [by destruct (io_accepted io)|].
  cbn [disk with_disk]. rewrite contents_with_dir. destruct Hk2 as [_ ->], Hk1 as [_ ->]. done.
Qed.

Lemma drain_works io m lines :
  works io -> stands (disk m) = false -> Forall good_line lines -> lines <> [] ->
  holds (disk m) BufferFile lines ->
  exists m', exec io drain m = (m', [], lines) /\ holds (disk m') BufferFile []
    /\ disabled (disk m') = disabled (disk m).
Proof.
  intros Hw Ht Hg Hne Hh. unfold drain. cbn [exec]. rewrite works_present, Ht by done. cbn [exec]. rewrite enter_works by done.
  unfold drain_under_lock. cbn [disk with_disk]. rewrite works_present by done.
  change (stands (with_dir (disk m))) with (stands (disk m)). rewrite Ht.
  unfold holds in Hh. assert (contents (disk m) (Sink BufferFile) = Some (as_bytes (text_of lines))) as Hc.
  { destruct (contents (disk m) (Sink BufferFile)); [by rewrite <-Hh|]. cbn [default] in Hh.
    apply (f_equal length) in Hh. rewrite text_of_bytes in Hh. destruct lines; [done|]. cbn in Hh. lia. }
  assert (read_lines BufferFile io (with_dir (disk m)) = lines) as ->.
  { unfold read_lines. rewrite contents_with_dir, Hc, (works_read _ Hw), from_utf8_as_bytes by by apply text_of_scalars.
    by apply nonblank_text_of. }
  unfold truncate. rewrite works_path_exists, contents_with_dir, Hc by done. rewrite (works_open _ Hw), (works_secure _ Hw). cbn [negb].
  destruct lines as [|l lines]; [done|]. cbn [exec app]. eexists. split; [reflexivity|]. done.
Qed.

(** A flush sends one batch and forgets the rest. When the process may collect, the
    calls work and the buffer holds events, the flush posts exactly one batch, carrying
    what [parse_events] took from the drained lines, and leaves the buffer empty: the
    lines behind the caps of two hundred events and 64 KiB are neither sent nor kept,
    where the documentation says that they stay buffered for the next flush. *)
Theorem flush_forgets_the_rest c io m lines endpoint :
  works io -> collecting c io m -> stands (disk m) = false -> ctx_endpoint c = Some endpoint ->
  (forall b, is_Some (batch_to_string b)) ->
  Forall good_line lines -> holds (disk m) BufferFile lines -> parse_events event_from_str lines <> [] ->
  exists m' r body,
    exec io (flush c) m = (m', [Posted endpoint body], if io_accepted io then Sent else Dropped)
    /\ batch_to_string (mk_batch c (io_now io) r (parse_events event_from_str lines)) = Some body
    /\ length (parse_events event_from_str lines) <= BATCH_MAX_EVENTS
    /\ holds (disk m') BufferFile [].
Proof.
  intros Hw Hcol Ht Hend Hser Hg Hh Hev. unfold flush. rewrite exec_bind.
  destruct (re_decide_enabled c io m Hcol) as [consent ->]. cbn [is_enabled negb exec]. rewrite works_present, Ht, exec_bind by done.
  assert (lines <> []) as Hne by (intros ->; done).
  destruct (drain_works io m lines Hw Ht Hg Hne Hh) as (m1 & -> & Hh1 & Hd1).
  destruct lines as [|l lines]; [done|]. destruct (parse_events event_from_str (l :: lines)) as [|ev evs] eqn:Ee; [done|].
  destruct (deliver_posts c (ev :: evs) io m1 endpoint) as (m2 & r & body & Hbody & -> & Hc2);
    [done|unfold stands in *; by rewrite Hd1|done..|].
  cbn [app]. exists m2, r, body. split_and!; [done..| |unfold holds in *; by rewrite Hc2].
  rewrite <-Ee. destruct (parse_events_from_spec event_from_str (l :: lines) [] 0) as (n & _ & E & Hlen & _); [cbn; lia..|].
  unfold parse_events. rewrite E. exact Hlen.
Qed.

(** ** Events left for a later session *)

Definition with_buffer (m : Machine) (b : list N) : Machine := with_disk m (write (disk m) (Sink BufferFile) (Some b)).

(** Arming does not depend on the buffer and, when the buffer can be seen, forgets it. *)
Lemma arm_forgets observed c root io m b1 b2 :
  io_exists io (Sink BufferFile) = true ->
  let e1 := exec io (arm observed (permission_still_enabled c root)) (with_buffer m b1) in
  let e2 := exec io (arm observed (permission_still_enabled c root)) (with_buffer m b2) in
  e1.1.2 = e2.1.2 /\ e1.2 = e2.2 /\ (e1.2 = Ok tt -> e1.1.1 = e2.1.1).
Proof.
  intros Hx. cbv zeta. unfold arm. cbn [exec]. unfold enter.
  change (has_dir (disk (with_buffer m b1))) with (has_dir (disk m)).
  change (has_dir (disk (with_buffer m b2))) with (has_dir (disk m)).
  destruct (_ && _); [done|]. destruct (negb (io_lock io)); [done|]. cbn [negb andb]. unfold arm_under_lock.
  set (m1 := with_disk (with_buffer m b1) _). set (m2 := with_disk (with_buffer m b2) _).
  assert (tombstone_generation io (disk m1) = tombstone_generation io (disk m2)) as Hg by done. rewrite Hg.
  assert (permission_still_enabled c root io m1 = permission_still_enabled c root io m2) as Hp by done. rewrite Hp.
  destruct (tombstone_generation io (disk m2)); [|done].
  destruct (negb (bool_decide _)); [done|]. destruct (negb (permission_still_enabled c root io m2)); [done|].
  unfold remove, truncate, path_exists. rewrite Hx. cbn [contents]. change (disabled (disk m1)) with (disabled (disk m)).
  change (disabled (disk m2)) with (disabled (disk m)).
  destruct (io_exists io Tombstone), (disabled (disk m)); [destruct (io_remove io Tombstone)|..]; cbn; try done;
    (destruct (io_open io (Sink BufferFile)); cbn; [by destruct (io_secure io (Sink BufferFile))|done]).
Qed.

Lemma session_forgets c consent es io m b1 b2 :
  io_exists io (Sink BufferFile) = true ->
  (exec io (session c consent es) (with_buffer m b1)).1.2 = (exec io (session c consent es) (with_buffer m b2)).1.2
  /\ (exec io (session c consent es) (with_buffer m b1)).2 = (exec io (session c consent es) (with_buffer m b2)).2.
Proof.
  intros Hx. unfold session, init. rewrite !exec_bind.
  destruct (arm_forgets (consent_generation consent) c (consent_root consent) io m b1 b2 Hx) as (Ho & Hr & Hm).
  destruct (exec io (arm _ _) (with_buffer m b1)) as [[m1 o1] r1], (exec io (arm _ _) (with_buffer m b2)) as [[m2 o2] r2].
  cbn [fst snd] in *. subst o2 r2. destruct r1 as [[]|]; [|done]. by rewrite (Hm eq_refl).
Qed.

Lemma flush_not_buffered c io m : (exec io (flush c) m).2 <> Buffered.
Proof.
  unfold flush. rewrite exec_bind. destruct (exec io (re_decide c) m) as [[m2 o2] d2].
  destruct (negb (is_enabled d2)); [done|]. cbn [exec]. destruct (tombstone_present io (disk m2)); [done|].
  rewrite exec_bind. destruct (exec io drain m2) as [[m3 o3] [|l ls]]; [done|].
  destruct (parse_events event_from_str (l :: ls)); [done|]. unfold deliver. rewrite exec_bind.
  destruct (exec io read_or_create_install_id m3) as [[m4 o4] [r|]]; [|done]. cbn [exec]. rewrite exec_bind.
  destruct (exec io (write_state _) m4) as [[m5 o5] r5]. cbn [exec]. rewrite exec_bind.
  by destruct (exec io (send _ _) m5) as [[m6 o6] []].
Qed.

(** What a short command leaves in the buffer is never sent by a later session. A
    local persist that reports its events as buffered has sent nothing; whatever session
    arms next, whatever it records and however the system answers, but that it sees the
    buffer file, it sends exactly what it would have sent had the buffer been empty or held anything else. The
    documentation says that the next interactive flush sends those events. *)
Theorem buffered_events_are_never_sent cli c consent es io io' m m' out :
  io_exists io' (Sink BufferFile) = true ->
  exec io (persist_local cli) m = (m', out, Buffered) ->
  m' = m /\ out = [] /\ read_lines BufferFile io (disk m') <> []
  /\ forall b, (exec io' (session c consent es) m').1.2 = (exec io' (session c consent es) (with_buffer m' b)).1.2
      /\ (exec io' (session c consent es) m').2 = (exec io' (session c consent es) (with_buffer m' b)).2.
Proof.
  intros Hx. unfold persist_local. rewrite exec_bind.
  destruct (exec io (re_decide cli) m) as [[m1 o1] d] eqn:Ed. destruct d as [consent'| |]; [|done..].
  apply re_decide_stays in Ed as [-> ->]. cbn [is_enabled negb exec app].
  destruct (tombstone_present io (disk m)); [done|]. destruct (ctx_endpoint cli) eqn:Ee.
  - cbn [exec]. destruct (read_lines BufferFile io (disk m)) as [|first ls] eqn:El; [done|]. intros [= <- <-].
    rewrite El. split_and!; [done..|]. intros b.
    assert (exists bytes, m = with_buffer m bytes) as [bytes Hb].
    { unfold read_lines in El. destruct (contents (disk m) (Sink BufferFile)) as [bytes|] eqn:Ec; [|done].
      exists bytes. destruct m as [d0 ? ?]. unfold with_buffer, with_disk, write. cbn in *. f_equal.
      destruct d0. cbn in *. by rewrite Ec. }
    pose proof (session_forgets c consent es io' m bytes b Hx) as Hs. by rewrite <-Hb in Hs.
  - pose proof (flush_not_buffered cli io m) as Hn. destruct (exec io (flush cli) m) as [[m2 o2] o].
    intros [= -> -> ->]. by destruct Hn.
Qed.

End Flush.

(** ** Concrete sessions *)

Lemma calm_works : works calm_io.
Proof. by split. Qed.

Lemma start_line_good : good_line (lit "session_start").
Proof. split_and!; [by repeat constructor|apply (bool_decide_unpack _); by vm_compute|by vm_compute|by vm_compute]. Qed.

Definition machine_with (lines : list (list N)) : Machine :=
  sample_machine None (sample_disk (Some (as_bytes (text_of lines))) None).

Lemma sink_is_a_ring_witness :
  exists m' kept, exec calm_io (append_with_limit BufferFile (lit "session_start") MAX_LINE_BYTES)
                       (machine_with [lit "session_start"]) = (m', [], Some tt)
    /\ only_sink (machine_with [lit "session_start"]) m' BufferFile /\ holds (disk m') BufferFile kept
    /\ newest ([lit "session_start"] ++ [lit "session_start"]) kept
    /\ (Forall (fun l => 8 <= str_len l) ([lit "session_start"] ++ [lit "session_start"]) -> length kept <= MAX_EVENTS).
Proof.
  apply (sink_is_a_ring BufferFile (lit "session_start") MAX_LINE_BYTES [lit "session_start"] calm_io).
  - apply calm_works.
  - reflexivity.
  - reflexivity.
  - repeat constructor; apply start_line_good.
  - change (str_len (lit "session_start")) with 13. unfold MAX_LINE_BYTES, MAX_BYTES. lia.
Defined.

(** Two hundred and one events are in the buffer. *)
Definition crowd : list (list N) := replicate 201 (lit "session_start").

Lemma flush_forgets_the_rest_witness :
  exists m' r body,
    exec calm_io (flush sample_context) (machine_with crowd)
      = (m', [Posted DEFAULT_TELEMETRY_ENDPOINT body], if io_accepted calm_io then Sent else Dropped)
    /\ batch_to_string (mk_batch sample_context (io_now calm_io) r (parse_events event_from_str crowd)) = Some body
    /\ length (parse_events event_from_str crowd) <= BATCH_MAX_EVENTS
    /\ holds (disk m') BufferFile [].
Proof.
  apply (flush_forgets_the_rest sample_context calm_io (machine_with crowd) crowd DEFAULT_TELEMETRY_ENDPOINT).
  - apply calm_works.
  - by eexists _, _, _, _, _.
  - reflexivity.
  - reflexivity.
  - intros b. by eexists.
  - apply Forall_replicate, start_line_good.
  - reflexivity.
  - by vm_compute.
Defined.

Lemma buffered_events_are_never_sent_witness :
  machine_with [lit "session_start"] = machine_with [lit "session_start"] /\ [] = @nil output
  /\ read_lines BufferFile calm_io (disk (machine_with [lit "session_start"])) <> []
  /\ forall b,
      let consent := {| consent_root := [lit "home"; TELEMETRY_DIR]; consent_endpoint := Some DEFAULT_TELEMETRY_ENDPOINT; consent_surface := Tui;
                        consent_generation := None |} in
      let again := session sample_context consent [SessionStart Unknown] in
      let m := machine_with [lit "session_start"] in
      (exec calm_io again m).1.2 = (exec calm_io again (with_buffer m b)).1.2
      /\ (exec calm_io again m).2 = (exec calm_io again (with_buffer m b)).2.
Proof.
  eapply (buffered_events_are_never_sent sample_context sample_context _ [SessionStart Unknown] calm_io calm_io); [reflexivity|].
  vm_compute. reflexivity.
Defined.

(** The later session posts its own event only. *)
Example later_session_posts_its_own :
  let consent := {| consent_root := [lit "home"; TELEMETRY_DIR]; consent_endpoint := Some DEFAULT_TELEMETRY_ENDPOINT; consent_surface := Tui;
                    consent_generation := None |} in
  (exec calm_io (session sample_context consent [SessionStart Unknown]) (machine_with crowd)).1.2
  = [Armed None; Posted DEFAULT_TELEMETRY_ENDPOINT (lit "batch of 1")].
Proof. by vm_compute. Qed.

End TelFlush.
