(* ===== verification/Redact.v ===== *)
(** * Redaction of secrets (crates/config/src/persistence.rs)

    The scrubber for logs, previews and text bound for the model: which keys are
    sensitive, which values look like credentials, and the two passes over each line. *)

From stdpp Require Import base list option strings.
From Stdlib Require Import Lia NArith.
From S2P Require Import Prelude RustStr.

Module Redact.

(** ** String operations used here only *)

Definition is_ascii_lowercase (c : N) : bool := between 97 122 c.

(** [str::split_inclusive] with a character pattern. *)
Fixpoint split_inclusive (c : N) (s : list N) : list (list N) :=
  match s with
  | [] => []
  | d :: s' =>
      if (d =? c)%N then [d] :: split_inclusive c s'
      else match split_inclusive c s' with
           | [] => [[d]]
           | w :: ws => (d :: w) :: ws
           end
  end.

(** [str::rsplit_once] with a string pattern. *)
Definition rsplit_once_str (pat s : list N) : option (list N * list N) :=
  match split_once_str (reverse pat) (reverse s) with
  | Some (a, b) => Some (reverse b, reverse a)
  | None => None
  end.

Definition trim_start (s : list N) : list N := trim_start_matches is_whitespace s.
Definition trim_end (s : list N) : list N := trim_end_matches is_whitespace s.

(** [find(['=', ':'])] and the split there: the text before, the separator, the rest. *)
Definition is_separator (c : N) : bool := (c =? c_eq)%N || (c =? c_colon)%N.

Fixpoint split_separator (s : list N) : option (list N * N * list N) :=
  match s with
  | [] => None
  | c :: s' =>
      if is_separator c then Some ([], c, s')
      else match split_separator s' with
           | Some (key, sep, rest) => Some (c :: key, sep, rest)
           | None => None
           end
  end.

(** ** Sensitive keys *)

Definition SENSITIVE_KEY_HINTS : list (list N) :=
  lit <$> ["api_key"; "apikey"; "api-key"; "secret"; "token"; "password"; "passwd"; "authorization";
           "auth_token"; "access_key"; "client_secret"; "private_key"]%string.

Definition SECRET_TOKEN_PREFIXES : list (list N) :=
  lit <$> ["sk-"; "sk_"; "ghp_"; "gho_"; "xoxb-"; "xoxp-"; "pk-"]%string.

Definition REDACTED : list N := lit "[redacted]".

Definition ends_with_char (c : N) (s : list N) : bool :=
  match last s with Some d => (d =? c)%N | None => false end.

(** Whether [ch] opens a segment by its case. *)
Definition starts_case_segment (previous : option N) (ch : N) (next : option N) : bool :=
  is_ascii_uppercase ch
  && match previous with
     | Some p =>
         is_ascii_lowercase p || is_ascii_digit p
         || (is_ascii_uppercase p && match next with Some n => is_ascii_lowercase n | None => false end)
     | None => false
     end.

(** An underscore, unless one would be doubled or leading. *)
Definition push_boundary (normalized : list N) : list N :=
  if negb (str_is_empty normalized) && negb (ends_with_char c_underscore normalized)
  then normalized ++ [c_underscore] else normalized.

Fixpoint normalize_loop (normalized : list N) (previous : option N) (chars : list N) : list N :=
  match chars with
  | [] => normalized
  | ch :: rest =>
      let normalized' :=
        if is_ascii_alphanumeric ch
        then (if starts_case_segment previous ch (head rest) then push_boundary normalized else normalized)
               ++ [char_to_ascii_lowercase ch]
        else push_boundary normalized in
      normalize_loop normalized' (Some ch) rest
  end.

Definition normalize_sensitive_key (raw : list N) : list N :=
  trim_end_matches (fun c => (c =? c_underscore)%N) (normalize_loop [] None raw).

Definition METRIC_SUFFIXES : list (list N) :=
  lit <$> ["budget"; "budgets"; "count"; "counts"; "limit"; "limits"; "total"; "totals"; "usage"; "used";
           "window"; "windows"]%string.

Definition str_mem (l : list (list N)) (s : list N) : bool := existsb (str_eqb s) l.

Definition is_metric_suffix (suffix : list N) : bool :=
  match split_char c_underscore suffix with w :: _ => str_mem METRIC_SUFFIXES w | [] => false end.

(** The hint [token]: a whole key, a suffix, or a prefix of something not a metric. *)
Definition matches_token (key_norm : list N) : bool :=
  if ends_with (lit "_token") key_norm then true
  else match strip_prefix (lit "token_") key_norm with
       | Some suffix => negb (is_metric_suffix suffix)
       | None =>
           match rsplit_once_str (lit "_token_") key_norm with
           | Some (_, suffix) => negb (is_metric_suffix suffix)
           | None => false
           end
       end.

Definition key_matches_sensitive_hint (key_norm hint : list N) : bool :=
  if str_eqb key_norm hint then true
  else if contains_char c_underscore hint || contains_char c_dash hint then str_contains hint key_norm
  else if str_eqb hint (lit "token") then matches_token key_norm
  else existsb (fun segment => str_eqb segment hint)
         (split_matches (fun c => (c =? c_underscore)%N || (c =? c_dash)%N) key_norm).

Definition key_is_sensitive (raw : list N) : bool :=
  let key_norm := normalize_sensitive_key raw in
  negb (str_is_empty key_norm) && existsb (key_matches_sensitive_hint key_norm) SENSITIVE_KEY_HINTS.

(** ** Credential-shaped values *)

Definition is_word_punctuation (c : N) : bool :=
  (c =? c_dquote)%N || (c =? c_squote)%N || (c =? 44)%N || (c =? c_semi)%N.

Definition trim_word_punctuation (word : list N) : list N := trim_matches is_word_punctuation word.

Definition prefixed_by (prefixes : list (list N)) (word : list N) : bool :=
  existsb (fun p => (str_len p + 6 <? str_len word) && starts_with p word) prefixes.

Definition looks_like_secret_token (word : list N) : bool := prefixed_by SECRET_TOKEN_PREFIXES word.

Definition is_auth_scheme_word (word : list N) : bool :=
  str_mem (lit <$> ["Bearer"; "bearer"; "Basic"; "basic"; "Token"; "token"]%string) word.

Definition CREDENTIAL_VALUE_PREFIXES : list (list N) :=
  lit <$> ["sk-ant-"; "AKIA"; "ASIA"; "AIza"; "ghp_"; "gho_"; "ghu_"; "ghs_"; "ghr_"; "github_pat_"; "glpat-";
           "xoxa-"; "xoxb-"; "xoxp-"; "xoxr-"; "xoxs-"; "npm_"; "ya29."]%string.

Definition is_jwt_shaped (value : list N) : bool :=
  match split_char c_dot value with
  | [header; payload; signature] =>
      starts_with (lit "eyJ") header && starts_with (lit "eyJ") payload && negb (str_is_empty signature)
      && forallb (forallb (fun c => is_ascii_alphanumeric c || (c =? c_dash)%N || (c =? c_underscore)%N))
           [header; payload; signature]
  | _ => false
  end.

(** The characters a version may open with: caret, tilde, comparisons, v, V, space. *)
Definition is_version_lead (c : N) : bool :=
  existsb (N.eqb c) [94%N; c_tilde; c_gt; c_lt; c_eq; 118%N; 86%N; c_space].

Definition is_version_like (value : list N) : bool :=
  let digits := trim_start_matches is_version_lead value in
  negb (str_is_empty digits)
  && forallb (fun c => is_ascii_digit c || (c =? c_dot)%N || (c =? c_dash)%N || (c =? 43)%N) digits
  && match digits with c :: _ => is_ascii_digit c | [] => false end.

Definition is_reference_like (value : list N) : bool :=
  str_contains (lit "?.") value || contains_char c_lparen value || str_contains (lit "${") value
  || str_contains (lit "process.env") value || str_contains (lit "os.environ") value
  || str_contains (lit "getenv") value || str_contains (lit "://") value
  || forallb (fun c => is_ascii_alphabetic c || (c =? c_underscore)%N || (c =? c_dot)%N) value.

Definition is_opaque_run (value : list N) : bool :=
  (20 <=? str_len value)
  && forallb (fun c => is_ascii_alphanumeric c || existsb (N.eqb c) [43%N; c_slash; c_eq; c_underscore; c_dash; c_dot])
       value
  && existsb is_ascii_alphabetic value && existsb is_ascii_digit value.

(** The shapes of a value without a known prefix or scheme. *)
Definition opaque_value (value : list N) : bool :=
  if is_jwt_shaped value then true
  else if str_len value <? 16 then false
  else if is_version_like value || is_reference_like value then false
  else is_opaque_run value.

(** One unfolding of [value_looks_like_credential], with the recursive call as [self]. *)
Definition looks_like_credential_body (self : list N -> bool) (raw : list N) : bool :=
  let value := trim_word_punctuation (trim raw) in
  if str_is_empty value || str_eqb value REDACTED then false
  else if looks_like_secret_token value || prefixed_by CREDENTIAL_VALUE_PREFIXES value then true
  else if starts_with (lit "-----BEGIN") value then true
  else
    match split_once c_space value with
    | Some (scheme, rest) => if is_auth_scheme_word scheme then self rest else opaque_value value
    | None => opaque_value value
    end.

Fixpoint looks_like_credential_fuel (fuel : nat) (raw : list N) : bool :=
  match fuel with
  | O => false
  | S fuel' => looks_like_credential_body (looks_like_credential_fuel fuel') raw
  end.

Definition value_looks_like_credential (raw : list N) : bool :=
  looks_like_credential_fuel (S (length raw)) raw.

(** The text between a pair of quotes and the quote to restore. *)
Definition quoted_by (quote : N) (value : list N) : option (list N) :=
  match value with
  | c :: rest => if (c =? quote)%N then strip_suffix_char quote rest else None
  | [] => None
  end.

Definition strip_value_quotes (value : list N) : list N * list N :=
  match quoted_by c_dquote value with
  | Some inner => (inner, [c_dquote])
  | None =>
      match quoted_by c_squote value with
      | Some inner => (inner, [c_squote])
      | None =>
          match value with
          | c :: inner => if (c =? c_dquote)%N || (c =? c_squote)%N then (inner, []) else (value, [])
          | [] => (value, [])
          end
      end
  end.

(** ** Assignments *)

Inductive RedactionPolicy : Type := KeyBased | CredentialShaped.

#[export] Instance RedactionPolicy_eq_dec : EqDecision RedactionPolicy.
Proof. solve_decision. Defined.

Definition redact_inline_keyed_assignment (word : list N) (policy : RedactionPolicy) : option (list N) :=
  match split_separator word with
  | None => None
  | Some (raw_key, sep, raw_value) =>
      if str_is_empty raw_value then None
      else if negb (key_is_sensitive raw_key) then None
      else match policy with
           | KeyBased => Some (raw_key ++ [sep] ++ REDACTED)
           | CredentialShaped =>
               let '(core, quote) := strip_value_quotes raw_value in
               if negb (value_looks_like_credential core) then None
               else Some (raw_key ++ [sep] ++ quote ++ REDACTED ++ quote)
           end
  end.

(** Quotes and brackets around a key. *)
Definition is_key_punctuation (c : N) : bool :=
  (c =? c_dquote)%N || (c =? c_squote)%N || (c =? 91)%N || (c =? 93)%N.

(** The key a line assigns to, as [key_is_sensitive] is asked about it. *)
Definition line_key (raw_key : list N) : list N := trim_matches is_key_punctuation (trim raw_key).

Definition is_value_trailer (c : N) : bool := (c =? 44)%N || (c =? c_semi)%N.

(** The value of a whole-line assignment, when it must look like a credential. *)
Definition redact_shaped_value (raw_value : list N) : option (list N) :=
  let value_lead_ws := take_while is_whitespace raw_value in
  let value_rest := trim_start raw_value in
  let value_core := trim_end value_rest in
  let trailing_ws := drop (length value_core) value_rest in
  let literal := trim_end_matches is_value_trailer value_core in
  let trailer := drop (length literal) value_core in
  let '(core, quote) := strip_value_quotes literal in
  if str_is_empty core || negb (value_looks_like_credential core) then None
  else Some (value_lead_ws ++ quote ++ REDACTED ++ quote ++ trailer ++ trailing_ws).

(** The value of a whole-line assignment to a sensitive key, whatever it is. *)
Definition redact_any_value (raw_value : list N) : option (list N) :=
  let value_lead_ws := take_while is_whitespace raw_value in
  let value_rest := trim_start raw_value in
  match value_rest with
  | [] => None
  | c :: _ =>
      let replacement :=
        if (c =? c_dquote)%N || (c =? c_squote)%N then [c_dquote] ++ REDACTED ++ [c_dquote] else REDACTED in
      Some (value_lead_ws ++ replacement)
  end.

Definition redact_keyed_assignment (body : list N) (policy : RedactionPolicy) : option (list N) :=
  match split_separator body with
  | None => None
  | Some (raw_key, sep, raw_value) =>
      if negb (key_is_sensitive (line_key raw_key)) then None
      else match policy with
           | CredentialShaped =>
               match redact_shaped_value raw_value with
               | Some value => Some (raw_key ++ [sep] ++ value)
               | None => None
               end
           | KeyBased =>
               match redact_any_value raw_value with
               | Some value => Some (take_while is_whitespace raw_key ++ trim raw_key ++ [sep] ++ value)
               | None => None
               end
           end
  end.

(** ** Lines *)

Inductive SpacedAssignment : Type := Unassigned | SensitiveKey | AwaitingValue.

#[export] Instance SpacedAssignment_eq_dec : EqDecision SpacedAssignment.
Proof. solve_decision. Defined.

Definition advance (self : SpacedAssignment) (trimmed : list N) : SpacedAssignment :=
  if str_is_empty trimmed then self
  else if str_eqb trimmed [c_eq] || str_eqb trimmed [c_colon] then
    if bool_decide (self = SensitiveKey) then AwaitingValue else Unassigned
  else
    match (match strip_suffix_char c_eq trimmed with
           | Some key => Some key
           | None => strip_suffix_char c_colon trimmed
           end) with
    | Some key => if key_is_sensitive key then AwaitingValue else Unassigned
    | None => if key_is_sensitive trimmed then SensitiveKey else Unassigned
    end.

(** One more masked word; [c] says whether it changed. *)
Definition push_masked (c : bool) (w : list N) (r : bool * list (list N)) : bool * list (list N) :=
  (c || r.1, w :: r.2).

(** The loop over the words of a line: whether anything changed, and the words. *)
Fixpoint mask_words (policy : RedactionPolicy) (spaced : SpacedAssignment) (words : list (list N))
    : bool * list (list N) :=
  match words with
  | [] => (false, [])
  | word :: rest =>
      let trimmed := trim_word_punctuation word in
      if bool_decide (spaced = AwaitingValue) && negb (str_is_empty trimmed) then
        match policy with
        | KeyBased => (true, [REDACTED])
        | CredentialShaped =>
            if is_auth_scheme_word trimmed then push_masked false word (mask_words policy AwaitingValue rest)
            else if value_looks_like_credential trimmed
            then push_masked true (str_replace trimmed REDACTED word) (mask_words policy Unassigned rest)
            else push_masked false word (mask_words policy Unassigned rest)
        end
      else
        match redact_inline_keyed_assignment trimmed policy with
        | Some redacted =>
            push_masked true (str_replace trimmed redacted word) (mask_words policy Unassigned rest)
        | None =>
            if negb (str_is_empty trimmed) && looks_like_secret_token trimmed
            then push_masked true (str_replace trimmed REDACTED word) (mask_words policy Unassigned rest)
            else push_masked false word (mask_words policy (advance spaced trimmed) rest)
        end
  end.

(** A line without its newline. *)
Definition redact_body (policy : RedactionPolicy) (body : list N) : list N :=
  match redact_keyed_assignment body policy with
  | Some redacted => redacted
  | None =>
      let '(changed, masked) := mask_words policy Unassigned (split_char c_space body) in
      if changed then str_join [c_space] masked else body
  end.

(** [line.strip_suffix('\n')]: the body and the newline. *)
Definition split_newline (line : list N) : list N * list N :=
  match strip_suffix_char c_nl line with
  | Some rest => (rest, [c_nl])
  | None => (line, [])
  end.

Definition redact_line (line : list N) (policy : RedactionPolicy) : list N :=
  let '(body, newline) := split_newline line in redact_body policy body ++ newline.

(** ** Texts *)

Definition is_private_key_block_start (trimmed : list N) : bool :=
  starts_with (lit "-----BEGIN") trimmed && str_contains (lit "PRIVATE KEY") trimmed.

Definition is_private_key_block_end (trimmed : list N) : bool := starts_with (lit "-----END") trimmed.

Fixpoint redact_lines (policy : RedactionPolicy) (in_private_key_block : bool) (lines : list (list N)) : list N :=
  match lines with
  | [] => []
  | line :: rest =>
      let '(body, newline) := split_newline line in
      let trimmed := trim body in
      if in_private_key_block then
        if is_private_key_block_end trimmed then line ++ redact_lines policy false rest
        else REDACTED ++ newline ++ redact_lines policy true rest
      else if is_private_key_block_start trimmed then line ++ redact_lines policy true rest
      else redact_line line policy ++ redact_lines policy false rest
  end.

Definition redact_secrets_with (input : list N) (policy : RedactionPolicy) : list N :=
  redact_lines policy false (split_inclusive c_nl input).

Definition redact_secrets (input : list N) : list N := redact_secrets_with input KeyBased.
Definition redact_model_bound_secrets (input : list N) : list N := redact_secrets_with input CredentialShaped.

(** ** JSON values *)

(** [serde_json::Value]; a number is kept by its text. *)
Inductive Json : Type :=
  | JNull
  | JBool (b : bool)
  | JNumber (text : list N)
  | JString (s : list N)
  | JArray (items : list Json)
  | JObject (entries : list (list N * Json)).

Fixpoint redact_json_secrets (value : Json) : Json :=
  match value with
  | JObject entries =>
      JObject (List.map
        (fun kv => (kv.1, if key_is_sensitive kv.1 then JString REDACTED else redact_json_secrets kv.2)) entries)
  | JArray items => JArray (List.map redact_json_secrets items)
  | JString text => JString (redact_secrets text)
  | scalar => scalar
  end.

(** ** Text bound for the model (crates/tui/src/client.rs) *)

Definition MIN_EXACT_SECRET_CHARS : nat := 8.

Definition push_model_bound_secret (values : list (list N)) (value : option (list N)) : list (list N) :=
  match value with
  | None => values
  | Some raw =>
      let value := trim raw in
      if negb (str_is_empty value) && (MIN_EXACT_SECRET_CHARS <=? length value)
      then if str_mem values value then values else values ++ [value]
      else values
  end.

Definition redact_model_bound_text (text : list N) (exact_secret_values : list (list N)) : list N :=
  redact_model_bound_secrets
    (fold_left (fun redacted secret => str_replace secret REDACTED redacted) exact_secret_values text).

End Redact.
