(* ===== verification/SetupTx.v ===== *)
(** * Setup transactions (crates/config/src/persistence.rs)

    A staged write of several files that applies as a whole or is rolled back. Paths
    are lists of components; which directory entry a path names is the parameter
    [resolve], so two staged paths may name one entry. The entries are regular files:
    a symbolic link in the last place of a path is not modelled. The failures of the
    calls are arguments, and the permissions of the files are left out. *)

From stdpp Require Import base list option gmap strings.
From Stdlib Require Import Lia NArith.
From S2P Require Import Prelude.

Module SetupTx.

Definition path : Type := list (list N).

Record StagedWrite : Type := { write_path : path; write_bytes : list N }.
Record Snapshot : Type := { snap_path : path; original : option (list N) }.

(** [SetupTransaction]: the staged writes, in order. *)
Definition SetupTransaction : Type := list StagedWrite.

Definition new : SetupTransaction := [].

(** A later stage of a path replaces the bytes of the earlier one. *)
Fixpoint stage (tx : SetupTransaction) (p : path) (bytes : list N) : SetupTransaction :=
  match tx with
  | [] => [{| write_path := p; write_bytes := bytes |}]
  | w :: rest =>
      if bool_decide (write_path w = p) then {| write_path := p; write_bytes := bytes |} :: rest
      else w :: stage rest p bytes
  end.

Definition preview (tx : SetupTransaction) : list path := write_path <$> tx.
Definition is_empty (tx : SetupTransaction) : bool := match tx with [] => true | _ => false end.

Section Commit.
Context {ino : Type} `{Countable ino} (resolve : path -> ino).

(** The contents of the files, and the directories there are. *)
Record Fs : Type := { files : gmap ino (list N); dirs : gset path }.

(** What the calls of one staged write answer: whether the old file can be read,
    whether the replacement lands, and the directories [create_dir_all] made. *)
Record WriteIo : Type := { io_read : bool; io_write : bool; io_dirs : gset path }.

(** [atomic_write]: all of the file or nothing; the parent directories stay. *)
Definition atomic_write (io : WriteIo) (fs : Fs) (p : path) (bytes : list N) : Fs * bool :=
  if io_write io
  then ({| files := <[resolve p := bytes]> (files fs); dirs := io_dirs io ∪ dirs fs |}, true)
  else ({| files := files fs; dirs := io_dirs io ∪ dirs fs |}, false).

(** One restore: the old bytes are written, or the new file is removed. *)
Definition restore (io : WriteIo) (fs : Fs) (snap : Snapshot) : Fs :=
  match original snap with
  | Some bytes => (atomic_write io fs (snap_path snap) bytes).1
  | None =>
      if io_write io then {| files := delete (resolve (snap_path snap)) (files fs); dirs := dirs fs |} else fs
  end.

(** [rollback]: the snapshots from the last to the first, each attempted. *)
Fixpoint restore_all (ios : list WriteIo) (fs : Fs) (snaps : list Snapshot) : Fs :=
  match snaps, ios with
  | snap :: snaps', io :: ios' => restore_all ios' (restore io fs snap) snaps'
  | _, _ => fs
  end.

Definition rollback (ios : list WriteIo) (fs : Fs) (snapshots : list Snapshot) : Fs :=
  restore_all ios fs (reverse snapshots).

Inductive CommitError : Type :=
  | ReadFailed (p : path) (rolled_back : nat)
  | WriteFailed (p : path) (rolled_back : nat).

(** The loop of [commit]: [undo] are the answers to the calls of a rollback. *)
Fixpoint commit_loop (tx : SetupTransaction) (ios undo : list WriteIo) (fs : Fs) (snapshots : list Snapshot)
    : Fs * result unit CommitError :=
  match tx, ios with
  | [], _ | _, [] => (fs, Ok tt)
  | w :: rest, io :: ios' =>
      if negb (io_read io)
      then (rollback undo fs snapshots, Err (ReadFailed (write_path w) (length snapshots)))
      else
        let before := files fs !! resolve (write_path w) in
        match atomic_write io fs (write_path w) (write_bytes w) with
        | (fs', true) =>
            commit_loop rest ios' undo fs' (snapshots ++ [{| snap_path := write_path w; original := before |}])
        | (fs', false) => (rollback undo fs' snapshots, Err (WriteFailed (write_path w) (length snapshots)))
        end
  end.

(** [commit]: one answer per staged write, and as many for the restores. *)
Definition commit (tx : SetupTransaction) (ios undo : list WriteIo) (fs : Fs) : Fs * result unit CommitError :=
  commit_loop tx ios undo fs [].

(** ** Atomicity *)

(** A restore that works. *)
Definition undone (m : gmap ino (list N)) (snap : Snapshot) : gmap ino (list N) :=
  match original snap with
  | Some bytes => <[resolve (snap_path snap) := bytes]> m
  | None => delete (resolve (snap_path snap)) m
  end.

(** The files after every staged write. *)
Definition applied (tx : SetupTransaction) (m : gmap ino (list N)) : gmap ino (list N) :=
  fold_left (fun m w => <[resolve (write_path w) := write_bytes w]> m) tx m.

Definition untouched (tx : SetupTransaction) (m m' : gmap ino (list N)) : Prop :=
  forall i, i ∉ resolve <$> preview tx -> m' !! i = m !! i.

Lemma restore_all_works ios fs snaps :
  length snaps <= length ios -> Forall (fun io => io_write io = true) ios ->
  files (restore_all ios fs snaps) = fold_left undone snaps (files fs).
Proof.
  revert ios fs. induction snaps as [|snap snaps IH]; intros ios fs Hl Hw; [by destruct ios|].
  destruct ios as [|io ios]; [cbn in Hl; lia|]. inversion_clear Hw as [|? ? Hio Hw'].
  cbn [restore_all fold_left]. rewrite IH by (done || (cbn in Hl; lia)). f_equal.
  unfold restore, undone, atomic_write. by destruct (original snap); rewrite Hio.
Qed.

Lemma undone_write m p bytes :
  undone (<[resolve p := bytes]> m) {| snap_path := p; original := m !! resolve p |} = m.
Proof.
  unfold undone. cbn [original snap_path]. destruct (m !! resolve p) as [old|] eqn:E.
  - rewrite insert_insert_eq. by apply insert_id.
  - by apply delete_insert_id.
Qed.

(** The snapshots undo what was written so far. *)
Definition undoes (snaps : list Snapshot) (m m0 : gmap ino (list N)) : Prop := fold_left undone (reverse snaps) m = m0.

Lemma undoes_snoc snaps m m0 p bytes :
  undoes snaps m m0 ->
  undoes (snaps ++ [{| snap_path := p; original := m !! resolve p |}]) (<[resolve p := bytes]> m) m0.
Proof. unfold undoes. intros Hu. rewrite reverse_snoc. cbn [fold_left]. by rewrite undone_write. Qed.

Lemma commit_loop_spec tx ios undo fs snaps m0 :
  length tx <= length ios -> length snaps + length tx <= length undo ->
  Forall (fun io => io_write io = true) undo -> undoes snaps (files fs) m0 ->
  match commit_loop tx ios undo fs snaps with
  | (fs', Ok _) => files fs' = applied tx (files fs)
  | (fs', Err _) => files fs' = m0
  end.
Proof.
  revert ios fs snaps. induction tx as [|w tx IH]; intros ios fs snaps Hi Hu Hw Hs; [done|].
  destruct ios as [|io ios]; [cbn in Hi; lia|]. cbn [commit_loop length] in *.
  assert (forall fs', files fs' = files fs -> files (rollback undo fs' snaps) = m0) as Hroll.
  { intros fs' Hf. unfold rollback. rewrite restore_all_works by (done || (rewrite length_reverse; lia)).
    by rewrite Hf. }
  destruct (negb (io_read io)); [by apply Hroll|]. unfold atomic_write.
  destruct (io_write io); [|by apply Hroll]. cbn [app].
  specialize (IH ios {| files := <[resolve (write_path w) := write_bytes w]> (files fs); dirs := io_dirs io ∪ dirs fs |}
    (snaps ++ [{| snap_path := write_path w; original := files fs !! resolve (write_path w) |}])).
  apply IH; [lia|rewrite length_app; cbn; lia|done|]. by apply undoes_snoc.
Qed.

Lemma restore_untouched io fs snap i : i <> resolve (snap_path snap) -> files (restore io fs snap) !! i = files fs !! i.
Proof.
  intros Hi. unfold restore, atomic_write. destruct (original snap), (io_write io); cbn [files fst]; try done.
  - by rewrite lookup_insert_ne.
  - by rewrite lookup_delete_ne.
Qed.

Lemma restore_all_untouched ios fs snaps i :
  i ∉ resolve <$> (snap_path <$> snaps) -> files (restore_all ios fs snaps) !! i = files fs !! i.
Proof.
  revert ios fs. induction snaps as [|snap snaps IH]; intros ios fs Hi; [by destruct ios|].
  destruct ios as [|io ios]; [done|]. cbn [restore_all]. rewrite !fmap_cons, not_elem_of_cons in Hi. destruct Hi as [Hi Hs].
  by rewrite IH, restore_untouched.
Qed.

Lemma commit_loop_untouched tx ios undo fs snaps i :
  i ∉ resolve <$> preview tx -> i ∉ resolve <$> (snap_path <$> snaps) ->
  files (commit_loop tx ios undo fs snaps).1 !! i = files fs !! i.
Proof.
  revert ios fs snaps. induction tx as [|w tx IH]; intros ios fs snaps Ht Hs; [by destruct ios|].
  destruct ios as [|io ios]; [done|]. cbn [commit_loop]. unfold preview in *. rewrite !fmap_cons, not_elem_of_cons in Ht.
  destruct Ht as [Hi Ht].
  assert (forall fs', files fs' = files fs -> files (rollback undo fs' snaps) !! i = files fs !! i) as Hroll.
  { intros fs' Hf. unfold rollback. rewrite restore_all_untouched; [by rewrite Hf|].
    rewrite !fmap_reverse, elem_of_reverse. done. }
  destruct (negb (io_read io)); [by apply Hroll|]. unfold atomic_write. destruct (io_write io); [|by apply Hroll].
  rewrite IH; [cbn [files]; by rewrite lookup_insert_ne|done|].
  rewrite !fmap_app, not_elem_of_app. split; [done|]. cbn. by rewrite list_elem_of_singleton.
Qed.

(** A success does not depend on the restores. *)
Lemma commit_loop_success tx ios undo fs snaps fs' u :
  length tx <= length ios -> commit_loop tx ios undo fs snaps = (fs', Ok u) -> files fs' = applied tx (files fs).
Proof.
  unfold applied. revert ios fs snaps. induction tx as [|w tx IH]; intros ios fs snaps Hi E.
  { by destruct ios; injection E as <- _. }
  destruct ios as [|io ios]; [cbn in Hi; lia|]. cbn [commit_loop fold_left length] in *.
  destruct (negb (io_read io)); [done|]. unfold atomic_write in E. destruct (io_write io); [|done].
  apply IH in E; [|lia]. exact E.
Qed.

(** C25: A transaction applies as a whole or not at all. Whatever calls fail, a commit
    changes only the files its paths name; when it reports success every staged write
    has landed, in order, and when it reports an error and the restores work every file
    is what it was before, even if several staged paths name the same file. *)
Theorem commit_is_atomic tx ios undo fs :
  length tx <= length ios -> length tx <= length undo ->
  let '(fs', r) := commit tx ios undo fs in
  untouched tx (files fs) (files fs')
  /\ match r with
     | Ok _ => files fs' = applied tx (files fs)
     | Err _ => Forall (fun io => io_write io = true) undo -> files fs' = files fs
     end.
Proof.
  intros Hi Hu. pose proof (fun Hw => commit_loop_spec tx ios undo fs [] (files fs) Hi Hu Hw eq_refl) as Hspec.
  unfold commit. destruct (commit_loop tx ios undo fs []) as [fs' r] eqn:E. split.
  - intros i Ht. assert (fs' = (commit_loop tx ios undo fs []).1) as -> by by rewrite E.
    apply commit_loop_untouched; [done|set_solver].
  - destruct r as [u|e]; [eapply commit_loop_success; [exact Hi|exact E]|auto].
Qed.

End Commit.

(** ** Staging *)

(** The bytes last staged for a path. *)
Fixpoint last_staged (calls : list (path * list N)) (p : path) : option (list N) :=
  match calls with
  | [] => None
  | (q, bytes) :: rest =>
      match last_staged rest p with Some b => Some b | None => if bool_decide (q = p) then Some bytes else None end
  end.

Definition staged (calls : list (path * list N)) : SetupTransaction :=
  fold_left (fun tx c => stage tx c.1 c.2) calls new.

Lemma elem_of_stage_paths tx p bytes q : q ∈ preview (stage tx p bytes) <-> q = p \/ q ∈ preview tx.
Proof.
  induction tx as [|w tx IH]; cbn [stage]; [unfold preview; cbn; set_solver|].
  case_bool_decide as E; unfold preview in *; rewrite ?fmap_cons, ?elem_of_cons in *; [subst; cbn; tauto|].
  rewrite IH. tauto.
Qed.

Lemma stage_nodup tx p bytes : NoDup (preview tx) -> NoDup (preview (stage tx p bytes)).
Proof.
  induction tx as [|w tx IH]; intros Hn; [by apply NoDup_singleton|]. cbn [stage].
  unfold preview in *. rewrite fmap_cons, NoDup_cons in Hn. destruct Hn as [Hw Hn].
  case_bool_decide as E; rewrite fmap_cons, NoDup_cons; [by subst|].
  split; [|by apply IH]. intros Hin. apply (elem_of_stage_paths tx p bytes) in Hin as [?|?]; [by subst|done].
Qed.

(** The bytes a transaction holds for a path. *)
Definition staged_bytes (tx : SetupTransaction) (p : path) : option (list N) :=
  write_bytes <$> List.find (fun w => bool_decide (write_path w = p)) tx.

Lemma staged_bytes_stage tx q bytes p :
  staged_bytes (stage tx q bytes) p = if bool_decide (q = p) then Some bytes else staged_bytes tx p.
Proof.
  unfold staged_bytes. induction tx as [|w tx IH]; cbn [stage].
  { cbn. by case_bool_decide. }
  destruct (bool_decide_reflect (write_path w = q)) as [E|E]; cbn [List.find write_path].
  - subst q. by case_bool_decide.
  - destruct (bool_decide_reflect (write_path w = p)) as [E'|E'].
    + rewrite bool_decide_eq_false_2; [done|congruence].
    + exact IH.
Qed.

Lemma last_staged_snoc calls q bytes p :
  last_staged (calls ++ [(q, bytes)]) p = if bool_decide (q = p) then Some bytes else last_staged calls p.
Proof.
  induction calls as [|[r b] calls IH]; [done|]. cbn [app last_staged]. rewrite IH. by case_bool_decide.
Qed.

(** Staging: each path is staged once, with the bytes last given for it, and the preview
    lists exactly the paths that were staged. *)
Theorem staging_spec calls :
  NoDup (preview (staged calls))
  /\ (forall p, p ∈ preview (staged calls) <-> p ∈ calls.*1)
  /\ (forall p, staged_bytes (staged calls) p = last_staged calls p).
Proof.
  unfold staged. induction calls as [|[q bytes] calls IH] using rev_ind; [split_and!; [constructor|done|done]|].
  rewrite fold_left_app. cbn [fold_left fst snd]. destruct IH as (Hn & He & Hb). split_and!.
  - by apply stage_nodup.
  - intros p. rewrite elem_of_stage_paths, He, fmap_app, elem_of_app. cbn. rewrite list_elem_of_singleton. tauto.
  - intros p. rewrite staged_bytes_stage, last_staged_snoc, Hb. done.
Qed.

(** ** The inhabited case: the second of two writes fails, and the first is undone *)

Definition config_toml : path := [[1%N]].
Definition state_json : path := [[2%N]].
Definition sample_tx : SetupTransaction := staged [(config_toml, [7%N]); (state_json, [8%N])].
Definition sample_fs : Fs (ino := path) := {| files := {[config_toml := [5%N]]}; dirs := ∅ |}.
Definition works : WriteIo := {| io_read := true; io_write := true; io_dirs := ∅ |}.
Definition fails : WriteIo := {| io_read := true; io_write := false; io_dirs := ∅ |}.

Lemma commit_is_atomic_witness :
  files (commit id sample_tx [works; fails] [works; works] sample_fs).1 = files sample_fs
  /\ files (commit id sample_tx [works; works] [works; works] sample_fs).1 = applied id sample_tx (files sample_fs).
Proof.
  pose proof (commit_is_atomic id sample_tx [works; fails] [works; works] sample_fs ltac:(vm_compute; lia) ltac:(vm_compute; lia)) as Hf.
  pose proof (commit_is_atomic id sample_tx [works; works] [works; works] sample_fs ltac:(vm_compute; lia) ltac:(vm_compute; lia)) as Hw.
  split.
  - destruct (commit id sample_tx [works; fails] _ _) as [fs' r] eqn:E.
    destruct r; [apply (f_equal (fun x => is_ok x.2)) in E; discriminate E|]. apply Hf. repeat constructor.
  - destruct (commit id sample_tx [works; works] _ _) as [fs' r] eqn:E.
    destruct r; [apply Hw|apply (f_equal (fun x => is_ok x.2)) in E; discriminate E].
Defined.

End SetupTx.
