(* ===== verification/PathFs.v ===== *)
(** * Unix paths and a file system with symbolic links

    The part of [std::path] and [std::fs] that the confinement of file tools rests on.
    A path is absolute and a list of components; a file system maps the real path of an
    entry to what it is. [canonicalize] is [realpath]: it follows links, and gives up
    after forty of them as Linux does. Hard links, permissions and concurrent changes
    are left out. *)

From stdpp Require Import base list option gmap strings.
From Stdlib Require Import Lia NArith.
From S2P Require Import Prelude RustStr.

Module PathFs.

Abbreviation name := (list N) (only parsing).

(** The components of an absolute path below its root: [..] and names. *)
Inductive comp : Type := Up | Name (n : list N).

#[export] Instance comp_eq_dec : EqDecision comp.
Proof. solve_decision. Defined.

(** [Path::components]: empty parts and dots are dropped. *)
Definition component (part : list N) : list comp :=
  if str_is_empty part || str_eqb part (lit ".") then []
  else if str_eqb part (lit "..") then [Up] else [Name part].

Definition components (raw : list N) : list comp := split_char c_slash raw ≫= component.
Definition is_absolute (raw : list N) : bool := starts_with_char c_slash raw.

(** A real path, as a path. *)
Definition names (q : list (list N)) : list comp := Name <$> q.

(** [Path::starts_with], by components. *)
Definition starts_with_path (p base : list comp) : bool := bool_decide (base `prefix_of` p).

(** ** Files *)

Inductive node : Type :=
  | Dir
  | File
  | Link (from_root : bool) (target : list comp).

Abbreviation fs := (gmap (list (list N)) node).

(** What is at a real path; the root is a directory. *)
Definition node_at (f : fs) (q : list (list N)) : option node := match q with [] => Some Dir | _ => f !! q end.

(** Path resolution from the directory [at_]: at most [links] links are followed. *)
Fixpoint walk (links : nat) (f : fs) : list (list N) -> list comp -> option (list (list N)) :=
  fix go (at_ : list (list N)) (todo : list comp) : option (list (list N)) :=
    match todo with
    | [] => Some at_
    | c :: rest =>
        match node_at f at_ with
        | Some Dir =>
            match c with
            | Up => go (removelast at_) rest
            | Name n =>
                match f !! (at_ ++ [n]) with
                | None => None
                | Some (Link from_root target) =>
                    match links with
                    | O => None
                    | S links' => walk links' f (if from_root then [] else at_) (target ++ rest)
                    end
                | Some _ => go (at_ ++ [n]) rest
                end
            end
        | _ => None
        end
    end.

Definition MAX_LINKS : nat := 40.

(** [Path::canonicalize], [Path::exists] and [Path::is_dir]. *)
Definition canonicalize (f : fs) (p : list comp) : option (list (list N)) := walk MAX_LINKS f [] p.
Definition path_exists (f : fs) (p : list comp) : bool := bool_decide (is_Some (canonicalize f p)).
Definition is_dir (f : fs) (p : list comp) : bool :=
  match canonicalize f p with
  | Some q => match node_at f q with Some Dir => true | _ => false end
  | None => false
  end.

(** ** Writing *)

(** [mkdir] of the name [n] in the directory at [d]. *)
Definition mkdir (f : fs) (d : list comp) (n : list N) : option fs :=
  match canonicalize f d with
  | Some q =>
      match node_at f q, f !! (q ++ [n]) with
      | Some Dir, None => Some (<[q ++ [n] := Dir]> f)
      | _, _ => None
      end
  | None => None
  end.

(** [create_dir_all], on the reversed names of the directory. *)
Fixpoint create_rev (f : fs) (rp : list (list N)) : option fs :=
  if is_dir f (names (reverse rp)) then Some f
  else match rp with
       | [] => None
       | n :: rp' =>
           match create_rev f rp' with
           | Some f1 => mkdir f1 (names (reverse rp')) n
           | None => None
           end
       end.

Definition create_dir_all (f : fs) (p : list (list N)) : option fs := create_rev f (reverse p).

(** A temporary file beside [p] renamed to it: the entry of [p] is replaced, a link is not
    followed, and a directory is not replaced. *)
Definition rename_over (f : fs) (p : list (list N)) : option fs :=
  match last p with
  | None => None
  | Some n =>
      match canonicalize f (names (removelast p)) with
      | Some d =>
          match node_at f d, f !! (d ++ [n]) with
          | Some Dir, Some Dir => None
          | Some Dir, _ => Some (<[d ++ [n] := File]> f)
          | _, _ => None
          end
      | None => None
      end
  end.

(** The write of a file tool: the parent directories, then the file. *)
Definition write_file (f : fs) (p : list (list N)) : option fs :=
  match create_dir_all f (removelast p) with
  | Some f1 => rename_over f1 p
  | None => None
  end.

End PathFs.
