(* ===== verification/Confine.v ===== *)
(** * Confinement of the file tools

    Where a file tool may write: path resolution against the workspace
    ([ToolContext::resolve_path] of crates/tui/src/tools/spec.rs) and the writes that need
    no approval in a git workspace (crates/tui/src/core/authority.rs). The workspace is
    an absolute path; files are those of [PathFs]. *)

From stdpp Require Import base list option gmap strings.
From Stdlib Require Import Lia NArith.
From S2P Require Import Prelude RustStr PathFs.

Module Confine.
Import PathFs.

(** ** Paths *)

(** [normalize_path] of an absolute path: names only, [..] at the root is the root. *)
Definition normalize_step (stack : list (list N)) (c : comp) : list (list N) :=
  match c with Up => removelast stack | Name n => stack ++ [n] end.

Definition normalize_path (p : list comp) : list (list N) := fold_left normalize_step p [].

(** The fields of [ToolContext] that [resolve_path] reads. *)
Record ToolContext : Type := {
  workspace : list comp;
  trust_mode : bool;
  follow_symlinks : bool;
  trusted_external_paths : list (list comp)
}.

Definition is_trusted_external_path (ctx : ToolContext) (p : list comp) : bool :=
  existsb (starts_with_path p) (trusted_external_paths ctx).

(** The loop of [resolve_nonexistent_path], on the reversed path: the deepest ancestor
    that exists, and the names below it. *)
Fixpoint find_existing (f : fs) (rp : list comp) (suffix : list (list N)) : list comp * list (list N) :=
  if path_exists f (reverse rp) then (reverse rp, suffix)
  else match rp with
       | [] => ([], suffix)
       | c :: rp' => find_existing f rp' (match c with Name n => n :: suffix | Up => suffix end)
       end.

Definition or_path (q : option (list (list N))) (p : list comp) : list comp :=
  match q with Some q => names q | None => p end.

Definition resolve_nonexistent_path (f : fs) (ctx : ToolContext) (candidate workspace_canonical : list comp)
    : result (list comp) (list comp) :=
  let workspace_normalized := names (normalize_path workspace_canonical) in
  let workspace_plain := names (normalize_path (workspace ctx)) in
  let '(existing_ancestor, suffix) := find_existing f (reverse candidate) [] in
  let ancestor_normalized := names (normalize_path existing_ancestor) in
  let canonical_ancestor := or_path (canonicalize f existing_ancestor) existing_ancestor in
  let canonical := names (normalize_path (canonical_ancestor ++ names suffix)) in
  if follow_symlinks ctx
     && (starts_with_path ancestor_normalized workspace_plain || starts_with_path ancestor_normalized workspace_normalized)
  then Ok canonical
  else if negb (starts_with_path canonical workspace_canonical) && negb (starts_with_path canonical workspace_normalized)
          && negb (is_trusted_external_path ctx canonical)
  then Err canonical
  else Ok canonical.

Definition candidate_path (ws : list comp) (raw : list N) : list comp :=
  if is_absolute raw then components raw else ws ++ components raw.

(** [resolve_path]; an error carries the path that escapes. *)
Definition resolve_path (f : fs) (ctx : ToolContext) (raw : list N) : result (list comp) (list comp) :=
  let candidate := candidate_path (workspace ctx) raw in
  if trust_mode ctx then Ok (or_path (canonicalize f candidate) candidate)
  else
    let workspace_canonical := or_path (canonicalize f (workspace ctx)) (workspace ctx) in
    let candidate_normalized := names (normalize_path candidate) in
    let workspace_plain := names (normalize_path (workspace ctx)) in
    let workspace_normalized := names (normalize_path workspace_canonical) in
    if follow_symlinks ctx
       && (starts_with_path candidate_normalized workspace_plain
           || starts_with_path candidate_normalized workspace_normalized)
    then
      match canonicalize f candidate with
      | Some q => Ok (names q)
      | None => resolve_nonexistent_path f ctx candidate workspace_canonical
      end
    else
      let candidate_canonical := or_path (canonicalize f candidate) candidate_normalized in
      if negb (starts_with_path candidate_canonical workspace_normalized)
         && negb (starts_with_path candidate_normalized workspace_plain)
         && negb (is_trusted_external_path ctx candidate_canonical)
         && negb (is_trusted_external_path ctx candidate_normalized)
      then Err candidate_canonical
      else
        match canonicalize f candidate with
        | Some q =>
            if negb (starts_with_path (names q) workspace_canonical) && negb (is_trusted_external_path ctx (names q))
            then Err (names q) else Ok (names q)
        | None => resolve_nonexistent_path f ctx candidate workspace_canonical
        end.

(** ** Writes without approval *)

(** [Path::extension] of one name. *)
Definition extension (n : list N) : option (list N) :=
  let after := rsplit_next (N.eqb c_dot) n in
  if length after =? length n then None
  else if length n =? S (length after) then None
  else Some after.

Definition one_of (n : list N) (l : list string) : bool := existsb (fun s => str_eqb n (lit s)) l.
Definition starts_with_any (n : list N) (l : list string) : bool := existsb (fun s => starts_with (lit s) n) l.

Definition is_carve_out_excluded_name (n : list N) : bool :=
  if str_eqb n (lit ".git") then true
  else if one_of n [".ghosty"; ".ssh"; ".aws"; ".gnupg"; ".kube"; ".docker"]%string then true
  else if starts_with (lit ".env") n
          || one_of n [".netrc"; ".npmrc"; ".pypirc"; ".git-credentials"; "credentials"]%string
          || starts_with (lit "credentials.") n
  then true
  else if starts_with_any n ["id_rsa"; "id_dsa"; "id_ecdsa"; "id_ed25519"]%string then true
  else match extension n with
       | Some ext => one_of ext ["pem"; "key"; "p12"; "pfx"; "jks"; "keystore"]%string
       | None => false
       end.

Definition carve_out_relative_path_allowed (relative : list comp) : bool :=
  forallb (fun c => match c with Name n => negb (is_carve_out_excluded_name (to_ascii_lowercase n)) | Up => true end)
    relative.

(** [Path::strip_prefix]. *)
Fixpoint strip_path (base p : list comp) : option (list comp) :=
  match base, p with
  | [], _ => Some p
  | b :: base', c :: p' => if bool_decide (b = c) then strip_path base' p' else None
  | _ :: _, [] => None
  end.

(** The deepest ancestor that exists, by its real path, and the rest appended to it. *)
Fixpoint resolve_deepest_rev (f : fs) (rp : list comp) (suffix : list (list N)) : option (list (list N)) :=
  match canonicalize f (reverse rp) with
  | Some canonical => Some (canonical ++ suffix)
  | None =>
      match rp with
      | Name n :: rp' => resolve_deepest_rev f rp' (n :: suffix)
      | _ => None
      end
  end.

Definition resolve_deepest_existing (f : fs) (candidate : list comp) : option (list (list N)) :=
  resolve_deepest_rev f (reverse candidate) [].

Definition carve_out_target_allowed (f : fs) (ws : list comp) (workspace_canonical : list (list N)) (raw : list N) : bool :=
  let raw := trim raw in
  if str_is_empty raw then false
  else
    let candidate := candidate_path ws raw in
    let lexical := names (normalize_path candidate) in
    let workspace_lexical := names (normalize_path ws) in
    let workspace_canonical_lexical := names (normalize_path (names workspace_canonical)) in
    match (match strip_path workspace_lexical lexical with
           | Some relative => Some relative
           | None => strip_path workspace_canonical_lexical lexical
           end) with
    | None => false
    | Some relative =>
        if negb (carve_out_relative_path_allowed relative) then false
        else match resolve_deepest_existing f candidate with
             | None => false
             | Some resolved =>
                 match strip_path (names workspace_canonical) (names resolved) with
                 | None => false
                 | Some resolved_relative => carve_out_relative_path_allowed resolved_relative
                 end
             end
    end.

(** [symlink_metadata().is_ok()] of a name in a directory. *)
Definition entry_exists (f : fs) (d : list comp) (n : list N) : bool :=
  match canonicalize f d with
  | Some q => match node_at f q with Some Dir => bool_decide (is_Some (f !! (q ++ [n]))) | _ => false end
  | None => false
  end.

Definition paths_within_workspace_write_carve_out (f : fs) (ws : list comp) (paths : list (list N)) : bool :=
  match paths with
  | [] => false
  | _ =>
      if negb (entry_exists f ws (lit ".git")) then false
      else match canonicalize f ws with
           | None => false
           | Some workspace_canonical => forallb (carve_out_target_allowed f ws workspace_canonical) paths
           end
  end.

End Confine.
