(* ===== verification/ConfineFacts.v ===== *)
(** * What the file tools can reach

    Real paths, path resolution and creation of directories; then where a write lands
    that was resolved against the workspace, and the one way around it. *)

From stdpp Require Import base list option gmap strings.
From Stdlib Require Import Lia NArith.
From S2P Require Import Prelude RustStr PathFs Confine.

Module ConfineFacts.
Import PathFs Confine.

#[export] Instance Name_inj : Inj (=) (=) Name.
Proof. by intros a b [= ->]. Qed.

(** ** Real paths *)

Definition not_link (x : node) : Prop := match x with Link _ _ => False | _ => True end.

(** Every entry on the way is a directory and no link is met. *)
Definition real (f : fs) (q : list (list N)) : Prop :=
  forall a n b, q = a ++ n :: b -> node_at f a = Some Dir /\ exists x, f !! (a ++ [n]) = Some x /\ not_link x.

Lemma real_nil f : real f [].
Proof. intros a n b E. by destruct a. Qed.

Lemma real_app f a b : real f (a ++ b) -> real f a.
Proof. intros H a' n b' ->. apply (H a' n (b' ++ b)). by rewrite <-(assoc_L (++)). Qed.

Lemma real_snoc f q n x :
  real f q -> node_at f q = Some Dir -> f !! (q ++ [n]) = Some x -> not_link x -> real f (q ++ [n]).
Proof.
  intros Hq Hd Hx Hn a m b E. destruct b as [|b' b _] using rev_ind.
  - apply app_inj_2 in E as [-> [= ->]]; [|done]. eauto.
  - rewrite app_comm_cons, (assoc_L (++)) in E. apply app_inj_2 in E as [E _]; [|done]. by apply (Hq a m b).
Qed.

Lemma real_snoc_inv f q n :
  real f (q ++ [n]) -> real f q /\ node_at f q = Some Dir /\ exists x, f !! (q ++ [n]) = Some x /\ not_link x.
Proof. intros H. split; [by apply real_app in H|]. by apply (H q n []). Qed.

Lemma node_at_snoc f q n : node_at f (q ++ [n]) = f !! (q ++ [n]).
Proof. by destruct q. Qed.

Lemma removelast_real f q : real f q -> real f (removelast q).
Proof.
  intros H. destruct q as [|n q _] using rev_ind; [done|]. rewrite removelast_last. by apply real_app in H.
Qed.

(** ** Resolution *)

Lemma walk_nil l f at_ : walk l f at_ [] = Some at_.
Proof. by destruct l. Qed.

Lemma walk_cons l f at_ c rest :
  walk l f at_ (c :: rest) =
    match node_at f at_ with
    | Some Dir =>
        match c with
        | Up => walk l f (removelast at_) rest
        | Name n =>
            match f !! (at_ ++ [n]) with
            | None => None
            | Some (Link from_root target) =>
                match l with
                | O => None
                | S l' => walk l' f (if from_root then [] else at_) (target ++ rest)
                end
            | Some _ => walk l f (at_ ++ [n]) rest
            end
        end
    | _ => None
    end.
Proof. by destruct l. Qed.

#[local] Opaque walk.

(** Resolutions are followed step by step. *)
Lemma walk_ind_some (P : nat -> list (list N) -> list comp -> list (list N) -> Prop) f :
  (forall l at_, P l at_ [] at_) ->
  (forall l at_ rest q, node_at f at_ = Some Dir -> walk l f (removelast at_) rest = Some q ->
    P l (removelast at_) rest q -> P l at_ (Up :: rest) q) ->
  (forall l at_ n x rest q, node_at f at_ = Some Dir -> f !! (at_ ++ [n]) = Some x -> not_link x ->
    walk l f (at_ ++ [n]) rest = Some q -> P l (at_ ++ [n]) rest q -> P l at_ (Name n :: rest) q) ->
  (forall l at_ n (from_root : bool) target rest q, node_at f at_ = Some Dir ->
    f !! (at_ ++ [n]) = Some (Link from_root target) ->
    walk l f (if from_root then [] else at_) (target ++ rest) = Some q ->
    P l (if from_root then [] else at_) (target ++ rest) q -> P (S l) at_ (Name n :: rest) q) ->
  forall l at_ todo q, walk l f at_ todo = Some q -> P l at_ todo q.
Proof.
  intros Hnil Hup Hname Hlink. induction l as [|l IHl]; intros at_ todo; revert at_;
    induction todo as [|c rest IH]; intros at_ q.
  1, 3: rewrite walk_nil; by intros [= <-].
  all: rewrite walk_cons; destruct (node_at f at_) as [[| |]|] eqn:Ed; try done.
  all: destruct c as [|n]; [intros E; by apply Hup; auto|].
  all: destruct (f !! (at_ ++ [n])) as [x|] eqn:En; [|done].
  all: destruct x as [| |r t]; intros E; try done;
    first [by eapply Hname; eauto; done | by eapply Hlink; eauto].
Qed.

Lemma walk_real f l at_ todo q : walk l f at_ todo = Some q -> real f at_ -> real f q.
Proof.
  intros Hw. pattern l, at_, todo, q. revert l at_ todo q Hw. apply walk_ind_some; [done| | |].
  - intros l at_ rest q _ _ IH Hr. apply IH. by apply removelast_real.
  - intros l at_ n x rest q Hd Hx Hn _ IH Hr. apply IH. by eapply real_snoc.
  - intros l at_ n [] target rest q _ _ _ IH Hr; apply IH; [apply real_nil|done].
Qed.

Lemma walk_compose f l1 l2 at_ a b c d :
  walk l1 f at_ a = Some c -> walk l2 f c b = Some d -> walk (l1 + l2) f at_ (a ++ b) = Some d.
Proof.
  intros H1. revert b d. pattern l1, at_, a, c. revert l1 at_ a c H1. apply walk_ind_some.
  - intros l at_ b d H2. cbn [app]. induction l as [|l IH]; [done|]. clear - IH.
    cbn [Nat.add]. revert IH. generalize (l + l2) as m. intros m IH.
    pattern m, at_, b, d. revert IH. revert m at_ b d. apply walk_ind_some.
    + intros. apply walk_nil.
    + intros m at_ rest q Hd _ IH. rewrite walk_cons, Hd. exact IH.
    + intros m at_ n x rest q Hd Hx Hn _ IH. rewrite walk_cons, Hd, Hx. by destruct x.
    + intros m at_ n r t rest q Hd Hx _ IH. rewrite walk_cons, Hd, Hx. exact IH.
  - intros l at_ rest q Hd _ IH b d H2. cbn [app]. rewrite walk_cons, Hd. by apply IH.
  - intros l at_ n x rest q Hd Hx Hn _ IH b d H2. cbn [app]. rewrite walk_cons, Hd, Hx.
    destruct x; [by apply IH|by apply IH|done].
  - intros l at_ n r t rest q Hd Hx _ IH b d H2. cbn [app Nat.add]. rewrite walk_cons, Hd, Hx.
    specialize (IH b d H2). by rewrite <-(assoc_L (++)) in IH.
Qed.

(** A longer path does not resolve when a shorter one does not. *)
Lemma walk_app_some f l at_ a b q : walk l f at_ (a ++ b) = Some q -> is_Some (walk l f at_ a).
Proof.
  intros Hw. remember (a ++ b) as p eqn:Ep. revert a Ep. pattern l, at_, p, q. revert l at_ p q Hw.
  apply walk_ind_some.
  - intros l at_ a E. symmetry in E. apply app_nil in E as [-> _]. rewrite walk_nil. eauto.
  - intros l at_ rest q Hd _ IH [|c a] E; [rewrite walk_nil; eauto|]. injection E as <- ->. rewrite walk_cons, Hd. by apply IH.
  - intros l at_ n x rest q Hd Hx Hn _ IH [|c a] E; [rewrite walk_nil; eauto|]. injection E as <- ->.
    rewrite walk_cons, Hd, Hx. destruct x; [by apply IH|by apply IH|done].
  - intros l at_ n r t rest q Hd Hx _ IH [|c a] E; [rewrite walk_nil; eauto|]. injection E as <- ->.
    rewrite walk_cons, Hd, Hx. apply IH. by rewrite (assoc_L (++)).
Qed.

Lemma walk_names f l at_ b rest : real f (at_ ++ b) -> walk l f at_ (names b ++ rest) = walk l f (at_ ++ b) rest.
Proof.
  revert at_. induction b as [|n b IH]; intros at_ Hr; [by rewrite app_nil_r|].
  destruct (Hr at_ n b eq_refl) as (Hd & x & Hx & Hn). change (names (n :: b) ++ rest) with (Name n :: names b ++ rest).
  rewrite walk_cons, Hd, Hx. replace (at_ ++ n :: b) with ((at_ ++ [n]) ++ b) in * by by rewrite <-(assoc_L (++)).
  destruct x; [by apply IH|by apply IH|done].
Qed.

Lemma canonicalize_real f q : real f q -> canonicalize f (names q) = Some q.
Proof.
  intros Hr. unfold canonicalize. pose proof (walk_names f MAX_LINKS [] q [] Hr) as E.
  rewrite app_nil_r in E. rewrite E. apply walk_nil.
Qed.

Lemma canonicalize_is_real f p q : canonicalize f p = Some q -> real f q.
Proof. intros H. eapply walk_real; [exact H|apply real_nil]. Qed.

(** ** Writing below a real path *)

(** The first of the names below [c] is not there. *)
Definition missing (f : fs) (c ks : list (list N)) : Prop :=
  forall n ks', ks = n :: ks' -> canonicalize f (names (c ++ [n])) = None.

Lemma names_app a b : names (a ++ b) = names a ++ names b.
Proof. apply fmap_app. Qed.

Lemma missing_not_found f c n ks : real f c -> missing f c (n :: ks) -> canonicalize f (names (c ++ n :: ks)) = None.
Proof.
  intros Hc Hm. specialize (Hm n ks eq_refl). destruct (canonicalize f (names (c ++ n :: ks))) as [q|] eqn:E; [|done].
  replace (c ++ n :: ks) with ((c ++ [n]) ++ ks) in E by by rewrite <-(assoc_L (++)).
  rewrite names_app in E. apply walk_app_some in E. unfold canonicalize in Hm. rewrite Hm in E. by destruct E.
Qed.

Lemma is_dir_real f q : real f q -> is_dir f (names q) = match node_at f q with Some Dir => true | _ => false end.
Proof. intros Hr. unfold is_dir. by rewrite canonicalize_real. Qed.

Lemma create_rev_eq f p :
  create_rev f (reverse p) =
    if is_dir f (names p) then Some f
    else match reverse p with
         | [] => None
         | n :: rp' =>
             match create_rev f rp' with Some f1 => mkdir f1 (names (reverse rp')) n | None => None end
         end.
Proof. rewrite <-(reverse_involutive p) at 2. by destruct (reverse p). Qed.

Lemma create_real f c f' : real f c -> create_dir_all f c = Some f' -> f' = f /\ node_at f c = Some Dir.
Proof.
  intros Hc. unfold create_dir_all. rewrite create_rev_eq, is_dir_real by done.
  destruct c as [|n c _] using rev_ind; [by intros [= <-]|].
  apply real_snoc_inv in Hc as (Hc & Hd & x & Hx & Hn). rewrite node_at_snoc, Hx.
  assert (create_rev f (reverse c) = Some f) as Hr by by rewrite create_rev_eq, is_dir_real, Hd.
  destruct x; [by intros [= <-]| |done]. rewrite reverse_snoc, Hr, reverse_involutive.
  unfold mkdir. by rewrite canonicalize_real, Hd, Hx.
Qed.

Lemma mkdir_real f d n f' :
  real f d -> mkdir f (names d) n = Some f' ->
  node_at f d = Some Dir /\ f !! (d ++ [n]) = None /\ f' = <[d ++ [n] := Dir]> f.
Proof.
  intros Hd. unfold mkdir. rewrite canonicalize_real by done. destruct (node_at f d) as [[| |]|]; try done.
  destruct (f !! (d ++ [n])) eqn:E; [done|]. by intros [= <-].
Qed.

(** A new entry leaves the ones there are. *)
Lemma real_insert f q n x : f !! (q ++ [n]) = None -> forall p, real f p -> real (<[q ++ [n] := x]> f) p.
Proof.
  intros Hnone p Hp a m b E. destruct (Hp a m b E) as (Hd & y & Hy & Hn).
  assert (forall k y, f !! k = Some y -> (<[q ++ [n] := x]> f) !! k = Some y) as Hkeep.
  { intros k z Hz. rewrite lookup_insert_ne; [done|]. intros <-. congruence. }
  split; [|eauto]. destruct a; [done|]. by apply Hkeep.
Qed.

Lemma create_below f c ks f' :
  real f c -> missing f c ks -> create_dir_all f (c ++ ks) = Some f' ->
  real f' (c ++ ks) /\ node_at f' (c ++ ks) = Some Dir
  /\ forall q, f' !! q <> f !! q -> exists k1 k2, ks = k1 ++ k2 /\ q = c ++ k1.
Proof.
  intros Hc. revert f'. induction ks as [|n ks IH] using rev_ind; intros f' Hm.
  { rewrite app_nil_r. intros (-> & Hd)%create_real; done. }
  assert (missing f c ks) as Hm'. { intros m ks' ->. by apply (Hm m (ks' ++ [n])). }
  unfold create_dir_all. rewrite create_rev_eq. unfold is_dir.
  assert (canonicalize f (names (c ++ ks ++ [n])) = None) as ->.
  { destruct (ks ++ [n]) as [|m k] eqn:E; [by destruct ks|]. rewrite <-E in *. rewrite E in *. by apply missing_not_found. }
  rewrite (assoc_L (++)), reverse_snoc. destruct (create_rev f (reverse (c ++ ks))) as [f1|] eqn:E1; [|done].
  rewrite reverse_involutive. destruct (IH f1 Hm' E1) as (Hr1 & Hd1 & Hq1). intros E2.
  apply mkdir_real in E2 as (_ & Hnone & ->); [|done]. split_and!.
  - apply (real_snoc _ _ n Dir); [by apply real_insert| |by rewrite lookup_insert_eq|done].
    destruct (c ++ ks) eqn:Eq; [done|]. rewrite <-Eq. cbn [node_at] in Hd1. rewrite <-Eq in Hd1.
    rewrite Eq. cbn [node_at]. rewrite <-Eq. rewrite lookup_insert_ne; [done|]. intros E.
    apply (f_equal length) in E. rewrite length_app in E. cbn in E. lia.
  - by rewrite node_at_snoc, lookup_insert_eq.
  - intros q Hq. destruct (decide (q = (c ++ ks) ++ [n])) as [->|Hne].
    + exists (ks ++ [n]), []. by rewrite app_nil_r, (assoc_L (++)).
    + rewrite lookup_insert_ne in Hq by done. destruct (Hq1 q Hq) as (k1 & k2 & -> & ->).
      exists k1, (k2 ++ [n]). by rewrite (assoc_L (++)).
Qed.

Lemma rename_real f d n f' :
  real f d -> rename_over f (d ++ [n]) = Some f' -> f' = <[d ++ [n] := File]> f.
Proof.
  intros Hd. unfold rename_over. rewrite last_snoc, removelast_last, canonicalize_real by done.
  destruct (node_at f d) as [[| |]|]; try done. destruct (f !! (d ++ [n])) as [[| |]|]; try done; by intros [= <-].
Qed.

(** A write below a real path changes entries below it only. *)
Lemma write_below f c ks f' :
  real f c -> missing f c ks -> write_file f (c ++ ks) = Some f' ->
  forall q, f' !! q <> f !! q -> exists k1 k2, ks = k1 ++ k2 /\ q = c ++ k1.
Proof.
  intros Hc Hm. unfold write_file. destruct ks as [|n ks _] using rev_ind.
  - rewrite app_nil_r. destruct c as [|n c _] using rev_ind; [cbn; by destruct (create_dir_all f [])|].
    rewrite removelast_last. apply real_snoc_inv in Hc as (Hc & Hd & _).
    destruct (create_dir_all f c) as [f1|] eqn:E; [|done]. apply create_real in E as [-> _]; [|done].
    intros ->%rename_real; [|done]. intros q Hq. exists [], []. rewrite !app_nil_r.
    destruct (decide (q = c ++ [n])); [done|]. by rewrite lookup_insert_ne in Hq.
  - rewrite (assoc_L (++)), removelast_last.
    assert (missing f c ks) as Hm'. { intros m ks' ->. by apply (Hm m (ks' ++ [n])). }
    destruct (create_dir_all f (c ++ ks)) as [f1|] eqn:E; [|done].
    destruct (create_below f c ks f1 Hc Hm' E) as (Hr & _ & Hq1).
    intros ->%rename_real; [|done]. intros q Hq. destruct (decide (q = (c ++ ks) ++ [n])) as [->|Hne].
    + exists (ks ++ [n]), []. by rewrite app_nil_r, (assoc_L (++)).
    + rewrite lookup_insert_ne in Hq by done. destruct (Hq1 q Hq) as (k1 & k2 & -> & ->).
      exists k1, (k2 ++ [n]). by rewrite (assoc_L (++)).
Qed.

(** ** What a path resolves to *)

Lemma fold_names acc q : fold_left normalize_step (names q) acc = acc ++ q.
Proof.
  revert acc. induction q as [|n q IH]; intros acc; [by rewrite app_nil_r|]. cbn. rewrite IH. by rewrite <-(assoc_L (++)).
Qed.

Lemma normalize_names q : normalize_path (names q) = q.
Proof. apply fold_names. Qed.

Lemma starts_with_names a b : starts_with_path (names a) (names b) = true <-> b `prefix_of` a.
Proof.
  unfold starts_with_path. rewrite bool_decide_eq_true. split; intros [k Hk].
  - unfold names in Hk. apply fmap_app_inv in Hk as (a1 & a2 & E1 & _ & ->).
    apply (inj (fmap Name)) in E1 as ->. apply prefix_app_r. done.
  - exists (names k). by rewrite Hk, names_app.
Qed.

(** The names among components. *)
Definition names_of (p : list comp) : list (list N) := omap (fun c => match c with Name n => Some n | Up => None end) p.

Lemma find_existing_spec f rp acc anc suf :
  find_existing f rp acc = (anc, suf) ->
  exists rest, reverse rp = anc ++ rest /\ suf = names_of rest ++ acc /\ is_Some (canonicalize f anc)
    /\ forall x rest', rest = x :: rest' -> canonicalize f (anc ++ [x]) = None.
Proof.
  revert acc. induction rp as [|c rp IH]; intros acc; cbn [find_existing]; unfold path_exists.
  { case_bool_decide as E; [|exfalso; apply E; eexists; apply walk_nil]. intros [= <- <-].
    exists []. by split_and!; [..|intros x rest' ?]. }
  case_bool_decide as E.
  { intros [= <- <-]. exists []. rewrite app_nil_r. by split_and!; [..|intros x rest' ?]. }
  intros (rest & Hr & -> & Ha & Hx)%IH. exists (rest ++ [c]). rewrite reverse_cons, Hr. split_and!.
  - by rewrite <-(assoc_L (++)).
  - unfold names_of. rewrite omap_app. by destruct c; rewrite <-(assoc_L (++)).
  - done.
  - intros x rest' Er. destruct rest as [|y rest]; [|injection Er as -> _; by eapply Hx].
    injection Er as -> _. rewrite app_nil_r in Hr. rewrite reverse_cons, Hr in E. by apply eq_None_not_Some.
Qed.

(** No part of the path fails to resolve merely because too many links are on it. *)
Definition within_links (f : fs) (p : list comp) : Prop :=
  forall k l, canonicalize f (take k p) = None -> walk l f [] (take k p) = None.

Lemma existing_split f p anc suf :
  within_links f p -> find_existing f (reverse p) [] = (anc, suf) ->
  exists c, canonicalize f anc = Some c /\ real f c /\ missing f c suf.
Proof.
  intros Hl (rest & Ep & Esuf & [c Hc] & Hx)%find_existing_spec. rewrite reverse_involutive in Ep. rewrite app_nil_r in Esuf.
  pose proof (canonicalize_is_real _ _ _ Hc) as Hr. exists c. split_and!; [done|done|].
  intros n ks Eks. destruct rest as [|x rest]; [cbn in Esuf; congruence|].
  specialize (Hx x rest eq_refl).
  assert (anc ++ [x] = take (S (length anc)) p) as Et.
  { rewrite Ep. rewrite take_app_ge by lia. by replace (S (length anc) - length anc) with 1 by lia. }
  rewrite Et in Hx. pose proof (fun l => Hl _ l Hx) as Hnone. rewrite <-Et in Hnone.
  rewrite names_app. unfold canonicalize. change (names [n]) with [Name n].
  rewrite (walk_names f MAX_LINKS [] c [Name n]) by done. cbn [app].
  destruct (node_at f c) as [[| |]|] eqn:Ed.
  2-4: by rewrite walk_cons, Ed.
  destruct x as [|m].
  - exfalso. assert (walk 0 f c [Up] = Some (removelast c)) as Hup by by rewrite walk_cons, Ed, walk_nil.
    pose proof (walk_compose _ _ _ _ _ _ _ _ Hc Hup) as Hw. by rewrite Hnone in Hw.
  - cbn in Esuf. rewrite Eks in Esuf. injection Esuf as -> _. cbn [app].
    destruct (walk MAX_LINKS f c [Name m]) eqn:E; [|done].
    pose proof (walk_compose _ _ _ _ _ _ _ _ Hc E) as Hw. by rewrite Hnone in Hw.
Qed.

(** A directory that exists is not among the names that are missing. *)
Lemma above_missing f w c ks : real f w -> missing f c ks -> w `prefix_of` c ++ ks -> w `prefix_of` c.
Proof.
  intros Hw Hm Hp. destruct (prefix_weak_total w c (c ++ ks) Hp) as [?|[k ->]]; [by apply prefix_app_r|done|].
  destruct k as [|n k]; [by rewrite app_nil_r|]. apply prefix_app_inv in Hp as [t ->].
  specialize (Hm n (k ++ t) eq_refl). rewrite canonicalize_real in Hm; [done|].
  apply (real_app f (c ++ [n]) k). by rewrite <-(assoc_L (++)).
Qed.

Lemma write_confined f w c ks f' :
  real f w -> real f c -> missing f c ks -> w `prefix_of` c ++ ks -> write_file f (c ++ ks) = Some f' ->
  forall q, f' !! q <> f !! q -> w `prefix_of` q.
Proof.
  intros Hw Hc Hm Hp Hf q Hq. destruct (write_below f c ks f' Hc Hm Hf q Hq) as (k1 & k2 & _ & ->).
  apply prefix_app_r. by eapply above_missing.
Qed.

(** The answer for a path that does not exist. *)
Lemma resolve_nonexistent_shape f ctx p wc r :
  within_links f p -> resolve_nonexistent_path f ctx p wc = Ok (names r) ->
  exists anc c suf, find_existing f (reverse p) [] = (anc, suf) /\ r = c ++ suf
    /\ canonicalize f anc = Some c /\ real f c /\ missing f c suf
    /\ (follow_symlinks ctx = true \/ starts_with_path (names r) wc = true
        \/ starts_with_path (names r) (names (normalize_path wc)) = true
        \/ is_trusted_external_path ctx (names r) = true).
Proof.
  intros Hl. unfold resolve_nonexistent_path. destruct (find_existing f (reverse p) []) as [anc suf] eqn:Ef.
  destruct (existing_split f p anc suf Hl Ef) as (c & Hc & Hr & Hm). rewrite Hc. cbn [or_path].
  rewrite <-names_app, normalize_names.
  assert (forall x y : list (list N), @Ok _ (list comp) (names x) = Ok (names y) -> x = y) as Hinj.
  { intros x y [= E]. by apply (inj (fmap Name)) in E. }
  destruct (follow_symlinks ctx) eqn:Efs; cbn [andb].
  - intros H. exists anc, c, suf. split_and!; try done; [|by left].
    destruct (_ || _); [by apply Hinj in H|]. destruct (_ && _ && _); [done|]. by apply Hinj in H.
  - destruct (negb (starts_with_path (names (c ++ suf)) wc)) eqn:E1; cbn [andb].
    2: { intros <-%Hinj. exists anc, c, suf. apply negb_false_iff in E1. by split_and!; auto. }
    destruct (negb (starts_with_path (names (c ++ suf)) (names (normalize_path wc)))) eqn:E2; cbn [andb].
    2: { intros <-%Hinj. exists anc, c, suf. apply negb_false_iff in E2. by split_and!; auto. }
    destruct (negb (is_trusted_external_path ctx (names (c ++ suf)))) eqn:E3; [done|].
    intros <-%Hinj. exists anc, c, suf. apply negb_false_iff in E3. by split_and!; auto.
Qed.

(** C21: The file tools cannot write outside the workspace. Without trust, without
    following links out of the workspace and without trusted roots, a write to a path that
    was resolved changes nothing but entries below the real path of the workspace, whatever
    links there are and however the path is written, as long as no part of the path fails
    to resolve for having too many links. *)
Theorem file_writes_are_confined f ctx raw w r f' :
  trust_mode ctx = false -> follow_symlinks ctx = false -> trusted_external_paths ctx = [] ->
  canonicalize f (workspace ctx) = Some w -> within_links f (candidate_path (workspace ctx) raw) ->
  resolve_path f ctx raw = Ok (names r) -> write_file f r = Some f' ->
  forall q, f' !! q <> f !! q -> w `prefix_of` q.
Proof.
  intros Ht Hfs Htr Hw Hl Hres Hf. pose proof (canonicalize_is_real _ _ _ Hw) as Hrw.
  assert (forall p, is_trusted_external_path ctx p = false) as Hno by (intros p; unfold is_trusted_external_path; by rewrite Htr).
  unfold resolve_path in Hres. rewrite Ht, Hfs, Hw in Hres. cbn [andb or_path] in Hres. rewrite !Hno in Hres.
  destruct (_ && _ && _ && _) in Hres; [done|].
  destruct (canonicalize f (candidate_path (workspace ctx) raw)) as [c|] eqn:Ec.
  - rewrite Hno in Hres. destruct (starts_with_path (names c) (names w)) eqn:Es; cbn [negb andb] in Hres; [|done].
    injection Hres as E. apply (inj (fmap Name)) in E as <-. apply starts_with_names in Es.
    rewrite <-(app_nil_r c) in Hf. eapply write_confined; [exact Hrw|by eapply canonicalize_is_real| | |exact Hf].
    + by intros n ks.
    + by rewrite app_nil_r.
  - apply resolve_nonexistent_shape in Hres as (anc & c & suf & _ & -> & _ & Hr & Hm & Hs); [|done].
    rewrite Hno, Hfs, normalize_names in Hs. assert (w `prefix_of` c ++ suf) as Hp.
    { destruct Hs as [|[?|[?|]]]; try done; by apply starts_with_names. }
    by apply (write_confined f w c suf f').
Qed.

(** ** Writes without approval *)

Lemma strip_path_spec w r rel : strip_path (names w) (names r) = Some rel -> exists t, r = w ++ t /\ rel = names t.
Proof.
  revert r. induction w as [|n w IH]; intros r; cbn; [intros [= <-]; by exists r|].
  destruct r as [|m r]; [done|]. cbn. case_bool_decide as E; [|done]. injection E as <-.
  intros (t & -> & ->)%IH. by exists t.
Qed.

Lemma resolve_deepest_spec f rp acc r :
  resolve_deepest_rev f rp acc = Some r ->
  exists anc c suf, find_existing f rp acc = (anc, suf) /\ canonicalize f anc = Some c /\ r = c ++ suf.
Proof.
  revert acc. induction rp as [|c rp IH]; intros acc; cbn [resolve_deepest_rev find_existing]; unfold path_exists.
  - destruct (canonicalize f (reverse [])) as [q|] eqn:E; [|done]. intros [= <-].
    rewrite bool_decide_eq_true_2 by eauto. by eexists _, _, _.
  - destruct (canonicalize f (reverse (c :: rp))) as [q|] eqn:E.
    + intros [= <-]. rewrite bool_decide_eq_true_2 by eauto. by eexists _, _, _.
    + rewrite bool_decide_eq_false_2 by (intros [? ?]; congruence). destruct c as [|n]; [done|]. apply IH.
Qed.

(** What the check on one target establishes. *)
Lemma carve_out_target f ws w raw :
  carve_out_target_allowed f ws w raw = true -> trim raw = raw ->
  exists anc c suf t, find_existing f (reverse (candidate_path ws raw)) [] = (anc, suf)
    /\ canonicalize f anc = Some c /\ c ++ suf = w ++ t
    /\ Forall (fun n => is_carve_out_excluded_name (to_ascii_lowercase n) = false) t.
Proof.
  intros Ha Htrim. unfold carve_out_target_allowed in Ha. rewrite Htrim in Ha. destruct (str_is_empty raw); [done|].
  destruct (match strip_path _ _ with Some _ => _ | None => _ end) as [relative|]; [|done].
  destruct (negb _); [done|]. destruct (resolve_deepest_existing f (candidate_path ws raw)) as [rr|] eqn:Er; [|done].
  destruct (strip_path (names w) (names rr)) as [rel|] eqn:Es; [|done].
  apply strip_path_spec in Es as (t & -> & ->). apply resolve_deepest_spec in Er as (anc & c & suf & Hf & Hc & E).
  exists anc, c, suf, t. split_and!; try done. unfold carve_out_relative_path_allowed in Ha.
  rewrite forallb_forall in Ha. apply Forall_forall. intros n Hn.
  specialize (Ha (Name n) (proj1 (list_elem_of_In _ _) (list_elem_of_fmap_2 _ _ _ Hn))). by apply negb_true_iff in Ha.
Qed.

(** Outside trust mode the answer is the deepest real ancestor and what is below it. *)
Lemma resolve_path_shape f ctx raw r :
  trust_mode ctx = false -> within_links f (candidate_path (workspace ctx) raw) -> resolve_path f ctx raw = Ok (names r) ->
  exists anc c suf, find_existing f (reverse (candidate_path (workspace ctx) raw)) [] = (anc, suf)
    /\ canonicalize f anc = Some c /\ r = c ++ suf /\ missing f c suf.
Proof.
  intros Ht Hl Hres. unfold resolve_path in Hres. rewrite Ht in Hres.
  set (p := candidate_path (workspace ctx) raw) in *.
  assert (forall c, canonicalize f p = Some c -> r = c ->
    exists anc c suf, find_existing f (reverse p) [] = (anc, suf) /\ canonicalize f anc = Some c /\ r = c ++ suf /\ missing f c suf)
    as Hex.
  { intros c Hc ->. exists p, c, []. rewrite app_nil_r. split_and!; try done.
    rewrite <-(reverse_involutive p) at 2. destruct (reverse p) eqn:Ep; cbn [find_existing]; unfold path_exists;
      rewrite <-Ep, reverse_involutive, bool_decide_eq_true_2 by eauto; done. }
  assert (forall wc, resolve_nonexistent_path f ctx p wc = Ok (names r) ->
    exists anc c suf, find_existing f (reverse p) [] = (anc, suf) /\ canonicalize f anc = Some c /\ r = c ++ suf /\ missing f c suf)
    as Hnon.
  { intros wc (anc & c & suf & ? & ? & ? & _ & ? & _)%resolve_nonexistent_shape; [|done]. eauto 10. }
  assert (forall c, @Ok _ (list comp) (names c) = Ok (names r) -> r = c) as Hinj.
  { intros c [= E]. by apply (inj (fmap Name)) in E. }
  destruct (canonicalize f p) as [c|] eqn:Ec; destruct (follow_symlinks ctx && _); try (by eapply Hnon).
  - by eapply Hex, Hinj.
  - destruct (_ && _ && _ && _); [done|]. destruct (_ && _); [done|]. by eapply Hex, Hinj.
  - destruct (_ && _ && _ && _); [done|]. by eapply Hnon.
Qed.

(** C22: A write that needs no approval in a git workspace changes only entries below the
    real path of the workspace, none of which has a protected name on its way ([.git],
    runtime state, credentials, keys), whatever links there are and whatever roots are
    trusted. The tool runs without the trust mode, the path is given without blanks around
    it (the check trims it and the tool does not, see [padded_path_evades_carve_out]), and
    no part of it fails to resolve for having too many links ([winding_path_escapes]). *)
Theorem carve_out_writes_are_confined f ctx paths raw w r f' :
  trust_mode ctx = false -> paths_within_workspace_write_carve_out f (workspace ctx) paths = true -> raw ∈ paths ->
  trim raw = raw -> canonicalize f (workspace ctx) = Some w ->
  within_links f (candidate_path (workspace ctx) raw) ->
  resolve_path f ctx raw = Ok (names r) -> write_file f r = Some f' ->
  forall q, f' !! q <> f !! q ->
  exists rel, q = w ++ rel /\ Forall (fun n => is_carve_out_excluded_name (to_ascii_lowercase n) = false) rel.
Proof.
  intros Ht Hall Hin Htrim Hw Hl Hres Hf q Hq. unfold paths_within_workspace_write_carve_out in Hall. rewrite Hw in Hall.
  destruct paths as [|p0 paths]; [by apply not_elem_of_nil in Hin|]. destruct (negb _); [done|].
  rewrite forallb_forall in Hall. specialize (Hall raw (proj1 (list_elem_of_In _ _) Hin)).
  apply carve_out_target in Hall as (anc & c & suf & t & Hfind & Hc & E & Hallowed); [|done].
  apply resolve_path_shape in Hres as (anc' & c' & suf' & Hfind' & Hc' & -> & Hm); [|done|done].
  rewrite Hfind in Hfind'. injection Hfind' as <- <-. rewrite Hc in Hc'. injection Hc' as <-.
  pose proof (canonicalize_is_real _ _ _ Hc) as Hrc. pose proof (canonicalize_is_real _ _ _ Hw) as Hrw.
  destruct (write_below f c suf f' Hrc Hm Hf q Hq) as (k1 & k2 & -> & ->).
  destruct (above_missing f w c (k1 ++ k2) Hrw Hm) as [t1 ->]; [rewrite E; by apply prefix_app_r|].
  rewrite <-(assoc_L (++)) in E. apply (inj (app w)) in E as <-. exists (t1 ++ k1). split; [by rewrite (assoc_L (++))|].
  rewrite (assoc_L (++)), Forall_app in Hallowed. tauto.
Qed.

(** ** The way around, and the inhabited case *)

(** A workspace [/w] with a link to itself and a link out of it. *)
Definition w_dir : list (list N) := [lit "w"].
Definition sample_files : fs :=
  <[w_dir := Dir]> (<[[lit "w"; lit ".git"] := Dir]> (<[[lit "w"; lit "here"] := Link false []]>
  (<[[lit "w"; lit "out"] := Link true [Name (lit "etc")]]> (<[[lit "etc"] := Dir]> ∅)))).

Definition sample_ctx : ToolContext :=
  {| workspace := names w_dir; trust_mode := false; follow_symlinks := false; trusted_external_paths := [] |}.

(** Forty steps through the link of the workspace to itself, then the link out. *)
Definition winding : list N := concat (repeat (lit "here/") MAX_LINKS) ++ lit "out/passwd".

(** A path with more links than the system follows is taken for one that does not exist,
    and the link behind the fortieth is never looked at: both checks accept the path, and
    the write lands outside the workspace. *)
Theorem winding_path_escapes :
  paths_within_workspace_write_carve_out sample_files (workspace sample_ctx) [winding] = true
  /\ resolve_path sample_files sample_ctx winding = Ok (names [lit "w"; lit "out"; lit "passwd"])
  /\ (write_file sample_files [lit "w"; lit "out"; lit "passwd"] ≫= fun f' => f' !! [lit "etc"; lit "passwd"]) = Some File
  /\ sample_files !! [lit "etc"; lit "passwd"] = None
  /\ resolve_path sample_files sample_ctx (lit "out/passwd") = Err (names [lit "etc"; lit "passwd"]).
Proof. split_and!; vm_compute; reflexivity. Qed.

(** The check looks at the path without the blanks around it and the tool writes to the
    path as it is: with a link of the name [ x] to the hooks of the repository, a write to
    [ x/pre-commit] is let through as one to a new file [x/pre-commit]. *)
Definition padded_files : fs :=
  <[[lit "w"; lit " x"] := Link false [Name (lit ".git"); Name (lit "hooks")]]>
  (<[[lit "w"; lit ".git"; lit "hooks"] := Dir]> sample_files).

Theorem padded_path_evades_carve_out :
  paths_within_workspace_write_carve_out padded_files (workspace sample_ctx) [lit " x/pre-commit"] = true
  /\ resolve_path padded_files sample_ctx (lit " x/pre-commit") = Ok (names [lit "w"; lit ".git"; lit "hooks"; lit "pre-commit"])
  /\ (write_file padded_files [lit "w"; lit ".git"; lit "hooks"; lit "pre-commit"]
       ≫= fun f' => f' !! [lit "w"; lit ".git"; lit "hooks"; lit "pre-commit"]) = Some File
  /\ padded_files !! [lit "w"; lit ".git"; lit "hooks"; lit "pre-commit"] = None.
Proof. split_and!; vm_compute; reflexivity. Qed.

(** A [..] behind a directory that is not there is dropped: the file is written in it. *)
Theorem missing_parent_is_kept :
  resolve_path sample_files sample_ctx (lit "new/../notes.txt") = Ok (names [lit "w"; lit "new"; lit "notes.txt"]).
Proof. vm_compute. reflexivity. Qed.

(** A new file in a new directory of the workspace. *)
Definition new_file : list N := lit "src/a.txt".

Lemma new_file_within_links : within_links sample_files (candidate_path (workspace sample_ctx) new_file).
Proof.
  intros k l. change (candidate_path _ _) with (names [lit "w"; lit "src"; lit "a.txt"]).
  destruct k as [|[|[|[|k]]]]; cbn [take names fmap list_fmap].
  1, 2: intros Hn; exfalso; revert Hn; vm_compute; discriminate.
  all: intros _; by destruct l.
Qed.

Lemma file_writes_are_confined_witness :
  exists f', write_file sample_files [lit "w"; lit "src"; lit "a.txt"] = Some f'
    /\ f' !! [lit "w"; lit "src"; lit "a.txt"] = Some File
    /\ forall q, f' !! q <> sample_files !! q -> w_dir `prefix_of` q.
Proof.
  eexists. split; [reflexivity|]. split; [reflexivity|].
  apply (file_writes_are_confined sample_files sample_ctx new_file w_dir [lit "w"; lit "src"; lit "a.txt"]); try reflexivity.
  apply new_file_within_links.
Defined.

Lemma carve_out_writes_are_confined_witness :
  exists f', write_file sample_files [lit "w"; lit "src"; lit "a.txt"] = Some f'
    /\ forall q, f' !! q <> sample_files !! q ->
       exists rel, q = w_dir ++ rel /\ Forall (fun n => is_carve_out_excluded_name (to_ascii_lowercase n) = false) rel.
Proof.
  eexists. split; [reflexivity|].
  apply (carve_out_writes_are_confined sample_files sample_ctx [new_file] new_file w_dir [lit "w"; lit "src"; lit "a.txt"]);
    try reflexivity; [by left|apply new_file_within_links].
Defined.

End ConfineFacts.
