(* ===== verification/Authority.v ===== *)
(** * Turn authority (crates/tui/src/core/authority.rs)

    What one turn may do: the permission of a mode, the narrowing by the provenance of
    its input, the sandbox, the permission of one tool and what becomes of an approval
    request. Modes are crates/config/src/app_mode.rs, approval modes those of
    [ExecPolicy]; the paths of a sandbox are those of [PathFs]. *)

From stdpp Require Import base list option strings.
From Stdlib Require Import Lia NArith.
From S2P Require Import Prelude RustStr ExecPolicy PathFs Confine.

Module Authority.
Import ExecPolicy.

(** ** Modes *)

Inductive AppMode : Type := Agent | AutoAlias | Yolo | Plan | Operate.

#[export] Instance AppMode_eq_dec : EqDecision AppMode.
Proof. solve_decision. Defined.

Definition CYCLE : list AppMode := [Plan; Agent; Operate].

Definition mode_parse (value : list N) : option AppMode :=
  let v := to_ascii_lowercase (trim value) in
  if one_of v ["agent"; "act"; "work"; "auto"; "1"]%string then Some Agent
  else if one_of v ["plan"; "2"]%string then Some Plan
  else if one_of v ["operate"; "operation"; "ops"; "3"]%string then Some Operate
  else if one_of v ["yolo"; "4"; "bypass"; "bypass-permissions"; "bypasspermissions"]%string then Some Yolo
  else None.

Definition from_setting (value : list N) : AppMode :=
  let v := to_ascii_lowercase (trim value) in
  if one_of v ["multitask"; "multi"; "5"]%string then Operate else default Agent (mode_parse v).

Definition as_setting (m : AppMode) : list N :=
  lit match m with Agent | AutoAlias | Yolo => "agent" | Plan => "plan" | Operate => "operate" end.

Definition uses_agent_baseline (m : AppMode) : bool :=
  match m with Agent | AutoAlias | Operate => true | _ => false end.

(** The mode [step] places on in the cycle. *)
Definition cycle_by (step : nat) (m : AppMode) : AppMode :=
  match position (fun x => bool_decide (x = m)) CYCLE with
  | None => Agent
  | Some index => default Agent (CYCLE !! ((index + step) mod length CYCLE))
  end.
Definition mode_next (m : AppMode) : AppMode := cycle_by 1 m.
Definition mode_previous (m : AppMode) : AppMode := cycle_by (length CYCLE - 1) m.

Record ModeSessionPrefs : Type := {
  agent_allow_shell : bool;
  agent_trust_mode : bool;
  agent_approval_mode : ApprovalMode
}.

Record EffectiveModePolicy : Type := {
  policy_mode : AppMode;
  policy_allow_shell : bool;
  policy_trust_mode : bool;
  policy_approval_mode : ApprovalMode
}.

Definition base_policy_for_mode (m : AppMode) (prefs : ModeSessionPrefs) : EffectiveModePolicy :=
  match m with
  | Plan =>
      {| policy_mode := m; policy_allow_shell := false; policy_trust_mode := false; policy_approval_mode := Suggest |}
  | Agent | AutoAlias | Operate =>
      {| policy_mode := m; policy_allow_shell := agent_allow_shell prefs;
         policy_trust_mode := agent_trust_mode prefs; policy_approval_mode := agent_approval_mode prefs |}
  | Yolo =>
      {| policy_mode := m; policy_allow_shell := true; policy_trust_mode := true; policy_approval_mode := Bypass |}
  end.

(** ** Provenance *)

Inductive UserInputProvenance : Type :=
  | ExternalUser
  | Runtime
  | SubAgentHandoff
  | AgentMail
  | ImportedTranscript
  | MemoryRecall
  | AssistantGenerated.

Definition provenance_as_str (p : UserInputProvenance) : list N :=
  lit match p with
      | ExternalUser => "external_user"
      | Runtime => "runtime"
      | SubAgentHandoff => "subagent_handoff"
      | AgentMail => "agent_mail"
      | ImportedTranscript => "imported_transcript"
      | MemoryRecall => "memory_recall"
      | AssistantGenerated => "assistant_generated"
      end.

Definition can_authorize_work (p : UserInputProvenance) : bool :=
  match p with ExternalUser => true | _ => false end.

Definition provenance_can_inherit_standing_auto_authority (p : UserInputProvenance) : bool :=
  match p with ExternalUser | Runtime | SubAgentHandoff => true | _ => false end.

Inductive PolicyNarrowingReason : Type := NonAuthoritativeProvenance.

Record PolicyNarrowingEvent : Type := {
  reason : PolicyNarrowingReason;
  from_mode : list N;
  to_mode : list N;
  from_approval : ApprovalMode;
  to_approval : ApprovalMode;
  detail : list N
}.

Definition message (e : PolicyNarrowingEvent) : list N :=
  match reason e with
  | NonAuthoritativeProvenance =>
      lit "Input provenance '" ++ detail e
      ++ lit "' cannot inherit standing auto-approval authority; continuing with approvals required."
  end.

Definition transition (e : PolicyNarrowingEvent) : list N :=
  from_mode e ++ lit " (" ++ permission_chip_label (from_approval e) ++ lit ") -> "
  ++ to_mode e ++ lit " (" ++ permission_chip_label (to_approval e) ++ lit ")".

Record TurnAuthority : Type := {
  mode : AppMode;
  allow_shell : bool;
  trust_mode : bool;
  auto_approve : bool;
  approval_mode : ApprovalMode;
  narrowing : option PolicyNarrowingEvent
}.

Definition status (a : TurnAuthority) : option (list N) := message <$> narrowing a.

Definition from_effective_fields (m : AppMode) (shell trust auto : bool) (approval : ApprovalMode) : TurnAuthority :=
  {| mode := m; allow_shell := shell; trust_mode := trust; auto_approve := auto; approval_mode := approval;
     narrowing := None |}.

Definition agent_approval_mode_for_turn (auto : bool) (approval : ApprovalMode) : ApprovalMode :=
  if auto then Bypass else approval.

Definition approval_mode_for_session (a : TurnAuthority) : ApprovalMode :=
  agent_approval_mode_for_turn (auto_approve a) (approval_mode a).

Definition for_tool_approval_decision (auto : bool) : TurnAuthority :=
  from_effective_fields (if auto then Yolo else Agent) true false auto (if auto then Bypass else Suggest).

Definition is_yolo (m : AppMode) : bool := match m with Yolo => true | _ => false end.
Definition is_bypass (m : ApprovalMode) : bool := match m with Bypass => true | _ => false end.

Definition effective_input_policy (provenance : UserInputProvenance) (requested_mode : AppMode) (content : list N)
    (shell trust auto : bool) (approval : ApprovalMode) : TurnAuthority :=
  let '(m, trust', auto', approval', event) :=
    if negb (provenance_can_inherit_standing_auto_authority provenance) then
      let had_auto_authority := is_yolo requested_mode || trust || auto || is_bypass approval in
      let m := if is_yolo requested_mode then Agent else requested_mode in
      let approval' := match approval with Auto | Bypass => Suggest | _ => approval end in
      (m, false, false, approval',
       if had_auto_authority
       then Some {| reason := NonAuthoritativeProvenance; from_mode := as_setting requested_mode;
                    to_mode := as_setting m; from_approval := approval; to_approval := approval';
                    detail := provenance_as_str provenance |}
       else None)
    else (requested_mode, trust, auto, approval, None) in
  {| mode := m; allow_shell := shell; trust_mode := trust';
     auto_approve := if is_bypass approval' then true else auto';
     approval_mode := approval'; narrowing := event |}.

Definition permission_posture_allows_questions (approval : ApprovalMode) : bool :=
  negb (bool_decide (approval = Auto)).

(** ** Shell and sandbox *)

Inductive ShellPolicy : Type := NoShell | ReadOnlyShell | FullShell.

Definition shell_policy_for_mode (m : AppMode) (shell : bool) : ShellPolicy :=
  if negb shell then NoShell else match m with Plan => NoShell | _ => FullShell end.

Definition shell_policy (a : TurnAuthority) : ShellPolicy := shell_policy_for_mode (mode a) (allow_shell a).

Inductive SandboxNetworkAccess : Type := Restricted | Allowed.
Definition network_from_config (configured : option bool) : SandboxNetworkAccess :=
  if default false configured then Allowed else Restricted.
Definition is_allowed (n : SandboxNetworkAccess) : bool := match n with Allowed => true | Restricted => false end.

Inductive SandboxPolicy : Type :=
  | DangerFullAccess
  | ReadOnly
  | ExternalSandbox (network_access : bool)
  | WorkspaceWrite (writable_roots : list (list PathFs.comp)) (network_access exclude_tmpdir exclude_slash_tmp : bool).

Definition has_full_disk_write_access (p : SandboxPolicy) : bool :=
  match p with DangerFullAccess | ExternalSandbox _ => true | _ => false end.

Definition has_network_access (p : SandboxPolicy) : bool :=
  match p with
  | DangerFullAccess => true
  | ReadOnly => false
  | ExternalSandbox n | WorkspaceWrite _ n _ _ => n
  end.

Definition should_sandbox (p : SandboxPolicy) : bool :=
  match p with DangerFullAccess | ExternalSandbox _ => false | _ => true end.

Definition workspace_write_policy (ws : list PathFs.comp) (network : SandboxNetworkAccess) : SandboxPolicy :=
  WorkspaceWrite [ws] (is_allowed network) false false.

Definition is_str (configured : option (list N)) (s : string) : bool :=
  match configured with Some c => str_eqb c (lit s) | None => false end.

Definition sandbox_policy_for_turn (m : AppMode) (approval : ApprovalMode) (configured_mode : option (list N))
    (ws : list PathFs.comp) (network : SandboxNetworkAccess) : SandboxPolicy :=
  let default :=
    match m with
    | Plan => ReadOnly
    | _ => if is_yolo m || is_bypass approval then DangerFullAccess else workspace_write_policy ws network
    end in
  match default with
  | ReadOnly => ReadOnly
  | _ =>
      if is_str configured_mode "read-only" then ReadOnly
      else match default with
           | DangerFullAccess =>
               if is_str configured_mode "workspace-write" then workspace_write_policy ws network
               else if is_str configured_mode "external-sandbox" then ExternalSandbox (is_allowed network)
               else default
           | _ => default
           end
  end.

Definition sandbox_policy (a : TurnAuthority) (ws : list PathFs.comp) (configured_mode : option (list N))
    (network : SandboxNetworkAccess) : SandboxPolicy :=
  sandbox_policy_for_turn (mode a) (approval_mode_for_session a) configured_mode ws network.

(** ** Tools *)

Inductive ApprovalRequirement : Type := NoApproval | SuggestApproval | RequireApproval.

#[export] Instance ApprovalRequirement_eq_dec : EqDecision ApprovalRequirement.
Proof. solve_decision. Defined.

Inductive ToolPermission : Type := Allow | PromptUser | Deny.

#[export] Instance ToolPermission_eq_dec : EqDecision ToolPermission.
Proof. solve_decision. Defined.

Definition resolve_tool_permission (a : TurnAuthority) (requirement : ApprovalRequirement) (is_non_bypassable : bool)
    : ToolPermission :=
  if bool_decide (approval_mode a = NeverMode) && negb (bool_decide (requirement = NoApproval))
     && negb (auto_approve a) && negb (is_yolo (mode a))
  then Deny
  else match requirement with
       | NoApproval => Allow
       | SuggestApproval | RequireApproval =>
           if is_non_bypassable
           then if auto_approve a || is_yolo (mode a) then Allow else PromptUser
           else if auto_approve a || is_bypass (approval_mode a) || is_yolo (mode a) then Allow else PromptUser
       end.

Definition registered_tool_requires_non_bypassable_approval (tool_name : list N) : bool :=
  one_of tool_name ["rlm_eval"; "rlm"; "start_mcp_server"]%string.

Definition registered_tool_approval_required (tool_name : list N) (requirement : ApprovalRequirement) (auto : bool) : bool :=
  bool_decide (resolve_tool_permission (for_tool_approval_decision auto) requirement
                 (registered_tool_requires_non_bypassable_approval tool_name) = PromptUser).

Definition registered_tool_forces_prompt (tool_name : list N) (requirement : ApprovalRequirement) : bool :=
  negb (bool_decide (requirement = NoApproval)) && registered_tool_requires_non_bypassable_approval tool_name.

Definition repo_law_must_block_without_prompt (approval : ApprovalMode) (auto : bool) : bool :=
  auto || negb (bool_decide (approval = Suggest)).

Definition write_carve_out_posture (m : AppMode) (approval : ApprovalMode) (auto : bool) : bool :=
  negb auto && uses_agent_baseline m && bool_decide (approval = Suggest).

(** The targets of a file-write tool, [None] for any other tool, are an argument. *)
Definition workspace_write_carve_out_applies (f : PathFs.fs) (m : AppMode) (approval : ApprovalMode) (auto : bool)
    (ws : list PathFs.comp) (targets : option (list (list N))) (requirement : ApprovalRequirement) : bool :=
  if negb (bool_decide (requirement = SuggestApproval)) || negb (write_carve_out_posture m approval auto) then false
  else match targets with
       | None => false
       | Some paths => Confine.paths_within_workspace_write_carve_out f ws paths
       end.

Inductive ApprovalRequestDisposition : Type :=
  | AutoApprove
  | AutoDenySessionDenied
  | AutoDenyFullAccessPolicyHold
  | AutoDenyAutoReview
  | AutoDenyNeverPosture
  | OpenModal.

Definition resolve_approval_request_disposition (a : TurnAuthority) (session_approved session_denied force_prompt : bool)
    : ApprovalRequestDisposition :=
  if session_denied then AutoDenySessionDenied
  else if bool_decide (approval_mode_for_session a = Auto) then AutoDenyAutoReview
  else
    let posture := resolve_tool_permission a SuggestApproval false in
    if force_prompt && bool_decide (posture = Allow) then AutoDenyFullAccessPolicyHold
    else if negb force_prompt && (bool_decide (posture = Allow) || session_approved) then AutoApprove
    else if bool_decide (posture = Deny) then AutoDenyNeverPosture
    else OpenModal.

(** ** The engine and the terminal *)

(** The policy of a turn in [handle_send_message]. *)
Definition turn_policy (provenance : UserInputProvenance) (m : AppMode) (content : list N) (shell trust auto : bool)
    (approval : ApprovalMode) : TurnAuthority :=
  effective_input_policy provenance m content shell trust (is_yolo m || auto) approval.

(** What [apply_runtime_mode_policy] leaves in the session. *)
Record Session : Type := {
  current_mode : AppMode;
  session_allow_shell : bool;
  session_trust_mode : bool;
  session_approval_mode : ApprovalMode;
  session_auto_approve : bool
}.

Definition apply_runtime_mode_policy (a : TurnAuthority) : Session :=
  let approval := approval_mode_for_session a in
  {| current_mode := mode a; session_allow_shell := allow_shell a; session_trust_mode := trust_mode a;
     session_approval_mode := approval; session_auto_approve := auto_approve a || is_bypass approval |}.

(** The part of the application state that answers approval requests. *)
Record App : Type := {
  app_mode : AppMode;
  app_approval_mode : ApprovalMode;
  approval_session_approved : list (list N);
  approval_session_denied : list (list N)
}.

Definition app_auto_approve_enabled (app : App) : bool := is_yolo (app_mode app) || is_bypass (app_approval_mode app).

Definition app_turn_authority_for_approvals (app : App) : TurnAuthority :=
  from_effective_fields (app_mode app) true false (app_auto_approve_enabled app) (app_approval_mode app).

Definition contains_key (l : list (list N)) (k : list N) : bool := existsb (str_eqb k) l.
Definition is_session_approved_for_tool (app : App) (grouping_key : list N) : bool :=
  contains_key (approval_session_approved app) grouping_key.
Definition is_session_denied_for_key (app : App) (approval_key : list N) : bool :=
  contains_key (approval_session_denied app) approval_key.

Definition resolve_ui_approval_disposition (app : App) (grouping_key approval_key : list N) (force_prompt : bool)
    : ApprovalRequestDisposition :=
  resolve_approval_request_disposition (app_turn_authority_for_approvals app)
    (is_session_approved_for_tool app grouping_key) (is_session_denied_for_key app approval_key) force_prompt.

Definition should_suppress_user_input_prompt (app : App) : bool :=
  negb (permission_posture_allows_questions
          (if app_auto_approve_enabled app then Bypass else app_approval_mode app)).

(** ** Theorems *)

(** Whether the posture is Full Access. *)
Definition full_access (a : TurnAuthority) : Prop := auto_approve a = true \/ approval_mode a = Bypass \/ mode a = Yolo.

Lemma posture_of a :
  resolve_tool_permission a SuggestApproval false =
    if auto_approve a || is_bypass (approval_mode a) || is_yolo (mode a) then Allow
    else if bool_decide (approval_mode a = NeverMode) then Deny else PromptUser.
Proof.
  unfold resolve_tool_permission. destruct a as [m sh tr au ap nr]; cbn. by destruct au, ap, m.
Qed.

Lemma full_access_bool a : auto_approve a || is_bypass (approval_mode a) || is_yolo (mode a) = true <-> full_access a.
Proof.
  unfold full_access. destruct a as [m sh tr au ap nr]; cbn. destruct au, ap, m; cbn; naive_solver.
Qed.

(** An approval request is approved without a question exactly when the call was not denied
    before, the posture is not Auto-Review, the hold is not forced, and the posture is Full
    Access or the user granted the group; it is put to the user exactly when none of the
    other answers applies. *)
Theorem approval_disposition_spec a session_approved session_denied force_prompt :
  let d := resolve_approval_request_disposition a session_approved session_denied force_prompt in
  let ordinary := session_denied = false /\ approval_mode_for_session a <> Auto in
  (d = AutoApprove <-> ordinary /\ force_prompt = false /\ (full_access a \/ session_approved = true))
  /\ (d = OpenModal <-> ordinary /\ ~ full_access a /\ approval_mode a <> NeverMode
        /\ (force_prompt = true \/ session_approved = false)).
Proof.
  cbv zeta. unfold resolve_approval_request_disposition. rewrite posture_of, <-full_access_bool.
  destruct session_denied; [split; split; naive_solver|].
  destruct (bool_decide_reflect (approval_mode_for_session a = Auto)) as [E|E]; [split; split; naive_solver|].
  destruct (auto_approve a || _ || _); destruct force_prompt, session_approved;
    destruct (bool_decide_reflect (approval_mode a = NeverMode)); cbn; split; split; naive_solver.
Qed.


(** The first policy allows no more than the second. *)
Definition tighter (p q : SandboxPolicy) : Prop := p = ReadOnly \/ q = DangerFullAccess \/ p = q.

(** The sandbox follows the posture. Plan mode is read-only; the whole disk is open
    only in Full Access, and the network only there or when it was granted; the one
    writable root is the workspace; and a configured sandbox mode can tighten what the
    posture gives but never loosen it. *)
Theorem sandbox_follows_posture m approval configured ws network :
  let p := sandbox_policy_for_turn m approval configured ws network in
  (m = Plan -> p = ReadOnly)
  /\ (has_full_disk_write_access p = true -> m <> Plan /\ (m = Yolo \/ approval = Bypass))
  /\ (has_network_access p = true -> p = DangerFullAccess \/ network = Allowed)
  /\ (forall roots n t st, p = WorkspaceWrite roots n t st -> roots = [ws])
  /\ tighter p (sandbox_policy_for_turn m approval None ws network)
  /\ (should_sandbox p = negb (has_full_disk_write_access p)).
Proof.
  cbv zeta. unfold tighter, sandbox_policy_for_turn, workspace_write_policy.
  destruct m, approval; cbn; try (split_and!; naive_solver);
    destruct (is_str configured "read-only"), (is_str configured "workspace-write"), (is_str configured "external-sandbox"), network;
    cbn; split_and!; naive_solver.
Qed.

(** A narrowing is recorded exactly when standing authority was there to lose, and then
    its text names the provenance. *)
Theorem narrowing_recorded_iff provenance m content shell trust auto approval :
  let a := effective_input_policy provenance m content shell trust auto approval in
  (is_Some (narrowing a) <->
    provenance_can_inherit_standing_auto_authority provenance = false
    /\ (m = Yolo \/ trust = true \/ auto = true \/ approval = Bypass))
  /\ (provenance_can_inherit_standing_auto_authority provenance = true ->
       mode a = m /\ trust_mode a = trust /\ approval_mode a = approval).
Proof.
  cbv zeta. unfold effective_input_policy.
  destruct (provenance_can_inherit_standing_auto_authority provenance); cbn.
  - split; [|done]. split; [by intros []|naive_solver].
  - split; [|done]. destruct m, trust, auto, approval; cbn; split; try naive_solver; try (by intros []).
Qed.

(** Auto-Review is narrowed to Ask and nothing is recorded or shown. *)
Theorem auto_review_is_narrowed_silently content shell :
  let a := effective_input_policy AgentMail Agent content shell false false Auto in
  approval_mode a = Suggest /\ narrowing a = None /\ status a = None.
Proof. done. Qed.

(** The terminal answers the requests of a narrowed turn by its own posture, which was not
    narrowed: in Full Access it approves them all. *)
Theorem terminal_undoes_narrowing app grouping_key approval_key :
  full_access (app_turn_authority_for_approvals app) -> app_approval_mode app <> Auto ->
  is_session_denied_for_key app approval_key = false ->
  resolve_ui_approval_disposition app grouping_key approval_key false = AutoApprove.
Proof.
  intros Hf Ha Hd. unfold resolve_ui_approval_disposition. apply approval_disposition_spec.
  split_and!; auto. unfold approval_mode_for_session, agent_approval_mode_for_turn. by destruct (auto_approve _).
Qed.


Lemma sandbox_follows_posture_witness :
  sandbox_policy_for_turn Plan Bypass (Some (lit "danger-full-access")) [] Allowed = ReadOnly.
Proof. by apply (sandbox_follows_posture Plan Bypass (Some (lit "danger-full-access")) [] Allowed). Defined.

End Authority.
