(* ===== verification/Transcript.v ===== *)
(** * Transcripts (crates/core/src/role.rs, request.rs, crates/tui/src/client/role_placement.rs)

    Roles, content blocks and messages as they are kept in a session and sent to a model,
    and the table that says where a message goes on each wire. *)

From stdpp Require Import base list option strings gmap.
From Stdlib Require Import Lia NArith.
From S2P Require Import Prelude RustStr ProviderRegistry Redact.

(** Equality of [serde_json::Value]. *)
#[export] Instance Json_eq_dec : EqDecision Redact.Json.
Proof.
  unfold EqDecision. fix IH 1. intros x y. unfold Decision.
  destruct x, y; try (right; discriminate); try (left; reflexivity).
  - destruct (decide (b = b0)); [left|right]; congruence.
  - destruct (decide (text = text0)); [left|right]; congruence.
  - destruct (decide (s = s0)); [left|right]; congruence.
  - destruct (@list_eq_dec _ IH items items0); [left|right]; congruence.
  - destruct (@list_eq_dec _ (fun p q => @prod_eq_dec _ _ _ IH p q) entries entries0);
      [left|right]; congruence.
Defined.

Module Transcript.

(** ** Roles *)

Inductive Role : Type :=
| User
| Assistant
| System
| Developer
| InterruptedAssistant
| Unrecognized (raw : list N).

#[export] Instance Role_eq_dec : EqDecision Role.
Proof. solve_decision. Defined.

Definition INTERRUPTED_ASSISTANT_ROLE : list N := lit "assistant_interrupted".

Definition role_as_str (r : Role) : list N :=
  match r with
  | User => lit "user"
  | Assistant => lit "assistant"
  | System => lit "system"
  | Developer => lit "developer"
  | InterruptedAssistant => INTERRUPTED_ASSISTANT_ROLE
  | Unrecognized raw => raw
  end.

Definition is_assistant_like (r : Role) : bool :=
  match r with Assistant | InterruptedAssistant => true | _ => false end.

Definition role_from (value : list N) : Role :=
  if str_eqb value (lit "user") then User
  else if str_eqb value (lit "assistant") then Assistant
  else if str_eqb value (lit "system") then System
  else if str_eqb value (lit "developer") then Developer
  else if str_eqb value INTERRUPTED_ASSISTANT_ROLE then InterruptedAssistant
  else Unrecognized value.

(** [impl PartialEq<str> for Role]. *)
Definition role_is (r : Role) (other : list N) : bool := str_eqb (role_as_str r) other.

(** ** Messages *)

Record CacheControl : Type := { cache_type : list N }.
Record ImageUrlContent : Type := { url : list N }.
Record ToolCaller : Type := { caller_type : list N; tool_id : option (list N) }.

Record OpaqueReasoningState : Type := {
  provider : list N;
  api : list N;
  reasoning_model : list N;
  reasoning_id : option (list N);
  encrypted_content : list N
}.

Inductive ContentBlock : Type :=
| Text (text : list N) (cache_control : option CacheControl)
| ImageUrl (image_url : ImageUrlContent)
| Thinking (thinking : list N) (signature : option (list N)) (state : option OpaqueReasoningState)
| ToolUse (id name : list N) (input : Redact.Json) (caller : option ToolCaller)
    (thought_signature : option (list N))
| ToolResult (tool_use_id content : list N) (is_error : option bool)
    (content_blocks : option (list Redact.Json))
| ServerToolUse (id name : list N) (input : Redact.Json)
| ToolSearchToolResult (tool_use_id : list N) (content : Redact.Json)
| CodeExecutionToolResult (tool_use_id : list N) (content : Redact.Json).

Record Message : Type := { role : Role; content : list ContentBlock }.

#[export] Instance CacheControl_eq_dec : EqDecision CacheControl.
Proof. solve_decision. Defined.
#[export] Instance ImageUrlContent_eq_dec : EqDecision ImageUrlContent.
Proof. solve_decision. Defined.
#[export] Instance ToolCaller_eq_dec : EqDecision ToolCaller.
Proof. solve_decision. Defined.
#[export] Instance OpaqueReasoningState_eq_dec : EqDecision OpaqueReasoningState.
Proof. solve_decision. Defined.
#[export] Instance ContentBlock_eq_dec : EqDecision ContentBlock.
Proof. solve_decision. Defined.
#[export] Instance Message_eq_dec : EqDecision Message.
Proof. solve_decision. Defined.

Definition thinking_block (thinking : list N) : ContentBlock := Thinking thinking None None.

(** ** Placement on the wire *)

Inductive WireDialect : Type := ChatCompletions | AnthropicMessages | OpenAiResponses | GoogleCloudCode.

Definition from_wire_format (f : ProviderRegistry.WireFormat) : WireDialect :=
  match f with
  | ProviderRegistry.ChatCompletions => ChatCompletions
  | ProviderRegistry.AnthropicMessages => AnthropicMessages
  | ProviderRegistry.Responses => OpenAiResponses
  end.

Definition dialect_as_str (d : WireDialect) : list N :=
  match d with
  | ChatCompletions => lit "chat-completions"
  | AnthropicMessages => lit "anthropic-messages"
  | OpenAiResponses => lit "openai-responses"
  | GoogleCloudCode => lit "google-cloud-code"
  end.

Inductive RolePlacement : Type :=
| PUser | PAssistant | PInterruptedAssistant | PSystem | PDeveloper | POmitted | PRejected.

#[export] Instance RolePlacement_eq_dec : EqDecision RolePlacement.
Proof. solve_decision. Defined.

Definition is_assistant_channel (p : RolePlacement) : bool :=
  match p with PAssistant | PInterruptedAssistant => true | _ => false end.

Definition role_placement (r : Role) (d : WireDialect) : RolePlacement :=
  match r, d with
  | User, _ => PUser
  | Assistant, _ => PAssistant
  | InterruptedAssistant, GoogleCloudCode => PRejected
  | InterruptedAssistant, _ => PInterruptedAssistant
  | System, (ChatCompletions | OpenAiResponses) => PSystem
  | System, AnthropicMessages => PUser
  | System, GoogleCloudCode => PRejected
  | Developer, (ChatCompletions | OpenAiResponses) => PDeveloper
  | Developer, AnthropicMessages => PUser
  | Developer, GoogleCloudCode => PRejected
  | Unrecognized _, (ChatCompletions | OpenAiResponses) => POmitted
  | Unrecognized _, AnthropicMessages => PRejected
  | Unrecognized _, GoogleCloudCode => PRejected
  end.

Record UnsupportedRoleForDialect : Type := { index : nat; bad_role : list N; dialect : list N }.

(** The loop of [reject_unsupported_roles], from the message number [i] on. *)
Fixpoint reject_from (d : WireDialect) (i : nat) (messages : list Message)
    : result unit UnsupportedRoleForDialect :=
  match messages with
  | [] => Ok tt
  | m :: rest =>
      if decide (role_placement (role m) d = PRejected)
      then Err {| index := i; bad_role := role_as_str (role m); dialect := dialect_as_str d |}
      else reject_from d (S i) rest
  end.

Definition reject_unsupported_roles (messages : list Message) (d : WireDialect)
    : result unit UnsupportedRoleForDialect := reject_from d 0 messages.

(** ** Lemmas *)

Lemma role_from_as_str r : (forall raw, r <> Unrecognized raw) -> role_from (role_as_str r) = r.
Proof. destruct r; intros Hr; try reflexivity. by destruct (Hr raw). Qed.

(** A role survives being written as its string. *)
Lemma role_string_roundtrip s : role_as_str (role_from s) = s.
Proof.
  unfold role_from.
  repeat (destruct (str_eqb s _) eqn:E; [apply str_eqb_spec in E; by subst|clear E]).
  reflexivity.
Qed.

(** The first message that a wire cannot carry is the one that is reported. *)
Lemma reject_from_spec d i ms e :
  reject_from d i ms = Err e <->
  exists pre m post, ms = pre ++ m :: post /\ role_placement (role m) d = PRejected /\
    Forall (fun m => role_placement (role m) d <> PRejected) pre /\
    e = {| index := i + length pre; bad_role := role_as_str (role m); dialect := dialect_as_str d |}.
Proof.
  revert i; induction ms as [|m ms IH]; intros i; simpl.
  - split; [done|]. intros (pre & m & post & E & _). destruct pre; discriminate.
  - case_decide as Hm.
    + split.
      * intros [= <-]. exists [], m, ms. rewrite Nat.add_0_r. eauto.
      * intros ([|m' pre] & m0 & post & E & HR & HF & ->); simplify_eq/=.
        { by rewrite Nat.add_0_r. }
        { by apply Forall_cons in HF as []. }
    + rewrite IH. split.
      * intros (pre & m0 & post & -> & HR & HF & ->). exists (m :: pre), m0, post.
        split_and!; [done..|by constructor|]. simpl. by rewrite Nat.add_succ_r.
      * intros ([|m' pre] & m0 & post & E & HR & HF & ->); simplify_eq/=.
        apply Forall_cons in HF as [_ HF]. exists pre, m0, post.
        split_and!; [done..|]. by rewrite Nat.add_succ_r.
Qed.

End Transcript.
