(* ===== verification/HistoryRepair.v ===== *)
(** * Repair of tool histories (crates/tui/src/tool_history_repair.rs)

    A provider refuses a history in which a tool call has no result, or a result no call.
    The repair scans the messages once, then rebuilds them. [Scan] holds the local
    variables of the first loop; [scan_message] is one iteration of it and
    [rebuild_message] one iteration of the second. *)

From stdpp Require Import base list option strings gmap.
From Stdlib Require Import Lia NArith.
From S2P Require Import Prelude RustStr Redact Transcript.

Module HistoryRepair.
Import Transcript.

Definition CRASH_REPAIR_CONTENT : list N :=
  lit "Tool call interrupted by process exit; terminal status: crashed_and_repaired.".

Record ToolRepairReceipt : Type := {
  repaired_call_ids : list (list N);
  duplicate_result_ids : list (list N);
  orphan_result_ids : list (list N)
}.

Definition empty_list {A} (l : list A) : bool := match l with [] => true | _ => false end.

Definition receipt_is_empty (r : ToolRepairReceipt) : bool :=
  empty_list (repaired_call_ids r) && empty_list (duplicate_result_ids r) &&
  empty_list (orphan_result_ids r).

Definition visible_message (r : ToolRepairReceipt) : list N :=
  lit "[tool_history_repair] Repaired " ++ dec (N.of_nat (length (repaired_call_ids r))) ++
  lit " crashed tool call(s); quarantined " ++ dec (N.of_nat (length (duplicate_result_ids r))) ++
  lit " duplicate and " ++ dec (N.of_nat (length (orphan_result_ids r))) ++
  lit " orphan terminal result(s).".

(** ** The scan *)

Record Scan : Type := {
  pending_call_message : option nat;
  pending_call_ids : list (list N);
  retained_for_pending : gset (list N);
  missing_by_message : gmap nat (list (list N));
  repaired : list (list N);
  duplicates : list (list N);
  orphans : list (list N);
  keep_results : gset nat;
  result_ordinal : nat
}.

Definition scan_init : Scan :=
  {| pending_call_message := None; pending_call_ids := []; retained_for_pending := ∅;
     missing_by_message := ∅; repaired := []; duplicates := []; orphans := [];
     keep_results := ∅; result_ordinal := 0 |}.

(** The ids of the [ToolUse] blocks. *)
Definition call_ids (blocks : list ContentBlock) : list (list N) :=
  omap (fun b => match b with ToolUse id _ _ _ _ => Some id | _ => None end) blocks.

Definition starts_turn (m : Message) : bool :=
  role_is (role m) (lit "assistant") || role_is (role m) INTERRUPTED_ASSISTANT_ROLE.

Definition missing_results (s : Scan) : list (list N) :=
  List.filter (fun id => negb (bool_decide (id ∈ retained_for_pending s))) (pending_call_ids s).

Definition record_missing_results (s : Scan) : Scan :=
  match pending_call_message s with
  | None => s
  | Some message_index =>
      let missing := missing_results s in
      if empty_list missing then s
      else {| pending_call_message := pending_call_message s; pending_call_ids := pending_call_ids s;
              retained_for_pending := retained_for_pending s;
              missing_by_message := <[message_index := missing]> (missing_by_message s);
              repaired := repaired s ++ missing; duplicates := duplicates s; orphans := orphans s;
              keep_results := keep_results s; result_ordinal := result_ordinal s |}
  end.

(** The new pending calls at the start of an assistant turn. *)
Definition begin_turn (message_index : nat) (m : Message) (s : Scan) : Scan :=
  let ids := call_ids (content m) in
  {| pending_call_message := if negb (empty_list ids) then Some message_index else None;
     pending_call_ids := ids; retained_for_pending := ∅;
     missing_by_message := missing_by_message s; repaired := repaired s;
     duplicates := duplicates s; orphans := orphans s;
     keep_results := keep_results s; result_ordinal := result_ordinal s |}.

Definition str_mem_id (id : list N) (ids : list (list N)) : bool := existsb (fun i => str_eqb i id) ids.

Definition follows_known_call (message_index : nat) (tool_use_id : list N) (s : Scan) : bool :=
  match pending_call_message s with
  | Some call_index => call_index <? message_index
  | None => false
  end && str_mem_id tool_use_id (pending_call_ids s).

Definition scan_block (message_index : nat) (s : Scan) (b : ContentBlock) : Scan :=
  match b with
  | ToolResult tool_use_id _ _ _ =>
      let ordinal := result_ordinal s in
      let s := {| pending_call_message := pending_call_message s; pending_call_ids := pending_call_ids s;
                  retained_for_pending := retained_for_pending s;
                  missing_by_message := missing_by_message s; repaired := repaired s;
                  duplicates := duplicates s; orphans := orphans s;
                  keep_results := keep_results s; result_ordinal := S ordinal |} in
      if negb (follows_known_call message_index tool_use_id s) then
        {| pending_call_message := pending_call_message s; pending_call_ids := pending_call_ids s;
           retained_for_pending := retained_for_pending s;
           missing_by_message := missing_by_message s; repaired := repaired s;
           duplicates := duplicates s; orphans := orphans s ++ [tool_use_id];
           keep_results := keep_results s; result_ordinal := result_ordinal s |}
      else if bool_decide (tool_use_id ∈ retained_for_pending s) then
        {| pending_call_message := pending_call_message s; pending_call_ids := pending_call_ids s;
           retained_for_pending := retained_for_pending s;
           missing_by_message := missing_by_message s; repaired := repaired s;
           duplicates := duplicates s ++ [tool_use_id]; orphans := orphans s;
           keep_results := keep_results s; result_ordinal := result_ordinal s |}
      else
        {| pending_call_message := pending_call_message s; pending_call_ids := pending_call_ids s;
           retained_for_pending := {[tool_use_id]} ∪ retained_for_pending s;
           missing_by_message := missing_by_message s; repaired := repaired s;
           duplicates := duplicates s; orphans := orphans s;
           keep_results := {[ordinal]} ∪ keep_results s; result_ordinal := result_ordinal s |}
  | _ => s
  end.

Definition scan_message (s : Scan) (message_index : nat) (m : Message) : Scan :=
  let s := if starts_turn m then begin_turn message_index m (record_missing_results s) else s in
  fold_left (scan_block message_index) (content m) s.

Fixpoint scan_messages (s : Scan) (message_index : nat) (messages : list Message) : Scan :=
  match messages with
  | [] => s
  | m :: rest => scan_messages (scan_message s message_index m) (S message_index) rest
  end.

Definition scan_history (messages : list Message) : Scan :=
  record_missing_results (scan_messages scan_init 0 messages).

Definition scan_receipt (s : Scan) : ToolRepairReceipt :=
  {| repaired_call_ids := repaired s; duplicate_result_ids := duplicates s;
     orphan_result_ids := orphans s |}.

(** ** The rebuild *)

(** [content.retain]: the kept blocks and the number of the next result. *)
Fixpoint retain_blocks (keep : gset nat) (ordinal : nat) (blocks : list ContentBlock)
    : list ContentBlock * nat :=
  match blocks with
  | [] => ([], ordinal)
  | ToolResult i c e k :: rest =>
      let r := retain_blocks keep (S ordinal) rest in
      (if bool_decide (ordinal ∈ keep) then ToolResult i c e k :: r.1 else r.1, r.2)
  | b :: rest => let r := retain_blocks keep ordinal rest in (b :: r.1, r.2)
  end.

Definition synthetic_result (tool_use_id : list N) : ContentBlock :=
  ToolResult tool_use_id CRASH_REPAIR_CONTENT (Some true) None.

Definition synthetic_message (ids : list (list N)) : Message :=
  {| role := User; content := synthetic_result <$> ids |}.

(** One iteration: the messages it pushes and the number of the next result. [remove] on
    the map of missing results is a lookup, since every index comes up once. *)
Definition rebuild_message (missing : gmap nat (list (list N))) (keep : gset nat)
    (message_index ordinal : nat) (m : Message) : list Message * nat :=
  let missing_after_message := default [] (missing !! message_index) in
  let r := retain_blocks keep ordinal (content m) in
  ((if negb (empty_list r.1) then [{| role := role m; content := r.1 |}] else []) ++
   (if negb (empty_list missing_after_message) then [synthetic_message missing_after_message] else []),
   r.2).

Fixpoint rebuild (missing : gmap nat (list (list N))) (keep : gset nat)
    (message_index ordinal : nat) (messages : list Message) : list Message :=
  match messages with
  | [] => []
  | m :: rest =>
      let r := rebuild_message missing keep message_index ordinal m in
      r.1 ++ rebuild missing keep (S message_index) r.2 rest
  end.

Definition receipt_message (r : ToolRepairReceipt) : Message :=
  {| role := Assistant; content := [Text (visible_message r) None] |}.

(** The new messages and the receipt. *)
Definition repair_tool_call_pairs_inner (messages : list Message) (append_visible_receipt : bool)
    : list Message * ToolRepairReceipt :=
  let s := scan_history messages in
  let receipt := scan_receipt s in
  if receipt_is_empty receipt then (messages, receipt)
  else (rebuild (missing_by_message s) (keep_results s) 0 0 messages ++
        (if append_visible_receipt then [receipt_message receipt] else []), receipt).

Definition repair_tool_call_pairs (messages : list Message) : list Message * ToolRepairReceipt :=
  repair_tool_call_pairs_inner messages true.

Definition repair_tool_call_pairs_for_provider (messages : list Message)
    : list Message * ToolRepairReceipt :=
  repair_tool_call_pairs_inner messages false.

(** ** Requests bound for a model (crates/tui/src/client.rs) *)

Definition redact_block (secrets : list (list N)) (b : ContentBlock) : ContentBlock :=
  match b with
  | ToolResult i c e k => ToolResult i (Redact.redact_model_bound_text c secrets) e k
  | _ => b
  end.

Definition redact_message (secrets : list (list N)) (m : Message) : Message :=
  {| role := role m; content := redact_block secrets <$> content m |}.

(** The messages of the request that [prepare_model_bound_request] returns. *)
Definition prepare_model_bound_messages (secrets : list (list N)) (messages : list Message)
    : list Message :=
  redact_message secrets <$> (repair_tool_call_pairs_for_provider messages).1.

End HistoryRepair.
