(* ===== verification/HistoryRepairTheorems.v ===== *)
(** * What the repair of a history gives

    The reference repair makes a paired history, keeps everything that is not a tool
    result, and keeps the first answer to each call. *)

From stdpp Require Import base list option strings gmap.
From Stdlib Require Import Lia NArith.
From S2P Require Import Prelude RustStr Redact Transcript HistoryRepair.

(** * Repaired histories are paired

    A history is read as a sequence of events, the starts of turns and the results, and
    [paired] says what a provider asks of it. A reference repair without indices or
    ordinals ([ref_rebuild]) is what the two loops compute. *)

Module HistoryRepairFacts.
Import Transcript HistoryRepair.

(** ** What a provider asks of a history *)

(** A turn opens with the ids its assistant message calls; a result has the id it answers. *)
Inductive event : Type := ETurn (ids : list (list N)) | EResult (id : list N).

Definition result_ids (blocks : list ContentBlock) : list (list N) :=
  omap (fun b => match b with ToolResult id _ _ _ => Some id | _ => None end) blocks.

(** A result in the assistant message itself cannot answer its calls. *)
Definition message_events (m : Message) : list event :=
  if starts_turn m
  then ETurn [] :: (EResult <$> result_ids (content m)) ++ [ETurn (call_ids (content m))]
  else EResult <$> result_ids (content m).

Definition events (ms : list Message) : list event := ms ≫= message_events.

Definition is_result (e : event) : Prop := match e with EResult _ => True | ETurn _ => False end.

(** Every result answers a call of the turn it is in, as the first one, and every call is
    answered before the next turn. *)
Record paired (ms : list Message) : Prop := {
  results_answer : forall a id b, events ms = a ++ EResult id :: b ->
    exists a1 ids a2, a = a1 ++ ETurn ids :: a2 /\ Forall is_result a2 /\ id ∈ ids /\ EResult id ∉ a2;
  calls_answered : forall a ids b id, events ms = a ++ ETurn ids :: b -> id ∈ ids ->
    exists b1 b2, b = b1 ++ EResult id :: b2 /\ Forall is_result b1
}.

(** The calls of one message have different ids. *)
Definition distinct_calls (ms : list Message) : Prop :=
  Forall (fun m => starts_turn m = true -> NoDup (call_ids (content m))) ms.

(** The blocks that are not tool results, in order. *)
Definition is_tool_result (b : ContentBlock) : bool :=
  match b with ToolResult _ _ _ _ => true | _ => false end.

Definition other_blocks (ms : list Message) : list ContentBlock :=
  List.filter (fun b => negb (is_tool_result b)) (ms ≫= content).

(** ** A check on events *)

Fixpoint check (ids : list (list N)) (seen : gset (list N)) (ev : list event) : bool :=
  match ev with
  | [] => bool_decide (Forall (fun id => id ∈ seen) ids)
  | ETurn ids' :: ev => bool_decide (Forall (fun id => id ∈ seen) ids) && check ids' ∅ ev
  | EResult id :: ev =>
      bool_decide (id ∈ ids) && negb (bool_decide (id ∈ seen)) && check ids ({[id]} ∪ seen) ev
  end.

Section Check.
Implicit Types (ids : list (list N)) (seen : gset (list N)) (ev : list event).

(** [paired] for the rest of a history, in a turn with calls [ids] and answers [seen]. *)
Definition first_answer ids seen (a : list event) (id : list N) : Prop :=
  (Forall is_result a /\ id ∈ ids /\ (id ∉ seen) /\ EResult id ∉ a) \/
  (exists a1 ids' a2, a = a1 ++ ETurn ids' :: a2 /\ Forall is_result a2 /\ id ∈ ids' /\ EResult id ∉ a2).

Definition answered_in (ev : list event) (id : list N) : Prop :=
  exists b1 b2, ev = b1 ++ EResult id :: b2 /\ Forall is_result b1.

Record paired_from ids seen ev : Prop := {
  pf_results : forall a id b, ev = a ++ EResult id :: b -> first_answer ids seen a id;
  pf_open : forall id, id ∈ ids -> id ∈ seen \/ answered_in ev id;
  pf_calls : forall a ids' b id, ev = a ++ ETurn ids' :: b -> id ∈ ids' -> answered_in b id
}.

Lemma answered_in_nil id : ~ answered_in [] id.
Proof. intros (b1 & b2 & E & _). by destruct b1. Qed.

Lemma answered_in_turn ids ev id : ~ answered_in (ETurn ids :: ev) id.
Proof.
  intros (b1 & b2 & E & HF). destruct b1; simplify_eq/=. by apply Forall_cons in HF as [[] _].
Qed.

Lemma answered_in_result id' ev id :
  answered_in (EResult id' :: ev) id <-> id = id' \/ answered_in ev id.
Proof.
  split.
  - intros (b1 & b2 & E & HF). destruct b1; simplify_eq/=; [by left|right].
    apply Forall_cons in HF as [_ HF]. by exists b1, b2.
  - intros [->|(b1 & b2 & -> & HF)]; [by exists [], ev|].
    exists (EResult id' :: b1), b2. by split; [|constructor].
Qed.

Lemma first_answer_nil ids seen id : first_answer ids seen [] id <-> id ∈ ids /\ id ∉ seen.
Proof.
  split.
  - intros [(_ & ? & ? & _)|(a1 & ? & a2 & E & _)]; [done|by destruct a1].
  - intros []. left. repeat split; [constructor|done..|apply not_elem_of_nil].
Qed.

Lemma first_answer_turn ids seen ids' a id :
  first_answer ids seen (ETurn ids' :: a) id <-> first_answer ids' ∅ a id.
Proof.
  split.
  - intros [(HF & _)|(a1 & ids1 & a2 & E & HF & Hin & Hn)]; [by apply Forall_cons in HF as [[] _]|].
    destruct a1 as [|e a1]; simplify_eq/=; [|right; eauto 10]. left. set_solver.
  - intros [(HF & Hin & _ & Hn)|(a1 & ids1 & a2 & -> & HF & Hin & Hn)]; right.
    + by exists [], ids', a.
    + exists (ETurn ids' :: a1), ids1, a2. eauto.
Qed.

Lemma first_answer_result ids seen id' a id :
  first_answer ids seen (EResult id' :: a) id <-> first_answer ids ({[id']} ∪ seen) a id.
Proof.
  unfold first_answer. split.
  - intros [(HF & Hin & Hs & Hn)|(a1 & ids1 & a2 & E & HF & Hin & Hn)].
    + left. apply Forall_cons in HF as [_ HF]. set_solver.
    + destruct a1 as [|e a1]; simplify_eq/=. right; eauto 10.
  - intros [(HF & Hin & Hs & Hn)|(a1 & ids1 & a2 & -> & HF & Hin & Hn)].
    + left. split; [by constructor|]. set_solver.
    + right. exists (EResult id' :: a1), ids1, a2. eauto.
Qed.

Lemma paired_from_nil ids seen : paired_from ids seen [] <-> Forall (fun id => id ∈ seen) ids.
Proof.
  rewrite Forall_forall. split.
  - intros [_ Ho _] id Hid. destruct (Ho id Hid) as [|[]%answered_in_nil]; done.
  - intros HF. split; [intros [|] ??; discriminate|by auto|intros [|] ???; discriminate].
Qed.

Lemma paired_from_turn ids seen ids' ev :
  paired_from ids seen (ETurn ids' :: ev) <->
  Forall (fun id => id ∈ seen) ids /\ paired_from ids' ∅ ev.
Proof.
  rewrite Forall_forall. split.
  - intros [Hr Ho Hc]. split.
    + intros id Hid. by destruct (Ho id Hid) as [|[]%answered_in_turn].
    + split.
      * intros a id b ->. apply (first_answer_turn ids seen). by eapply (Hr (_ :: a)).
      * intros id Hid. right. by apply (Hc [] ids' ev).
      * intros a i b id -> Hid. by apply (Hc (ETurn ids' :: a) i b).
  - intros [HF [Hr Ho Hc]]. split.
    + intros [|e a] id b E; simplify_eq/=. apply first_answer_turn. by eapply Hr.
    + auto.
    + intros [|e a] i b id E Hid; simplify_eq/=; [|by eapply Hc].
      destruct (Ho id Hid) as [H|]; [set_solver|done].
Qed.

Lemma paired_from_result ids seen id ev :
  paired_from ids seen (EResult id :: ev) <->
  id ∈ ids /\ (id ∉ seen) /\ paired_from ids ({[id]} ∪ seen) ev.
Proof.
  split.
  - intros [Hr Ho Hc].
    destruct (proj1 (first_answer_nil ids seen id) (Hr [] id ev eq_refl)) as [Hin Hs].
    split_and!; [done..|]. split.
    + intros a i b ->. apply first_answer_result. by eapply (Hr (_ :: a)).
    + intros i Hi. rewrite elem_of_union, elem_of_singleton.
      destruct (Ho i Hi) as [|[->|]%answered_in_result]; auto.
    + intros a i b j -> Hj. by apply (Hc (EResult id :: a) i b).
  - intros (Hin & Hs & [Hr Ho Hc]). split.
    + intros [|e a] i b E; simplify_eq/=; [by apply first_answer_nil|].
      apply first_answer_result. by eapply Hr.
    + intros i Hi. rewrite answered_in_result.
      destruct (Ho i Hi) as [[->%elem_of_singleton|]%elem_of_union|]; auto.
    + intros [|e a] i b j E Hj; simplify_eq/=. by eapply Hc.
Qed.

Lemma check_paired_from ids seen ev : check ids seen ev = true <-> paired_from ids seen ev.
Proof.
  revert ids seen; induction ev as [|[ids'|id] ev IH]; intros ids seen; simpl.
  - by rewrite bool_decide_eq_true, paired_from_nil.
  - by rewrite andb_true_iff, bool_decide_eq_true, IH, paired_from_turn.
  - rewrite !andb_true_iff, bool_decide_eq_true, negb_true_iff, bool_decide_eq_false, IH,
      paired_from_result. tauto.
Qed.

Lemma check_app_results ids seen l ev :
  check ids seen ((EResult <$> l) ++ ev) =
  bool_decide (Forall (fun id => id ∈ ids) l) && bool_decide (NoDup l) &&
  bool_decide (Forall (fun id => id ∉ seen) l) && check ids (list_to_set l ∪ seen) ev.
Proof.
  revert seen; induction l as [|id l IH]; intros seen; simpl.
  - f_equal. set_solver.
  - rewrite IH. apply eq_iff_eq_true.
    rewrite !andb_true_iff, negb_true_iff, !bool_decide_eq_true, bool_decide_eq_false,
      !Forall_cons, NoDup_cons, !Forall_forall.
    replace (list_to_set l ∪ ({[id]} ∪ seen)) with ({[id]} ∪ list_to_set l ∪ seen) by set_solver.
    set_solver.
Qed.

End Check.

Lemma paired_check ms : paired ms <-> check [] ∅ (events ms) = true.
Proof.
  rewrite check_paired_from. split.
  - intros [Hr Hc]. split; [|set_solver|exact Hc].
    intros a id b E. right. by eapply Hr.
  - intros [Hr _ Hc]. split; [|exact Hc]. intros a id b E.
    destruct (Hr a id b E) as [(_ & H & _)|H]; [set_solver|exact H].
Qed.

(** ** The reference repair *)

(** The blocks that stay in a turn with calls [ids] of which [seen] are answered, and what
    is answered then. *)
Fixpoint keep_blocks (ids : list (list N)) (seen : gset (list N)) (blocks : list ContentBlock)
    : list ContentBlock * gset (list N) :=
  match blocks with
  | [] => ([], seen)
  | ToolResult id c e k :: rest =>
      if bool_decide (id ∈ ids) && negb (bool_decide (id ∈ seen))
      then let r := keep_blocks ids ({[id]} ∪ seen) rest in (ToolResult id c e k :: r.1, r.2)
      else keep_blocks ids seen rest
  | b :: rest => let r := keep_blocks ids seen rest in (b :: r.1, r.2)
  end.

(** What is answered when the turn ends. *)
Fixpoint answered (ids : list (list N)) (seen : gset (list N)) (ms : list Message) : gset (list N) :=
  match ms with
  | [] => seen
  | m :: rest => if starts_turn m then seen else answered ids (keep_blocks ids seen (content m)).2 rest
  end.

Definition unanswered (ids : list (list N)) (seen : gset (list N)) : list (list N) :=
  List.filter (fun id => negb (bool_decide (id ∈ seen))) ids.

Definition push_message (r : Role) (blocks : list ContentBlock) : list Message :=
  if negb (empty_list blocks) then [{| role := r; content := blocks |}] else [].

Definition push_synthetic (ids : list (list N)) : list Message :=
  if negb (empty_list ids) then [synthetic_message ids] else [].

Fixpoint ref_rebuild (ids : list (list N)) (seen : gset (list N)) (ms : list Message) : list Message :=
  match ms with
  | [] => []
  | m :: rest =>
      if starts_turn m then
        let ids' := call_ids (content m) in
        push_message (role m) (keep_blocks [] ∅ (content m)).1 ++
        push_synthetic (unanswered ids' (answered ids' ∅ rest)) ++ ref_rebuild ids' ∅ rest
      else
        let r := keep_blocks ids seen (content m) in
        push_message (role m) r.1 ++ ref_rebuild ids r.2 rest
  end.

(** ** The scan computes the reference *)

Section Scan.
Implicit Types (s : Scan) (ms : list Message).

(** The calls a result in the message number [i] can answer. *)
Definition open_ids (i : nat) s : list (list N) :=
  match pending_call_message s with
  | Some c => if c <? i then pending_call_ids s else []
  | None => []
  end.

Lemma str_mem_id_spec id ids : str_mem_id id ids = bool_decide (id ∈ ids).
Proof.
  apply eq_iff_eq_true. rewrite bool_decide_eq_true. unfold str_mem_id. rewrite existsb_elem_of.
  split; [intros (x & Hx & ->%str_eqb_spec); done|]. intros H. exists id. by rewrite str_eqb_spec.
Qed.

Lemma follows_known_call_spec i id s : follows_known_call i id s = bool_decide (id ∈ open_ids i s).
Proof.
  unfold follows_known_call, open_ids. rewrite str_mem_id_spec.
  destruct (pending_call_message s) as [c|]; [destruct (c <? i)|]; simpl; done.
Qed.

(** The receipt so far is clean. *)
Definition clean s : Prop := repaired s = [] /\ duplicates s = [] /\ orphans s = [].

(** What a run over the blocks of message [i] does. *)
Record block_run (i : nat) (blocks : list ContentBlock) (s s' : Scan) : Prop := {
  br_pending : pending_call_message s' = pending_call_message s;
  br_ids : pending_call_ids s' = pending_call_ids s;
  br_missing : missing_by_message s' = missing_by_message s;
  br_retained : retained_for_pending s' = (keep_blocks (open_ids i s) (retained_for_pending s) blocks).2;
  br_ordinal : result_ordinal s <= result_ordinal s';
  br_below : forall n, n < result_ordinal s -> n ∈ keep_results s' <-> n ∈ keep_results s;
  br_bound : (forall n, n ∈ keep_results s -> n < result_ordinal s) ->
    forall n, n ∈ keep_results s' -> n < result_ordinal s';
  br_blocks : forall K, (forall n, n < result_ordinal s' -> n ∈ K <-> n ∈ keep_results s') ->
    (forall n, n ∈ keep_results s -> n < result_ordinal s) ->
    retain_blocks K (result_ordinal s) blocks =
      ((keep_blocks (open_ids i s) (retained_for_pending s) blocks).1, result_ordinal s');
  br_clean : forall ev, clean s' /\ check (open_ids i s) (retained_for_pending s') ev = true <->
    clean s /\ check (open_ids i s) (retained_for_pending s) ((EResult <$> result_ids blocks) ++ ev) = true
}.

(** One result, kept or not. *)
Lemma scan_result_step i s id c e k (ok := bool_decide (id ∈ open_ids i s) &&
    negb (bool_decide (id ∈ retained_for_pending s))) (s1 := scan_block i s (ToolResult id c e k)) :
  pending_call_message s1 = pending_call_message s /\
  pending_call_ids s1 = pending_call_ids s /\
  missing_by_message s1 = missing_by_message s /\
  retained_for_pending s1 = (if ok then {[id]} ∪ retained_for_pending s else retained_for_pending s) /\
  result_ordinal s1 = S (result_ordinal s) /\
  keep_results s1 = (if ok then {[result_ordinal s]} ∪ keep_results s else keep_results s) /\
  (clean s1 <-> clean s /\ ok = true).
Proof.
  subst s1 ok. simpl. set (s0 := {| result_ordinal := S (result_ordinal s) |}).
  rewrite follows_known_call_spec. change (open_ids i s0) with (open_ids i s).
  change (retained_for_pending s0) with (retained_for_pending s).
  destruct (bool_decide (id ∈ open_ids i s)); simpl;
    [destruct (bool_decide (id ∈ retained_for_pending s)); simpl|];
    repeat split; try done; unfold clean in *; simpl in *;
    rewrite ?app_nil in *; naive_solver.
Qed.

Lemma keep_blocks_skip ids seen b blocks : is_tool_result b = false ->
  keep_blocks ids seen (b :: blocks) =
  (b :: (keep_blocks ids seen blocks).1, (keep_blocks ids seen blocks).2).
Proof. by destruct b. Qed.

Lemma retain_blocks_skip K n b blocks : is_tool_result b = false ->
  retain_blocks K n (b :: blocks) = (b :: (retain_blocks K n blocks).1, (retain_blocks K n blocks).2).
Proof. by destruct b. Qed.

Lemma scan_block_skip i s b : is_tool_result b = false -> scan_block i s b = s.
Proof. by destruct b. Qed.

Lemma result_ids_skip b blocks : is_tool_result b = false -> result_ids (b :: blocks) = result_ids blocks.
Proof. by destruct b. Qed.

Lemma block_run_skip i b blocks s s' : is_tool_result b = false ->
  block_run i blocks s s' -> block_run i (b :: blocks) s s'.
Proof.
  intros Hb [H1 H2 H3 H4 H5 H6 H7 H8 H9].
  split; rewrite ?keep_blocks_skip, ?result_ids_skip by done; try done.
  intros K HK Hs. by rewrite retain_blocks_skip, (H8 K HK Hs).
Qed.

Lemma block_run_result i id c e k blocks s s' :
  block_run i blocks (scan_block i s (ToolResult id c e k)) s' ->
  block_run i (ToolResult id c e k :: blocks) s s'.
Proof.
  destruct (scan_result_step i s id c e k) as (E1 & E2 & E3 & E4 & E5 & E6 & E7).
  set (s1 := scan_block i s (ToolResult id c e k)) in *. clearbody s1.
  set (ok := bool_decide (id ∈ open_ids i s) && negb (bool_decide (id ∈ retained_for_pending s))) in *.
  intros [H1 H2 H3 H4 H5 H6 H7 H8 H9].
  assert (Eo : open_ids i s1 = open_ids i s) by (unfold open_ids; by rewrite E1, E2).
  assert (Ek : (forall n, n ∈ keep_results s -> n < result_ordinal s) ->
    forall n, n ∈ keep_results s1 -> n < result_ordinal s1).
  { intros Hs n. rewrite E5, E6. destruct ok; [|intros H%Hs; lia].
    intros [->%elem_of_singleton|H%Hs]%elem_of_union; lia. }
  rewrite Eo in *. rewrite E5 in *. split; simpl; fold ok; try congruence.
  - rewrite H4, E4. by destruct ok.
  - lia.
  - intros n Hn. rewrite H6, E6 by lia. destruct ok; [|done].
    rewrite elem_of_union, elem_of_singleton. intuition lia.
  - eauto.
  - intros K HK Hs. rewrite (H8 K HK) by eauto. simpl.
    assert (HKn : result_ordinal s ∈ K <-> ok = true).
    { rewrite HK, H6, E6 by lia. destruct ok; [set_solver|].
      split; [intros H%Hs; lia|done]. }
    rewrite E4. destruct ok.
    + by rewrite bool_decide_eq_true_2 by (by apply HKn).
    + rewrite bool_decide_eq_false_2; [done|]. by intros H%HKn.
  - intros ev. rewrite H9, E7, E4. unfold ok.
    destruct (bool_decide (id ∈ open_ids i s)), (bool_decide (id ∈ retained_for_pending s)); simpl; intuition discriminate.
Qed.

Lemma fold_blocks_run i blocks s : block_run i blocks s (fold_left (scan_block i) blocks s).
Proof.
  revert s; induction blocks as [|b blocks IH]; intros s.
  { split; try done; simpl; auto. }
  destruct (is_tool_result b) eqn:Hb.
  - destruct b; try discriminate Hb. apply block_run_result, IH.
  - simpl. rewrite scan_block_skip by done. by apply block_run_skip.
Qed.

(** ** The whole scan *)

(** The state between two messages, before the message number [i]. *)
Record scan_inv (i : nat) s : Prop := {
  si_pending : match pending_call_message s with
               | Some c => c < i /\ missing_by_message s !! c = None
               | None => pending_call_ids s = []
               end;
  si_missing : forall k, i <= k -> missing_by_message s !! k = None;
  si_keep : forall n, n ∈ keep_results s -> n < result_ordinal s
}.

Lemma open_ids_inv i s : scan_inv i s -> open_ids i s = pending_call_ids s.
Proof.
  intros [Hp _ _]. unfold open_ids. destruct (pending_call_message s) as [c|]; [|done].
  destruct Hp as [Hc _]. by rewrite (proj2 (Nat.ltb_lt _ _) Hc).
Qed.

(** The missing results that are on record once the turn has ended with answers [seen]. *)
Definition final_missing s (seen : gset (list N)) (k : nat) : option (list (list N)) :=
  if decide (pending_call_message s = Some k)
  then let l := unanswered (pending_call_ids s) seen in if empty_list l then None else Some l
  else missing_by_message s !! k.

Lemma record_missing_spec i s (s' := record_missing_results s) :
  scan_inv i s ->
  pending_call_message s' = pending_call_message s /\
  retained_for_pending s' = retained_for_pending s /\
  keep_results s' = keep_results s /\ result_ordinal s' = result_ordinal s /\
  (forall k, missing_by_message s' !! k = final_missing s (retained_for_pending s) k) /\
  (clean s' <-> clean s /\ Forall (fun id => id ∈ retained_for_pending s) (pending_call_ids s)).
Proof.
  intros Hinv. destruct (Hinv) as [Hp Hm _]. subst s'. unfold record_missing_results, final_missing.
  destruct (pending_call_message s) as [c|] eqn:Ec.
  2:{ rewrite Ec, Hp, Forall_nil. split_and!; try done; try tauto. }
  destruct Hp as [Hc Hmc]. change (missing_results s) with
    (unanswered (pending_call_ids s) (retained_for_pending s)).
  assert (Hun : unanswered (pending_call_ids s) (retained_for_pending s) = [] <->
    Forall (fun id => id ∈ retained_for_pending s) (pending_call_ids s)).
  { unfold unanswered. induction (pending_call_ids s) as [|x l IH]; simpl.
    - split; [constructor|done].
    - rewrite Forall_cons, <- IH. case_bool_decide; simpl; naive_solver. }
  destruct (unanswered (pending_call_ids s) (retained_for_pending s)) as [|x l] eqn:Eu; simpl.
  - rewrite Ec. split_and!; try done; try tauto.
    intros k. case_decide as Hk; simplify_eq; done.
  - split_and!; try done; simpl.
    + intros k. case_decide as Hk; simplify_eq; [by rewrite lookup_insert_eq|].
      rewrite lookup_insert_ne; congruence.
    + unfold clean; simpl. split; [intros (HH & _); by destruct (repaired s)|].
      intros [_ HF%Hun]. discriminate.
Qed.

(** The state after a message that continues the turn. *)
Lemma scan_inv_continue i m s : scan_inv i s -> starts_turn m = false ->
  scan_inv (S i) (scan_message s i m).
Proof.
  intros [Hp Hm Hk] Hm'. unfold scan_message. rewrite Hm'.
  destruct (fold_blocks_run i (content m) s) as [H1 H2 H3 _ _ _ H7 _ _].
  split; [|intros k ?; rewrite H3; apply Hm; lia|eauto].
  rewrite H1, H2, H3. destruct (pending_call_message s) as [c|]; [|done]. split; [lia|tauto].
Qed.

Lemma scan_inv_begin i m s : scan_inv i s ->
  scan_inv (S i) (fold_left (scan_block i) (content m) (begin_turn i m (record_missing_results s))).
Proof.
  intros Hinv. destruct (record_missing_spec i s Hinv) as (_ & _ & R3 & R4 & R5 & _).
  destruct (Hinv) as [Hp Hm Hk].
  set (s1 := record_missing_results s) in *. clearbody s1.
  destruct (fold_blocks_run i (content m) (begin_turn i m s1)) as [H1 H2 H3 _ _ _ H7 _ _].
  assert (Hnone : forall k, i <= k -> missing_by_message s1 !! k = None).
  { intros k Hik. rewrite R5. unfold final_missing. case_decide as Hc; [|auto].
    rewrite Hc in Hp. lia. }
  split.
  - rewrite H1, H2, H3. simpl. destruct (call_ids (content m)); simpl; [done|]. auto with lia.
  - intros k ?. rewrite H3. apply Hnone. lia.
  - apply H7. simpl. rewrite R3, R4. exact Hk.
Qed.

Record scan_result (i : nat) (ms : list Message) s (f : Scan) : Prop := {
  sr_rebuild : rebuild (missing_by_message f) (keep_results f) i (result_ordinal s) ms =
               ref_rebuild (pending_call_ids s) (retained_for_pending s) ms;
  sr_keep : forall n, n < result_ordinal s -> n ∈ keep_results f <-> n ∈ keep_results s;
  sr_missing : forall k, k < i -> missing_by_message f !! k =
    final_missing s (answered (pending_call_ids s) (retained_for_pending s) ms) k;
  sr_clean : clean f <->
    clean s /\ check (pending_call_ids s) (retained_for_pending s) (events ms) = true
}.

Lemma scan_result_continue i m ms s f : scan_inv i s -> starts_turn m = false ->
  scan_result (S i) ms (scan_message s i m) f -> scan_result i (m :: ms) s f.
Proof.
  intros Hinv Hm. pose proof (scan_inv_continue i m s Hinv Hm) as Hinv'.
  unfold scan_message in *. rewrite Hm in *.
  destruct (fold_blocks_run i (content m) s) as [H1 H2 H3 H4 H5 H6 H7 H8 H9].
  set (s' := fold_left _ _ s) in *. clearbody s'. rewrite (open_ids_inv i s Hinv) in *.
  assert (Hfm : missing_by_message f !! i = None ->
    scan_result (S i) ms s' f -> scan_result i (m :: ms) s f).
  2:{ intros R. apply Hfm; [|done]. rewrite (sr_missing _ _ _ _ R) by lia. unfold final_missing.
      destruct Hinv as [Hp Hmi _]. rewrite H1, H3. case_decide as Hc; [|auto].
      rewrite Hc in Hp. lia. }
  intros Hfi [R1 R2 R3 R4]. rewrite H2, H4 in *. split; simpl; rewrite ?Hm.
  - unfold rebuild_message. rewrite Hfi. simpl.
    rewrite (H8 (keep_results f)) by (try apply R2; apply Hinv). simpl.
    rewrite R1. by rewrite app_nil_r.
  - intros n Hn. rewrite R2, H6 by lia. done.
  - intros k Hk. rewrite R3 by lia. unfold final_missing. by rewrite H1, H2, H3.
  - rewrite R4. unfold message_events. rewrite Hm. apply H9.
Qed.

Lemma scan_result_begin i m ms s f (s' := fold_left (scan_block i) (content m)
    (begin_turn i m (record_missing_results s))) : scan_inv i s -> starts_turn m = true ->
  scan_result (S i) ms s' f -> scan_result i (m :: ms) s f.
Proof.
  intros Hinv Hm [R1 R2 R3 R4].
  destruct (record_missing_spec i s Hinv) as (E1 & E2 & E3 & E4 & E5 & E6).
  subst s'. set (s1 := record_missing_results s) in *. clearbody s1.
  destruct (fold_blocks_run i (content m) (begin_turn i m s1)) as [H1 H2 H3 H4 H5 H6 H7 H8 H9].
  set (s' := fold_left _ _ _) in *. clearbody s'.
  assert (Ho : open_ids i (begin_turn i m s1) = []).
  { unfold open_ids; simpl. destruct (call_ids (content m)); simpl; [done|].
    by rewrite Nat.ltb_irrefl. }
  assert (Hseen : forall bs, (keep_blocks [] ∅ bs).2 = (∅ : gset (list N))).
  { induction bs as [|[] ? IH]; simpl; done. }
  rewrite Ho in *. simpl in *. rewrite H2, H4, Hseen in *.
  split; simpl; rewrite ?Hm.
  - unfold rebuild_message. rewrite R3 by lia.
    assert (Hfi : default [] (final_missing s' (answered (call_ids (content m)) ∅ ms) i) =
      unanswered (call_ids (content m)) (answered (call_ids (content m)) ∅ ms)).
    { unfold final_missing. rewrite H1, H2, H3. destruct (call_ids (content m)) as [|x l] eqn:Ec.
      - simpl. rewrite E5. unfold final_missing.
        destruct Hinv as [Hp Hmi _]. case_decide as Hc; [rewrite Hc in Hp; lia|by rewrite Hmi].
      - case_decide; [|done]. by destruct (unanswered (x :: l) (answered (x :: l) ∅ ms)). }
    rewrite Hfi. rewrite <- E4. simpl.
    rewrite (H8 (keep_results f)); [|apply R2|intros n; rewrite E3, E4; apply Hinv].
    simpl. by rewrite R1, <- app_assoc.
  - intros n Hn. rewrite R2, H6, E3 by lia. done.
  - intros k Hk. rewrite R3 by lia. unfold final_missing at 1. rewrite H1, H3.
    case_decide as Hc; [|apply E5]. destruct (call_ids (content m)); simplify_eq/=; lia.
  - rewrite R4. unfold message_events. rewrite Hm. simpl.
    rewrite <- app_assoc. simpl. rewrite andb_true_iff, bool_decide_eq_true.
    split.
    + intros [HH HC]. specialize (H9 (ETurn (call_ids (content m)) :: events ms)). simpl in H9.
      destruct (proj1 H9 (conj HH HC)) as [Hc1 Hc2].
      apply E6 in Hc1 as [??]. done.
    + intros (Hc1 & HF & HC). specialize (H9 (ETurn (call_ids (content m)) :: events ms)). simpl in H9.
      apply H9.
      split; [by apply E6|done].
Qed.

Lemma scan_spec ms : forall i s, scan_inv i s ->
  scan_result i ms s (record_missing_results (scan_messages s i ms)).
Proof.
  induction ms as [|m ms IH]; intros i s Hinv.
  - destruct (record_missing_spec i s Hinv) as (E1 & E2 & E3 & E4 & E5 & E6). simpl.
    split; simpl; [done|by rewrite E3|by auto|]. by rewrite bool_decide_eq_true.
  - simpl. destruct (starts_turn m) eqn:Hm.
    + apply scan_result_begin; [done..|]. unfold scan_message. rewrite Hm.
      by apply IH, scan_inv_begin.
    + apply scan_result_continue; [done..|]. by apply IH, scan_inv_continue.
Qed.

Lemma scan_inv_init : scan_inv 0 scan_init.
Proof. split; simpl; [done|intros; apply lookup_empty|set_solver]. Qed.

End Scan.

(** The receipt is empty exactly for paired histories. *)
Lemma receipt_empty_iff_paired ms : receipt_is_empty (scan_receipt (scan_history ms)) = true <-> paired ms.
Proof.
  rewrite paired_check.
  transitivity (clean (scan_history ms)).
  - unfold clean, receipt_is_empty. simpl.
    destruct (repaired _), (duplicates _), (orphans _); simpl; naive_solver.
  - unfold scan_history. rewrite (sr_clean _ _ _ _ (scan_spec ms 0 scan_init scan_inv_init)).
    unfold clean; simpl. naive_solver.
Qed.

(** The two loops compute the reference repair. *)
Lemma rebuild_is_ref ms :
  rebuild (missing_by_message (scan_history ms)) (keep_results (scan_history ms)) 0 0 ms =
  ref_rebuild [] ∅ ms.
Proof. apply (sr_rebuild _ _ _ _ (scan_spec ms 0 scan_init scan_inv_init)). Qed.

End HistoryRepairFacts.

Module HistoryRepairTheorems.
Import Transcript HistoryRepair HistoryRepairFacts.

(** ** What the reference repair gives *)

Section Reference.
Implicit Types (ids : list (list N)) (seen : gset (list N)) (ms : list Message) (tl : list event).

Lemma keep_blocks_results ids seen bs (r := keep_blocks ids seen bs) (l := result_ids r.1) :
  r.2 = list_to_set l ∪ seen /\ Forall (fun id => id ∈ ids) l /\ NoDup l /\
  Forall (fun id => id ∉ seen) l.
Proof.
  subst r l. revert seen; induction bs as [|b bs IH]; intros seen; simpl.
  { split_and!; [set_solver|constructor..]. }
  destruct (is_tool_result b) eqn:Hb.
  2:{ destruct (IH seen) as (H1 & H2 & H3 & H4). destruct b; try discriminate Hb; simpl; split_and!; done. }
  destruct b as [| | | |id c e k| | |]; try discriminate Hb; simpl.
  destruct (bool_decide (id ∈ ids) && negb (bool_decide (id ∈ seen))) eqn:Hok; [|apply IH]. simpl.
  apply andb_true_iff in Hok as [Hin%bool_decide_eq_true Hs%negb_true_iff%bool_decide_eq_false].
  destruct (IH ({[id]} ∪ seen)) as (H1 & H2 & H3 & H4). rewrite Forall_forall in H2, H4. rewrite !Forall_forall.
  split_and!.
  - rewrite H1. set_solver.
  - intros x. set_solver.
  - constructor; [|done]. intros Hid. apply (H4 id Hid). set_solver.
  - intros x [->|Hx]%elem_of_cons; [done|]. specialize (H4 x Hx). set_solver.
Qed.

Lemma keep_blocks_others ids seen bs :
  List.filter (fun b => negb (is_tool_result b)) (keep_blocks ids seen bs).1 =
  List.filter (fun b => negb (is_tool_result b)) bs.
Proof.
  revert seen; induction bs as [|b bs IH]; intros seen; simpl; [done|].
  destruct b; simpl; rewrite ?IH; try done. destruct (_ && _); simpl; by rewrite IH.
Qed.

Lemma call_ids_others bs : call_ids bs = call_ids (List.filter (fun b => negb (is_tool_result b)) bs).
Proof. induction bs as [|[] bs IH]; simpl; by rewrite ?IH. Qed.

Lemma keep_blocks_calls ids seen bs : call_ids (keep_blocks ids seen bs).1 = call_ids bs.
Proof. by rewrite call_ids_others, keep_blocks_others, <- call_ids_others. Qed.

Lemma answered_mono ids seen ms : seen ⊆ answered ids seen ms.
Proof.
  revert seen; induction ms as [|m ms IH]; intros seen; simpl; [done|].
  destruct (starts_turn m); [done|]. rewrite <- IH.
  destruct (keep_blocks_results ids seen (content m)) as [-> _]. set_solver.
Qed.

Lemma unanswered_spec ids seen id : id ∈ unanswered ids seen <-> id ∈ ids /\ id ∉ seen.
Proof.
  unfold unanswered. rewrite list_elem_of_In, filter_In, <- list_elem_of_In, negb_true_iff, bool_decide_eq_false. done.
Qed.

Lemma NoDup_unanswered ids seen : NoDup ids -> NoDup (unanswered ids seen).
Proof. rewrite !NoDup_ListNoDup. apply List.NoDup_filter. Qed.

Lemma push_content r bs : push_message r bs ≫= content = bs.
Proof. unfold push_message. destruct bs; simpl; [done|by rewrite app_nil_r]. Qed.

Lemma synthetic_ids ids : result_ids (synthetic_result <$> ids) = ids.
Proof. induction ids as [|x ids IH]; [done|]. exact (f_equal (cons x) IH). Qed.

Lemma synthetic_content ids : push_synthetic ids ≫= content = synthetic_result <$> ids.
Proof. unfold push_synthetic. destruct ids; simpl; [done|by rewrite app_nil_r]. Qed.

(** A rest of events that asks for nothing. *)
Definition closing tl : Prop :=
  forall ids seen, Forall (fun id => id ∈ seen) ids -> check ids seen tl = true.

Lemma closing_nil : closing [].
Proof. intros ids seen H. by apply bool_decide_eq_true. Qed.

Lemma closing_turn : closing [ETurn []; ETurn []].
Proof. intros ids seen H. simpl. by rewrite bool_decide_eq_true_2. Qed.

(** The turn a check is in, where the repair is in a turn with calls [ids] and answers
    [seen] before [ms]: the same one, with the synthetic answers [U] given already, or an
    earlier one that is complete, when the message that opened the turn was dropped. *)
Definition in_turn ids seen ms (idc : list (list N)) (sc : gset (list N)) : Prop :=
  (exists U : gset (list N), idc = ids /\ sc = U ∪ seen /\ U ## answered ids seen ms /\
     forall id, id ∈ ids -> id ∈ U ∪ answered ids seen ms) \/
  (ids = [] /\ Forall (fun id => id ∈ sc) idc).

Lemma in_turn_end ids seen m ms idc sc : starts_turn m = true ->
  in_turn ids seen (m :: ms) idc sc -> Forall (fun id => id ∈ sc) idc.
Proof.
  intros Hm [(U & -> & -> & _ & H)|[_ H]]; [|done]. simpl in H. rewrite Hm in H.
  by apply Forall_forall.
Qed.

Lemma ref_head_check m l idc sc ev : starts_turn m = true ->
  l ⊆ call_ids (content m) -> NoDup l -> Forall (fun id => id ∈ sc) idc ->
  (forall idc' sc', (idc' = call_ids (content m) /\ sc' = list_to_set l) \/
     (call_ids (content m) = [] /\ l = [] /\ idc' = idc /\ sc' = sc) -> check idc' sc' ev = true) ->
  check idc sc (events (push_message (role m) (keep_blocks [] ∅ (content m)).1 ++ push_synthetic l) ++ ev)
  = true.
Proof.
  intros Hm Hl Hn Hc Hev. set (bs := (keep_blocks [] ∅ (content m)).1).
  assert (Hr : result_ids bs = []).
  { destruct (keep_blocks_results [] ∅ (content m)) as (_ & HF & _). fold bs in HF.
    destruct (result_ids bs); [done|]. apply Forall_cons in HF as [HF _]. set_solver. }
  assert (Hcalls : call_ids bs = call_ids (content m)) by apply keep_blocks_calls.
  assert (Hs : forall r, starts_turn {| role := role m; content := r |} = true) by done.
  assert (Hsyn : events (push_synthetic l) = EResult <$> l).
  { unfold push_synthetic, events. destruct l as [|x l']; [done|]. cbn [empty_list negb mbind list_bind].
    rewrite app_nil_r. unfold message_events.
    change (starts_turn (synthetic_message (x :: l'))) with false. cbn [content synthetic_message].
    by rewrite synthetic_ids. }
  unfold events in *. rewrite bind_app, Hsyn. unfold push_message.
  destruct bs as [|b bs'] eqn:Eb; simpl.
  - rewrite <- Hcalls in *. simpl in *. assert (l = []) as -> by (destruct l; set_solver). simpl.
    apply Hev. right. eauto.
  - rewrite app_nil_r. unfold message_events. rewrite Hs. simpl content. rewrite Hr, Hcalls. simpl.
    rewrite bool_decide_eq_true_2 by done. simpl.
    rewrite check_app_results, !bool_decide_eq_true_2; [|apply Forall_forall; set_solver|done|apply Forall_forall; set_solver].
    apply Hev. left. split; [done|set_solver].
Qed.

Lemma ref_rebuild_check ms tl : distinct_calls ms -> closing tl ->
  forall ids seen idc sc, in_turn ids seen ms idc sc ->
  check idc sc (events (ref_rebuild ids seen ms) ++ tl) = true.
Proof.
  intros Hd Htl. induction Hd as [|m ms Hm Hd IH]; intros ids seen idc sc Hin.
  { apply Htl. destruct Hin as [(U & -> & -> & _ & H)|[_ H]]; [by apply Forall_forall|done]. }
  simpl. destruct (starts_turn m) eqn:Es.
  - unfold events. rewrite app_assoc, bind_app, <- app_assoc.
    set (ids' := call_ids (content m)). set (l := unanswered ids' (answered ids' ∅ ms)).
    assert (Hl : forall id, id ∈ l <-> id ∈ ids' /\ id ∉ answered ids' ∅ ms) by apply unanswered_spec.
    apply ref_head_check; [done| |by apply NoDup_unanswered, Hm|by eapply in_turn_end|].
    { intros id Hid. by apply Hl in Hid as []. }
    intros idc' sc' Hor. apply IH. destruct Hor as [[-> ->]|(E & _ & -> & ->)].
    + left. exists (list_to_set l). split_and!; [done|set_solver| |].
      * intros id H1 H2. set_solver.
      * intros id Hid. destruct (decide (id ∈ answered ids' ∅ ms)); set_solver.
    + right. split; [done|]. by eapply in_turn_end.
  - destruct (keep_blocks_results ids seen (content m)) as (H1 & H2 & H3 & H4).
    set (r := keep_blocks ids seen (content m)) in *.
    assert (Hp : events (push_message (role m) r.1) = EResult <$> result_ids r.1).
    { unfold push_message. destruct r.1 eqn:Er; simpl; [done|]. rewrite app_nil_r.
      unfold message_events. change (starts_turn _) with (starts_turn m). by rewrite Es. }
    unfold events in *. rewrite bind_app, Hp, <- app_assoc. rewrite check_app_results.
    destruct Hin as [(U & -> & -> & Hdis & Hall)|[-> HF]].
    + simpl in Hdis, Hall. rewrite Es in Hdis, Hall. fold r in Hdis, Hall.
      pose proof (answered_mono ids r.2 ms) as Hmono.
      rewrite !bool_decide_eq_true_2; [|rewrite Forall_forall in *; set_solver|done..].
      simpl. apply IH. left. exists U. split_and!; [done|set_solver|done|done].
    + destruct (result_ids r.1) eqn:Er; [|apply Forall_cons in H2 as [H2 _]; set_solver].
      simpl. rewrite (left_id_L ∅ (∪)). apply IH. by right.
Qed.

Lemma ref_rebuild_others ids seen ms : other_blocks (ref_rebuild ids seen ms) = other_blocks ms.
Proof.
  unfold other_blocks. revert ids seen; induction ms as [|m ms IH]; intros ids seen; simpl; [done|].
  destruct (starts_turn m); simpl; rewrite ?bind_app, !List.filter_app, IH, push_content,
    keep_blocks_others; [|done].
  rewrite synthetic_content. f_equal. induction (unanswered _ _); simpl; done.
Qed.

End Reference.

(** ** The repair without a scan *)

(** The message that opened the current turn, and those after it. *)
Fixpoint last_turn (pre : list Message) : option (Message * list Message) :=
  match pre with
  | [] => None
  | m :: rest =>
      match last_turn rest with
      | Some t => Some t
      | None => if starts_turn m then Some (m, rest) else None
      end
  end.

(** The messages up to the next turn. *)
Fixpoint rest_of_turn (ms : list Message) : list Message :=
  match ms with
  | [] => []
  | m :: rest => if starts_turn m then [] else m :: rest_of_turn rest
  end.

(** After the messages [pre] and the blocks [before], [id] is a call of the current turn
    without an answer. *)
Definition open_call (pre : list Message) (before : list ContentBlock) (id : list N) : Prop :=
  match last_turn pre with
  | Some (t, mid) => id ∈ call_ids (content t) /\ id ∉ result_ids ((mid ≫= content) ++ before)
  | None => False
  end.

(** What stays of the blocks of [m]: everything but the results, and of the results those
    that are the first answer to a call of the turn [m] is in. *)
Inductive keeps (pre : list Message) (m : Message) : list ContentBlock -> list ContentBlock -> list ContentBlock -> Prop :=
| keeps_nil a : keeps pre m a [] []
| keeps_other a b bs k : is_tool_result b = false -> keeps pre m (a ++ [b]) bs k -> keeps pre m a (b :: bs) (b :: k)
| keeps_answer a id c e k bs r :
    starts_turn m = false -> open_call pre a id -> keeps pre m (a ++ [ToolResult id c e k]) bs r ->
    keeps pre m a (ToolResult id c e k :: bs) (ToolResult id c e k :: r)
| keeps_drop a id c e k bs r :
    ~ (starts_turn m = false /\ open_call pre a id) -> keeps pre m (a ++ [ToolResult id c e k]) bs r ->
    keeps pre m a (ToolResult id c e k :: bs) r.

(** The calls of [m] that nothing answers before the next turn. *)
Definition never_answered (m : Message) (rest : list Message) : list (list N) :=
  if starts_turn m
  then List.filter (fun id => negb (bool_decide (id ∈ result_ids (rest_of_turn rest ≫= content)))) (call_ids (content m))
  else [].

(** Message by message: the same role, the blocks that stay, no empty message, and after
    a turn's message one with a synthetic error result for each call that nothing answers. *)
Inductive repairs : list Message -> list Message -> list Message -> Prop :=
| repairs_nil pre : repairs pre [] []
| repairs_cons pre m rest kept out :
    keeps pre m [] (content m) kept -> repairs (pre ++ [m]) rest out ->
    repairs pre (m :: rest) (push_message (role m) kept ++ push_synthetic (never_answered m rest) ++ out).

Lemma last_turn_snoc pre m :
  last_turn (pre ++ [m]) = if starts_turn m then Some (m, []) else prod_map id (fun mid => mid ++ [m]) <$> last_turn pre.
Proof.
  induction pre as [|x pre IH]; cbn [app last_turn]; [by destruct (starts_turn m)|]. rewrite IH.
  destruct (starts_turn m); [done|]. destruct (last_turn pre) as [[t mid]|]; cbn; [done|]. by destruct (starts_turn x).
Qed.

Lemma open_call_snoc pre a b id : open_call pre (a ++ [b]) id <-> open_call pre a id /\ id ∉ result_ids [b].
Proof.
  unfold open_call. destruct (last_turn pre) as [[t mid]|]; [|tauto].
  unfold result_ids. rewrite !omap_app, !not_elem_of_app. tauto.
Qed.

(** The open calls a turn starts with, and those it has after one more message. *)
Lemma open_call_next pre m i :
  open_call (pre ++ [m]) [] i <-> if starts_turn m then i ∈ call_ids (content m) else open_call pre (content m) i.
Proof.
  unfold open_call. rewrite last_turn_snoc. destruct (starts_turn m).
  - cbn. split; [by intros [? _]|]. intros ?. split; [done|apply not_elem_of_nil].
  - destruct (last_turn pre) as [[t mid]|]; cbn; [|done]. by rewrite app_nil_r, bind_app, bind_singleton.
Qed.

Lemma keep_blocks_seen ids seen bs id :
  id ∈ ids -> id ∈ (keep_blocks ids seen bs).2 <-> id ∈ seen \/ id ∈ result_ids bs.
Proof.
  intros Hid. revert seen. induction bs as [|b bs IH]; intros seen.
  { cbn. split; [by left|]. intros [?|[]%not_elem_of_nil]; done. }
  destruct (is_tool_result b) eqn:Eb; [|rewrite keep_blocks_skip, result_ids_skip by done; apply IH].
  destruct b as [| | | |i c e k| | |]; try done. change (result_ids (ToolResult i c e k :: bs)) with (i :: result_ids bs).
  rewrite elem_of_cons. cbn [keep_blocks]. destruct (bool_decide (i ∈ ids)) eqn:Ei; cbn [andb].
  - destruct (bool_decide (i ∈ seen)) eqn:Es; cbn [negb].
    + apply bool_decide_eq_true in Es. rewrite IH. split; [tauto|]. intros [?|[->|?]]; auto.
    + cbn [snd]. rewrite IH, elem_of_union, elem_of_singleton. tauto.
  - apply bool_decide_eq_false in Ei. rewrite IH. split; [tauto|]. intros [?|[->|?]]; auto. done.
Qed.

Lemma keep_blocks_keeps pre m ids seen a bs :
  starts_turn m = false -> (forall id, id ∈ ids /\ id ∉ seen <-> open_call pre a id) ->
  keeps pre m a bs (keep_blocks ids seen bs).1.
Proof.
  intros Hm. revert seen a. induction bs as [|b bs IH]; intros seen a Ho; [constructor|].
  destruct (is_tool_result b) eqn:Eb.
  - destruct b as [| | | |i c e k| | |]; try done. cbn [keep_blocks].
    assert (forall seen', (forall id, id ∈ ids /\ id ∉ seen' <-> (id ∈ ids /\ id ∉ seen) /\ id <> i) ->
      keeps pre m (a ++ [ToolResult i c e k]) bs (keep_blocks ids seen' bs).1) as Hnext.
    { intros seen' Hs. apply IH. intros id. rewrite Hs, open_call_snoc, Ho. cbn. by rewrite list_elem_of_singleton. }
    destruct (bool_decide (i ∈ ids) && negb (bool_decide (i ∈ seen))) eqn:E.
    + apply andb_true_iff in E as [E1%bool_decide_eq_true E2%negb_true_iff%bool_decide_eq_false].
      cbn [fst]. apply keeps_answer; [done|by apply Ho|]. apply Hnext. set_solver.
    + apply keeps_drop; [|apply Hnext].
      * intros [_ [E1 E2]%Ho]. by rewrite (bool_decide_eq_true_2 (i ∈ ids)), (bool_decide_eq_false_2 (i ∈ seen)) in E by done.
      * intros id. split; [|tauto]. intros [H1 H2]. split; [done|]. intros ->.
        by rewrite (bool_decide_eq_true_2 (i ∈ ids)), (bool_decide_eq_false_2 (i ∈ seen)) in E by done.
  - rewrite keep_blocks_skip by done. cbn [fst]. apply keeps_other; [done|]. apply IH. intros id.
    rewrite open_call_snoc, Ho. destruct b; cbn; try done; (split; [intros ?; split; [done|apply not_elem_of_nil]|tauto]).
Qed.

(** In the message that opens a turn no result answers anything. *)
Lemma keep_blocks_opening pre m a bs : starts_turn m = true -> keeps pre m a bs (keep_blocks [] ∅ bs).1.
Proof.
  intros Hm. revert a. induction bs as [|b bs IH]; intros a; [constructor|].
  destruct (is_tool_result b) eqn:Eb.
  - destruct b as [| | | |i c e k| | |]; try done. cbn [keep_blocks]. apply keeps_drop; [by intros [? _]; congruence|]. apply IH.
  - rewrite keep_blocks_skip by done. by apply keeps_other.
Qed.

Lemma answered_results ids seen ms id :
  id ∈ ids -> id ∈ answered ids seen ms <-> id ∈ seen \/ id ∈ result_ids (rest_of_turn ms ≫= content).
Proof.
  intros Hid. revert seen. induction ms as [|m ms IH]; intros seen; cbn [answered rest_of_turn].
  - cbn. split; [by left|]. intros [?|[]%not_elem_of_nil]; done.
  - destruct (starts_turn m); [cbn; split; [by left|]; intros [?|[]%not_elem_of_nil]; done|].
    rewrite IH, keep_blocks_seen by done. rewrite bind_cons. unfold result_ids. rewrite omap_app, elem_of_app. tauto.
Qed.

Lemma unanswered_results ms ids :
  unanswered ids (answered ids ∅ ms) =
  List.filter (fun id => negb (bool_decide (id ∈ result_ids (rest_of_turn ms ≫= content)))) ids.
Proof.
  unfold unanswered. apply filter_ext_in. intros id Hid%list_elem_of_In. f_equal. apply bool_decide_ext.
  rewrite answered_results by done. set_solver.
Qed.

Lemma ref_rebuild_repairs pre ids seen ms :
  (forall id, id ∈ ids /\ id ∉ seen <-> open_call pre [] id) -> repairs pre ms (ref_rebuild ids seen ms).
Proof.
  revert pre ids seen. induction ms as [|m ms IH]; intros pre ids seen Ho; cbn [ref_rebuild]; [constructor|].
  destruct (starts_turn m) eqn:Em.
  - rewrite unanswered_results. replace (List.filter _ (call_ids (content m))) with (never_answered m ms)
      by (unfold never_answered; by rewrite Em).
    apply repairs_cons; [by apply keep_blocks_opening|]. apply IH. intros id. rewrite open_call_next, Em. set_solver.
  - replace (push_message (role m) (keep_blocks ids seen (content m)).1 ++ ref_rebuild ids (keep_blocks ids seen (content m)).2 ms)
      with (push_message (role m) (keep_blocks ids seen (content m)).1 ++ push_synthetic (never_answered m ms)
            ++ ref_rebuild ids (keep_blocks ids seen (content m)).2 ms) by (unfold never_answered; by rewrite Em).
    apply repairs_cons; [by apply keep_blocks_keeps|]. apply IH. intros id. rewrite open_call_next, Em.
    transitivity (open_call pre [] id /\ id ∉ result_ids (content m)).
    + rewrite <-Ho. split.
      * intros [Hi Hn]. rewrite keep_blocks_seen in Hn by done. tauto.
      * intros [[Hi Hn] Hr]. split; [done|]. rewrite keep_blocks_seen by done. tauto.
    + unfold open_call. destruct (last_turn pre) as [[t mid]|]; [|tauto]. unfold result_ids. rewrite app_nil_r, omap_app, not_elem_of_app. tauto.
Qed.

(** ** The repair *)

Lemma repair_unpaired ms v : ~ paired ms ->
  (repair_tool_call_pairs_inner ms v).1 =
  ref_rebuild [] ∅ ms ++ (if v then [receipt_message (scan_receipt (scan_history ms))] else []).
Proof.
  intros Hp. unfold repair_tool_call_pairs_inner. rewrite rebuild_is_ref.
  destruct (receipt_is_empty _) eqn:E; [|done]. by apply receipt_empty_iff_paired in E.
Qed.

Lemma repair_paired ms v : paired ms ->
  repair_tool_call_pairs_inner ms v = (ms, scan_receipt (scan_history ms)) /\
  receipt_is_empty (repair_tool_call_pairs_inner ms v).2 = true.
Proof.
  intros E%receipt_empty_iff_paired. unfold repair_tool_call_pairs_inner. by rewrite E.
Qed.

#[export] Instance paired_dec ms : Decision (paired ms).
Proof. refine (cast_if (decide (check [] ∅ (events ms) = true))); by rewrite paired_check. Defined.

Lemma repair_pairs ms v : distinct_calls ms -> paired (repair_tool_call_pairs_inner ms v).1.
Proof.
  intros Hd. destruct (decide (paired ms)) as [Hp|Hp].
  { by destruct (repair_paired ms v Hp) as [-> _]. }
  rewrite (repair_unpaired ms v Hp), paired_check. unfold events. rewrite bind_app.
  apply ref_rebuild_check; [done|destruct v; [apply closing_turn|apply closing_nil]|].
  right. split; [done|constructor].
Qed.

Lemma redact_block_ids secrets bs :
  call_ids (redact_block secrets <$> bs) = call_ids bs /\
  result_ids (redact_block secrets <$> bs) = result_ids bs.
Proof.
  induction bs as [|b bs [IH1 IH2]]; [done|].
  split; destruct b; first [exact IH1 | exact IH2 | exact (f_equal (cons _) IH1) | exact (f_equal (cons _) IH2)].
Qed.

Lemma redact_message_events secrets m : message_events (redact_message secrets m) = message_events m.
Proof.
  unfold message_events. simpl content. by destruct (redact_block_ids secrets (content m)) as [-> ->].
Qed.

Lemma redact_messages_paired secrets ms : paired ms -> paired (redact_message secrets <$> ms).
Proof.
  rewrite !paired_check. intros <-. f_equal. unfold events.
  induction ms as [|m ms IH]; [done|]. rewrite fmap_cons, !bind_cons, redact_message_events. by f_equal.
Qed.

(** C30: Whatever history a crash left, the repair makes it one that a provider accepts, as
    long as the calls of one message have different ids: every result is the first answer
    to a call of its turn, and every call is answered before the next turn. A second
    repair finds nothing to do. The same holds for the messages of a request bound for a
    model, whose results have passed the scrubber as well. *)
Theorem repaired_history_is_paired ms v v' secrets :
  distinct_calls ms ->
  let ms' := (repair_tool_call_pairs_inner ms v).1 in
  paired ms' /\
  repair_tool_call_pairs_inner ms' v' =
    (ms', {| repaired_call_ids := []; duplicate_result_ids := []; orphan_result_ids := [] |}) /\
  paired (prepare_model_bound_messages secrets ms) /\
  (forall id c e k, ToolResult id c e k ∈ prepare_model_bound_messages secrets ms ≫= content ->
     exists c0, c = Redact.redact_model_bound_text c0 secrets).
Proof.
  intros Hd ms'. assert (Hp : paired ms') by by apply repair_pairs.
  split_and!; [done| |by apply redact_messages_paired, repair_pairs|].
  - destruct (repair_paired ms' v' Hp) as [E1 E2]. rewrite E1 in E2 |- *. f_equal. simpl in E2.
    unfold receipt_is_empty in E2. unfold scan_receipt in *. simpl in E2.
    by destruct (repaired _), (duplicates _), (orphans _).
  - intros id c e k (m & Hb & Hm)%list_elem_of_bind. unfold prepare_model_bound_messages in Hm.
    apply list_elem_of_fmap in Hm as (m0 & -> & _). simpl in Hb.
    apply list_elem_of_fmap in Hb as (b0 & Eb & _). destruct b0; simplify_eq/=. eauto.
Qed.

(** C31: The repair changes what it must and nothing else. A history that is paired comes
    back as it is, and the receipt is empty exactly then. Otherwise the result is the old
    history message by message ([repairs]): every message keeps its role and its blocks in
    their order except for the tool results that are not the first answer to a call of
    their turn, a message left without blocks is dropped, the message that opens a turn is
    followed by one with a synthetic error result for exactly those of its calls that
    nothing answers before the next turn, and the receipt, where it is asked for, is the
    last message. In particular the blocks that are not tool results are the same in the
    same order. *)
Theorem repair_keeps_the_conversation ms v (r := repair_tool_call_pairs_inner ms v)
    (receipt := if v && negb (receipt_is_empty r.2) then [receipt_message r.2] else []) :
  (receipt_is_empty r.2 = true <-> paired ms) /\
  (paired ms -> r.1 = ms) /\
  (~ paired ms -> exists body, repairs [] ms body /\ r.1 = body ++ receipt) /\
  other_blocks r.1 = other_blocks ms ++ (receipt ≫= content).
Proof.
  assert (Hr2 : r.2 = scan_receipt (scan_history ms)).
  { subst r receipt. unfold repair_tool_call_pairs_inner.
    by destruct (receipt_is_empty (scan_receipt (scan_history ms))). }
  split; [rewrite Hr2; apply receipt_empty_iff_paired|].
  split; [intros Hp; subst r; by destruct (repair_paired ms v Hp) as [-> _]|].
  destruct (decide (paired ms)) as [Hp|Hp].
  - destruct (repair_paired ms v Hp) as [E1 E2]. fold r in E1, E2. subst receipt. rewrite E2, E1.
    rewrite andb_false_r. simpl. by rewrite app_nil_r.
  - assert (E2 : receipt_is_empty r.2 = false).
    { rewrite Hr2. apply not_true_iff_false. by rewrite receipt_empty_iff_paired. }
    pose proof (repair_unpaired ms v Hp) as E1. fold r in E1. rewrite <- Hr2 in E1.
    subst receipt. rewrite E2, E1. rewrite andb_true_r. split.
    + intros _. exists (ref_rebuild [] ∅ ms). split; [|done]. apply ref_rebuild_repairs. intros id. cbn. set_solver.
    + unfold other_blocks. rewrite bind_app, List.filter_app. f_equal; [apply ref_rebuild_others|].
      by destruct v.
Qed.

(** ** Witnesses *)

Definition call (id : string) : Message :=
  {| role := Assistant; content := [ToolUse (lit id) (lit "read_file") Redact.JNull None None] |}.
Definition answer (id text : string) : Message :=
  {| role := User; content := [ToolResult (lit id) (lit text) None None] |}.

(** An orphan, a call with two answers, and a call that a crash left open. *)
Definition crashed : list Message :=
  [answer "c0" "bad"; call "c1"; answer "c1" "first"; answer "c1" "again"; call "c2"].

Lemma repaired_history_is_paired_witness :
  distinct_calls crashed /\
  (repair_tool_call_pairs crashed).2 =
    {| repaired_call_ids := [lit "c2"]; duplicate_result_ids := [lit "c1"];
       orphan_result_ids := [lit "c0"] |} /\
  paired (repair_tool_call_pairs crashed).1.
Proof.
  assert (Hd : distinct_calls crashed).
  { repeat (constructor; [intros _; by apply NoDup_ListNoDup; repeat constructor; intros []|]). constructor. }
  split_and!; [exact Hd|vm_compute; reflexivity|].
  apply (repaired_history_is_paired crashed true true [] Hd).
Defined.

(** The repaired history of the example, block by block. *)
Example crashed_repaired :
  (repair_tool_call_pairs_for_provider crashed).1 =
  [call "c1"; answer "c1" "first"; call "c2"; synthetic_message [lit "c2"]].
Proof. vm_compute. reflexivity. Qed.

(** A message with two calls of the same id: after a crash both get a synthetic result,
    so that the history is not paired, and the next repair takes one of them away. *)
Lemma reused_call_id_is_not_repaired :
  let ms := [{| role := Assistant; content := content (call "c") ++ content (call "c") |}] in
  ~ paired (repair_tool_call_pairs ms).1 /\
  duplicate_result_ids (repair_tool_call_pairs (repair_tool_call_pairs ms).1).2 = [lit "c"].
Proof.
  intros ms. split; [|vm_compute; reflexivity].
  rewrite paired_check. vm_compute. discriminate.
Qed.

End HistoryRepairTheorems.
