(* ===== verification/SessionTree.v ===== *)
(** * The session journal (crates/tui/src/session_tree.rs, crates/protocol/src/journal.rs)

    A session is an append-only list of entries that form a tree by their parent ids, and a
    leaf that says which branch is active. A fresh id and the time of an entry ([Stamp]) are
    arguments. The loops that follow parents take fuel and answer [None] when it runs out. *)

From stdpp Require Import base list option strings gmap.
From Stdlib Require Import Lia NArith.
From S2P Require Import Prelude RustStr RustNum Redact Transcript.

Module SessionTree.
Import Transcript.

Definition CURRENT_JOURNAL_SCHEMA_VERSION : N := 1.

Abbreviation EntryId := (list N) (only parsing).

Definition u32_saturating_succ (n : N) : N := N.min (n + 1) u32_max.

Definition spawn_depth_next (depth : N) : N := u32_saturating_succ depth.

Inductive SessionEntryKind : Type :=
| KMessage (message : Message)
| KUser (text : list N)
| KAssistant (text : list N)
| KCompaction (summary : list N) (tokens_before tokens_after : option N) (model : option (list N))
| KBranchSummary (branch_id summary : list N) (parent_branch_id : option (list N))
| KSystem (content : list N).

Definition is_contextual (k : SessionEntryKind) : bool :=
  match k with KMessage _ | KUser _ | KAssistant _ => true | _ => false end.

Definition text_message (r : Role) (text : list N) : Message :=
  {| role := r; content := [Text text None] |}.

Definition as_message (k : SessionEntryKind) : option Message :=
  match k with
  | KMessage message => Some message
  | KUser text => Some (text_message User text)
  | KAssistant text => Some (text_message Assistant text)
  | KCompaction summary _ _ _ => Some (text_message System (lit "[compaction summary] " ++ summary))
  | KBranchSummary _ summary _ => Some (text_message System (lit "[branch summary] " ++ summary))
  | KSystem content => Some (text_message System content)
  end.

Record SessionEntry : Type := {
  entry_id : EntryId;
  parent_id : option EntryId;
  kind : SessionEntryKind;
  created_at : N;
  entry_spawn_depth : N
}.

(** A fresh uuid and a reading of the clock. *)
Record Stamp : Type := { uuid : EntryId; now : N }.

Definition entry_new (st : Stamp) (k : SessionEntryKind) (parent : option EntryId) (depth : N)
    : SessionEntry :=
  {| entry_id := uuid st; parent_id := parent; kind := k; created_at := now st;
     entry_spawn_depth := depth |}.

(** The first [n] bytes of a string; [None] where the slice would cut a character in two. *)
Fixpoint byte_prefix (n : nat) (s : list N) : option (list N) :=
  match n, s with
  | 0, _ => Some []
  | _, [] => None
  | _, c :: s => if len_utf8 c <=? n then cons c <$> byte_prefix (n - len_utf8 c) s else None
  end.

(** [None] is a panic. *)
Definition short_id (e : SessionEntry) : option (list N) :=
  if 8 <=? str_len (entry_id e) then byte_prefix 8 (entry_id e) else Some (entry_id e).

Record SessionJournal : Type := {
  entries : list SessionEntry;
  leaf_id : option EntryId;
  schema_version : N;
  spawn_depth : N
}.

Definition journal_new : SessionJournal :=
  {| entries := []; leaf_id := None; schema_version := CURRENT_JOURNAL_SCHEMA_VERSION; spawn_depth := 0 |}.

Definition with_spawn_depth (depth : N) : SessionJournal :=
  {| entries := []; leaf_id := None; schema_version := CURRENT_JOURNAL_SCHEMA_VERSION; spawn_depth := depth |}.

(** ** Writing *)

Definition set_leaf (j : SessionJournal) (leaf : option EntryId) : SessionJournal :=
  {| entries := entries j; leaf_id := leaf; schema_version := schema_version j; spawn_depth := spawn_depth j |}.

Definition append (st : Stamp) (j : SessionJournal) (k : SessionEntryKind) : SessionJournal :=
  let entry := entry_new st k (leaf_id j) (spawn_depth j) in
  {| entries := entries j ++ [entry]; leaf_id := Some (entry_id entry);
     schema_version := schema_version j; spawn_depth := spawn_depth j |}.

Definition append_message (st : Stamp) (j : SessionJournal) (message : Message) : SessionJournal :=
  append st j (KMessage message).

Definition append_compaction (st : Stamp) (j : SessionJournal) (summary : list N)
    (tokens_before tokens_after : option N) (model : option (list N)) : SessionJournal :=
  append st j (KCompaction summary tokens_before tokens_after model).

Definition append_branch_summary (st : Stamp) (j : SessionJournal) (branch_id summary : list N)
    (parent_branch_id : option (list N)) : SessionJournal :=
  append st j (KBranchSummary branch_id summary parent_branch_id).

(** The loops that append one message after the other; the [n]-th one is stamped [st n]. *)
Fixpoint append_messages (st : nat -> Stamp) (j : SessionJournal) (messages : list Message) : SessionJournal :=
  match messages with
  | [] => j
  | m :: rest => append_messages (fun n => st (S n)) (append_message (st 0) j m) rest
  end.

Definition contains (j : SessionJournal) (id : EntryId) : bool :=
  existsb (fun e => str_eqb (entry_id e) id) (entries j).

Definition branch_to (j : SessionJournal) (id : EntryId) : result SessionJournal (list N) :=
  if contains j id then Ok (set_leaf j (Some id))
  else Err (lit "entry " ++ id ++ lit " not found").

Definition fork_from (j : SessionJournal) (from_entry_id : option EntryId) : result SessionJournal (list N) :=
  let forked leaf := {| entries := entries j; leaf_id := leaf; schema_version := schema_version j;
                        spawn_depth := u32_saturating_succ (spawn_depth j) |} in
  match from_entry_id with
  | Some id =>
      if negb (contains j id) then Err (lit "fork source " ++ id ++ lit " not found")
      else Ok (forked (Some id))
  | None => Ok (forked (leaf_id j))
  end.

(** ** Reading *)

(** Collecting pairs into a [HashMap]: a later entry with the same id replaces an earlier one. *)
Definition index (j : SessionJournal) : gmap EntryId SessionEntry :=
  fold_left (fun m e => <[entry_id e := e]> m) (entries j) ∅.

Definition children_of (j : SessionJournal) (parent : option EntryId) : list SessionEntry :=
  List.filter (fun e => bool_decide (parent_id e = parent)) (entries j).

Definition leaf (j : SessionJournal) : option SessionEntry :=
  match leaf_id j with
  | Some id => List.find (fun e => str_eqb (entry_id e) id) (entries j)
  | None => None
  end.

(** The loop of [root_to_leaf]; [path] is in the order the loop pushes. *)
Fixpoint walk_up (fuel : nat) (idx : gmap EntryId SessionEntry) (seen : gset EntryId)
    (cur : option EntryId) (path : list SessionEntry) : option (list SessionEntry) :=
  match cur with
  | None => Some path
  | Some id =>
      match fuel with
      | 0 => None
      | S fuel =>
          if bool_decide (id ∈ seen) then Some path
          else match idx !! id with
               | Some entry => walk_up fuel idx ({[id]} ∪ seen) (parent_id entry) (path ++ [entry])
               | None => Some path
               end
      end
  end.

(** Enough for any journal: see [walk_up_total]. *)
Definition walk_fuel (j : SessionJournal) : nat := S (S (length (entries j))).

Definition root_to_leaf (j : SessionJournal) : list SessionEntry :=
  reverse (default [] (walk_up (walk_fuel j) (index j) ∅ (leaf_id j) [])).

Definition active_messages (j : SessionJournal) (include_system : bool) : list Message :=
  omap (fun e => if negb include_system && negb (is_contextual (kind e)) then None else as_message (kind e))
    (root_to_leaf j).

Definition leaves (j : SessionJournal) : list SessionEntry :=
  let parents : gset EntryId := list_to_set (omap parent_id (entries j)) in
  List.filter (fun e => negb (bool_decide (entry_id e ∈ parents))) (entries j).

Definition journal_is_empty (j : SessionJournal) : bool := match entries j with [] => true | _ => false end.
Definition journal_len (j : SessionJournal) : nat := length (entries j).

(** The loop of [validate]. *)
Fixpoint check_parents (ids : gset EntryId) (es : list SessionEntry) : result unit (list N) :=
  match es with
  | [] => Ok tt
  | e :: es =>
      match parent_id e with
      | Some parent =>
          if negb (bool_decide (parent ∈ ids))
          then Err (lit "entry " ++ entry_id e ++ lit " missing parent " ++ parent)
          else check_parents ids es
      | None => check_parents ids es
      end
  end.

Definition validate (j : SessionJournal) : result unit (list N) :=
  let ids : gset EntryId := list_to_set (entry_id <$> entries j) in
  let? _ := check_parents ids (entries j) in
  match leaf_id j with
  | Some leaf => if negb (bool_decide (leaf ∈ ids)) then Err (lit "leaf " ++ leaf ++ lit " not found") else Ok tt
  | None => Ok tt
  end.

Definition from_messages (st : nat -> Stamp) (messages : list Message) (depth : N) : SessionJournal :=
  append_messages st (with_spawn_depth depth) messages.

Definition to_messages (j : SessionJournal) : list Message := active_messages j true.

(** How many entries of the active path are unchanged. *)
Fixpoint shared_prefix (path : list SessionEntry) (messages : list Message) : nat :=
  match path, messages with
  | e :: path, m :: messages =>
      if decide (as_message (kind e) = Some m) then S (shared_prefix path messages) else 0
  | _, _ => 0
  end.

Definition rebranch_active_messages (st : nat -> Stamp) (j : SessionJournal) (messages : list Message)
    : SessionJournal :=
  let active_path := root_to_leaf j in
  let shared := shared_prefix active_path messages in
  let j := set_leaf j (match shared with 0 => None | S i => entry_id <$> active_path !! i end) in
  append_messages st j (drop shared messages).

(** ** Export and import *)

Record SessionImportContainer : Type := {
  format_version : N;
  source : list N;
  metadata : option Redact.Json;
  c_entries : list SessionEntry;
  c_leaf_id : option EntryId;
  exported_at : N;
  c_spawn_depth : N
}.

Definition container_new (exported : N) (source : list N) (j : SessionJournal) (metadata : option Redact.Json)
    : SessionImportContainer :=
  {| format_version := CURRENT_JOURNAL_SCHEMA_VERSION; source := source; metadata := metadata;
     c_entries := entries j; c_leaf_id := leaf_id j; exported_at := exported; c_spawn_depth := spawn_depth j |}.

Definition into_journal (c : SessionImportContainer) : result SessionJournal (list N) :=
  let j := {| entries := c_entries c; leaf_id := c_leaf_id c; schema_version := format_version c;
              spawn_depth := c_spawn_depth c |} in
  let? _ := validate j in Ok j.

(** ** The tree as text *)

(** [│  ], [└─ ], [├─ ], [●] and [○]. *)
Definition bar : list N := [9474; 32; 32]%N.
Definition last_child : list N := [9492; 9472; 32]%N.
Definition middle_child : list N := [9500; 9472; 32]%N.
Definition filled : list N := [9679]%N.
Definition hollow : list N := [9675]%N.

Definition line_prefix (depth : nat) (is_last : bool) : list N :=
  match depth with
  | 0 => []
  | S d => concat (replicate d bar) ++ (if is_last then last_child else middle_child)
  end.

Definition marker (active_ids : gset EntryId) (leaf : option EntryId) (e : SessionEntry) : list N :=
  if bool_decide (Some (entry_id e) = leaf) then lit "*"
  else if bool_decide (entry_id e ∈ active_ids) then filled else hollow.

Definition block_text (b : ContentBlock) : option (list N) :=
  match b with Text text _ => Some text | _ => None end.

Definition kind_label (k : SessionEntryKind) : option (list N) :=
  match k with
  | KMessage message =>
      Some (role_as_str (role message) ++ lit ": " ++
            take 60 (str_join [c_space] (omap block_text (content message))))
  | KUser text => Some (lit "user: " ++ take 60 text)
  | KAssistant text => Some (lit "assistant: " ++ take 60 text)
  | KCompaction summary _ _ _ => Some (lit "compaction: " ++ take 60 summary)
  | KBranchSummary branch_id summary _ =>
      short ← byte_prefix (Nat.min (str_len branch_id) 8) branch_id;
      Some (lit "branch:" ++ short ++ lit " " ++ take 60 summary)
  | KSystem content => Some (lit "system: " ++ take 60 content)
  end.

Definition node_line (active_ids : gset EntryId) (leaf : option EntryId) (depth : nat) (is_last : bool)
    (e : SessionEntry) : option (list N) :=
  label ← kind_label (kind e);
  short ← short_id e;
  Some (line_prefix depth is_last ++ marker active_ids leaf e ++ lit " " ++ short ++ lit " [" ++
        entry_id e ++ lit "] " ++ label ++ [c_nl]).

(** What rendering comes to: text, a panic at a slice, or fuel that runs out. *)
Inductive rendering : Type := Rendered (out : list N) | Panicked | OutOfFuel.

Definition then_render (r : rendering) (k : list N -> rendering) : rendering :=
  match r with Rendered out => k out | other => other end.

(** [render_node]: the text it adds to [out]. *)
Fixpoint render_node (fuel : nat) (children : option EntryId -> list SessionEntry) (active_ids : gset EntryId)
    (leaf parent : option EntryId) (depth : nat) (out : list N) : rendering :=
  match fuel with
  | 0 => OutOfFuel
  | S fuel =>
      (fix go (nodes : list SessionEntry) (out : list N) : rendering :=
         match nodes with
         | [] => Rendered out
         | e :: rest =>
             match node_line active_ids leaf depth (match rest with [] => true | _ => false end) e with
             | None => Panicked
             | Some line =>
                 then_render (render_node fuel children active_ids leaf (Some (entry_id e)) (S depth) (out ++ line))
                   (go rest)
             end
         end) (children parent) out
  end.

Definition render_tree (fuel : nat) (j : SessionJournal) : rendering :=
  if journal_is_empty j then Rendered (lit "(empty session " ++ [8212]%N ++ lit " no entries yet)")
  else
    let active_ids : gset EntryId := list_to_set (entry_id <$> root_to_leaf j) in
    then_render (render_node fuel (children_of j) active_ids (leaf_id j) None 0 []) (fun out =>
    Rendered (match leaf_id j with
              | Some leaf_id =>
                  out ++ [c_nl] ++ lit "leaf: " ++ leaf_id ++ lit " (active, " ++
                  dec (N.of_nat (length (entries j))) ++ lit " entries)" ++ [c_nl]
              | None => out
              end)).

(** ** The journal of the protocol crate (crates/protocol/src/journal.rs)

    The same shape without the guard against cycles. *)

Record JournalEntry : Type := {
  je_id : list N;
  je_parent_id : option (list N);
  je_kind : list N;
  payload : Redact.Json;
  je_created_at : N
}.

Record Journal : Type := { j_entries : list JournalEntry; j_leaf_id : option (list N) }.

Definition protocol_new : Journal := {| j_entries := []; j_leaf_id := None |}.

Definition protocol_append (st : Stamp) (j : Journal) (k : list N) (p : Redact.Json) : Journal :=
  let id := lit "entry-" ++ uuid st in
  {| j_entries := j_entries j ++
       [{| je_id := id; je_parent_id := j_leaf_id j; je_kind := k; payload := p; je_created_at := now st |}];
     j_leaf_id := Some id |}.

Definition protocol_branch_to (j : Journal) (target : list N) : Journal * bool :=
  if existsb (fun e => str_eqb (je_id e) target) (j_entries j)
  then ({| j_entries := j_entries j; j_leaf_id := Some target |}, true)
  else (j, false).

Fixpoint protocol_walk (fuel : nat) (by_id : gmap (list N) JournalEntry) (cur : option (list N))
    (path : list JournalEntry) : option (list JournalEntry) :=
  match cur with
  | None => Some path
  | Some id =>
      match fuel with
      | 0 => None
      | S fuel =>
          match by_id !! id with
          | Some entry => protocol_walk fuel by_id (je_parent_id entry) (path ++ [entry])
          | None => Some path
          end
      end
  end.

(** [None] when the fuel runs out. *)
Definition active_path (fuel : nat) (j : Journal) : option (list JournalEntry) :=
  match j_leaf_id j with
  | None => Some []
  | Some leaf =>
      reverse <$> protocol_walk fuel (fold_left (fun m e => <[je_id e := e]> m) (j_entries j) ∅) (Some leaf) []
  end.

Definition protocol_get (j : Journal) (id : list N) : option JournalEntry :=
  List.find (fun e => str_eqb (je_id e) id) (j_entries j).

End SessionTree.
