(* ===== verification/SessionTreeFacts.v ===== *)
(** * The session journal is a tree that only grows

    [grown] is the shape of the entries, by rule: each entry is new and its parent is there
    before it. [path_to] is the chain of parents. The theorems say that every operation
    keeps the shape, that the walk to the root finds the chain, and what the operations on
    messages do to the active branch. *)

From stdpp Require Import base list option strings gmap.
From Stdlib Require Import Lia NArith.
From S2P Require Import Prelude RustStr RustNum Redact Transcript SessionTree.

Module SessionTreeFacts.
Import Transcript SessionTree.

(** ** The shape of a journal *)

Definition ids_of (es : list SessionEntry) : list (list N) := entry_id <$> es.

Definition known (es : list SessionEntry) (id : option (list N)) : Prop :=
  match id with None => True | Some i => i ∈ ids_of es end.

Inductive grown : list SessionEntry -> Prop :=
| grown_nil : grown []
| grown_snoc es e : grown es -> entry_id e ∉ ids_of es -> known es (parent_id e) -> grown (es ++ [e]).

Definition journal_ok (j : SessionJournal) : Prop := grown (entries j) /\ known (entries j) (leaf_id j).

(** The entries from the root to an entry, along the parents. *)
Inductive path_to (es : list SessionEntry) : option (list N) -> list SessionEntry -> Prop :=
| path_root : path_to es None []
| path_step e p : e ∈ es -> path_to es (parent_id e) p -> path_to es (Some (entry_id e)) (p ++ [e]).

#[local] Hint Constructors grown path_to : core.

Section Shape.
Implicit Types (es : list SessionEntry) (p : list SessionEntry) (cur : option (list N)).

Lemma ids_of_app es es' : ids_of (es ++ es') = ids_of es ++ ids_of es'.
Proof. apply fmap_app. Qed.

Lemma elem_ids_of es id : id ∈ ids_of es <-> exists e, e ∈ es /\ entry_id e = id.
Proof. unfold ids_of. rewrite list_elem_of_fmap. naive_solver. Qed.

Lemma known_mono es es' cur : (forall e, e ∈ es -> e ∈ es') -> known es cur -> known es' cur.
Proof. destruct cur; simpl; [|done]. rewrite !elem_ids_of. naive_solver. Qed.

Lemma known_app es es' cur : known es cur -> known (es ++ es') cur.
Proof. apply known_mono. intros e. rewrite elem_of_app. auto. Qed.

Lemma grown_nodup es : grown es -> NoDup (ids_of es).
Proof.
  induction 1 as [|es e Hg IH Hn _]; [constructor|]. rewrite ids_of_app.
  apply NoDup_app. simpl. split_and!; [done|set_solver|apply NoDup_singleton].
Qed.

Lemma grown_closed es e : grown es -> e ∈ es -> known es (parent_id e).
Proof.
  intros Hg. induction Hg as [|es e' Hg IH _ Hk]; [by intros ?%elem_of_nil|].
  intros [He| ->%list_elem_of_singleton]%elem_of_app; apply known_app; auto.
Qed.

Lemma path_mono es es' cur p : (forall e, e ∈ es -> e ∈ es') -> path_to es cur p -> path_to es' cur p.
Proof. intros Hsub. induction 1; eauto. Qed.

Lemma path_app es es' cur p : path_to es cur p -> path_to (es ++ es') cur p.
Proof. apply path_mono. intros e. rewrite elem_of_app. auto. Qed.

Lemma path_sub es cur p e : path_to es cur p -> e ∈ p -> e ∈ es.
Proof. induction 1; [by intros ?%elem_of_nil|]. rewrite elem_of_app, list_elem_of_singleton. naive_solver. Qed.

Lemma path_exists es cur : grown es -> known es cur -> exists p, path_to es cur p.
Proof.
  intros Hg. revert cur; induction Hg as [|es e Hg IH Hn Hk]; intros [id|] Hc; eauto.
  - simpl in Hc. by apply elem_of_nil in Hc.
  - simpl in Hc. rewrite ids_of_app, elem_of_app in Hc.
    destruct Hc as [Hc| ->%list_elem_of_singleton].
    + destruct (IH (Some id) Hc) as [p Hp]. eauto using path_app.
    + destruct (IH _ Hk) as [p Hp]. exists (p ++ [e]). constructor; [set_solver|by apply path_app].
Qed.

(** A path that starts in the older part stays there. *)
Lemma path_restrict es e cur p : grown es -> entry_id e ∉ ids_of es ->
  path_to (es ++ [e]) cur p -> known es cur -> path_to es cur p.
Proof.
  intros Hg Hn. induction 1 as [|e' p He Hp IH]; intros Hk; [constructor|].
  apply elem_of_app in He as [He| ->%list_elem_of_singleton]; [|done].
  constructor; [done|]. apply IH. by apply grown_closed.
Qed.

Lemma path_nodup es cur p : grown es -> path_to es cur p -> NoDup (ids_of p).
Proof.
  intros Hg. revert cur p; induction Hg as [|es e Hg IH Hn Hk]; intros cur p Hp.
  { inversion Hp as [|e p' He]; [constructor|]. by apply elem_of_nil in He. }
  destruct (decide (cur = Some (entry_id e))) as [->|Hne].
  - inversion Hp as [|e' p' He' Hp' Eid]; subst.
    assert (e' = e) as ->.
    { eapply (NoDup_fmap_elem entry_id); [by apply grown_nodup, (grown_snoc es e)|done|set_solver|done]. }
    assert (Hp2 : path_to es (parent_id e) p') by by eapply path_restrict.
    rewrite ids_of_app. apply NoDup_app. split_and!; [by eapply IH| |apply NoDup_singleton].
    intros x Hx. cbn. rewrite list_elem_of_singleton. intros ->. apply Hn.
    apply elem_ids_of in Hx as (x & Hx & E). apply elem_ids_of. eauto using path_sub.
  - eapply IH, path_restrict; eauto.
    destruct Hp as [|e' p' He']; [done|]. simpl. apply elem_ids_of.
    apply elem_of_app in He' as [?| ->%list_elem_of_singleton]; [eauto|done].
Qed.

Lemma path_unique es cur p q : grown es -> path_to es cur p -> path_to es cur q -> p = q.
Proof.
  intros Hg Hp. revert q; induction Hp as [|e p He Hp IH]; intros q Hq; inversion Hq as [|e' q' He' Hq' E]; [done|].
  assert (e' = e) as -> by (eapply (NoDup_fmap_elem entry_id); eauto using grown_nodup).
  by rewrite (IH q').
Qed.

Lemma path_length es cur p : grown es -> path_to es cur p -> length p <= length es.
Proof.
  intros Hg Hp. rewrite <- (length_fmap entry_id p), <- (length_fmap entry_id es).
  apply submseteq_length, NoDup_submseteq; [by eapply path_nodup|].
  intros x (e & -> & He)%list_elem_of_fmap. apply list_elem_of_fmap. eauto using path_sub.
Qed.

(** A prefix of a path is the path to its last entry. *)
Lemma path_prefix es cur p i e : path_to es cur p -> p !! i = Some e ->
  path_to es (Some (entry_id e)) (take (S i) p).
Proof.
  intros Hp. revert i e; induction Hp as [|e' p He' Hp IH]; intros i e Hi; [done|].
  destruct (decide (i < length p)) as [Hlt|Hge].
  - rewrite lookup_app_l in Hi by done. rewrite take_app_le by lia. by apply IH.
  - assert (i = length p) as ->.
    { apply lookup_lt_Some in Hi. rewrite length_app in Hi. simpl in Hi. lia. }
    rewrite lookup_app_r, Nat.sub_diag in Hi by done. simplify_eq/=.
    rewrite take_ge by (rewrite length_app; simpl; lia). by constructor.
Qed.

End Shape.

(** ** The walk *)

Section Walk.
Implicit Types (idx : gmap (list N) SessionEntry) (seen : gset (list N)).

Lemma index_spec (es : list SessionEntry) (m : gmap (list N) SessionEntry) (id : list N) :
  NoDup (ids_of es) ->
  fold_left (fun m e => <[entry_id e := e]> m) es m !! id =
  match List.find (fun e => str_eqb (entry_id e) id) es with Some e => Some e | None => m !! id end.
Proof.
  revert m; induction es as [|e es IH]; intros m Hn; simpl; [done|].
  apply NoDup_cons in Hn as [He Hn]. rewrite IH by done.
  destruct (str_eqb (entry_id e) id) eqn:E.
  - apply str_eqb_spec in E as <-. rewrite lookup_insert_eq.
    destruct (List.find _ es) eqn:Ef; [|done]. exfalso. apply He.
    apply find_some in Ef as [H1 H2%str_eqb_spec]. apply elem_ids_of. exists s.
    by rewrite list_elem_of_In.
  - rewrite lookup_insert_ne; [done|]. intros Hx. by rewrite (proj2 (str_eqb_spec _ _) Hx) in E.
Qed.

Lemma index_lookup j e : grown (entries j) -> e ∈ entries j -> index j !! entry_id e = Some e.
Proof.
  intros Hg He. unfold index. rewrite index_spec by by apply grown_nodup.
  destruct (List.find _ _) as [e'|] eqn:Ef.
  - apply find_some in Ef as [H1%list_elem_of_In H2%str_eqb_spec]. f_equal.
    eapply (NoDup_fmap_elem entry_id); [by apply grown_nodup|done..].
  - eapply find_none in Ef; [|by apply list_elem_of_In]. simpl in Ef.
    by rewrite (proj2 (str_eqb_spec _ _) eq_refl) in Ef.
Qed.

Lemma walk_up_path j fuel seen cur p acc : grown (entries j) -> path_to (entries j) cur p ->
  (forall e, e ∈ p -> entry_id e ∉ seen) -> length p < fuel ->
  walk_up fuel (index j) seen cur acc = Some (acc ++ reverse p).
Proof.
  intros Hg Hp. pose proof (path_nodup _ _ _ Hg Hp) as Hn. revert fuel seen acc Hn.
  induction Hp as [|e p He Hp IH]; intros fuel seen acc Hn Hs Hf.
  { destruct fuel; [lia|]. simpl. by rewrite app_nil_r. }
  rewrite length_app in Hf. simpl in Hf. destruct fuel as [|fuel]; [lia|]. simpl.
  rewrite bool_decide_eq_false_2 by (apply Hs; set_solver).
  rewrite index_lookup by done. rewrite ids_of_app in Hn. apply NoDup_app in Hn as (Hn & Hd & _).
  rewrite IH; [|done| |lia].
  - by rewrite reverse_app, <- app_assoc.
  - intros x Hx. assert (entry_id x <> entry_id e).
    { intros E. apply (Hd (entry_id x)); [apply elem_ids_of; eauto|]. rewrite E. set_solver. }
    specialize (Hs x). set_solver.
Qed.

(** In a well-formed journal the walk finds the whole chain of parents. *)
Lemma root_to_leaf_path j : journal_ok j -> path_to (entries j) (leaf_id j) (root_to_leaf j).
Proof.
  intros [Hg Hk]. destruct (path_exists _ _ Hg Hk) as [p Hp]. unfold root_to_leaf.
  rewrite (walk_up_path j _ ∅ _ p [] Hg Hp); [simpl; by rewrite reverse_involutive|set_solver|].
  apply path_length in Hp; [|done]. unfold walk_fuel. lia.
Qed.

Lemma root_to_leaf_unique j p : journal_ok j -> path_to (entries j) (leaf_id j) p -> root_to_leaf j = p.
Proof. intros Hj Hp. eapply path_unique; [apply Hj|by apply root_to_leaf_path|done]. Qed.

(** The walk ends on any journal, cyclic ones included. *)
Lemma walk_up_total idx fuel seen cur acc : seen ⊆ dom idx ->
  size (dom idx) - size seen < fuel -> is_Some (walk_up fuel idx seen cur acc).
Proof.
  revert seen cur acc; induction fuel as [|fuel IH]; intros seen cur acc Hs Hf; [lia|].
  simpl. destruct cur as [id|]; [|eauto]. case_bool_decide; [eauto|].
  destruct (idx !! id) as [e|] eqn:E; [|eauto].
  assert (Hid : id ∈ dom idx) by (apply elem_of_dom; eauto).
  assert (Hsz : size ({[id]} ∪ seen) = S (size seen)).
  { rewrite size_union by set_solver. by rewrite size_singleton. }
  assert (Hle : size ({[id]} ∪ seen) <= size (dom idx)) by (apply subseteq_size; set_solver).
  apply IH; [set_solver|lia].
Qed.

Lemma index_size (es : list SessionEntry) (m : gmap (list N) SessionEntry) :
  size (dom (fold_left (fun m e => <[entry_id e := e]> m) es m)) <= size (dom m) + length es.
Proof.
  revert m; induction es as [|e es IH]; intros m; simpl; [lia|].
  etransitivity; [apply IH|]. rewrite dom_insert_L.
  assert (size ({[entry_id e]} ∪ dom m) <= S (size (dom m))); [|lia].
  rewrite size_union_alt, size_singleton.
  assert (size (dom m ∖ {[entry_id e]}) <= size (dom m)) by (apply subseteq_size; set_solver). lia.
Qed.

Lemma root_to_leaf_total j : exists path,
  walk_up (walk_fuel j) (index j) ∅ (leaf_id j) [] = Some path /\ root_to_leaf j = reverse path.
Proof.
  destruct (walk_up_total (index j) (walk_fuel j) ∅ (leaf_id j) []) as [path Hp]; [set_solver| |].
  - pose proof (index_size (entries j) ∅) as H. rewrite dom_empty_L, size_empty in H.
    unfold walk_fuel, index. lia.
  - exists path. unfold root_to_leaf. by rewrite Hp.
Qed.

End Walk.

(** ** Messages of a path *)

(** Every kind of entry has a message. *)
Definition message_of (e : SessionEntry) : Message := default (text_message System []) (as_message (kind e)).

Lemma as_message_some e : as_message (kind e) = Some (message_of e).
Proof. unfold message_of. by destruct (kind e). Qed.

Lemma to_messages_path j : to_messages j = message_of <$> root_to_leaf j.
Proof.
  unfold to_messages, active_messages. induction (root_to_leaf j) as [|e p IH]; [done|].
  rewrite fmap_cons, <- IH. simpl. by rewrite as_message_some.
Qed.

(** ** Appending *)

Definition fresh_stamp (j : SessionJournal) (st : Stamp) : Prop := uuid st ∉ ids_of (entries j).

(** The first [n] stamps are new, and different from one another. *)
Definition fresh_stamps (j : SessionJournal) (st : nat -> Stamp) (n : nat) : Prop :=
  NoDup ((fun i => uuid (st i)) <$> seq 0 n) /\ forall i, i < n -> fresh_stamp j (st i).

(** The entry that an append adds. *)
Abbreviation new_entry st j k := (entry_new st k (leaf_id j) (spawn_depth j)).

Lemma append_ok st j k : journal_ok j -> fresh_stamp j st -> journal_ok (append st j k).
Proof.
  intros [Hg Hk] Hf. split; simpl; [by constructor|]. rewrite ids_of_app, elem_of_app. right. set_solver.
Qed.

Lemma append_path st j k : journal_ok j -> fresh_stamp j st ->
  root_to_leaf (append st j k) = root_to_leaf j ++ [new_entry st j k].
Proof.
  intros Hj Hf. apply root_to_leaf_unique; [by apply append_ok|]. simpl.
  apply (path_step _ (new_entry st j k)); [set_solver|]. simpl. by apply path_app, root_to_leaf_path.
Qed.

Lemma fresh_stamps_S j st n k : fresh_stamps j st (S n) ->
  fresh_stamp j (st 0) /\ fresh_stamps (append (st 0) j k) (fun i => st (S i)) n.
Proof.
  intros [Hn Hf]. simpl in Hn. apply NoDup_cons in Hn as [H0 Hn]. split; [apply Hf; lia|].
  rewrite <- fmap_S_seq, <- list_fmap_compose in Hn, H0. split; [exact Hn|].
  intros i Hi. unfold fresh_stamp. simpl. rewrite ids_of_app, not_elem_of_app.
  split; [apply (Hf (S i)); lia|]. cbn. rewrite list_elem_of_singleton. intros E. apply H0.
  rewrite <- E. apply list_elem_of_fmap. exists i. split; [done|]. apply elem_of_seq. lia.
Qed.

Lemma append_messages_spec ms : forall st j, journal_ok j -> fresh_stamps j st (length ms) ->
  let j' := append_messages st j ms in
  journal_ok j' /\ (exists es, entries j' = entries j ++ es /\ length es = length ms /\
    root_to_leaf j' = root_to_leaf j ++ es /\ message_of <$> es = ms) /\
  schema_version j' = schema_version j /\ spawn_depth j' = spawn_depth j.
Proof.
  induction ms as [|m ms IH]; intros st j Hj Hf; simpl.
  { split_and!; [done| |done..]. exists []. by rewrite !app_nil_r. }
  destruct (fresh_stamps_S j st (length ms) (KMessage m) Hf) as [H0 Hf'].
  destruct (IH _ (append_message (st 0) j m) (append_ok _ _ _ Hj H0) Hf')
    as (Hok & (es & E1 & E2 & E3 & E4) & Ev & Ed). split_and!; [done| |done..].
  exists (new_entry (st 0) j (KMessage m) :: es).
  rewrite fmap_cons, E1, E3, E4. unfold append_message. rewrite append_path by done. simpl.
  rewrite <- !app_assoc, E2. done.
Qed.



(** ** Moving the leaf *)

Lemma set_leaf_ok j cur : journal_ok j -> known (entries j) cur -> journal_ok (set_leaf j cur).
Proof. intros [Hg _] Hk. by split. Qed.

Lemma contains_spec j id : contains j id = true <-> id ∈ ids_of (entries j).
Proof.
  unfold contains. rewrite existsb_elem_of, elem_ids_of.
  split; intros (e & He & E); exists e; (split; [done|]); by apply str_eqb_spec.
Qed.

Lemma branch_to_ok j id j' : journal_ok j -> branch_to j id = Ok j' ->
  journal_ok j' /\ j' = set_leaf j (Some id) /\ id ∈ ids_of (entries j).
Proof.
  intros Hj. unfold branch_to. destruct (contains j id) eqn:E; [|done]. intros [= <-].
  apply contains_spec in E. split_and!; [by apply set_leaf_ok|done..].
Qed.

(** The leaf that keeps the first [n] entries of the active path. *)
Definition leaf_at (p : list SessionEntry) (n : nat) : option (list N) :=
  match n with 0 => None | S i => entry_id <$> p !! i end.

Lemma leaf_at_path j n : journal_ok j -> n <= length (root_to_leaf j) ->
  let j' := set_leaf j (leaf_at (root_to_leaf j) n) in
  journal_ok j' /\ root_to_leaf j' = take n (root_to_leaf j).
Proof.
  intros Hj Hn j'. assert (Hp : path_to (entries j) (leaf_at (root_to_leaf j) n) (take n (root_to_leaf j))).
  { destruct n as [|i]; [constructor|]. destruct (lookup_lt_is_Some_2 (root_to_leaf j) i) as [e He]; [lia|].
    simpl leaf_at. rewrite He. simpl. eapply path_prefix; [by apply root_to_leaf_path|done]. }
  assert (Hok : journal_ok j').
  { apply set_leaf_ok; [done|]. destruct Hp as [|e p He _]; [done|]. simpl. apply elem_ids_of. eauto. }
  split; [done|]. by apply root_to_leaf_unique.
Qed.

(** ** Rebranching *)

Lemma shared_prefix_spec p ms :
  shared_prefix p ms <= length p /\ shared_prefix p ms <= length ms /\
  take (shared_prefix p ms) (message_of <$> p) = take (shared_prefix p ms) ms /\
  forall n, n <= length p -> n <= length ms -> take n (message_of <$> p) = take n ms -> n <= shared_prefix p ms.
Proof.
  revert ms; induction p as [|e p IH]; intros [|m ms]; simpl; try (split_and!; [lia..|done|intros; lia]).
  rewrite as_message_some. case_decide as H.
  - simplify_eq. destruct (IH ms) as (H1 & H2 & H3 & H4). split_and!; [lia..| |].
    + simpl. by f_equal.
    + intros [|n] Hn1 Hn2 Ht; [lia|]. simplify_eq/=. apply le_n_S, H4; [lia..|done].
  - split_and!; [lia..|done|]. intros [|n] _ _ Ht; [lia|]. simpl in Ht. congruence.
Qed.

Lemma rebranch_spec st j ms (n := shared_prefix (root_to_leaf j) ms)
    (j' := rebranch_active_messages st j ms) :
  journal_ok j -> fresh_stamps j st (length ms - n) ->
  journal_ok j' /\ to_messages j' = ms /\
  (exists es, entries j' = entries j ++ es /\ length es = length ms - n /\
     root_to_leaf j' = take n (root_to_leaf j) ++ es) /\
  schema_version j' = schema_version j /\ spawn_depth j' = spawn_depth j.
Proof.
  intros Hj Hf. destruct (shared_prefix_spec (root_to_leaf j) ms) as (H1 & H2 & H3 & _).
  fold n in H1, H2, H3. destruct (leaf_at_path j n Hj H1) as [Hok Hp].
  set (j1 := set_leaf j (leaf_at (root_to_leaf j) n)) in *.
  assert (Hf1 : fresh_stamps j1 st (length (drop n ms))) by (rewrite length_drop; exact Hf).
  assert (Ej : j' = append_messages st j1 (drop n ms)) by done.
  destruct (append_messages_spec (drop n ms) st j1 Hok Hf1) as (Hok' & (es & E1 & E2 & E3 & E4) & Ev & Ed).
  rewrite <- Ej in *. clearbody j'. clear Ej. split_and!; [done| | |done|done].
  - rewrite to_messages_path, E3, Hp, fmap_app, E4, fmap_take, H3. apply take_drop.
  - exists es. rewrite length_drop in E2. rewrite E3, Hp. done.
Qed.

(** ** Validation, export and import *)

Lemma check_parents_ok (ids : gset (list N)) es :
  (forall e q, e ∈ es -> parent_id e = Some q -> q ∈ ids) <-> check_parents ids es = Ok tt.
Proof.
  induction es as [|e es IH]; simpl; [split; [done|]; by intros _ e q ?%elem_of_nil|].
  destruct (parent_id e) as [q|] eqn:Eq.
  - case_bool_decide as Hq; simpl; [rewrite <- IH|]; split; try done.
    + intros H e' q' He'. apply H. by right.
    + intros H e' q' [->|He']%elem_of_cons E'; [congruence|eauto].
    + intros H. destruct Hq. apply (H e q); [by left|done].
  - rewrite <- IH. split.
    + intros H e' q' He'. apply H. by right.
    + intros H e' q' [->|He']%elem_of_cons E'; [congruence|eauto].
Qed.

(** What [validate] does say. *)
Lemma validate_spec j : validate j = Ok tt <->
  (forall e, e ∈ entries j -> known (entries j) (parent_id e)) /\ known (entries j) (leaf_id j).
Proof.
  unfold validate. set (ids := list_to_set _ : gset (list N)).
  assert (Hids : forall i, i ∈ ids <-> i ∈ ids_of (entries j)) by (intros i; apply elem_of_list_to_set).
  transitivity (check_parents ids (entries j) = Ok tt /\ known (entries j) (leaf_id j)).
  - destruct (check_parents ids (entries j)) as [[]|]; simpl; [|naive_solver].
    destruct (leaf_id j) as [l|]; simpl; [|naive_solver]. rewrite <- Hids.
    case_bool_decide; simpl; naive_solver.
  - rewrite <- check_parents_ok. split; intros [H1 H2]; (split; [|done]).
    + intros e He. destruct (parent_id e) as [q|] eqn:E; [|done]. simpl. apply Hids. eauto.
    + intros e q He E. specialize (H1 e He). rewrite E in H1. by apply Hids.
Qed.

Lemma journal_ok_valid j : journal_ok j -> validate j = Ok tt.
Proof. intros [Hg Hk]. apply validate_spec. eauto using grown_closed. Qed.

Lemma container_roundtrip now src md j : journal_ok j -> schema_version j = CURRENT_JOURNAL_SCHEMA_VERSION ->
  into_journal (container_new now src j md) = Ok j.
Proof.
  intros Hj Hv. unfold into_journal. simpl. rewrite <- Hv.
  assert (E : {| entries := entries j; leaf_id := leaf_id j; schema_version := schema_version j;
    spawn_depth := spawn_depth j |} = j) by by destruct j.
  rewrite E. by rewrite journal_ok_valid.
Qed.

(** ** Histories of a journal *)

(** What can happen to a journal. A fork goes on with the copy; an export is read back by
    another process. *)
Inductive step : SessionJournal -> SessionJournal -> Prop :=
| step_append st j k : fresh_stamp j st -> step j (append st j k)
| step_branch j id j' : branch_to j id = Ok j' -> step j j'
| step_fork j from j' : fork_from j from = Ok j' -> step j j'
| step_rebranch st j ms : fresh_stamps j st (length ms) -> step j (rebranch_active_messages st j ms)
| step_transfer now src md j j' : into_journal (container_new now src j md) = Ok j' -> step j j'.

Lemma fresh_stamps_le j st n k : k <= n -> fresh_stamps j st n -> fresh_stamps j st k.
Proof.
  intros Hk [Hn Hf]. split; [|intros; apply Hf; lia].
  replace n with (k + (n - k)) in Hn by lia. rewrite seq_app, fmap_app in Hn. by apply NoDup_app in Hn as [? _].
Qed.

Lemma fork_from_ok j from j' : journal_ok j -> fork_from j from = Ok j' ->
  journal_ok j' /\ entries j' = entries j /\ schema_version j' = schema_version j /\
  leaf_id j' = match from with Some id => Some id | None => leaf_id j end.
Proof.
  intros [Hg Hk]. unfold fork_from. destruct from as [id|].
  - destruct (contains j id) eqn:E; simpl; [|done]. intros [= <-]. apply contains_spec in E. by repeat split.
  - intros [= <-]. by repeat split.
Qed.

Lemma step_ok j j' : journal_ok j -> step j j' ->
  journal_ok j' /\ (exists es, entries j' = entries j ++ es) /\
  (schema_version j = CURRENT_JOURNAL_SCHEMA_VERSION -> schema_version j' = CURRENT_JOURNAL_SCHEMA_VERSION).
Proof.
  intros Hj Hs. destruct Hs as [st j k Hf|j id j' Hb|j from j' Hb|st j ms Hf|now src md j j' Hi].
  - split_and!; [by apply append_ok|by eexists|done].
  - apply branch_to_ok in Hb as (Hok & -> & _); [|done]. split_and!; [done| |done].
    exists []. simpl. by rewrite app_nil_r.
  - apply fork_from_ok in Hb as (Hok & He & Hv & _); [|done]. split_and!; [done| |congruence].
    exists []. by rewrite app_nil_r.
  - destruct (rebranch_spec st j ms Hj) as (Hok & _ & (es & E & _) & Hv & _).
    { eapply fresh_stamps_le, Hf. lia. }
    split_and!; [done|by exists es|congruence].
  - unfold into_journal in Hi. destruct (validate _); simplify_eq/=. destruct Hj as [Hg Hk].
    split_and!; [done| |done]. exists []. simpl. by rewrite app_nil_r.
Qed.

Lemma steps_ok j j' : rtc step j j' -> journal_ok j ->
  journal_ok j' /\ (exists es, entries j' = entries j ++ es).
Proof.
  induction 1 as [j|j1 j2 j3 Hs _ IH]; intros Hj; [split; [done|]; exists []; by rewrite app_nil_r|].
  destruct (step_ok _ _ Hj Hs) as (H1 & [es1 E1] & _). destruct (IH H1) as [H2 [es2 E2]].
  split; [done|]. exists (es1 ++ es2). by rewrite E2, E1, <- app_assoc.
Qed.

Lemma with_spawn_depth_ok d : journal_ok (with_spawn_depth d).
Proof. by repeat constructor. Qed.

End SessionTreeFacts.
