(* ===== verification/SavedSession.v ===== *)
(** * Saved sessions (crates/tui/src/session_manager.rs)

    A saved session keeps the journal and, beside it, the messages of the active branch.
    The fields that the operations here only carry along are one value of a type [R], in the
    metadata and in the session. A session on disk is the value that is serialized. *)

From stdpp Require Import base list option strings gmap.
From Stdlib Require Import Lia NArith.
From S2P Require Import Prelude RustStr RustNum Redact Transcript HistoryRepair SessionTree.

Module SavedSession.
Import Transcript HistoryRepair SessionTree.

Definition CURRENT_SESSION_SCHEMA_VERSION : N := 1.

Record SystemBlock : Type := {
  block_type : list N; block_prompt : list N; block_cache_control : option CacheControl }.
Inductive SystemPrompt : Type := PromptText (text : list N) | PromptBlocks (blocks : list SystemBlock).

(** ["\n\n---\n\n"]. *)
Definition prompt_separator : list N := [c_nl; c_nl] ++ lit "---" ++ [c_nl; c_nl].

Definition system_prompt_to_string (p : option SystemPrompt) : option (list N) :=
  match p with
  | Some (PromptText text) => Some text
  | Some (PromptBlocks blocks) => Some (str_join prompt_separator (block_prompt <$> blocks))
  | None => None
  end.

Definition strip_legacy_truncation_note (system_prompt : option (list N)) : option (list N) :=
  sp ← system_prompt;
  match strip_prefix (lit "[Session note]" ++ [c_nl]) sp with
  | None => Some sp
  | Some trimmed =>
      if negb (str_contains (lit "older messages were dropped") trimmed) then Some sp
      else snd <$> split_once_str prompt_separator trimmed
  end.

Section Sessions.
Context {R : Type}.

Record SessionMetadata : Type := {
  message_count : nat;
  total_tokens : N;
  meta_spawn_depth : N;
  updated_at : N;
  meta_rest : R
}.

Record Saved : Type := {
  s_schema_version : N;
  s_metadata : SessionMetadata;
  messages : list Message;
  journal : option SessionJournal;
  s_leaf_id : option EntryId;
  system_prompt : option (list N);
  s_rest : R
}.

Implicit Types (s : Saved) (st : nat -> Stamp).

Definition set_message_count (n : nat) (m : SessionMetadata) : SessionMetadata :=
  {| message_count := n; total_tokens := total_tokens m; meta_spawn_depth := meta_spawn_depth m;
     updated_at := updated_at m; meta_rest := meta_rest m |}.

Definition set_updated_at (t : N) (m : SessionMetadata) : SessionMetadata :=
  {| message_count := message_count m; total_tokens := total_tokens m;
     meta_spawn_depth := meta_spawn_depth m; updated_at := t; meta_rest := meta_rest m |}.

Definition set_messages (ms : list Message) s : Saved :=
  {| s_schema_version := s_schema_version s; s_metadata := s_metadata s; messages := ms;
     journal := journal s; s_leaf_id := s_leaf_id s; system_prompt := system_prompt s; s_rest := s_rest s |}.

Definition set_metadata (m : SessionMetadata) s : Saved :=
  {| s_schema_version := s_schema_version s; s_metadata := m; messages := messages s;
     journal := journal s; s_leaf_id := s_leaf_id s; system_prompt := system_prompt s; s_rest := s_rest s |}.

(** The journal and its leaf beside it. *)
Definition set_journal (j : SessionJournal) s : Saved :=
  {| s_schema_version := s_schema_version s; s_metadata := s_metadata s; messages := messages s;
     journal := Some j; s_leaf_id := leaf_id j; system_prompt := system_prompt s; s_rest := s_rest s |}.

(** ** Saving *)

Definition compact_for_persistence_queue s : Saved :=
  match journal s with Some _ => set_messages [] s | None => s end.

Definition storage_compatible_copy st s : option Saved :=
  j ← journal s;
  let active := to_messages j in
  if negb (empty_list (messages s)) && bool_decide (messages s = active) then None
  else
    let copy :=
      if empty_list (messages s) then set_messages active s
      else set_journal (rebranch_active_messages st j (messages s)) s in
    Some (set_metadata (set_message_count (length (messages copy)) (s_metadata copy)) copy).

(** What [serialize_saved_session] writes. *)
Definition stored st s : Saved := default s (storage_compatible_copy st s).

(** ** Loading *)

Definition ensure_journal st s : Saved :=
  match journal s with
  | Some j =>
      let s := match s_leaf_id s with
               | None => {| s_schema_version := s_schema_version s; s_metadata := s_metadata s;
                            messages := messages s; journal := journal s; s_leaf_id := leaf_id j;
                            system_prompt := system_prompt s; s_rest := s_rest s |}
               | Some _ => s
               end in
      let active := to_messages j in
      if negb (empty_list active)
      then set_metadata (set_message_count (length active) (s_metadata s)) (set_messages active s)
      else s
  | None => set_journal (from_messages st (messages s) (meta_spawn_depth (s_metadata s))) s
  end.

(** Why a file does not load: a newer version wrote it, or the approval receipts of the
    session cannot be read or do not replay. *)
Inductive LoadError : Type := NewerSchema (version : N) | BadReceipts.

(** The approval receipts, which are part of [s_rest], come from a file beside the session:
    [hydrate] gives the rest of the session with them, from the metadata and the rest. *)
Definition hydrate_approval_receipts (hydrate : R -> R -> option R) s : result Saved LoadError :=
  match hydrate (meta_rest (s_metadata s)) (s_rest s) with
  | None => Err BadReceipts
  | Some rest =>
      Ok {| s_schema_version := s_schema_version s; s_metadata := s_metadata s; messages := messages s;
            journal := journal s; s_leaf_id := s_leaf_id s; system_prompt := system_prompt s; s_rest := rest |}
  end.

(** The session a file holds. *)
Definition load_session_snapshot (hydrate : R -> R -> option R) st (file : Saved) : result Saved LoadError :=
  if (CURRENT_SESSION_SCHEMA_VERSION <? s_schema_version file)%N then Err (NewerSchema (s_schema_version file))
  else hydrate_approval_receipts hydrate (ensure_journal st
    {| s_schema_version := s_schema_version file; s_metadata := s_metadata file;
       messages := messages file; journal := journal file; s_leaf_id := s_leaf_id file;
       system_prompt := strip_legacy_truncation_note (system_prompt file); s_rest := s_rest file |}).

(** The repaired session and whether anything changed. [st1] stamps a new journal, [st2]
    the entries of the repaired branch. *)
Definition recover_session_for_resume (hydrate : R -> R -> option R) st1 st2 (file : Saved)
    : result (Saved * bool) LoadError :=
  let? s := load_session_snapshot hydrate st1 file in
  let r := repair_tool_call_pairs (messages s) in
  let changed := negb (receipt_is_empty r.2) in
  let s := set_messages r.1 s in
  Ok (if changed
      then let s := match journal s with
                    | Some j => set_journal (rebranch_active_messages st2 j (messages s)) s
                    | None => s
                    end in
           set_metadata (set_message_count (length (messages s)) (s_metadata s)) s
      else s, changed).

(** ** Changing *)

Definition journal_append_message st (st' : Stamp) (time : N) s (message : Message) : Saved :=
  let s := ensure_journal st s in
  match journal s with
  | Some j =>
      let j := append_message st' j message in
      let s := set_messages (to_messages j) (set_journal j s) in
      set_metadata (set_updated_at time (set_message_count (length (messages s)) (s_metadata s))) s
  | None => s
  end.

(** The session it leaves and the result; an error leaves the ensured journal. *)
Definition journal_branch_to st (time : N) s (id : EntryId) : Saved * result unit (list N) :=
  let s := ensure_journal st s in
  match journal s with
  | Some j =>
      match branch_to j id with
      | Ok j => (set_metadata (set_updated_at time (s_metadata s)) (set_messages (to_messages j) (set_journal j s)), Ok tt)
      | Err e => (s, Err e)
      end
  | None => (s, Ok tt)
  end.

Definition active_entries s : list SessionEntry :=
  match journal s with Some j => root_to_leaf j | None => [] end.

Definition export_container st (time : N) (source : list N) (md : option Redact.Json) s : SessionImportContainer :=
  container_new time source
    (match journal s with
     | Some j => j
     | None => from_messages st (messages s) (meta_spawn_depth (s_metadata s))
     end) md.

(** [rest] and [rest'] are the id, title and times, and the empty evidence, of the new session. *)
Definition import_foreign (time : N) (rest rest' : R) (c : SessionImportContainer) : result Saved (list N) :=
  let? j := into_journal c in
  let ms := to_messages j in
  let depth := u32_saturating_succ (spawn_depth j) in
  Ok {| s_schema_version := CURRENT_SESSION_SCHEMA_VERSION;
        s_metadata := {| message_count := length ms; total_tokens := 0; meta_spawn_depth := depth;
                         updated_at := time; meta_rest := rest |};
        messages := ms;
        journal := Some {| entries := entries j; leaf_id := leaf_id j;
                           schema_version := schema_version j; spawn_depth := depth |};
        s_leaf_id := leaf_id j; system_prompt := None; s_rest := rest' |}.

Definition create_saved_session st (time : N) (rest rest' : R) (ms : list Message) (tokens : N)
    (prompt : option SystemPrompt) : Saved :=
  let j := from_messages st ms 0 in
  {| s_schema_version := CURRENT_SESSION_SCHEMA_VERSION;
     s_metadata := {| message_count := length ms; total_tokens := tokens; meta_spawn_depth := 0;
                      updated_at := time; meta_rest := rest |};
     messages := ms; journal := Some j; s_leaf_id := leaf_id j;
     system_prompt := system_prompt_to_string prompt; s_rest := rest' |}.

(** The length of the common prefix of two lists of messages. *)
Fixpoint common_prefix (a b : list Message) : nat :=
  match a, b with
  | x :: a, y :: b => if decide (x = y) then S (common_prefix a b) else 0
  | _, _ => 0
  end.

(** The leaf from which [update_session] goes on when the history was rewritten. *)
Definition update_leaf (j : SessionJournal) (common : nat) : SessionJournal :=
  if (0 <? common) && (common <=? length (entries j)) then
    match entry_id <$> root_to_leaf j !! (common - 1) with
    | Some target => match branch_to j target with Ok j => j | Err _ => j end
    | None => set_leaf j None
    end
  else if common =? 0 then set_leaf j (match entries j with e :: _ => parent_id e | [] => None end)
  else j.

Definition update_journal st s (ms : list Message) : Saved :=
  let old_len := length (messages s) in
  match journal s with
  | Some j =>
      if (old_len <=? length ms) && bool_decide (take old_len ms = messages s)
      then set_journal (append_messages st j (drop old_len ms)) s
      else if negb (length ms =? old_len) || negb (bool_decide (ms = messages s))
      then let common := common_prefix ms (messages s) in
           set_journal (append_messages st (update_leaf j common) (drop common ms)) s
      else s
  | None => s
  end.

Definition update_session st1 st2 (time : N) s (ms : list Message) (tokens : N) (prompt : option SystemPrompt)
    : Saved :=
  let s := update_journal st2 (ensure_journal st1
    {| s_schema_version := CURRENT_SESSION_SCHEMA_VERSION; s_metadata := s_metadata s;
       messages := messages s; journal := journal s; s_leaf_id := s_leaf_id s;
       system_prompt := system_prompt s; s_rest := s_rest s |}) ms in
  {| s_schema_version := s_schema_version s;
     s_metadata := {| message_count := length ms; total_tokens := tokens;
                      meta_spawn_depth := meta_spawn_depth (s_metadata s); updated_at := time;
                      meta_rest := meta_rest (s_metadata s) |};
     messages := ms; journal := journal s; s_leaf_id := s_leaf_id s;
     system_prompt := system_prompt_to_string prompt; s_rest := s_rest s |}.

(** ** Forking (crates/tui/src/commands/groups/session/session.rs)

    The session that [/fork] saves; [rest] and [rest'] are what it copies or makes anew. *)
Definition fork_session st1 st2 (time : N) (rest rest' : R) s : Saved :=
  let source := ensure_journal st1 s in
  let j := match journal source with
           | Some j => j
           | None => from_messages st1 (messages source) (meta_spawn_depth (s_metadata source))
           end in
  let forked := match fork_from j None with
                | Ok j => j
                | Err _ => with_spawn_depth (u32_saturating_succ (meta_spawn_depth (s_metadata source)))
                end in
  let ms := to_messages forked in
  let created := create_saved_session st2 time rest rest' ms (total_tokens (s_metadata source))
                   (PromptText <$> system_prompt source) in
  set_metadata
    {| message_count := message_count (s_metadata created); total_tokens := total_tokens (s_metadata created);
       meta_spawn_depth := spawn_depth forked; updated_at := updated_at (s_metadata created);
       meta_rest := meta_rest (s_metadata created) |}
    (set_messages ms (set_journal forked created)).

End Sessions.
End SavedSession.
