(* ===== verification/JournalTheorems.v ===== *)
(** * Theorems on journals and saved sessions *)

From stdpp Require Import base list option strings gmap relations.
From Stdlib Require Import Lia NArith.
From S2P Require Import Prelude RustStr RustNum Redact Transcript HistoryRepair.
From S2P Require Import HistoryRepairTheorems SessionTree SessionTreeFacts SavedSession.

(** * A saved session and its journal agree

    The messages of a session are the projection of its journal's active branch, whatever
    sequence of updates, branches, forks, saves, loads, recoveries and transfers led to
    it, and its history only grows. *)

Module SavedSessionFacts.
Import Transcript HistoryRepair HistoryRepairFacts HistoryRepairTheorems SessionTree SessionTreeFacts SavedSession.

Section Facts.
Context {R : Type}.
Implicit Types (s : Saved (R := R)) (st : nat -> Stamp).

(** A session with the journal [j]. *)
Definition has_journal (j : SessionJournal) s : Prop :=
  journal s = Some j /\ journal_ok j /\ schema_version j = CURRENT_JOURNAL_SCHEMA_VERSION /\
  s_leaf_id s = leaf_id j /\ s_schema_version s = CURRENT_SESSION_SCHEMA_VERSION.

(** The session and the journal agree. *)
Definition agrees (j : SessionJournal) s : Prop := has_journal j s /\ messages s = to_messages j.

Lemma from_messages_ok st ms d : fresh_stamps (with_spawn_depth d) st (length ms) ->
  journal_ok (from_messages st ms d) /\ to_messages (from_messages st ms d) = ms /\
  schema_version (from_messages st ms d) = CURRENT_JOURNAL_SCHEMA_VERSION /\
  spawn_depth (from_messages st ms d) = d.
Proof.
  intros Hf. destruct (append_messages_spec ms st _ (with_spawn_depth_ok d) Hf)
    as (Hok & (es & E1 & E2 & E3 & E4) & Ev & Ed).
  fold (from_messages st ms d) in *. split_and!; [done| |done|done].
  rewrite to_messages_path, E3, fmap_app, E4. done.
Qed.

Lemma ensure_journal_some st s j : journal s = Some j ->
  journal (ensure_journal st s) = Some j /\
  s_schema_version (ensure_journal st s) = s_schema_version s /\
  s_leaf_id (ensure_journal st s) = (match s_leaf_id s with None => leaf_id j | l => l end) /\
  messages (ensure_journal st s) = (if empty_list (to_messages j) then messages s else to_messages j).
Proof.
  intros Hj. unfold ensure_journal. rewrite Hj.
  destruct (s_leaf_id s) eqn:El, (empty_list (to_messages j)); simpl; rewrite ?Hj, ?El; done.
Qed.

Lemma ensure_agrees st s j : agrees j s -> agrees j (ensure_journal st s).
Proof.
  intros [(Hj & Hok & Hv & Hl & Hs) Hm].
  destruct (ensure_journal_some st s j Hj) as (E1 & E2 & E3 & E4).
  split; [repeat split; try done; try apply Hok; try congruence|].
  - rewrite E3, Hl. by destruct (leaf_id j).
  - rewrite E4, Hm. by destruct (to_messages j).
Qed.

Ltac agree := split; [split; [|split; [|split; [|split]]]|]; simpl; try done; try congruence.

(** ** Updates *)

Lemma grown_first e es : grown (e :: es) -> parent_id e = None.
Proof.
  remember (e :: es) as l eqn:E. intros Hg. revert e es E.
  induction Hg as [|l e' Hg IH Hn Hk]; intros e es E; [done|].
  destruct l as [|e0 l]; simplify_eq/=; [|by eapply IH].
  destruct (parent_id e); [by apply elem_of_nil in Hk|done].
Qed.

Lemma common_prefix_spec (a b : list Message) :
  common_prefix a b <= length a /\ common_prefix a b <= length b /\
  take (common_prefix a b) a = take (common_prefix a b) b.
Proof.
  revert b; induction a as [|x a IH]; intros [|y b]; simpl; try (split_and!; [lia..|done]).
  case_decide; [|split_and!; [lia..|done]]. subst. destruct (IH b) as (H1 & H2 & H3).
  split_and!; [lia..|]. simpl. by rewrite H3.
Qed.

Lemma update_leaf_spec j n : journal_ok j -> n <= length (root_to_leaf j) ->
  update_leaf j n = set_leaf j (leaf_at (root_to_leaf j) n).
Proof.
  intros Hj Hn. pose proof (path_length _ _ _ (proj1 Hj) (root_to_leaf_path j Hj)) as Hlen.
  unfold update_leaf. destruct n as [|i]; simpl.
  - f_equal. destruct (entries j) as [|e es] eqn:E; [done|]. apply grown_first with es.
    rewrite <- E. apply Hj.
  - assert (Hle : (S i <=? length (entries j)) = true) by (apply Nat.leb_le; lia).
    simpl in Hle. rewrite Hle, Nat.sub_0_r.
    destruct (lookup_lt_is_Some_2 (root_to_leaf j) i) as [e He]; [lia|]. rewrite He. simpl.
    unfold branch_to. rewrite (proj2 (contains_spec j (entry_id e))); [done|].
    apply elem_ids_of. exists e. split; [|done].
    eapply path_sub; [by apply root_to_leaf_path|]. by eapply list_elem_of_lookup_2.
Qed.

Lemma to_messages_length j : length (to_messages j) = length (root_to_leaf j).
Proof. by rewrite to_messages_path, length_fmap. Qed.

(** Going on from the first [n] messages of the branch. *)
Lemma extend_branch st j n ms : journal_ok j -> n <= length (root_to_leaf j) -> n <= length ms ->
  take n (to_messages j) = take n ms -> fresh_stamps j st (length ms - n) ->
  let j' := append_messages st (set_leaf j (leaf_at (root_to_leaf j) n)) (drop n ms) in
  journal_ok j' /\ to_messages j' = ms /\ (exists es, entries j' = entries j ++ es) /\
  schema_version j' = schema_version j /\ spawn_depth j' = spawn_depth j.
Proof.
  intros Hj Hn Hm Ht Hf. destruct (leaf_at_path j n Hj Hn) as [Hok Hp].
  set (j1 := set_leaf j (leaf_at (root_to_leaf j) n)) in *.
  assert (Hf1 : fresh_stamps j1 st (length (drop n ms))) by (rewrite length_drop; exact Hf).
  destruct (append_messages_spec (drop n ms) st j1 Hok Hf1) as (Hok' & (es & E1 & E2 & E3 & E4) & Ev & Ed).
  split_and!; [done| |by exists es|done|done].
  rewrite to_messages_path, E3, Hp, fmap_app, E4, fmap_take, <- to_messages_path, Ht. apply take_drop.
Qed.

Lemma leaf_at_all j : journal_ok j -> set_leaf j (leaf_at (root_to_leaf j) (length (root_to_leaf j))) = j.
Proof.
  intros Hj. pose proof (root_to_leaf_path j Hj) as Hp. unfold set_leaf.
  assert (E : leaf_at (root_to_leaf j) (length (root_to_leaf j)) = leaf_id j).
  { inversion Hp as [|e p He Hp' E1 E2]; [done|]. rewrite length_app. simpl.
    rewrite Nat.add_1_r. simpl. by rewrite lookup_app_r, Nat.sub_diag by done. }
  rewrite E. by destruct j.
Qed.

Lemma update_journal_spec st s j ms : agrees j s -> fresh_stamps j st (length ms) ->
  exists j', has_journal j' (update_journal st s ms) /\ to_messages j' = ms /\
    exists es, entries j' = entries j ++ es.
Proof.
  intros [(Hj & Hok & Hv & Hl & Hs) Hm] Hf. unfold update_journal. rewrite Hj.
  assert (Hgo : forall n, n <= length (root_to_leaf j) -> n <= length ms ->
    take n (to_messages j) = take n ms ->
    let j' := append_messages st (set_leaf j (leaf_at (root_to_leaf j) n)) (drop n ms) in
    has_journal j' (set_journal j' s) /\ to_messages j' = ms /\ exists es, entries j' = entries j ++ es).
  { intros n H1 H2 H3 j'. destruct (extend_branch st j n ms Hok H1 H2 H3) as (K1 & K2 & K3 & K4 & K5).
    { eapply fresh_stamps_le, Hf. lia. }
    split_and!; [|done|done]. split; [|split; [|split; [|split]]]; simpl; try done. exact (eq_trans K4 Hv). }
  destruct ((length (messages s) <=? length ms) && bool_decide (take (length (messages s)) ms = messages s)) eqn:E1.
  - apply andb_true_iff in E1 as [E1%Nat.leb_le E2%bool_decide_eq_true].
    rewrite Hm in E1, E2 |- *. rewrite to_messages_length in *.
    destruct (Hgo (length (root_to_leaf j))) as (G1 & G2 & G3); [lia|lia| |].
    + rewrite E2. apply take_ge. by rewrite to_messages_length.
    + rewrite leaf_at_all in G1, G2, G3 by done. eauto.
  - destruct (common_prefix_spec ms (messages s)) as (H1 & H2 & H3).
    assert (E3 : negb (length ms =? length (messages s)) || negb (bool_decide (ms = messages s)) = true).
    { destruct (decide (ms = messages s)) as [->|Hne].
      - rewrite Nat.leb_refl, take_ge in E1 by lia. by rewrite bool_decide_eq_true_2 in E1.
      - rewrite (bool_decide_eq_false_2 _ Hne). apply orb_true_r. }
    rewrite E3. rewrite Hm in H1, H2, H3 |- *. rewrite to_messages_length in H2.
    rewrite update_leaf_spec by done.
    destruct (Hgo (common_prefix ms (to_messages j))) as (G1 & G2 & G3); [done|done|by symmetry|]. eauto.
Qed.

Lemma update_session_spec st1 st2 t s j ms tokens prompt : agrees j s -> fresh_stamps j st2 (length ms) ->
  exists j', agrees j' (update_session st1 st2 t s ms tokens prompt) /\
    messages (update_session st1 st2 t s ms tokens prompt) = ms /\
    message_count (s_metadata (update_session st1 st2 t s ms tokens prompt)) = length ms /\
    exists es, entries j' = entries j ++ es.
Proof.
  intros Ha Hf. unfold update_session. set (s0 := {| s_schema_version := CURRENT_SESSION_SCHEMA_VERSION; s_metadata := s_metadata s |}).
  assert (H0 : agrees j s0). { destruct Ha as [(? & Hok & ? & ? & ?) ?]. subst s0. agree. }
  apply (ensure_agrees st1) in H0.
  destruct (update_journal_spec st2 _ j ms H0 Hf) as (j' & (K1 & K2 & K3 & K4 & K5) & Hm & Hes).
  exists j'. split_and!; [|done..]. split; [|done]. split_and!; done.
Qed.

(** ** Single changes *)

Lemma journal_append_spec st (st' : Stamp) t s j m : agrees j s -> fresh_stamp j st' ->
  agrees (append_message st' j m) (journal_append_message st st' t s m).
Proof.
  intros Ha Hf. apply (ensure_agrees st) in Ha. unfold journal_append_message.
  destruct Ha as [(-> & Hok & Hv & Hl & Hs) Hm]. agree. by apply append_ok.
Qed.

Lemma journal_branch_spec st t s j id : agrees j s ->
  exists j', agrees j' (journal_branch_to st t s id).1 /\ entries j' = entries j.
Proof.
  intros Ha. apply (ensure_agrees st) in Ha. unfold journal_branch_to.
  destruct (Ha) as [(-> & Hok & Hv & Hl & Hs) Hm].
  destruct (branch_to j id) as [j'|] eqn:E; [|by exists j].
  apply branch_to_ok in E as (Hok' & -> & _); [|done].
  exists (set_leaf j (Some id)). split; [|done]. agree.
Qed.

(** ** Saving and loading *)

(** What a writer may do to a session before it is saved: hand it to the queue, which drops
    the messages, or give it other messages than the branch has. *)
Inductive edited j : Saved (R := R) -> Prop :=
| edited_same s : agrees j s -> edited j s
| edited_compact s : agrees j s -> edited j (compact_for_persistence_queue s)
| edited_messages s ms : agrees j s -> ms <> [] -> edited j (set_messages ms s).

(** The messages that an edited session stands for. *)
Definition meant (j : SessionJournal) s : list Message :=
  if empty_list (messages s) then to_messages j else messages s.

Lemma edited_has_journal j s : edited j s -> has_journal j s.
Proof.
  destruct 1 as [s [H _]|s [H _]|s ms [H _]]; [done| |].
  - unfold compact_for_persistence_queue. destruct H as (Hj & H). by rewrite Hj.
  - done.
Qed.

Lemma stored_spec st s j : has_journal j s -> fresh_stamps j st (length (messages s)) ->
  exists j', agrees j' (stored st s) /\ messages (stored st s) = meant j s /\
    exists es, entries j' = entries j ++ es.
Proof.
  intros (Hj & Hok & Hv & Hl & Hs) Hf. unfold stored, storage_compatible_copy. rewrite Hj. simpl.
  unfold meant. destruct (messages s) as [|m ms] eqn:Em; simpl.
  - exists j. split_and!; [agree|done|by exists []; rewrite app_nil_r].
  - case_bool_decide as Hb; simpl.
    + exists j. split_and!; [|done|by exists []; rewrite app_nil_r]. split; [done|]. congruence.
    + destruct (rebranch_spec st j (m :: ms) Hok) as (K1 & K2 & (es & K3 & _) & K4 & _).
      { eapply fresh_stamps_le, Hf. lia. }
      exists (rebranch_active_messages st j (m :: ms)). split_and!; [|done|by exists es].
      agree.
Qed.

(** The receipts of a session can be read. *)
Definition hydrates (hydrate : R -> R -> option R) s : Prop :=
  is_Some (hydrate (meta_rest (s_metadata s)) (s_rest s)).

Lemma ensure_rest st s :
  s_rest (ensure_journal st s) = s_rest s /\
  meta_rest (s_metadata (ensure_journal st s)) = meta_rest (s_metadata s).
Proof.
  unfold ensure_journal. destruct (journal s) as [j|]; [|done].
  destruct (s_leaf_id s); destruct (negb (empty_list (to_messages j))); done.
Qed.

Lemma stored_hydrates hydrate st s : hydrates hydrate s -> hydrates hydrate (stored st s).
Proof.
  unfold hydrates, stored, storage_compatible_copy. destruct (journal s); [|done]. simpl.
  destruct (_ && _); [done|]. by destruct (empty_list (messages s)).
Qed.

Lemma load_spec hydrate st s j : agrees j s -> hydrates hydrate s ->
  exists s', load_session_snapshot hydrate st s = Ok s' /\ agrees j s'.
Proof.
  intros [(Hj & Hok & Hv & Hl & Hs) Hm] [r Hr]. unfold load_session_snapshot. rewrite Hs. simpl.
  match goal with |- context [ensure_journal st ?x] =>
    destruct (ensure_rest st x) as [E1 E2]; assert (Ha : agrees j (ensure_journal st x)) by (apply ensure_agrees; agree)
  end.
  unfold hydrate_approval_receipts. rewrite E1, E2. simpl. rewrite Hr. eexists. split; [done|exact Ha].
Qed.

Lemma load_hydrates hydrate st s s' : load_session_snapshot hydrate st s = Ok s' -> hydrates hydrate s.
Proof.
  unfold load_session_snapshot, hydrate_approval_receipts, hydrates.
  destruct (_ <? _)%N; [done|]. match goal with |- context [ensure_journal st ?x] => destruct (ensure_rest st x) as [-> ->] end.
  simpl. by destruct (hydrate _ _).
Qed.

Lemma recover_hydrates hydrate st1 st2 s r : recover_session_for_resume hydrate st1 st2 s = Ok r -> hydrates hydrate s.
Proof.
  unfold recover_session_for_resume. destruct (load_session_snapshot hydrate st1 s) eqn:E; [|done].
  intros _. by eapply load_hydrates.
Qed.

Lemma recover_spec hydrate st1 st2 s j : agrees j s -> hydrates hydrate s ->
  fresh_stamps j st2 (length (repair_tool_call_pairs (messages s)).1) ->
  exists s' j', recover_session_for_resume hydrate st1 st2 s = Ok (s', negb (bool_decide (paired (messages s)))) /\
    agrees j' s' /\ messages s' = (repair_tool_call_pairs (messages s)).1 /\
    exists es, entries j' = entries j ++ es.
Proof.
  intros Ha Hh Hf. destruct (load_spec hydrate st1 s j Ha Hh) as (s1 & E1 & [(Hj & Hok & Hv & Hl & Hs) Hm]).
  unfold recover_session_for_resume. rewrite E1. simpl.
  assert (Em : messages s1 = messages s) by (destruct Ha as [_ ->]; done). rewrite Em.
  set (r := repair_tool_call_pairs (messages s)) in *.
  assert (Hr : receipt_is_empty r.2 = bool_decide (paired (messages s))).
  { apply eq_iff_eq_true. rewrite bool_decide_eq_true, <- receipt_empty_iff_paired.
    unfold r, repair_tool_call_pairs, repair_tool_call_pairs_inner.
    by destruct (receipt_is_empty (scan_receipt (scan_history (messages s)))) eqn:E; simpl; rewrite E. }
  rewrite Hr. case_bool_decide as Hp; simpl.
  - assert (Er : r.1 = messages s).
    { unfold r, repair_tool_call_pairs. by rewrite (proj1 (repair_paired _ true Hp)). }
    eexists _, j. split_and!; [done| |done|by exists []; rewrite app_nil_r].
    split; [done|]. simpl. rewrite Er. by destruct Ha as [_ ->].
  - rewrite Hj. destruct (rebranch_spec st2 j r.1 Hok) as (K1 & K2 & (es & K3 & _) & K4 & _).
    { eapply fresh_stamps_le, Hf. lia. }
    eexists _, (rebranch_active_messages st2 j r.1). split_and!; [done| |done|by exists es].
    agree.
Qed.

(** ** Forks and transfers *)

Lemma fork_spec st1 st2 t rest rest' s j : agrees j s ->
  exists j', agrees j' (fork_session st1 st2 t rest rest' s) /\ entries j' = entries j.
Proof.
  intros Ha. apply (ensure_agrees st1) in Ha. unfold fork_session.
  destruct (Ha) as [(-> & Hok & Hv & Hl & Hs) Hm].
  destruct (fork_from j None) as [j'|e] eqn:E; [|done].
  apply fork_from_ok in E as (Hok' & He & Hv' & _); [|done].
  exists j'. split; [|done]. agree.
Qed.

Lemma transfer_spec st t src md t' rest rest' s j : agrees j s ->
  exists s' j', import_foreign t' rest rest' (export_container st t src md s) = Ok s' /\
    agrees j' s' /\ entries j' = entries j /\ messages s' = messages s.
Proof.
  intros [(Hj & Hok & Hv & Hl & Hs) Hm]. unfold import_foreign, export_container. rewrite Hj.
  rewrite container_roundtrip by done. simpl.
  assert (Hok' : forall d, journal_ok {| entries := entries j; leaf_id := leaf_id j;
    schema_version := schema_version j; spawn_depth := d |}) by done.
  eexists _, {| entries := entries j; leaf_id := leaf_id j; schema_version := schema_version j;
                spawn_depth := u32_saturating_succ (spawn_depth j) |}.
  split_and!; [done| |done|by rewrite Hm]. agree.
Qed.

End Facts.
End SavedSessionFacts.

Module JournalTheorems.
Import Transcript HistoryRepair HistoryRepairFacts HistoryRepairTheorems SessionTree SessionTreeFacts.
Import SavedSession SavedSessionFacts.

(** ** The tree *)

(** C29: A journal stays a tree and its history is never rewritten. After any sequence of
    appends, branches, forks, rebranches and transfers with fresh ids, it passes its own
    validation, ids are distinct, the walk from the leaf finds the complete chain of
    parents up to a root - the only one there is - and the entries there were before are
    a prefix of the entries there are. *)
Theorem journal_is_a_growing_tree d j j' :
  rtc step (with_spawn_depth d) j -> rtc step j j' ->
  validate j' = Ok tt /\ NoDup (entry_id <$> entries j') /\
  path_to (entries j') (leaf_id j') (root_to_leaf j') /\
  (forall p, path_to (entries j') (leaf_id j') p -> p = root_to_leaf j') /\
  exists es, entries j' = entries j ++ es.
Proof.
  intros H1 H2. destruct (steps_ok _ _ H1 (with_spawn_depth_ok d)) as [Hj _].
  destruct (steps_ok _ _ H2 Hj) as [Hj' Hes]. split_and!; [..|done].
  - by apply journal_ok_valid.
  - apply grown_nodup, Hj'.
  - by apply root_to_leaf_path.
  - intros p Hp. symmetry. by apply root_to_leaf_unique.
Qed.

Definition stamp (n : nat) : Stamp := {| uuid := replicate (S n) 97%N; now := N.of_nat n |}.

Lemma stamp_inj m n : uuid (stamp m) = uuid (stamp n) -> m = n.
Proof. unfold stamp. cbn [uuid]. intros H. apply (f_equal length) in H. rewrite !length_replicate in H. lia. Qed.

Lemma stamps_fresh n d : fresh_stamps (with_spawn_depth d) stamp n.
Proof.
  split; [|intros i _; apply not_elem_of_nil].
  apply NoDup_fmap_2_strong; [|apply NoDup_seq]. intros x y _ _. apply stamp_inj.
Qed.

Definition hello : Message := text_message User (lit "hello").
Definition hi : Message := text_message Assistant (lit "hi").
Definition bye : Message := text_message User (lit "bye").

(** Two messages, a branch back to the first one, and another second message. *)
Definition sample_journal : SessionJournal := from_messages stamp [hello; hi] 0.
Definition sample_branched : SessionJournal :=
  append (stamp 2) (set_leaf sample_journal (Some (uuid (stamp 0)))) (KMessage bye).

Lemma from_messages_steps st ms d : fresh_stamps (with_spawn_depth d) st (length ms) ->
  rtc step (with_spawn_depth d) (from_messages st ms d).
Proof.
  unfold from_messages. generalize (with_spawn_depth d) as j. revert st.
  induction ms as [|m ms IH]; intros st j Hf; simpl; [done|].
  destruct (fresh_stamps_S j st (length ms) (KMessage m) Hf) as [H0 Hf'].
  eapply rtc_l; [by apply step_append|]. by apply IH.
Qed.

Lemma journal_is_a_growing_tree_witness :
  rtc step (with_spawn_depth 0) sample_journal /\ rtc step sample_journal sample_branched /\
  validate sample_branched = Ok tt /\ (message_of <$> root_to_leaf sample_branched) = [hello; bye].
Proof.
  assert (H1 : rtc step (with_spawn_depth 0) sample_journal) by apply from_messages_steps, stamps_fresh.
  assert (H2 : rtc step sample_journal sample_branched).
  { eapply rtc_l; [by apply (step_branch _ (uuid (stamp 0)))|]. apply rtc_once, step_append.
    unfold fresh_stamp. apply (bool_decide_unpack _). vm_compute. exact I. }
  split_and!; [exact H1|exact H2|apply (journal_is_a_growing_tree 0 _ _ H1 H2)|vm_compute; reflexivity].
Defined.

(** Replacing the active messages does not rewrite anything. The messages given become
    the active projection, every entry there was is still there, the entries of the longest
    unchanged prefix are reused, and the rest is appended, one entry per message. *)
Theorem rebranch_switches_the_branch st j ms (n := shared_prefix (root_to_leaf j) ms)
    (j' := rebranch_active_messages st j ms) :
  journal_ok j -> fresh_stamps j st (length ms - n) ->
  journal_ok j' /\ to_messages j' = ms /\
  (exists es, entries j' = entries j ++ es /\ length es = length ms - n /\
     root_to_leaf j' = take n (root_to_leaf j) ++ es) /\
  (forall k, k <= length (to_messages j) -> k <= length ms ->
     take k (to_messages j) = take k ms <-> k <= n).
Proof.
  intros Hj Hf. destruct (rebranch_spec st j ms Hj Hf) as (H1 & H2 & H3 & _).
  split_and!; [done..|]. intros k Hk1 Hk2. rewrite to_messages_length in Hk1.
  destruct (shared_prefix_spec (root_to_leaf j) ms) as (_ & _ & E & Hmax).
  rewrite to_messages_path. split; [by apply Hmax|]. intros Hk. fold n in E.
  apply (f_equal (take k)) in E. by rewrite !take_take, Nat.min_l in E.
Qed.

Lemma sample_journal_ok : journal_ok sample_journal.
Proof. apply from_messages_ok, stamps_fresh. Qed.

Lemma rebranch_switches_the_branch_witness :
  let j' := rebranch_active_messages (fun n => stamp (2 + n)) sample_journal [hello; bye] in
  journal_ok sample_journal /\ to_messages j' = [hello; bye] /\ length (entries j') = 3.
Proof.
  assert (Hf : fresh_stamps sample_journal (fun n => stamp (2 + n)) 1).
  { split; [apply NoDup_singleton|]. intros [|i] Hi; [|lia]. unfold fresh_stamp.
    apply (bool_decide_unpack _). vm_compute. exact I. }
  split_and!; [exact sample_journal_ok| |vm_compute; reflexivity].
  apply (rebranch_switches_the_branch (fun n => stamp (2 + n)) sample_journal [hello; bye] sample_journal_ok).
  assert (E : length [hello; bye] - shared_prefix (root_to_leaf sample_journal) [hello; bye] = 1)
    by (vm_compute; reflexivity).
  rewrite E. exact Hf.
Defined.

(** ** Termination *)

Lemma walk_up_more fuel n idx seen cur acc path :
  walk_up fuel idx seen cur acc = Some path -> walk_up (fuel + n) idx seen cur acc = Some path.
Proof.
  revert seen cur acc; induction fuel as [|fuel IH]; intros seen cur acc.
  - destruct cur; [done|]. by destruct n.
  - simpl. destruct cur as [id|]; [|done]. case_bool_decide; [done|]. destruct (idx !! id); [apply IH|done].
Qed.

Lemma index_ids (es : list SessionEntry) (m : gmap (list N) SessionEntry) :
  (forall id e, m !! id = Some e -> entry_id e = id) ->
  forall id e, fold_left (fun m e => <[entry_id e := e]> m) es m !! id = Some e -> entry_id e = id.
Proof.
  revert m; induction es as [|x es IH]; intros m Hm; simpl; [done|]. apply IH.
  intros id e [[<- <-]|[_ H]]%lookup_insert_Some; [done|by apply Hm].
Qed.

Lemma walk_up_seen idx : (forall id e, idx !! id = Some e -> entry_id e = id) ->
  forall fuel seen cur acc path, walk_up fuel idx seen cur acc = Some path ->
  NoDup (entry_id <$> acc) -> (forall e, e ∈ acc -> entry_id e ∈ seen) -> NoDup (entry_id <$> path).
Proof.
  intros Hidx. induction fuel as [|fuel IH]; intros seen cur acc path.
  - destruct cur; simpl; congruence.
  - simpl. destruct cur as [id|]; [|congruence]. case_bool_decide as Hs; [congruence|].
    destruct (idx !! id) as [e|] eqn:E; [|congruence]. apply Hidx in E. subst id.
    intros H Hn Ha. eapply IH; [exact H| |].
    + rewrite fmap_app. apply NoDup_app. split_and!; [done| |apply NoDup_singleton].
      cbn. intros x (y & -> & Hy)%list_elem_of_fmap. rewrite list_elem_of_singleton. intros Ey.
      apply Hs. rewrite <- Ey. by apply Ha.
    + intros x [Hx%Ha| ->%list_elem_of_singleton]%elem_of_app; set_solver.
Qed.

(** C40: The walk from the leaf to the root ends on every journal, also on one that was
    imported with cycles, duplicate ids or missing parents: the fuel of the model is
    enough, more of it changes nothing, and no entry comes up twice. *)
Theorem journal_walk_terminates j : exists path,
  (forall n, walk_up (walk_fuel j + n) (index j) ∅ (leaf_id j) [] = Some path) /\
  root_to_leaf j = reverse path /\ NoDup (entry_id <$> root_to_leaf j).
Proof.
  destruct (root_to_leaf_total j) as (path & H1 & H2). exists path.
  split_and!; [intros n; by apply walk_up_more|done|]. rewrite H2, fmap_reverse.
  rewrite reverse_Permutation. eapply walk_up_seen; [|exact H1|constructor|by intros ? ?%elem_of_nil].
  apply index_ids. done.
Qed.

(** ** Sessions *)

Section SessionSteps.
Context {R : Type}.
Implicit Types (s e : Saved (R := R)).

(** What a writer may do to a session before it is saved: hand it to the persistence queue,
    which drops the messages, or give it other messages than the branch has. *)
Inductive edits s : Saved (R := R) -> Prop :=
| edits_none : edits s s
| edits_queued : edits s (compact_for_persistence_queue s)
| edits_messages ms : ms <> [] -> edits s (set_messages ms s).

(** New ids for a session are ones its journal does not have. *)
Definition fresh_for s (st : nat -> Stamp) (n : nat) : Prop :=
  match journal s with Some j => fresh_stamps j st n | None => False end.

Inductive session_step : Saved (R := R) -> Saved (R := R) -> Prop :=
| ss_update st1 st2 t s ms tokens prompt : fresh_for s st2 (length ms) ->
    session_step s (update_session st1 st2 t s ms tokens prompt)
| ss_append st1 st2 t s m : fresh_for s st2 1 ->
    session_step s (journal_append_message st1 (st2 0) t s m)
| ss_branch st t s id : session_step s (journal_branch_to st t s id).1
| ss_fork st1 st2 t rest rest' s : session_step s (fork_session st1 st2 t rest rest' s)
| ss_transfer st t src md t' rest rest' s s' :
    import_foreign t' rest rest' (export_container st t src md s) = Ok s' -> session_step s s'
| ss_reload hydrate st1 st2 s e s' : edits s e -> fresh_for s st1 (length (messages e)) ->
    load_session_snapshot hydrate st2 (stored st1 e) = Ok s' -> session_step s s'
| ss_resume hydrate st1 st2 st3 s e s' changed : edits s e -> fresh_for s st1 (length (messages e)) ->
    fresh_for (stored st1 e) st3 (length (repair_tool_call_pairs (messages (stored st1 e))).1) ->
    recover_session_for_resume hydrate st2 st3 (stored st1 e) = Ok (s', changed) -> session_step s s'.

Lemma edits_spec j s e : agrees j s -> edits s e -> has_journal j e.
Proof. intros Ha He. apply edited_has_journal. destruct He; by constructor. Qed.

Lemma fresh_for_journal j s st n : has_journal j s -> fresh_for s st n -> fresh_stamps j st n.
Proof. intros (E & _). unfold fresh_for. by rewrite E. Qed.

Lemma session_step_ok j s s' : agrees j s -> session_step s s' ->
  exists j', agrees j' s' /\ exists es, entries j' = entries j ++ es.
Proof.
  intros Ha Hs. assert (Hsame : forall j', entries j' = entries j -> exists es, entries j' = entries j ++ es).
  { intros j' E. exists []. by rewrite app_nil_r. }
  destruct Hs as [st1 st2 t s ms tokens prompt Hf|st1 st2 t s m Hf|st t s id|st1 st2 t rest rest' s|
    st t src md t' rest rest' s s' Hi|hydrate st1 st2 s e s' He Hf Hl|hydrate st1 st2 st3 s e s' changed He Hf Hf3 Hr].
  - apply (fresh_for_journal j) in Hf; [|apply Ha].
    destruct (update_session_spec st1 st2 t s j ms tokens prompt Ha Hf) as (j' & H1 & _ & _ & H2). eauto.
  - apply (fresh_for_journal j) in Hf; [|apply Ha].
    exists (append_message (st2 0) j m). split; [apply journal_append_spec; [done|apply Hf; lia]|by eexists].
  - destruct (journal_branch_spec st t s j id Ha) as (j' & H1 & H2). eauto.
  - destruct (fork_spec st1 st2 t rest rest' s j Ha) as (j' & H1 & H2). eauto.
  - destruct (transfer_spec st t src md t' rest rest' s j Ha) as (s2 & j' & E & H1 & H2 & _).
    rewrite E in Hi. simplify_eq. eauto.
  - pose proof (edits_spec _ _ _ Ha He) as Hj. apply (fresh_for_journal j) in Hf; [|apply Ha].
    destruct (stored_spec st1 e j Hj Hf) as (j' & H1 & _ & H2).
    destruct (load_spec hydrate st2 _ _ H1 (load_hydrates _ _ _ _ Hl)) as (s2 & E & H3). rewrite E in Hl. simplify_eq. eauto.
  - pose proof (edits_spec _ _ _ Ha He) as Hj. apply (fresh_for_journal j) in Hf; [|apply Ha].
    destruct (stored_spec st1 e j Hj Hf) as (j' & H1 & _ & [es1 H2]).
    apply (fresh_for_journal j') in Hf3; [|apply H1].
    destruct (recover_spec hydrate st2 st3 _ _ H1 (recover_hydrates _ _ _ _ _ Hr) Hf3) as (s2 & j2 & E & H3 & _ & [es2 H4]).
    rewrite E in Hr. simplify_eq. exists j2. split; [done|]. exists (es1 ++ es2).
    by rewrite H4, H2, <- app_assoc.
Qed.

Lemma session_steps_ok j s s' : agrees j s -> rtc session_step s s' ->
  exists j', agrees j' s' /\ exists es, entries j' = entries j ++ es.
Proof.
  intros Ha Hs. revert j Ha; induction Hs as [s|s1 s2 s3 Hs _ IH]; intros j Ha.
  - exists j. split; [done|]. exists []. by rewrite app_nil_r.
  - destruct (session_step_ok _ _ _ Ha Hs) as (j2 & H2 & [es2 E2]).
    destruct (IH j2 H2) as (j3 & H3 & [es3 E3]). exists j3. split; [done|].
    exists (es2 ++ es3). by rewrite E3, E2, <- app_assoc.
Qed.

Lemma created_agrees st t rest rest' ms tokens prompt : fresh_stamps (with_spawn_depth 0) st (length ms) ->
  agrees (from_messages st ms 0) (create_saved_session (R := R) st t rest rest' ms tokens prompt).
Proof.
  intros Hf. destruct (from_messages_ok st ms 0 Hf) as (H1 & H2 & H3 & _).
  split; [|by rewrite H2]. unfold has_journal. simpl. auto.
Qed.

(** C26: The messages of a session are what its journal says. Whatever sequence of updates,
    appends, branches, forks, transfers, saves - through the queue or with other messages -
    loads and recoveries a session went through, its messages are the projection of the
    active branch of its journal, its leaf is the leaf of the journal, the journal is valid,
    and all the history of the session it began as is in it. *)
Theorem sessions_agree_with_their_journals st t rest rest' ms tokens prompt s :
  fresh_stamps (with_spawn_depth 0) st (length ms) ->
  rtc session_step (create_saved_session st t rest rest' ms tokens prompt) s ->
  exists j es, journal s = Some j /\ s_leaf_id s = leaf_id j /\ messages s = to_messages j /\
    validate j = Ok tt /\ path_to (entries j) (leaf_id j) (root_to_leaf j) /\
    entries j = entries (from_messages st ms 0) ++ es.
Proof.
  intros Hf Hs.
  destruct (session_steps_ok _ _ _ (created_agrees st t rest rest' ms tokens prompt Hf) Hs)
    as (j & [(H1 & H2 & _ & H3 & _) H4] & [es E]).
  exists j, es. split_and!; [done..| | |done]; [by apply journal_ok_valid|by apply root_to_leaf_path].
Qed.

(** C27: A save loses nothing, for a session whose messages are the active branch of a valid
    journal ([agrees]; every created session is one, by the invariant above), whose
    approval receipts can be read ([hydrates]), and whose new entries get ids that are not
    in use. What is loaded after it was saved - also when the queue had dropped the
    messages, or when they had been replaced - has exactly the messages that were meant,
    and they are the active branch of a journal that continues the old one. A resume gives
    the repaired messages, which are paired when the calls of a message have different ids,
    and keeps the crashed branch as evidence. [unreadable_log_locks_the_session] and
    [imported_order_resurrects_message] are what happens without the first two conditions. *)
Theorem saved_messages_load_back hydrate j s e st1 st2 st3 :
  agrees j s -> edits s e -> hydrates hydrate e -> fresh_stamps j st1 (length (messages e)) ->
  fresh_for (stored st1 e) st3 (length (repair_tool_call_pairs (meant j e)).1) ->
  (exists s', load_session_snapshot hydrate st2 (stored st1 e) = Ok s' /\ messages s' = meant j e) /\
  (exists s' j' es changed, recover_session_for_resume hydrate st2 st3 (stored st1 e) = Ok (s', changed) /\
     messages s' = (repair_tool_call_pairs (meant j e)).1 /\ agrees j' s' /\
     (distinct_calls (meant j e) -> paired (messages s')) /\
     (changed = false <-> paired (meant j e)) /\ entries j' = entries j ++ es).
Proof.
  intros Ha He Hh Hf Hf3. apply (stored_hydrates hydrate st1) in Hh. pose proof (edits_spec _ _ _ Ha He) as Hj.
  destruct (stored_spec st1 e j Hj Hf) as (j1 & H1 & Em & [es1 E1]).
  rewrite <- Em in *. split.
  - destruct (load_spec hydrate st2 _ _ H1 Hh) as (s' & E & [_ Hm]). exists s'. split; [done|]. by rewrite Hm, (proj2 H1).
  - apply (fresh_for_journal j1) in Hf3; [|apply H1].
    destruct (recover_spec hydrate st2 st3 _ _ H1 Hh Hf3) as (s' & j2 & E & H3 & Hm & [es2 E2]).
    eexists s', j2, (es1 ++ es2), _. split_and!; [done|done|done| | |by rewrite E2, E1, <- app_assoc].
    + intros Hd. rewrite Hm. by apply repair_pairs.
    + rewrite negb_false_iff, bool_decide_eq_true. done.
Qed.

End SessionSteps.

(** ** Witnesses *)

Lemma fresh_stamps_check j st n :
  bool_decide (NoDup ((fun i => uuid (st i)) <$> seq 0 n)) &&
  forallb (fun i => bool_decide (uuid (st i) ∉ ids_of (entries j))) (seq 0 n) = true -> fresh_stamps j st n.
Proof.
  intros [H1%bool_decide_eq_true H2]%andb_true_iff. split; [done|]. intros i Hi.
  rewrite forallb_forall in H2. specialize (H2 i). rewrite bool_decide_eq_true in H2.
  apply H2, in_seq. lia.
Qed.

Definition later (n : nat) : Stamp := stamp (10 + n).

Definition sample_session : Saved (R := unit) := create_saved_session stamp 0 tt tt [hello; hi] 7 None.

Lemma sessions_agree_with_their_journals_witness :
  let s := update_session stamp later 1 sample_session [hello; bye] 9 None in
  rtc session_step sample_session s /\ messages s = [hello; bye] /\
  exists j, journal s = Some j /\ length (entries j) = 3 /\ to_messages j = [hello; bye].
Proof.
  intros s. assert (Hs : rtc session_step sample_session s).
  { apply rtc_once, ss_update. apply fresh_stamps_check. vm_compute. reflexivity. }
  split_and!; [exact Hs|reflexivity|].
  destruct (sessions_agree_with_their_journals stamp 0 tt tt [hello; hi] 7 None s (stamps_fresh 2 0) Hs)
    as (j & es & Hj & _ & Hm & _ & _ & _).
  exists j. split_and!; [exact Hj| |by rewrite <- Hm].
  assert (E : (match journal s with Some j => length (entries j) | None => 0 end) = 3)
    by (vm_compute; reflexivity).
  by rewrite Hj in E.
Defined.

(** A call that a crash left open, saved through the queue and resumed. *)
Definition crashed_session : Saved (R := unit) := create_saved_session stamp 0 tt tt [hello; call "c1"] 7 None.

Lemma saved_messages_load_back_witness :
  exists s' j' es changed,
    recover_session_for_resume (fun _ rest => Some rest) stamp later (stored stamp (compact_for_persistence_queue crashed_session))
      = Ok (s', changed) /\
    messages s' = (repair_tool_call_pairs [hello; call "c1"]).1 /\ agrees j' s' /\
    paired (messages s') /\ entries j' = entries (from_messages stamp [hello; call "c1"] 0) ++ es.
Proof.
  set (e := compact_for_persistence_queue crashed_session).
  assert (Ha : agrees (from_messages stamp [hello; call "c1"] 0) crashed_session)
    by apply created_agrees, stamps_fresh.
  destruct (saved_messages_load_back (fun _ rest => Some rest) _ crashed_session e stamp stamp later Ha (edits_queued _))
    as (_ & s' & j' & es & changed & H1 & H2 & H3 & H4 & _ & H5).
  - by eexists.
  - apply fresh_stamps_check. vm_compute. reflexivity.
  - apply fresh_stamps_check. vm_compute. reflexivity.
  - exists s', j', es, changed.
    assert (Em : meant (from_messages stamp [hello; call "c1"] 0) e = [hello; call "c1"])
      by (vm_compute; reflexivity).
    rewrite Em in H2, H4. split_and!; [exact H1|exact H2|exact H3| |exact H5].
    apply H4. repeat (constructor; [intros _; by apply NoDup_ListNoDup; repeat constructor; intros []|]).
    constructor.
Defined.

(** ** Journals from elsewhere *)

Definition foreign_entry (id : string) (parent : option string) (text : string) : SessionEntry :=
  {| entry_id := lit id; parent_id := lit <$> parent; kind := KUser (lit text); created_at := 0;
     entry_spawn_depth := 0 |}.

Definition foreign (es : list SessionEntry) (leaf : string) : SessionImportContainer :=
  {| format_version := 1; source := lit "other"; metadata := None; c_entries := es;
     c_leaf_id := Some (lit leaf); exported_at := 0; c_spawn_depth := 0 |}.

(** The validation of an import looks for missing parents only. Two entries with the same
    id, one the parent of the other, are accepted, and rendering the tree never ends. *)
Definition doubled : list SessionEntry := [foreign_entry "a" None "x"; foreign_entry "a" (Some "a") "y"].

Lemma self_child_diverges children active leaf e :
  children (Some (entry_id e)) = [e] -> (forall depth, is_Some (node_line active leaf depth true e)) ->
  forall fuel depth out, render_node fuel children active leaf (Some (entry_id e)) depth out = OutOfFuel.
Proof.
  intros Hc Hl. induction fuel as [|fuel IH]; intros depth out; [done|].
  cbn [render_node]. rewrite Hc. destruct (Hl depth) as [line ->]. by rewrite IH.
Qed.

Lemma first_child_diverges children active leaf e0 e last : children None = [e0] -> entry_id e0 = entry_id e ->
  is_Some (node_line active leaf 0 true e0) ->
  children (Some (entry_id e)) = [e] -> (forall depth, is_Some (node_line active leaf depth true e)) ->
  forall fuel, then_render (render_node fuel children active leaf None 0 []) last = OutOfFuel.
Proof.
  intros H0 He [line Hl0] Hc Hl [|fuel]; [done|]. cbn [render_node]. rewrite H0, Hl0, He.
  by rewrite self_child_diverges.
Qed.

(** The journal of an accepted container. *)
Definition imported (c : SessionImportContainer) : SessionJournal :=
  {| entries := c_entries c; leaf_id := c_leaf_id c; schema_version := format_version c;
     spawn_depth := c_spawn_depth c |}.

Definition doubled_journal : SessionJournal := imported (foreign doubled "a").

Lemma doubled_ids_overflow_the_tree :
  into_journal (foreign doubled "a") = Ok doubled_journal /\
  forall fuel, render_tree fuel doubled_journal = OutOfFuel.
Proof.
  split; [vm_compute; reflexivity|]. intros fuel. unfold render_tree. cbn [journal_is_empty doubled_journal imported foreign c_entries entries doubled].
  apply (first_child_diverges _ _ _ (foreign_entry "a" None "x") (foreign_entry "a" (Some "a") "y"));
    try reflexivity; intros; eexists; reflexivity.
Qed.

(** A cycle is accepted as well; the walk stops inside it, and the tree shows nothing. *)
Definition cyclic : SessionImportContainer :=
  foreign [foreign_entry "a" (Some "b") "x"; foreign_entry "b" (Some "a") "y"] "a".

Lemma cyclic_journal_is_accepted :
  into_journal cyclic = Ok (imported cyclic) /\
  (entry_id <$> root_to_leaf (imported cyclic)) = [lit "b"; lit "a"] /\ children_of (imported cyclic) None = [].
Proof. split_and!; vm_compute; reflexivity. Qed.

(** Entries need not come in order. When all messages of such a session are replaced, the
    new branch starts at the parent of the first entry instead of the root, and a message
    that was removed is back in the projection. *)
Definition unordered : SessionImportContainer :=
  foreign [foreign_entry "b" (Some "a") "y"; foreign_entry "a" None "x"] "b".

Definition updated_import : option (Saved (R := unit)) :=
  match import_foreign 0 tt tt unordered with
  | Ok s => Some (update_session stamp later 1 s [bye] 9 None)
  | Err _ => None
  end.

Lemma imported_order_resurrects_message :
  messages <$> updated_import = Some [bye] /\
  (s ← updated_import; j ← journal s; Some (to_messages j)) = Some [text_message User (lit "x"); bye].
Proof. split; vm_compute; reflexivity. Qed.

(** Branching does not count the messages again. *)
Lemma branching_leaves_the_count :
  let s := (journal_branch_to stamp 1 sample_session (uuid (stamp 0))).1 in
  length (messages s) = 1 /\ message_count (s_metadata s) = 2.
Proof. vm_compute. done. Qed.

(** The short form of an id is cut by bytes; an id with a wide character at the cut, which
    an import may bring, makes the rendering panic. *)
Definition wide : SessionImportContainer :=
  {| format_version := 1; source := []; metadata := None;
     c_entries := [{| entry_id := lit "aaaaaaa" ++ [233]%N; parent_id := None; kind := KUser (lit "x");
                      created_at := 0; entry_spawn_depth := 0 |}];
     c_leaf_id := None; exported_at := 0; c_spawn_depth := 0 |}.

Lemma wide_id_panics :
  into_journal wide = Ok (imported wide) /\ forall fuel, 0 < fuel -> render_tree fuel (imported wide) = Panicked.
Proof. split; [vm_compute; reflexivity|]. intros [|fuel] H; [lia|reflexivity]. Qed.

(** The journal of the protocol crate has no guard against cycles. *)
Lemma protocol_walk_diverges fuel :
  let e := {| je_id := lit "a"; je_parent_id := Some (lit "a"); je_kind := lit "user";
              payload := Redact.JNull; je_created_at := 0 |} in
  active_path fuel {| j_entries := [e]; j_leaf_id := Some (lit "a") |} = None.
Proof.
  intros e. unfold active_path. cbn [j_leaf_id j_entries fold_left].
  assert (H : forall path, protocol_walk fuel (<[je_id e := e]> ∅) (Some (lit "a")) path = None).
  { induction fuel as [|fuel IH]; intros path; [done|]. cbn [protocol_walk].
    change (lit "a") with (je_id e) at 1. rewrite lookup_insert_eq. apply IH. }
  by rewrite H.
Qed.

End JournalTheorems.
