(* ===== verification/SessionRender.v ===== *)
(** * The rendered tree shows every entry once

    [preorder] is the order in which [render_node] visits the entries. In a well-formed
    journal the visit ends, and it is a permutation of the entries. *)

From stdpp Require Import base list option strings gmap.
From Stdlib Require Import Lia NArith.
From S2P Require Import Prelude RustStr RustNum Redact Transcript SessionTree SessionTreeFacts JournalTheorems.

Module SessionRender.
Import Transcript SessionTree SessionTreeFacts JournalTheorems.

(** An entry with its depth and whether it is the last child. *)
Abbreviation visit := (SessionEntry * nat * bool)%type.

Definition visit_entry (v : visit) : SessionEntry := v.1.1.

Fixpoint preorder (fuel : nat) (children : option (list N) -> list SessionEntry) (parent : option (list N))
    (depth : nat) : option (list visit) :=
  match fuel with
  | 0 => None
  | S fuel =>
      (fix go (nodes : list SessionEntry) : option (list visit) :=
         match nodes with
         | [] => Some []
         | e :: rest =>
             below ← preorder fuel children (Some (entry_id e)) (S depth);
             others ← go rest;
             Some ((e, depth, match rest with [] => true | _ => false end) :: below ++ others)
         end) (children parent)
  end.

(** The part of a visit that starts with the children [nodes]. *)
Definition preorder_nodes (fuel : nat) (children : option (list N) -> list SessionEntry) (depth : nat) :=
  fix go (nodes : list SessionEntry) : option (list visit) :=
    match nodes with
    | [] => Some []
    | e :: rest =>
        below ← preorder fuel children (Some (entry_id e)) (S depth);
        others ← go rest;
        Some ((e, depth, match rest with [] => true | _ => false end) :: below ++ others)
    end.

Definition visit_line (active : gset (list N)) (leaf : option (list N)) (v : visit) : option (list N) :=
  node_line active leaf v.1.2 v.2 v.1.1.

Lemma render_preorder children active leaf fuel : forall parent depth order lines out,
  preorder fuel children parent depth = Some order -> mapM (visit_line active leaf) order = Some lines ->
  render_node fuel children active leaf parent depth out = Rendered (out ++ concat lines).
Proof.
  induction fuel as [|fuel IH]; intros parent depth order lines out; [done|].
  cbn [preorder render_node]. fold (preorder_nodes fuel children depth).
  generalize (children parent) as nodes. intros nodes.
  revert order lines out; induction nodes as [|e rest IHn]; intros order lines out; cbn.
  { intros [= <-] [= <-]. by rewrite app_nil_r. }
  intros (below & Hb & (others & Ho & [= <-])%bind_Some)%bind_Some.
  cbn. intros (line & Hl & (ls & Hls & [= <-])%bind_Some)%bind_Some.
  apply mapM_Some, Forall2_app_inv_l in Hls as (l1 & l2 & H1%mapM_Some & H2%mapM_Some & ->).
  unfold visit_line in Hl. cbn in Hl. rewrite Hl.
  rewrite (IH _ _ _ _ _ Hb H1). cbn. rewrite (IHn _ _ _ Ho H2). f_equal.
  by rewrite concat_app, !app_assoc.
Qed.

Section Forest.
Context (j : SessionJournal) (Hok : journal_ok j).
Let es := entries j.

Lemma children_spec p e : e ∈ children_of j p <-> e ∈ es /\ parent_id e = p.
Proof.
  unfold children_of. rewrite list_elem_of_In, filter_In, <- list_elem_of_In, bool_decide_eq_true. done.
Qed.

Lemma children_nodup p : NoDup (children_of j p).
Proof.
  unfold children_of. apply NoDup_ListNoDup, List.NoDup_filter, NoDup_ListNoDup.
  eapply NoDup_fmap_1, grown_nodup, Hok.
Qed.

(** Children come later. *)
Lemma child_after l : grown l -> forall a x b e, l = a ++ x :: b -> e ∈ l ->
  parent_id e = Some (entry_id x) -> e ∈ b.
Proof.
  induction 1 as [|l e0 Hg IH Hn Hk]; intros a x b e El He Hp; [by apply elem_of_nil in He|].
  assert (Hx : b = [] /\ x = e0 /\ a = l \/ exists b', b = b' ++ [e0] /\ l = a ++ x :: b').
  { destruct b as [|y b' _] using rev_ind.
    - apply app_inj_tail in El as [-> ->]. auto.
    - right. rewrite app_comm_cons, app_assoc in El. apply app_inj_tail in El as [-> ->]. eauto. }
  destruct Hx as [(-> & -> & ->)|(b' & -> & ->)].
  - exfalso. apply elem_of_app in He as [He| ->%list_elem_of_singleton].
    + apply Hn. pose proof (grown_closed _ _ Hg He) as Hc. by rewrite Hp in Hc.
    + rewrite Hp in Hk. done.
  - apply elem_of_app in He as [He| ->%list_elem_of_singleton]; apply elem_of_app; [left|right; set_solver].
    by eapply (IH a x b').
Qed.

(** [n] entries at most come after the parent. *)
Definition after_parent (p : option (list N)) (n : nat) : Prop :=
  p = None /\ length es <= n \/ exists a x b, es = a ++ x :: b /\ p = Some (entry_id x) /\ length b <= n.

Lemma after_child p n e : after_parent p n -> e ∈ children_of j p -> exists k, n = S k /\ after_parent (Some (entry_id e)) k.
Proof.
  intros Hn [He Hp]%children_spec.
  assert (H : exists a b, es = a ++ e :: b /\ length b < n).
  { destruct Hn as [[-> Hlen]|(a & x & b & E & -> & Hb)].
    - apply list_elem_of_split in He as (a & b & E). exists a, b. split; [done|].
      rewrite E, length_app in Hlen. simpl in Hlen. lia.
    - pose proof (child_after es (proj1 Hok) a x b e E He Hp) as Hin.
      apply list_elem_of_split in Hin as (b1 & b2 & ->). exists (a ++ x :: b1), b2.
      rewrite length_app in Hb. simpl in Hb. split; [by rewrite E, <- app_assoc|lia]. }
  destruct H as (a & b & E & Hb). destruct n as [|k]; [lia|]. exists k. split; [done|].
  right. exists a, e, b. split_and!; [done..|lia].
Qed.

Lemma preorder_total fuel : forall p n depth, after_parent p n -> n < fuel ->
  is_Some (preorder fuel (children_of j) p depth).
Proof.
  induction fuel as [|fuel IH]; intros p n depth Hn Hf; [lia|]. cbn [preorder].
  fold (preorder_nodes fuel (children_of j) depth).
  assert (Hch : forall e, e ∈ children_of j p -> exists k, n = S k /\ after_parent (Some (entry_id e)) k)
    by (intros; by eapply after_child).
  induction (children_of j p) as [|e rest IHn]; cbn; [by eauto|].
  destruct (Hch e) as (k & -> & Hk); [by left|].
  destruct (IH _ k (S depth) Hk) as [below ->]; [lia|]. cbn.
  destruct IHn as [others ->]; [|by eauto]. intros e' He'. apply Hch. by right.
Qed.

(** ** Which entries a visit has *)

Inductive above (p : option (list N)) : SessionEntry -> Prop :=
| above_child x : x ∈ es -> parent_id x = p -> above p x
| above_below q x : above p q -> x ∈ es -> parent_id x = Some (entry_id q) -> above p x.

Lemma above_in p x : above p x -> x ∈ es.
Proof. by destruct 1. Qed.

Lemma above_trans p q x : above p q -> above (Some (entry_id q)) x -> above p x.
Proof. intros Hq. induction 1 as [x Hx Hp|r x Hr IH Hx Hp]; eapply above_below; eauto. Qed.

Lemma entry_eq x y : x ∈ es -> y ∈ es -> entry_id x = entry_id y -> x = y.
Proof. apply NoDup_fmap_elem, grown_nodup, Hok. Qed.

(** What is above an entry is a child or below a child. *)
Lemma above_inv p x : above p x -> exists c, c ∈ children_of j p /\ (x = c \/ above (Some (entry_id c)) x).
Proof.
  induction 1 as [x Hx Hp|q x Hq (c & Hc & IH) Hx Hp].
  - exists x. rewrite children_spec. auto.
  - exists c. split; [done|right]. destruct IH as [->|IH].
    + by apply above_child.
    + by eapply above_below.
Qed.

Lemma preorder_elem fuel : forall p depth order, preorder fuel (children_of j) p depth = Some order ->
  forall x, x ∈ visit_entry <$> order <-> above p x.
Proof.
  induction fuel as [|fuel IH]; intros p depth order; [done|]. cbn [preorder].
  fold (preorder_nodes fuel (children_of j) depth). intros Ho x.
  transitivity (exists c, c ∈ children_of j p /\ (x = c \/ above (Some (entry_id c)) x)).
  2:{ split; [|apply above_inv]. intros (c & [Hc Hp]%children_spec & [->|Hx]); [by constructor|].
      eapply above_trans; [|exact Hx]. by constructor. }
  revert order Ho; induction (children_of j p) as [|e rest IHn]; intros order; cbn.
  { intros [= <-]. cbn. rewrite elem_of_nil. naive_solver set_solver. }
  intros (below & Hb & (others & Ho & [= <-])%bind_Some)%bind_Some.
  rewrite fmap_cons, fmap_app, elem_of_cons, elem_of_app, (IH _ _ _ Hb x), (IHn _ Ho).
  setoid_rewrite elem_of_cons. unfold visit_entry. simpl. naive_solver.
Qed.

(** ** Visits do not repeat *)

Lemma above_on_path c x q : above (Some (entry_id c)) x -> c ∈ es -> path_to es (parent_id x) q -> c ∈ q.
Proof.
  intros Ha. revert q; induction Ha as [x Hx Hp|r x Hr IH Hx Hp]; intros q Hc Hq;
    rewrite Hp in Hq; inversion Hq as [|e p He Hq' E]; subst.
  - rewrite elem_of_app, list_elem_of_singleton. right. by apply entry_eq.
  - assert (e = r) as -> by (apply entry_eq; eauto using above_in).
    rewrite elem_of_app. left. by apply IH.
Qed.

Lemma path_of x : x ∈ es -> exists q, path_to es (parent_id x) q.
Proof. intros Hx. apply path_exists; [apply Hok|]. by apply grown_closed; [apply Hok|]. Qed.

Lemma not_above_self x : ~ above (Some (entry_id x)) x.
Proof.
  intros Ha. pose proof (above_in _ _ Ha) as Hx. destruct (path_of x Hx) as [q Hq].
  pose proof (above_on_path x x q Ha Hx Hq) as Hin.
  pose proof (path_nodup es _ _ (proj1 Hok) (path_step es x q Hx Hq)) as Hn.
  rewrite ids_of_app in Hn. apply NoDup_app in Hn as (_ & Hd & _).
  apply (Hd (entry_id x)); [apply elem_ids_of; eauto|cbn; set_solver].
Qed.

(** Two siblings have nothing in common below them. *)
Lemma siblings_apart p c c' x : c ∈ children_of j p -> c' ∈ children_of j p ->
  (x = c \/ above (Some (entry_id c)) x) -> (x = c' \/ above (Some (entry_id c')) x) -> c = c'.
Proof.
  intros [Hc Hp]%children_spec [Hc' Hp']%children_spec Hx Hx'.
  assert (Hxe : x ∈ es) by (destruct Hx as [->|H]; [done|by eapply above_in]).
  destruct (path_of x Hxe) as [q Hq]. pose proof (path_step es x q Hxe Hq) as Hpath.
  assert (Hon : forall d, d ∈ es -> (x = d \/ above (Some (entry_id d)) x) -> exists i, (q ++ [x]) !! i = Some d).
  { intros d Hd Hxd. apply list_elem_of_lookup_1. rewrite elem_of_app, list_elem_of_singleton.
    destruct Hxd as [->|H]; [by right|left]. by eapply above_on_path. }
  assert (Hlen : forall d i r, d ∈ es -> path_to es (parent_id d) r -> (q ++ [x]) !! i = Some d -> i = length r).
  { intros d i r Hd Hr Hi. pose proof (path_prefix _ _ _ _ _ Hpath Hi) as H1.
    pose proof (path_unique _ _ _ _ (proj1 Hok) H1 (path_step es d r Hd Hr)) as E.
    apply (f_equal length) in E. rewrite length_app, length_take_le in E by (apply lookup_lt_Some in Hi; lia).
    simpl in E. lia. }
  destruct (Hon c Hc Hx) as [i Hi], (Hon c' Hc' Hx') as [i' Hi'].
  destruct (path_of c Hc) as [r Hr]. pose proof Hr as Hr'. rewrite Hp, <- Hp' in Hr'.
  rewrite (Hlen c i r Hc Hr Hi) in Hi. rewrite (Hlen c' i' r Hc' Hr' Hi') in Hi'. congruence.
Qed.

Lemma preorder_nodup fuel : forall p depth order, preorder fuel (children_of j) p depth = Some order ->
  NoDup (visit_entry <$> order).
Proof.
  induction fuel as [|fuel IH]; intros p depth order; [done|]. cbn [preorder].
  fold (preorder_nodes fuel (children_of j) depth).
  pose proof (children_nodup p) as Hn. pose proof (siblings_apart p) as Hsib.
  assert (Hch : forall nodes order, preorder_nodes fuel (children_of j) depth nodes = Some order ->
    forall x, x ∈ visit_entry <$> order -> exists c, c ∈ nodes /\ (x = c \/ above (Some (entry_id c)) x)).
  { induction nodes as [|e rest IHn]; intros order'; cbn.
    - intros [= <-] x. cbn. by rewrite elem_of_nil.
    - intros (below & Hb & (others & Ho & [= <-])%bind_Some)%bind_Some x.
      rewrite fmap_cons, fmap_app, elem_of_cons, elem_of_app, (preorder_elem _ _ _ _ Hb x).
      setoid_rewrite elem_of_cons. intros [->|[H|H]]; [by eauto|by eauto|].
      destruct (IHn _ Ho x H) as (c & Hc & Hx). eauto. }
  revert order; induction (children_of j p) as [|e rest IHn]; intros order; cbn.
  { intros [= <-]. constructor. }
  intros (below & Hb & (others & Ho & [= <-])%bind_Some)%bind_Some.
  apply NoDup_cons in Hn as [He Hn].
  assert (Hapart : forall x, (x = e \/ above (Some (entry_id e)) x) -> x ∉ visit_entry <$> others).
  { intros x Hx Hin. destruct (Hch _ _ Ho x Hin) as (c & Hc & Hxc).
    rewrite (Hsib e c x) in He; [done|by left|by right|done|done]. }
  rewrite fmap_cons, fmap_app. constructor.
  - rewrite not_elem_of_app, (preorder_elem _ _ _ _ Hb). split; [apply not_above_self|]. apply Hapart. by left.
  - apply NoDup_app. split_and!; [by eapply IH| |].
    + intros x Hx. apply Hapart. right. by apply (preorder_elem _ _ _ _ Hb).
    + apply IHn; [done| |done]. intros c c' x Hc Hc'. apply Hsib; by right.
Qed.

Lemma above_root x : x ∈ es -> above None x.
Proof.
  assert (H : forall l, grown l -> (forall e, e ∈ l -> e ∈ es) -> forall x, x ∈ l -> above None x).
  { induction 1 as [|l e Hg IH Hn Hk]; intros Hsub y Hy; [by apply elem_of_nil in Hy|].
    assert (Hl : forall e, e ∈ l -> e ∈ es) by (intros; apply Hsub; set_solver).
    apply elem_of_app in Hy as [Hy| ->%list_elem_of_singleton]; [by apply IH|].
    assert (He : e ∈ es) by (apply Hsub; set_solver).
    destruct (parent_id e) as [q|] eqn:Ep; [|by constructor].
    simpl in Hk. apply elem_ids_of in Hk as (y & Hy & <-). eapply above_below; eauto. }
  apply (H es (proj1 Hok)). done.
Qed.

End Forest.

(** The text below the tree. *)
Definition footer (j : SessionJournal) : list N :=
  match leaf_id j with
  | Some leaf_id =>
      [c_nl] ++ lit "leaf: " ++ leaf_id ++ lit " (active, " ++ dec (N.of_nat (length (entries j))) ++
      lit " entries)" ++ [c_nl]
  | None => []
  end.

(** An entry whose id and branch id can be shortened. *)
Definition printable (e : SessionEntry) : Prop := is_Some (short_id e) /\ is_Some (kind_label (kind e)).

(** The tree of a session shows everything. For a journal as the operations build them,
    with entries whose ids can be shortened, rendering ends without a panic, in fewer levels
    than there are entries plus two, and has one line for each entry, every entry exactly
    once, followed by the leaf. *)
Theorem tree_shows_every_entry j fuel :
  journal_ok j -> entries j <> [] -> Forall printable (entries j) -> length (entries j) < fuel ->
  exists order lines,
    visit_entry <$> order ≡ₚ entries j /\
    mapM (visit_line (list_to_set (entry_id <$> root_to_leaf j)) (leaf_id j)) order = Some lines /\
    render_tree fuel j = Rendered (concat lines ++ footer j).
Proof.
  intros Hj Hne Hp Hf. destruct (preorder_total j Hj fuel None (length (entries j)) 0) as [order Ho]; [by left|done|].
  assert (Hperm : visit_entry <$> order ≡ₚ entries j).
  { apply NoDup_Permutation.
    - by eapply preorder_nodup.
    - eapply NoDup_fmap_1, grown_nodup, Hj.
    - intros x. rewrite (preorder_elem j Hj fuel _ _ _ Ho). split; [apply above_in|by apply above_root]. }
  set (active := list_to_set _ : gset (list N)).
  assert (Hl : is_Some (mapM (visit_line active (leaf_id j)) order)).
  { apply mapM_is_Some_2, Forall_forall. intros v Hv. rewrite Forall_forall in Hp.
    destruct (Hp (visit_entry v)) as [[sh Hs] [la Hk]].
    { rewrite <- Hperm. by apply list_elem_of_fmap_2. }
    destruct v as [[e d] b]. unfold visit_line, node_line. cbn in *. rewrite Hk. cbn. rewrite Hs. by eauto. }
  destruct Hl as [lines Hl]. exists order, lines. split_and!; [done..|]. unfold render_tree.
  assert (He : journal_is_empty j = false) by (unfold journal_is_empty; by destruct (entries j)). rewrite He.
  cbv zeta. fold active.
  rewrite (render_preorder _ active (leaf_id j) fuel None 0 order lines [] Ho Hl). cbn [then_render app].
  unfold footer. destruct (leaf_id j); [done|by rewrite app_nil_r].
Qed.

Lemma sample_branched_ok : journal_ok sample_branched.
Proof.
  apply append_ok; [apply set_leaf_ok; [apply sample_journal_ok|]|].
  - cbn. apply (bool_decide_unpack _). vm_compute. exact I.
  - unfold fresh_stamp. apply (bool_decide_unpack _). vm_compute. exact I.
Qed.

Lemma tree_shows_every_entry_witness :
  journal_ok sample_branched /\
  exists order lines, visit_entry <$> order ≡ₚ entries sample_branched /\
    mapM (visit_line (list_to_set (entry_id <$> root_to_leaf sample_branched)) (leaf_id sample_branched)) order
      = Some lines /\
    render_tree 4 sample_branched = Rendered (concat lines ++ footer sample_branched).
Proof.
  split; [exact sample_branched_ok|].
  apply (tree_shows_every_entry sample_branched 4 sample_branched_ok); [done| |cbn; lia].
  repeat (constructor; [split; eexists; reflexivity|]). constructor.
Defined.

End SessionRender.
