(* ===== verification/WfNodes.v ===== *)
(** * Workflow specifications (crates/workflow/src/lib.rs, role_resolve.rs)

    The tree of nodes of a workflow, its validation, and the estimate of the agents it
    launches. *)

From stdpp Require Import base list option strings gmap.
From Stdlib Require Import Lia NArith.
From S2P Require Import Prelude RustStr RustNum WfGates.

Module WfNodes.

(** ** Data *)

Inductive AgentType : Type := General | Explore | Plan | Review | Implementer | Verifier.
Inductive TaskMode : Type := ReadOnly | ReadWrite.
Inductive IsolationMode : Type := Auto | Shared | Worktree.

#[export] Instance AgentType_eq_dec : EqDecision AgentType.
Proof. solve_decision. Defined.
#[export] Instance TaskMode_eq_dec : EqDecision TaskMode.
Proof. solve_decision. Defined.
#[export] Instance IsolationMode_eq_dec : EqDecision IsolationMode.
Proof. solve_decision. Defined.

Record BudgetSpec : Type := {
  max_steps : option N; timeout_secs : option N; max_parallel : option N; max_tokens : option N }.

Record PermissionSpec : Type := {
  allow_write : bool;
  allow_network : bool;
  deny_all_tools : bool;
  allowed_tools : list (list N);
  perm_file_scope : list (list N)
}.

Record ModelPolicy : Type := {
  mp_provider : option (list N); mp_model : option (list N); fallback_models : list (list N) }.

Record PromotionGate : Type := {
  min_score_delta : Z;
  max_cost_delta_microusd : option Z;
  require_all_tests_pass : bool;
  reject_policy_violations : bool;
  reject_stale_replay : bool
}.

Inductive PromotionStrategy : Type := PAll | FirstSuccess | BestScore | TeacherSelected.

Record PromotionPolicy : Type := {
  strategy : PromotionStrategy;
  require_teacher_review : bool;
  min_successful_branches : option N;
  promotion_gate : PromotionGate
}.

Record LeafSpec : Type := {
  leaf_id : list N;
  prompt : list N;
  agent_type : AgentType;
  leaf_role : option (list N);
  profile : option (list N);
  mode : TaskMode;
  isolation : IsolationMode;
  file_scope : list (list N);
  depends_on_results : list (list N);
  leaf_budget : BudgetSpec;
  leaf_permissions : PermissionSpec;
  leaf_model_policy : ModelPolicy
}.

Record BranchHead : Type := {
  branch_id : list N;
  branch_description : option (list N);
  parallel : bool;
  branch_budget : BudgetSpec;
  branch_permissions : PermissionSpec;
  branch_model_policy : ModelPolicy
}.

Record ReduceSpec : Type := {
  reduce_id : list N; inputs : list (list N); reduce_prompt : list N; reduce_model_policy : ModelPolicy }.

Record TeacherReviewSpec : Type := {
  review_id : list N; candidates : list (list N); review_policy : PromotionPolicy }.

(** The structs with children are constructors with the remaining fields as arguments. *)
Inductive WorkflowNode : Type :=
| BranchSet (head : BranchHead) (children : list WorkflowNode)
| Leaf (spec : LeafSpec)
| Sequence (id : list N) (children : list WorkflowNode)
| Reduce (spec : ReduceSpec)
| TeacherReview (spec : TeacherReviewSpec)
| LoopUntil (id condition : list N) (max_iterations : option N) (children : list WorkflowNode)
| Cond (id condition : list N) (then_nodes else_nodes : list WorkflowNode)
| Expand (id source : list N) (max_children : option N) (template : option WorkflowNode).

Record WorkflowSpec : Type := {
  spec_id : option (list N);
  goal : list N;
  description : option (list N);
  budget : BudgetSpec;
  permissions : PermissionSpec;
  model_policy : ModelPolicy;
  promotion_policy : PromotionPolicy;
  gates : list WfGates.GateSpec;
  nodes : list WorkflowNode
}.

Definition node_id (n : WorkflowNode) : list N :=
  match n with
  | BranchSet head _ => branch_id head
  | Leaf spec => leaf_id spec
  | Sequence id _ => id
  | Reduce spec => reduce_id spec
  | TeacherReview spec => review_id spec
  | LoopUntil id _ _ _ => id
  | Cond id _ _ _ => id
  | Expand id _ _ _ => id
  end.

Definition control_kind_name (n : WorkflowNode) : list N :=
  match n with
  | BranchSet _ _ => lit "branch_set"
  | Leaf _ => lit "leaf"
  | Sequence _ _ => lit "sequence"
  | Reduce _ => lit "reduce"
  | TeacherReview _ => lit "teacher_review"
  | LoopUntil _ _ _ _ => lit "loop_until"
  | Cond _ _ _ _ => lit "cond"
  | Expand _ _ _ _ => lit "expand"
  end.

(** Induction with the nodes inside lists and templates. *)
Section NodeInd.
Variable P : WorkflowNode -> Prop.
Hypothesis HBranch : forall h cs, Forall P cs -> P (BranchSet h cs).
Hypothesis HLeaf : forall s, P (Leaf s).
Hypothesis HSeq : forall i cs, Forall P cs -> P (Sequence i cs).
Hypothesis HReduce : forall s, P (Reduce s).
Hypothesis HReview : forall s, P (TeacherReview s).
Hypothesis HLoop : forall i c m cs, Forall P cs -> P (LoopUntil i c m cs).
Hypothesis HCond : forall i c ts es, Forall P ts -> Forall P es -> P (Cond i c ts es).
Hypothesis HExpand : forall i s m t, (forall n, t = Some n -> P n) -> P (Expand i s m t).

Fixpoint node_ind' (n : WorkflowNode) : P n :=
  let all := fix all (ns : list WorkflowNode) : Forall P ns :=
    match ns with [] => Forall_nil_2 P | n :: ns => Forall_cons_2 P n ns (node_ind' n) (all ns) end in
  match n with
  | BranchSet h cs => HBranch h cs (all cs)
  | Leaf s => HLeaf s
  | Sequence i cs => HSeq i cs (all cs)
  | Reduce s => HReduce s
  | TeacherReview s => HReview s
  | LoopUntil i c m cs => HLoop i c m cs (all cs)
  | Cond i c ts es => HCond i c ts es (all ts) (all es)
  | Expand i s m t =>
      HExpand i s m t
        (match t with
         | Some x => fun n (E : Some x = Some n) => match E in _ = o return match o with Some y => P y | None => True end
                                                 with eq_refl => node_ind' x end
         | None => fun n (E : None = Some n) => match E in _ = o return match o with Some y => P y | None => True end
                                                with eq_refl => I end
         end)
  end.
End NodeInd.

(** ** Roles (role_resolve.rs) *)

Definition bad_token_char (c : N) : bool :=
  is_whitespace c || (c =? c_dquote)%N || (c =? c_squote)%N || (c =? 96)%N || (c =? 61)%N.

Definition normalize_token (raw : list N) : option (list N) :=
  let trimmed := trim raw in
  if str_is_empty trimmed then None
  else if existsb bad_token_char trimmed then None
  else Some (to_ascii_lowercase trimmed).

Inductive FleetRoleResolveError : Type :=
| EmptyRole | EmptyProfile
| UnknownRole (role known : list N)
| MissingRoleOrProfile
| InvalidRoleToken (role : list N).

Definition validate_role_token (role : list N) : result (list N) FleetRoleResolveError :=
  match normalize_token role with Some t => Ok t | None => Err (InvalidRoleToken role) end.

(** ** Validation *)

Inductive WorkflowExecutionError : Type :=
| EmptyNodeId (kind : list N)
| EmptyLeafPrompt (leaf : list N)
| InvalidLeafProfile (leaf profile : list N)
| InvalidLeafRole (leaf role : list N)
| DuplicateNodeId (node : list N)
| UnknownNodeReference (node field reference : list N).

Definition validate_leaf_profile (leaf profile : list N) : result unit WorkflowExecutionError :=
  if str_is_empty profile || existsb bad_token_char profile then Err (InvalidLeafProfile leaf profile) else Ok tt.

Definition validate_leaf_role (leaf role : list N) : result unit WorkflowExecutionError :=
  match validate_role_token role with Err _ => Err (InvalidLeafRole leaf role) | Ok _ => Ok tt end.

Definition validate_leaf (spec : LeafSpec) : result unit WorkflowExecutionError :=
  if str_is_empty (trim (prompt spec)) then Err (EmptyLeafPrompt (leaf_id spec))
  else
    let? _ := match leaf_role spec with Some role => validate_leaf_role (leaf_id spec) role | None => Ok tt end in
    match profile spec with Some profile => validate_leaf_profile (leaf_id spec) profile | None => Ok tt end.

(** The set of ids seen so far is threaded through. *)
Abbreviation Ids := (gset (list N)) (only parsing).

Section Each.
Context {A E S : Type} (f : A -> S -> result S E).
Fixpoint try_each (l : list A) (s : S) : result S E :=
  match l with
  | [] => Ok s
  | x :: l => let? s := f x s in try_each l s
  end.
End Each.

Fixpoint validate_node (n : WorkflowNode) (seen : Ids) : result Ids WorkflowExecutionError :=
  if str_is_empty (trim (node_id n)) then Err (EmptyNodeId (control_kind_name n))
  else if bool_decide (node_id n ∈ seen) then Err (DuplicateNodeId (node_id n))
  else
    let seen : Ids := {[node_id n]} ∪ seen in
    match n with
    | BranchSet _ children => try_each validate_node children seen
    | Leaf spec => let? _ := validate_leaf spec in Ok seen
    | Sequence _ children => try_each validate_node children seen
    | LoopUntil _ _ _ children => try_each validate_node children seen
    | Cond _ _ then_nodes else_nodes =>
        let? seen := try_each validate_node then_nodes seen in try_each validate_node else_nodes seen
    | Reduce _ | TeacherReview _ | Expand _ _ _ _ => Ok seen
    end.

Definition validate_workflow_nodes_inner (ns : list WorkflowNode) (seen : Ids) : result Ids WorkflowExecutionError :=
  try_each validate_node ns seen.

Definition validate_workflow_node_shapes (ns : list WorkflowNode) : result unit WorkflowExecutionError :=
  let? _ := validate_workflow_nodes_inner ns ∅ in Ok tt.

Fixpoint validate_known_references (node field : list N) (references : list (list N)) (known_ids : Ids)
    : result unit WorkflowExecutionError :=
  match references with
  | [] => Ok tt
  | reference :: rest =>
      if negb (bool_decide (reference ∈ known_ids)) then Err (UnknownNodeReference node field reference)
      else validate_known_references node field rest known_ids
  end.

Fixpoint validate_references (known_ids : Ids) (n : WorkflowNode) : result unit WorkflowExecutionError :=
  let each ns := try_each (fun n (_ : unit) => validate_references known_ids n) ns tt in
  match n with
  | BranchSet _ children => each children
  | Leaf spec => validate_known_references (leaf_id spec) (lit "depends_on_results") (depends_on_results spec) known_ids
  | Sequence _ children => each children
  | Reduce spec => validate_known_references (reduce_id spec) (lit "inputs") (inputs spec) known_ids
  | TeacherReview spec => validate_known_references (review_id spec) (lit "candidates") (candidates spec) known_ids
  | LoopUntil _ _ _ children => each children
  | Cond _ _ then_nodes else_nodes => let? _ := each then_nodes in each else_nodes
  | Expand _ _ _ _ => Ok tt
  end.

Definition validate_workflow_references (ns : list WorkflowNode) (known_ids : Ids)
    : result unit WorkflowExecutionError :=
  try_each (fun n (_ : unit) => validate_references known_ids n) ns tt.

Definition validate_workflow_nodes (ns : list WorkflowNode) : result unit WorkflowExecutionError :=
  let? seen := validate_workflow_nodes_inner ns ∅ in validate_workflow_references ns seen.

(** ** Isolation *)

Definition resolve_isolation (m : IsolationMode) (parallel_write : bool) : IsolationMode :=
  match m with
  | Auto => if parallel_write then Worktree else Shared
  | other => other
  end.

Definition wants_worktree (m : IsolationMode) (parallel_write : bool) : bool :=
  match resolve_isolation m parallel_write with Worktree => true | _ => false end.

Definition leaf_is_write_capable (spec : LeafSpec) : bool :=
  bool_decide (mode spec = ReadWrite) || allow_write (leaf_permissions spec).

Definition leaf_wants_worktree (spec : LeafSpec) (parallel : bool) : bool :=
  wants_worktree (isolation spec) (parallel && leaf_is_write_capable spec).

(** ** The shape of a fleet

    A [usize] is 64 bits wide; sums and products saturate. *)

Definition usize_max : N := 18446744073709551615.
Definition usize_add (a b : N) : N := N.min (a + b) usize_max.
Definition usize_mul (a b : N) : N := N.min (a * b) usize_max.

Record WorkflowFleetShape : Type := { total_agents : N; max_depth : N }.

Definition shape_zero : WorkflowFleetShape := {| total_agents := 0; max_depth := 0 |}.
Definition shape_add (a b : WorkflowFleetShape) : WorkflowFleetShape :=
  {| total_agents := usize_add (total_agents a) (total_agents b); max_depth := N.max (max_depth a) (max_depth b) |}.
Definition shape_repeat (a : WorkflowFleetShape) (times : N) : WorkflowFleetShape :=
  {| total_agents := usize_mul (total_agents a) times; max_depth := max_depth a |}.

Record WorkflowFleetLimits : Type := { max_total_agents : N; limit_depth : N }.
Definition default_limits : WorkflowFleetLimits := {| max_total_agents := 1000; limit_depth := 5 |}.

Inductive WorkflowFleetLimitError : Type :=
| InvalidWorkflow (source : WorkflowExecutionError)
| TooManyAgents (total max_total : N)
| RecursionTooDeep (depth max_depth : N)
| UnboundedExpand (node : list N)
| MissingExpandTemplate (node : list N)
| UnboundedLoop (node : list N).

Definition map_invalid {A} (r : result A WorkflowExecutionError) : result A WorkflowFleetLimitError :=
  match r with Ok a => Ok a | Err e => Err (InvalidWorkflow e) end.

(** [depth + 1] on a depth is exact: a tree in memory is not that deep. *)
Fixpoint estimate_node_fleet_shape (n : WorkflowNode) (depth : N)
    : result WorkflowFleetShape WorkflowFleetLimitError :=
  let each ns depth :=
    try_each (fun n shape => let? s := estimate_node_fleet_shape n depth in Ok (shape_add shape s)) ns shape_zero in
  match n with
  | Leaf _ => Ok {| total_agents := 1; max_depth := depth |}
  | BranchSet _ children => each children (depth + 1)%N
  | Sequence _ children => each children depth
  | Reduce _ | TeacherReview _ => Ok shape_zero
  | LoopUntil id _ max_iterations children =>
      match max_iterations with
      | None => Err (UnboundedLoop id)
      | Some iterations => let? s := each children depth in Ok (shape_repeat s (N.max iterations 1))
      end
  | Cond _ _ then_nodes else_nodes =>
      let? a := each then_nodes depth in
      let? b := each else_nodes depth in
      Ok (shape_add a b)
  | Expand id _ max_children template =>
      match max_children with
      | None => Err (UnboundedExpand id)
      | Some max_children =>
          match template with
          | None => Err (MissingExpandTemplate id)
          | Some template =>
              let? _ := map_invalid (validate_workflow_node_shapes [template]) in
              let? s := estimate_node_fleet_shape template depth in
              Ok (shape_repeat s max_children)
          end
      end
  end.

Definition estimate_fleet_shape_at_depth (ns : list WorkflowNode) (depth : N)
    : result WorkflowFleetShape WorkflowFleetLimitError :=
  try_each (fun n shape => let? s := estimate_node_fleet_shape n depth in Ok (shape_add shape s)) ns shape_zero.

Definition estimate_fleet_shape (ns : list WorkflowNode) : result WorkflowFleetShape WorkflowFleetLimitError :=
  estimate_fleet_shape_at_depth ns 1.

Definition validate_for_fleet_with_limits (spec : WorkflowSpec) (limits : WorkflowFleetLimits)
    : result WorkflowFleetShape WorkflowFleetLimitError :=
  let? _ := map_invalid (validate_workflow_nodes (nodes spec)) in
  let? shape := estimate_fleet_shape (nodes spec) in
  if (max_total_agents limits <? total_agents shape)%N
  then Err (TooManyAgents (total_agents shape) (max_total_agents limits))
  else if (limit_depth limits <? max_depth shape)%N
  then Err (RecursionTooDeep (max_depth shape) (limit_depth limits))
  else Ok shape.

Definition validate_for_fleet (spec : WorkflowSpec) : result WorkflowFleetShape WorkflowFleetLimitError :=
  validate_for_fleet_with_limits spec default_limits.

End WfNodes.
