(* ===== verification/WfExec.v ===== *)
(** * Deterministic execution of workflows (crates/workflow/src/lib.rs)

    [MockWorkflowExecutor]: the reference semantics of the workflow tree. A leaf takes its
    outcome from a table, a predicate its next recorded value, and an expansion the nodes
    recorded for it. The recursion into recorded nodes is not structural; it takes fuel, and
    each level of it uses up an entry of the table. *)

From stdpp Require Import base list option strings gmap.
From Stdlib Require Import Lia NArith.
From S2P Require Import Prelude RustStr RustNum WfGates WfNodes.

Module WfExec.
Import WfNodes.

Definition u64_max : N := 18446744073709551615.
Definition u64_sat_add (a b : N) : N := N.min (a + b) u64_max.
Definition u32_sat_add (a b : N) : N := N.min (a + b) u32_max.

Inductive WorkflowRunStatus : Type :=
| Pending | Running | Succeeded | Failed | Cancelled | BudgetExceeded | ReplayDiverged.

#[export] Instance WorkflowRunStatus_eq_dec : EqDecision WorkflowRunStatus.
Proof. solve_decision. Defined.

Inductive ControlNodeKind : Type :=
| KBranchSet | KLeaf | KSequence | KReduce | KTeacherReview | KLoopUntil | KCond | KExpand.

(** ** Usage *)

Record WorkflowUsage : Type := {
  input_tokens : option N; output_tokens : option N; cost_microusd : option N }.

Definition usage_default : WorkflowUsage := {| input_tokens := None; output_tokens := None; cost_microusd := None |}.
Definition usage_zero : WorkflowUsage := {| input_tokens := Some 0; output_tokens := Some 0; cost_microusd := Some 0 |}%N.

Definition sum_reported (left right : option N) : option N :=
  match left, right with Some l, Some r => Some (u64_sat_add l r) | _, _ => None end.

Definition total_tokens (u : WorkflowUsage) : option N := sum_reported (input_tokens u) (output_tokens u).

Definition usage_add (a b : WorkflowUsage) : WorkflowUsage :=
  {| input_tokens := sum_reported (input_tokens a) (input_tokens b);
     output_tokens := sum_reported (output_tokens a) (output_tokens b);
     cost_microusd := sum_reported (cost_microusd a) (cost_microusd b) |}.

Record WorkflowMemoUsage : Type := {
  armh_hits : N; armh_misses : N; armh_saved_estimated_tokens : N;
  provider_prompt_cache_hits : N; provider_prompt_cache_misses : N }.

Definition memo_default : WorkflowMemoUsage :=
  {| armh_hits := 0; armh_misses := 0; armh_saved_estimated_tokens := 0;
     provider_prompt_cache_hits := 0; provider_prompt_cache_misses := 0 |}.

Definition memo_add (a b : WorkflowMemoUsage) : WorkflowMemoUsage :=
  {| armh_hits := u64_sat_add (armh_hits a) (armh_hits b);
     armh_misses := u64_sat_add (armh_misses a) (armh_misses b);
     armh_saved_estimated_tokens := u64_sat_add (armh_saved_estimated_tokens a) (armh_saved_estimated_tokens b);
     provider_prompt_cache_hits := u64_sat_add (provider_prompt_cache_hits a) (provider_prompt_cache_hits b);
     provider_prompt_cache_misses := u64_sat_add (provider_prompt_cache_misses a) (provider_prompt_cache_misses b) |}.

(** ** Results *)

Record LeafResult : Type := {
  lr_leaf_id : list N; lr_task_id : list N; lr_role : option (list N); lr_profile : option (list N);
  lr_status : WorkflowRunStatus; lr_usage : WorkflowUsage; lr_memo_usage : WorkflowMemoUsage;
  lr_output : option (list N); lr_artifacts : list (list N); lr_schema_error : option (list N) }.

Record BranchResult : Type := {
  br_branch_id : list N; br_task_id : list N; br_status : WorkflowRunStatus; br_usage : WorkflowUsage;
  br_memo_usage : WorkflowMemoUsage; br_artifacts : list (list N); br_notes : option (list N) }.

Record ControlNodeResult : Type := {
  cr_node_id : list N; cr_kind : ControlNodeKind; cr_status : WorkflowRunStatus;
  cr_selected_children : list (list N); cr_summary : option (list N) }.

Record WorkflowExecution : Type := {
  status : WorkflowRunStatus;
  usage : WorkflowUsage;
  memo_usage : WorkflowMemoUsage;
  leaf_results : list LeafResult;
  branch_results : list BranchResult;
  control_node_results : list ControlNodeResult
}.

Definition execution_default : WorkflowExecution :=
  {| status := Succeeded; usage := usage_default; memo_usage := memo_default; leaf_results := [];
     branch_results := []; control_node_results := [] |}.

(** [mark_failed] and the like. *)
Definition mark (s : WorkflowRunStatus) (e : WorkflowExecution) : WorkflowExecution :=
  {| status := s; usage := usage e; memo_usage := memo_usage e; leaf_results := leaf_results e;
     branch_results := branch_results e; control_node_results := control_node_results e |}.

Definition mark_execution_for_status (e : WorkflowExecution) (s : WorkflowRunStatus) : WorkflowExecution :=
  match s with Succeeded | Pending | Running => e | other => mark other e end.

Definition should_stop (e : WorkflowExecution) : bool :=
  match status e with Cancelled | BudgetExceeded => true | _ => false end.

Definition push_control (r : ControlNodeResult) (e : WorkflowExecution) : WorkflowExecution :=
  {| status := status e; usage := usage e; memo_usage := memo_usage e; leaf_results := leaf_results e;
     branch_results := branch_results e; control_node_results := control_node_results e ++ [r] |}.

Definition push_branch (r : BranchResult) (e : WorkflowExecution) : WorkflowExecution :=
  {| status := status e; usage := usage e; memo_usage := memo_usage e; leaf_results := leaf_results e;
     branch_results := branch_results e ++ [r]; control_node_results := control_node_results e |}.

(** Adds a leaf and its usage. *)
Definition push_leaf (r : LeafResult) (e : WorkflowExecution) : WorkflowExecution :=
  {| status := status e;
     usage := match leaf_results e with [] => lr_usage r | _ => usage_add (usage e) (lr_usage r) end;
     memo_usage := memo_add (memo_usage e) (lr_memo_usage r);
     leaf_results := leaf_results e ++ [r];
     branch_results := branch_results e; control_node_results := control_node_results e |}.

Definition aggregate_mock_status (results : list LeafResult) : WorkflowRunStatus :=
  if existsb (fun r => bool_decide (lr_status r = Cancelled)) results then Cancelled
  else if existsb (fun r => bool_decide (lr_status r = BudgetExceeded)) results then BudgetExceeded
  else if existsb (fun r => negb (bool_decide (lr_status r = Succeeded))) results then Failed
  else Succeeded.

(** The loop that adds up usage: the first result sets it. *)
Definition usage_of (results : list LeafResult) : WorkflowUsage :=
  match results with [] => usage_default | r :: rs => fold_left (fun u r => usage_add u (lr_usage r)) rs (lr_usage r) end.

Definition memo_of (results : list LeafResult) : WorkflowMemoUsage :=
  fold_left (fun u r => memo_add u (lr_memo_usage r)) results memo_default.

(** ** The executor *)

Record MockLeafOutcome : Type := {
  mo_status : WorkflowRunStatus; mo_usage : WorkflowUsage; mo_memo_usage : WorkflowMemoUsage;
  mo_output : option (list N); mo_artifacts : list (list N) }.

Definition outcome_succeeded (output : list N) : MockLeafOutcome :=
  {| mo_status := Succeeded; mo_usage := usage_default; mo_memo_usage := memo_default;
     mo_output := Some output; mo_artifacts := [] |}.

Definition refused (s : WorkflowRunStatus) (output : list N) : MockLeafOutcome :=
  {| mo_status := s; mo_usage := usage_zero; mo_memo_usage := memo_default; mo_output := Some output;
     mo_artifacts := [] |}.

Record Mock : Type := {
  leaf_outcomes : gmap (list N) MockLeafOutcome;
  predicate_results : gmap (list N) (list bool);
  generated_nodes : gmap (list N) (list WorkflowNode);
  cancelled : bool;
  max_leaf_steps : option N;
  leaf_steps_executed : N;
  max_leaf_tokens : option N;
  leaf_tokens_used : N
}.

Definition count_step (m : Mock) : Mock :=
  {| leaf_outcomes := leaf_outcomes m; predicate_results := predicate_results m;
     generated_nodes := generated_nodes m; cancelled := cancelled m; max_leaf_steps := max_leaf_steps m;
     leaf_steps_executed := u32_sat_add (leaf_steps_executed m) 1; max_leaf_tokens := max_leaf_tokens m;
     leaf_tokens_used := leaf_tokens_used m |}.

Definition take_outcome (id : list N) (m : Mock) : Mock :=
  {| leaf_outcomes := delete id (leaf_outcomes m); predicate_results := predicate_results m;
     generated_nodes := generated_nodes m; cancelled := cancelled m; max_leaf_steps := max_leaf_steps m;
     leaf_steps_executed := leaf_steps_executed m; max_leaf_tokens := max_leaf_tokens m;
     leaf_tokens_used := leaf_tokens_used m |}.

Definition count_tokens (n : N) (m : Mock) : Mock :=
  {| leaf_outcomes := leaf_outcomes m; predicate_results := predicate_results m;
     generated_nodes := generated_nodes m; cancelled := cancelled m; max_leaf_steps := max_leaf_steps m;
     leaf_steps_executed := leaf_steps_executed m; max_leaf_tokens := max_leaf_tokens m;
     leaf_tokens_used := u64_sat_add (leaf_tokens_used m) n |}.

Definition set_predicates (id : list N) (rs : list bool) (m : Mock) : Mock :=
  {| leaf_outcomes := leaf_outcomes m; predicate_results := <[id := rs]> (predicate_results m);
     generated_nodes := generated_nodes m; cancelled := cancelled m; max_leaf_steps := max_leaf_steps m;
     leaf_steps_executed := leaf_steps_executed m; max_leaf_tokens := max_leaf_tokens m;
     leaf_tokens_used := leaf_tokens_used m |}.

Definition take_generated (id : list N) (m : Mock) : Mock :=
  {| leaf_outcomes := leaf_outcomes m; predicate_results := predicate_results m;
     generated_nodes := delete id (generated_nodes m); cancelled := cancelled m; max_leaf_steps := max_leaf_steps m;
     leaf_steps_executed := leaf_steps_executed m; max_leaf_tokens := max_leaf_tokens m;
     leaf_tokens_used := leaf_tokens_used m |}.

Definition steps_exhausted (m : Mock) : bool :=
  match max_leaf_steps m with Some max => (0 <? max)%N && (max <=? leaf_steps_executed m)%N | None => false end.

Definition tokens_exhausted (m : Mock) : bool :=
  match max_leaf_tokens m with Some max => (max <=? leaf_tokens_used m)%N | None => false end.

Definition mock_leaf_outcome (spec : LeafSpec) (m : Mock) : Mock * MockLeafOutcome :=
  if cancelled m then (m, refused Cancelled (lit "mock workflow cancelled before leaf execution"))
  else if steps_exhausted m then (m, refused BudgetExceeded (lit "mock workflow leaf step budget exhausted"))
  else if tokens_exhausted m || bool_decide (max_tokens (leaf_budget spec) = Some 0%N)
  then (m, refused BudgetExceeded (lit "mock workflow leaf token budget exhausted"))
  else
    let m := count_step m in
    let outcome := default (outcome_succeeded (lit "mock leaf " ++ leaf_id spec)) (leaf_outcomes m !! leaf_id spec) in
    let m := take_outcome (leaf_id spec) m in
    match max_tokens (leaf_budget spec), total_tokens (mo_usage outcome) with
    | Some cap, Some tokens =>
        if (cap <? tokens)%N
        then (m, {| mo_status := BudgetExceeded; mo_usage := mo_usage outcome; mo_memo_usage := mo_memo_usage outcome;
                    mo_output := Some (lit "mock workflow leaf token budget exhausted (" ++ dec tokens ++ lit " > " ++
                                       dec cap ++ lit ")");
                    mo_artifacts := mo_artifacts outcome |})
        else (count_tokens tokens m, outcome)
    | _, Some tokens => (count_tokens tokens m, outcome)
    | _, None => (m, outcome)
    end.

Definition next_predicate_result (id : list N) (m : Mock) : Mock * bool :=
  match predicate_results m !! id with
  | Some (r :: rs) => (set_predicates id rs m, r)
  | _ => (m, false)
  end.

(** The state of a run, and what a run comes to. *)
Abbreviation State := (Mock * WorkflowExecution)%type.

Inductive outcome (A : Type) : Type := Done (a : A) | Error (e : WorkflowExecutionError) | NoFuel.
Arguments Done {A} a.
Arguments Error {A} e.
Arguments NoFuel {A}.

Definition obind {A B} (r : outcome A) (k : A -> outcome B) : outcome B :=
  match r with Done a => k a | Error e => Error e | NoFuel => NoFuel end.

Definition lift {A} (r : result A WorkflowExecutionError) : outcome A :=
  match r with Ok a => Done a | Err e => Error e end.

Definition execute_leaf (spec : LeafSpec) (s : State) : State :=
  let '(m, o) := mock_leaf_outcome spec s.1 in
  let e := mark_execution_for_status s.2 (mo_status o) in
  (m, push_leaf {| lr_leaf_id := leaf_id spec; lr_task_id := leaf_id spec; lr_role := leaf_role spec;
                   lr_profile := profile spec; lr_status := mo_status o; lr_usage := mo_usage o;
                   lr_memo_usage := mo_memo_usage o; lr_output := mo_output o; lr_artifacts := mo_artifacts o;
                   lr_schema_error := None |} e).

Section Nodes.
Context (execute_node : WorkflowNode -> State -> outcome State).

Fixpoint execute_nodes (ns : list WorkflowNode) (s : State) : outcome State :=
  match ns with
  | [] => Done s
  | n :: ns => if should_stop s.2 then Done s else obind (execute_node n s) (execute_nodes ns)
  end.

(** The loop of [execute_loop_until] with [remaining] iterations left: the state, the iterations
    that ran and whether the predicate held. *)
Fixpoint loop_until (id : list N) (ns : list WorkflowNode) (remaining : nat) (iterations : N) (s : State)
    : outcome (State * N * bool) :=
  match remaining with
  | 0 => Done (s, iterations, false)
  | S remaining =>
      if should_stop s.2 then Done (s, iterations, false)
      else
        let iterations := (iterations + 1)%N in
        obind (execute_nodes ns s) (fun s =>
        if should_stop s.2 then Done (s, iterations, false)
        else let '(m, passed) := next_predicate_result id s.1 in
             if passed then Done ((m, s.2), iterations, true)
             else loop_until id ns remaining iterations (m, s.2))
  end.

End Nodes.

Definition stop_or (s : WorkflowRunStatus) (e : WorkflowExecution) : WorkflowRunStatus :=
  if should_stop e then status e else s.

(** [expand] runs the recorded nodes of an expansion. *)
Section Level.
Context (expand : list WorkflowNode -> State -> outcome State).

Fixpoint execute_node (n : WorkflowNode) (s : State) {struct n} : outcome State :=
  match n with
  | Leaf spec => Done (execute_leaf spec s)
  | BranchSet head children =>
      let before := length (leaf_results s.2) in
      obind (execute_nodes execute_node children s) (fun s =>
      let results := drop before (leaf_results s.2) in
      let st := aggregate_mock_status results in
      let e := mark_execution_for_status s.2 st in
      let e := push_branch
        {| br_branch_id := branch_id head; br_task_id := branch_id head; br_status := st; br_usage := usage_of results;
           br_memo_usage := memo_of results; br_artifacts := [];
           br_notes := Some (lit "mock branch set executed without runtime fanout") |} e in
      Done (s.1, push_control
        {| cr_node_id := branch_id head; cr_kind := KBranchSet; cr_status := st;
           cr_selected_children := node_id <$> children;
           cr_summary := Some (lit "branch set scaffold executed children deterministically") |} e))
  | Sequence id children =>
      obind (execute_nodes execute_node children s) (fun s =>
      Done (s.1, push_control
        {| cr_node_id := id; cr_kind := KSequence; cr_status := status s.2;
           cr_selected_children := node_id <$> children;
           cr_summary := Some (lit "sequence executed in declaration order") |} s.2))
  | Reduce spec =>
      Done (s.1, push_control
        {| cr_node_id := reduce_id spec; cr_kind := KReduce; cr_status := Succeeded;
           cr_selected_children := inputs spec; cr_summary := Some (reduce_prompt spec) |} s.2)
  | TeacherReview spec =>
      Done (s.1, push_control
        {| cr_node_id := review_id spec; cr_kind := KTeacherReview; cr_status := Succeeded;
           cr_selected_children := candidates spec;
           cr_summary := Some (lit "teacher review scaffold selected declared candidates") |} s.2)
  | LoopUntil id _ max_iterations children =>
      let max := N.max (default 1%N max_iterations) 1 in
      obind (loop_until execute_node id children (N.to_nat max) 0 s) (fun '(s, iterations, passed) =>
      let st := stop_or (if passed then Succeeded else Failed) s.2 in
      let e := mark_execution_for_status s.2 st in
      Done (s.1, push_control
        {| cr_node_id := id; cr_kind := KLoopUntil; cr_status := st; cr_selected_children := node_id <$> children;
           cr_summary := Some (lit "loop_until iterations=" ++ dec iterations) |} e))
  | Cond id _ then_nodes else_nodes =>
      let '(m, passed) := next_predicate_result id s.1 in
      let cond_result (ns : list WorkflowNode) (s : State) :=
        push_control
          {| cr_node_id := id; cr_kind := KCond; cr_status := stop_or Succeeded s.2;
             cr_selected_children := node_id <$> ns;
             cr_summary := Some (lit "predicate_result=" ++ lit (if passed then "true" else "false")) |} s.2 in
      if passed
      then obind (execute_nodes execute_node then_nodes (m, s.2)) (fun s => Done (s.1, cond_result then_nodes s))
      else obind (execute_nodes execute_node else_nodes (m, s.2)) (fun s => Done (s.1, cond_result else_nodes s))
  | Expand id source max_children _ =>
      let ns := default [] (generated_nodes s.1 !! id) in
      let s := (take_generated id s.1, s.2) in
      let ns := match max_children with Some k => take (N.to_nat k) ns | None => ns end in
      obind (lift (validate_workflow_node_shapes ns)) (fun _ =>
      obind (expand ns s) (fun s =>
      Done (s.1, push_control
        {| cr_node_id := id; cr_kind := KExpand; cr_status := stop_or Succeeded s.2;
           cr_selected_children := node_id <$> ns; cr_summary := Some (lit "expanded_from=" ++ source) |} s.2)))
  end.

End Level.

(** [fuel] levels of expansions inside expansions; an empty one needs none. *)
Fixpoint expand_level (fuel : nat) (ns : list WorkflowNode) (s : State) : outcome State :=
  match ns, fuel with
  | [], _ => Done s
  | _, 0 => NoFuel
  | _, S fuel => execute_nodes (execute_node (expand_level fuel)) ns s
  end.

(** Enough: see [run_total]. *)
Definition expand_fuel (m : Mock) : nat := size (generated_nodes m).

Definition run (m : Mock) (spec : WorkflowSpec) : outcome State :=
  obind (lift (validate_workflow_nodes (nodes spec))) (fun _ =>
  execute_nodes (execute_node (expand_level (expand_fuel m))) (nodes spec) (m, execution_default)).

End WfExec.
