(* ===== verification/WfExecTheorems.v ===== *)
(** * Theorems on executions of workflows *)

From stdpp Require Import base list option strings gmap.
From Stdlib Require Import Lia NArith.
From S2P Require Import Prelude RustStr RustNum WfGates WfNodes WfExec.

(** * What an execution of a workflow keeps

    One principle, [execute_keeps], says that a relation between states which every single
    step keeps holds for whole executions. Termination, the accounting of usage and stops,
    and the bound on the agents of a fleet are instances or follow the same induction. *)

Module WfExecFacts.
Import WfNodes WfExec.

Lemma obind_Done {A B} (r : outcome A) (k : A -> outcome B) b :
  obind r k = Done b <-> exists a, r = Done a /\ k a = Done b.
Proof. destruct r; simpl; naive_solver. Qed.

Lemma obind_NoFuel {A B} (r : outcome A) (k : A -> outcome B) :
  obind r k = NoFuel <-> r = NoFuel \/ exists a, r = Done a /\ k a = NoFuel.
Proof. destruct r; simpl; naive_solver. Qed.

Lemma lift_NoFuel {A} (r : result A WorkflowExecutionError) : lift r <> NoFuel.
Proof. by destruct r. Qed.

(** ** Relations kept by every step *)

Record kept (Q : State -> State -> Prop) : Prop := {
  k_refl : forall s, Q s s;
  k_trans : forall a b c, Q a b -> Q b c -> Q a c;
  k_leaf : forall spec s, should_stop s.2 = false -> Q s (execute_leaf spec s);
  k_control : forall r s, Q s (s.1, push_control r s.2);
  k_predicate : forall id s, Q s ((next_predicate_result id s.1).1, s.2);
  k_generated : forall id s, Q s (take_generated id s.1, s.2);
  k_branch : forall r s s', Q s s' ->
    let st := aggregate_mock_status (drop (length (leaf_results s.2)) (leaf_results s'.2)) in
    Q s (s'.1, push_branch r (mark_execution_for_status s'.2 st));
  k_loop : forall st r s, st = Succeeded \/ st = Failed -> cr_kind r = KLoopUntil -> cr_status r = stop_or st s.2 ->
    Q s (s.1, push_control r (mark_execution_for_status s.2 (stop_or st s.2)))
}.

Section Keep.
Context (Q : State -> State -> Prop) (HQ : kept Q).

Definition keeps {A} (f : A -> State -> outcome State) (x : A) : Prop :=
  forall s s', should_stop s.2 = false -> f x s = Done s' -> Q s s'.

Lemma execute_nodes_keeps f ns : Forall (keeps f) ns ->
  forall s s', execute_nodes f ns s = Done s' -> Q s s'.
Proof.
  induction 1 as [|n ns Hn _ IH]; intros s s'; simpl; [intros [= <-]; apply HQ|].
  destruct (should_stop s.2) eqn:Es; [intros [= <-]; apply HQ|].
  intros (s1 & H1 & H2)%obind_Done. eapply HQ; [by eapply Hn|by apply IH].
Qed.

Lemma loop_keeps f id ns : Forall (keeps f) ns ->
  forall k i s s' i' p, loop_until f id ns k i s = Done (s', i', p) -> Q s s'.
Proof.
  intros Hf. induction k as [|k IH]; intros i s s' i' p; simpl; [intros [= <- _ _]; apply HQ|].
  destruct (should_stop s.2) eqn:Es; [intros [= <- _ _]; apply HQ|].
  intros (s1 & H1 & H2)%obind_Done. eapply HQ; [by eapply execute_nodes_keeps|].
  destruct (should_stop s1.2); [simplify_eq; apply HQ|].
  pose proof (k_predicate Q HQ id s1) as Hp.
  destruct (next_predicate_result id s1.1) as [m passed]. simpl in Hp.
  destruct passed; [simplify_eq; exact Hp|]. eapply HQ; [exact Hp|by eapply IH].
Qed.

Lemma execute_node_keeps expand : (forall ns s s', expand ns s = Done s' -> Q s s') ->
  forall n, keeps (execute_node expand) n.
Proof.
  intros He. induction n using node_ind'; intros a b Hs; simpl.
  - intros (s1 & H1 & [= <-])%obind_Done. eapply (execute_nodes_keeps _ cs H) in H1.
    eapply HQ; [by apply (k_branch Q HQ)|]. apply (k_control Q HQ _ (_, _)).
  - intros [= <-]. by apply HQ.
  - intros (s1 & H1 & [= <-])%obind_Done. eapply (execute_nodes_keeps _ cs H) in H1.
    eapply HQ; [exact H1|]. apply HQ.
  - intros [= <-]. apply HQ.
  - intros [= <-]. apply HQ.
  - intros ([[s1 it] passed] & H1 & [= <-])%obind_Done. eapply (loop_keeps _ i cs H) in H1.
    eapply HQ; [exact H1|]. apply HQ; [|done..]. destruct passed; auto.
  - pose proof (k_predicate Q HQ i a) as Hp.
    destruct (next_predicate_result i a.1) as [m passed]. simpl in Hp.
    destruct passed; intros (s1 & H1 & [= <-])%obind_Done; (eapply HQ; [exact Hp|]);
      (eapply HQ; [eapply execute_nodes_keeps; [|exact H1]; assumption|]); apply HQ.
  - intros (_ & _ & (s1 & H1 & [= <-])%obind_Done)%obind_Done. apply He in H1.
    eapply HQ; [apply (k_generated Q HQ i)|]. eapply HQ; [exact H1|]. apply HQ.
Qed.

Lemma expand_level_keeps fuel : forall ns s s', expand_level fuel ns s = Done s' -> Q s s'.
Proof.
  induction fuel as [|fuel IH]; intros [|n ns] s s'; simpl; try (intros [= <-]; apply HQ).
  apply (execute_nodes_keeps (execute_node (expand_level fuel)) (n :: ns)).
  apply Forall_forall. intros x _. by apply execute_node_keeps.
Qed.

Lemma execute_keeps fuel ns s s' :
  execute_nodes (execute_node (expand_level fuel)) ns s = Done s' -> Q s s'.
Proof.
  apply execute_nodes_keeps, Forall_forall. intros n _. apply execute_node_keeps, expand_level_keeps.
Qed.

End Keep.

(** ** Termination *)

Lemma mock_leaf_generated spec m : generated_nodes (mock_leaf_outcome spec m).1 = generated_nodes m.
Proof.
  unfold mock_leaf_outcome. destruct (cancelled m), (steps_exhausted m); try done.
  destruct (_ || _); [done|]. destruct (max_tokens _) as [cap|], (total_tokens _) as [t|]; try done.
  by destruct (cap <? t)%N.
Qed.

Lemma next_predicate_generated id m : generated_nodes (next_predicate_result id m).1 = generated_nodes m.
Proof. unfold next_predicate_result. by destruct (predicate_results m !! id) as [[]|]. Qed.

Lemma generated_shrink : kept (fun s s' => generated_nodes s'.1 ⊆ generated_nodes s.1).
Proof.
  split; simpl; try done.
  - intros a b c H1 H2. by etransitivity.
  - intros spec s _. unfold execute_leaf. pose proof (mock_leaf_generated spec s.1) as H.
    destruct (mock_leaf_outcome spec s.1) as [m o]. simpl in *. by rewrite H.
  - intros id s. by rewrite next_predicate_generated.
  - intros id s. apply delete_subseteq.
Qed.

Lemma size_shrink (s s' : State) : generated_nodes s'.1 ⊆ generated_nodes s.1 ->
  size (generated_nodes s'.1) <= size (generated_nodes s.1).
Proof. intros H. rewrite <- !size_dom. by apply subseteq_size, subseteq_dom. Qed.

(** Enough fuel for the recorded nodes that are left. *)
Definition enough {A} (bound : nat) (f : A -> State -> outcome State) (x : A) : Prop :=
  forall s, size (generated_nodes s.1) <= bound -> f x s <> NoFuel.

Section Total.
Context (bound : nat) (f : WorkflowNode -> State -> outcome State) (ns : list WorkflowNode).
Context (Hf : Forall (enough bound f) ns) (Hk : Forall (keeps (fun s s' => generated_nodes s'.1 ⊆ generated_nodes s.1) f) ns).

Lemma execute_nodes_total s : size (generated_nodes s.1) <= bound -> execute_nodes f ns s <> NoFuel.
Proof.
  revert s. induction ns as [|n l IH]; intros s Hs; simpl; [done|].
  apply Forall_cons in Hf as [Hn Hl], Hk as [Kn Kl].
  destruct (should_stop s.2) eqn:Es; [done|]. intros [H|(s1 & H1 & H2)]%obind_NoFuel; [by eapply Hn|].
  eapply IH; [done|done| |exact H2]. etransitivity; [|exact Hs]. by eapply size_shrink, Kn.
Qed.

Lemma loop_total id k : forall i s, size (generated_nodes s.1) <= bound -> loop_until f id ns k i s <> NoFuel.
Proof.
  induction k as [|k IH]; intros i s Hs; simpl; [done|]. destruct (should_stop s.2) eqn:Es; [done|].
  intros [H|(s1 & H1 & H2)]%obind_NoFuel; [by eapply execute_nodes_total|].
  destruct (should_stop s1.2); [done|]. pose proof (next_predicate_generated id s1.1) as Hp.
  destruct (next_predicate_result id s1.1) as [m passed]. destruct passed; [done|].
  eapply IH; [|exact H2]. simpl in *. rewrite Hp. etransitivity; [|exact Hs].
  apply size_shrink, (execute_nodes_keeps _ generated_shrink f ns Hk _ _ H1).
Qed.

End Total.

Lemma execute_node_total bound expand :
  (forall ns s s', expand ns s = Done s' -> generated_nodes s'.1 ⊆ generated_nodes s.1) ->
  (forall ns s, (ns = [] \/ size (generated_nodes s.1) < bound) -> expand ns s <> NoFuel) ->
  forall n, enough bound (execute_node expand) n.
Proof.
  intros He Ht. pose proof (execute_node_keeps _ generated_shrink expand He) as Hk.
  assert (HK : forall ns, Forall (keeps (fun s s' => generated_nodes s'.1 ⊆ generated_nodes s.1) (execute_node expand)) ns)
    by (intros ns; apply Forall_forall; auto).
  induction n using node_ind'; intros s0 Hs; simpl; try done.
  - intros [H1|(s1 & _ & [=])]%obind_NoFuel. by eapply execute_nodes_total.
  - intros [H1|(s1 & _ & [=])]%obind_NoFuel. by eapply execute_nodes_total.
  - intros [H1|([[s1 it] p] & _ & [=])]%obind_NoFuel. by eapply loop_total.
  - pose proof (next_predicate_generated i s0.1) as Hp.
    destruct (next_predicate_result i s0.1) as [mm passed]. simpl in Hp.
    destruct passed; intros [H1|(s1 & _ & [=])]%obind_NoFuel; revert H1;
      (apply (execute_nodes_total bound); [assumption|apply HK|simpl; by rewrite Hp]).
  - intros [[]%lift_NoFuel|(_ & _ & [H1|(s1 & _ & [=])]%obind_NoFuel)]%obind_NoFuel.
    revert H1. apply Ht. simpl. destruct (generated_nodes s0.1 !! i) as [ns|] eqn:E; simpl.
    + right. eapply Nat.lt_le_trans; [|exact Hs]. rewrite map_size_delete, E.
      assert (size (generated_nodes s0.1) <> 0); [|lia]. intros Hz%map_size_empty_inv. by rewrite Hz in E.
    + left. by destruct m; [rewrite take_nil|].
Qed.

Lemma expand_level_total fuel : forall ns s, ns = [] \/ size (generated_nodes s.1) < fuel ->
  expand_level fuel ns s <> NoFuel.
Proof.
  induction fuel as [|fuel IH]; intros [|n ns] s Hs; simpl; try done.
  { destruct Hs; [done|lia]. }
  destruct Hs as [Hs|Hs]; [done|].
  pose proof (expand_level_keeps _ generated_shrink fuel) as Hk.
  apply (execute_nodes_total fuel (execute_node (expand_level fuel)) (n :: ns)); [| |lia].
  - apply Forall_forall. intros x _. by apply execute_node_total.
  - apply Forall_forall. intros x _. by apply execute_node_keeps; [apply generated_shrink|].
Qed.

(** A run always ends with an execution or an error. *)
Lemma run_total m spec : run m spec <> NoFuel.
Proof.
  unfold run. intros [[]%lift_NoFuel|(_ & _ & H)]%obind_NoFuel. revert H.
  pose proof (expand_level_keeps _ generated_shrink (expand_fuel m)) as Hk.
  apply (execute_nodes_total (expand_fuel m)); [| |done].
  - apply Forall_forall. intros x _. apply execute_node_total; [exact Hk|]. apply expand_level_total.
  - apply Forall_forall. intros x _. by apply execute_node_keeps; [apply generated_shrink|].
Qed.

End WfExecFacts.

Module WfExecTheorems.
Import WfNodes WfExec WfExecFacts.

(** ** Accounting *)

Definition stopping (st : WorkflowRunStatus) : Prop := st = Cancelled \/ st = BudgetExceeded.
Definition harmless (st : WorkflowRunStatus) : Prop := st = Succeeded \/ st = Pending \/ st = Running.

Lemma should_stop_spec e : should_stop e = true <-> stopping (status e).
Proof. unfold should_stop, stopping. destruct (status e); naive_solver. Qed.

Lemma mark_status e st : status (mark_execution_for_status e st) = status e /\ harmless st \/
  status (mark_execution_for_status e st) = st /\ ~ harmless st.
Proof. unfold harmless. destruct st; simpl; naive_solver. Qed.

Lemma mark_rest e st (e' := mark_execution_for_status e st) :
  usage e' = usage e /\ memo_usage e' = memo_usage e /\ leaf_results e' = leaf_results e.
Proof. by destruct st. Qed.

Lemma usage_of_snoc l r :
  usage_of (l ++ [r]) = match l with [] => lr_usage r | _ => usage_add (usage_of l) (lr_usage r) end.
Proof. destruct l as [|x l]; simpl; [done|]. by rewrite fold_left_app. Qed.

Lemma memo_of_snoc l r : memo_of (l ++ [r]) = memo_add (memo_of l) (lr_memo_usage r).
Proof. unfold memo_of. by rewrite fold_left_app. Qed.

Record run_inv (s : State) : Prop := {
  ri_usage : usage s.2 = usage_of (leaf_results s.2);
  ri_memo : memo_usage s.2 = memo_of (leaf_results s.2);
  ri_stop : forall pre r post, leaf_results s.2 = pre ++ r :: post -> stopping (lr_status r) ->
    post = [] /\ status s.2 = lr_status r;
  ri_stopped : stopping (status s.2) -> exists pre r, leaf_results s.2 = pre ++ [r] /\ lr_status r = status s.2;
  ri_ok : harmless (status s.2) -> Forall (fun r => harmless (lr_status r)) (leaf_results s.2)
}.

(** At most the leaves that were counted are on record, and the one that was refused. *)
Definition steps_inv (k : N) (s : State) : Prop :=
  max_leaf_steps s.1 = Some k /\ (leaf_steps_executed s.1 <= k)%N /\
  (N.of_nat (length (leaf_results s.2)) <= leaf_steps_executed s.1 + (if should_stop s.2 then 1 else 0))%N.

Lemma mock_leaf_steps spec m (p := mock_leaf_outcome spec m) :
  max_leaf_steps p.1 = max_leaf_steps m /\
  (leaf_steps_executed p.1 = leaf_steps_executed m /\ stopping (mo_status p.2) \/
   leaf_steps_executed p.1 = u32_sat_add (leaf_steps_executed m) 1 /\ steps_exhausted m = false).
Proof.
  subst p. unfold mock_leaf_outcome, stopping.
  destruct (cancelled m); [simpl; auto|]. destruct (steps_exhausted m); [simpl; auto|].
  destruct (_ || _); [simpl; auto|].
  destruct (max_tokens _) as [cap|], (total_tokens _) as [t|]; simpl; auto.
  destruct (cap <? t)%N; simpl; auto.
Qed.

Lemma stopping_harmless st : stopping st -> ~ harmless st.
Proof. unfold stopping, harmless. destruct st; naive_solver. Qed.

Lemma leaf_keeps_inv spec s : should_stop s.2 = false -> run_inv s -> run_inv (execute_leaf spec s).
Proof.
  intros Hs [U M St Sd Ok]. unfold execute_leaf.
  destruct (mock_leaf_outcome spec s.1) as [m o].
  destruct (mark_rest s.2 (mo_status o)) as (R1 & R2 & R3).
  pose proof (mark_status s.2 (mo_status o)) as Hmark.
  set (e1 := mark_execution_for_status s.2 (mo_status o)) in *. clearbody e1.
  assert (Hns : ~ stopping (status s.2)) by (rewrite <- should_stop_spec; by rewrite Hs).
  split; simpl; rewrite ?R1, ?R2, ?R3.
  - rewrite usage_of_snoc, U. done.
  - rewrite memo_of_snoc, M. done.
  - intros pre r post E Hr. destruct post as [|y post _] using rev_ind.
    + apply app_inj_tail in E as [_ <-]. split; [done|]. simpl in *.
      destruct Hmark as [[_ Hh]|[-> _]]; [by apply stopping_harmless in Hr|done].
    + exfalso. rewrite app_comm_cons, app_assoc in E. apply app_inj_tail in E as [E _].
      destruct (St pre r post E Hr) as [_ E2]. apply Hns. by rewrite E2.
  - intros Hst. eexists _, _. split; [done|]. simpl. destruct Hmark as [[E _]|[E _]]; rewrite E in *; done.
  - intros Hh. destruct Hmark as [[E Hh']|[E Hn]]; rewrite E in Hh; [|done].
    apply Forall_app. split; [by apply Ok|]. by constructor.
Qed.

Lemma leaf_keeps_steps k spec s : (0 < k <= u32_max)%N -> should_stop s.2 = false ->
  steps_inv k s -> steps_inv k (execute_leaf spec s).
Proof.
  intros Hk0 Hs (Hk & S1 & S2). rewrite Hs in S2. unfold execute_leaf.
  destruct (mock_leaf_steps spec s.1) as [Hmax Hsteps].
  destruct (mock_leaf_outcome spec s.1) as [m o]. simpl in Hmax, Hsteps.
  pose proof (mark_status s.2 (mo_status o)) as Hmark.
  destruct (mark_rest s.2 (mo_status o)) as (_ & _ & R3).
  set (e1 := mark_execution_for_status s.2 (mo_status o)) in *. clearbody e1.
  unfold steps_inv. simpl. rewrite R3, Hmax, length_app. simpl. split; [done|].
  destruct Hsteps as [[-> Hst]|[-> Hex]].
  - assert (Estop : should_stop e1 = true).
    { apply should_stop_spec. destruct Hmark as [[_ Hh]|[-> _]]; [by apply stopping_harmless in Hst|done]. }
    unfold should_stop in *. simpl. rewrite Estop. lia.
  - unfold steps_exhausted in Hex. rewrite Hk in Hex. unfold u32_sat_add.
    apply andb_false_iff in Hex as [Hex%N.ltb_ge|Hex%N.leb_gt]; [lia|]. destruct (should_stop _); lia.
Qed.

(** Steps that touch neither leaves nor marks. *)
Lemma inv_same (s s' : State) : leaf_results s'.2 = leaf_results s.2 -> status s'.2 = status s.2 ->
  usage s'.2 = usage s.2 -> memo_usage s'.2 = memo_usage s.2 ->
  run_inv s -> run_inv s'.
Proof.
  intros E1 E2 E3 E4 [U M St Sd Ok]. split; rewrite ?E1, ?E2, ?E3, ?E4; done.
Qed.

Lemma steps_same k (s s' : State) : leaf_results s'.2 = leaf_results s.2 ->
  (should_stop s.2 = true -> should_stop s'.2 = true) ->
  max_leaf_steps s'.1 = max_leaf_steps s.1 -> leaf_steps_executed s'.1 = leaf_steps_executed s.1 ->
  steps_inv k s -> steps_inv k s'.
Proof.
  intros E1 E2 E3 E4 (H1 & H2 & H3). unfold steps_inv. rewrite E1, E3, E4. split_and!; [done..|].
  destruct (should_stop s.2); [by rewrite E2|]. destruct (should_stop s'.2); lia.
Qed.

(** Marking a state that has not stopped as failed. *)
Lemma inv_failed (s : State) : run_inv s -> ~ stopping (status s.2) -> run_inv (s.1, mark Failed s.2).
Proof.
  intros [U M St Sd Ok] Hns.
  assert (Hnone : forall pre r post, leaf_results s.2 = pre ++ r :: post -> ~ stopping (lr_status r)).
  { intros pre x post E Hx. destruct (St _ _ _ E Hx) as [_ E2]. apply Hns. by rewrite E2. }
  split; simpl; [done|done| |by intros [|]|by intros [|[|]]].
  intros pre x post E Hx. by apply Hnone in E.
Qed.

Lemma aggregate_spec l :
  aggregate_mock_status l = Cancelled /\ (exists r, r ∈ l /\ lr_status r = Cancelled) \/
  aggregate_mock_status l = BudgetExceeded /\ (exists r, r ∈ l /\ lr_status r = BudgetExceeded) \/
  (forall r, r ∈ l -> ~ stopping (lr_status r)) /\ (aggregate_mock_status l = Failed \/ aggregate_mock_status l = Succeeded).
Proof.
  unfold aggregate_mock_status, stopping.
  assert (Hex : forall st, existsb (fun r => bool_decide (lr_status r = st)) l = true <-> exists r, r ∈ l /\ lr_status r = st).
  { intros st. rewrite existsb_elem_of. by setoid_rewrite bool_decide_eq_true. }
  destruct (existsb (fun r => bool_decide (lr_status r = Cancelled)) l) eqn:E1; [left; split; [done|by apply Hex]|right].
  destruct (existsb (fun r => bool_decide (lr_status r = BudgetExceeded)) l) eqn:E2; [left; split; [done|by apply Hex]|right].
  split.
  - intros r Hr [H|H].
    + apply not_true_iff_false in E1. rewrite Hex in E1. eauto.
    + apply not_true_iff_false in E2. rewrite Hex in E2. eauto.
  - destruct (existsb (fun r => negb _) l); auto.
Qed.

Lemma mark_same e st : st = status e \/ harmless st -> mark_execution_for_status e st = e.
Proof.
  assert (Hm : mark (status e) e = e) by by destruct e.
  unfold harmless. intros [E|[E|[E|E]]]; try (by rewrite E).
  destruct st; simpl; try done; rewrite E; exact Hm.
Qed.

(** How the state before relates to the state after. *)
Definition run_rel (s s' : State) : Prop :=
  leaf_results s.2 `prefix_of` leaf_results s'.2 /\ (run_inv s -> run_inv s') /\
  (forall k, (0 < k <= u32_max)%N -> run_inv s -> steps_inv k s -> steps_inv k s').

(** The mark of a branch is the one the execution has, or says that a leaf failed. *)
Lemma branch_mark (s s' : State) : leaf_results s.2 `prefix_of` leaf_results s'.2 -> run_inv s' ->
  let st := aggregate_mock_status (drop (length (leaf_results s.2)) (leaf_results s'.2)) in
  mark_execution_for_status s'.2 st = s'.2 \/
  (mark_execution_for_status s'.2 st = mark Failed s'.2 /\ ~ stopping (status s'.2)).
Proof.
  intros [post Hpost] [U M St Sd Ok] st. subst st. rewrite Hpost, drop_app_length.
  destruct (aggregate_spec post) as [[-> (x & Hx & Ex)]|[[-> (x & Hx & Ex)]|[Hnone Hst]]].
  - apply list_elem_of_split in Hx as (p1 & p2 & ->). rewrite app_assoc in Hpost.
    destruct (St _ x _ Hpost) as [_ E]; [by left|]. left. apply mark_same. left. congruence.
  - apply list_elem_of_split in Hx as (p1 & p2 & ->). rewrite app_assoc in Hpost.
    destruct (St _ x _ Hpost) as [_ E]; [by right|]. left. apply mark_same. left. congruence.
  - destruct Hst as [E|E]; rewrite E; [|by left]. right. split; [done|].
    intros Hstop. destruct (Sd Hstop) as (pre & y & Ey & Hy).
    destruct post as [|z post _] using rev_ind; [by rewrite app_nil_r in Hpost; simpl in E|].
    rewrite Hpost, app_assoc in Ey. apply app_inj_tail in Ey as [_ ->].
    apply (Hnone y); [set_solver|]. by rewrite Hy.
Qed.

Lemma next_predicate_steps id m (m' := (next_predicate_result id m).1) :
  max_leaf_steps m' = max_leaf_steps m /\ leaf_steps_executed m' = leaf_steps_executed m.
Proof. subst m'. unfold next_predicate_result. by destruct (predicate_results m !! id) as [[]|]. Qed.

(** Marking a state that has not stopped, or marking it again, keeps everything. *)
Lemma mark_keeps (s : State) e : e = s.2 \/ (e = mark Failed s.2 /\ ~ stopping (status s.2)) ->
  leaf_results e = leaf_results s.2 /\ (run_inv s -> run_inv (s.1, e)) /\
  (forall k, steps_inv k s -> steps_inv k (s.1, e)).
Proof.
  intros [->|[-> Hns]]; split_and!; try done; try (by destruct s).
  - intros Hi. by apply inv_failed.
  - intros k. apply steps_same; try done. by rewrite should_stop_spec.
Qed.

Lemma run_kept : kept run_rel.
Proof.
  split.
  - intros s. by split_and!.
  - intros a b c (H1 & H2 & H3) (K1 & K2 & K3). split_and!; [by etransitivity|auto|]. intros k Hk Hi Hs. auto.
  - intros spec s Hs. split_and!; [|by apply leaf_keeps_inv|intros k Hk _; by apply leaf_keeps_steps].
    unfold execute_leaf. destruct (mock_leaf_outcome spec s.1) as [m o]. simpl.
    destruct (mark_rest s.2 (mo_status o)) as (_ & _ & ->). by eexists.
  - intros r s. split_and!; [done|by apply inv_same|]. intros k _ _. by apply steps_same.
  - intros id s. destruct (next_predicate_steps id s.1) as [H1 H2].
    split_and!; [done|by apply inv_same|]. intros k _ _. by apply steps_same.
  - intros id s. split_and!; [done|by apply inv_same|]. intros k _ _. by apply steps_same.
  - intros r s s' (H1 & H2 & H3) st. split_and!.
    + simpl. destruct (mark_rest s'.2 st) as (_ & _ & ->). done.
    + intros Hi. destruct (mark_keeps s' _ (branch_mark s s' H1 (H2 Hi))) as (_ & K & _).
      specialize (K (H2 Hi)). revert K. by apply inv_same.
    + intros k Hk Hi Hst. destruct (mark_keeps s' _ (branch_mark s s' H1 (H2 Hi))) as (_ & _ & K).
      specialize (K k (H3 k Hk Hi Hst)). revert K. by apply steps_same.
  - intros st r s Hst _ _. assert (Hor : mark_execution_for_status s.2 (stop_or st s.2) = s.2 \/
      (mark_execution_for_status s.2 (stop_or st s.2) = mark Failed s.2 /\ ~ stopping (status s.2))).
    { unfold stop_or. destruct (should_stop s.2) eqn:Es; [left; apply mark_same; by left|].
      rewrite <- should_stop_spec, Es. destruct Hst as [->| ->]; [by left|by right]. }
    destruct (mark_keeps s _ Hor) as (K1 & K2 & K3). split_and!; [simpl; by rewrite K1| |].
    + intros Hi. specialize (K2 Hi). revert K2. by apply inv_same.
    + intros k _ _ Hi. specialize (K3 k Hi). revert K3. by apply steps_same.
Qed.

(** An execution that did not succeed has a leaf that did not, or a loop whose predicate
    never held. *)
Definition has_cause (s : State) : Prop :=
  status s.2 <> Succeeded ->
  (exists r, r ∈ leaf_results s.2 /\ lr_status r <> Succeeded)
  \/ exists c, c ∈ control_node_results s.2 /\ cr_kind c = KLoopUntil /\ cr_status c = Failed.

Definition cause_rel (s s' : State) : Prop :=
  leaf_results s.2 ⊆ leaf_results s'.2 /\ control_node_results s.2 ⊆ control_node_results s'.2
  /\ (has_cause s -> has_cause s').

Lemma cause_same (s s' : State) :
  leaf_results s.2 ⊆ leaf_results s'.2 -> control_node_results s.2 ⊆ control_node_results s'.2 ->
  status s'.2 = status s.2 -> cause_rel s s'.
Proof.
  intros Hl Hc E. split_and!; [done..|]. intros Hs. unfold has_cause. rewrite E. intros Hne.
  destruct (Hs Hne) as [(r & Hr & ?)|(c & Hr & ?)]; [left; exists r|right; exists c]; auto.
Qed.

Lemma aggregate_not_succeeded l :
  aggregate_mock_status l <> Succeeded -> exists r, r ∈ l /\ lr_status r <> Succeeded.
Proof.
  unfold aggregate_mock_status. intros Ha.
  destruct (existsb (fun r => negb (bool_decide (lr_status r = Succeeded))) l) eqn:E.
  - apply existsb_elem_of in E as (r & Hr & Er%negb_true_iff%bool_decide_eq_false). eauto.
  - assert (forall r, r ∈ l -> lr_status r = Succeeded) as Hall.
    { intros r Hr. destruct (decide (lr_status r = Succeeded)) as [|Hne]; [done|]. apply not_true_iff_false in E. destruct E.
      apply existsb_elem_of. exists r. split; [done|]. by rewrite bool_decide_eq_false_2. }
    assert (forall st, st <> Succeeded -> existsb (fun r => bool_decide (lr_status r = st)) l = false) as Hno.
    { intros st Hst. apply not_true_iff_false. intros (r & Hr & Er%bool_decide_eq_true)%existsb_elem_of.
      rewrite (Hall r Hr) in Er. by destruct Hst. }
    by rewrite !Hno in Ha.
Qed.

Lemma cause_kept : kept cause_rel.
Proof.
  split.
  - intros s. by apply cause_same.
  - intros a b c (H1 & H2 & H3) (K1 & K2 & K3). split_and!; [by etransitivity..|auto].
  - intros spec s _. unfold execute_leaf. destruct (mock_leaf_outcome spec s.1) as [m o].
    destruct (mark_rest s.2 (mo_status o)) as (_ & _ & R). destruct (mark_status s.2 (mo_status o)) as [[E _]|[E Hn]].
    + apply cause_same; cbn; rewrite ?R; [set_solver|by destruct (mo_status o)|done].
    + split_and!; cbn; rewrite ?R; [set_solver|by destruct (mo_status o)|]. intros _ _. left. eexists.
      split; [cbn; rewrite elem_of_app; right; by apply list_elem_of_singleton|]. cbn. intros E1. apply Hn. by left.
  - intros r s. apply cause_same; cbn; set_solver.
  - intros id s. by apply cause_same.
  - intros id s. by apply cause_same.
  - intros r s s' (H1 & H2 & H3) st. destruct (mark_rest s'.2 st) as (_ & _ & R).
    split_and!; cbn; rewrite ?R; [done|by destruct st|]. intros Hs. unfold has_cause. cbn. rewrite R.
    destruct (mark_status s'.2 st) as [[-> _]|[-> Hn]].
    + assert (control_node_results (mark_execution_for_status s'.2 st) = control_node_results s'.2) as -> by by destruct st.
      by apply H3.
    + intros Hne. left. destruct (aggregate_not_succeeded _ Hne) as (x & Hx & ?). exists x. split; [|done].
      apply list_elem_of_lookup in Hx as [i Hi]. rewrite lookup_drop in Hi. by eapply list_elem_of_lookup_2.
  - intros st r s Hst Ek Es. unfold stop_or in *. destruct (should_stop s.2).
    + rewrite mark_same by by left. apply cause_same; cbn; set_solver.
    + destruct Hst as [-> | ->]; [apply cause_same; cbn; set_solver|]. split_and!; [done|cbn; set_solver|].
      intros _ _. right. exists r. cbn. set_solver.
Qed.

(** C36: A run of a workflow ends, and its record adds up. The usage of the execution is the
    sum of the usage of its leaves, unknown as soon as one leaf did not report it. A
    cancelled or exhausted leaf is the last one and its status is the status of the
    execution, and an execution that stopped has such a leaf. An execution that succeeded
    has no failed leaf, and one that did not succeed has a leaf that did not or a loop
    whose predicate never held. With a positive limit on steps (zero is no limit) at most
    that many leaves are counted as run, and the record holds no leaf that was not run but
    the refused one, if any, that stopped the execution. *)
Theorem run_accounts_for_its_leaves m spec :
  run m spec <> NoFuel /\
  forall m' e, run m spec = Done (m', e) ->
    usage e = usage_of (leaf_results e) /\ memo_usage e = memo_of (leaf_results e) /\
    (forall pre r post, leaf_results e = pre ++ r :: post -> stopping (lr_status r) ->
       post = [] /\ status e = lr_status r) /\
    (stopping (status e) -> exists pre r, leaf_results e = pre ++ [r] /\ lr_status r = status e) /\
    (status e = Succeeded -> Forall (fun r => harmless (lr_status r)) (leaf_results e)) /\
    (status e <> Succeeded ->
       (exists r, r ∈ leaf_results e /\ lr_status r <> Succeeded)
       \/ exists c, c ∈ control_node_results e /\ cr_kind c = KLoopUntil /\ cr_status c = Failed) /\
    (forall k, max_leaf_steps m = Some k -> (0 < k <= u32_max)%N -> leaf_steps_executed m = 0%N ->
       (leaf_steps_executed m' <= k)%N /\
       (N.of_nat (length (leaf_results e)) <= leaf_steps_executed m' + (if should_stop e then 1 else 0))%N).
Proof.
  split; [apply run_total|]. intros m' e (_ & _ & H)%obind_Done.
  destruct (execute_keeps run_rel run_kept _ _ _ _ H) as (_ & Hinv & Hsteps).
  assert (H0 : run_inv (m, execution_default)).
  { split; simpl; try done; [by intros [|]|by intros [|]]. }
  destruct (Hinv H0) as [U M St Sd Ok]. split_and!; try done; [intros E; apply Ok; by left| |].
  - destruct (execute_keeps cause_rel cause_kept _ _ _ _ H) as (_ & _ & Hc). apply Hc. intros Hne. by destruct Hne.
  - intros k Hk Hk0 Hz. by destruct (Hsteps k Hk0 H0) as (_ & S1 & S2); [split_and!; simpl; [done|lia|lia]|].
Qed.

End WfExecTheorems.
