(* ===== verification/WfFleet.v ===== *)
(** * The limit on the agents of a workflow

    What [validate_for_fleet] computes is a bound on the leaves that a run executes. *)

From stdpp Require Import base list option strings gmap.
From Stdlib Require Import Lia NArith.
From S2P Require Import Prelude RustStr RustNum WfGates WfNodes WfExec WfExecTheorems.

Module WfFleet.
Import WfNodes WfExec WfExecFacts.

(** What the recorded nodes of the expansions in a node must be: nodes with an estimate, at
    depth [d], that is not larger than the one of the template. *)
Inductive fits (gen : gmap (list N) (list WorkflowNode)) : WorkflowNode -> Prop :=
| fits_leaf s : fits gen (Leaf s)
| fits_reduce s : fits gen (Reduce s)
| fits_review s : fits gen (TeacherReview s)
| fits_branch h cs : (forall n, n ∈ cs -> fits gen n) -> fits gen (BranchSet h cs)
| fits_seq i cs : (forall n, n ∈ cs -> fits gen n) -> fits gen (Sequence i cs)
| fits_loop i c m cs : (forall n, n ∈ cs -> fits gen n) -> fits gen (LoopUntil i c m cs)
| fits_cond i c ts es : (forall n, n ∈ ts -> fits gen n) -> (forall n, n ∈ es -> fits gen n) ->
    fits gen (Cond i c ts es)
| fits_expand i src k t :
    (forall ns g, gen !! i = Some ns -> g ∈ ns -> fits gen g) ->
    (forall ns g, gen !! i = Some ns -> g ∈ ns ->
       exists t0, t = Some t0 /\ forall d sh, estimate_node_fleet_shape t0 d = Ok sh ->
         exists sh', estimate_node_fleet_shape g d = Ok sh' /\ (total_agents sh' <= total_agents sh)%N) ->
    fits gen (Expand i src k t).

Lemma fits_mono gen gen' n : gen' ⊆ gen -> fits gen n -> fits gen' n.
Proof.
  intros Hsub. induction 1 as [| | |h cs _ IH|i cs _ IH|i c m cs _ IH|i c ts es _ IH1 _ IH2|i src k t _ IH H];
    constructor; auto; intros ns g Hg Hin; pose proof (lookup_weaken _ _ _ _ Hg Hsub); eauto.
Qed.

Definition leaves (s : State) : N := N.of_nat (length (leaf_results s.2)).

(** ** Estimates *)

Definition each (ns : list WorkflowNode) (d : N) :=
  try_each (fun n shape => let? s := estimate_node_fleet_shape n d in Ok (shape_add shape s)) ns.

Lemma each_cons n ns d sh0 sh : each (n :: ns) d sh0 = Ok sh <->
  exists s, estimate_node_fleet_shape n d = Ok s /\ each ns d (shape_add sh0 s) = Ok sh.
Proof.
  unfold each. cbn [try_each]. destruct (estimate_node_fleet_shape n d) as [s|e]; simpl; naive_solver.
Qed.

Lemma each_grows ns d : forall sh0 sh, each ns d sh0 = Ok sh -> (total_agents sh < usize_max)%N ->
  (total_agents sh0 <= total_agents sh)%N.
Proof.
  induction ns as [|n ns IH]; intros sh0 sh H Hm.
  - unfold each in H. simpl in H. simplify_eq. lia.
  - apply each_cons in H as (s & _ & H). pose proof (IH _ _ H Hm) as Hle. simpl in Hle.
    unfold usize_add in Hle. lia.
Qed.

(** ** Runs *)

Section Bound.
Context (f : WorkflowNode -> State -> outcome State).

(** A run of a node adds at most its estimate. *)
Definition bounded (n : WorkflowNode) : Prop := forall d sh s s',
  estimate_node_fleet_shape n d = Ok sh -> (total_agents sh < usize_max)%N ->
  fits (generated_nodes s.1) n -> should_stop s.2 = false -> f n s = Done s' ->
  (leaves s' <= leaves s + total_agents sh)%N.

Context (Hshrink : forall n, keeps (fun s s' => generated_nodes s'.1 ⊆ generated_nodes s.1) f n).

Lemma execute_nodes_bounded ns : Forall bounded ns -> forall d sh0 sh s s', each ns d sh0 = Ok sh ->
  (total_agents sh < usize_max)%N -> (forall n, n ∈ ns -> fits (generated_nodes s.1) n) ->
  execute_nodes f ns s = Done s' -> (leaves s' + total_agents sh0 <= leaves s + total_agents sh)%N.
Proof.
  induction 1 as [|n ns Hn _ IH]; intros d sh0 sh s s' He Hm Hfit; simpl.
  { intros [= <-]. apply each_grows in He; [lia|done]. }
  destruct (should_stop s.2) eqn:Es.
  { intros [= <-]. apply each_grows in He; [lia|done]. }
  intros (s1 & H1 & H2)%obind_Done. apply each_cons in He as (sn & Hs & He).
  pose proof (each_grows _ _ _ _ He Hm) as Hle. simpl in Hle. unfold usize_add in Hle.
  assert (K1 : (leaves s1 <= leaves s + total_agents sn)%N).
  { eapply Hn; eauto; [lia|]. apply Hfit. by left. }
  eapply IH in H2; [|exact He|done|].
  - simpl in H2. unfold usize_add in H2. lia.
  - intros x Hx. eapply fits_mono; [by eapply Hshrink|]. apply Hfit. by right.
Qed.

Lemma loop_bounded id ns d sh : Forall bounded ns -> each ns d shape_zero = Ok sh -> (total_agents sh < usize_max)%N ->
  forall k i s s' i' p, (forall n, n ∈ ns -> fits (generated_nodes s.1) n) ->
  loop_until f id ns k i s = Done (s', i', p) -> (leaves s' <= leaves s + N.of_nat k * total_agents sh)%N.
Proof.
  intros Hb He Hm. induction k as [|k IH]; intros i s s' i' p Hfit; simpl; [intros [= <- _ _]; lia|].
  destruct (should_stop s.2) eqn:Es; [intros [= <- _ _]; lia|].
  intros (s1 & H1 & H2)%obind_Done.
  pose proof (execute_nodes_bounded ns Hb d _ _ _ _ He Hm Hfit H1) as K1. simpl in K1.
  assert (Hg : generated_nodes s1.1 ⊆ generated_nodes s.1).
  { apply (execute_nodes_keeps _ generated_shrink f ns (proj2 (Forall_forall _ _) (fun n _ => Hshrink n)) _ _ H1). }
  destruct (should_stop s1.2); [simplify_eq; lia|].
  pose proof (next_predicate_generated id s1.1) as Hp.
  destruct (next_predicate_result id s1.1) as [m passed]. simpl in Hp.
  destruct passed; [simplify_eq; unfold leaves in *; simpl; lia|].
  apply IH in H2; [|intros n Hn; simpl; rewrite Hp; eapply fits_mono; eauto].
  unfold leaves in *. simpl in *. lia.
Qed.

End Bound.

Lemma leaf_adds_one spec s : leaves (execute_leaf spec s) = (leaves s + 1)%N.
Proof.
  unfold execute_leaf, leaves. destruct (mock_leaf_outcome spec s.1) as [m o]. simpl.
  assert (E : leaf_results (mark_execution_for_status s.2 (mo_status o)) = leaf_results s.2) by by destruct (mo_status o).
  rewrite E, length_app. simpl. lia.
Qed.

Lemma mark_leaves e st : leaf_results (mark_execution_for_status e st) = leaf_results e.
Proof. by destruct st. Qed.

(** The nodes of an expansion, each with an estimate of at most [t]. *)
Definition expansion_bounded (expand : list WorkflowNode -> State -> outcome State) : Prop :=
  forall ns d t s s', (forall n, n ∈ ns -> fits (generated_nodes s.1) n /\
      exists sh, estimate_node_fleet_shape n d = Ok sh /\ (total_agents sh <= t)%N) ->
    (t < usize_max)%N -> expand ns s = Done s' -> (leaves s' <= leaves s + N.of_nat (length ns) * t)%N.

Lemma fits_inv gen n : fits gen n ->
  match n with
  | BranchSet _ cs | Sequence _ cs | LoopUntil _ _ _ cs => forall x, x ∈ cs -> fits gen x
  | Cond _ _ ts es => (forall x, x ∈ ts -> fits gen x) /\ (forall x, x ∈ es -> fits gen x)
  | Expand i _ _ t => forall ns g, gen !! i = Some ns -> g ∈ ns -> fits gen g /\
       exists t0, t = Some t0 /\ forall d sh, estimate_node_fleet_shape t0 d = Ok sh ->
         exists sh', estimate_node_fleet_shape g d = Ok sh' /\ (total_agents sh' <= total_agents sh)%N
  | _ => True
  end.
Proof. destruct 1; try done. intros ns g Hg Hin. split; eauto. Qed.

Lemma execute_node_bounded expand :
  (forall ns s s', expand ns s = Done s' -> generated_nodes s'.1 ⊆ generated_nodes s.1) ->
  expansion_bounded expand -> forall n, bounded (execute_node expand) n.
Proof.
  intros Hexp Hb. pose proof (execute_node_keeps _ generated_shrink expand Hexp) as Hk.
  induction n using node_ind'; intros d sh a b He Hm Hfit Hs; apply fits_inv in Hfit; simpl in He |- *.
  - intros (s1 & H1 & [= <-])%obind_Done. unfold leaves. simpl. rewrite mark_leaves.
    pose proof (execute_nodes_bounded _ Hk cs H _ _ _ _ _ He Hm Hfit H1) as K. unfold leaves in K. simpl in K. lia.
  - simplify_eq. intros [= <-]. rewrite leaf_adds_one. simpl. lia.
  - intros (s1 & H1 & [= <-])%obind_Done. unfold leaves. simpl.
    pose proof (execute_nodes_bounded _ Hk cs H _ _ _ _ _ He Hm Hfit H1) as K. unfold leaves in K. simpl in K. lia.
  - intros [= <-]. unfold leaves. simpl. lia.
  - intros [= <-]. unfold leaves. simpl. lia.
  - destruct m as [it|]; [|done]. fold (each cs d shape_zero) in He.
    destruct (each cs d shape_zero) as [shc|] eqn:Ec; simplify_eq/=.
    unfold usize_mul in *. intros ([[s1 i1] p] & H1 & [= <-])%obind_Done. unfold leaves. simpl. rewrite mark_leaves.
    assert (Hc : (total_agents shc < usize_max)%N) by nia.
    pose proof (loop_bounded _ Hk i cs d shc H Ec Hc _ _ _ _ _ _ Hfit H1) as K. unfold leaves in K.
    rewrite N2Nat.id in K. lia.
  - fold (each ts d shape_zero) in He. fold (each es d shape_zero) in He.
    destruct (each ts d shape_zero) as [s1|] eqn:E1; simplify_eq/=.
    destruct (each es d shape_zero) as [s2|] eqn:E2; simplify_eq/=. unfold usize_add in *.
    pose proof (next_predicate_generated i a.1) as Hp. destruct Hfit as [F1 F2].
    destruct (next_predicate_result i a.1) as [mm passed]. simpl in Hp.
    destruct passed; intros (s3 & H3 & [= <-])%obind_Done; unfold leaves; simpl.
    + eapply (execute_nodes_bounded _ Hk ts) in H3; [|done|exact E1|lia|simpl; by rewrite Hp].
      unfold leaves in H3. simpl in H3. lia.
    + eapply (execute_nodes_bounded _ Hk es) in H3; [|done|exact E2|lia|simpl; by rewrite Hp].
      unfold leaves in H3. simpl in H3. lia.
  - destruct m as [k|]; [|done]. destruct t as [t0|]; [|done].
    destruct (map_invalid _); [|done]. simpl in He.
    destruct (estimate_node_fleet_shape t0 d) as [st|] eqn:Et; simplify_eq/=. unfold usize_mul in *.
    intros (_ & _ & (s1 & H1 & [= <-])%obind_Done)%obind_Done. unfold leaves. simpl.
    set (ns := take (N.to_nat k) (default [] (generated_nodes a.1 !! i))) in *.
    assert (Hlen : (N.of_nat (length ns) <= k)%N) by (unfold ns; rewrite length_take; lia).
    destruct (decide (ns = [])) as [Hns|Hns].
    + rewrite Hns in H1, Hlen. apply (Hb [] d 0%N) in H1; [|by intros ? ?%elem_of_nil|done].
      unfold leaves in H1. simpl in H1. lia.
    + assert (Hpos : (0 < k)%N) by (destruct ns; [done|simpl in Hlen; lia]).
      apply (Hb ns d (total_agents st)) in H1; [|..|nia].
      * unfold leaves in H1. simpl in H1. nia.
      * intros g Hg. simpl. destruct (generated_nodes a.1 !! i) as [l|] eqn:El; [|exfalso; apply Hns; unfold ns; simpl; apply take_nil].
        destruct (Hfit l g eq_refl) as (Hf & t1 & [= <-] & Hle).
        { unfold ns in Hg. simpl in Hg. apply list_elem_of_lookup in Hg as [x Hx].
          apply lookup_take_Some in Hx as [Hx _]. by eapply list_elem_of_lookup_2. }
        split; [eapply fits_mono, Hf; apply delete_subseteq|]. by apply Hle.
Qed.

Lemma expand_level_bounded fuel : expansion_bounded (expand_level fuel).
Proof.
  induction fuel as [|fuel IH]; intros [|n ns] d t s s' Hns Ht; simpl; try (intros [= <-]; lia).
  pose proof (expand_level_keeps _ generated_shrink fuel) as Hk.
  pose proof (execute_node_keeps _ generated_shrink (expand_level fuel) Hk) as Hk'.
  pose proof (execute_node_bounded (expand_level fuel) Hk IH) as Hb.
  change (execute_nodes (execute_node (expand_level fuel)) (n :: ns) s = Done s' ->
    (leaves s' <= leaves s + N.of_nat (length (n :: ns)) * t)%N).
  revert s Hns. generalize (n :: ns) as l. induction l as [|x l IHl]; intros s Hl; simpl; [intros [= <-]; lia|].
  destruct (should_stop s.2) eqn:Es; [intros [= <-]; lia|].
  intros (s1 & H1 & H2)%obind_Done. destruct (Hl x) as (Hf & sh & He & Hle); [by left|].
  assert (K1 : (leaves s1 <= leaves s + total_agents sh)%N) by (eapply Hb; eauto; lia).
  apply IHl in H2; [lia|]. intros y Hy. destruct (Hl y) as (Hf' & H'); [by right|].
  split; [|done]. eapply fits_mono, Hf'. by eapply Hk'.
Qed.

(** C35: A workflow that was accepted for a fleet never launches more agents than the limit.
    If [validate_for_fleet] gives a shape, within limits that leave room below the largest
    machine integer, and the nodes recorded for each expansion are no larger than its
    template, every run executes at most the estimated number of leaves, over all
    iterations of loops and all nested expansions. *)
Theorem fleet_limit_bounds_agents m spec limits shape m' e :
  validate_for_fleet_with_limits spec limits = Ok shape ->
  (max_total_agents limits < usize_max)%N ->
  (forall n, n ∈ nodes spec -> fits (generated_nodes m) n) ->
  run m spec = Done (m', e) ->
  (N.of_nat (length (leaf_results e)) <= total_agents shape <= max_total_agents limits)%N /\
  (max_depth shape <= limit_depth limits)%N.
Proof.
  intros Hv Hmax Hfit Hr. unfold validate_for_fleet_with_limits in Hv.
  destruct (map_invalid _); [|done]. simpl in Hv.
  destruct (estimate_fleet_shape (nodes spec)) as [sh|] eqn:Ee; [|done]. simpl in Hv.
  destruct (max_total_agents limits <? total_agents sh)%N eqn:E1; [done|]. apply N.ltb_ge in E1.
  destruct (limit_depth limits <? max_depth sh)%N eqn:E2; [done|]. apply N.ltb_ge in E2. simplify_eq.
  split; [|done]. split; [|done]. unfold run in Hr. apply obind_Done in Hr as (_ & _ & Hr).
  pose proof (expand_level_keeps _ generated_shrink (expand_fuel m)) as Hk.
  pose proof (execute_node_keeps _ generated_shrink _ Hk) as Hk'.
  pose proof (execute_node_bounded _ Hk (expand_level_bounded (expand_fuel m))) as Hb.
  apply (execute_nodes_bounded _ Hk' (nodes spec) (proj2 (Forall_forall _ _) (fun n _ => Hb n)) 1%N shape_zero shape) in Hr;
    [|exact Ee|lia|done].
  unfold leaves in Hr. simpl in Hr. lia.
Qed.

(** ** Witness *)

Definition no_budget : BudgetSpec := {| max_steps := None; timeout_secs := None; max_parallel := None; max_tokens := None |}.
Definition no_permissions : PermissionSpec :=
  {| allow_write := false; allow_network := false; deny_all_tools := false; allowed_tools := []; perm_file_scope := [] |}.
Definition no_policy : ModelPolicy := {| mp_provider := None; mp_model := None; fallback_models := [] |}.
Definition plain_gate : PromotionGate :=
  {| min_score_delta := 1; max_cost_delta_microusd := None; require_all_tests_pass := true;
     reject_policy_violations := true; reject_stale_replay := true |}.

Definition plain_leaf (id : string) : LeafSpec :=
  {| leaf_id := lit id; prompt := lit "run"; agent_type := General; leaf_role := None; profile := None;
     mode := ReadOnly; isolation := Auto; file_scope := []; depends_on_results := []; leaf_budget := no_budget;
     leaf_permissions := no_permissions; leaf_model_policy := no_policy |}.

Definition plain_spec (ns : list WorkflowNode) : WorkflowSpec :=
  {| spec_id := None; goal := lit "goal"; description := None; budget := no_budget; permissions := no_permissions;
     model_policy := no_policy;
     promotion_policy := {| strategy := PAll; require_teacher_review := false; min_successful_branches := None;
                            promotion_gate := plain_gate |};
     gates := []; nodes := ns |}.

(** A loop of at most three rounds over a leaf, and an expansion into at most two leaves. *)
Definition sample_fleet : WorkflowSpec :=
  plain_spec [LoopUntil (lit "loop") (lit "done") (Some 3%N) [Leaf (plain_leaf "a")];
              Expand (lit "x") (lit "src") (Some 2%N) (Some (Leaf (plain_leaf "t")))].

Definition sample_mock : Mock :=
  {| leaf_outcomes := ∅; predicate_results := {[lit "loop" := [false; true]]};
     generated_nodes := {[lit "x" := [Leaf (plain_leaf "x1"); Leaf (plain_leaf "x2"); Leaf (plain_leaf "x3")]]};
     cancelled := false; max_leaf_steps := None; leaf_steps_executed := 0; max_leaf_tokens := None;
     leaf_tokens_used := 0 |}.

Definition executed_leaves (o : outcome State) : list (list N) :=
  match o with Done s => lr_leaf_id <$> leaf_results s.2 | _ => [] end.

Lemma fleet_limit_bounds_agents_witness :
  executed_leaves (run sample_mock sample_fleet) = [lit "a"; lit "a"; lit "x1"; lit "x2"] /\
  forall m' e, run sample_mock sample_fleet = Done (m', e) ->
    (N.of_nat (length (leaf_results e)) <= 5)%N.
Proof.
  split; [vm_compute; reflexivity|]. intros m' e Hr.
  destruct (fleet_limit_bounds_agents sample_mock sample_fleet default_limits {| total_agents := 5; max_depth := 1 |} m' e)
    as [[H _] _]; [vm_compute; reflexivity|vm_compute; reflexivity| |exact Hr|exact H].
  assert (Hleaf : forall id d, estimate_node_fleet_shape (Leaf (plain_leaf id)) d = Ok {| total_agents := 1; max_depth := d |}) by done.
  intros n [->|[->|[]%elem_of_nil]%elem_of_cons]%elem_of_cons.
  - constructor. intros n ->%list_elem_of_singleton. constructor.
  - constructor; intros ns g Hg Hin; cbn [generated_nodes sample_mock] in Hg;
      apply lookup_singleton_Some in Hg as [_ <-].
    + repeat (apply elem_of_cons in Hin as [->|Hin]; [constructor|]). by apply elem_of_nil in Hin.
    + exists (Leaf (plain_leaf "t")). split; [done|]. intros d sh [= <-]. repeat (apply elem_of_cons in Hin as [->|Hin]; [by eexists|]). by apply elem_of_nil in Hin.
Defined.

(** The executor does not compare recorded nodes with the template: an expansion that was
    estimated at one agent runs as many as are recorded in one node. *)
Lemma expansion_exceeds_its_estimate :
  let spec := plain_spec [Expand (lit "x") (lit "src") (Some 1%N) (Some (Leaf (plain_leaf "t")))] in
  let m := {| leaf_outcomes := ∅; predicate_results := ∅;
              generated_nodes := {[lit "x" := [Sequence (lit "s") [Leaf (plain_leaf "a"); Leaf (plain_leaf "b")]]]};
              cancelled := false; max_leaf_steps := None; leaf_steps_executed := 0; max_leaf_tokens := None;
              leaf_tokens_used := 0 |} in
  validate_for_fleet spec = Ok {| total_agents := 1; max_depth := 1 |} /\
  executed_leaves (run m spec) = [lit "a"; lit "b"].
Proof. split; vm_compute; reflexivity. Qed.

End WfFleet.
