(* ===== verification/WfPhases.v ===== *)
(** * Plans of phases (crates/workflow/src/lib.rs)

    The older form of a workflow: phases that depend on each other, each with its tasks.
    [from_config] validates a configuration and puts the phases in the order in which they
    run. A panic of an index that is not there is a value, and so is the end of the fuel of
    the depth-first search. *)

From stdpp Require Import base list option strings gmap.
From Stdlib Require Import Lia NArith.
From S2P Require Import Prelude RustStr RustNum WfGates WfNodes.

Module WfPhases.
Import WfNodes.

(** ** Data *)

Inductive FailurePolicy : Type := SkipContinue | StopRun.

Record Task : Type := {
  task_id : list N;
  task_prompt : list N;
  task_agent_type : AgentType;
  task_mode : TaskMode;
  task_isolation : IsolationMode;
  task_file_scope : list (list N);
  task_depends_on_results : list (list N);
  task_max_steps : option N;
  task_timeout_secs : option N
}.

Record Phase : Type := {
  name : list N;
  phase_description : option (list N);
  depends_on : list (list N);
  phase_parallel : bool;
  on_failure : FailurePolicy;
  tasks : list Task
}.

Record WorkflowConfig : Type := {
  config_goal : list N;
  max_concurrent : N;
  config_description : option (list N);
  phases : list Phase
}.

Record PhasePlan : Type := {
  plan_name : list N; plan_parallel : bool; plan_on_failure : FailurePolicy; plan_tasks : list Task }.

Record WorkflowPlan : Type := {
  plan_goal : list N; plan_max_concurrent : N; plan_phases : list PhasePlan }.

Inductive WorkflowValidationError : Type :=
| EmptyField (field : list N)
| EmptyWorkflow
| EmptyPhase (phase : list N)
| InvalidMaxConcurrent (value : N)
| DuplicatePhase (phase : list N)
| DuplicateTask (task : list N)
| InvalidPhaseDependency (phase dependency : list N)
| PhaseDependencyCycle (phase : list N)
| InvalidTaskResultDependency (task dependency : list N)
| UnavailableTaskResultDependency (task dependency dependency_phase task_phase : list N)
| MissingParallelWriteScope (task : list N)
| OverlappingParallelWriteScope (left right : list N).

(** How the compilation of a configuration ends without a plan. *)
Inductive stop : Type := Refused (e : WorkflowValidationError) | Panicked | OutOfFuel.

Definition validate_non_empty (field value : list N) : result unit stop :=
  if str_is_empty (trim value) then Err (Refused (EmptyField field)) else Ok tt.

(** An index into a map or a vector. *)
Definition index {A : Type} (o : option A) : result A stop :=
  match o with Some a => Ok a | None => Err Panicked end.

(** ** File scopes *)

Fixpoint trim_start_str (fuel : nat) (p s : list N) : list N :=
  match fuel with
  | 0 => s
  | S fuel => match strip_prefix p s with Some rest => trim_start_str fuel p rest | None => s end
  end.

Definition strip_suffix (p s : list N) : option (list N) := reverse <$> strip_prefix (reverse p) (reverse s).

Definition is_slash (c : N) : bool := (c =? c_slash)%N.

(** Each round of [trim_start_matches] with ["./"] takes two characters. *)
Definition normalize_file_scope_root (scope : list N) : list N :=
  let scope := trim scope in
  let trimmed := trim_end_matches is_slash (trim_start_str (length scope) (lit "./") scope) in
  match strip_suffix (lit "/**") trimmed with
  | Some root => root
  | None => default trimmed (strip_suffix (lit "/*") trimmed)
  end.

Definition c_star : N := 42.

Definition glob_prefix (scope : list N) : list N :=
  trim_end_matches is_slash (take_while (fun c => negb (c =? c_star)%N) scope).

(** The components of a path: its root, a leading dot, and names (with [..]). *)
Inductive part : Type := Root | Cur | Part (name : list N).

#[export] Instance part_eq_dec : EqDecision part.
Proof. solve_decision. Defined.

Definition is_name (p : list N) : bool := negb (str_is_empty p || str_eqb p (lit ".")).

Definition path_parts (raw : list N) : list part :=
  (if starts_with_char c_slash raw then [Root]
   else match split_char c_slash raw with p :: _ => if str_eqb p (lit ".") then [Cur] else [] | [] => [] end)
  ++ (Part <$> List.filter is_name (split_char c_slash raw)).

Definition path_starts_with (path base : list N) : bool := bool_decide (path_parts base `prefix_of` path_parts path).

Definition scope_overlaps (left right : list N) : bool :=
  let left := normalize_file_scope_root left in
  let right := normalize_file_scope_root right in
  if str_eqb left right || str_eqb left (lit ".") || str_eqb right (lit ".") then true
  else if contains_char c_star left || contains_char c_star right
  then str_eqb (glob_prefix left) (glob_prefix right)
  else path_starts_with left right || path_starts_with right left.

Definition scopes_overlap (left right : list (list N)) : bool :=
  existsb (fun l => existsb (scope_overlaps l) right) left.

Definition writes (t : Task) : bool := bool_decide (task_mode t = ReadWrite).

Definition missing_scope (t : Task) : bool := match task_file_scope t with [] => true | _ => false end.

(** The first pair, in the order of the loops. *)
Fixpoint first_overlap (ts : list Task) : option (Task * Task) :=
  match ts with
  | [] => None
  | l :: ts =>
      match List.find (fun r => scopes_overlap (task_file_scope l) (task_file_scope r)) ts with
      | Some r => Some (l, r)
      | None => first_overlap ts
      end
  end.

Definition validate_parallel_write_scope (p : Phase) : result unit stop :=
  if negb (phase_parallel p) then Ok tt
  else
    let write_tasks := List.filter writes (tasks p) in
    match List.find missing_scope write_tasks with
    | Some t => Err (Refused (MissingParallelWriteScope (task_id t)))
    | None =>
        match first_overlap write_tasks with
        | Some (l, r) => Err (Refused (OverlappingParallelWriteScope (task_id l) (task_id r)))
        | None => Ok tt
        end
    end.

(** ** The order of the phases *)

Record Dfs : Type := { visiting : gset (list N); visited : gset (list N); ordered : list (list N) }.

Definition dfs_init : Dfs := {| visiting := ∅; visited := ∅; ordered := [] |}.

Fixpoint visit_phase (fuel : nat) (config : WorkflowConfig) (phase_indices : gmap (list N) nat)
    (phase_name : list N) (s : Dfs) : result Dfs stop :=
  match fuel with
  | 0 => Err OutOfFuel
  | S fuel =>
      if bool_decide (phase_name ∈ visited s) then Ok s
      else if bool_decide (phase_name ∈ visiting s) then Err (Refused (PhaseDependencyCycle phase_name))
      else
        let s := {| visiting := {[phase_name]} ∪ visiting s; visited := visited s; ordered := ordered s |} in
        let? i := index (phase_indices !! phase_name) in
        let? phase := index (phases config !! i) in
        let? s := try_each (visit_phase fuel config phase_indices) (depends_on phase) s in
        Ok {| visiting := visiting s ∖ {[phase_name]}; visited := {[phase_name]} ∪ visited s;
              ordered := ordered s ++ [phase_name] |}
  end.

(** Enough: the phases being visited are distinct. *)
Definition visit_fuel (config : WorkflowConfig) : nat := S (length (phases config)).

Definition ordered_phases (config : WorkflowConfig) (phase_indices : gmap (list N) nat)
    : result (list (list N)) stop :=
  let? s := try_each (fun p => visit_phase (visit_fuel config) config phase_indices (name p))
              (phases config) dfs_init in
  Ok (ordered s).

(** ** The compilation *)

Record Tables : Type := {
  phase_indices : gmap (list N) nat;
  all_tasks : gmap (list N) Task;
  task_phase : gmap (list N) (list N)
}.

Definition tables_init : Tables := {| phase_indices := ∅; all_tasks := ∅; task_phase := ∅ |}.

Definition check_task (phase_name : list N) (t : Task) (tb : Tables) : result Tables stop :=
  let? _ := validate_non_empty (lit "task id") (task_id t) in
  let? _ := validate_non_empty (lit "task prompt") (task_prompt t) in
  match all_tasks tb !! task_id t with
  | Some _ => Err (Refused (DuplicateTask (task_id t)))
  | None =>
      Ok {| phase_indices := phase_indices tb; all_tasks := <[task_id t := t]> (all_tasks tb);
            task_phase := <[task_id t := phase_name]> (task_phase tb) |}
  end.

Definition check_phase (ip : nat * Phase) (tb : Tables) : result Tables stop :=
  let '(i, p) := ip in
  let? _ := validate_non_empty (lit "phase name") (name p) in
  match tasks p with
  | [] => Err (Refused (EmptyPhase (name p)))
  | ts =>
      match phase_indices tb !! name p with
      | Some _ => Err (Refused (DuplicatePhase (name p)))
      | None =>
          try_each (check_task (name p)) ts
            {| phase_indices := <[name p := i]> (phase_indices tb); all_tasks := all_tasks tb;
               task_phase := task_phase tb |}
      end
  end.

Definition check_dependency (tb : Tables) (p : Phase) (dependency : list N) (_ : unit) : result unit stop :=
  if str_eqb dependency (name p) || negb (bool_decide (is_Some (phase_indices tb !! dependency)))
  then Err (Refused (InvalidPhaseDependency (name p) dependency)) else Ok tt.

Definition check_dependencies (tb : Tables) (p : Phase) (_ : unit) : result unit stop :=
  let? _ := try_each (check_dependency tb p) (depends_on p) tt in
  validate_parallel_write_scope p.

(** [phase_order]. *)
Definition order_map (names : list (list N)) : gmap (list N) nat :=
  list_to_map (zip names (seq 0 (length names))).

Definition check_result (tb : Tables) (order : gmap (list N) nat) (p : Phase) (t : Task)
    (dependency : list N) (_ : unit) : result unit stop :=
  match task_phase tb !! dependency with
  | None => Err (Refused (InvalidTaskResultDependency (task_id t) dependency))
  | Some dependency_phase =>
      let? a := index (order !! dependency_phase) in
      let? b := index (order !! name p) in
      if b <=? a
      then Err (Refused (UnavailableTaskResultDependency (task_id t) dependency dependency_phase (name p)))
      else Ok tt
  end.

Definition check_results (tb : Tables) (order : gmap (list N) nat) (p : Phase) (_ : unit) : result unit stop :=
  try_each (fun t (_ : unit) => try_each (check_result tb order p t) (task_depends_on_results t) tt) (tasks p) tt.

Definition phase_plan (config : WorkflowConfig) (tb : Tables) (phase_name : list N) (acc : list PhasePlan)
    : result (list PhasePlan) stop :=
  let? i := index (phase_indices tb !! phase_name) in
  let? p := index (phases config !! i) in
  Ok (acc ++ [{| plan_name := name p; plan_parallel := phase_parallel p; plan_on_failure := on_failure p;
                 plan_tasks := tasks p |}]).

Definition from_config (config : WorkflowConfig) : result WorkflowPlan stop :=
  let? _ := validate_non_empty (lit "workflow goal") (config_goal config) in
  if negb ((1 <=? max_concurrent config)%N && (max_concurrent config <=? 20)%N)
  then Err (Refused (InvalidMaxConcurrent (max_concurrent config)))
  else
    match phases config with
    | [] => Err (Refused EmptyWorkflow)
    | _ =>
        let? tb := try_each check_phase (zip (seq 0 (length (phases config))) (phases config)) tables_init in
        let? _ := try_each (check_dependencies tb) (phases config) tt in
        let? names := ordered_phases config (phase_indices tb) in
        let order := order_map names in
        let? _ := try_each (check_results tb order) (phases config) tt in
        let? plans := try_each (phase_plan config tb) names [] in
        Ok {| plan_goal := config_goal config; plan_max_concurrent := max_concurrent config;
              plan_phases := plans |}
    end.

Definition validate (config : WorkflowConfig) : result unit stop :=
  let? _ := from_config config in Ok tt.

Definition phase_names (p : WorkflowPlan) : list (list N) := plan_name <$> plan_phases p.

End WfPhases.
