(* ===== verification/WfPhasesTheorems.v ===== *)
(** * Compiled plans (crates/workflow/src/lib.rs)

    What [from_config] promises: the tables it builds, the order of the phases, the results
    a task may use and the scopes of parallel writers. *)

From stdpp Require Import base list option strings gmap relations.
From Stdlib Require Import Lia NArith.
From S2P Require Import Prelude RustStr RustNum WfNodes WfPhases.

(** * The order of phases is a topological one

    The search of [ordered_phases] against the relation "depends on", the tables that the
    compilation builds, and the theorems on compiled plans. *)

Module WfPhasesFacts.
Import WfNodes WfPhases.

(** ** Loops that stop at the first error *)

Section Each.
Context {A E S : Type} (f : A -> S -> result S E).

(** An invariant that every round keeps, and what each round's error says. *)
Lemma try_each_inv (I : list A -> S -> Prop) (Q : E -> Prop) l s :
  (forall done x rest s, l = done ++ x :: rest -> I done s ->
     match f x s with Ok s' => I (done ++ [x]) s' | Err e => Q e end) ->
  I [] s -> match try_each f l s with Ok s' => I l s' | Err e => Q e end.
Proof.
  intros Hf. assert (H : forall rest done s, l = done ++ rest -> I done s ->
    match try_each f rest s with Ok s' => I l s' | Err e => Q e end); [|intros H0; by apply (H l [] s)].
  induction rest as [|x rest IH]; intros done s' El Hi; simpl.
  - by rewrite El, app_nil_r.
  - specialize (Hf done x rest s' El Hi). destruct (f x s') as [s2|e]; simpl; [|done].
    apply (IH (done ++ [x])); [by rewrite <- app_assoc|done].
Qed.

Lemma try_each_ok (I : list A -> S -> Prop) l s s' :
  (forall done x rest s s', l = done ++ x :: rest -> I done s -> f x s = Ok s' -> I (done ++ [x]) s') ->
  I [] s -> try_each f l s = Ok s' -> I l s'.
Proof.
  intros Hf Hi E1. pose proof (try_each_inv I (fun _ => True) l s) as H. rewrite E1 in H. apply H; [|done].
  intros done x rest s2 El Hi2. destruct (f x s2) eqn:E2; [|done]. by eapply Hf.
Qed.

End Each.

(** Every element was accepted. *)
Lemma try_each_unit {A E} (f : A -> unit -> result unit E) l :
  try_each f l tt = Ok tt <-> Forall (fun x => f x tt = Ok tt) l.
Proof.
  induction l as [|x l IH]; simpl; [by split|]. rewrite Forall_cons, <- IH.
  destruct (f x tt) as [[]|e]; simpl; [naive_solver|split; [done|by intros []]].
Qed.

Lemma try_each_unit_err {A E} (f : A -> unit -> result unit E) l e :
  try_each f l tt = Err e -> exists x, x ∈ l /\ f x tt = Err e.
Proof.
  induction l as [|x l IH]; simpl; [done|]. destruct (f x tt) as [[]|e'] eqn:E1; simpl.
  - intros (y & H1 & H2)%IH. exists y. split; [by right|done].
  - intros [= <-]. exists x. split; [by left|done].
Qed.

(** ** The search *)

Section Search.
Context (config : WorkflowConfig) (indices : gmap (list N) nat).

(** [a] has [b] among its dependencies. *)
Definition dep (a b : list N) : Prop := exists p, p ∈ phases config /\ name p = a /\ b ∈ depends_on p.

Hypothesis indices_name : forall n i, indices !! n = Some i -> exists p, phases config !! i = Some p /\ name p = n.
Hypothesis indices_total : forall p, p ∈ phases config -> is_Some (indices !! name p).
Hypothesis unique : NoDup (name <$> phases config).
Hypothesis closed : forall a b, dep a b -> is_Some (indices !! b).

(** Each name comes after what it depends on. *)
Definition topological (l : list (list N)) : Prop :=
  forall i n, l !! i = Some n -> forall d, dep n d -> exists j, j < i /\ l !! j = Some d.

Lemma topological_snoc l n : topological l -> (forall d, dep n d -> d ∈ l) -> topological (l ++ [n]).
Proof.
  intros Hl Hn i m [Hi|[Hi Em]]%lookup_snoc_Some d Hd.
  - destruct Hi as [Hi Em]. destruct (Hl i m Em d Hd) as (j & Hj & Ej). exists j. split; [done|].
    by apply lookup_app_l_Some.
  - subst. apply Hn in Hd as [j Ej]%list_elem_of_lookup. exists j. split; [by eapply lookup_lt_Some|].
    by apply lookup_app_l_Some.
Qed.

Record sound (s : Dfs) : Prop := {
  sound_visited : forall n, n ∈ visited s <-> n ∈ ordered s;
  sound_nodup : NoDup (ordered s);
  sound_order : topological (ordered s);
  sound_disjoint : visiting s ## visited s;
  sound_known : forall n, n ∈ visiting s \/ n ∈ visited s -> is_Some (indices !! n)
}.

Definition all_names : gset (list N) := list_to_set (name <$> phases config).

Lemma known_names n : is_Some (indices !! n) -> n ∈ all_names.
Proof.
  intros [i Hi]. apply indices_name in Hi as (p & Hp & <-). apply elem_of_list_to_set, list_elem_of_fmap_2.
  by eapply list_elem_of_lookup_2.
Qed.

Lemma size_all_names : size all_names = length (phases config).
Proof. unfold all_names. by rewrite size_list_to_set, length_fmap. Qed.

(** What a visit comes to: the stack of the phases being visited is as before, what was
    ordered stays in front, and a cycle that is reported is one. *)
Definition visited_from (s : Dfs) (ns : list (list N)) (r : result Dfs stop) : Prop :=
  match r with
  | Ok s' => sound s' /\ visiting s' = visiting s /\ (exists l, ordered s' = ordered s ++ l) /\
             Forall (fun n => n ∈ ordered s') ns
  | Err (Refused (PhaseDependencyCycle n)) => tc dep n n
  | Err _ => False
  end.

Lemma visit_list_ok fuel ns s :
  (forall n s, n ∈ ns -> sound s -> (forall v, v ∈ visiting s -> tc dep v n) ->
     size (all_names ∖ visiting s) < fuel -> visited_from s [n] (visit_phase fuel config indices n s)) ->
  sound s -> (forall n v, n ∈ ns -> v ∈ visiting s -> tc dep v n) -> size (all_names ∖ visiting s) < fuel ->
  visited_from s ns (try_each (visit_phase fuel config indices) ns s).
Proof.
  intros Hv. revert s. induction ns as [|n ns IH]; intros s Hs Hr Hf; simpl.
  { split_and!; [done|done|by exists []; rewrite app_nil_r|constructor]. }
  pose proof (Hv n s ltac:(by left) Hs (fun v => Hr n v ltac:(by left)) Hf) as H1.
  destruct (visit_phase fuel config indices n s) as [s1|[[]| |]]; simpl in *; try done.
  destruct H1 as (H1 & Ev & [l1 E1] & H2).
  assert (H3 : visited_from s1 ns (try_each (visit_phase fuel config indices) ns s1)).
  { apply IH; [intros m s2 Hm; apply Hv; by right|done|intros m v Hm; rewrite Ev; apply Hr; by right|by rewrite Ev]. }
  destruct (try_each (visit_phase fuel config indices) ns s1) as [s2|[[]| |]]; simpl in *; try done.
  destruct H3 as (H3 & Ev2 & [l2 E2] & H4). split_and!; [done|by rewrite Ev2| |].
  - exists (l1 ++ l2). by rewrite E2, E1, app_assoc.
  - constructor; [|done]. apply Forall_inv in H2. rewrite E2. apply elem_of_app. by left.
Qed.

Lemma visit_ok fuel : forall n s, is_Some (indices !! n) -> sound s -> (forall v, v ∈ visiting s -> tc dep v n) ->
  size (all_names ∖ visiting s) < fuel -> visited_from s [n] (visit_phase fuel config indices n s).
Proof.
  induction fuel as [|fuel IH]; intros n s Hn Hs Hr Hf; [lia|]. cbn [visit_phase].
  case_bool_decide as Hd.
  { split_and!; [done|done|by exists []; rewrite app_nil_r|]. constructor; [by apply Hs|constructor]. }
  case_bool_decide as Hi; [by apply Hr|].
  destruct (Hn) as [i Ei]. rewrite Ei. simpl. destruct (indices_name _ _ Ei) as (p & Ep & En). rewrite Ep. simpl.
  assert (Hp : p ∈ phases config) by (by eapply list_elem_of_lookup_2).
  set (s1 := {| visiting := {[n]} ∪ visiting s; visited := visited s; ordered := ordered s |}).
  assert (Hdep : forall d, d ∈ depends_on p -> dep n d) by (intros d Hd1; by exists p).
  assert (Hs1 : sound s1).
  { destruct Hs as [S1 S2 S3 S4 S5]. split; simpl; [done|done|done|set_solver|].
    intros m [[->%elem_of_singleton|Hm]%elem_of_union|Hm]; [done|apply S5; by left|apply S5; by right]. }
  assert (H : visited_from s1 (depends_on p) (try_each (visit_phase fuel config indices) (depends_on p) s1)).
  { apply visit_list_ok.
    - intros m s2 Hm Hs2 Hr2 Hf2. apply IH; [|done..]. apply (closed n). by apply Hdep.
    - done.
    - intros m v Hm [->%elem_of_singleton|Hv]%elem_of_union; [by apply tc_once, Hdep|].
      eapply tc_r; [by apply Hr|by apply Hdep].
    - simpl. enough (size (all_names ∖ ({[n]} ∪ visiting s)) < size (all_names ∖ visiting s)) by lia.
      apply subset_size. split; [set_solver|]. intros Hsub. apply known_names in Hn. set_solver. }
  destruct (try_each (visit_phase fuel config indices) (depends_on p) s1) as [s2|[[]| |]]; simpl in *; try done.
  destruct H as ([S1 S2 S3 S4 S5] & Ev & [l El] & Hall). simpl in Ev, El.
  assert (Hfresh : n ∉ ordered s2).
  { intros H%S1. apply (S4 n); [|done]. rewrite Ev. set_solver. }
  split_and!.
  - split; simpl.
    + intros m. rewrite elem_of_union, elem_of_singleton, S1, elem_of_app, list_elem_of_singleton. tauto.
    + apply NoDup_app. split_and!; [done| |apply NoDup_singleton]. intros m Hm ->%list_elem_of_singleton. done.
    + apply topological_snoc; [done|]. intros d (p' & Hp' & En' & Hd'). rewrite Forall_forall in Hall.
      apply Hall. assert (p' = p) as -> by (eapply (NoDup_fmap_elem name); [done|done|done|congruence]). done.
    + set_solver.
    + intros m [Hm|[->%elem_of_singleton|Hm]%elem_of_union]; [|done|apply S5; by right].
      apply S5. left. set_solver.
  - rewrite Ev. apply set_eq. intros m. destruct (decide (m = n)); set_solver.
  - exists (l ++ [n]). simpl. by rewrite El, app_assoc.
  - constructor; [|constructor]. simpl. apply elem_of_app. right. by left.
Qed.

Lemma sound_init : sound dfs_init.
Proof. split; simpl; [set_solver|constructor|intros i n Hi; by rewrite lookup_nil in Hi|set_solver|set_solver]. Qed.

(** The order that is found: a topological order of all the phases; a refusal names a phase
    that depends on itself. *)
Lemma ordered_phases_ok :
  match ordered_phases config indices with
  | Ok l => topological l /\ l ≡ₚ name <$> phases config
  | Err (Refused (PhaseDependencyCycle n)) => tc dep n n
  | Err _ => False
  end.
Proof.
  unfold ordered_phases.
  set (f := fun p => visit_phase (visit_fuel config) config indices (name p)).
  pose proof (try_each_inv f
    (fun done s => sound s /\ visiting s = ∅ /\ Forall (fun p => name p ∈ ordered s) done)
    (fun e => match e with Refused (PhaseDependencyCycle n) => tc dep n n | _ => False end)
    (phases config) dfs_init) as H.
  assert (H' : match try_each f (phases config) dfs_init with
               | Ok s => sound s /\ visiting s = ∅ /\ Forall (fun p => name p ∈ ordered s) (phases config)
               | Err e => match e with Refused (PhaseDependencyCycle n) => tc dep n n | _ => False end end).
  { apply H; [|by split_and!; [apply sound_init| |constructor]]. clear H.
    intros done p rest s El (Hs & Ev & Hd).
    assert (Hp : p ∈ phases config) by (rewrite El; apply elem_of_app; right; by left).
    assert (Hv : visited_from s [name p] (f p s)).
    { apply visit_ok; [by apply indices_total|done|rewrite Ev; set_solver|].
      rewrite Ev. unfold visit_fuel. rewrite <- size_all_names.
      assert (size (all_names ∖ ∅) <= size all_names) by (apply subseteq_size; set_solver). lia. }
    destruct (f p s) as [s'|[[]| |]]; simpl in *; try tauto.
    destruct Hv as (H1 & H2 & [l E1] & H3). split_and!; [done|congruence|].
    apply Forall_app. split; [|by constructor; [apply Forall_inv in H3|]].
    eapply Forall_impl; [exact Hd|]. intros q Hq. cbn in *. rewrite E1. apply elem_of_app. by left. }
  clear H. destruct (try_each f (phases config) dfs_init) as [s|e]; simpl; [|by destruct e].
  destruct H' as ([S1 S2 S3 S4 S5] & Ev & Hall). split; [done|].
  apply NoDup_Permutation; [done|done|]. intros n. split.
  - intros Hn%S1. destruct (S5 n) as [i Hi]; [by right|]. apply indices_name in Hi as (p & Hp & <-).
    apply list_elem_of_fmap_2. by eapply list_elem_of_lookup_2.
  - intros (p & -> & Hp)%list_elem_of_fmap. rewrite Forall_forall in Hall. by apply Hall.
Qed.

(** Phases that are declared after what they depend on keep their places. *)
Lemma visit_done fuel n s i p : indices !! n = Some i -> phases config !! i = Some p ->
  n ∉ visited s -> n ∉ visiting s -> Forall (fun d => d ∈ visited s) (depends_on p) ->
  exists s', visit_phase (S (S fuel)) config indices n s = Ok s' /\ ordered s' = ordered s ++ [n] /\
    visited s' = {[n]} ∪ visited s /\ visiting s' = visiting s ∖ {[n]}.
Proof.
  intros Ei Ep H1 H2 Hd. cbn [visit_phase]. rewrite bool_decide_false by done. rewrite bool_decide_false by done.
  rewrite Ei. simpl. rewrite Ep. simpl.
  assert (E : forall ds s1, Forall (fun d => d ∈ visited s1) ds ->
    try_each (visit_phase (S fuel) config indices) ds s1 = Ok s1).
  { induction ds as [|d ds IH]; intros s1 [Hd1 Hds]%Forall_cons || intros s1 _; [done|].
    cbn [try_each visit_phase]. rewrite bool_decide_true by done. simpl. by apply IH. }
  change (S fuel) with (S fuel) in E. cbn [visit_phase] in E. rewrite E by done. simpl.
  eexists. split_and!; [done|done|done|]. set_solver.
Qed.

(** Every phase is declared after the phases it depends on. *)
Definition declared : Prop :=
  forall i p d, phases config !! i = Some p -> d ∈ depends_on p ->
  exists j q, j < i /\ phases config !! j = Some q /\ name q = d.

Lemma ordered_declared : declared -> ordered_phases config indices = Ok (name <$> phases config).
Proof.
  intros Hd. unfold ordered_phases.
  set (f := fun p => visit_phase (visit_fuel config) config indices (name p)).
  set (inv := fun (done : list Phase) (s : Dfs) =>
    ordered s = name <$> done /\ visiting s = ∅ /\ visited s = list_to_set (name <$> done)).
  assert (H : match try_each f (phases config) dfs_init with Ok s => inv (phases config) s | Err _ => False end).
  { apply try_each_inv; [|by unfold inv]. intros done p rest s El (E1 & E2 & E3).
    assert (Ep : phases config !! length done = Some p) by (rewrite El; by apply list_lookup_middle).
    destruct (indices_total p) as [i Ei]; [by eapply list_elem_of_lookup_2|].
    destruct (indices_name _ _ Ei) as (q & Eq & Enq).
    assert (q = p) as ->.
    { eapply (NoDup_fmap_elem name); [done|by eapply list_elem_of_lookup_2|by eapply list_elem_of_lookup_2|done]. }
    assert (Hn : exists n, visit_fuel config = S (S n)).
    { unfold visit_fuel. rewrite El, length_app. simpl. exists (length done + length rest). lia. }
    destruct Hn as [n En]. unfold f. rewrite En.
    destruct (visit_done n (name p) s i p Ei Eq) as (s2 & -> & O1 & O2 & O3).
    - rewrite E3, elem_of_list_to_set. pose proof unique as Hu. rewrite El, fmap_app in Hu.
      apply NoDup_app in Hu as (_ & Hu & _). intros Hin. apply (Hu _ Hin). by left.
    - rewrite E2. set_solver.
    - apply Forall_forall. intros d Hin. destruct (Hd _ _ _ Ep Hin) as (j & r & Hj & Er & <-).
      rewrite E3, elem_of_list_to_set. apply list_elem_of_fmap_2. eapply list_elem_of_lookup_2.
      rewrite El, lookup_app_l in Er by done. exact Er.
    - unfold inv. split_and!; [by rewrite O1, E1, fmap_app|rewrite O3, E2; set_solver|].
      rewrite O2, E3, fmap_app, list_to_set_app_L. simpl. set_solver. }
  destruct (try_each f (phases config) dfs_init) as [s|]; [|done]. destruct H as [E _]. simpl. by rewrite E.
Qed.

End Search.
End WfPhasesFacts.

Module WfPhasesTheorems.
Import WfNodes WfPhases WfPhasesFacts.

(** ** The tables *)

(** The tasks with the phases they are in. *)
Definition placed (ps : list Phase) : list (list N * Task) := ps ≫= fun p => (fun t => (name p, t)) <$> tasks p.

Record tables_ok (ips : list (nat * Phase)) (pts : list (list N * Task)) (tb : Tables) : Prop := {
  tb_phases : forall n i, phase_indices tb !! n = Some i <-> exists p, (i, p) ∈ ips /\ name p = n;
  tb_names : NoDup (name <$> ips.*2);
  tb_tasks : forall t n, task_phase tb !! t = Some n <-> exists k, (n, k) ∈ pts /\ task_id k = t;
  tb_ids : NoDup ((fun nt => task_id nt.2) <$> pts);
  tb_same : forall t, all_tasks tb !! t = None <-> task_phase tb !! t = None
}.

Lemma tables_init_ok : tables_ok [] [] tables_init.
Proof.
  split; simpl; [|constructor| |constructor|done]; intros; rewrite lookup_empty;
    (split; [done|by intros (? & ?%elem_of_nil & _)]).
Qed.

Definition refusal (e : stop) : Prop := match e with Refused (PhaseDependencyCycle _) => False | Refused _ => True | _ => False end.

Lemma non_empty_refusal field v e : validate_non_empty field v = Err e -> refusal e.
Proof. unfold validate_non_empty. destruct (str_is_empty _); by intros [= <-]. Qed.

Lemma check_task_ok ips pts tb n t : tables_ok ips pts tb ->
  match check_task n t tb with Ok tb' => tables_ok ips (pts ++ [(n, t)]) tb' | Err e => refusal e end.
Proof.
  intros [T1 T2 T3 T4 T5]. unfold check_task.
  destruct (validate_non_empty _ (task_id t)) eqn:E1; simpl; [|by eapply non_empty_refusal].
  destruct (validate_non_empty _ (task_prompt t)) eqn:E2; simpl; [|by eapply non_empty_refusal].
  destruct (all_tasks tb !! task_id t) eqn:E3; [done|]. apply T5 in E3.
  assert (Hnew : forall m k, (m, k) ∈ pts -> task_id k <> task_id t).
  { intros m k Hk Ek. assert (task_phase tb !! task_id t = Some m) by (apply T3; eauto). congruence. }
  split; simpl; [done|done| | |].
  - intros x m. rewrite lookup_insert_Some, T3. split.
    + intros [[<- <-]|[Hx (k & Hk & Ek)]]; [exists t|exists k]; (split; [|done]); apply elem_of_app; [right; by left|by left].
    + intros (k & [Hk|Hk]%elem_of_app & Ek).
      * right. split; [|by exists k]. intros Ex. apply (Hnew m k Hk). congruence.
      * apply list_elem_of_singleton in Hk. simplify_eq. by left.
  - rewrite fmap_app. apply NoDup_app. split_and!; [done| |apply NoDup_singleton]. simpl.
    intros x ([m k] & -> & Hk)%list_elem_of_fmap. simpl. rewrite list_elem_of_singleton. by eapply Hnew.
  - intros x. rewrite !lookup_insert_None, T5. done.
Qed.

Lemma check_tasks_ok ips pts tb n ts : tables_ok ips pts tb ->
  match try_each (check_task n) ts tb with
  | Ok tb' => tables_ok ips (pts ++ ((fun t => (n, t)) <$> ts)) tb' | Err e => refusal e end.
Proof.
  intros H. apply (try_each_inv _ (fun done tb => tables_ok ips (pts ++ ((fun t => (n, t)) <$> done)) tb)).
  - intros done t rest tb' _ Hd. pose proof (check_task_ok ips _ tb' n t Hd) as Hc.
    destruct (check_task n t tb'); [|done]. by rewrite fmap_app, app_assoc.
  - by rewrite app_nil_r.
Qed.

Lemma check_phase_ok ips pts tb i p : tables_ok ips pts tb ->
  match check_phase (i, p) tb with
  | Ok tb' => tables_ok (ips ++ [(i, p)]) (pts ++ ((fun t => (name p, t)) <$> tasks p)) tb'
  | Err e => refusal e end.
Proof.
  intros [T1 T2 T3 T4 T5]. unfold check_phase.
  destruct (validate_non_empty _ (name p)) eqn:E1; cbn [result_bind]; [|by eapply non_empty_refusal].
  destruct (tasks p) as [|t ts] eqn:Et; [done|]. rewrite <- Et. clear Et t ts.
  destruct (phase_indices tb !! name p) eqn:E2; [done|].
  assert (Hnew : forall j q, (j, q) ∈ ips -> name q <> name p).
  { intros j q Hq Eq. assert (phase_indices tb !! name p = Some j) by (apply T1; eauto). congruence. }
  apply check_tasks_ok. split; simpl; [| |done|done|done].
  - intros n j. rewrite lookup_insert_Some, T1. split.
    + intros [[<- <-]|[Hn (q & Hq & Eq)]]; [exists p|exists q]; (split; [|done]); apply elem_of_app; [right; by left|by left].
    + intros (q & [Hq|Hq]%elem_of_app & Eq).
      * right. split; [|by exists q]. intros Ex. apply (Hnew j q Hq). congruence.
      * apply list_elem_of_singleton in Hq. simplify_eq. by left.
  - rewrite !fmap_app. apply NoDup_app. split_and!; [done| |apply NoDup_singleton]. simpl.
    intros x (q & -> & ([j q'] & Eq & Hq)%list_elem_of_fmap)%list_elem_of_fmap. simpl in *. subst.
    rewrite list_elem_of_singleton. by eapply Hnew.
Qed.

Lemma check_phases_ok (ps : list Phase) :
  let ips := zip (seq 0 (length ps)) ps in
  match try_each check_phase ips tables_init with
  | Ok tb => tables_ok ips (placed ps) tb | Err e => refusal e end.
Proof.
  intros ips. assert (E : placed ps = placed ips.*2).
  { unfold ips. rewrite snd_zip by (rewrite length_seq; lia). done. }
  rewrite E. apply (try_each_inv _ (fun done tb => tables_ok done (placed done.*2) tb)).
  - intros done [i p] rest tb _ Hd. pose proof (check_phase_ok done _ tb i p Hd) as Hc.
    destruct (check_phase (i, p) tb); [|done].
    unfold placed in *. rewrite fmap_app, bind_app. simpl. by rewrite app_nil_r.
  - apply tables_init_ok.
Qed.

(** What the tables say of a configuration. *)
Section Tables.
Context (config : WorkflowConfig) (tb : Tables).
Let ips := zip (seq 0 (length (phases config))) (phases config).
Hypothesis Htb : tables_ok ips (placed (phases config)) tb.

Lemma ips_elem i p : (i, p) ∈ ips <-> phases config !! i = Some p.
Proof.
  unfold ips. rewrite list_elem_of_lookup. split.
  - intros [k Hk]. apply lookup_zip_Some in Hk as [H1 H2]. apply lookup_seq in H1 as [-> _]. done.
  - intros H. exists i. apply lookup_zip_Some. split; [|done]. apply lookup_seq. apply lookup_lt_Some in H. lia.
Qed.

Lemma tables_name n i : phase_indices tb !! n = Some i -> exists p, phases config !! i = Some p /\ name p = n.
Proof. rewrite (tb_phases _ _ _ Htb). intros (p & Hp%ips_elem & E). eauto. Qed.

Lemma tables_total p : p ∈ phases config -> is_Some (phase_indices tb !! name p).
Proof. intros [i Hi]%list_elem_of_lookup. exists i. apply (tb_phases _ _ _ Htb). exists p. by rewrite ips_elem. Qed.

Lemma tables_unique : NoDup (name <$> phases config).
Proof. pose proof (tb_names _ _ _ Htb) as H. unfold ips in H. by rewrite snd_zip in H by (rewrite length_seq; lia). Qed.

Lemma placed_elem n t : (n, t) ∈ placed (phases config) <-> exists p, p ∈ phases config /\ name p = n /\ t ∈ tasks p.
Proof.
  unfold placed. rewrite list_elem_of_bind. split.
  - intros (p & (t' & E & Ht)%list_elem_of_fmap & Hp). simplify_eq. eauto.
  - intros (p & Hp & <- & Ht). exists p. split; [by apply (list_elem_of_fmap_2 (fun t => (name p, t)))|done].
Qed.

Lemma tables_phase t n : task_phase tb !! t = Some n <->
  exists p k, p ∈ phases config /\ name p = n /\ k ∈ tasks p /\ task_id k = t.
Proof.
  rewrite (tb_tasks _ _ _ Htb). split.
  - intros (k & (p & H1 & H2 & H3)%placed_elem & E). eauto 7.
  - intros (p & k & H1 & H2 & H3 & E). exists k. split; [|done]. apply placed_elem. eauto.
Qed.

Lemma dependencies_known : Forall (fun p => check_dependencies tb p tt = Ok tt) (phases config) ->
  forall a b, dep config a b -> is_Some (phase_indices tb !! b).
Proof.
  rewrite Forall_forall. intros H a b (p & Hp & <- & Hb). specialize (H p Hp). unfold check_dependencies in H.
  destruct (try_each _ _ _) as [[]|e] eqn:E; [|done]. apply try_each_unit in E. rewrite Forall_forall in E.
  specialize (E b Hb). unfold check_dependency in E. destruct (_ || _) eqn:E1; [done|].
  apply orb_false_iff in E1 as [_ E1]. apply negb_false_iff, bool_decide_eq_true in E1. done.
Qed.

End Tables.

(** ** The order and the results *)

Lemma order_map_lookup names n i : NoDup names -> order_map names !! n = Some i <-> names !! i = Some n.
Proof.
  intros Hn. unfold order_map.
  assert (Hz : NoDup (zip names (seq 0 (length names))).*1) by (rewrite fst_zip; [done|rewrite length_seq; lia]).
  rewrite <- elem_of_list_to_map by done. rewrite list_elem_of_lookup. split.
  - intros [k Hk]. apply lookup_zip_Some in Hk as [H1 [-> _]%lookup_seq]. done.
  - intros H. exists i. apply lookup_zip_Some. split; [done|]. apply lookup_seq. apply lookup_lt_Some in H. lia.
Qed.

Definition plan_of (p : Phase) : PhasePlan :=
  {| plan_name := name p; plan_parallel := phase_parallel p; plan_on_failure := on_failure p;
     plan_tasks := tasks p |}.

(** The plan of the phase of a name. *)
Lemma phase_plans_ok config tb names :
  (forall n i, phase_indices tb !! n = Some i -> exists p, phases config !! i = Some p /\ name p = n) ->
  Forall (fun n => is_Some (phase_indices tb !! n)) names ->
  exists ps, try_each (phase_plan config tb) names [] = Ok (plan_of <$> ps) /\ name <$> ps = names /\
    Forall (fun p => p ∈ phases config) ps.
Proof.
  intros Hname. assert (H : forall acc, Forall (fun n => is_Some (phase_indices tb !! n)) names ->
    exists ps, try_each (phase_plan config tb) names acc = Ok (acc ++ (plan_of <$> ps)) /\ name <$> ps = names /\
      Forall (fun p => p ∈ phases config) ps); [|by apply (H [])].
  induction names as [|n names IH]; intros acc Hn; simpl.
  { exists []. by rewrite app_nil_r. }
  apply Forall_cons in Hn as [[i Hi] Hn]. unfold phase_plan at 1. rewrite Hi. simpl.
  destruct (Hname _ _ Hi) as (p & Hp & En). rewrite Hp. simpl.
  destruct (IH (acc ++ [plan_of p]) Hn) as (ps & E & En' & Hps).
  exists (p :: ps). split_and!; [by rewrite <- app_assoc in E|by rewrite fmap_cons, En, En'|].
  constructor; [by eapply list_elem_of_lookup_2|done].
Qed.

(** The task [d] is in a phase before the phase [n] of the order. *)
Definition available (config : WorkflowConfig) (names : list (list N)) (n d : list N) : Prop :=
  exists i j p k, names !! i = Some n /\ j < i /\ names !! j = Some (name p) /\
    p ∈ phases config /\ k ∈ tasks p /\ task_id k = d.

Lemma check_result_ok config tb names p t d :
  tables_ok (zip (seq 0 (length (phases config))) (phases config)) (placed (phases config)) tb ->
  NoDup names -> names ≡ₚ name <$> phases config -> p ∈ phases config ->
  match check_result tb (order_map names) p t d tt with
  | Ok _ => available config names (name p) d
  | Err e => refusal e
  end.
Proof.
  intros Htb Hn Hperm Hp. unfold check_result.
  destruct (task_phase tb !! d) as [n|] eqn:E; [|done].
  apply (tables_phase _ _ Htb) in E as (q & k & Hq & <- & Hk & Ek).
  assert (Hin : forall r, r ∈ phases config -> exists i, names !! i = Some (name r)).
  { intros r Hr. apply list_elem_of_lookup. rewrite Hperm. by apply list_elem_of_fmap_2. }
  destruct (Hin q Hq) as [j Hj], (Hin p Hp) as [i Hi].
  rewrite (proj2 (order_map_lookup _ _ _ Hn) Hj), (proj2 (order_map_lookup _ _ _ Hn) Hi). simpl.
  destruct (i <=? j) eqn:El; [done|]. apply Nat.leb_gt in El. by exists i, j, q, k.
Qed.

(** ** Scopes of parallel writers *)

(** A path is in a scope without a star. *)
Definition below (root : list N) (path : list part) : Prop :=
  root = lit "." \/ path_parts root `prefix_of` path.

Definition literal (scope : list N) : Prop := contains_char c_star (normalize_file_scope_root scope) = false.

Lemma disjoint_scopes l r path : literal l -> literal r -> scope_overlaps l r = false ->
  below (normalize_file_scope_root l) path -> below (normalize_file_scope_root r) path -> False.
Proof.
  unfold literal, scope_overlaps, below. intros Hl Hr Ho H1 H2. rewrite Hl, Hr in Ho. simpl in Ho.
  destruct (_ || _ || _) eqn:E; [done|]. apply orb_false_iff in E as [[_ E1]%orb_false_iff E2].
  unfold str_eqb in E1, E2. rewrite bool_decide_eq_false in E1, E2.
  destruct H1 as [?|H1]; [done|]. destruct H2 as [?|H2]; [done|].
  apply orb_false_iff in Ho as [O1 O2]. unfold path_starts_with in O1, O2. rewrite bool_decide_eq_false in O1, O2.
  destruct (prefix_weak_total _ _ _ H1 H2); done.
Qed.

Lemma first_overlap_none ts : first_overlap ts = None ->
  forall i j l r, i < j -> ts !! i = Some l -> ts !! j = Some r ->
  scopes_overlap (task_file_scope l) (task_file_scope r) = false.
Proof.
  induction ts as [|t ts IH]; simpl; intros H i j l r Hij Hl Hr; [by rewrite lookup_nil in Hl|].
  destruct (List.find _ ts) eqn:E; [done|]. destruct j as [|j]; [lia|]. destruct i as [|i]; simpl in *.
  - simplify_eq. apply (List.find_none _ _ E r). apply list_elem_of_In. by eapply list_elem_of_lookup_2.
  - apply (IH H i j); [lia|done..].
Qed.

Lemma scopes_overlap_false ls rs l r : scopes_overlap ls rs = false -> l ∈ ls -> r ∈ rs -> scope_overlaps l r = false.
Proof.
  unfold scopes_overlap. intros H Hl Hr. destruct (scope_overlaps l r) eqn:E; [|done].
  exfalso. apply not_true_iff_false in H. apply H. apply existsb_elem_of. exists l. split; [done|].
  apply existsb_elem_of. by exists r.
Qed.

(** Two writing tasks of a phase that runs in parallel have scopes. *)
Lemma parallel_scopes_ok p l r : validate_parallel_write_scope p = Ok tt -> phase_parallel p = true ->
  l ∈ tasks p -> r ∈ tasks p -> task_mode l = ReadWrite -> task_mode r = ReadWrite -> l <> r ->
  task_file_scope l <> [] /\
  (scopes_overlap (task_file_scope l) (task_file_scope r) = false \/
   scopes_overlap (task_file_scope r) (task_file_scope l) = false).
Proof.
  unfold validate_parallel_write_scope. intros H Ep Hl Hr Ml Mr Hne. rewrite Ep in H. simpl in H.
  set (ws := List.filter writes (tasks p)) in *.
  assert (Hw : forall t, t ∈ tasks p -> task_mode t = ReadWrite -> t ∈ ws).
  { intros t Ht Mt. apply list_elem_of_In, List.filter_In. split; [by apply list_elem_of_In|].
    unfold writes. by apply bool_decide_eq_true. }
  destruct (List.find missing_scope ws) eqn:E1; [done|].
  destruct (first_overlap ws) as [[]|] eqn:E2; [done|]. split.
  - pose proof (List.find_none _ _ E1 l) as Hm. rewrite <- list_elem_of_In in Hm.
    specialize (Hm (Hw _ Hl Ml)). unfold missing_scope in Hm. by destruct (task_file_scope l).
  - destruct (list_elem_of_lookup_1 _ _ (Hw _ Hl Ml)) as [i Hi], (list_elem_of_lookup_1 _ _ (Hw _ Hr Mr)) as [j Hj].
    destruct (lt_eq_lt_dec i j) as [[Hij| ->]|Hij]; [left|congruence|right];
      by eapply (first_overlap_none ws E2); [exact Hij| |].
Qed.

Lemma parallel_refusal p e : validate_parallel_write_scope p = Err e -> refusal e.
Proof.
  unfold validate_parallel_write_scope. destruct (negb _); [done|].
  destruct (List.find _ _); [by intros [= <-]|]. destruct (first_overlap _) as [[]|]; by intros [= <-].
Qed.

Lemma dependencies_refusal tb p e : check_dependencies tb p tt = Err e -> refusal e.
Proof.
  unfold check_dependencies. destruct (try_each _ _ _) as [[]|e'] eqn:E; simpl; [apply parallel_refusal|].
  intros [= <-]. apply try_each_unit_err in E as (d & _ & E). unfold check_dependency in E.
  destruct (_ || _); by simplify_eq.
Qed.

(** ** Compilation *)

Definition results_ok config names : Prop :=
  forall p t d, p ∈ phases config -> t ∈ tasks p -> d ∈ task_depends_on_results t ->
  available config names (name p) d.

(** What a compilation comes to. *)
Definition compiled (config : WorkflowConfig) (r : result WorkflowPlan stop) : Prop :=
  match r with
  | Ok plan => exists ps,
      plan = {| plan_goal := config_goal config; plan_max_concurrent := max_concurrent config;
                plan_phases := plan_of <$> ps |} /\
      ps ≡ₚ phases config /\ NoDup (name <$> phases config) /\
      NoDup ((fun nt => task_id nt.2) <$> placed (phases config)) /\
      topological config (name <$> ps) /\ results_ok config (name <$> ps) /\
      (declared config -> ps = phases config) /\
      (1 <= max_concurrent config <= 20)%N /\
      Forall (fun p => validate_parallel_write_scope p = Ok tt) (phases config)
  | Err (Refused (PhaseDependencyCycle n)) => tc (dep config) n n
  | Err (Refused _) => True
  | Err _ => False
  end.

Lemma refusal_compiled config e : refusal e -> compiled config (Err e).
Proof. by destruct e as [[]| |]. Qed.

Lemma names_phases (config : WorkflowConfig) (ps : list Phase) :
  NoDup (name <$> phases config) -> name <$> ps ≡ₚ name <$> phases config ->
  Forall (fun p => p ∈ phases config) ps -> ps ≡ₚ phases config.
Proof.
  intros Hu Hp Hin. apply NoDup_Permutation.
  - eapply NoDup_fmap_1. by rewrite Hp.
  - by eapply NoDup_fmap_1.
  - intros p. split; [by rewrite Forall_forall in Hin; apply Hin|]. intros H.
    assert (Hn : name p ∈ name <$> ps) by (rewrite Hp; by apply list_elem_of_fmap_2).
    apply list_elem_of_fmap in Hn as (q & Eq & Hq). rewrite Forall_forall in Hin.
    by rewrite (NoDup_fmap_elem name _ _ _ Hu H (Hin _ Hq) Eq).
Qed.

Lemma same_names (config : WorkflowConfig) (ps : list Phase) :
  NoDup (name <$> phases config) -> Forall (fun p => p ∈ phases config) ps ->
  name <$> ps = name <$> phases config -> ps = phases config.
Proof.
  intros Hu Hin E. apply list_eq. intros i.
  assert (Ei : name <$> ps !! i = name <$> phases config !! i) by (by rewrite <- !list_lookup_fmap, E).
  destruct (ps !! i) as [p|] eqn:E1, (phases config !! i) as [q|] eqn:E2; simplify_eq/=; [|done].
  f_equal. rewrite Forall_forall in Hin. eapply (NoDup_fmap_elem name); [done| | |done].
  - apply Hin. by eapply list_elem_of_lookup_2.
  - by eapply list_elem_of_lookup_2.
Qed.

Lemma from_config_ok config : compiled config (from_config config).
Proof.
  unfold from_config.
  destruct (validate_non_empty _ _) eqn:E0; cbn [result_bind];
    [|by eapply refusal_compiled, non_empty_refusal].
  destruct (_ && _) eqn:E1; [|done]. cbn [negb].
  destruct (phases config) as [|p0 ps0] eqn:E2; [done|]. rewrite <- E2. clear E2 p0 ps0.
  pose proof (check_phases_ok (phases config)) as H1. cbn zeta in H1.
  destruct (try_each check_phase _ _) as [tb|e]; cbn [result_bind]; [|by apply refusal_compiled].
  destruct (try_each (check_dependencies tb) _ tt) as [[]|e] eqn:E3; cbn [result_bind].
  2:{ apply try_each_unit_err in E3 as (p & _ & E). by eapply refusal_compiled, dependencies_refusal. }
  apply try_each_unit in E3.
  pose proof (ordered_phases_ok config (phase_indices tb) (tables_name _ _ H1) (tables_total _ _ H1)
    (tables_unique _ _ H1) (dependencies_known _ _ E3)) as H2.
  destruct (ordered_phases _ _) as [names|e] eqn:E5; cbn [result_bind]; [|by destruct e as [[]| |]; simpl in *].
  destruct H2 as [Ht Hp]. assert (Hn : NoDup names) by (rewrite Hp; apply (tables_unique _ _ H1)).
  destruct (try_each (check_results tb (order_map names)) _ tt) as [[]|e] eqn:E4; cbn [result_bind].
  2:{ apply try_each_unit_err in E4 as (p & Hin & E). apply try_each_unit_err in E as (t & _ & E).
      apply try_each_unit_err in E as (d & _ & E).
      pose proof (check_result_ok config tb names p t d H1 Hn Hp Hin) as Hc. rewrite E in Hc. by apply refusal_compiled. }
  destruct (phase_plans_ok config tb names (tables_name _ _ H1)) as (ps & E & En & Hin).
  { apply Forall_forall. intros n Hin. rewrite Hp in Hin. apply list_elem_of_fmap in Hin as (p & -> & Hin).
    by apply (tables_total _ _ H1). }
  rewrite E. cbn [result_bind]. exists ps. rewrite En.
  split_and!; [done| |apply (tables_unique _ _ H1)|apply (tb_ids _ _ _ H1)|done| | | | |].
  - apply names_phases; [apply (tables_unique _ _ H1)|by rewrite En|done].
  - intros p t d Hin1 Hin2 Hin3. pose proof (check_result_ok config tb names p t d H1 Hn Hp Hin1) as Hc.
    apply try_each_unit in E4. rewrite Forall_forall in E4. specialize (E4 p Hin1). unfold check_results in E4.
    apply try_each_unit in E4. rewrite Forall_forall in E4. specialize (E4 t Hin2).
    apply try_each_unit in E4. rewrite Forall_forall in E4. by rewrite (E4 d Hin3) in Hc.
  - intros Hd. rewrite (ordered_declared config (phase_indices tb) (tables_name _ _ H1) (tables_total _ _ H1)
      (tables_unique _ _ H1) (dependencies_known _ _ E3) Hd) in E5. injection E5 as E5. rewrite <- E5 in En.
    apply (same_names config); [apply (tables_unique _ _ H1)|done|done].
  - apply andb_true_iff in E1 as [E1%N.leb_le _]. done.
  - apply andb_true_iff in E1 as [_ E1%N.leb_le]. done.
  - eapply Forall_impl; [exact E3|]. intros p. unfold check_dependencies. cbn beta.
    destruct (try_each (check_dependency tb p) _ _) as [[]|]; [|done]. exact id.
Qed.

(** C33: A compiled plan can be run from front to back. It has every declared phase, whole and
    once, with at most twenty tasks at a time; a phase comes after all the phases it depends
    on; a task uses results of earlier phases only; phases that are declared in such an
    order keep it; and of two writing tasks of a parallel phase, whose scopes are paths or
    trailing stars, no path is in the scopes of both. *)
Theorem plans_respect_dependencies config plan : from_config config = Ok plan ->
  (exists ps, ps ≡ₚ phases config /\ plan_phases plan = plan_of <$> ps /\ (declared config -> ps = phases config)) /\
  NoDup (phase_names plan) /\ topological config (phase_names plan) /\
  (forall i ph t d, plan_phases plan !! i = Some ph -> t ∈ plan_tasks ph -> d ∈ task_depends_on_results t ->
     exists j ph' t', j < i /\ plan_phases plan !! j = Some ph' /\ t' ∈ plan_tasks ph' /\ task_id t' = d) /\
  (1 <= plan_max_concurrent plan <= 20)%N /\
  (forall ph l r ls rs path, ph ∈ plan_phases plan -> plan_parallel ph = true ->
     l ∈ plan_tasks ph -> r ∈ plan_tasks ph -> l <> r -> task_mode l = ReadWrite -> task_mode r = ReadWrite ->
     ls ∈ task_file_scope l -> rs ∈ task_file_scope r -> literal ls -> literal rs ->
     below (normalize_file_scope_root ls) path -> below (normalize_file_scope_root rs) path -> False).
Proof.
  intros E. pose proof (from_config_ok config) as H. rewrite E in H.
  destruct H as (ps & -> & Hp & Hu & Hi & Ht & Hr & Hd & Hm & Hs). simpl.
  assert (En : phase_names {| plan_goal := config_goal config; plan_max_concurrent := max_concurrent config;
                              plan_phases := plan_of <$> ps |} = name <$> ps).
  { unfold phase_names. simpl. by rewrite <- list_fmap_compose. }
  rewrite En. split_and!; [by exists ps|by rewrite Hp|done| |lia|lia|].
  - intros i ph t d Hph Ht1 Ht2. apply list_lookup_fmap_Some in Hph as (p & -> & Ep).
    destruct (Hr p t d) as (i' & j & q & k & Hi' & Hj & Eq & Hq & Hk & Ek); [|done|done|].
    { rewrite <- Hp. by eapply list_elem_of_lookup_2. }
    assert (i' = i) as ->.
    { eapply (NoDup_lookup (name <$> ps)); [by rewrite Hp|done|]. by rewrite list_lookup_fmap, Ep. }
    apply list_lookup_fmap_Some in Eq as (q' & Eq & Eq').
    assert (q = q') as <-.
    { eapply (NoDup_fmap_elem name); [done|done| |done]. rewrite <- Hp. by eapply list_elem_of_lookup_2. }
    exists j, (plan_of q), k. split_and!; [done| |done|done]. by rewrite list_lookup_fmap, Eq'.
  - intros ph l r ls rs path (p & -> & Hin)%list_elem_of_fmap Hpar Hl Hr1 Hne Ml Mr Hls Hrs Ll Lr Bl Br.
    rewrite Forall_forall in Hs. rewrite Hp in Hin.
    destruct (parallel_scopes_ok p l r (Hs p Hin) Hpar Hl Hr1 Ml Mr Hne) as [_ [Ho|Ho]].
    + by eapply (disjoint_scopes ls rs path), Br; [| |eapply scopes_overlap_false|].
    + by eapply (disjoint_scopes rs ls path), Bl; [| |eapply scopes_overlap_false|].
Qed.

Lemma topological_acyclic config l a b : topological config l -> tc (dep config) a b ->
  forall i, l !! i = Some a -> exists j, j < i /\ l !! j = Some b.
Proof.
  intros Ht. induction 1 as [a b Hab|a b c Hab _ IH]; intros i Hi; [by apply (Ht _ _ Hi)|].
  destruct (Ht _ _ Hi _ Hab) as (j & Hj & Ej). destruct (IH _ Ej) as (k & Hk & Ek). exists k. split; [lia|done].
Qed.

(** C34: The compilation of a configuration always ends, with a plan or with a refusal, and
    never by a panic: the fuel of the search is enough and every index is in range. A phase
    that is named as part of a cycle does depend on itself, and no configuration with such
    a phase has a plan. *)
Theorem phase_cycles_are_refused config :
  from_config config <> Err Panicked /\ from_config config <> Err OutOfFuel /\
  (forall n, from_config config = Err (Refused (PhaseDependencyCycle n)) -> tc (dep config) n n) /\
  (forall n plan, tc (dep config) n n -> from_config config <> Ok plan).
Proof.
  pose proof (from_config_ok config) as H. split_and!.
  - intros E. by rewrite E in H.
  - intros E. by rewrite E in H.
  - intros n E. by rewrite E in H.
  - intros n plan Hn E. rewrite E in H. destruct H as (ps & _ & Hp & Hu & _ & Ht & _).
    assert (Hin : n ∈ name <$> ps).
    { rewrite Hp. assert (Hd : exists m, dep config n m) by (inversion Hn; subst; eauto).
      destruct Hd as (m & p & Hin & <- & _). by apply list_elem_of_fmap_2. }
    apply list_elem_of_lookup in Hin as [i Hi].
    destruct (topological_acyclic _ _ _ _ Ht Hn i Hi) as (j & Hj & Ej).
    assert (i = j) by (eapply (NoDup_lookup (name <$> ps)); [by rewrite Hp|done|done]). lia.
Qed.

(** ** A witness *)

Definition task (id : string) (mode : TaskMode) (scope : list string) (deps : list string) : Task :=
  {| task_id := lit id; task_prompt := lit "do it"; task_agent_type := General; task_mode := mode;
     task_isolation := Auto; task_file_scope := lit <$> scope; task_depends_on_results := lit <$> deps;
     task_max_steps := None; task_timeout_secs := None |}.

Definition phase (n : string) (deps : list string) (parallel : bool) (ts : list Task) : Phase :=
  {| name := lit n; phase_description := None; depends_on := lit <$> deps; phase_parallel := parallel;
     on_failure := SkipContinue; tasks := ts |}.

Definition sample : WorkflowConfig :=
  {| config_goal := lit "ship"; max_concurrent := 4; config_description := None;
     phases := [phase "review" ["build"] false [task "r" ReadOnly [] ["a"; "b"]];
                phase "build" [] true [task "a" ReadWrite ["src/auth/**"] []; task "b" ReadWrite ["./docs"] []]] |}.

Definition sample_plan : WorkflowPlan :=
  {| plan_goal := lit "ship"; plan_max_concurrent := 4;
     plan_phases := [plan_of (phase "build" [] true [task "a" ReadWrite ["src/auth/**"] []; task "b" ReadWrite ["./docs"] []]);
                     plan_of (phase "review" ["build"] false [task "r" ReadOnly [] ["a"; "b"]])] |}.

Lemma plans_respect_dependencies_witness :
  from_config sample = Ok sample_plan /\ topological sample [lit "build"; lit "review"].
Proof.
  assert (E : from_config sample = Ok sample_plan) by (vm_compute; reflexivity).
  split; [exact E|]. exact (proj1 (proj2 (proj2 (plans_respect_dependencies sample sample_plan E)))).
Defined.

(** Scopes with a star elsewhere are compared by what is in front of the star: the two
    writers may write the same file, and the plan is accepted. *)
Definition starred : WorkflowConfig :=
  {| config_goal := lit "ship"; max_concurrent := 4; config_description := None;
     phases := [phase "build" [] true [task "a" ReadWrite ["src/*/mod.rs"] []; task "b" ReadWrite ["src/auth/mod.rs"] []]] |}.

Example starred_scopes_are_accepted : is_ok (from_config starred) = true.
Proof. vm_compute. reflexivity. Qed.

End WfPhasesTheorems.
