(* ===== verification/WfElevation.v ===== *)
(** * The approval card of a workflow (crates/workflow/src/elevation.rs)

    What a compiled workflow may do, as the operator is shown it, with the summary that the
    terminal keeps of it (crates/tui/src/tools/workflow_plan_approval.rs). *)

From stdpp Require Import base list option strings gmap.
From Stdlib Require Import Lia NArith.
From S2P Require Import Prelude RustStr RustNum WfGates WfNodes.

Module WfElevation.
Import WfNodes.

Definition DEFAULT_HIGH_BUDGET_THRESHOLD : N := 120000.

Record ElevationOptions : Type := {
  token_budget : option N;
  high_budget_threshold : N;
  parent_allows_write : bool;
  parent_allows_network : bool
}.

Definition options_default : ElevationOptions :=
  {| token_budget := None; high_budget_threshold := DEFAULT_HIGH_BUDGET_THRESHOLD;
     parent_allows_write := true; parent_allows_network := true |}.

Record WorkflowPlanElevation : Type := {
  elevated : bool;
  card_goal : list N;
  child_count : nat;
  child_summary : list N;
  writes : bool;
  shell : bool;
  network : bool;
  secrets : bool;
  worktree : bool;
  high_budget : bool;
  broader_authority : bool;
  budget_label : list N;
  reasons : list (list N)
}.

Definition yes_no (b : bool) : list N := lit (if b then "yes" else "no").

Definition card_fields (e : WorkflowPlanElevation) : list (list N * list N) :=
  [(lit "Goal", card_goal e); (lit "Children", child_summary e); (lit "Writes", yes_no (writes e));
   (lit "Shell", yes_no (shell e)); (lit "Network", yes_no (network e)); (lit "Budget", budget_label e)].

Definition is_read_only_envelope (e : WorkflowPlanElevation) : bool :=
  negb (elevated e) && negb (writes e) && negb (shell e) && negb (network e) && negb (secrets e) &&
  negb (worktree e) && negb (high_budget e) && negb (broader_authority e).

(** ** Tools *)

Definition one_of (names : list string) (s : list N) : bool := existsb (fun n => str_eqb s (lit n)) names.

Definition is_write_tool (tool : list N) : bool :=
  one_of ["Edit"; "write_file"; "edit_file"; "apply_patch"; "checklist_write"; "todo_write"]%string (trim tool).

Definition is_shell_tool (tool : list N) : bool :=
  one_of ["exec_shell"; "exec_shell_wait"; "exec_shell_interact"; "exec_wait"; "exec_interact";
          "task_shell_start"; "task_shell_wait"]%string (trim tool).

Definition is_network_tool (tool : list N) : bool :=
  one_of ["web_search"; "web_run"; "fetch_url"; "wait_for_dev_server"]%string tool ||
  starts_with (lit "mcp_") tool.

Definition is_secret_tool (tool : list N) : bool :=
  let lower := to_ascii_lowercase tool in
  str_contains (lit "secret") lower || str_contains (lit "credential") lower ||
  str_contains (lit "password") lower || str_eqb lower (lit "read_env") || str_eqb lower (lit "env").

(** ** The walk *)

(** The variables that the walk sets. *)
Record Flags : Type := {
  child_ids : list (list N);
  f_writes : bool; f_shell : bool; f_network : bool; f_secrets : bool; f_worktree : bool
}.

Definition flags_init : Flags :=
  {| child_ids := []; f_writes := false; f_shell := false; f_network := false; f_secrets := false;
     f_worktree := false |}.

(** What the tools of a list set. *)
Definition merge_tool (f : Flags) (tool : list N) : Flags :=
  let name := trim tool in
  {| child_ids := child_ids f;
     f_writes := f_writes f || is_write_tool name;
     f_shell := f_shell f || is_shell_tool name;
     f_network := f_network f || is_network_tool name;
     f_secrets := f_secrets f || is_secret_tool name;
     f_worktree := f_worktree f |}.

Definition merge_permissions (p : PermissionSpec) (f : Flags) : Flags :=
  fold_left merge_tool (allowed_tools p)
    {| child_ids := child_ids f; f_writes := f_writes f || allow_write p; f_shell := f_shell f;
       f_network := f_network f || allow_network p; f_secrets := f_secrets f; f_worktree := f_worktree f |}.

(** An agent that may write and has no list of tools can run a shell. *)
Definition unlisted_writer (leaf : LeafSpec) : bool :=
  bool_decide (mode leaf = ReadWrite) && match allowed_tools (leaf_permissions leaf) with [] => true | _ => false end &&
  (bool_decide (agent_type leaf = Implementer) || bool_decide (agent_type leaf = General)).

Definition inspect_leaf (leaf : LeafSpec) (parallel : bool) (f : Flags) : Flags :=
  let f := merge_permissions (leaf_permissions leaf)
    {| child_ids := child_ids f ++ [leaf_id leaf]; f_writes := f_writes f || leaf_is_write_capable leaf;
       f_shell := f_shell f; f_network := f_network f; f_secrets := f_secrets f; f_worktree := f_worktree f |} in
  {| child_ids := child_ids f; f_writes := f_writes f; f_shell := f_shell f || unlisted_writer leaf;
     f_network := f_network f; f_secrets := f_secrets f;
     f_worktree := f_worktree f || leaf_wants_worktree leaf parallel || bool_decide (isolation leaf = Worktree) |}.

Fixpoint walk_node (parallel : bool) (n : WorkflowNode) (f : Flags) : Flags :=
  let each parallel ns f := fold_left (fun f n => walk_node parallel n f) ns f in
  match n with
  | Leaf leaf => inspect_leaf leaf parallel f
  | BranchSet head children =>
      each (WfNodes.parallel head || parallel) children (merge_permissions (branch_permissions head) f)
  | Sequence _ children => each parallel children f
  | LoopUntil _ _ _ children => each parallel children f
  | Cond _ _ then_nodes else_nodes => each parallel else_nodes (each parallel then_nodes f)
  | Expand _ _ _ (Some template) => walk_node parallel template f
  | Expand _ _ _ None => f
  | Reduce _ | TeacherReview _ => f
  end.

Definition walk_nodes (ns : list WorkflowNode) (parallel : bool) (f : Flags) : Flags :=
  fold_left (fun f n => walk_node parallel n f) ns f.

(** ** Risk *)

Inductive PlanRiskHint : Type := RiskReadOnly | RiskWrites | RiskShell | RiskNetwork | RiskElevated.

Definition elevates (h : PlanRiskHint) : bool := match h with RiskReadOnly => false | _ => true end.

Definition assess_plan_risk_string (risk : option (list N)) : PlanRiskHint :=
  match risk with
  | None => RiskReadOnly
  | Some r =>
      let r := trim r in
      if str_is_empty r || one_of ["read_only"; "readonly"; "low"; "safe"]%string r then RiskReadOnly
      else if one_of ["writes"; "write"; "read_write"; "readwrite"; "medium"]%string r then RiskWrites
      else if one_of ["shell"]%string r then RiskShell
      else if one_of ["network"]%string r then RiskNetwork
      else RiskElevated
  end.

Definition set_risk (w s n : bool) (f : Flags) : Flags :=
  {| child_ids := child_ids f; f_writes := f_writes f || w; f_shell := f_shell f || s;
     f_network := f_network f || n; f_secrets := f_secrets f; f_worktree := f_worktree f |}.

Definition apply_plan_risk_hint (risk : option (list N)) (f : Flags) : Flags :=
  match assess_plan_risk_string risk with
  | RiskReadOnly => f
  | RiskWrites => set_risk true false false f
  | RiskShell => set_risk true true false f
  | RiskNetwork => set_risk false false true f
  | RiskElevated => set_risk true true true f
  end.

Definition embedded_plan_risk_hint (description : option (list N)) : option (list N) :=
  match description with
  | None => None
  | Some d =>
      let value := trim d in
      if negb (str_is_empty value) &&
         one_of ["read_only"; "readonly"; "low"; "safe"; "writes"; "write"; "read_write"; "readwrite"; "medium";
                 "shell"; "network"; "elevated"; "high"]%string value
      then Some value else None
  end.

(** ** The card *)

Definition format_budget_label (effective_tokens : option N) (b : BudgetSpec) (high : bool) : list N :=
  let opt (o : option N) (f : N -> list N) : list (list N) := match o with Some n => [f n] | None => [] end in
  let parts :=
    opt effective_tokens (fun n => dec n ++ lit " tokens") ++
    opt (max_steps b) (fun n => lit "max_steps=" ++ dec n) ++
    opt (timeout_secs b) (fun n => lit "timeout=" ++ dec n ++ lit "s") ++
    opt (max_parallel b) (fun n => lit "max_parallel=" ++ dec n) in
  match parts with
  | [] => lit "default"
  | _ => if high then str_join (lit ", ") parts ++ lit " (high)" else str_join (lit ", ") parts
  end.

(** U+2026. *)
Definition ellipsis : N := 8230.

Definition summarize_children (ids : list (list N)) : list N :=
  match ids with
  | [] => lit "0 children"
  | first :: rest =>
      if length ids <=? 4
      then dec (N.of_nat (length ids)) ++ lit " child" ++ lit (if length ids =? 1 then "" else "ren") ++ lit ": " ++
           str_join (lit ", ") ids
      else dec (N.of_nat (length ids)) ++ lit " children: " ++ first ++ lit ", " ++ default [] (rest !! 0) ++
           [ellipsis] ++ lit " (+" ++ dec (N.of_nat (length ids - 2)) ++ lit ")"
  end.

Definition effective_tokens (options : ElevationOptions) (b : BudgetSpec) : option N :=
  match match token_budget options with Some n => Some n | None => max_tokens b end with
  | Some n => if (0 <? n)%N then Some n else None
  | None => None
  end.

Definition plan_flags (spec : WorkflowSpec) : Flags :=
  let f := walk_nodes (nodes spec) false flags_init in
  let f := merge_permissions (permissions spec) f in
  match embedded_plan_risk_hint (description spec) with
  | Some risk => apply_plan_risk_hint (Some risk) f
  | None => f
  end.

Definition reason (b : bool) (s : string) : list (list N) := if b then [lit s] else [].

Definition assess_workflow_elevation (spec : WorkflowSpec) (options : ElevationOptions) : WorkflowPlanElevation :=
  let f := plan_flags spec in
  let tokens := effective_tokens options (budget spec) in
  let high := match tokens with Some n => (high_budget_threshold options <? n)%N | None => false end in
  let broader := (negb (parent_allows_write options) && f_writes f) ||
                 (negb (parent_allows_network options) && f_network f) in
  let reasons := reason (f_writes f) "writes" ++ reason (f_shell f) "shell" ++ reason (f_network f) "network" ++
                 reason (f_secrets f) "secrets" ++ reason (f_worktree f) "worktree" ++
                 reason high "high_budget" ++ reason broader "broader_authority" in
  {| elevated := match reasons with [] => false | _ => true end;
     card_goal := goal spec;
     child_count := length (child_ids f);
     child_summary := summarize_children (child_ids f);
     writes := f_writes f; shell := f_shell f; network := f_network f; secrets := f_secrets f;
     worktree := f_worktree f; high_budget := high; broader_authority := broader;
     budget_label := format_budget_label tokens (budget spec) high;
     reasons := reasons |}.

(** ** The summary of the terminal *)

Record WorkflowPlanApprovalSummary : Type := {
  s_goal : list N;
  s_risk : option (list N);
  s_child_count : nat;
  s_child_labels : list (list N);
  s_child_summary : list N;
  s_phase_count : nat;
  s_writes : bool; s_shell : bool; s_network : bool; s_secrets : bool; s_worktree : bool;
  s_high_budget : bool; s_broader_authority : bool;
  s_token_budget : option N;
  s_budget_label : list N;
  s_elevated : bool;
  s_reasons : list (list N)
}.

Definition summary_from_elevation (e : WorkflowPlanElevation) (risk : option (list N)) (budget : option N)
    : WorkflowPlanApprovalSummary :=
  {| s_goal := card_goal e; s_risk := risk; s_child_count := child_count e; s_child_labels := [];
     s_child_summary := child_summary e; s_phase_count := 0; s_writes := writes e; s_shell := shell e;
     s_network := network e; s_secrets := secrets e; s_worktree := worktree e; s_high_budget := high_budget e;
     s_broader_authority := broader_authority e; s_token_budget := budget; s_budget_label := budget_label e;
     s_elevated := elevated e; s_reasons := reasons e |}.

(** [default_token_budget] is the setting of the configuration. *)
Definition analyze_workflow_spec (spec : WorkflowSpec) (budget : option N) (default_token_budget : N)
    : WorkflowPlanApprovalSummary :=
  summary_from_elevation
    (assess_workflow_elevation spec
       {| token_budget := budget; high_budget_threshold := default_token_budget;
          parent_allows_write := true; parent_allows_network := true |})
    (description spec) budget.

Definition summary_is_read_only (s : WorkflowPlanApprovalSummary) : bool := negb (s_elevated s).

(** The decision that the receipt of a launch records. *)
Definition recorded_decision (s : WorkflowPlanApprovalSummary) (approval_decision : list N) : list N :=
  if summary_is_read_only s then lit "auto_read_only" else approval_decision.

End WfElevation.
