(* ===== verification/WfLower.v ===== *)
(** * From a declarative workflow to its script (crates/tui/src/tools/workflow/mod.rs)

    [DeclarativeWorkflowLowerer]: the tasks that a compiled workflow launches, with their
    options, and the text of the script that launches them. [lower_*] gives the statements,
    one per group of lines; [stmt_lines] writes them. The encoding of strings as JSON is a
    parameter. An error is its message. *)

From stdpp Require Import base list option strings gmap.
From Stdlib Require Import Lia NArith.
From S2P Require Import Prelude RustStr RustNum WfGates WfNodes WfElevation WfPhases.

Module WfLower.
Import WfNodes WfElevation.

(** [serde_json::to_string] of a string and of a list of strings. *)
Class JsonText : Type := { js_string : list N -> list N; js_strings : list (list N) -> list N }.

Definition agent_type_name (t : AgentType) : list N :=
  match t with
  | General => lit "general" | Explore => lit "explore" | Plan => lit "plan" | Review => lit "review"
  | Implementer => lit "implementer" | Verifier => lit "verifier"
  end.

Definition task_mode_name (m : TaskMode) : list N :=
  match m with ReadOnly => lit "read_only" | ReadWrite => lit "read_write" end.

Definition is_write_or_shell_tool (tool : list N) : bool := is_write_tool tool || is_shell_tool tool.

(** ** The contract of a leaf *)

Definition leaf_message (id : list N) (rest : string) : list N := lit "Workflow leaf '" ++ id ++ lit "' " ++ lit rest.

Definition unsupported_scope (scope : list N) : bool :=
  let normalized := WfPhases.normalize_file_scope_root scope in
  str_is_empty normalized || contains_char WfPhases.c_star normalized.

Definition no_tools (p : PermissionSpec) : bool := match allowed_tools p with [] => true | _ => false end.

Definition validate_leaf_runtime_contract (spec : LeafSpec) : result unit (list N) :=
  let id := leaf_id spec in
  let p := leaf_permissions spec in
  let read_only := bool_decide (mode spec = ReadOnly) in
  if read_only && allow_write p then Err (leaf_message id "is read_only but requests allow_write permissions")
  else if negb read_only && match file_scope spec with [] => true | _ => false end
  then Err (leaf_message id "is read_write but declares no file_scope for its bounded write claim")
  else
    match List.find unsupported_scope (file_scope spec) with
    | Some scope =>
        Err (leaf_message id "has unsupported file_scope '" ++ scope ++
             lit "'; use a concrete path or a trailing /* or /** directory scope")
    | None =>
        if negb read_only &&
           match agent_type spec with Explore | Plan | Review | Verifier => true | _ => false end
        then Err (leaf_message id "is read_write but uses read-only agent_type " ++ agent_type_name (agent_type spec))
        else if read_only && existsb is_write_or_shell_tool (allowed_tools p)
        then Err (leaf_message id "is read_only but requests write/shell allowed_tools")
        else if deny_all_tools p && negb (no_tools p)
        then Err (leaf_message id "cannot combine deny_all_tools with allowed_tools")
        else Ok tt
    end.

(** ** The options of a task *)

Record TaskOptions : Type := {
  description_expr : list N;
  subagent_type : option (list N);
  opt_role : option (list N);
  opt_profile : option (list N);
  opt_worktree : bool;
  opt_token_budget : option N;
  opt_max_steps : option N;
  wall_time_secs : option N;
  write_authority : option (list N);
  write_roots : list (list N);
  label : list N;
  opt_phase : option (list N);
  opt_allowed_tools : option (list (list N))
}.

Definition leaf_subagent_type (spec : LeafSpec) : option (list N) :=
  let named := bool_decide (is_Some (leaf_role spec)) || bool_decide (is_Some (profile spec)) in
  let read_only := bool_decide (mode spec = ReadOnly) in
  if named && bool_decide (agent_type spec = General) then None
  else if read_only && bool_decide (agent_type spec = General) then Some (lit "review")
  else if read_only && bool_decide (agent_type spec = Implementer) && named then None
  else Some (agent_type_name (agent_type spec)).

Definition read_only_allowed_tools (_ : AgentType) : list (list N) := [lit "File"].

Definition leaf_allowed_tools (spec : LeafSpec) : option (list (list N)) :=
  if deny_all_tools (leaf_permissions spec) then Some []
  else if negb (no_tools (leaf_permissions spec)) then Some (allowed_tools (leaf_permissions spec))
  else if negb (bool_decide (mode spec = ReadOnly)) then None
  else Some (read_only_allowed_tools (agent_type spec)).

Definition budget_is_default (b : BudgetSpec) : bool :=
  match max_steps b, timeout_secs b, max_parallel b, max_tokens b with
  | None, None, None, None => true
  | _, _, _, _ => false
  end.

Definition leaf_description (spec : LeafSpec) : list N :=
  let opt (o : option N) (s : string) : list (list N) := match o with Some n => [lit s ++ dec n] | None => [] end in
  let b := leaf_budget spec in
  let metadata :=
    [lit "Workflow leaf id: " ++ leaf_id spec; lit "Mode: " ++ task_mode_name (mode spec)] ++
    match file_scope spec with [] => [] | scope => [lit "File scope: " ++ str_join (lit ", ") scope] end ++
    match depends_on_results spec with [] => [] | d => [lit "Depends on results: " ++ str_join (lit ", ") d] end ++
    if budget_is_default b then []
    else match opt (max_steps b) "max_steps=" ++ opt (timeout_secs b) "timeout_secs=" ++
               opt (max_parallel b) "max_parallel=" ++ opt (max_tokens b) "max_tokens=" with
         | [] => []
         | parts => [lit "Budget: " ++ str_join (lit ", ") parts]
         end in
  trim (prompt spec) ++ [c_nl; c_nl] ++ lit "Workflow metadata:" ++ [c_nl] ++
  concat ((fun item => lit "- " ++ item ++ [c_nl]) <$> metadata).

Section Lower.
Context `{json : JsonText}.

(** The two characters [\n] of an escape in the script. *)
Definition js_nl : list N := lit "\n".
Definition quoted (s : list N) : list N := [c_dquote] ++ s ++ [c_dquote].

Definition result_inputs_expression (inputs : list (list N)) : list N :=
  lit "[" ++
  str_join (lit ", ") ((fun i => lit "[" ++ js_string i ++ lit ", __results[" ++ js_string i ++ lit "]]") <$> inputs) ++
  lit "].map(([id, value]) => " ++ quoted (lit "--- ") ++ lit " + id + " ++ quoted (lit " ---" ++ js_nl) ++
  lit " + String(value ?? " ++ quoted [] ++ lit ")).join(" ++ quoted (js_nl ++ js_nl) ++ lit ")".

Definition inputs_heading : list N := lit " + " ++ quoted (js_nl ++ js_nl ++ lit "Inputs:" ++ js_nl) ++ lit " + ".

Definition leaf_description_expression (spec : LeafSpec) : list N :=
  let description := js_string (leaf_description spec) in
  match depends_on_results spec with
  | [] => description
  | inputs => description ++ inputs_heading ++ result_inputs_expression inputs
  end.

Definition leaf_options (spec : LeafSpec) (phase : option (list N)) (parallel : bool)
    : result TaskOptions (list N) :=
  let? _ := validate_leaf_runtime_contract spec in
  let worktree := leaf_wants_worktree spec parallel in
  Ok {| description_expr := leaf_description_expression spec;
        subagent_type := leaf_subagent_type spec;
        opt_role := leaf_role spec;
        opt_profile := profile spec;
        opt_worktree := worktree;
        opt_token_budget := max_tokens (leaf_budget spec);
        opt_max_steps := max_steps (leaf_budget spec);
        wall_time_secs := timeout_secs (leaf_budget spec);
        write_authority := Some (match mode spec with
                                 | ReadOnly => lit "read_only"
                                 | ReadWrite => if worktree then lit "worktree_write" else lit "workspace_write"
                                 end);
        write_roots := match mode spec with
                       | ReadWrite => WfPhases.normalize_file_scope_root <$> file_scope spec
                       | ReadOnly => []
                       end;
        label := leaf_id spec;
        opt_phase := phase;
        opt_allowed_tools := leaf_allowed_tools spec |}.

Definition reduce_options (spec : ReduceSpec) : TaskOptions :=
  {| description_expr := js_string (reduce_prompt spec) ++ inputs_heading ++ result_inputs_expression (inputs spec);
     subagent_type := Some (lit "plan"); opt_role := None; opt_profile := None; opt_worktree := false;
     opt_token_budget := None; opt_max_steps := None; wall_time_secs := None;
     write_authority := Some (lit "read_only"); write_roots := []; label := reduce_id spec;
     opt_phase := Some (lit "reduce"); opt_allowed_tools := None |}.

Definition task_options_expression (o : TaskOptions) : list N :=
  let text (k : string) (v : option (list N)) : list (list N) :=
    match v with Some v => [lit k ++ js_string v] | None => [] end in
  let number (k : string) (v : option N) : list (list N) :=
    match v with Some v => [lit k ++ dec v] | None => [] end in
  let fields :=
    [lit "description: " ++ description_expr o] ++ text "type: " (subagent_type o) ++
    [lit "label: " ++ js_string (label o)] ++ text "phase: " (opt_phase o) ++ text "role: " (opt_role o) ++
    text "profile: " (opt_profile o) ++ (if opt_worktree o then [lit "worktree: true"] else []) ++
    number "tokenBudget: " (opt_token_budget o) ++ number "maxSteps: " (opt_max_steps o) ++
    number "wallTimeSecs: " (wall_time_secs o) ++ text "writeAuthority: " (write_authority o) ++
    match write_roots o with [] => [] | roots => [lit "writeRoots: " ++ js_strings roots] end ++
    match opt_allowed_tools o with Some tools => [lit "allowedTools: " ++ js_strings tools] | None => [] end in
  lit "{ " ++ str_join (lit ", ") fields ++ lit " }".

(** ** Statements *)

Inductive Stmt : Type :=
| PhaseStmt (id : list N)
| TaskStmt (id : list N) (o : TaskOptions)
| ParallelStmt (temp : list N) (children : list (list N * TaskOptions)).

Definition lowered : Type := list Stmt * nat.

Definition unsupported_declarative_node (kind : string) : list N :=
  lit "Declarative Workflow adapter does not yet support " ++ lit kind ++ lit " nodes".

Definition lower_leaf (spec : LeafSpec) (phase : option (list N)) (parallel : bool) (s : lowered)
    : result lowered (list N) :=
  let? o := leaf_options spec phase parallel in Ok (s.1 ++ [TaskStmt (leaf_id spec) o], s.2).

Fixpoint parallel_leaves (branch : list N) (ns : list WorkflowNode) : result (list LeafSpec) (list N) :=
  match ns with
  | [] => Ok []
  | Leaf leaf :: ns => let? leaves := parallel_leaves branch ns in Ok (leaf :: leaves)
  | _ :: _ =>
      Err (lit "Declarative Workflow adapter only supports leaf children inside parallel branch '" ++ branch ++ lit "'")
  end.

Fixpoint parallel_options (branch : list N) (leaves : list LeafSpec) : result (list (list N * TaskOptions)) (list N) :=
  match leaves with
  | [] => Ok []
  | leaf :: leaves =>
      let? o := leaf_options leaf (Some branch) true in
      let? rest := parallel_options branch leaves in
      Ok ((leaf_id leaf, o) :: rest)
  end.

(** [next_temp]. *)
Definition temp_name (n : nat) : list N := lit "__parallel_" ++ dec (N.of_nat n).

Fixpoint lower_node (n : WorkflowNode) (phase : option (list N)) (s : lowered) : result lowered (list N) :=
  let each id ns s := try_each (fun n s => lower_node n (Some id) s) ns s in
  match n with
  | Leaf spec => lower_leaf spec phase false s
  | BranchSet head children =>
      let id := branch_id head in
      let s := (s.1 ++ [PhaseStmt id], s.2) in
      if WfNodes.parallel head then
        let? leaves := parallel_leaves id children in
        let? os := parallel_options id leaves in
        Ok (s.1 ++ [ParallelStmt (temp_name s.2) os], S s.2)
      else each id children s
  | Sequence id children => each id children (s.1 ++ [PhaseStmt id], s.2)
  | Reduce spec => Ok (s.1 ++ [TaskStmt (reduce_id spec) (reduce_options spec)], s.2)
  | TeacherReview _ => Err (unsupported_declarative_node "teacher_review")
  | LoopUntil _ _ _ _ => Err (unsupported_declarative_node "loop_until")
  | Cond _ _ _ _ => Err (unsupported_declarative_node "cond")
  | Expand _ _ _ _ => Err (unsupported_declarative_node "expand")
  end.

Definition lower_spec (spec : WorkflowSpec) : result lowered (list N) :=
  try_each (fun n s => lower_node n None s) (nodes spec) ([], 0).

(** ** The script *)

Definition stmt_lines (st : Stmt) : list (list N) :=
  match st with
  | PhaseStmt id => [lit "phase(" ++ js_string id ++ lit ");"]
  | TaskStmt id o =>
      [lit "__results[" ++ js_string id ++ lit "] = await task(" ++ task_options_expression o ++ lit ");"]
  | ParallelStmt temp children =>
      [lit "const " ++ temp ++ lit " = await parallel(["] ++
      ((fun c => lit "  () => task(" ++ task_options_expression c.2 ++ lit "),") <$> children) ++
      [lit "]);"] ++
      imap (fun i c => lit "__results[" ++ js_string c.1 ++ lit "] = " ++ temp ++ lit "[" ++ dec (N.of_nat i) ++ lit "];")
        children
  end.

Definition lower_declarative_workflow_to_imperative_js (spec : WorkflowSpec) : result (list N) (list N) :=
  let? s := lower_spec spec in
  let lines :=
    [quoted (lit "use strict") ++ lit ";"; lit "const __results = {};";
     lit "phase(" ++ js_string (lit "workflow: " ++ goal spec) ++ lit ");"] ++
    (s.1 ≫= stmt_lines) ++ [lit "return __results;"] in
  Ok (concat ((fun l => l ++ [c_nl]) <$> lines)).

End Lower.
End WfLower.
