(* ===== verification/WfLowerTheorems.v ===== *)
(** * The approval card covers what the script launches

    [good] relates a walk of the assessment with the tasks that the lowering of the same
    nodes launches; it composes along the tree. *)

From stdpp Require Import base list option strings gmap.
From Stdlib Require Import Lia NArith.
From S2P Require Import Prelude RustStr RustNum WfGates WfNodes WfPhases WfPhasesTheorems WfElevation WfLower WfFleet.

Module WfLowerTheorems.
Import WfNodes WfElevation WfLower.

(** ** What a card admits *)

(** What a task may do is on the card. A task without a list of tools is either a writer, or
    the read-only planner that reduces results. *)
Definition covered (w s n sec wt : bool) (o : TaskOptions) : Prop :=
  (write_authority o <> Some (lit "read_only") -> w = true) /\
  (write_roots o <> [] -> w = true) /\
  (opt_worktree o = true -> wt = true) /\
  match opt_allowed_tools o with
  | Some tools =>
      Forall (fun t => (is_write_tool t = true -> w = true) /\ (is_shell_tool t = true -> s = true) /\
                       (is_network_tool (trim t) = true -> n = true) /\
                       (is_secret_tool (trim t) = true -> sec = true)) tools
  | None => (w = true /\ s = true) \/
            (subagent_type o = Some (lit "plan") /\ write_authority o = Some (lit "read_only") /\ write_roots o = [])
  end.

Definition covered_by (f : Flags) : TaskOptions -> Prop :=
  covered (f_writes f) (f_shell f) (f_network f) (f_secrets f) (f_worktree f).

(** Flags are only ever set. *)
Definition fle (f g : Flags) : Prop :=
  (f_writes f = true -> f_writes g = true) /\ (f_shell f = true -> f_shell g = true) /\
  (f_network f = true -> f_network g = true) /\ (f_secrets f = true -> f_secrets g = true) /\
  (f_worktree f = true -> f_worktree g = true).

#[export] Instance fle_preorder : PreOrder fle.
Proof. split; [by intros f; split_and!|]. unfold fle. intros f g h; tauto. Qed.

Lemma covered_mono f g o : fle f g -> covered_by f o -> covered_by g o.
Proof.
  intros (H1 & H2 & H3 & H4 & H5) (C1 & C2 & C3 & C4). split_and!; [auto..|].
  destruct (opt_allowed_tools o) as [tools|]; [|tauto].
  eapply Forall_impl; [exact C4|]. cbn. tauto.
Qed.

Definition launches (st : Stmt) : list TaskOptions :=
  match st with PhaseStmt _ => [] | TaskStmt _ o => [o] | ParallelStmt _ cs => cs.*2 end.

(** A walk [W] accounts for the tasks [os], of which [rids] are reductions. *)
Definition good (W : Flags -> Flags) (rids : list (list N)) (os : list TaskOptions) : Prop :=
  forall f, fle f (W f) /\ Forall (covered_by (W f)) os /\
    exists ids, child_ids (W f) = child_ids f ++ ids /\ label <$> os ≡ₚ ids ++ rids.

Lemma good_id : good id [] [].
Proof. intros f. split_and!; [done|constructor|]. exists []. by rewrite app_nil_r. Qed.

Lemma good_comp W1 W2 r1 r2 o1 o2 : good W1 r1 o1 -> good W2 r2 o2 ->
  good (fun f => W2 (W1 f)) (r1 ++ r2) (o1 ++ o2).
Proof.
  intros H1 H2 f. destruct (H1 f) as (L1 & C1 & i1 & E1 & P1), (H2 (W1 f)) as (L2 & C2 & i2 & E2 & P2).
  split_and!; [by etrans| |].
  - apply Forall_app. split; [|done]. eapply Forall_impl; [exact C1|]. intros o. by apply covered_mono.
  - exists (i1 ++ i2). split; [by rewrite E2, E1, app_assoc|]. rewrite fmap_app, P1, P2. solve_Permutation.
Qed.

Lemma merge_tools_spec tools f (g := fold_left merge_tool tools f) :
  fle f g /\ child_ids g = child_ids f /\
  Forall (fun t => (is_write_tool (trim t) = true -> f_writes g = true) /\
                   (is_shell_tool (trim t) = true -> f_shell g = true) /\
                   (is_network_tool (trim t) = true -> f_network g = true) /\
                   (is_secret_tool (trim t) = true -> f_secrets g = true)) tools.
Proof.
  subst g. revert f. induction tools as [|t tools IH]; intros f; simpl; [by split_and!|].
  destruct (IH (merge_tool f t)) as (L & E & H).
  assert (Lt : fle f (merge_tool f t)) by (unfold fle; simpl; split_and!; intros ->; done).
  split_and!; [by etrans|done|]. constructor; [|done].
  destruct L as (L1 & L2 & L3 & L4 & _). simpl in *.
  split_and!; intros Ht; [apply L1|apply L2|apply L3|apply L4]; rewrite Ht; apply orb_true_r.
Qed.

Lemma merge_permissions_spec p f (g := merge_permissions p f) :
  fle f g /\ child_ids g = child_ids f /\
  Forall (fun t => (is_write_tool (trim t) = true -> f_writes g = true) /\
                   (is_shell_tool (trim t) = true -> f_shell g = true) /\
                   (is_network_tool (trim t) = true -> f_network g = true) /\
                   (is_secret_tool (trim t) = true -> f_secrets g = true)) (allowed_tools p).
Proof.
  subst g. unfold merge_permissions. set (f0 := {| child_ids := _ |}).
  destruct (merge_tools_spec (allowed_tools p) f0) as (L & E & H). split_and!; [|done|done].
  etrans; [|exact L]. unfold fle, f0. simpl. split_and!; [by intros ->|done|by intros ->|done|done].
Qed.

Lemma good_permissions p : good (merge_permissions p) [] [].
Proof.
  intros f. destruct (merge_permissions_spec p f) as (L & E & _). split_and!; [done|constructor|].
  exists []. by rewrite E, app_nil_r.
Qed.

Lemma is_write_tool_trim t : is_write_tool (trim t) = is_write_tool t.
Proof. unfold is_write_tool. by rewrite trim_idemp. Qed.
Lemma is_shell_tool_trim t : is_shell_tool (trim t) = is_shell_tool t.
Proof. unfold is_shell_tool. by rewrite trim_idemp. Qed.

Lemma wants_worktree_mono leaf p q : (p = true -> q = true) ->
  leaf_wants_worktree leaf p = true -> leaf_wants_worktree leaf q = true.
Proof.
  unfold leaf_wants_worktree, wants_worktree, resolve_isolation. intros H.
  destruct (isolation leaf); [|done|done]. destruct p; [|done]. rewrite H by done. done.
Qed.

Section Lowering.
Context `{json : JsonText}.

(** ** Leaves *)

Lemma good_leaf leaf ph p q o : (p = true -> q = true) -> leaf_options leaf ph p = Ok o ->
  good (inspect_leaf leaf q) [] [o].
Proof.
  unfold leaf_options. intros Hpq. destruct (validate_leaf_runtime_contract leaf) as [[]|] eqn:Ec; [|done].
  cbn [result_bind]. intros [= <-] f. unfold inspect_leaf.
  set (f0 := {| child_ids := child_ids f ++ [leaf_id leaf];
                f_writes := f_writes f || leaf_is_write_capable leaf; f_shell := f_shell f;
                f_network := f_network f; f_secrets := f_secrets f; f_worktree := f_worktree f |}).
  destruct (merge_permissions_spec (leaf_permissions leaf) f0) as (L & E & HT).
  set (g := merge_permissions _ f0) in *.
  assert (L0 : fle f g).
  { etrans; [|exact L]. unfold fle, f0. simpl. split_and!; [by intros ->|done..]. }
  assert (Hw : mode leaf = ReadWrite -> f_writes g = true).
  { intros Em. apply L. unfold f0. simpl. unfold leaf_is_write_capable. rewrite bool_decide_true by done. apply orb_true_r. }
  split_and!.
  - destruct L0 as (L1 & L2 & L3 & L4 & L5). unfold fle. simpl.
    split_and!; [auto|intros Hs; by rewrite L2|auto|auto|intros Hs; by rewrite L5].
  - constructor; [|constructor]. unfold covered_by, covered. simpl. split_and!.
    + destruct (mode leaf); [done|]. intros _. by apply Hw.
    + destruct (mode leaf); [done|]. intros _. by apply Hw.
    + intros Hwt. rewrite (wants_worktree_mono leaf p q Hpq Hwt). by rewrite orb_true_r.
    + unfold leaf_allowed_tools, no_tools, unlisted_writer.
      unfold validate_leaf_runtime_contract, no_tools in Ec.
      destruct (deny_all_tools _); [by constructor|].
      destruct (allowed_tools (leaf_permissions leaf)) as [|t ts] eqn:Et; simpl.
      * destruct (mode leaf) eqn:Em; simpl.
        -- constructor; [|constructor]. split_and!; intros Hx; exfalso; revert Hx; vm_compute; done.
        -- left. split; [by apply Hw|].
           assert (Ha : bool_decide (agent_type leaf = Implementer) || bool_decide (agent_type leaf = General) = true).
           { simpl in Ec. destruct (file_scope leaf); [done|]. destruct (List.find _ _); [done|].
             by destruct (agent_type leaf). }
           rewrite Ha. apply orb_true_r.
      * eapply Forall_impl; [exact HT|]. intros t'. cbn beta. rewrite is_write_tool_trim, is_shell_tool_trim.
        intros (H1 & H2 & H3 & H4). split_and!; [auto|intros Hs; by rewrite H2|auto|auto].
  - exists [leaf_id leaf]. simpl. by rewrite E.
Qed.

Lemma good_reduce spec : good id [reduce_id spec] [reduce_options spec].
Proof.
  intros f. split_and!; [done| |].
  - constructor; [|constructor]. unfold covered_by, covered. simpl. split_and!; [done|done|done|by right].
  - exists []. by rewrite app_nil_r.
Qed.

(** ** Nodes *)

(** The reductions below a node that can be lowered. *)
Fixpoint reduce_ids (n : WorkflowNode) : list (list N) :=
  match n with
  | Reduce spec => [reduce_id spec]
  | BranchSet _ children | Sequence _ children => children ≫= reduce_ids
  | _ => []
  end.

Definition lowers (n : WorkflowNode) : Prop :=
  forall ph s s', lower_node n ph s = Ok s' ->
  exists sts, s'.1 = s.1 ++ sts /\ forall par, good (walk_node par n) (reduce_ids n) (sts ≫= launches).

Lemma lowers_list ns id s s' : Forall lowers ns ->
  try_each (fun n s => lower_node n id s) ns s = Ok s' ->
  exists sts, s'.1 = s.1 ++ sts /\
    forall par, good (fun f => fold_left (fun f n => walk_node par n f) ns f) (ns ≫= reduce_ids) (sts ≫= launches).
Proof.
  revert s. induction ns as [|n ns IH]; intros s Hns; cbn [try_each].
  - intros [= <-]. exists []. split; [by rewrite app_nil_r|]. intros par. apply good_id.
  - apply Forall_cons in Hns as [Hn Hns]. destruct (lower_node n id s) as [s1|] eqn:E; [|done]. cbn [result_bind].
    intros E2. apply Hn in E as (st1 & E1 & G1). apply (IH s1 Hns) in E2 as (st2 & E2 & G2).
    exists (st1 ++ st2). split; [by rewrite E2, E1, app_assoc|]. intros par. rewrite bind_app.
    exact (good_comp _ _ _ _ _ _ (G1 par) (G2 par)).
Qed.

Lemma parallel_lowers branch ns leaves os :
  parallel_leaves branch ns = Ok leaves -> parallel_options branch leaves = Ok os ->
  good (fun f => fold_left (fun f n => walk_node true n f) ns f) (ns ≫= reduce_ids) os.*2.
Proof.
  revert leaves os. induction ns as [|n ns IH]; intros leaves os; cbn [parallel_leaves].
  - intros [= <-] [= <-]. apply good_id.
  - destruct n as [|leaf| | | | | |]; try done.
    destruct (parallel_leaves branch ns) as [ls|] eqn:E1; [|done]. cbn [result_bind]. intros [= <-].
    cbn [parallel_options]. destruct (leaf_options leaf (Some branch) true) as [o|] eqn:E2; [|done].
    cbn [result_bind]. destruct (parallel_options branch ls) as [rest|] eqn:E3; [|done]. cbn [result_bind].
    intros [= <-]. specialize (IH _ _ eq_refl E3).
    exact (good_comp (inspect_leaf leaf true) _ [] _ [o] _ (good_leaf leaf _ true true o (fun H => H) E2) IH).
Qed.

Lemma lower_node_good n : lowers n.
Proof.
  induction n as [h cs IH|leaf|i cs IH|r|r|i c m cs _|i c ts es _ _|i src m t _] using node_ind';
    intros ph s s'; cbn [lower_node]; try done.
  - destruct (WfNodes.parallel h) eqn:Ep.
    + destruct (parallel_leaves (branch_id h) cs) as [ls|] eqn:E1; [|done]. cbn [result_bind].
      destruct (parallel_options (branch_id h) ls) as [os|] eqn:E2; [|done]. cbn [result_bind]. intros [= <-].
      exists [PhaseStmt (branch_id h); ParallelStmt (temp_name s.2) os]. split; [simpl; by rewrite <- app_assoc|].
      intros par. cbn [walk_node]. rewrite Ep. simpl. rewrite app_nil_r.
      exact (good_comp _ _ [] _ [] _ (good_permissions _) (parallel_lowers _ _ _ _ E1 E2)).
    + intros E. apply lowers_list in E as (sts & E & G); [|done].
      exists (PhaseStmt (branch_id h) :: sts). split; [rewrite E; simpl; by rewrite <- app_assoc|].
      intros par. cbn [walk_node]. rewrite Ep. simpl.
      exact (good_comp _ _ [] _ [] _ (good_permissions _) (G par)).
  - unfold lower_leaf. destruct (leaf_options leaf ph false) as [o|] eqn:E; [|done]. cbn [result_bind].
    intros [= <-]. eexists [_]. split; [done|]. intros par. simpl. eapply good_leaf; [|exact E]. done.
  - intros E. apply lowers_list in E as (sts & E & G); [|done].
    exists (PhaseStmt i :: sts). split; [rewrite E; simpl; by rewrite <- app_assoc|]. intros par. apply G.
  - intros [= <-]. eexists [_]. split; [done|]. intros par. apply good_reduce.
Qed.

Lemma set_risk_good w s n : good (set_risk w s n) [] [].
Proof.
  intros f. split_and!; [|constructor|exists []; by rewrite app_nil_r].
  unfold fle. simpl. split_and!; [by intros ->|by intros ->|by intros ->|done|done].
Qed.

(** The tasks of a script, in order. *)
Definition script_tasks (s : lowered) : list TaskOptions := s.1 ≫= launches.

Lemma lower_spec_good spec s : lower_spec spec = Ok s ->
  Forall (covered_by (plan_flags spec)) (script_tasks s) /\
  label <$> script_tasks s ≡ₚ child_ids (plan_flags spec) ++ (nodes spec ≫= reduce_ids).
Proof.
  unfold lower_spec, script_tasks. intros E.
  apply lowers_list in E as (sts & E & G); [|apply Forall_true, lower_node_good]. simpl in E. rewrite E.
  assert (G' : good (fun f => match embedded_plan_risk_hint (description spec) with
                              | Some risk => apply_plan_risk_hint (Some risk) (merge_permissions (permissions spec) (walk_nodes (nodes spec) false f))
                              | None => merge_permissions (permissions spec) (walk_nodes (nodes spec) false f)
                              end) ((nodes spec ≫= reduce_ids) ++ []) ((sts ≫= launches) ++ [])).
  { assert (G1 := good_comp _ _ _ _ _ _ (G false) (good_permissions (permissions spec))).
    destruct (embedded_plan_risk_hint _) as [r|]; [|exact G1]. rewrite !app_nil_r in *.
    rewrite <- (app_nil_r (_ ≫= reduce_ids)), <- (app_nil_r (_ ≫= launches)).
    refine (good_comp _ (apply_plan_risk_hint (Some r)) _ _ _ _ G1 _).
    unfold apply_plan_risk_hint. destruct (assess_plan_risk_string (Some r)); try apply set_risk_good. apply good_id. }
  rewrite !app_nil_r in G'. destruct (G' flags_init) as (_ & C & ids & Ei & P).
  split; [exact C|]. simpl in Ei. rewrite P. apply (f_equal (fun l => l ++ (nodes spec ≫= reduce_ids))) in Ei.
  by rewrite <- Ei.
Qed.

End Lowering.

(** ** The card *)

Lemma not_elevated spec opts (e := assess_workflow_elevation spec opts) : elevated e = false ->
  writes e = false /\ shell e = false /\ network e = false /\ secrets e = false /\ worktree e = false /\
  high_budget e = false /\ broader_authority e = false.
Proof.
  subst e. unfold assess_workflow_elevation. cbn -[reason plan_flags effective_tokens].
  match goal with |- match ?l with _ => _ end = false -> _ => destruct l eqn:E; [|done] end. intros _.
  unfold reason in E. repeat match type of E with context [if ?b then _ else _] => destruct b eqn:?; [done|] end.
  done.
Qed.

(** C32: The card that the operator sees covers what the script does, as far as the lists of
    tool names of elevation.rs know tools. For every task of the script of a workflow: one
    that may write, or has a place to write, is under Writes, one in a work tree of its own
    under worktree, and each tool of its list under Writes, Shell, Network or secrets if
    its name is on that list ([is_write_tool] and the like; the lists do not have every
    name of such a tool, see [bash_is_not_on_the_card]); one without a list is under Writes
    and Shell, unless it is the read-only planner of a reduction. The tasks are the
    children that the card counts and the reductions, no more and no less. A plan that is
    recorded as read-only launches tasks that have no write authority, no place to write
    and no tool of those lists. *)
Theorem card_covers_the_script `{json : JsonText} spec opts s : lower_spec spec = Ok s ->
  let card := assess_workflow_elevation spec opts in
  Forall (covered (writes card) (shell card) (network card) (secrets card) (worktree card)) (script_tasks s) /\
  (exists ids, child_count card = length ids /\ child_summary card = summarize_children ids /\
     label <$> script_tasks s ≡ₚ ids ++ (nodes spec ≫= reduce_ids)) /\
  is_read_only_envelope card = negb (elevated card) /\
  (elevated card = false -> Forall (fun o =>
     write_authority o = Some (lit "read_only") /\ write_roots o = [] /\ opt_worktree o = false /\
     match opt_allowed_tools o with
     | Some tools => Forall (fun t => is_write_tool t = false /\ is_shell_tool t = false /\
                                      is_network_tool (trim t) = false /\ is_secret_tool (trim t) = false) tools
     | None => subagent_type o = Some (lit "plan")
     end) (script_tasks s)).
Proof.
  intros E card. destruct (lower_spec_good spec s E) as [HC HP]. split_and!.
  - exact HC.
  - exists (child_ids (plan_flags spec)). done.
  - unfold is_read_only_envelope. destruct (elevated card) eqn:Ee; [done|].
    destruct (not_elevated spec opts Ee) as (H1 & H2 & H3 & H4 & H5 & H6 & H7).
    unfold card. by rewrite H1, H2, H3, H4, H5, H6, H7.
  - intros Ee. destruct (not_elevated spec opts Ee) as (Hw & Hs & Hn & Hsec & Hwt & _).
    change (assess_workflow_elevation spec opts) with card in Hw, Hs, Hn, Hsec, Hwt.
    eapply Forall_impl; [exact HC|]. intros o (C1 & C2 & C3 & C4).
    change (f_writes (plan_flags spec)) with (writes card) in C1, C2, C4.
    change (f_shell (plan_flags spec)) with (shell card) in C4.
    change (f_network (plan_flags spec)) with (network card) in C4.
    change (f_secrets (plan_flags spec)) with (secrets card) in C4.
    change (f_worktree (plan_flags spec)) with (worktree card) in C3.
    rewrite Hw in C1, C2. rewrite Hwt in C3. rewrite Hw, Hs, Hn, Hsec in C4.
    split_and!.
    + destruct (decide (write_authority o = Some (lit "read_only"))) as [?|H1]; [done|by specialize (C1 H1)].
    + destruct (write_roots o); [done|]. by specialize (C2 ltac:(done)).
    + destruct (opt_worktree o); [by specialize (C3 eq_refl)|done].
    + destruct (opt_allowed_tools o) as [tools|]; [|by destruct C4 as [[]|[? _]]].
      eapply Forall_impl; [exact C4|]. cbn. intros t (T1 & T2 & T3 & T4).
      split_and!; apply not_true_iff_false; intros H1; [by apply T1 in H1|by apply T2 in H1|by apply T3 in H1|by apply T4 in H1].
Qed.

(** ** A witness *)

(** Plain strings need no escapes. *)
Definition plain_json : JsonText :=
  {| js_string := quoted; js_strings := fun l => lit "[" ++ str_join (lit ",") (quoted <$> l) ++ lit "]" |}.

Definition writer (id scope : string) : LeafSpec :=
  {| leaf_id := lit id; prompt := lit "fix it"; agent_type := Implementer; leaf_role := None; profile := None;
     mode := ReadWrite; isolation := Auto; file_scope := [lit scope]; depends_on_results := [];
     leaf_budget := WfFleet.no_budget; leaf_permissions := WfFleet.no_permissions;
     leaf_model_policy := WfFleet.no_policy |}.

Definition branch (id : string) : BranchHead :=
  {| branch_id := lit id; branch_description := None; WfNodes.parallel := true; branch_budget := WfFleet.no_budget;
     branch_permissions := WfFleet.no_permissions; branch_model_policy := WfFleet.no_policy |}.

Definition sample_reduce : WorkflowNode :=
  Reduce {| reduce_id := lit "sum"; inputs := [lit "a"]; reduce_prompt := lit "merge"; reduce_model_policy := WfFleet.no_policy |}.

Definition sample_plan : WorkflowSpec :=
  WfFleet.plain_spec [BranchSet (branch "fix") [Leaf (writer "a" "src/**"); Leaf (WfFleet.plain_leaf "b")]; sample_reduce].

Definition lowered_sample : lowered := get_ok ([], 0) (lower_spec (json := plain_json) sample_plan).

Lemma card_covers_the_script_witness :
  lower_spec (json := plain_json) sample_plan = Ok lowered_sample /\
  label <$> script_tasks lowered_sample = [lit "a"; lit "b"; lit "sum"] /\
  writes (assess_workflow_elevation sample_plan options_default) = true /\
  Forall (covered true true false false true) (script_tasks lowered_sample).
Proof.
  assert (E : lower_spec (json := plain_json) sample_plan = Ok lowered_sample) by (vm_compute; reflexivity).
  split_and!; [exact E|vm_compute; reflexivity|vm_compute; reflexivity|].
  exact (proj1 (card_covers_the_script (json := plain_json) sample_plan options_default lowered_sample E)).
Defined.

(** A reduction is a task of its own that neither the card nor the estimate counts. *)
Example reductions_are_not_counted :
  let spec := WfFleet.plain_spec [sample_reduce] in
  length (script_tasks (get_ok ([], 0) (lower_spec (json := plain_json) spec))) = 1 /\
  child_count (assess_workflow_elevation spec options_default) = 0 /\
  estimate_fleet_shape (nodes spec) = Ok {| total_agents := 0; max_depth := 0 |}.
Proof. split_and!; vm_compute; reflexivity. Qed.

(** The names [bash] and [Bash], under which the shell is called, and [File], under which
    files are written, are on no list: a task with these tools is not elevated. *)
Example bash_is_not_on_the_card :
  let leaf := WfFleet.plain_leaf "a" in
  let tools := lit <$> ["bash"; "Bash"; "File"]%string in
  let spec := WfFleet.plain_spec [Leaf
    {| leaf_id := leaf_id leaf; prompt := prompt leaf; agent_type := agent_type leaf; leaf_role := None; profile := None;
       mode := ReadOnly; isolation := Auto; file_scope := []; depends_on_results := []; leaf_budget := leaf_budget leaf;
       leaf_permissions := {| allow_write := false; allow_network := false; deny_all_tools := false; allowed_tools := tools; perm_file_scope := [] |};
       leaf_model_policy := leaf_model_policy leaf |}] in
  opt_allowed_tools <$> script_tasks (get_ok ([], 0) (lower_spec (json := plain_json) spec)) = [Some tools] /\
  elevated (assess_workflow_elevation spec options_default) = false.
Proof. split; vm_compute; reflexivity. Qed.

Example sample_script :
  get_ok [] (lower_declarative_workflow_to_imperative_js (json := plain_json) (WfFleet.plain_spec [Leaf (writer "a" "src/**")]))
  = str_join [c_nl]
      [quoted (lit "use strict") ++ lit ";"; lit "const __results = {};";
       lit "phase(" ++ quoted (lit "workflow: goal") ++ lit ");";
       lit "__results[" ++ quoted (lit "a") ++ lit "] = await task({ description: " ++
       quoted (leaf_description (writer "a" "src/**")) ++ lit ", type: " ++ quoted (lit "implementer") ++
       lit ", label: " ++ quoted (lit "a") ++ lit ", writeAuthority: " ++ quoted (lit "workspace_write") ++
       lit ", writeRoots: [" ++ quoted (lit "src") ++ lit "] });";
       lit "return __results;"; []].
Proof. vm_compute. reflexivity. Qed.

End WfLowerTheorems.
