(* ===== verification/ApprovalLog.v ===== *)
(** * Approval receipts of a session (crates/tui/src/approval_log.rs)

    An append-only log beside a session records what was asked and what was answered.
    [from_receipts] replays it; [append] checks the log with the new receipt and writes the
    line, under a lock that other processes wait for, so appends do not overlap. How the
    write ends is an argument: it may fail, be cut short by a crash, or be written and not
    synced. The JSON of a receipt is a parameter. *)

From stdpp Require Import base list option strings gmap sorting.
From Stdlib Require Import Lia NArith.
From S2P Require Import Prelude RustStr Authority SavedSession.

Module ApprovalLog.

Inductive ApprovalOutcome : Type :=
| ApprovedOnce | Denied | Cancelled | Unavailable
| RetryWithPolicy (policy : Authority.SandboxPolicy).

Inductive ApprovalReceipt : Type :=
| Asked (approval_id tool_call_id tool_name : list N) (created_at : N)
| Decided (approval_id tool_call_id : list N) (outcome : ApprovalOutcome) (created_at : N).

Definition asked (tool_call_id tool_name : list N) (now : N) : ApprovalReceipt :=
  Asked tool_call_id tool_call_id tool_name now.

Definition decided (tool_call_id : list N) (outcome : ApprovalOutcome) (now : N) : ApprovalReceipt :=
  Decided tool_call_id tool_call_id outcome now.

Definition approval_id (r : ApprovalReceipt) : list N :=
  match r with Asked id _ _ _ | Decided id _ _ _ => id end.

Definition tool_call_id (r : ApprovalReceipt) : list N :=
  match r with Asked _ id _ _ | Decided _ id _ _ => id end.

Record CompletedApproval : Type := { ask : ApprovalReceipt; outcome : ApprovalOutcome }.

Record ApprovalReplay : Type := { completed : list CompletedApproval; unmatched_asks : list ApprovalReceipt }.

(** ** The replay *)

Record Replaying : Type := {
  open : gmap (list N) ApprovalReceipt; closed : gset (list N); done_ : list CompletedApproval }.

Definition replaying_init : Replaying := {| open := ∅; closed := ∅; done_ := [] |}.

Definition says (a : string) (id : list N) (b : string) : list N := lit a ++ lit "'" ++ id ++ lit "'" ++ lit b.

Definition replay_receipt (s : Replaying) (r : ApprovalReceipt) : result Replaying (list N) :=
  if str_is_empty (trim (approval_id r)) || str_is_empty (trim (tool_call_id r))
  then Err (lit "approval receipt has an empty correlation id")
  else
    match r with
    | Asked id call tool _ =>
        if str_is_empty (trim tool) then Err (says "approval ask " id " has an empty tool name")
        else if negb (str_eqb id call) then Err (says "approval ask " id " does not match tool call " ++ says "" call "")
        else if bool_decide (id ∈ closed s) || bool_decide (is_Some (open s !! id))
        then Err (says "approval " id " was asked more than once")
        else Ok {| open := <[id := r]> (open s); closed := closed s; done_ := done_ s |}
    | Decided id call o _ =>
        if negb (str_eqb id call) then Err (says "approval decision " id " does not match tool call " ++ says "" call "")
        else
          match open s !! id with
          | None => Err (says "approval decision " id " has no unmatched ask")
          | Some a => Ok {| open := delete id (open s); closed := {[id]} ∪ closed s;
                            done_ := done_ s ++ [{| ask := a; outcome := o |}] |}
          end
    end.

Fixpoint replay_all (s : Replaying) (rs : list ApprovalReceipt) : result Replaying (list N) :=
  match rs with
  | [] => Ok s
  | r :: rs => let? s := replay_receipt s r in replay_all s rs
  end.

(** The values of a [BTreeMap] come in the order of its keys. *)
Definition id_le (a b : list N * ApprovalReceipt) : Prop := str_le a.1 b.1.
#[export] Instance id_le_dec : RelDecision id_le.
Proof. intros a b. unfold id_le. apply _. Defined.

Definition into_values (m : gmap (list N) ApprovalReceipt) : list ApprovalReceipt :=
  (merge_sort id_le (map_to_list m)).*2.

Definition from_receipts (rs : list ApprovalReceipt) : result ApprovalReplay (list N) :=
  let? s := replay_all replaying_init rs in
  Ok {| completed := done_ s; unmatched_asks := into_values (open s) |}.

(** ** The store *)

(** [serde_json] on receipts. *)
Class ReceiptCodec : Type := {
  to_text : ApprovalReceipt -> list N;
  from_text : list N -> option ApprovalReceipt }.

Inductive LogError : Type :=
| InvalidLine (index : nat)
| InvalidLog (message : list N)
| WriteError.

(** The text of the log; [None] when there is no file. *)
Definition Log : Type := option (list N).

Section Store.
Context `{codec : ReceiptCodec}.

Fixpoint decode_lines (index : nat) (ls : list (list N)) : result (list ApprovalReceipt) LogError :=
  match ls with
  | [] => Ok []
  | l :: ls =>
      match from_text l with
      | None => Err (InvalidLine (index + 1))
      | Some r => let? rs := decode_lines (index + 1) ls in Ok (r :: rs)
      end
  end.

Definition checked (rs : list ApprovalReceipt) : result (list ApprovalReceipt) LogError :=
  match from_receipts rs with Ok _ => Ok rs | Err e => Err (InvalidLog e) end.

(** [load_unlocked], and [load], which takes the lock if there is one. *)
Definition load (log : Log) : result (list ApprovalReceipt) LogError :=
  match log with
  | None => Ok []
  | Some text => let? rs := decode_lines 0 (str_lines text) in checked rs
  end.

Definition replay (log : Log) : result ApprovalReplay LogError :=
  let? rs := load log in
  match from_receipts rs with Ok r => Ok r | Err e => Err (InvalidLog e) end.

(** How the write of a line ends: whole and synced, whole and not synced, after some of its
    characters, or before the file is open. *)
Inductive WriteIo : Type := Written | Unsynced | Torn (n : nat) | NotOpened.

Definition line_of (r : ApprovalReceipt) : list N := to_text r ++ [c_nl].

Definition write_line (io : WriteIo) (log : Log) (line : list N) : Log * result unit LogError :=
  let text := default [] log in
  match io with
  | Written => (Some (text ++ line), Ok tt)
  | Unsynced => (Some (text ++ line), Err WriteError)
  | Torn n => (Some (text ++ take n line), Err WriteError)
  | NotOpened => (log, Err WriteError)
  end.

Definition append (io : WriteIo) (log : Log) (r : ApprovalReceipt) : Log * result unit LogError :=
  match load log with
  | Err e => (log, Err e)
  | Ok candidate =>
      match checked (candidate ++ [r]) with
      | Err e => (log, Err e)
      | Ok _ => write_line io log (line_of r)
      end
  end.

(** ** The receipts of a loaded session (session_manager.rs) *)

Definition hydrate_receipts (log : Log) (saved : list ApprovalReceipt) : option (list ApprovalReceipt) :=
  match load log with
  | Err _ => None
  | Ok durable =>
      let receipts := match durable with [] => saved | _ => durable end in
      if is_ok (from_receipts receipts) then Some receipts else None
  end.

End Store.
End ApprovalLog.
