(* ===== verification/ApprovalLogTheorems.v ===== *)
(** * Approvals are recorded once and for good

    The replay decides the protocol of receipts, and a log that processes append to in any
    order keeps it. *)

From stdpp Require Import base list option strings gmap sorting.
From Stdlib Require Import Lia NArith.
From S2P Require Import Prelude RustStr PathFs Authority SavedSession ApprovalLog.

(** * Approval receipts are replayed faithfully

    The protocol of receipts as a property of the log, the replay against it, and logs that
    several processes append to. *)

Module ApprovalLogFacts.
Import ApprovalLog.

(** ** The protocol *)

Definition proper (r : ApprovalReceipt) : Prop :=
  trim (approval_id r) <> [] /\ tool_call_id r = approval_id r /\
  match r with Asked _ _ tool _ => trim tool <> [] | Decided _ _ _ _ => True end.

Definition ask_ids (l : list ApprovalReceipt) : list (list N) :=
  omap (fun r => match r with Asked id _ _ _ => Some id | _ => None end) l.

Definition decision_ids (l : list ApprovalReceipt) : list (list N) :=
  omap (fun r => match r with Decided id _ _ _ => Some id | _ => None end) l.

(** Every approval is asked at most once, and decided at most once, after it was asked. *)
Definition protocol (l : list ApprovalReceipt) : Prop :=
  Forall proper l /\ NoDup (ask_ids l) /\ NoDup (decision_ids l) /\
  (forall pre id c o t post, l = pre ++ Decided id c o t :: post -> id ∈ ask_ids pre).

Definition asks (id : list N) (r : ApprovalReceipt) : bool :=
  match r with Asked id' _ _ _ => str_eqb id' id | _ => false end.

Definition ask_of (l : list ApprovalReceipt) (id : list N) : option ApprovalReceipt := List.find (asks id) l.

(** The decisions of [l], each with the question in [L] that it answers. *)
Definition answers_in (L l : list ApprovalReceipt) : list CompletedApproval :=
  omap (fun r => match r with
                 | Decided id _ o _ => (fun a => {| ask := a; outcome := o |}) <$> ask_of L id
                 | _ => None
                 end) l.

Definition answers (l : list ApprovalReceipt) : list CompletedApproval := answers_in l l.

(** The questions of [l] that nobody answered. *)
Definition pending (l : list ApprovalReceipt) (r : ApprovalReceipt) : Prop :=
  r ∈ l /\ match r with Asked id _ _ _ => id ∉ decision_ids l | _ => False end.

Lemma elem_ask_ids l id : id ∈ ask_ids l <-> exists c tool t, Asked id c tool t ∈ l.
Proof.
  unfold ask_ids. rewrite list_elem_of_omap. split.
  - intros ([] & H & E); simplify_eq; eauto.
  - intros (c & tool & t & H). by exists (Asked id c tool t).
Qed.

Lemma elem_decision_ids l id : id ∈ decision_ids l <-> exists c o t, Decided id c o t ∈ l.
Proof.
  unfold decision_ids. rewrite list_elem_of_omap. split.
  - intros ([] & H & E); simplify_eq; eauto.
  - intros (c & o & t & H). by exists (Decided id c o t).
Qed.

Lemma ask_of_some l id : id ∈ ask_ids l -> is_Some (ask_of l id).
Proof.
  intros (c & tool & t & H)%elem_ask_ids. unfold ask_of. apply find_is_some with (Asked id c tool t); [done|].
  unfold asks. by apply str_eqb_spec.
Qed.

Lemma ask_of_app l k id : is_Some (ask_of l id) -> ask_of (l ++ k) id = ask_of l id.
Proof.
  unfold ask_of. induction l as [|x l IH]; simpl; [by intros [? ?]|]. destruct (asks id x); [done|apply IH].
Qed.

Lemma decided_was_asked l id : protocol l -> id ∈ decision_ids l -> id ∈ ask_ids l.
Proof.
  intros (_ & _ & _ & H) (c & o & t & Hin)%elem_decision_ids.
  apply list_elem_of_split in Hin as (pre & post & E). specialize (H _ _ _ _ _ _ E).
  rewrite E. unfold ask_ids in *. rewrite omap_app. apply elem_of_app. by left.
Qed.

(** Answers do not depend on what comes later. *)
Lemma answers_app l k : protocol l -> answers_in (l ++ k) l = answers l.
Proof.
  intros Hp. unfold answers, answers_in. apply list_omap_ext.
  apply Forall_Forall2_diag, Forall_forall. intros r Hr. destruct r as [|id c o t]; [done|].
  rewrite ask_of_app; [done|]. apply ask_of_some, decided_was_asked; [done|]. apply elem_decision_ids. eauto.
Qed.

Lemma protocol_prefix l r : protocol (l ++ [r]) -> protocol l.
Proof.
  intros (H1 & H2 & H3 & H4). unfold ask_ids, decision_ids in *. rewrite !omap_app in *.
  apply Forall_app in H1 as [H1 _]. apply NoDup_app in H2 as [H2 _]. apply NoDup_app in H3 as [H3 _].
  split_and!; [done..|]. intros pre id c o t post E. apply (H4 pre id c o t (post ++ [r])). by rewrite E, <- app_assoc.
Qed.

(** ** The replay *)

Record replayed (l : list ApprovalReceipt) (s : Replaying) : Prop := {
  rp_open : forall id a, open s !! id = Some a <-> a ∈ l /\ asks id a = true /\ id ∉ decision_ids l;
  rp_closed : forall id, id ∈ closed s <-> id ∈ decision_ids l;
  rp_done : done_ s = answers l
}.

Lemma replay_all_snoc s l r :
  replay_all s (l ++ [r]) = let? s := replay_all s l in replay_receipt s r.
Proof.
  revert s. induction l as [|x l IH]; intros s; simpl.
  - by destruct (replay_receipt s r).
  - destruct (replay_receipt s x); simpl; [apply IH|done].
Qed.

Lemma asked_once l id a b : NoDup (ask_ids l) -> a ∈ l -> b ∈ l -> asks id a = true -> asks id b = true -> a = b.
Proof.
  unfold ask_ids. intros Hn Ha Hb. destruct a as [ia ca ta na|], b as [ib cb tb nb|]; try done.
  intros ->%str_eqb_spec ->%str_eqb_spec. by eapply NoDup_omap_inj; [exact Hn| | |reflexivity|reflexivity].
Qed.

Lemma open_ask l s id : protocol l -> replayed l s -> is_Some (open s !! id) <-> id ∈ ask_ids l /\ id ∉ decision_ids l.
Proof.
  intros Hp [R1 _ _]. split.
  - intros [a (H1 & H2 & H3)%R1]. split; [|done]. destruct a as [i c tool t|]; [|done].
    apply str_eqb_spec in H2 as ->. apply elem_ask_ids. eauto.
  - intros [(c & tool & t & H)%elem_ask_ids Hd]. exists (Asked id c tool t). apply R1.
    split_and!; [done|by apply str_eqb_spec|done].
Qed.

Lemma ask_of_open l s id a : protocol l -> replayed l s -> open s !! id = Some a -> ask_of l id = Some a.
Proof.
  intros Hp Hr (H1 & H2 & H3)%(rp_open _ _ Hr).
  destruct (ask_of l id) as [b|] eqn:E.
  - apply find_elem_of in E as [Hb Eb]. f_equal. by eapply asked_once; [apply Hp|..].
  - destruct a as [i c tool t|]; [|done]. apply str_eqb_spec in H2 as ->.
    destruct (ask_of_some l id) as [b Eb]; [apply elem_ask_ids; eauto|congruence].
Qed.

Lemma blank_trim s : str_is_empty (trim s) = false <-> trim s <> [].
Proof. by destruct (trim s). Qed.

(** One receipt more. *)
Lemma replay_receipt_spec l s r : protocol l -> replayed l s ->
  match replay_receipt s r with
  | Ok s' => protocol (l ++ [r]) /\ replayed (l ++ [r]) s'
  | Err _ => ~ protocol (l ++ [r])
  end.
Proof.
  intros Hp Hr. unfold replay_receipt.
  destruct (str_is_empty (trim (approval_id r)) || str_is_empty (trim (tool_call_id r))) eqn:E1.
  { intros (H & _). apply Forall_app in H as [_ H]. apply Forall_inv in H as (H1 & H2 & _). rewrite H2 in E1.
    apply blank_trim in H1. by rewrite H1 in E1. }
  apply orb_false_iff in E1 as [E1%blank_trim _].
  assert (Hprop : protocol (l ++ [r]) -> proper r) by (intros (H & _); apply Forall_app in H as [_ H]; by apply Forall_inv in H).
  destruct r as [id c tool t|id c o t]; simpl in E1.
  - destruct (str_is_empty (trim tool)) eqn:E2.
    { intros (_ & _ & H)%Hprop. apply blank_trim in H. congruence. }
    destruct (str_eqb id c) eqn:E3; simpl.
    2:{ intros (_ & H & _)%Hprop. simpl in H. apply not_true_iff_false in E3. apply E3. by apply str_eqb_spec. }
    apply str_eqb_spec in E3 as <-. apply blank_trim in E2.
    destruct (bool_decide (id ∈ closed s) || bool_decide (is_Some (open s !! id))) eqn:E4.
    + intros (_ & H & _). unfold ask_ids in H. rewrite omap_app in H. apply NoDup_app in H as (_ & H & _).
      apply (H id); [|by left]. fold (ask_ids l).
      apply orb_true_iff in E4 as [E4%bool_decide_eq_true|E4%bool_decide_eq_true].
      * apply decided_was_asked; [done|]. by apply (rp_closed _ _ Hr).
      * by apply (open_ask l s id Hp Hr).
    + apply orb_false_iff in E4 as [E4%bool_decide_eq_false E5%bool_decide_eq_false].
      rewrite (rp_closed _ _ Hr) in E4. rewrite (open_ask l s id Hp Hr) in E5.
      assert (Hn : id ∉ ask_ids l) by tauto.
      assert (Ed : decision_ids (l ++ [Asked id id tool t]) = decision_ids l).
      { unfold decision_ids. rewrite omap_app. simpl. by rewrite app_nil_r. }
      destruct Hp as (P1 & P2 & P3 & P4). split.
      * split_and!.
        -- apply Forall_app. split; [done|]. constructor; [done|constructor].
        -- unfold ask_ids in *. rewrite omap_app. apply NoDup_app. split_and!; [done| |apply NoDup_singleton].
           intros x Hx ->%list_elem_of_singleton. done.
        -- by rewrite Ed.
        -- intros pre i c o t' post E. destruct post as [|x post _] using rev_ind.
           { apply app_inj_tail in E as [_ ?]. done. }
           rewrite app_comm_cons, app_assoc in E. apply app_inj_tail in E as [-> _]. by eapply P4.
      * split; simpl.
        -- intros i a. rewrite lookup_insert_Some, (rp_open _ _ Hr), Ed, elem_of_app, list_elem_of_singleton. split.
           ++ intros [[<- <-]|[Hi (H1 & H2 & H3)]]; [|tauto]. split_and!; [by right|by apply str_eqb_spec|done].
           ++ intros ([H1| ->] & H2 & H3); [|left; split; [by apply str_eqb_spec in H2|done]].
              right. split; [|done]. intros <-. destruct a as [ia ca ta na|]; [|done].
              apply str_eqb_spec in H2 as ->. apply Hn, elem_ask_ids. eauto.
        -- intros i. by rewrite Ed, (rp_closed _ _ Hr).
        -- rewrite (rp_done _ _ Hr). unfold answers at 2, answers_in. rewrite omap_app. simpl. rewrite app_nil_r.
           symmetry. by apply answers_app.
  - destruct (str_eqb id c) eqn:E3; simpl.
    2:{ intros (_ & H & _)%Hprop. simpl in H. apply not_true_iff_false in E3. apply E3. by apply str_eqb_spec. }
    apply str_eqb_spec in E3 as <-.
    assert (Ea : ask_ids (l ++ [Decided id id o t]) = ask_ids l).
    { unfold ask_ids. rewrite omap_app. simpl. by rewrite app_nil_r. }
    assert (Ed : decision_ids (l ++ [Decided id id o t]) = decision_ids l ++ [id]).
    { unfold decision_ids. by rewrite omap_app. }
    destruct (open s !! id) as [a|] eqn:E4.
    + pose proof (ask_of_open l s id a Hp Hr E4) as Eo.
      destruct (proj1 (open_ask l s id Hp Hr)) as [Hask Hdec]; [by rewrite E4|].
      pose proof Hp as (P1 & P2 & P3 & P4). split.
      * split_and!.
        -- apply Forall_app. split; [done|]. constructor; [done|constructor].
        -- by rewrite Ea.
        -- rewrite Ed. apply NoDup_app. split_and!; [done| |apply NoDup_singleton].
           intros x Hx ->%list_elem_of_singleton. done.
        -- intros pre i c o' t' post E. destruct post as [|x post _] using rev_ind.
           { apply app_inj_tail in E as [-> ?]. by simplify_eq. }
           rewrite app_comm_cons, app_assoc in E. apply app_inj_tail in E as [-> _]. by eapply P4.
      * split; simpl.
        -- intros i b. rewrite lookup_delete_Some, (rp_open _ _ Hr), Ed, !elem_of_app, !list_elem_of_singleton.
           split; [intros (Hi & H1 & H2 & H3); split_and!; [by left|done|]; intros [?| ->]; done|].
           intros ([H1| ->] & H2 & H3); [|done]. split_and!; [|done|done|]; [intros ->; tauto|tauto].
        -- intros i. rewrite Ed, elem_of_union, elem_of_singleton, (rp_closed _ _ Hr), elem_of_app, list_elem_of_singleton. tauto.
        -- rewrite (rp_done _ _ Hr). unfold answers at 2, answers_in. rewrite omap_app. simpl.
           rewrite ask_of_app, Eo by (rewrite Eo; eauto). simpl. f_equal. symmetry. by apply answers_app.
    + intros (_ & _ & H3 & H4). specialize (H4 l id id o t [] eq_refl). rewrite Ed in H3.
      apply NoDup_app in H3 as (_ & H3 & _).
      assert (Hn : ~ is_Some (open s !! id)) by (rewrite E4; by intros []).
      apply Hn, (open_ask l s id Hp Hr). split; [done|]. intros Hd. apply (H3 id Hd). by left.
Qed.

Lemma protocol_nil : protocol [].
Proof. split_and!; [constructor..|]. intros pre id c o t post E. by destruct pre. Qed.

Lemma replayed_init : replayed [] replaying_init.
Proof.
  split; simpl; [|set_solver|done]. intros id a. rewrite lookup_empty. split; [done|]. by intros (?%elem_of_nil & _).
Qed.

Lemma replay_all_spec l :
  match replay_all replaying_init l with
  | Ok s => protocol l /\ replayed l s
  | Err _ => ~ protocol l
  end.
Proof.
  induction l as [|r l IH] using rev_ind; [split; [apply protocol_nil|apply replayed_init]|].
  rewrite replay_all_snoc. destruct (replay_all replaying_init l) as [s|e]; simpl.
  - destruct IH as [Hp Hr]. by apply replay_receipt_spec.
  - intros H. apply IH. by eapply protocol_prefix.
Qed.

End ApprovalLogFacts.

Module ApprovalLogTheorems.
Import ApprovalLog ApprovalLogFacts.

(** ** The replay *)

#[export] Instance id_le_total : Total id_le.
Proof. intros a b. apply str_le_total. Qed.
#[export] Instance id_le_trans : Transitive id_le.
Proof. intros a b c. apply str_le_trans. Qed.

Lemma into_values_spec l s : replayed l s ->
  (forall r, r ∈ into_values (open s) <-> pending l r) /\
  StronglySorted (fun a b => str_le (approval_id a) (approval_id b)) (into_values (open s)).
Proof.
  intros Hr. unfold into_values.
  assert (Hm : forall id a, (id, a) ∈ merge_sort id_le (map_to_list (open s)) <-> open s !! id = Some a).
  { intros id a. by rewrite merge_sort_Permutation, elem_of_map_to_list. }
  assert (Hid : forall id a, open s !! id = Some a -> approval_id a = id).
  { intros id a (_ & H & _)%(rp_open _ _ Hr). destruct a as [i c tool t|]; [|done]. by apply str_eqb_spec in H. }
  split.
  - intros r. rewrite list_elem_of_fmap. split.
    + intros ([id a] & -> & H%Hm). simpl. pose proof H as (H1 & H2 & H3)%(rp_open _ _ Hr).
      destruct a as [i c tool t|]; [|done]. apply str_eqb_spec in H2 as ->. done.
    + intros [H1 H2]. destruct r as [id c tool t|]; [|done]. exists (id, Asked id c tool t). split; [done|].
      apply Hm, (rp_open _ _ Hr). split_and!; [done|by apply str_eqb_spec|done].
  - assert (Hs : StronglySorted id_le (merge_sort id_le (map_to_list (open s)))) by (apply StronglySorted_merge_sort; apply _).
    revert Hm. generalize (merge_sort id_le (map_to_list (open s))) Hs. clear Hs.
    intros ps Hs Hm. assert (Ha : Forall (fun p => approval_id p.2 = p.1) ps).
    { apply Forall_forall. intros [id a] H%Hm. by apply Hid. }
    clear Hm. induction Hs as [|[i a] ps Hs IH Hle]; simpl; [constructor|].
    apply Forall_cons in Ha as [Ea Ha]. simpl in Ea. constructor; [by apply IH|].
    rewrite Forall_forall in Ha, Hle. apply Forall_forall. intros b ([j b'] & -> & Hb)%list_elem_of_fmap. simpl.
    pose proof (Ha _ Hb) as Eb. simpl in Eb. rewrite Ea, Eb. apply (Hle _ Hb).
Qed.

(** A log is replayed exactly when every approval is asked once and decided at most once,
    after it was asked; the replay gives each decision with its question, in the order of the
    decisions, and the open questions in the order of their ids. *)
Lemma approval_replay_spec l :
  match from_receipts l with
  | Ok r => protocol l /\ completed r = answers l /\
            (forall a, a ∈ unmatched_asks r <-> pending l a) /\
            StronglySorted (fun a b => str_le (approval_id a) (approval_id b)) (unmatched_asks r)
  | Err _ => ~ protocol l
  end.
Proof.
  unfold from_receipts. pose proof (replay_all_spec l) as H.
  destruct (replay_all replaying_init l) as [s|]; simpl; [|done]. destruct H as [Hp Hr].
  destruct (into_values_spec l s Hr) as [H1 H2]. split_and!; [done|apply (rp_done _ _ Hr)|done|done].
Qed.

Lemma from_receipts_ok l : protocol l -> exists r, from_receipts l = Ok r /\ completed r = answers l.
Proof.
  intros Hp. pose proof (approval_replay_spec l) as H. destruct (from_receipts l) as [r|]; [|done].
  exists r. split; [done|apply H].
Qed.

Lemma checked_spec l : match checked l with Ok l' => l' = l /\ protocol l | Err _ => ~ protocol l end.
Proof.
  unfold checked. pose proof (approval_replay_spec l) as H. destruct (from_receipts l); [|done].
  split; [done|apply H].
Qed.

(** ** The log *)

(** What the log relies on: the compact JSON of a receipt is one line, it does not end in a
    carriage return, and it is read back. *)
Class ReceiptCodecLaws `{codec : ReceiptCodec} : Prop := {
  from_to_text r : from_text (to_text r) = Some r;
  to_text_one_line r : c_nl ∉ to_text r;
  to_text_no_cr r : strip_suffix_cr (to_text r) = to_text r }.

Section Log.
Context `{codec : ReceiptCodec} {laws : ReceiptCodecLaws}.

Lemma str_lines_cons l text : c_nl ∉ l -> strip_suffix_cr l = l ->
  str_lines (l ++ c_nl :: text) = l :: str_lines text.
Proof.
  intros H1 H2. unfold str_lines. rewrite split_char_app_sep, split_char_word by done. simpl.
  destruct (split_char c_nl text) eqn:E; [by apply split_char_nonempty in E|]. by rewrite H2.
Qed.

(** The text of a log with these receipts. *)
Definition log_text (rs : list ApprovalReceipt) : list N := concat (line_of <$> rs).

Definition holds (log : Log) (rs : list ApprovalReceipt) : Prop := default [] log = log_text rs.

Lemma decode_log_text i rs : decode_lines i (str_lines (log_text rs)) = Ok rs.
Proof.
  revert i. induction rs as [|r rs IH]; intros i; [done|].
  unfold log_text. simpl. unfold line_of at 1. rewrite <- app_assoc. simpl.
  rewrite str_lines_cons by (apply to_text_one_line || apply to_text_no_cr). simpl. rewrite from_to_text.
  by rewrite IH.
Qed.

Lemma load_holds log rs : holds log rs -> protocol rs -> load log = Ok rs.
Proof.
  unfold holds, load. intros Hh Hp. destruct log as [text|]; simpl in Hh.
  - subst. rewrite decode_log_text. simpl. pose proof (checked_spec rs) as H.
    destruct (checked rs); [by destruct H as [-> _]|done].
  - destruct rs as [|r rs]; [done|]. unfold log_text, line_of in Hh. simpl in Hh. by destruct (to_text r).
Qed.

Definition whole (io : WriteIo) : Prop := match io with Torn _ => False | _ => True end.

Lemma append_spec io log r rs (a := append io log r) : whole io -> holds log rs -> protocol rs ->
  exists k, holds a.1 (rs ++ k) /\ protocol (rs ++ k) /\ (a.2 = Ok tt -> k = [r]).
Proof.
  subst a. intros Hio Hh Hp. unfold append. rewrite (load_holds _ _ Hh Hp).
  assert (Hsame : exists k, holds log (rs ++ k) /\ protocol (rs ++ k) /\ k = []).
  { exists []. by rewrite app_nil_r. }
  pose proof (checked_spec (rs ++ [r])) as Hc. destruct (checked (rs ++ [r])) as [l|e]; simpl.
  - destruct Hc as [-> Hp'].
    assert (Hw : holds (Some (default [] log ++ line_of r)) (rs ++ [r])).
    { unfold holds, log_text in *. simpl. rewrite Hh, fmap_app, concat_app. simpl. by rewrite app_nil_r. }
    destruct io as [| |n|]; simpl; [by exists [r]|by exists [r]|done|].
    destruct Hsame as (k & H1 & H2 & _). exists k. split_and!; [done|done|done].
  - destruct Hsame as (k & H1 & H2 & _). exists k. split_and!; [done|done|done].
Qed.

(** Appends of any number of processes, in the order in which they had the lock. *)
Fixpoint run_log (log : Log) (tr : list (ApprovalReceipt * WriteIo)) : Log :=
  match tr with [] => log | (r, io) :: tr => run_log (append io log r).1 tr end.

Lemma run_log_spec tr log rs : Forall (fun x => whole x.2) tr -> holds log rs -> protocol rs ->
  exists k, holds (run_log log tr) (rs ++ k) /\ protocol (rs ++ k).
Proof.
  revert log rs. induction tr as [|[r io] tr IH]; intros log rs Hw Hh Hp; simpl.
  { exists []. by rewrite app_nil_r. }
  apply Forall_cons in Hw as [Hio Hw]. destruct (append_spec io log r rs Hio Hh Hp) as (k & H1 & H2 & _).
  destruct (IH _ _ Hw H1 H2) as (k' & H3 & H4). exists (k ++ k'). by rewrite app_assoc.
Qed.

Lemma run_log_app log tr1 tr2 : run_log log (tr1 ++ tr2) = run_log (run_log log tr1) tr2.
Proof. revert log. induction tr1 as [|[r io] tr1 IH]; intros log; simpl; [done|apply IH]. Qed.

(** C28: Approvals are recorded once and for good. Whatever processes append to the log of a
    session, in whatever order, and whatever writes fail, as long as none is cut short:
    the log always loads; what was in it stays in it, with a receipt whose append was
    acknowledged; every approval in it was asked once and decided at most once, after it
    was asked; and the replay, which gives each decision with its question, keeps every
    outcome it ever gave. *)
Theorem approvals_are_decided_once tr1 r io tr2 :
  Forall (fun x => whole x.2) (tr1 ++ (r, io) :: tr2) ->
  let before := run_log None tr1 in
  let after := run_log None (tr1 ++ (r, io) :: tr2) in
  exists rs k rep rep',
    load before = Ok rs /\ load after = Ok (rs ++ k) /\
    ((append io before r).2 = Ok tt -> r ∈ k) /\ protocol (rs ++ k) /\
    replay before = Ok rep /\ replay after = Ok rep' /\
    completed rep' = answers (rs ++ k) /\ (exists more, completed rep' = completed rep ++ more) /\
    (forall a, a ∈ unmatched_asks rep' <-> pending (rs ++ k) a).
Proof.
  intros [Hw1 [Hio Hw2]%Forall_cons]%Forall_app before after. simpl in Hio.
  destruct (run_log_spec tr1 None [] Hw1 eq_refl protocol_nil) as (rs & H1 & P1). simpl in *. fold before in H1.
  destruct (append_spec io before r rs Hio H1 P1) as (k1 & H2 & P2 & Hk).
  destruct (run_log_spec tr2 _ _ Hw2 H2 P2) as (k2 & H3 & P3).
  assert (Ea : after = run_log (append io before r).1 tr2) by (unfold after; by rewrite run_log_app).
  rewrite <- Ea, <- app_assoc in H3. rewrite <- app_assoc in P3.
  pose proof (load_holds _ _ H1 P1) as L1. pose proof (load_holds _ _ H3 P3) as L3.
  destruct (from_receipts_ok rs P1) as (rep & E1 & C1).
  pose proof (approval_replay_spec (rs ++ k1 ++ k2)) as Hs.
  destruct (from_receipts (rs ++ k1 ++ k2)) as [rep'|] eqn:E3; [|done]. destruct Hs as (_ & C3 & U3 & _).
  exists rs, (k1 ++ k2), rep, rep'. unfold replay. rewrite L1, L3. simpl. rewrite E1, E3.
  split_and!; [done|done| |done|done|done|done| |done].
  - intros ->%Hk. apply elem_of_app. left. by left.
  - rewrite C3, C1. unfold answers at 1, answers_in. rewrite omap_app.
    exists (answers_in (rs ++ k1 ++ k2) (k1 ++ k2)). unfold answers_in at 1. f_equal. by apply answers_app.
Qed.

(** A log that does not load never changes again, and the session beside it does not load
    either. *)
Lemma unreadable_log_locks_the_session log e : load log = Err e ->
  (forall io r, append io log r = (log, Err e)) /\
  (forall st (file : SavedSession.Saved), (SavedSession.s_schema_version file <= 1)%N ->
     SavedSession.load_session_snapshot (fun _ saved => hydrate_receipts log saved) st file
     = Err SavedSession.BadReceipts).
Proof.
  intros E. split; [intros io r; unfold append; by rewrite E|]. intros st file Hv.
  unfold SavedSession.load_session_snapshot, SavedSession.hydrate_approval_receipts, hydrate_receipts.
  unfold SavedSession.CURRENT_SESSION_SCHEMA_VERSION. apply N.ltb_ge in Hv. rewrite Hv. by rewrite E.
Qed.

End Log.

(** ** A codec with the laws

    A receipt as a number, written in binary with a mark at its end. *)

#[local] Existing Instance PathFs.comp_eq_dec.
#[export] Instance policy_eq_dec : EqDecision Authority.SandboxPolicy.
Proof. solve_decision. Defined.
#[export] Instance outcome_eq_dec : EqDecision ApprovalOutcome.
Proof. solve_decision. Defined.
#[export] Instance receipt_eq_dec : EqDecision ApprovalReceipt.
Proof. solve_decision. Defined.

#[export] Instance comp_countable : Countable PathFs.comp.
Proof.
  apply (inj_countable' (fun c => match c with PathFs.Up => None | PathFs.Name n => Some n end)
    (fun o => match o with None => PathFs.Up | Some n => PathFs.Name n end)). by intros [].
Defined.

#[export] Instance policy_countable : Countable Authority.SandboxPolicy.
Proof.
  apply (inj_countable'
    (fun p => match p with
              | Authority.DangerFullAccess => inl (inl false)
              | Authority.ReadOnly => inl (inl true)
              | Authority.ExternalSandbox b => inl (inr b)
              | Authority.WorkspaceWrite l a b c => inr (l, a, b, c)
              end)
    (fun s => match s with
              | inl (inl false) => Authority.DangerFullAccess
              | inl (inl true) => Authority.ReadOnly
              | inl (inr b) => Authority.ExternalSandbox b
              | inr (l, a, b, c) => Authority.WorkspaceWrite l a b c
              end)). by intros [].
Defined.

#[export] Instance outcome_countable : Countable ApprovalOutcome.
Proof.
  apply (inj_countable'
    (fun o => match o with
              | ApprovedOnce => inl (false, false) | Denied => inl (false, true) | Cancelled => inl (true, false)
              | Unavailable => inl (true, true) | RetryWithPolicy p => inr p
              end)
    (fun s => match s with
              | inl (false, false) => ApprovedOnce | inl (false, true) => Denied | inl (true, false) => Cancelled
              | inl (true, true) => Unavailable | inr p => RetryWithPolicy p
              end)). by intros [].
Defined.

#[export] Instance receipt_countable : Countable ApprovalReceipt.
Proof.
  apply (inj_countable'
    (fun r => match r with Asked a b c t => inl (a, b, c, t) | Decided a b o t => inr (a, b, o, t) end)
    (fun s => match s with inl (a, b, c, t) => Asked a b c t | inr (a, b, o, t) => Decided a b o t end)).
  by intros [].
Defined.

Fixpoint binary (p : positive) : list N :=
  match p with xH => [50%N] | xO p => 48%N :: binary p | xI p => 49%N :: binary p end.

Fixpoint of_binary (s : list N) : option positive :=
  match s with
  | [] => None
  | c :: s => if (c =? 50)%N then (if str_is_empty s then Some xH else None)
              else if (c =? 48)%N then xO <$> of_binary s else xI <$> of_binary s
  end.

Lemma of_binary_binary p : of_binary (binary p) = Some p.
Proof. induction p as [p IH|p IH|]; simpl; [by rewrite IH..|done]. Qed.

Lemma binary_digits p : Forall (fun c => (48 <= c)%N) (binary p).
Proof. induction p; simpl; by repeat constructor. Qed.

Definition sample_codec : ReceiptCodec :=
  {| to_text r := binary (encode r); from_text s := of_binary s ≫= decode |}.

Lemma sample_codec_laws : ReceiptCodecLaws (codec := sample_codec).
Proof.
  split; simpl; intros r.
  - rewrite of_binary_binary. simpl. apply decode_encode.
  - intros H. pose proof (binary_digits (encode r)) as Hd. rewrite Forall_forall in Hd. by specialize (Hd _ H).
  - unfold strip_suffix_cr. pose proof (binary_digits (encode r)) as Hd.
    assert (Hr : Forall (fun c => (48 <= c)%N) (reverse (binary (encode r)))) by by rewrite Forall_reverse.
    destruct (reverse (binary (encode r))) as [|c s]; [done|]. apply Forall_inv in Hr.
    destruct (N.eqb_spec c c_cr) as [->|]; [done|done].
Qed.

Definition sample_ask : ApprovalReceipt := asked (lit "t1") (lit "exec_shell") 0.
Definition sample_yes : ApprovalReceipt := decided (lit "t1") ApprovedOnce 1.
Definition sample_no : ApprovalReceipt := decided (lit "t1") Denied 2.

(** The first answer stands, and a second one is refused. *)
Lemma approvals_are_decided_once_witness :
  exists rep', replay (codec := sample_codec)
      (run_log (codec := sample_codec) None [(sample_ask, Written); (sample_yes, Written); (sample_no, Written)]) = Ok rep' /\
    completed rep' = [{| ask := sample_ask; outcome := ApprovedOnce |}].
Proof.
  destruct (approvals_are_decided_once (laws := sample_codec_laws) [(sample_ask, Written)] sample_yes Written
    [(sample_no, Written)]) as (rs & k & rep & rep' & _ & H2 & _ & _ & _ & H6 & H7 & _).
  { repeat constructor. }
  exists rep'. split; [exact H6|]. rewrite H7.
  assert (E : load (codec := sample_codec) (run_log (codec := sample_codec) None
    [(sample_ask, Written); (sample_yes, Written); (sample_no, Written)]) = Ok [sample_ask; sample_yes])
    by (vm_compute; reflexivity).
  assert (Ek : Ok (rs ++ k) = Ok (E := LogError) [sample_ask; sample_yes]) by (rewrite <- H2; exact E).
  injection Ek as ->. vm_compute. reflexivity.
Defined.

(** A crash in the middle of an append leaves a part of a line: the log does not load any
    more, whatever is done with it. *)
Example torn_receipt_is_unreadable :
  load (codec := sample_codec) (append (codec := sample_codec) (Torn 5) None sample_ask).1 = Err (InvalidLine 1).
Proof. vm_compute. reflexivity. Qed.

End ApprovalLogTheorems.
