(* ===== verification/WfSelect.v ===== *)
(** * Selection and promotion (crates/workflow/src/lib.rs)

    The tournament of branches, the Pareto frontier, the candidates of a teacher review and
    the gate that promotes them. Scores and costs are machine integers; their differences
    saturate as in the code. *)

From stdpp Require Import base list option strings sorting.
From Stdlib Require Import Lia NArith ZArith.
From S2P Require Import Prelude RustStr RustNum WfGates WfNodes WfExec.

Module WfSelect.
Import WfNodes WfExec.

(** ** Orders

    [Iterator::min_by_key] gives the first of the least elements; [sort_by_key] is stable. *)
Section Order.
Context {A : Type} (leb : A -> A -> bool).

Definition min_by (l : list A) : option A :=
  match l with
  | [] => None
  | x :: l => Some (fold_left (fun best y => if leb best y then best else y) l x)
  end.

Fixpoint insert_by (x : A) (l : list A) : list A :=
  match l with
  | [] => [x]
  | y :: l' => if leb x y then x :: l else y :: insert_by x l'
  end.

Fixpoint sort_by (l : list A) : list A :=
  match l with [] => [] | x :: l => insert_by x (sort_by l) end.

Lemma insert_by_perm x l : insert_by x l ≡ₚ x :: l.
Proof.
  induction l as [|y l IH]; simpl; [done|]. destruct (leb x y); [done|]. rewrite IH. apply Permutation_swap.
Qed.

Lemma sort_by_perm l : sort_by l ≡ₚ l.
Proof. induction l as [|x l IH]; simpl; [done|]. by rewrite insert_by_perm, IH. Qed.

Context (total : forall x y, leb x y = true \/ leb y x = true)
        (trans : forall x y z, leb x y = true -> leb y z = true -> leb x z = true).

Lemma sort_by_sorted l : StronglySorted (fun x y => leb x y = true) (sort_by l).
Proof.
  induction l as [|x l IH]; simpl; [constructor|].
  induction IH as [|y k Hk IHk Hy]; simpl; [repeat constructor|]. destruct (leb x y) eqn:E.
  - constructor; [by constructor|]. constructor; [done|]. eapply Forall_impl; [exact Hy|]. eauto.
  - constructor; [done|]. rewrite insert_by_perm. constructor; [|done]. destruct (total x y); congruence.
Qed.

Lemma head_insert_by x l :
  head (insert_by x l) = Some (match head l with Some y => if leb x y then x else y | None => x end).
Proof. destruct l as [|y l]; simpl; [done|]. by destruct (leb x y). Qed.

Lemma leb_trans_false x y z : leb y x = false -> leb y z = true -> leb z x = false.
Proof. intros H1 H2. destruct (leb z x) eqn:E; [|done]. by rewrite (trans y z x) in H1. Qed.

(** The least element is the first one of the sorted list. *)
Lemma head_sort_by l : head (sort_by l) = min_by l.
Proof.
  assert (H : forall l x, head (insert_by x (sort_by l))
    = Some (fold_left (fun best y => if leb best y then best else y) l x)).
  { clear l. induction l as [|y l IH]; intros x; [done|]. simpl. rewrite <- IH, !head_insert_by. f_equal.
    destruct (head (sort_by l)) as [z|].
    - destruct (leb y z) eqn:Eyz, (leb x y) eqn:Exy; try done.
      + by rewrite (trans x y z).
      + by rewrite Eyz.
      + destruct (leb x z) eqn:Exz; [|by rewrite Eyz].
        destruct (total z y) as [E|E]; [|congruence]. pose proof (trans x z y Exz E). congruence.
    - by destruct (leb x y). }
  destruct l as [|x l]; [done|]. simpl. apply H.
Qed.

Lemma min_by_least l x : min_by l = Some x -> x ∈ l /\ (forall y, y ∈ l -> leb x y = true).
Proof.
  rewrite <- head_sort_by. intros H. pose proof (sort_by_perm l) as Hp. pose proof (sort_by_sorted l) as Hs.
  destruct (sort_by l) as [|z k]; [done|]. injection H as <-. split.
  - rewrite <- Hp. left.
  - intros y. rewrite <- Hp. intros [->|Hy]%elem_of_cons.
    + by destruct (total z z).
    + inversion Hs as [|?? _ Hf]; subst. rewrite Forall_forall in Hf. by apply Hf.
Qed.

(** The first of the least elements. *)
Definition first_least (l : list A) (x : A) : Prop :=
  exists l1 l2, l = l1 ++ x :: l2 /\ Forall (fun y => leb y x = false) l1 /\ Forall (fun y => leb x y = true) l2.

Lemma min_by_cons x l :
  min_by (x :: l) = Some (match min_by l with Some y => if leb x y then x else y | None => x end).
Proof. rewrite <- !head_sort_by. apply head_insert_by. Qed.

Lemma min_by_first l x : min_by l = Some x <-> first_least l x.
Proof.
  split.
  - revert x. induction l as [|y l IH]; intros x; [done|]. rewrite min_by_cons. intros [= E].
    destruct (min_by l) as [z|] eqn:Ez.
    + destruct (leb y z) eqn:Eyz; subst x.
      * exists [], l. split_and!; [done|constructor|]. apply Forall_forall. intros w Hw.
        apply min_by_least in Ez as [_ Hz]. eauto.
      * destruct (IH z eq_refl) as (l1 & l2 & -> & H1 & H2). exists (y :: l1), l2. split_and!; [done|by constructor|done].
    + subst x. destruct l; [|done]. exists [], []. split_and!; [done|constructor|constructor].
  - intros (l1 & l2 & -> & H1 & H2). induction H1 as [|y l1 Hy H1 IH]; simpl app; rewrite min_by_cons.
    + destruct (min_by l2) as [z|] eqn:Ez; [|done]. apply min_by_least in Ez as [Hz _].
      rewrite Forall_forall in H2. by rewrite (H2 z Hz).
    + by rewrite IH, Hy.
Qed.

(** Dropping others does not change it. *)
Lemma min_by_filter (keep : A -> bool) l x : min_by l = Some x -> keep x = true -> min_by (List.filter keep l) = Some x.
Proof.
  rewrite !min_by_first. intros (l1 & l2 & -> & H1 & H2) Hk.
  exists (List.filter keep l1), (List.filter keep l2). rewrite List.filter_app. simpl. rewrite Hk.
  split; [done|]. rewrite !Forall_forall in *. split; intros y Hy%list_elem_of_In%List.filter_In; destruct Hy as [Hy _]; apply list_elem_of_In in Hy; auto.
Qed.
End Order.

(** ** Branches *)

Record BranchCandidate : Type := {
  bc_branch_id : list N; bc_status : WorkflowRunStatus; bc_score : N; bc_cost : N;
  bc_diversity_key : option (list N) }.

Inductive TournamentOrdering : Type := CostThenScore | ScoreThenCost.

Record BranchTournament : Type := { min_score : N; ordering : TournamentOrdering }.

Definition succeeded (c : BranchCandidate) : bool := bool_decide (bc_status c = Succeeded).

Definition passing (t : BranchTournament) (c : BranchCandidate) : bool :=
  succeeded c && (min_score t <=? bc_score c)%N.

(** The keys [(cost, Reverse(score))] and [(Reverse(score), cost)]. *)
Definition cost_first (a b : BranchCandidate) : bool :=
  (bc_cost a <? bc_cost b)%N || (bc_cost a =? bc_cost b)%N && (bc_score b <=? bc_score a)%N.

Definition score_first (a b : BranchCandidate) : bool :=
  (bc_score b <? bc_score a)%N || (bc_score b =? bc_score a)%N && (bc_cost a <=? bc_cost b)%N.

Definition tournament_order (o : TournamentOrdering) : BranchCandidate -> BranchCandidate -> bool :=
  match o with CostThenScore => cost_first | ScoreThenCost => score_first end.

Definition tournament_select (t : BranchTournament) (cs : list BranchCandidate) : option BranchCandidate :=
  min_by (tournament_order (ordering t)) (List.filter (passing t) cs).

Record ParetoFrontier : Type := { max_items : nat }.

Definition default_frontier_limit : nat := 8.
Definition frontier_default : ParetoFrontier := {| max_items := default_frontier_limit |}.

Definition dominates (other c : BranchCandidate) : bool :=
  succeeded other && (bc_score c <=? bc_score other)%N && (bc_cost other <=? bc_cost c)%N
  && ((bc_score c <? bc_score other)%N || (bc_cost other <? bc_cost c)%N).

Definition non_dominated (cs : list BranchCandidate) : list BranchCandidate :=
  List.filter (fun c => negb (existsb (fun other => dominates other c) cs)) (List.filter succeeded cs).

Definition frontier_select (p : ParetoFrontier) (cs : list BranchCandidate) : list BranchCandidate :=
  take (Nat.max (max_items p) 1) (sort_by score_first (non_dominated cs)).

(** ** Teacher candidates *)

Inductive TeacherCandidateKind : Type :=
| Note | WorkflowRecipe | SkillPatch | RegressionTest | CachePolicyPatch | BranchHeuristic | AuthoringPromptPatch.

Inductive TeacherCandidateStatus : Type := Proposed | Accepted | Rejected | Promoted.

#[export] Instance TeacherCandidateStatus_eq_dec : EqDecision TeacherCandidateStatus.
Proof. solve_decision. Defined.

Record StudentReplayMetrics : Type := { sm_score : Z; sm_cost_microusd : N }.
Record StudentReplayTestResult : Type := { test_name : list N; passed : bool }.

Record StudentReplayResult : Type := {
  sr_trace_id : list N; sr_candidate_id : list N; baseline : StudentReplayMetrics; candidate : StudentReplayMetrics;
  required_tests : list StudentReplayTestResult; policy_violations : list (list N); stale : bool;
  sr_notes : option (list N) }.

Record TeacherCandidate : Type := {
  tc_candidate_id : list N; tc_kind : TeacherCandidateKind; tc_status : TeacherCandidateStatus;
  source_node_id : list N; source_branch_id : option (list N); tc_summary : list N;
  evidence : list (list N); replay_results : list StudentReplayResult }.

(** The [Debug] names of statuses and kinds. *)
Definition status_debug (s : WorkflowRunStatus) : list N :=
  lit match s with
      | Pending => "Pending" | Running => "Running" | Succeeded => "Succeeded" | Failed => "Failed"
      | Cancelled => "Cancelled" | BudgetExceeded => "BudgetExceeded" | ReplayDiverged => "ReplayDiverged"
      end.

Definition kind_debug (k : ControlNodeKind) : list N :=
  lit match k with
      | KBranchSet => "BranchSet" | KLeaf => "Leaf" | KSequence => "Sequence" | KReduce => "Reduce"
      | KTeacherReview => "TeacherReview" | KLoopUntil => "LoopUntil" | KCond => "Cond" | KExpand => "Expand"
      end.

Definition MAX_EVIDENCE_CHARS : nat := 240.

Definition truncate_evidence (value : list N) : list N :=
  if length value <=? MAX_EVIDENCE_CHARS then value
  else take (MAX_EVIDENCE_CHARS - 1) value ++ lit "...".

Definition hits (m : WorkflowMemoUsage) : bool := (0 <? armh_hits m)%N || (0 <? provider_prompt_cache_hits m)%N.

Definition more_than_zero (n : option N) : bool := match n with Some n => (0 <? n)%N | None => false end.

Definition or_unknown (n : option N) : list N := match n with Some n => dec n | None => lit "unknown" end.

Definition status_evidence (s : WorkflowRunStatus) : list N := lit "status=" ++ status_debug s.

Definition branch_evidence (b : BranchResult) : list (list N) :=
  [status_evidence (br_status b)]
  ++ (if more_than_zero (total_tokens (br_usage b)) || more_than_zero (cost_microusd (br_usage b))
      then [lit "tokens=" ++ or_unknown (total_tokens (br_usage b)) ++ lit ", cost_microusd="
            ++ or_unknown (cost_microusd (br_usage b))] else [])
  ++ (if hits (br_memo_usage b)
      then [lit "armh_hits=" ++ dec (armh_hits (br_memo_usage b)) ++ lit ", provider_prompt_cache_hits="
            ++ dec (provider_prompt_cache_hits (br_memo_usage b))] else [])
  ++ match br_notes b with Some notes => [lit "notes=" ++ notes] | None => [] end.

Definition backquoted (s : list N) : list N := lit "`" ++ s ++ lit "`".

Definition teacher_candidate_from_branch (review : TeacherReviewSpec) (b : BranchResult) : TeacherCandidate :=
  {| tc_candidate_id := review_id review ++ lit ":" ++ br_branch_id b;
     tc_kind := if hits (br_memo_usage b) then CachePolicyPatch
                else if bool_decide (br_status b = Succeeded) then WorkflowRecipe else BranchHeuristic;
     tc_status := Proposed; source_node_id := br_task_id b; source_branch_id := Some (br_branch_id b);
     tc_summary := lit "TeacherReview candidate from branch " ++ backquoted (br_branch_id b) ++ lit " with "
                   ++ status_debug (br_status b) ++ lit " status.";
     evidence := branch_evidence b; replay_results := [] |}.

Definition teacher_candidate_from_leaf (review : TeacherReviewSpec) (l : LeafResult) : TeacherCandidate :=
  {| tc_candidate_id := review_id review ++ lit ":" ++ lr_leaf_id l;
     tc_kind := if bool_decide (lr_status l = Failed) then RegressionTest
                else if hits (lr_memo_usage l) then CachePolicyPatch else Note;
     tc_status := Proposed; source_node_id := lr_leaf_id l; source_branch_id := None;
     tc_summary := lit "TeacherReview candidate from leaf " ++ backquoted (lr_leaf_id l) ++ lit " with "
                   ++ status_debug (lr_status l) ++ lit " status.";
     evidence := [status_evidence (lr_status l)]
       ++ match lr_output l with Some output => [lit "output=" ++ truncate_evidence output] | None => [] end;
     replay_results := [] |}.

Definition teacher_candidate_from_control (review : TeacherReviewSpec) (c : ControlNodeResult) : TeacherCandidate :=
  {| tc_candidate_id := review_id review ++ lit ":" ++ cr_node_id c;
     tc_kind := AuthoringPromptPatch; tc_status := Proposed; source_node_id := cr_node_id c; source_branch_id := None;
     tc_summary := lit "TeacherReview candidate from control node " ++ backquoted (cr_node_id c) ++ lit " ("
                   ++ kind_debug (cr_kind c) ++ lit ").";
     evidence := [status_evidence (cr_status c)]
       ++ (match cr_selected_children c with
           | [] => [] | ids => [lit "selected_children=" ++ str_join (lit ",") ids] end)
       ++ match cr_summary c with Some summary => [lit "summary=" ++ truncate_evidence summary] | None => [] end;
     replay_results := [] |}.

(** One iteration of the loop over the candidates of the review. *)
Definition candidate_for (review : TeacherReviewSpec) (e : WorkflowExecution) (source : list N) : option TeacherCandidate :=
  match List.find (fun b => str_eqb (br_branch_id b) source || str_eqb (br_task_id b) source) (branch_results e) with
  | Some b => Some (teacher_candidate_from_branch review b)
  | None =>
      match List.find (fun l => str_eqb (lr_leaf_id l) source || str_eqb (lr_task_id l) source) (leaf_results e) with
      | Some l => Some (teacher_candidate_from_leaf review l)
      | None => teacher_candidate_from_control review <$>
                  List.find (fun c => str_eqb (cr_node_id c) source) (control_node_results e)
      end
  end.

Definition teacher_candidates_from_execution (review : TeacherReviewSpec) (e : WorkflowExecution) : list TeacherCandidate :=
  omap (candidate_for review e) (candidates review).

Record TeacherReviewReport : Type := { review_node_id : list N; report_candidates : list TeacherCandidate }.

Definition from_execution (review : TeacherReviewSpec) (e : WorkflowExecution) : TeacherReviewReport :=
  {| review_node_id := review_id review; report_candidates := teacher_candidates_from_execution review e |}.

(** ** The promotion gate *)

Definition i32_min : Z := -2147483648.
Definition i32_max : Z := 2147483647.
Definition i64_max : Z := 9223372036854775807.

(** [i64::try_from(n).unwrap_or(i64::MAX)] *)
Definition i64_or_max (n : N) : Z := Z.min (Z.of_N n) i64_max.

Definition signed_u64_delta (candidate baseline : N) : Z :=
  if (baseline <=? candidate)%N then i64_or_max (candidate - baseline) else - i64_or_max (baseline - candidate).

Definition i32_saturating_sub (a b : Z) : Z := Z.max i32_min (Z.min (a - b) i32_max).

Definition score_delta (r : StudentReplayResult) : Z :=
  i32_saturating_sub (sm_score (candidate r)) (sm_score (baseline r)).

Definition cost_delta_microusd (r : StudentReplayResult) : Z :=
  signed_u64_delta (sm_cost_microusd (candidate r)) (sm_cost_microusd (baseline r)).

Record PromotionGateDecision : Type := {
  d_candidate_id : list N; d_status : TeacherCandidateStatus; d_score_delta : Z; d_cost_delta_microusd : Z;
  reasons : list (list N) }.

Definition promoted (d : PromotionGateDecision) : bool := bool_decide (d_status d = Promoted).

Definition default_min_replay_score_delta : Z := 1.

Definition gate_default : PromotionGate :=
  {| min_score_delta := default_min_replay_score_delta; max_cost_delta_microusd := None;
     require_all_tests_pass := true; reject_policy_violations := true; reject_stale_replay := true |}.

Definition dec_z (z : Z) : list N := if (z <? 0)%Z then lit "-" ++ dec (Z.abs_N z) else dec (Z.abs_N z).

Definition gate_reasons (g : PromotionGate) (r : StudentReplayResult) : list (list N) :=
  (if (score_delta r <? min_score_delta g)%Z
   then [lit "score delta " ++ dec_z (score_delta r) ++ lit " is below required " ++ dec_z (min_score_delta g)] else [])
  ++ match max_cost_delta_microusd g with
     | Some m => if (m <? cost_delta_microusd r)%Z
                 then [lit "cost delta " ++ dec_z (cost_delta_microusd r) ++ lit " exceeds allowed " ++ dec_z m] else []
     | None => []
     end
  ++ (if require_all_tests_pass g
      then (fun t => lit "required test " ++ backquoted (test_name t) ++ lit " failed")
             <$> List.filter (fun t => negb (passed t)) (required_tests r) else [])
  ++ (if reject_policy_violations g then (fun v => lit "policy violation: " ++ v) <$> policy_violations r else [])
  ++ (if reject_stale_replay g && stale r then [lit "student replay result is stale"] else []).

Definition evaluate_replay (g : PromotionGate) (id : list N) (r : StudentReplayResult) : PromotionGateDecision :=
  {| d_candidate_id := id;
     d_status := match gate_reasons g r with [] => Promoted | _ => Rejected end;
     d_score_delta := score_delta r; d_cost_delta_microusd := cost_delta_microusd r;
     reasons := gate_reasons g r |}.

Definition evaluate_candidate (g : PromotionGate) (c : TeacherCandidate) : PromotionGateDecision :=
  match last (replay_results c) with
  | None => {| d_candidate_id := tc_candidate_id c; d_status := Rejected; d_score_delta := 0; d_cost_delta_microusd := 0;
               reasons := [lit "no student replay result recorded"] |}
  | Some r => evaluate_replay g (tc_candidate_id c) r
  end.

End WfSelect.
