(* ===== verification/WfSelectTheorems.v ===== *)
(** * The best branches are kept, and only proven candidates are promoted

    The tournament and the frontier against the dominance order, and the gate against the
    differences that its integers stand for. *)

From stdpp Require Import base list option strings sorting.
From Stdlib Require Import Lia NArith ZArith.
From S2P Require Import Prelude RustStr RustNum WfGates WfNodes WfExec WfSelect.

Module WfSelectTheorems.
Import WfNodes WfExec WfSelect.

(** ** The orders *)

Lemma cost_first_spec a b : cost_first a b = true <->
  (bc_cost a < bc_cost b)%N \/ (bc_cost a = bc_cost b /\ (bc_score b <= bc_score a)%N).
Proof. unfold cost_first. by rewrite orb_true_iff, andb_true_iff, N.ltb_lt, N.eqb_eq, N.leb_le. Qed.

Lemma score_first_spec a b : score_first a b = true <->
  (bc_score b < bc_score a)%N \/ (bc_score b = bc_score a /\ (bc_cost a <= bc_cost b)%N).
Proof. unfold score_first. by rewrite orb_true_iff, andb_true_iff, N.ltb_lt, N.eqb_eq, N.leb_le. Qed.

Lemma order_total o a b : tournament_order o a b = true \/ tournament_order o b a = true.
Proof. destruct o; simpl; rewrite ?cost_first_spec, ?score_first_spec; lia. Qed.

Lemma order_trans o a b c : tournament_order o a b = true -> tournament_order o b c = true -> tournament_order o a c = true.
Proof. destruct o; simpl; rewrite ?cost_first_spec, ?score_first_spec; lia. Qed.

(** ** Dominance *)

Definition Covers (a b : BranchCandidate) : Prop :=
  bc_status a = Succeeded /\ (bc_score b <= bc_score a)%N /\ (bc_cost a <= bc_cost b)%N.

(** At least as good in both respects and better in one. *)
Definition Dominates (a b : BranchCandidate) : Prop :=
  Covers a b /\ ((bc_score b < bc_score a)%N \/ (bc_cost a < bc_cost b)%N).

Lemma dominates_spec a b : dominates a b = true <-> Dominates a b.
Proof.
  unfold dominates, Dominates, Covers, succeeded.
  rewrite !andb_true_iff, orb_true_iff, !N.leb_le, !N.ltb_lt, bool_decide_eq_true. tauto.
Qed.

Definition Optimal (cs : list BranchCandidate) (w : BranchCandidate) : Prop :=
  w ∈ cs /\ bc_status w = Succeeded /\ forall c, c ∈ cs -> ~ Dominates c w.

Lemma elem_of_filter {A} (f : A -> bool) l x : x ∈ List.filter f l <-> f x = true /\ x ∈ l.
Proof. rewrite !list_elem_of_In, filter_In. tauto. Qed.

Lemma succeeded_spec c : succeeded c = true <-> bc_status c = Succeeded.
Proof. unfold succeeded. apply bool_decide_eq_true. Qed.

Lemma passing_spec t c : passing t c = true <-> bc_status c = Succeeded /\ (min_score t <= bc_score c)%N.
Proof. unfold passing. by rewrite andb_true_iff, succeeded_spec, N.leb_le. Qed.

Lemma non_dominated_spec cs w : w ∈ non_dominated cs <-> Optimal cs w.
Proof.
  unfold non_dominated, Optimal. rewrite !elem_of_filter, succeeded_spec, negb_true_iff.
  assert (H : existsb (fun other => dominates other w) cs = false <-> forall c, c ∈ cs -> ~ Dominates c w).
  { rewrite <- not_true_iff_false, existsb_elem_of. split.
    - intros H c Hc Hd. destruct H. exists c. by rewrite dominates_spec.
    - intros H (c & Hc & Hd%dominates_spec). by apply (H c). }
  rewrite H. tauto.
Qed.

(** What a tournament picks is optimal among all candidates, since whatever dominates a
    passing one passes too. *)
Lemma tournament_spec t cs :
  match tournament_select t cs with
  | None => forall c, c ∈ cs -> passing t c = false
  | Some w => Optimal cs w /\ passing t w = true /\
              forall c, c ∈ cs -> passing t c = true -> tournament_order (ordering t) w c = true
  end.
Proof.
  unfold tournament_select. destruct (min_by _ _) as [w|] eqn:E.
  - apply min_by_least in E as [Hw Hmin]; [|apply order_total|apply order_trans].
    apply elem_of_filter in Hw as [Hp Hw]. pose proof Hp as [Hs Hm]%passing_spec.
    split_and!; [|done|by intros c Hc Hpc; apply Hmin, elem_of_filter]. split_and!; [done|done|].
    intros c Hc [(Hcs & Hc1 & Hc2) Hb].
    assert (Ho : tournament_order (ordering t) w c = true).
    { apply Hmin, elem_of_filter. split; [|done]. apply passing_spec. split; [done|lia]. }
    destruct (ordering t); simpl in Ho; rewrite ?cost_first_spec, ?score_first_spec in Ho; lia.
  - intros c Hc. destruct (passing t c) eqn:Ep; [|done].
    assert (Hin : c ∈ List.filter (passing t) cs) by by apply elem_of_filter.
    destruct (List.filter (passing t) cs); [by apply not_elem_of_nil in Hin|done].
Qed.

(** Every branch that succeeded is covered by an optimal one. *)
Lemma optimal_covers cs c : c ∈ cs -> bc_status c = Succeeded -> exists w, Optimal cs w /\ Covers w c.
Proof.
  intros Hc Hs. set (l := List.filter (fun w => bool_decide (Covers w c)) cs).
  assert (Hl : forall w, w ∈ l <-> Covers w c /\ w ∈ cs).
  { intros w. unfold l. by rewrite elem_of_filter, bool_decide_eq_true. }
  assert (Hcl : c ∈ l). { apply Hl. split; [|done]. split_and!; [done|lia|lia]. }
  destruct (min_by score_first l) as [w|] eqn:E; [|clearbody l; destruct l; [by apply not_elem_of_nil in Hcl|done]].
  apply min_by_least in E as [Hw Hmin]; [|apply (order_total ScoreThenCost)|apply (order_trans ScoreThenCost)].
  apply Hl in Hw as [Hwc Hw]. exists w. split; [|done]. split_and!; [done|apply Hwc|].
  intros d Hd [(Hds & Hd1 & Hd2) Hb]. destruct Hwc as (Hws & Hw1 & Hw2).
  assert (Ho : score_first w d = true). { apply Hmin, Hl. split; [|done]. split_and!; [done|lia|lia]. }
  rewrite score_first_spec in Ho. lia.
Qed.

(** ** The frontier *)

(** The head of the frontier is found among all that succeeded: what sorts first is optimal. *)
Lemma frontier_head p cs :
  head (frontier_select p cs) = tournament_select {| min_score := 0; ordering := ScoreThenCost |} cs.
Proof.
  unfold frontier_select. rewrite <- (Nat.succ_pred_pos (Nat.max (max_items p) 1)) by lia.
  assert (Hh : forall l : list BranchCandidate, head (take (S (pred (Nat.max (max_items p) 1))) l) = head l) by by intros [].
  rewrite Hh, head_sort_by by (apply (order_total ScoreThenCost) || apply (order_trans ScoreThenCost)).
  unfold tournament_select. simpl.
  assert (Hp : List.filter (passing {| min_score := 0; ordering := ScoreThenCost |}) cs = List.filter succeeded cs).
  { apply List.filter_ext. intros c. unfold passing. cbn [min_score]. rewrite (proj2 (N.leb_le 0 _)) by lia. apply andb_true_r. }
  rewrite Hp. unfold non_dominated.
  destruct (min_by score_first (List.filter succeeded cs)) as [w|] eqn:E.
  - apply min_by_filter; [apply (order_total ScoreThenCost)|apply (order_trans ScoreThenCost)|done|].
    pose proof (tournament_spec {| min_score := 0; ordering := ScoreThenCost |} cs) as Ht.
    unfold tournament_select in Ht. simpl in Ht. rewrite Hp, E in Ht. destruct Ht as [Ho _].
    apply non_dominated_spec, elem_of_filter in Ho as [Ho _]. done.
  - destruct (List.filter succeeded cs); [done|discriminate E].
Qed.

(** C38: Selection keeps the best branches. What a tournament picks passes its bar, comes
    first in its order, and no branch dominates it; it picks none only if none passes. The
    frontier has only branches that succeeded and that no branch dominates, the best score
    first and, with equal scores, the cheapest; it starts with the winner of the tournament
    by score; and if its limit has room for them all, every branch that succeeded is covered
    by one of it. *)
Theorem selection_keeps_the_best t p cs (f := frontier_select p cs) :
  (match tournament_select t cs with
   | None => forall c, c ∈ cs -> passing t c = false
   | Some w => Optimal cs w /\ passing t w = true /\
               forall c, c ∈ cs -> passing t c = true -> tournament_order (ordering t) w c = true
   end) /\
  (forall w, w ∈ f -> Optimal cs w) /\
  StronglySorted (fun a b => score_first a b = true) f /\
  head f = tournament_select {| min_score := 0; ordering := ScoreThenCost |} cs /\
  length f = Nat.min (Nat.max (max_items p) 1) (length (non_dominated cs)) /\
  (length (non_dominated cs) <= max_items p -> forall c, c ∈ cs -> bc_status c = Succeeded -> exists w, w ∈ f /\ Covers w c).
Proof.
  subst f. assert (Hlen : length (frontier_select p cs) = Nat.min (Nat.max (max_items p) 1) (length (non_dominated cs))).
  { unfold frontier_select. by rewrite length_take, sort_by_perm. }
  split_and!; [apply tournament_spec| | |apply frontier_head|done|].
  - intros w Hw. unfold frontier_select in Hw. apply elem_of_take in Hw as (i & Hi & _).
    apply list_elem_of_lookup_2 in Hi. rewrite sort_by_perm in Hi. by apply non_dominated_spec.
  - unfold frontier_select. eapply StronglySorted_app_1_l. rewrite take_drop. apply sort_by_sorted;
      [apply (order_total ScoreThenCost)|apply (order_trans ScoreThenCost)].
  - intros Hlt c Hc Hs. destruct (optimal_covers cs c Hc Hs) as (w & Ho & Hw). exists w. split; [|done].
    unfold frontier_select. rewrite take_ge by (rewrite sort_by_perm; lia).
    by rewrite sort_by_perm, non_dominated_spec.
Qed.

(** ** Promotion *)

(** The bounds of a gate that are not the ends of their types, where a difference saturates. *)
Definition gate_ok (g : PromotionGate) : Prop :=
  (i32_min < min_score_delta g <= i32_max)%Z /\
  forall m, max_cost_delta_microusd g = Some m -> (- i64_max <= m < i64_max)%Z.

(** What the gate asks of a replay, over the integers. *)
Definition Proven (g : PromotionGate) (r : StudentReplayResult) : Prop :=
  (min_score_delta g <= sm_score (candidate r) - sm_score (baseline r))%Z /\
  (forall m, max_cost_delta_microusd g = Some m ->
     (Z.of_N (sm_cost_microusd (candidate r)) - Z.of_N (sm_cost_microusd (baseline r)) <= m)%Z) /\
  (require_all_tests_pass g = true -> Forall (fun t => passed t = true) (required_tests r)) /\
  (reject_policy_violations g = true -> policy_violations r = []) /\
  (reject_stale_replay g = true -> stale r = false).

Lemma score_delta_below g r : gate_ok g ->
  (score_delta r <? min_score_delta g)%Z = false
  <-> (min_score_delta g <= sm_score (candidate r) - sm_score (baseline r))%Z.
Proof. intros [Hg _]. unfold score_delta, i32_saturating_sub. rewrite Z.ltb_ge. unfold i32_min, i32_max in *. lia. Qed.

Lemma cost_delta_above r m : (- i64_max <= m < i64_max)%Z ->
  (m <? cost_delta_microusd r)%Z = false
  <-> (Z.of_N (sm_cost_microusd (candidate r)) - Z.of_N (sm_cost_microusd (baseline r)) <= m)%Z.
Proof.
  intros Hm. unfold cost_delta_microusd, signed_u64_delta, i64_or_max. rewrite Z.ltb_ge. unfold i64_max in *.
  destruct (N.leb_spec (sm_cost_microusd (baseline r)) (sm_cost_microusd (candidate r))); lia.
Qed.

Lemma if_nil {A} (b : bool) (l : list A) : (if b then l else []) = [] <-> (b = true -> l = []).
Proof. destruct b; naive_solver. Qed.

Lemma filter_nil_iff {A} (f : A -> bool) l : List.filter f l = [] <-> Forall (fun x => f x = false) l.
Proof.
  induction l as [|x l IH]; simpl; [by split|]. rewrite Forall_cons. destruct (f x); [|by rewrite IH; naive_solver].
  split; [done|]. by intros [? _].
Qed.

Lemma fmap_nil_iff {A B} (f : A -> B) l : f <$> l = [] <-> l = [].
Proof. by destruct l. Qed.

Lemma gate_reasons_nil g r : gate_ok g -> gate_reasons g r = [] <-> Proven g r.
Proof.
  intros Hg. unfold gate_reasons, Proven. rewrite !app_nil, !if_nil, !fmap_nil_iff, filter_nil_iff.
  rewrite <- (score_delta_below g r Hg).
  assert (Hc : match max_cost_delta_microusd g with
     | Some m => if (m <? cost_delta_microusd r)%Z
                 then [lit "cost delta " ++ dec_z (cost_delta_microusd r) ++ lit " exceeds allowed " ++ dec_z m] else []
     | None => [] end = [] <->
     (forall m, max_cost_delta_microusd g = Some m ->
       (Z.of_N (sm_cost_microusd (candidate r)) - Z.of_N (sm_cost_microusd (baseline r)) <= m)%Z)).
  { destruct (max_cost_delta_microusd g) as [m|] eqn:E; [|naive_solver].
    rewrite if_nil. destruct Hg as [_ Hg]. pose proof (cost_delta_above r m (Hg m E)) as H.
    destruct (m <? cost_delta_microusd r)%Z; naive_solver. }
  rewrite Hc. clear Hc.
  assert (Ht : Forall (fun t => negb (passed t) = false) (required_tests r) <-> Forall (fun t => passed t = true) (required_tests r)).
  { apply Forall_iff. intros t. by destruct (passed t). }
  rewrite Ht. clear Ht. destruct (_ <? _)%Z, (reject_stale_replay g), (stale r); naive_solver.
Qed.

(** What a review proposes has no replay. *)
Lemma candidates_are_fresh review e c : c ∈ teacher_candidates_from_execution review e -> replay_results c = [].
Proof.
  unfold teacher_candidates_from_execution. intros (source & _ & Hc)%list_elem_of_omap. revert Hc. unfold candidate_for.
  repeat case_match; simpl; [intros [= <-]; done..|]. destruct (List.find _ (control_node_results e)); simpl; [|done].
  by intros [= <-].
Qed.

Lemma delta_bounds r :
  (i32_min <= score_delta r <= i32_max)%Z /\ (- i64_max <= cost_delta_microusd r <= i64_max)%Z.
Proof.
  unfold score_delta, i32_saturating_sub, cost_delta_microusd, signed_u64_delta, i64_or_max, i32_min, i32_max, i64_max.
  split; [lia|]. case_match; lia.
Qed.

Lemma evaluate_replay_spec g id r (d := evaluate_replay g id r) : gate_ok g ->
  (promoted d = true <-> Proven g r) /\ (promoted d = false <-> d_status d = Rejected) /\
  (d_status d = Rejected <-> reasons d <> []).
Proof.
  intros Hg. subst d. rewrite <- (gate_reasons_nil g r Hg). unfold promoted, evaluate_replay. simpl.
  destruct (gate_reasons g r); simpl; by repeat split.
Qed.

(** Only proven candidates are promoted. A candidate of a teacher review has no replay
    yet, and no gate promotes it. A candidate is promoted exactly when its last replay has
    the required gain in score and no more than the allowed cost, as differences of
    integers although the code's saturate, and no failed test, violation or staleness that
    the gate asks about; otherwise it is rejected with a reason. *)
Theorem promoted_iff_proven g c :
  gate_ok g ->
  (forall review e, c ∈ teacher_candidates_from_execution review e -> promoted (evaluate_candidate g c) = false) /\
  (promoted (evaluate_candidate g c) = true <-> exists r, last (replay_results c) = Some r /\ Proven g r) /\
  (promoted (evaluate_candidate g c) = false <-> d_status (evaluate_candidate g c) = Rejected) /\
  (d_status (evaluate_candidate g c) = Rejected <-> reasons (evaluate_candidate g c) <> []) /\
  (i32_min <= d_score_delta (evaluate_candidate g c) <= i32_max)%Z /\
  (- i64_max <= d_cost_delta_microusd (evaluate_candidate g c) <= i64_max)%Z /\
  d_candidate_id (evaluate_candidate g c) = tc_candidate_id c.
Proof.
  intros Hg. assert (Hfresh : forall review e, c ∈ teacher_candidates_from_execution review e -> replay_results c = []).
  { intros review e. apply candidates_are_fresh. }
  unfold evaluate_candidate. destruct (last (replay_results c)) as [r|] eqn:El.
  - pose proof (evaluate_replay_spec g (tc_candidate_id c) r Hg) as (H1 & H2 & H3). pose proof (delta_bounds r) as [H4 H5].
    split_and!; [|rewrite H1; naive_solver|done|done|apply H4|apply H4|apply H5|apply H5|done].
    intros review e Hc%Hfresh. by rewrite Hc in El.
  - split_and!; simpl; try done. naive_solver.
Qed.

(** ** Examples *)

Definition sample_metrics (score : Z) (cost : N) : StudentReplayMetrics := {| sm_score := score; sm_cost_microusd := cost |}.

Definition sample_replay (id : string) (before after : Z) : StudentReplayResult :=
  {| sr_trace_id := lit "trace"; sr_candidate_id := lit id; baseline := sample_metrics before 10; candidate := sample_metrics after 12;
     required_tests := [{| test_name := lit "unit"; passed := true |}]; policy_violations := []; stale := false; sr_notes := None |}.

Definition sample_candidate (id : string) (replays : list StudentReplayResult) : TeacherCandidate :=
  {| tc_candidate_id := lit id; tc_kind := WorkflowRecipe; tc_status := Proposed; source_node_id := lit "a";
     source_branch_id := None; tc_summary := []; evidence := []; replay_results := replays |}.

Lemma promoted_iff_proven_witness :
  promoted (evaluate_candidate gate_default (sample_candidate "r:a" [sample_replay "r:a" 4 5])) = true /\
  promoted (evaluate_candidate gate_default (sample_candidate "r:a" [sample_replay "r:a" 4 5; sample_replay "r:a" 4 4])) = false.
Proof.
  assert (Hg : gate_ok gate_default) by (split; [unfold i32_min, i32_max; simpl; unfold default_min_replay_score_delta; lia|done]).
  split.
  - destruct (promoted_iff_proven gate_default (sample_candidate "r:a" [sample_replay "r:a" 4 5]) Hg) as (_ & H & _).
    apply H. eexists. split; [reflexivity|]. split_and!; simpl; [unfold default_min_replay_score_delta; lia|done|by repeat constructor|done|done].
  - destruct (promoted_iff_proven gate_default (sample_candidate "r:a" [sample_replay "r:a" 4 5; sample_replay "r:a" 4 4]) Hg)
      as (_ & _ & H & _). apply H. reflexivity.
Defined.

(** The replay of one candidate promotes another: the id in a replay is not compared. *)
Example foreign_replay_promotes :
  promoted (evaluate_candidate gate_default (sample_candidate "r:a" [sample_replay "r:b" 4 5])) = true.
Proof. reflexivity. Qed.

(** Evidence is cut at 240 characters and then has 242. *)
Example truncated_evidence_is_longer : length (truncate_evidence (repeat 97%N 241)) = 242.
Proof. vm_compute. reflexivity. Qed.

Definition sample_branch (id : string) (score cost : N) : BranchCandidate :=
  {| bc_branch_id := lit id; bc_status := Succeeded; bc_score := score; bc_cost := cost; bc_diversity_key := None |}.

(** [c] is dominated by [b]; the frontier goes from the best to the cheapest. *)
Example frontier_of_three :
  (bc_branch_id <$> frontier_select frontier_default [sample_branch "a" 5 5; sample_branch "b" 9 7; sample_branch "c" 8 7])
  = [lit "b"; lit "a"].
Proof. vm_compute. reflexivity. Qed.

End WfSelectTheorems.
