(* ===== verification/WfSearch.v ===== *)
(** * Experimental search (crates/workflow/src/experimental_search.rs)

    The specification of a search, its validation against the ceiling of live workers, the
    batches in which candidates are admitted and the receipt that freezes the inputs. The
    digest is the parameter of the work graph; the JSON of the frozen inputs is a
    parameter. *)

From stdpp Require Import base list option strings.
From Stdlib Require Import Lia NArith.
From S2P Require Import Prelude RustStr RustNum WgModel WfNodes PathScope TelEvent Redact.

Module WfSearch.
Import WgModel.

Definition WORKFLOW_SEARCH_SCHEMA_VERSION : N := 1.
Definition WORKFLOW_SEARCH_DEFAULT_MAX_CONCURRENT : N := 16.
Definition DEFAULT_FLEET_WORKFLOW_MAX_AGENTS : N := 1000.

(** ** The ceiling of live workers *)

Inductive SearchConcurrencySource : Type := FleetLimit | DefaultLimit.

Record ResolvedSearchConcurrency : Type := { limit : N; source : SearchConcurrencySource }.

Definition positive (n : option N) : option N :=
  match n with Some n => if (0 <? n)%N then Some n else None | None => None end.

Definition resolve (fleet_limit : option N) : ResolvedSearchConcurrency :=
  match positive fleet_limit with
  | Some limit => {| limit := limit; source := FleetLimit |}
  | None => {| limit := WORKFLOW_SEARCH_DEFAULT_MAX_CONCURRENT; source := DefaultLimit |}
  end.

Definition u16_max : N := 65535.

(** [u16::try_from(value).unwrap_or(u16::MAX)] *)
Definition u16_or_max (n : N) : N := N.min n u16_max.

Definition from_fleet_config (workflow_max_concurrent profile_max_concurrency : option N) : ResolvedSearchConcurrency :=
  let workflow := u16_or_max <$> workflow_max_concurrent in
  let profile := u16_or_max <$> profile_max_concurrency in
  resolve (match positive workflow, positive profile with
           | Some l, Some r => Some (N.min l r)
           | Some value, None | None, Some value => Some value
           | None, None => None
           end).

Definition receipt_line (r : ResolvedSearchConcurrency) : list N :=
  lit "live-worker ceiling " ++ dec (limit r) ++ lit " ("
  ++ lit match source r with
         | FleetLimit => "resolved Fleet limit" | DefaultLimit => "default, no Fleet limit resolved" end
  ++ lit ")".

(** ** The specification *)

Inductive SearchReasoningEffort : Type := Off | Low | Medium | High | Max.
Inductive SearchWriteAuthority : Type := WorktreeWrite.

Record SearchWorkerSpec : Type := {
  provider : option (list N); model : list N; reasoning_effort : SearchReasoningEffort;
  write_authority : SearchWriteAuthority; write_roots : list (list N); exact_files : list (list N) }.

Record SearchBudgetSpec : Type := { max_cost_microusd : option N; search_max_tokens : option N }.

Record SearchHardGateSpec : Type := {
  commands : list (list N); forbid_test_changes : bool; protected_paths : list (list N) }.

Inductive SearchDirection : Type := Minimize | Maximize.
Inductive SearchTieBreaker : Type := TieDiffLines | TieCostMicrousd | TieScore.

Record SearchScoreSpec : Type := {
  command : list N; metric : list N; direction : SearchDirection; trials : N; tie_breakers : list SearchTieBreaker }.

Inductive SearchSelectionPolicy : Type := Pareto | Ordered.
Inductive SearchSelectionMetric : Type := ByScore | ByRuntime | ByDiffLines | ByCostMicrousd.

Record SearchSelectionSpec : Type := {
  policy : SearchSelectionPolicy; retain_diversity : bool; selection_ordering : list SearchSelectionMetric }.

Inductive SearchIntegrationPolicy : Type := ReviewOnly.

Record WorkflowSearchSpec : Type := {
  schema_version : N; search_name : list N; objective : list N; population : N; rounds : list N; concurrency : N;
  worker : SearchWorkerSpec; budget : SearchBudgetSpec; hard_gates : SearchHardGateSpec; search_score : SearchScoreSpec;
  selection : SearchSelectionSpec; integration_policy : SearchIntegrationPolicy }.

Inductive SearchSpecError : Type :=
| UnsupportedSchemaVersion (version : N)
| InvalidSearchName
| InvalidText (field : list N) (max : N)
| InvalidPopulation (population : N)
| InvalidConcurrency (concurrency population limit : N)
| InvalidRounds
| UnboundedWriteScope
| InvalidStringList (field : list N)
| InvalidWriteScope (field : list N)
| ZeroBudget (field : list N)
| TestWeakeningAllowed
| MissingHardGates
| InvalidTrials (trials : N)
| MissingTieBreakers
| InvalidBaselineCommit
| EmptyEvaluator
| FreezeEncoding.

(** ** Validation *)

Definition refuse_if (b : bool) (e : SearchSpecError) : result unit SearchSpecError := if b then Err e else Ok tt.

(** The bytes of a character that is not ASCII are none of the allowed ones, so characters
    are tested instead. *)
Definition validate_name (value : list N) : result unit SearchSpecError :=
  refuse_if (str_is_empty value || (96 <? str_len value)
             || negb (forallb (fun b => Redact.is_ascii_lowercase b || is_ascii_digit b
                                        || (b =? 45)%N || (b =? 95)%N) value))
    InvalidSearchName.

Definition validate_text (field : string) (value : list N) (max : N) : result unit SearchSpecError :=
  refuse_if (str_is_empty (trim value) || (max <? N.of_nat (length value))%N) (InvalidText (lit field) max).

(** [rounds.windows(2).any(|pair| pair[0] <= pair[1])] *)
Fixpoint not_decreasing (rounds : list N) : bool :=
  match rounds with
  | a :: ((b :: _) as rest) => (a <=? b)%N || not_decreasing rest
  | _ => false
  end.

Definition validate_rounds (population : N) (rounds : list N) : result unit SearchSpecError :=
  refuse_if ((length rounds <? 2) || negb (bool_decide (head rounds = Some population))
             || negb (bool_decide (last rounds = Some 1%N)) || not_decreasing rounds)
    InvalidRounds.

(** Some value is already among those before it. *)
Fixpoint has_duplicate (before values : list (list N)) : bool :=
  match values with
  | [] => false
  | v :: rest => existsb (str_eqb v) before || has_duplicate (before ++ [v]) rest
  end.

Definition validate_string_list (field : string) (values : list (list N)) (max_items : nat) (max_chars : N)
  : result unit SearchSpecError :=
  refuse_if ((max_items <? length values)
             || existsb (fun v => str_is_empty (trim v) || (max_chars <? N.of_nat (length v))%N) values
             || has_duplicate [] values)
    (InvalidStringList (lit field)).

(** The path of an entry with both kinds of separators; on Unix only [..] and an initial
    slash give the refused components. *)
Definition bad_write_scope (value : list N) : bool :=
  let trimmed := trim value in
  let normalized := replace_chars (N.eqb c_backslash) [c_slash] trimmed in
  negb (str_eqb trimmed value)
  || existsb (fun c => (c =? 0)%N || (c =? c_cr)%N || (c =? c_nl)%N) trimmed
  || PathScope.has_windows_drive_prefix normalized
  || starts_with_char c_slash normalized
  || existsb (str_eqb (lit "..")) (split_char c_slash normalized).

Definition validate_repo_relative_paths (field : string) (values : list (list N)) (max_items : nat)
  : result unit SearchSpecError :=
  let? _ := validate_string_list field values max_items 1024 in
  refuse_if (existsb bad_write_scope values) (InvalidWriteScope (lit field)).

Definition is_zero (n : option N) : bool := match n with Some n => (n =? 0)%N | None => false end.
Definition nothing {A} (l : list A) : bool := match l with [] => true | _ => false end.

Definition validate_with_limit (s : WorkflowSearchSpec) (fleet_limit : option N)
  : result ResolvedSearchConcurrency SearchSpecError :=
  let ceiling := resolve fleet_limit in
  let? _ := refuse_if (negb (schema_version s =? WORKFLOW_SEARCH_SCHEMA_VERSION)%N)
              (UnsupportedSchemaVersion (schema_version s)) in
  let? _ := validate_name (search_name s) in
  let? _ := validate_text "objective" (objective s) 32768 in
  let? _ := refuse_if (negb ((2 <=? population s)%N && (population s <=? DEFAULT_FLEET_WORKFLOW_MAX_AGENTS)%N))
              (InvalidPopulation (population s)) in
  let? _ := refuse_if ((concurrency s =? 0)%N || (limit ceiling <? concurrency s)%N || (population s <? concurrency s)%N)
              (InvalidConcurrency (concurrency s) (population s) (limit ceiling)) in
  let? _ := validate_rounds (population s) (rounds s) in
  let? _ := validate_text "worker.model" (model (worker s)) 256 in
  let? _ := refuse_if (nothing (write_roots (worker s)) && nothing (exact_files (worker s))) UnboundedWriteScope in
  let? _ := validate_repo_relative_paths "worker.write_roots" (write_roots (worker s)) 128 in
  let? _ := validate_repo_relative_paths "worker.exact_files" (exact_files (worker s)) 256 in
  let? _ := refuse_if (is_zero (max_cost_microusd (budget s))) (ZeroBudget (lit "max_cost_microusd")) in
  let? _ := refuse_if (is_zero (search_max_tokens (budget s))) (ZeroBudget (lit "max_tokens")) in
  let? _ := refuse_if (negb (forbid_test_changes (hard_gates s))) TestWeakeningAllowed in
  let? _ := refuse_if (nothing (commands (hard_gates s))) MissingHardGates in
  let? _ := validate_string_list "hard_gates.commands" (commands (hard_gates s)) 32 4096 in
  let? _ := validate_string_list "hard_gates.protected_paths" (protected_paths (hard_gates s)) 256 1024 in
  let? _ := validate_text "score.command" (command (search_score s)) 4096 in
  let? _ := validate_text "score.metric" (metric (search_score s)) 256 in
  let? _ := refuse_if (negb ((1 <=? trials (search_score s))%N && (trials (search_score s) <=? 25)%N))
              (InvalidTrials (trials (search_score s))) in
  let? _ := refuse_if (nothing (tie_breakers (search_score s))) MissingTieBreakers in
  Ok ceiling.

Definition validate (s : WorkflowSearchSpec) : result unit SearchSpecError :=
  let? _ := validate_with_limit s None in Ok tt.

(** ** Admission *)

(** [{index:0width$}] *)
Definition zero_padded (width : nat) (n : N) : list N := repeat 48%N (width - length (dec n)) ++ dec n.

Definition candidate_ids (s : WorkflowSearchSpec) : list (list N) :=
  let width := Nat.max (length (dec (population s))) 3 in
  (fun i => lit "cand_" ++ zero_padded width (N.of_nat i)) <$> seq 1 (N.to_nat (population s)).

(** [slice::chunks]; every chunk takes at least one element off. *)
Fixpoint chunks_fuel {A} (fuel size : nat) (l : list A) : list (list A) :=
  match fuel, l with
  | 0, _ | _, [] => []
  | S fuel, _ => take size l :: chunks_fuel fuel size (drop size l)
  end.

Definition chunks {A} (size : nat) (l : list A) : list (list A) := chunks_fuel (length l) size l.

Definition admission_batches_with_limit (s : WorkflowSearchSpec) (fleet_limit : option N)
  : result (list (list (list N))) SearchSpecError :=
  let? _ := validate_with_limit s fleet_limit in
  Ok (chunks (N.to_nat (concurrency s)) (candidate_ids s)).

Definition admission_batches (s : WorkflowSearchSpec) : result (list (list (list N))) SearchSpecError :=
  admission_batches_with_limit s None.

(** ** The frozen receipt *)

Record FreezeInput : Type := {
  fi_spec : WorkflowSearchSpec; fi_baseline_commit : list N; fi_requested_model : list N; fi_resolved_model : list N;
  fi_public_evidence_hash : list N; fi_evaluator_hash : list N }.

(** [serde_json::to_vec] on the frozen inputs. *)
Class FreezeCodec : Type := freeze_json : FreezeInput -> option (list N).

Record FrozenWorkflowSearch : Type := {
  f_schema_version : N; search_id : list N; baseline_commit : list N; preregistration_hash : list N;
  public_evidence_hash : list N; evaluator_hash : list N; requested_model : list N; resolved_model : list N;
  f_candidate_ids : list (list N); resolved_concurrency : ResolvedSearchConcurrency }.

Definition concurrency_receipt_line (f : FrozenWorkflowSearch) : list N := receipt_line (resolved_concurrency f).

Definition validate_commit (value : list N) : result unit SearchSpecError :=
  refuse_if (negb ((7 <=? str_len value) && (str_len value <=? 64)) || negb (forallb TelEvent.is_ascii_hexdigit value))
    InvalidBaselineCommit.

Definition sha256_label `{Digest} (bytes : list N) : list N := lit "sha256:" ++ sha256_hex bytes.

Definition freeze_input `{Digest} (s : WorkflowSearchSpec) (commit resolved : list N) (evidence evaluator : list N) : FreezeInput :=
  {| fi_spec := s; fi_baseline_commit := commit; fi_requested_model := model (worker s); fi_resolved_model := resolved;
     fi_public_evidence_hash := sha256_label evidence; fi_evaluator_hash := sha256_label evaluator |}.

(** A label has 71 characters, so the slice of the search id is in range. *)
Definition freeze_with_limit `{Digest} `{FreezeCodec} (s : WorkflowSearchSpec) (commit resolved : list N)
  (evidence evaluator : list N) (fleet_limit : option N) : result FrozenWorkflowSearch SearchSpecError :=
  let? ceiling := validate_with_limit s fleet_limit in
  let? _ := validate_commit commit in
  let? _ := validate_text "resolved_model" resolved 256 in
  let? _ := refuse_if (str_is_empty evaluator) EmptyEvaluator in
  match freeze_json (freeze_input s commit resolved evidence evaluator) with
  | None => Err FreezeEncoding
  | Some encoded =>
      let hash := sha256_label encoded in
      Ok {| f_schema_version := schema_version s; search_id := lit "search-" ++ take 16 (drop 7 hash);
            baseline_commit := commit; preregistration_hash := hash; public_evidence_hash := sha256_label evidence;
            evaluator_hash := sha256_label evaluator; requested_model := model (worker s); resolved_model := resolved;
            f_candidate_ids := candidate_ids s; resolved_concurrency := ceiling |}
  end.

Definition freeze `{Digest} `{FreezeCodec} (s : WorkflowSearchSpec) (commit resolved evidence evaluator : list N) :=
  freeze_with_limit s commit resolved evidence evaluator None.

End WfSearch.
