(* ===== verification/WfSearchTheorems.v ===== *)
(** * A search is bounded and its inputs are frozen

    Batches of candidates against the ceiling of live workers, and what the hash of a
    frozen search fixes. *)

From stdpp Require Import base list option strings sorting pretty.
From Stdlib Require Import Lia NArith.
From S2P Require Import Prelude RustStr RustNum WgModel WfNodes PathScope TelEvent Redact WfSearch.

Module WfSearchTheorems.
Import WgModel WfSearch.

(** ** Candidate ids *)

Lemma pretty_go_head x s c l : (0 < x)%N -> lit (pretty_N_go x s) = c :: l -> c <> 48%N.
Proof.
  revert s. induction (N.lt_wf_0 x) as [x _ IH]; intros s Hx. rewrite pretty_N_go_step by done.
  destruct (N.eq_0_gt_0_cases (x / 10)) as [E|Hd]; [|apply IH; [by apply N.div_lt|done]].
  rewrite E, pretty_N_go_0. cbn [lit]. intros [= <- _].
  assert (Hm : (x mod 10 = x)%N) by (apply N.mod_small; apply N.div_small_iff in E; lia).
  rewrite Hm. apply N.div_small_iff in E; [|lia].
  assert (x = 1 \/ x = 2 \/ x = 3 \/ x = 4 \/ x = 5 \/ x = 6 \/ x = 7 \/ x = 8 \/ x = 9)%N as Hx' by lia.
  by repeat destruct Hx' as [-> | Hx']; subst.
Qed.

Lemma dec_head n c l : (0 < n)%N -> dec n = c :: l -> c <> 48%N.
Proof.
  intros Hn. unfold dec, pretty, pretty_N. destruct (decide (n = 0)%N); [lia|]. by apply pretty_go_head.
Qed.

Lemma lit_inj a b : lit a = lit b -> a = b.
Proof.
  revert b. induction a as [|c a IH]; intros [|d b]; cbn [lit]; [done..|]. intros [= Hc Hl]. f_equal; [|by apply IH].
  rewrite <- (Ascii.ascii_N_embedding c), <- (Ascii.ascii_N_embedding d). congruence.
Qed.

Lemma dec_inj a b : dec a = dec b -> a = b.
Proof. unfold dec. intros H%lit_inj. by apply (inj pretty). Qed.

Lemma zeros_inj i j a b : (0 < a)%N -> (0 < b)%N -> repeat 48%N i ++ dec a = repeat 48%N j ++ dec b -> a = b.
Proof.
  intros Ha Hb. revert j. induction i as [|i IH]; intros [|j]; cbn [repeat app].
  - apply dec_inj.
  - intros E. by apply dec_head in E.
  - intros E. symmetry in E. by apply dec_head in E.
  - intros [= E]. eauto.
Qed.

Lemma candidate_ids_NoDup s : NoDup (candidate_ids s).
Proof.
  unfold candidate_ids. apply NoDup_fmap_2_strong; [|apply NoDup_seq].
  intros i j Hi%elem_of_seq Hj%elem_of_seq E%app_inv_head. unfold zero_padded in E.
  apply zeros_inj in E; lia.
Qed.

Lemma length_candidate_ids s : length (candidate_ids s) = N.to_nat (population s).
Proof. unfold candidate_ids. by rewrite length_fmap, length_seq. Qed.

(** ** Batches *)

Section Chunks.
Context {A : Type} (size : nat) (Hsize : 0 < size).
Implicit Type l : list A.

Lemma chunks_fuel_spec fuel l : length l <= fuel ->
  concat (chunks_fuel fuel size l) = l /\
  Forall (fun b => b <> [] /\ length b <= size) (chunks_fuel fuel size l) /\
  (forall i b, chunks_fuel fuel size l !! i = Some b -> S i < length (chunks_fuel fuel size l) -> length b = size).
Proof.
  revert l. induction fuel as [|fuel IH]; intros l Hl.
  { destruct l; [|simpl in Hl; lia]. by split_and!. }
  destruct l as [|x l]; [by split_and!|].
  destruct (IH (drop size (x :: l))) as (H1 & H2 & H3). { rewrite length_drop. simpl in *. lia. }
  cbn [chunks_fuel]. split_and!.
  - cbn [concat]. rewrite H1. apply take_drop.
  - constructor; [|done]. split; [by destruct size; [lia|]|]. rewrite length_take. lia.
  - intros [|i] b; cbn [lookup list_lookup length]; [|intros Hb Hi; apply (H3 i b); [done|lia]].
    intros [= <-] Hi. rewrite length_take. destruct (decide (length (x :: l) <= size)); [|lia].
    rewrite drop_ge in Hi by done. destruct fuel; simpl in Hi; lia.
Qed.

Lemma chunks_spec l :
  concat (chunks size l) = l /\ Forall (fun b => b <> [] /\ length b <= size) (chunks size l) /\
  (forall i b, chunks size l !! i = Some b -> S i < length (chunks size l) -> length b = size).
Proof. by apply chunks_fuel_spec. Qed.
End Chunks.

(** ** Validation *)

Lemma refuse_if_ok b e u : refuse_if b e = Ok u -> b = false.
Proof. by destruct b. Qed.

Lemma not_decreasing_spec l : not_decreasing l = false -> StronglySorted (fun a b => (b < a)%N) l.
Proof.
  intros H. apply Sorted_StronglySorted; [intros x y z; lia|].
  induction l as [|a [|b l] IH]; [constructor|by repeat constructor|].
  cbn [not_decreasing] in H. apply orb_false_iff in H as [Hab%N.leb_gt H]. constructor; [by apply IH|]. by constructor.
Qed.

Lemma resolve_spec l : (0 < limit (resolve l))%N /\
  match l with
  | Some n => if (n =? 0)%N then limit (resolve l) = 16%N else limit (resolve l) = n
  | None => limit (resolve l) = 16%N
  end.
Proof. destruct l as [n|]; [|done]. unfold resolve, positive. destruct n; simpl; done. Qed.

(** A search that passes validation. *)
Record Bounded (s : WorkflowSearchSpec) (ceiling : N) : Prop := {
  b_population : (2 <= population s <= DEFAULT_FLEET_WORKFLOW_MAX_AGENTS)%N;
  b_concurrency : (1 <= concurrency s <= ceiling)%N /\ (concurrency s <= population s)%N;
  b_rounds : head (rounds s) = Some (population s) /\ last (rounds s) = Some 1%N /\
             StronglySorted (fun a b => (b < a)%N) (rounds s);
  b_scope : write_roots (worker s) <> [] \/ exact_files (worker s) <> [];
  b_paths : Forall (fun p => bad_write_scope p = false) (write_roots (worker s) ++ exact_files (worker s));
  b_gates : forbid_test_changes (hard_gates s) = true /\ commands (hard_gates s) <> []
}.

Lemma validate_rounds_ok p l u : validate_rounds p l = Ok u ->
  head l = Some p /\ last l = Some 1%N /\ StronglySorted (fun a b => (b < a)%N) l.
Proof.
  intros H%refuse_if_ok. rewrite !orb_false_iff, !negb_false_iff, !bool_decide_eq_true in H.
  destruct H as [[[_ H1] H2] H3]. split_and!; [done|done|by apply not_decreasing_spec].
Qed.

Lemma validate_paths_ok f l n u : validate_repo_relative_paths f l n = Ok u -> Forall (fun p => bad_write_scope p = false) l.
Proof.
  unfold validate_repo_relative_paths. intros H. result_cases. apply refuse_if_ok in H.
  apply Forall_forall. intros p Hp. destruct (bad_write_scope p) eqn:Eb; [|done].
  rewrite <- not_true_iff_false, existsb_elem_of in H. destruct H. eauto.
Qed.

Lemma validated s fl c : validate_with_limit s fl = Ok c -> c = resolve fl /\ Bounded s (limit c).
Proof.
  unfold validate_with_limit. intros H. result_cases. subst c. split; [done|].
  repeat match goal with E : refuse_if _ _ = Ok _ |- _ => apply refuse_if_ok in E end.
  repeat match goal with E : negb _ = false |- _ => apply negb_false_iff in E end.
  repeat match goal with E : _ && _ = true |- _ => apply andb_true_iff in E as [? ?] end.
  repeat match goal with E : _ || _ = false |- _ => apply orb_false_iff in E as [? ?] end.
  rewrite ?N.leb_le, ?N.ltb_ge, ?N.eqb_neq in *.
  repeat match goal with E : validate_repo_relative_paths _ _ _ = Ok _ |- _ => apply validate_paths_ok in E end.
  split; [lia|lia|by eapply validate_rounds_ok| |by apply Forall_app|].
  - destruct (write_roots (worker s)); [|by left]. destruct (exact_files (worker s)); [done|by right].
  - split; [done|]. by destruct (commands (hard_gates s)).
Qed.

(** A path that is accepted starts at the root of the work tree and never leaves it: it is
    not absolute, has no drive, and none of its parts is [..], with either separator. *)
Lemma accepted_path_is_relative p (q := replace_chars (N.eqb c_backslash) [c_slash] p) :
  bad_write_scope p = false ->
  starts_with_char c_slash q = false /\ PathScope.has_windows_drive_prefix q = false /\
  lit ".." ∉ split_char c_slash q.
Proof.
  subst q. unfold bad_write_scope. rewrite !orb_false_iff, negb_false_iff. intros ((((->%str_eqb_spec & _) & H2) & H3) & H4).
  split_and!; [done|done|]. intros Hin. rewrite <- not_true_iff_false, existsb_elem_of in H4. destruct H4.
  exists (lit ".."). split; [done|]. by apply str_eqb_spec.
Qed.

Lemma rounds_bounded s c r : Bounded s c -> r ∈ rounds s -> (1 <= r <= population s)%N.
Proof.
  intros Hb Hr. destruct (b_rounds _ _ Hb) as (Hh & Hl & Hs). split.
  - apply last_Some in Hl as [l El]. rewrite El in Hr, Hs. apply elem_of_app in Hr as [Hr|Hr%list_elem_of_singleton]; [|lia].
    pose proof (StronglySorted_app_1_elem_of _ _ _ r 1%N Hs Hr) as H. apply N.lt_le_incl, H. by left.
  - destruct (rounds s) as [|a l]; [done|]. injection Hh as ->. inversion Hs as [|?? _ Hf]; subst.
    apply elem_of_cons in Hr as [->|Hr]; [done|]. rewrite Forall_forall in Hf. specialize (Hf r Hr). simpl in Hf. lia.
Qed.

(** C39: A search admits every candidate once and stays under the ceiling. When a search
    passes validation its candidates have distinct ids, as many as its population and at
    most the agents a workflow may launch; the batches are these candidates in their order;
    every batch but the last one has as many as the search may run at once, which is at
    most the limit of the fleet if there is a positive one and 16 otherwise; the rounds fall
    strictly from the population to one; every write stays in the work tree by its path; and
    a search that does not pass admits nothing and freezes nothing. *)
Theorem search_admits_each_candidate_once `{Digest} `{FreezeCodec} s fl :
  match validate_with_limit s fl with
  | Err e => admission_batches_with_limit s fl = Err e /\
             (forall commit resolved evidence evaluator, freeze_with_limit s commit resolved evidence evaluator fl = Err e)
  | Ok ceiling =>
      limit ceiling = match fl with Some n => if (n =? 0)%N then 16%N else n | None => 16%N end /\
      NoDup (candidate_ids s) /\ length (candidate_ids s) = N.to_nat (population s) /\ (2 <= population s <= 1000)%N /\
      (exists batches, admission_batches_with_limit s fl = Ok batches /\ concat batches = candidate_ids s /\
         Forall (fun b => b <> [] /\ (N.of_nat (length b) <= limit ceiling)%N) batches /\
         forall i b, batches !! i = Some b -> S i < length batches -> length b = N.to_nat (concurrency s)) /\
      StronglySorted (fun a b => (b < a)%N) (rounds s) /\ Forall (fun r => 1 <= r <= population s)%N (rounds s) /\
      head (rounds s) = Some (population s) /\ last (rounds s) = Some 1%N /\
      Forall (fun p => (lit ".." ∉ split_char c_slash (replace_chars (N.eqb c_backslash) [c_slash] p)) /\
                       starts_with_char c_slash (replace_chars (N.eqb c_backslash) [c_slash] p) = false)
        (write_roots (worker s) ++ exact_files (worker s))
  end.
Proof.
  destruct (validate_with_limit s fl) as [c|e] eqn:E.
  2:{ unfold admission_batches_with_limit, freeze_with_limit. by rewrite E. }
  apply validated in E as Hv. destruct Hv as [-> Hb]. destruct (b_rounds _ _ Hb) as (R1 & R2 & R3).
  pose proof (b_concurrency _ _ Hb) as [Hc _].
  destruct (chunks_spec (N.to_nat (concurrency s)) ltac:(lia) (candidate_ids s)) as (C1 & C2 & C3).
  split_and!; [|apply candidate_ids_NoDup|apply length_candidate_ids|apply (b_population _ _ Hb)|apply (b_population _ _ Hb)| |done| |done|done|].
  - destruct (resolve_spec fl) as [_ Hl]. destruct fl as [n|]; [|done]. by destruct (n =? 0)%N.
  - exists (chunks (N.to_nat (concurrency s)) (candidate_ids s)). unfold admission_batches_with_limit. rewrite E. simpl.
    split_and!; [done|done| |done]. eapply Forall_impl; [exact C2|]. intros b [Hb1 Hb2]. split; [done|lia].
  - apply Forall_forall. intros r Hr. by eapply rounds_bounded.
  - eapply Forall_impl; [apply (b_paths _ _ Hb)|]. intros p (H1 & _ & H2)%accepted_path_is_relative. done.
Qed.

(** ** What the hash fixes *)

#[export] Instance worker_eq_dec : EqDecision SearchWorkerSpec.
Proof. assert (EqDecision SearchReasoningEffort) by solve_decision. assert (EqDecision SearchWriteAuthority) by solve_decision. solve_decision. Defined.
#[export] Instance score_eq_dec : EqDecision SearchScoreSpec.
Proof. assert (EqDecision SearchDirection) by solve_decision. assert (EqDecision SearchTieBreaker) by solve_decision. solve_decision. Defined.
#[export] Instance selection_eq_dec : EqDecision SearchSelectionSpec.
Proof. assert (EqDecision SearchSelectionPolicy) by solve_decision. assert (EqDecision SearchSelectionMetric) by solve_decision. solve_decision. Defined.
#[export] Instance budget_eq_dec : EqDecision SearchBudgetSpec.
Proof. solve_decision. Defined.
#[export] Instance gates_eq_dec : EqDecision SearchHardGateSpec.
Proof. solve_decision. Defined.
#[export] Instance integration_eq_dec : EqDecision SearchIntegrationPolicy.
Proof. solve_decision. Defined.
#[export] Instance search_eq_dec : EqDecision WorkflowSearchSpec.
Proof. solve_decision. Defined.
#[export] Instance input_eq_dec : EqDecision FreezeInput.
Proof. solve_decision. Defined.

Section Freeze.
Context `{Digest} `{FreezeCodec}.

(** Two texts with one digest. *)
Definition collision : Prop := exists a b, a <> b /\ sha256_hex a = sha256_hex b.
(** Two inputs with one encoding. *)
Definition ambiguous : Prop := exists i j, i <> j /\ freeze_json i = freeze_json j.

Lemma label_inj a b : sha256_label a = sha256_label b -> a = b \/ collision.
Proof.
  intros E%app_inv_head. destruct (decide (a = b)) as [|Hne]; [by left|]. right. by exists a, b.
Qed.

Lemma frozen s commit resolved evidence evaluator fl f :
  freeze_with_limit s commit resolved evidence evaluator fl = Ok f ->
  exists encoded, freeze_json (freeze_input s commit resolved evidence evaluator) = Some encoded /\
    preregistration_hash f = sha256_label encoded /\ search_id f = lit "search-" ++ take 16 (sha256_hex encoded) /\
    resolved_concurrency f = resolve fl.
Proof.
  unfold freeze_with_limit. intros E. result_cases. destruct (freeze_json _) as [encoded|]; [|done].
  injection E as <-. exists encoded. split_and!; [done|done|done|]. simpl. by apply validated in E0 as [-> _].
Qed.

(** The hash of a frozen search fixes its inputs, up to a collision of the digest or an
    ambiguity of the encoding. *)
Lemma frozen_hash_fixes_inputs s s' c c' m m' ev ev' ex ex' fl fl' f f' :
  freeze_with_limit s c m ev ex fl = Ok f -> freeze_with_limit s' c' m' ev' ex' fl' = Ok f' ->
  preregistration_hash f = preregistration_hash f' ->
  (s = s' /\ c = c' /\ m = m' /\ ev = ev' /\ ex = ex') \/ collision \/ ambiguous.
Proof.
  intros (e & E1 & E2 & _)%frozen (e' & E1' & E2' & _)%frozen Eh. rewrite E2, E2' in Eh.
  apply label_inj in Eh as [->|]; [|by right; left].
  destruct (decide (freeze_input s c m ev ex = freeze_input s' c' m' ev' ex')) as [Ei|Hne].
  2:{ right; right. by exists (freeze_input s c m ev ex), (freeze_input s' c' m' ev' ex'); rewrite E1, E1'. }
  pose proof (f_equal fi_public_evidence_hash Ei) as Eev. pose proof (f_equal fi_evaluator_hash Ei) as Eex. simpl in Eev, Eex.
  injection Ei as -> -> _ -> _ _.
  apply label_inj in Eev as [->|]; [|by right; left]. apply label_inj in Eex as [->|]; [|by right; left]. by left.
Qed.

(** How many workers the pool allows does not change the hash or the id. *)
Lemma limit_is_not_hashed s c m ev ex fl fl' f f' :
  freeze_with_limit s c m ev ex fl = Ok f -> freeze_with_limit s c m ev ex fl' = Ok f' ->
  preregistration_hash f = preregistration_hash f' /\ search_id f = search_id f'.
Proof.
  intros (e & E1 & E2 & E3 & _)%frozen (e' & E1' & E2' & E3' & _)%frozen. assert (e = e') as <- by congruence. by split; congruence.
Qed.
End Freeze.

(** ** Examples *)

Definition sample_search (roots : list (list N)) : WorkflowSearchSpec :=
  {| schema_version := 1; search_name := lit "speed-up"; objective := lit "Reduce the runtime"; population := 5;
     rounds := [5; 2; 1]%N; concurrency := 2;
     worker := {| provider := None; model := lit "flash"; reasoning_effort := High; write_authority := WorktreeWrite;
                  write_roots := roots; exact_files := [] |};
     budget := {| max_cost_microusd := None; search_max_tokens := None |};
     hard_gates := {| commands := [lit "cargo test"]; forbid_test_changes := true; protected_paths := [lit "tests"] |};
     search_score := {| command := lit "./bench"; metric := lit "ms"; direction := Minimize; trials := 5;
                        tie_breakers := [TieDiffLines] |};
     selection := {| policy := Pareto; retain_diversity := true; selection_ordering := [] |};
     integration_policy := ReviewOnly |}.

Example sample_batches :
  admission_batches (sample_search [lit "code"])
  = Ok [[lit "cand_001"; lit "cand_002"]; [lit "cand_003"; lit "cand_004"]; [lit "cand_005"]].
Proof. vm_compute. reflexivity. Qed.

(** A search without a bounded scope of writes is refused, but a scope of the whole work tree
    is a bounded one. *)
Example dot_root_is_accepted :
  validate (sample_search []) = Err UnboundedWriteScope /\ validate (sample_search [lit "."]) = Ok tt /\
  validate (sample_search [lit "./"; lit "tests"]) = Ok tt.
Proof. vm_compute. done. Qed.

End WfSearchTheorems.
