(* ===== verification/WfReplay.v ===== *)
(** * Replay of a workflow (crates/workflow/src/replay.rs)

    [WorkflowReplayExecutor]: the tree is walked again, leaves and decisions are taken from
    the records of a trace. The hash of a leaf's input is a parameter. The nodes of a
    recorded expansion are not a part of the tree, so the walk takes fuel for its levels. *)

From stdpp Require Import base list option strings gmap.
From Stdlib Require Import Lia NArith.
From S2P Require Import Prelude RustStr RustNum WfGates WfNodes WfExec.

Module WfReplay.
Import WfNodes WfExec.

Record ReplayOptions : Type := { allow_live_replay : bool }.
Definition replay_options_default : ReplayOptions := {| allow_live_replay := false |}.

Record ReplayLeafRecord : Type := {
  rl_trace_id : list N; rl_leaf_id : list N; rl_input_hash : list N; rl_result : LeafResult }.

Record ReplayControlRecord : Type := {
  rc_trace_id : list N; rc_node_id : list N; rc_kind : ControlNodeKind; rc_result : ControlNodeResult;
  rc_generated_nodes : list WorkflowNode }.

Record WorkflowReplayTrace : Type := {
  trace_id : list N; leaf_records : list ReplayLeafRecord; control_records : list ReplayControlRecord }.

Inductive WorkflowReplayError : Type :=
| Validation (e : WorkflowExecutionError)
| LiveReplayUnavailable (leaf : list N)
| InputHash.

Definition Outputs : Type := gmap (list N) (option (list N)).

(** SHA-256 of the JSON of the workflow's id and goal, the leaf and its inputs. *)
Class LeafHash : Type := leaf_input_hash : option (list N) -> list N -> LeafSpec -> Outputs -> option (list N).

(** What a replay comes to. *)
Inductive replayed (A : Type) : Type := RDone (a : A) | RError (e : WorkflowReplayError) | RNoFuel.
Arguments RDone {A} a.
Arguments RError {A} e.
Arguments RNoFuel {A}.

Definition rbind {A B} (r : replayed A) (k : A -> replayed B) : replayed B :=
  match r with RDone a => k a | RError e => RError e | RNoFuel => RNoFuel end.

Definition validated_or (r : result unit WorkflowExecutionError) : replayed unit :=
  match r with Ok _ => RDone tt | Err e => RError (Validation e) end.

(** The outputs that are resolved, and the execution so far. *)
Definition State : Type := Outputs * WorkflowExecution.
Definition Run : Type := State -> replayed State.

#[export] Instance ControlNodeKind_eq_dec : EqDecision ControlNodeKind.
Proof. solve_decision. Defined.

(** ** The executor *)

Definition resolved_inputs_for_leaf (leaf : LeafSpec) (outputs : Outputs) : Outputs :=
  fold_left (fun m dependency => <[dependency := default None (outputs !! dependency)]> m)
    (depends_on_results leaf) ∅.

Definition branch_status (results : list LeafResult) : WorkflowRunStatus :=
  if existsb (fun r => bool_decide (lr_status r = ReplayDiverged)) results then ReplayDiverged
  else if existsb (fun r => negb (bool_decide (lr_status r = Succeeded))) results then Failed
  else Succeeded.

(** The marks that a recorded status leaves on the run. *)
Definition mark_recorded (s : WorkflowRunStatus) (e : WorkflowExecution) : WorkflowExecution :=
  match s with ReplayDiverged => mark ReplayDiverged e | Failed => mark Failed e | _ => e end.

(** Children by their ids, the last of those with one id; in the order of the selection. *)
Definition select_nodes {A} (nodes : list (list N * A)) (selected : list (list N)) : list A :=
  omap (fun id => snd <$> List.find (fun n => str_eqb n.1 id) (reverse nodes)) selected.

Fixpoint run_all (rs : list Run) (s : State) : replayed State :=
  match rs with [] => RDone s | r :: rs => rbind (r s) (run_all rs) end.

Section Replay.
Context `{LeafHash} (trace : WorkflowReplayTrace) (options : ReplayOptions) (spec : WorkflowSpec).

(** The maps built by [with_options]: the last record of a key is kept. *)
Definition leaf_record (leaf hash : list N) : option LeafResult :=
  rl_result <$> List.find (fun r => str_eqb (rl_trace_id r) (trace_id trace) && str_eqb (rl_leaf_id r) leaf
                                    && str_eqb (rl_input_hash r) hash) (reverse (leaf_records trace)).

Definition control_record (node : list N) (kind : ControlNodeKind) : option ReplayControlRecord :=
  List.find (fun r => str_eqb (rc_trace_id r) (trace_id trace) && str_eqb (rc_node_id r) node
                      && bool_decide (rc_kind r = kind)) (reverse (control_records trace)).

Definition compute_leaf_input_hash (leaf : LeafSpec) (inputs : Outputs) : result (list N) WorkflowReplayError :=
  match leaf_input_hash (spec_id spec) (goal spec) leaf inputs with Some hash => Ok hash | None => Err InputHash end.

Definition diverged_leaf (leaf : LeafSpec) : LeafResult :=
  {| lr_leaf_id := leaf_id leaf; lr_task_id := leaf_id leaf; lr_role := leaf_role leaf; lr_profile := profile leaf;
     lr_status := ReplayDiverged; lr_usage := usage_default; lr_memo_usage := memo_default; lr_output := None;
     lr_artifacts := []; lr_schema_error := None |}.

(** The result of a leaf: its record for the inputs it has now. *)
Definition leaf_answer (leaf : LeafSpec) (outputs : Outputs) : result LeafResult WorkflowReplayError :=
  let? hash := compute_leaf_input_hash leaf (resolved_inputs_for_leaf leaf outputs) in
  match leaf_record (leaf_id leaf) hash with
  | Some r => Ok r
  | None => if allow_live_replay options then Err (LiveReplayUnavailable (leaf_id leaf)) else Ok (diverged_leaf leaf)
  end.

(** A placeholder adds no memo usage in the code, and its memo usage is zero. *)
Definition replay_leaf (leaf : LeafSpec) (s : State) : replayed State :=
  match leaf_answer leaf s.1 with
  | Err e => RError e
  | Ok r => RDone (<[leaf_id leaf := lr_output r]> s.1, push_leaf r (mark_recorded (lr_status r) s.2))
  end.

Definition push_control_or_diverge (node : list N) (kind : ControlNodeKind) (record : option ReplayControlRecord)
  (fallback_children : list (list N)) (fallback_summary : list N) (s : State) : State :=
  match record with
  | None => (s.1, push_control {| cr_node_id := node; cr_kind := kind; cr_status := ReplayDiverged;
                                  cr_selected_children := fallback_children; cr_summary := Some fallback_summary |}
                    (mark ReplayDiverged s.2))
  | Some r => (s.1, push_control (rc_result r) (mark_recorded (cr_status (rc_result r)) s.2))
  end.

Definition replay_recorded_control (node : list N) (kind : ControlNodeKind) (children : list (list N)) (summary : list N)
  (s : State) : State :=
  push_control_or_diverge node kind (control_record node kind) children summary s.

Definition selected_or (fallback : list (list N)) (record : option ReplayControlRecord) : list (list N) :=
  match record with Some r => cr_selected_children (rc_result r) | None => fallback end.

Definition push_branch_result (id : list N) (before : nat) (s : State) : State :=
  let results := drop before (leaf_results s.2) in
  (s.1, push_branch
     {| br_branch_id := id; br_task_id := id; br_status := branch_status results; br_usage := usage_of results;
        br_memo_usage := memo_of results; br_artifacts := [];
        br_notes := Some (lit "replay branch set evaluated from recorded leaf results") |}
     (mark_recorded (branch_status results) s.2)).

Section Level.
Context (expand : list WorkflowNode -> Run).

Fixpoint replay_node (n : WorkflowNode) : Run := fun s =>
  match n with
  | Leaf leaf => replay_leaf leaf s
  | BranchSet head children =>
      rbind (run_all (map replay_node children) s) (fun s' =>
      RDone (replay_recorded_control (branch_id head) KBranchSet (node_id <$> children)
               (lit "branch set replayed declared children")
               (push_branch_result (branch_id head) (length (leaf_results s.2)) s')))
  | Sequence id children =>
      rbind (run_all (map replay_node children) s) (fun s =>
      RDone (replay_recorded_control id KSequence (node_id <$> children) (lit "sequence replayed in declaration order") s))
  | Reduce r =>
      RDone (replay_recorded_control (reduce_id r) KReduce (inputs r) (reduce_prompt r) s)
  | TeacherReview r =>
      RDone (replay_recorded_control (review_id r) KTeacherReview (candidates r)
               (lit "teacher review replayed from recorded candidates") s)
  | LoopUntil id _ _ children =>
      let record := control_record id KLoopUntil in
      let selected := selected_or (node_id <$> children) record in
      rbind (run_all (select_nodes (map (fun c => (node_id c, replay_node c)) children) selected) s) (fun s =>
      RDone (push_control_or_diverge id KLoopUntil record selected
               (lit "loop_until replayed recorded child selection") s))
  | Cond id _ then_nodes else_nodes =>
      let record := control_record id KCond in
      let selected := selected_or [] record in
      let available := map (fun c => (node_id c, replay_node c)) then_nodes
                       ++ map (fun c => (node_id c, replay_node c)) else_nodes in
      rbind (run_all (select_nodes available selected) s) (fun s =>
      RDone (push_control_or_diverge id KCond record selected (lit "cond replayed recorded branch selection") s))
  | Expand id source _ _ =>
      let record := control_record id KExpand in
      let generated := match record with Some r => rc_generated_nodes r | None => [] end in
      rbind (validated_or (validate_workflow_node_shapes generated)) (fun _ =>
      rbind (expand generated s) (fun s =>
      RDone (push_control_or_diverge id KExpand record (selected_or (node_id <$> generated) record)
               (lit "expand replayed recorded nodes from " ++ source) s)))
  end.
End Level.

(** The walk with [fuel] levels of expansion. *)
Fixpoint replay_level (fuel : nat) (ns : list WorkflowNode) : Run :=
  match fuel with
  | 0 => fun _ => RNoFuel
  | S fuel => run_all (map (replay_node (replay_level fuel)) ns)
  end.

(** The outputs an executor resolved stay with it for its next run; a new one has none. *)
Definition replay_run (fuel : nat) (outputs : Outputs) : replayed State :=
  rbind (validated_or (validate_workflow_nodes (nodes spec))) (fun _ =>
  replay_level fuel (nodes spec) (outputs, execution_default)).

End Replay.
End WfReplay.
