(* ===== verification/WfReplayTheorems.v ===== *)
(** * A replay answers from its records

    What a run takes from the trace, what its status says, and how many levels of expansion
    it takes. *)

From stdpp Require Import base list option strings gmap.
From Stdlib Require Import Lia NArith.
From S2P Require Import Prelude RustStr RustNum WfGates WfNodes WfExec WfFleet WfReplay.

Module WfReplayTheorems.
Import WfNodes WfExec WfFleet WfReplay.

Section Facts.
Context `{LeafHash} (trace : WorkflowReplayTrace) (options : ReplayOptions) (spec : WorkflowSpec).

Lemma elem_of_select {A} (ns : list (list N * A)) ids x : x ∈ select_nodes ns ids -> exists i, (i, x) ∈ ns.
Proof.
  unfold select_nodes. intros (id & _ & E)%list_elem_of_omap.
  destruct (List.find _ (reverse ns)) as [[i y]|] eqn:Ef; [|done]. simpl in E. injection E as ->.
  apply find_elem_of in Ef as [Hin _]. exists i. by apply elem_of_reverse.
Qed.

(** ** Invariants

    What leaves, decisions and branches keep, a run keeps. *)
Section Invariant.
Context (I : State -> Prop).
Context (Hleaf : forall l s s', I s -> replay_leaf trace options spec l s = RDone s' -> I s').
Context (Hcontrol : forall id kind children summary s, I s ->
  I (push_control_or_diverge id kind (control_record trace id kind) children summary s)).
Context (Hbranch : forall id before s, I s -> I (push_branch_result id before s)).

Definition keeps (r : Run) : Prop := forall s s', I s -> r s = RDone s' -> I s'.

Lemma run_all_keeps rs : Forall keeps rs -> keeps (run_all rs).
Proof.
  induction 1 as [|r rs Hr _ IH]; intros s s' Hs; simpl; [by intros [= <-]|].
  destruct (r s) as [s1| |] eqn:E; simpl; [|done..]. intros E'. eapply IH; [|exact E']. by eapply Hr.
Qed.

Lemma map_keeps (f : WorkflowNode -> Run) ns : Forall (fun n => keeps (f n)) ns -> Forall keeps (map f ns).
Proof. induction 1; simpl; by constructor. Qed.

Lemma select_keeps (f : WorkflowNode -> Run) ns ids : Forall (fun n => keeps (f n)) ns ->
  Forall keeps (select_nodes (map (fun c => (node_id c, f c)) ns) ids).
Proof.
  intros Hf. apply Forall_forall. intros r (i & (c & [= <- <-] & Hc%list_elem_of_In)%list_elem_of_In%in_map_iff)%elem_of_select.
  rewrite Forall_forall in Hf. by apply Hf.
Qed.

Lemma replay_node_keeps expand : (forall ns, keeps (expand ns)) -> forall n, keeps (replay_node trace options spec expand n).
Proof.
  intros Hex n. induction n as [h cs IH|l|i cs IH|r|r|i c m cs IH|i c ts es IHt IHe|i src m t _] using node_ind';
    intros s s' Hs; cbn [replay_node].
  - destruct (run_all _ s) as [s1| |] eqn:E; simpl; [|done..]. intros [= <-]. apply Hcontrol, Hbranch.
    eapply run_all_keeps; [by apply map_keeps|exact Hs|exact E].
  - by apply Hleaf.
  - destruct (run_all _ s) as [s1| |] eqn:E; simpl; [|done..]. intros [= <-]. apply Hcontrol.
    eapply run_all_keeps; [by apply map_keeps|exact Hs|exact E].
  - intros [= <-]. by apply Hcontrol.
  - intros [= <-]. by apply Hcontrol.
  - destruct (run_all _ s) as [s1| |] eqn:E; simpl; [|done..]. intros [= <-]. apply Hcontrol.
    eapply run_all_keeps; [by apply select_keeps|exact Hs|exact E].
  - rewrite <- map_app. destruct (run_all _ s) as [s1| |] eqn:E; simpl; [|done..]. intros [= <-]. apply Hcontrol.
    eapply run_all_keeps; [|exact Hs|exact E]. apply select_keeps, Forall_app. by split.
  - destruct (validated_or _) as [[]| |]; simpl; [|done..]. destruct (expand _ s) as [s1| |] eqn:E; simpl; [|done..].
    intros [= <-]. apply Hcontrol. by eapply Hex.
Qed.

Lemma replay_level_keeps fuel ns : keeps (replay_level trace options spec fuel ns).
Proof.
  revert ns. induction fuel as [|fuel IH]; intros ns; [by intros s s'|].
  apply run_all_keeps, map_keeps, Forall_forall. intros n _. by apply replay_node_keeps.
Qed.
End Invariant.

(** ** Levels of expansion *)

(** The expansions of a node, without those of generated nodes. *)
Fixpoint expands (n : WorkflowNode) : list (list N) :=
  match n with
  | BranchSet _ cs | Sequence _ cs | LoopUntil _ _ _ cs => concat (map expands cs)
  | Cond _ _ ts es => concat (map expands ts) ++ concat (map expands es)
  | Expand id _ _ _ => [id]
  | Leaf _ | Reduce _ | TeacherReview _ => []
  end.

Definition fine (r : Run) : Prop := forall s, r s <> RNoFuel.

Lemma run_all_fine rs : Forall fine rs -> fine (run_all rs).
Proof.
  induction 1 as [|r rs Hr _ IH]; intros s; simpl; [done|]. specialize (Hr s).
  destruct (r s); simpl; [apply IH|done|done].
Qed.

Definition generated (id : list N) : list WorkflowNode :=
  match control_record trace id KExpand with Some r => rc_generated_nodes r | None => [] end.

Lemma map_fine (f : WorkflowNode -> Run) (P : list N -> Prop) ns :
  Forall (fun n => (forall id, id ∈ expands n -> P id) -> fine (f n)) ns ->
  (forall id, id ∈ concat (map expands ns) -> P id) -> Forall (fun n => fine (f n)) ns.
Proof.
  induction 1 as [|n ns Hn _ IH]; intros HP; constructor; simpl in HP; setoid_rewrite elem_of_app in HP; auto.
Qed.

Lemma select_fine (f : WorkflowNode -> Run) ns ids : Forall (fun n => fine (f n)) ns ->
  Forall fine (select_nodes (map (fun c => (node_id c, f c)) ns) ids).
Proof.
  intros Hf. apply Forall_forall. intros r (i & (c & [= <- <-] & Hc%list_elem_of_In)%list_elem_of_In%in_map_iff)%elem_of_select.
  rewrite Forall_forall in Hf. by apply Hf.
Qed.

Lemma rbind_fine {A B} (r : replayed A) (k : A -> replayed B) :
  r <> RNoFuel -> (forall a, k a <> RNoFuel) -> rbind r k <> RNoFuel.
Proof. destruct r; simpl; auto. Qed.

Lemma replay_node_fine expand n :
  (forall id, id ∈ expands n -> fine (expand (generated id))) -> fine (replay_node trace options spec expand n).
Proof.
  induction n as [h cs IH|l|i cs IH|r|r|i c m cs IH|i c ts es IHt IHe|i src m t _] using node_ind';
    intros Hex s; cbn [replay_node expands] in *; try done.
  - apply rbind_fine; [|done]. apply run_all_fine, Forall_map, (map_fine _ _ _ IH Hex).
  - unfold replay_leaf. by destruct (leaf_answer _ _ _ _ _).
  - apply rbind_fine; [|done]. apply run_all_fine, Forall_map, (map_fine _ _ _ IH Hex).
  - apply rbind_fine; [|done]. apply run_all_fine, select_fine, (map_fine _ _ _ IH Hex).
  - rewrite <- map_app. apply rbind_fine; [|done]. setoid_rewrite elem_of_app in Hex.
    apply run_all_fine, select_fine, Forall_app. split; [apply (map_fine _ _ _ IHt)|apply (map_fine _ _ _ IHe)]; auto.
  - apply rbind_fine; [by destruct (validate_workflow_node_shapes _)|]. intros _.
    apply rbind_fine; [|done]. apply Hex. by left.
Qed.

(** When recorded expansions do not lead back to themselves, a run ends: their ranks bound
    the levels it takes. *)
Lemma ranked_replay_ends (rank : list N -> nat) :
  (forall id x, x ∈ concat (map expands (generated id)) -> rank x < rank id) ->
  forall k ns, (forall x, x ∈ concat (map expands ns) -> rank x < k) -> fine (replay_level trace options spec (S k) ns).
Proof.
  intros Hrank k. induction k as [|k IH]; intros ns Hns; apply run_all_fine, Forall_map;
    (eapply map_fine; [apply Forall_true; intros n; apply replay_node_fine|]).
  - intros id Hid. apply Hns in Hid. lia.
  - intros id Hid. apply IH. intros x Hx. specialize (Hrank id x Hx). specialize (Hns id Hid). lia.
Qed.

(** ** The walk *)

(** The last element of the list with a property, or that there is none. *)
Definition last_match {A} (P : A -> Prop) (l : list A) (o : option A) : Prop :=
  match o with
  | Some x => exists l1 l2, l = l1 ++ x :: l2 /\ P x /\ Forall (fun y => ~ P y) l2
  | None => Forall (fun y => ~ P y) l
  end.

Lemma find_reverse {A} (p : A -> bool) (P : A -> Prop) l :
  (forall x, p x = true <-> P x) -> last_match P l (List.find p (reverse l)).
Proof.
  intros Hp. induction l as [|x l IH] using rev_ind; [constructor|]. rewrite reverse_snoc. cbn [List.find].
  destruct (p x) eqn:E.
  - exists l, []. split; [done|]. split; [by apply Hp|constructor].
  - assert (~ P x) as Hx by (rewrite <-Hp; by rewrite E).
    destruct (List.find p (reverse l)) as [y|]; cbn [last_match] in *.
    + destruct IH as (l1 & l2 & -> & HP & HF). exists l1, (l2 ++ [x]). rewrite <-(assoc_L (++)). split; [done|].
      split; [done|]. apply Forall_app. split; [done|by repeat constructor].
    + apply Forall_app. split; [done|by repeat constructor].
Qed.

(** The record of a decision, and of a leaf with the hash of its inputs. *)
Definition decides (id : list N) (kind : ControlNodeKind) (r : ReplayControlRecord) : Prop :=
  rc_trace_id r = trace_id trace /\ rc_node_id r = id /\ rc_kind r = kind.

Definition decision (id : list N) (kind : ControlNodeKind) : option ReplayControlRecord -> Prop :=
  last_match (decides id kind) (control_records trace).

Definition answers (l : LeafSpec) (hash : list N) (r : ReplayLeafRecord) : Prop :=
  rl_trace_id r = trace_id trace /\ rl_leaf_id r = leaf_id l /\ rl_input_hash r = hash.

(** The children with the ids of a selection, in its order; of several with one id the
    last, and an id that no child has selects nothing. *)
Inductive chosen (ns : list WorkflowNode) : list (list N) -> list WorkflowNode -> Prop :=
| chosen_nil : chosen ns [] []
| chosen_some id ids n picked :
    last_match (fun c => node_id c = id) ns (Some n) -> chosen ns ids picked -> chosen ns (id :: ids) (n :: picked)
| chosen_none id ids picked :
    last_match (fun c => node_id c = id) ns None -> chosen ns ids picked -> chosen ns (id :: ids) picked.

(** What happens on a walk. *)
Inductive event : Type := ELeaf (l : LeafSpec) | EControl (id : list N) (kind : ControlNodeKind).

(** The walk over a node: the children in order where the workflow says which they are, the
    recorded selection where it was decided, and for an expansion the recorded nodes. *)
Inductive visits : WorkflowNode -> list event -> Prop :=
| visits_leaf l : visits (Leaf l) [ELeaf l]
| visits_branch_set head children evs :
    visits_all children evs -> visits (BranchSet head children) (evs ++ [EControl (branch_id head) KBranchSet])
| visits_sequence id children evs :
    visits_all children evs -> visits (Sequence id children) (evs ++ [EControl id KSequence])
| visits_reduce r : visits (Reduce r) [EControl (reduce_id r) KReduce]
| visits_review r : visits (TeacherReview r) [EControl (review_id r) KTeacherReview]
| visits_loop id c m children record picked evs :
    decision id KLoopUntil record ->
    chosen children (match record with Some r => cr_selected_children (rc_result r) | None => node_id <$> children end) picked ->
    visits_all picked evs -> visits (LoopUntil id c m children) (evs ++ [EControl id KLoopUntil])
| visits_cond id c then_nodes else_nodes record picked evs :
    decision id KCond record ->
    chosen (then_nodes ++ else_nodes) (match record with Some r => cr_selected_children (rc_result r) | None => [] end) picked ->
    visits_all picked evs -> visits (Cond id c then_nodes else_nodes) (evs ++ [EControl id KCond])
| visits_expand id source m t record evs :
    decision id KExpand record ->
    visits_all (match record with Some r => rc_generated_nodes r | None => [] end) evs ->
    visits (Expand id source m t) (evs ++ [EControl id KExpand])
with visits_all : list WorkflowNode -> list event -> Prop :=
| visits_nil : visits_all [] []
| visits_cons n ns e1 e2 : visits n e1 -> visits_all ns e2 -> visits_all (n :: ns) (e1 ++ e2).

Definition leaves_of (evs : list event) : list LeafSpec :=
  omap (fun e => match e with ELeaf l => Some l | _ => None end) evs.
Definition controls_of (evs : list event) : list (list N * ControlNodeKind) :=
  omap (fun e => match e with EControl id kind => Some (id, kind) | _ => None end) evs.

(** ** Where results come from *)

(** The outputs after leaves with these results, in their order. *)
Definition outputs_after (o : Outputs) (log : list (LeafSpec * LeafResult)) : Outputs :=
  fold_left (fun m x => <[leaf_id x.1 := lr_output x.2]> m) log o.

(** A leaf's result: that of its record for the inputs it has, or a placeholder. *)
Definition answered_by_record (o : Outputs) (l : LeafSpec) (r : LeafResult) : Prop :=
  exists hash record, compute_leaf_input_hash spec l (resolved_inputs_for_leaf l o) = Ok hash
    /\ last_match (answers l hash) (leaf_records trace) record
    /\ match record with
       | Some rec => rl_result rec = r
       | None => r = diverged_leaf l /\ allow_live_replay options = false
       end.

(** A decision's result: that of its record, or a placeholder. *)
Definition decided_by_record (x : list N * ControlNodeKind) (c : ControlNodeResult) : Prop :=
  exists record, decision x.1 x.2 record
    /\ match record with
       | Some r => rc_result r = c
       | None => cr_node_id c = x.1 /\ cr_kind c = x.2 /\ cr_status c = ReplayDiverged
       end.

(** The events of a walk, from one state to another. *)
Definition follows (evs : list event) (s s' : State) : Prop :=
  exists log cs, log.*1 = leaves_of evs /\ leaf_results s'.2 = leaf_results s.2 ++ log.*2
    /\ s'.1 = outputs_after s.1 log
    /\ (forall i l r, log !! i = Some (l, r) -> answered_by_record (outputs_after s.1 (take i log)) l r)
    /\ Forall2 decided_by_record (controls_of evs) cs /\ control_node_results s'.2 = control_node_results s.2 ++ cs.

Lemma follows_nil s s' :
  s'.1 = s.1 -> leaf_results s'.2 = leaf_results s.2 -> control_node_results s'.2 = control_node_results s.2 ->
  follows [] s s'.
Proof. intros E1 E2 E3. exists [], []. cbn. rewrite !(right_id_L [] (++)). split_and!; try done; constructor. Qed.

Lemma follows_app e1 e2 s s1 s2 : follows e1 s s1 -> follows e2 s1 s2 -> follows (e1 ++ e2) s s2.
Proof.
  intros (log1 & c1 & A1 & B1 & C1 & D1 & E1 & F1) (log2 & c2 & A2 & B2 & C2 & D2 & E2 & F2).
  exists (log1 ++ log2), (c1 ++ c2). unfold leaves_of, controls_of in *. rewrite !omap_app, !fmap_app, A1, A2. split_and!.
  - done.
  - by rewrite B2, B1, (assoc_L (++)).
  - unfold outputs_after in *. by rewrite C2, C1, fold_left_app.
  - intros i l r [Hi|[Hi Hl]]%lookup_app_Some.
    + rewrite take_app_le by (apply lookup_lt_Some in Hi; lia). by apply D1.
    + rewrite take_app_ge by done. unfold outputs_after in *. rewrite fold_left_app, <-C1. by apply D2.
  - by apply Forall2_app.
  - by rewrite F2, F1, (assoc_L (++)).
Qed.

Definition bad (st : WorkflowRunStatus) : Prop := st = Failed \/ st = ReplayDiverged.

Definition statuses (e : WorkflowExecution) : list WorkflowRunStatus :=
  (lr_status <$> leaf_results e) ++ (br_status <$> branch_results e) ++ (cr_status <$> control_node_results e).

Definition status_honest (s : State) : Prop :=
  (status s.2 = Succeeded <-> Forall (fun st => ~ bad st) (statuses s.2)) /\ (status s.2 = Succeeded \/ bad (status s.2)).

Lemma control_record_spec id kind : decision id kind (control_record trace id kind).
Proof.
  apply find_reverse. intros r. unfold decides. rewrite !andb_true_iff, !str_eqb_spec, bool_decide_eq_true. tauto.
Qed.

Lemma leaf_record_spec l hash : exists record,
  last_match (answers l hash) (leaf_records trace) record /\ leaf_record trace (leaf_id l) hash = rl_result <$> record.
Proof.
  eexists. split; [|reflexivity]. apply find_reverse. intros r. unfold answers.
  rewrite !andb_true_iff, !str_eqb_spec. tauto.
Qed.

Lemma mark_recorded_fields st e :
  leaf_results (mark_recorded st e) = leaf_results e /\ branch_results (mark_recorded st e) = branch_results e /\
  control_node_results (mark_recorded st e) = control_node_results e.
Proof. by destruct st. Qed.

Lemma leaf_follows l s s' : replay_leaf trace options spec l s = RDone s' -> follows [ELeaf l] s s'.
Proof.
  unfold replay_leaf, leaf_answer. destruct (compute_leaf_input_hash _ _ _) as [hash|] eqn:Eh; [|done]. cbn [result_bind].
  destruct (leaf_record_spec l hash) as (record & Hr & ->). intros Hs.
  assert (exists r, answered_by_record s.1 l r
    /\ s' = (<[leaf_id l := lr_output r]> s.1, push_leaf r (mark_recorded (lr_status r) s.2))) as (r & Ha & ->).
  { destruct record as [rec|]; cbn in Hs.
    - injection Hs as <-. exists (rl_result rec). split; [by exists hash, (Some rec)|done].
    - destruct (allow_live_replay options) eqn:El; [done|]. injection Hs as <-. exists (diverged_leaf l).
      split; [by exists hash, None|done]. }
  exists [(l, r)], []. cbn. destruct (mark_recorded_fields (lr_status r) s.2) as (E1 & _ & E3).
  rewrite E1, E3, (right_id_L [] (++)). split_and!; try done.
  intros i l' r' [-> [= -> ->]]%list_lookup_singleton_Some. done.
Qed.

Lemma control_follows id kind children summary s :
  follows [EControl id kind] s (push_control_or_diverge id kind (control_record trace id kind) children summary s).
Proof.
  pose proof (control_record_spec id kind) as Hd. unfold push_control_or_diverge.
  destruct (control_record trace id kind) as [r|]; cbn.
  - destruct (mark_recorded_fields (cr_status (rc_result r)) s.2) as (E1 & _ & E3).
    exists [], [rc_result r]. cbn. rewrite E1, E3, (right_id_L [] (++)). split_and!; try done.
    constructor; [|constructor]. by exists (Some r).
  - eexists [], [_]. cbn. rewrite (right_id_L [] (++)). split_and!; try done.
    constructor; [|constructor]. by exists None.
Qed.

(** A run is the walk over the nodes. *)
Definition walks (n : WorkflowNode) (r : Run) : Prop :=
  forall s s', r s = RDone s' -> exists evs, visits n evs /\ follows evs s s'.

Lemma run_all_walks (f : WorkflowNode -> Run) ns s s' :
  Forall (fun n => walks n (f n)) ns -> run_all (map f ns) s = RDone s' -> exists evs, visits_all ns evs /\ follows evs s s'.
Proof.
  intros Hf. revert s. induction Hf as [|n ns Hn _ IH]; intros s; cbn.
  { intros [= <-]. exists []. split; [constructor|by apply follows_nil]. }
  destruct (f n s) as [s1| |] eqn:E; cbn; [|done..]. intros (e2 & V2 & F2)%IH.
  destruct (Hn _ _ E) as (e1 & V1 & F1). exists (e1 ++ e2). split; [by constructor|by eapply follows_app].
Qed.

Lemma select_chosen (f : WorkflowNode -> Run) ns ids :
  exists picked, chosen ns ids picked /\ picked ⊆ ns
    /\ select_nodes (map (fun c => (node_id c, f c)) ns) ids = map f picked.
Proof.
  assert (forall id, exists o, last_match (fun c => node_id c = id) ns o
    /\ List.find (fun n => str_eqb n.1 id) (reverse (map (fun c => (node_id c, f c)) ns)) = (fun c => (node_id c, f c)) <$> o) as Hfind.
  { intros id. exists (List.find (fun c => str_eqb (node_id c) id) (reverse ns)).
    split; [apply find_reverse; intros x; apply str_eqb_spec|].
    induction ns as [|x l IH] using rev_ind; [done|]. rewrite map_app, !reverse_app. cbn. by destruct (str_eqb (node_id x) id). }
  induction ids as [|id ids (picked & Hc & Hsub & E)]; [exists []; split; [constructor|]; split; [set_solver|done]|].
  destruct (Hfind id) as (o & Ho & Ef). unfold select_nodes in *. cbn [omap list_omap]. rewrite Ef, E.
  destruct o as [n|]; cbn.
  - exists (n :: picked). split; [by apply chosen_some|]. split; [|done]. destruct Ho as (l1 & l2 & -> & _). set_solver.
  - exists picked. split; [by apply chosen_none|done].
Qed.

Lemma selected_walks (f : WorkflowNode -> Run) ns ids s s' :
  Forall (fun n => walks n (f n)) ns ->
  run_all (select_nodes (map (fun c => (node_id c, f c)) ns) ids) s = RDone s' ->
  exists picked evs, chosen ns ids picked /\ visits_all picked evs /\ follows evs s s'.
Proof.
  intros Hf. destruct (select_chosen f ns ids) as (picked & Hc & Hsub & ->). intros Hr.
  destruct (run_all_walks f picked s s') as (evs & ? & ?); [|done|by exists picked, evs].
  rewrite Forall_forall in *. auto.
Qed.

Lemma replay_node_walks expand :
  (forall ns s s', expand ns s = RDone s' -> exists evs, visits_all ns evs /\ follows evs s s') ->
  forall n, walks n (replay_node trace options spec expand n).
Proof.
  intros Hex n. induction n as [h cs IH|l|i cs IH|r|r|i c m cs IH|i c ts es IHt IHe|i src m t _] using node_ind';
    intros s s'; cbn [replay_node].
  - destruct (run_all _ s) as [s1| |] eqn:E; simpl; [|done..]. intros [= <-].
    destruct (run_all_walks _ _ _ _ IH E) as (evs & V & F). exists (evs ++ [EControl (branch_id h) KBranchSet]).
    split; [by constructor|]. eapply follows_app; [|apply control_follows]. rewrite <-(app_nil_r evs).
    eapply follows_app; [exact F|]. by apply follows_nil; cbn; [|apply mark_recorded_fields..].
  - intros Hl. exists [ELeaf l]. split; [constructor|by apply leaf_follows].
  - destruct (run_all _ s) as [s1| |] eqn:E; simpl; [|done..]. intros [= <-].
    destruct (run_all_walks _ _ _ _ IH E) as (evs & V & F). eexists. split; [by constructor|].
    eapply follows_app; [exact F|apply control_follows].
  - intros [= <-]. eexists. split; [constructor|apply control_follows].
  - intros [= <-]. eexists. split; [constructor|apply control_follows].
  - destruct (run_all _ s) as [s1| |] eqn:E; simpl; [|done..]. intros [= <-].
    destruct (selected_walks _ _ _ _ _ IH E) as (picked & evs & C & V & F). eexists.
    split; [eapply visits_loop; [apply control_record_spec|exact C|exact V]|].
    eapply follows_app; [exact F|apply control_follows].
  - rewrite <- map_app. destruct (run_all _ s) as [s1| |] eqn:E; simpl; [|done..]. intros [= <-].
    assert (Forall (fun n => walks n (replay_node trace options spec expand n)) (ts ++ es)) as IH by (apply Forall_app; by split).
    destruct (selected_walks _ _ _ _ _ IH E) as (picked & evs & C & V & F). eexists.
    split; [eapply visits_cond; [apply control_record_spec|exact C|exact V]|].
    eapply follows_app; [exact F|apply control_follows].
  - destruct (validated_or _) as [[]| |]; simpl; [|done..]. destruct (expand _ s) as [s1| |] eqn:E; simpl; [|done..].
    intros [= <-]. destruct (Hex _ _ _ E) as (evs & V & F). eexists.
    split; [eapply visits_expand; [apply control_record_spec|exact V]|]. eapply follows_app; [exact F|apply control_follows].
Qed.

Lemma replay_level_walks fuel ns s s' :
  replay_level trace options spec fuel ns s = RDone s' -> exists evs, visits_all ns evs /\ follows evs s s'.
Proof.
  revert ns s s'. induction fuel as [|fuel IH]; intros ns s s'; [done|]. cbn [replay_level].
  apply run_all_walks, Forall_forall. intros n _. by apply replay_node_walks.
Qed.

Lemma honest_push st e e' : status_honest e -> status e'.2 = status (mark_recorded st e.2) ->
  statuses e'.2 ≡ₚ st :: statuses e.2 -> status_honest e'.
Proof.
  unfold status_honest. intros [H1 H2] -> Hp. rewrite Hp, Forall_cons, <- H1. unfold bad in *.
  destruct st; simpl; split; naive_solver.
Qed.

Lemma statuses_push_leaf r e : statuses (push_leaf r e) ≡ₚ lr_status r :: statuses e.
Proof. unfold statuses. simpl. rewrite fmap_app. simpl. solve_Permutation. Qed.

Lemma statuses_push_branch r e : statuses (push_branch r e) ≡ₚ br_status r :: statuses e.
Proof. unfold statuses. simpl. rewrite fmap_app. simpl. solve_Permutation. Qed.

Lemma statuses_push_control r e : statuses (push_control r e) ≡ₚ cr_status r :: statuses e.
Proof. unfold statuses. simpl. rewrite fmap_app. simpl. solve_Permutation. Qed.

Lemma statuses_mark st e : statuses (mark_recorded st e) = statuses e.
Proof. by destruct st. Qed.

Lemma status_honest_run fuel ns s s' : status_honest s ->
  replay_level trace options spec fuel ns s = RDone s' -> status_honest s'.
Proof.
  apply (replay_level_keeps status_honest).
  - clear. intros l s s' Hs. unfold replay_leaf. destruct (leaf_answer _ _ _ l s.1) as [r|] eqn:Ea; [|done].
    intros [= <-]. eapply (honest_push (lr_status r)); [exact Hs|done|]. simpl. by rewrite statuses_push_leaf, statuses_mark.
  - clear. intros id kind children summary s Hs. unfold push_control_or_diverge.
    destruct (control_record trace id kind) as [r|]; simpl.
    + eapply (honest_push (cr_status (rc_result r))); [exact Hs|done|]. simpl. by rewrite statuses_push_control, statuses_mark.
    + eapply (honest_push ReplayDiverged); [exact Hs|done|]. simpl. by rewrite statuses_push_control.
  - clear. intros id before s Hs. eapply (honest_push (branch_status (drop before (leaf_results s.2)))); [exact Hs|done|].
    simpl. by rewrite statuses_push_branch, statuses_mark.
Qed.

Lemma replay_run_inv fuel o s : replay_run trace options spec fuel o = RDone s ->
  (exists evs, visits_all (nodes spec) evs /\ follows evs (o, execution_default) s) /\ status_honest s.
Proof.
  unfold replay_run. destruct (validated_or _) as [[]| |]; simpl; [|done..]. intros E.
  split; [by eapply replay_level_walks|].
  eapply status_honest_run; [|exact E]. split; [|by left]. split; [constructor|done].
Qed.

(** C37: A replay invents nothing. Whatever the trace, when a replay ends it walked over the
    workflow ([visits]): children in order, of a loop or a condition the children that the
    decision's record selects, of an expansion the recorded nodes, where a decision's record
    is the last one of the trace for the node's id and kind. Its leaves are those of the
    walk in order, each answered with the trace's last record for its id and the hash of its
    inputs, which are the outputs of the leaves before it, or, when there is none and no
    live replay was asked for, with a placeholder that says that the replay diverged; its
    decisions are those of the walk in order, each with the result of its record or, when
    there is none, a placeholder with the node's id and kind that says so. The run is
    reported as succeeded exactly when no leaf, branch or decision in it failed or diverged.
    When the recorded expansions have ranks that fall, one level more than the highest rank
    is enough for the replay to end. *)
Theorem replay_invents_nothing fuel o :
  (forall s, replay_run trace options spec fuel o = RDone s ->
     (exists evs log, visits_all (nodes spec) evs /\
        log.*1 = leaves_of evs /\ leaf_results s.2 = log.*2 /\ s.1 = outputs_after o log /\
        (forall i l r, log !! i = Some (l, r) -> answered_by_record (outputs_after o (take i log)) l r) /\
        Forall2 decided_by_record (controls_of evs) (control_node_results s.2)) /\
     (status s.2 = Succeeded <-> Forall (fun st => ~ bad st) (statuses s.2))) /\
  (forall rank k, (forall id x, x ∈ concat (map expands (generated id)) -> rank x < rank id) ->
     (forall x, x ∈ concat (map expands (nodes spec)) -> rank x < k) -> k < fuel ->
     replay_run trace options spec fuel o <> RNoFuel).
Proof.
  split.
  - intros s ((evs & V & log & cs & A & B & C & D & E & F) & [Hs _])%replay_run_inv. cbn in B, F. subst cs.
    split; [by exists evs, log|done].
  - intros rank k Hrank Hk Hf. unfold replay_run. apply rbind_fine; [by destruct (validate_workflow_nodes _)|]. intros _.
    destruct fuel as [|fuel]; [lia|]. apply (ranked_replay_ends rank Hrank). intros x Hx. specialize (Hk x Hx). lia.
Qed.
End Facts.

(** ** Examples *)

Section Examples.

Definition sample_hash : LeafHash := fun _ _ l _ => Some (leaf_id l).
#[local] Existing Instance sample_hash.

Definition leaf_result (id : string) (st : WorkflowRunStatus) : LeafResult :=
  {| lr_leaf_id := lit id; lr_task_id := lit id; lr_role := None; lr_profile := None; lr_status := st;
     lr_usage := usage_zero; lr_memo_usage := memo_default; lr_output := Some (lit id); lr_artifacts := [];
     lr_schema_error := None |}.

Definition leaf_trace (ids : list (string * WorkflowRunStatus)) (cs : list ReplayControlRecord) : WorkflowReplayTrace :=
  {| trace_id := lit "t";
     leaf_records := (fun x => {| rl_trace_id := lit "t"; rl_leaf_id := lit x.1; rl_input_hash := lit x.1;
                                  rl_result := leaf_result x.1 x.2 |}) <$> ids;
     control_records := cs |}.

Definition status_of (r : replayed State) : option WorkflowRunStatus :=
  match r with RDone s => Some (status s.2) | _ => None end.

Definition leaves (ids : list string) : WorkflowSpec := WfFleet.plain_spec ((fun id => Leaf (WfFleet.plain_leaf id)) <$> ids).

(** Recorded leaves are replayed; a leaf without a record diverges. *)
Example replay_of_two :
  status_of (replay_run (leaf_trace [("a", Succeeded); ("b", Succeeded)] []) replay_options_default (leaves ["a"; "b"]) 1 ∅)
  = Some Succeeded /\
  status_of (replay_run (leaf_trace [("a", Succeeded)] []) replay_options_default (leaves ["a"; "b"]) 1 ∅)
  = Some ReplayDiverged.
Proof. vm_compute. done. Qed.

(** A run that was cancelled, or that ran out of its budget, is replayed as a success. *)
Example cancelled_run_replays_as_success :
  status_of (replay_run (leaf_trace [("a", Cancelled); ("b", BudgetExceeded)] []) replay_options_default (leaves ["a"; "b"]) 1 ∅)
  = Some Succeeded.
Proof. vm_compute. done. Qed.

(** A failure after a divergence hides it. *)
Example failure_hides_divergence :
  status_of (replay_run (leaf_trace [("b", Failed)] []) replay_options_default (leaves ["a"; "b"]) 1 ∅) = Some Failed.
Proof. vm_compute. done. Qed.

Definition self_expand : WorkflowNode := Expand (lit "x") (lit "plan") None None.

Definition self_record : ReplayControlRecord :=
  {| rc_trace_id := lit "t"; rc_node_id := lit "x"; rc_kind := KExpand;
     rc_result := {| cr_node_id := lit "x"; cr_kind := KExpand; cr_status := Succeeded; cr_selected_children := [];
                     cr_summary := None |};
     rc_generated_nodes := [self_expand] |}.

(** An expansion recorded with itself is expanded for ever. *)
Example self_expansion_never_ends fuel o :
  replay_run (leaf_trace [] [self_record]) replay_options_default (WfFleet.plain_spec [self_expand]) fuel o = RNoFuel.
Proof.
  assert (H : forall s, replay_level (leaf_trace [] [self_record]) replay_options_default
    (WfFleet.plain_spec [self_expand]) fuel [self_expand] s = RNoFuel).
  { induction fuel as [|fuel IH]; intros s; [done|]. cbn [replay_level map run_all self_expand replay_node].
    assert (E : control_record (leaf_trace [] [self_record]) (lit "x") KExpand = Some self_record) by (vm_compute; done).
    rewrite E. cbn [self_record rc_generated_nodes].
    assert (V : validated_or (validate_workflow_node_shapes [self_expand]) = RDone tt) by (vm_compute; done).
    rewrite V. cbn [rbind]. by rewrite IH. }
  unfold replay_run. assert (V : validated_or (validate_workflow_nodes (nodes (WfFleet.plain_spec [self_expand]))) = RDone tt)
    by (vm_compute; done). rewrite V. apply H.
Qed.

End Examples.
End WfReplayTheorems.
